(* ===== verification/_CoqProject ===== *)
-Q . S2P
Prelude.v
GoFloat.v
GoStd.v
GoText.v
GoJSON.v
GoNet.v
Circuit.v
Coordination.v
Budget.v
Enforcer.v
Rate.v
Redis.v
Retry.v
Snapshot.v
CredentialPool.v
Planner.v
Executor.v
Accounting.v
Spool.v
Approval.v
Pipeline.v
Federation.v
Interaction.v
Cache.v
Metering.v
FinOps.v
Guardrail.v
StreamGuard.v
RoutingMetrics.v
LiteWorld.v
LiteUsage.v
LiteAux.v
Lite.v
LiteSafety.v
ApiKey.v
Egress.v
Config.v
ConfigService.v
Delivery.v
LastKnownGood.v
Secrets.v
Admission.v
Limits.v
Console.v
Routes.v
A2ATask.v
AgentCall.v
Relay.v
RelaySafety.v
RelayReplay.v
Singleton.v
Outbox.v
