(* ===== verification/Prelude.v ===== *)
(** * LiteAIG: a verification development of the gateway and its control plane

    LiteAIG is an AI gateway.  A request enters with a virtual key, is admitted into a
    tenant's immutable runtime snapshot, and walks a fixed pipeline of seven stages:
    admission, input guardrail, preflight (approval, rates, budget, cache), resolution
    (routing), execution (retries, circuits, leases, credential pools), output guardrail
    and accounting.  The snapshot is compiled from a versioned configuration document
    that the control plane validates and publishes.  This library translates that code
    from src/internal/ and proves what makes it correct.

    ** Parts, files and sources

    A file models the Go packages its own header names; a definition has the name of
    the Go symbol where Rocq allows it.  The state of a component is a record, a method
    a function from state to result and state, a Go interface a class, an error a value.

    - Foundations.  [Prelude]: int64 with wrap-around, time, errors, automation.
      [GoFloat]: float64 as binary64, with its order.  [GoStd], [GoText], [GoNet]: what
      the program uses of strings, strconv, crypto/sha256, hex, math.Log and net.
      [GoJSON]: encoding/json, printed and parsed, as the frames of a stream need it.
    - Resilience.  [Circuit] (resilience/circuit), [Retry] (resilience/retry),
      [CredentialPool] (resilience/credentialpool), [Coordination]
      (platform/coordination: ledger, leases, counters, slices), [Redis] (the shared
      coordinators and limiters, with their Lua scripts), [Singleton] (app/singleton.go
      over the lease table: jobs that one process runs at a time), [Executor]
      (gateway/execution, resilience/leasegate).
    - Money and rates.  [Budget] (finops/budget), [Enforcer] (app/budgetenforcer.go),
      [Rate] (policy/rate), [Accounting] (finops/accounting), [Spool]
      (platform/storage/spool), [FinOps] (finops/pricing, finops/aggregate), [Metering]
      (tokenizer, contextguard, the estimators of app/pipeline.go).
    - Routing.  [Snapshot] (kernel/runtime), [Planner] (routing/model),
      [RoutingMetrics] (app/routingmetrics.go).
    - Governance.  [Approval] (controlplane/approval and its store, gate and
      checkpoint), [Guardrail] and [StreamGuard] (guardrail, gateway/guardrail),
      [Federation] (federation, app/governance.go, and the table of relationships in
      storage/sqlrepo), [Cache] (cache, gateway/cache).
    - The request.  [Interaction] (kernel/interaction, kernel/context.go), [Pipeline]
      (kernel/pipeline), and [LiteWorld], [LiteUsage], [LiteAux], [Lite], [LiteSafety]:
      app/pipeline.go, which composes all of the above for one request.
    - Tools and agents.  [AgentCall] (agentic/routing, app/federationgate.go,
      gateway/tool, the connectors of agents and tools, the A2A stream), [A2ATask] (the
      durable tasks of sqlrepo/a2atask.go), and [Relay], [RelaySafety], [RelayReplay]:
      app/gateway.go, which runs tool calls and relayed messages through admission,
      federation, task table, breaker, connectors and accounting.  [Outbox]: the callbacks
      of finished tasks (sqlrepo/a2apushoutbox.go and the worker of
      gateway/server/a2a_stream.go) and the domain events (sqlrepo/eventoutbox.go,
      app/outboxworker.go) on their way out.
    - Identity.  [ApiKey] (identity/apikey, identity/pepper.go and their tables),
      [Secrets] (platform/secrets), [Admission] (access/auth, gateway/admission, the key
      operations of app/lite.go), [Egress] (platform/egress).
    - Configuration.  [Config] (the documents, validator and compiler of
      controlplane/config), [ConfigService] (its drafts, publication, rollback and
      reconciliation over storage/sqlrepo), [Delivery] (platform/bundle and
      app/bundlesync.go: signed bundles from a control plane to its gateways),
      [LastKnownGood] (platform/lkg, app/lkgboot.go: the bundle a gateway boots from
      when its store fails).
    - Console.  [Limits] (the rate limiters of controlplane/adminapi), [Console]
      (sessions, login, the user directory, password resets, controlplane/rbac),
      [Routes] (the route table of adminapi/server.go with its middleware, and the
      session, password and OIDC routes that login.go, password_reset.go and
      oidc_login.go register on the same engine).

    ** What the theorems show

    - Components keep their promises under any sequence of operations: the breaker
      refines its abstract circuit, the memory cache an LRU, budget windows conserve
      their tokens and never exceed a hard limit, leases stay within capacity, the
      spool's counters are exact, an active relationship is trusted; leases shared over
      Redis answer as in-process ones that keep whole milliseconds do and a reservation
      is settled once.
    - Decisions are exact: the plan routes precisely the eligible deployments and
      enforces governance, the enforcer admits exactly what every ledger admits, a
      stream is cut precisely when the blocked keyword occurs, the egress policy denies
      precisely the internal ranges.
    - Effects are bounded and undone: no execution leaks a lease or a probe, a refused
      reservation rolls back, no call follows a streamed attempt that had tried to write when it returned; a
      singleton job is not started by a second process while a lease runs, and a
      callback is sent no more often than its attempts allow.
    - Data survives: torn spool tails, circuit state, published policies, cached
      answers, the key pepper and issued keys are read back as they were written; a
      restart runs the snapshots that were published, with the publication time as its
      column keeps it (class [TimeColumn]: microseconds on Postgres); a recorded event
      stays recorded and comes due until it is sent or has failed.
    - Configuration is sound: a compiled snapshot is closed under its references, a
      publication activates what it stored or nothing, and history is append-only; a
      gateway that follows a control plane runs only bundles whose signature verified and
      catches up with it, and its last known good bundle survives an interrupted save.
    - Access is exact: a key is let in precisely when it is valid, as its own tenant and
      project; a revoked key is refused; the console keeps an administrator, ends the
      sessions of a changed account, bounds guesses, and checks roles on every route but
      those listed as open.
    - The composition is safe: in [LiteSafety], a provider is only called for a request
      that was admitted by every gate before it, a run settles its reservation, and an
      unapproved action spends nothing.  In [RelaySafety] and [RelayReplay], an agent is
      only called for a message that passed every gate and whose task was claimed, a
      relay settles its reservation, and an answered message is answered again from the
      table without a call, whatever the other replicas do to it; only a trusted
      relationship carries a call out, a claimed task is relayed by its claimant alone,
      and a stream of well-formed text in short frames arrives as it was sent.
    Each property has a doc comment with its claim id.  Examples without an id that
    describe a surprising behaviour are counterexamples: runs of the model on a
    concrete input where the code departs from its intent or its documentation.

    ** Conventions, bounds and fuel

    - int, int64 and time.Duration are [Z] with [wrap64] written at each operation that
      can leave the range; counters that only count are unbounded where the file says
      so.  float64 is bit-exact.
    - A method that holds its component's mutex is one atomic step.  Where the code does
      not hold one across two effects (the approval table, the pepper table), the two
      effects are separate definitions and interleavings are explicit.
    - Clocks, random sources and identifier generators are inputs; a Go map's iteration
      order is an argument wherever a result depends on it.
    - Fuel: decimal printing has 20 digits, enough for 64 bits; the LRU's eviction loop
      has the length of its list; the attempt loops have MaxAttemptsPerDeployment; the
      text scanners have the length of the text; the IPv6 parser has the eight fields an
      address can hold.  Each bound is one the loop cannot exceed, so none of them
      changes a result.
    - Case folding is bytewise (ASCII).  A panic of the planner is an error in [Lite].
    - A statement on a shared table is atomic, may fail before it runs or lose its answer
      after it, and other replicas' statements may run before each of a relay's own.
    - regexp, encoding/json outside [GoJSON], url.Parse, the HTTP client and AES-GCM are
      classes, with the round-trip laws a theorem needs as named hypotheses, for text
      that is well-formed UTF-8 where encoding/json demands it, and a concrete instance
      in its witness.
    - A file write can stop after any byte: the spool's appends and the last known good
      store's system calls may fail part-way.

    ** Not modelled

    The HTTP servers (but for the writer of event streams), the admin API's view assembly, the wire translation of the protocol
    adapters, storage migrations, telemetry, and the wiring of app/lite.go and cmd/,
    which constructs these components from options and the environment. *)

From Stdlib Require Export ZArith Lia.
From stdpp Require Export base decidable list gmap fin_maps strings sorting.

#[export] Set Default Goal Selector "!".

(** ** Machine integers

    Go's [int] is 64 bits wide on the platforms the gateway is built for, so
    [int], [int64] and [time.Duration] are all [Z] kept in the int64 range by
    [wrap64], which writes out the two's-complement wrap-around. *)

Declare Scope go_scope.
Delimit Scope go_scope with go.

Definition two63 : Z := 9223372036854775808.
Definition two64 : Z := 18446744073709551616.
Definition max_int64 : Z := 9223372036854775807.
Definition min_int64 : Z := -9223372036854775808.

Definition in_int64 (z : Z) : Prop := (min_int64 <= z <= max_int64)%Z.

Definition wrap64 (z : Z) : Z := ((z + two63) mod two64 - two63)%Z.

Notation "a +! b" := (wrap64 (a + b)%Z) (at level 50, left associativity) : go_scope.
Notation "a -! b" := (wrap64 (a - b)%Z) (at level 50, left associativity) : go_scope.
Notation "a *! b" := (wrap64 (a * b)%Z) (at level 40, left associativity) : go_scope.

(** Unsigned 64-bit and 32-bit wrap-around. *)
Definition wrapu64 (z : Z) : Z := (z mod two64)%Z.
Definition wrapu32 (z : Z) : Z := (z mod 4294967296)%Z.

(** ** Time

    A [time.Time] is its number of nanoseconds since the Unix epoch (an
    unbounded [Z]: the Go type covers far more than int64 nanoseconds);
    [zero_time] is Go's zero value, January 1 of year 1.  [Time.Sub] saturates
    to the int64 range, which [time_sub] writes out. *)

Definition nanosecond : Z := 1.
Definition millisecond : Z := 1000000.
Definition second : Z := 1000000000.
Definition minute : Z := 60000000000.
Definition hour : Z := 3600000000000.

Definition zero_time : Z := (-62135596800 * 1000000000)%Z.

Definition clamp64 (z : Z) : Z := Z.max min_int64 (Z.min max_int64 z).
Definition time_sub (a b : Z) : Z := clamp64 (a - b).
Definition time_add (t d : Z) : Z := (t + d)%Z.

(** [t.UnixMilli()] and [time.UnixMilli(ms)]. *)
Definition unix_milli (t : Z) : Z := wrap64 (t / millisecond)%Z.
Definition of_unix_milli (ms : Z) : Z := (ms * millisecond)%Z.

(** ** Errors

    A Go [error]: [ErrNew] is [errors.New] (a sentinel or an ad hoc error, the
    program's sentinels carry pairwise different texts), [ErrWrap] is
    [fmt.Errorf("...: %w", inner)], [ErrJoin] is [errors.Join] of two non-nil
    errors, and [ErrKernel] is a [*kernelerrors.Error]. *)

Inductive error : Type :=
| ErrNew (msg : string)
| ErrWrap (msg : string) (inner : error)
| ErrJoin (left right : error)
| ErrKernel (code msg : string) (retryable : bool).

#[export] Instance error_eq_dec : EqDecision error.
Proof. solve_decision. Defined.

(** [errors.Is(err, target)] walks the unwrap tree. *)
Fixpoint errors_is (err target : error) : bool :=
  bool_decide (err = target) ||
  match err with
  | ErrWrap _ inner => errors_is inner target
  | ErrJoin l r => errors_is l target || errors_is r target
  | _ => false
  end.

(** [errors.Join(a, b)] on possibly-nil errors. *)
Definition errors_join (a b : option error) : option error :=
  match a, b with
  | None, e | e, None => e
  | Some x, Some y => Some (ErrJoin x y)
  end.

(** A value or an error: the model of a Go function returning [(T, error)]
    where the caller discards the value when the error is set. *)
Inductive result (A : Type) : Type :=
| Ok (a : A)
| Err (e : error).
Arguments Ok {A} a.
Arguments Err {A} e.

Definition is_ok {A} (r : result A) : bool :=
  match r with Ok _ => true | Err _ => false end.

(** ** Automation *)

Create HintDb liteaig.

(** Case-split every match and [if] in sight, closing the absurd branches. *)
Ltac go_cases :=
  repeat (case_match || case_bool_decide); simplify_eq/=.

Ltac unfold_ints :=
  unfold in_int64, wrap64, clamp64, two63, two64, max_int64, min_int64 in *.

(** ** Integer lemmas *)

Lemma wrap64_id z : in_int64 z → wrap64 z = z.
Proof.
  unfold_ints. intros H. rewrite Z.mod_small by lia. lia.
Qed.

Lemma wrap64_range z : in_int64 (wrap64 z).
Proof.
  unfold_ints. pose proof (Z.mod_pos_bound (z + 9223372036854775808) 18446744073709551616). lia.
Qed.

Lemma wrap64_add_l a b : wrap64 (wrap64 a + b) = wrap64 (a + b).
Proof.
  unfold wrap64.
  replace ((a + two63) mod two64 - two63 + b + two63)%Z with ((a + two63) mod two64 + b)%Z by lia.
  rewrite Zplus_mod_idemp_l. f_equal. f_equal. lia.
Qed.

Lemma wrap64_sub_l a b : wrap64 (wrap64 a - b) = wrap64 (a - b).
Proof. rewrite <- !Z.add_opp_r. apply wrap64_add_l. Qed.

Lemma wrap64_add_r a b : wrap64 (a + wrap64 b) = wrap64 (a + b).
Proof. rewrite Z.add_comm, wrap64_add_l. f_equal. lia. Qed.

Lemma time_sub_nonneg a b : (b <= a)%Z → (0 <= time_sub a b)%Z.
Proof. unfold time_sub. unfold_ints. lia. Qed.

Lemma time_sub_lt a b d : in_int64 d → (time_sub a b < d)%Z → (a - b < d)%Z.
Proof. unfold time_sub. unfold_ints. lia. Qed.

Lemma time_sub_ge a b d : in_int64 d → (d <= a - b)%Z → (d <= time_sub a b)%Z.
Proof. unfold time_sub. unfold_ints. lia. Qed.

Lemma time_sub_mono a a' b : (a <= a')%Z → (time_sub a b <= time_sub a' b)%Z.
Proof. unfold time_sub. unfold_ints. lia. Qed.

(** ** Sums over finite maps *)

Section map_sum.
Context {K V : Type} `{Countable K}.
Implicit Types (m : gmap K V) (f : V → Z).

Definition map_sum (f : V → Z) (m : gmap K V) : Z :=
  map_fold (λ _ v acc, (f v + acc)%Z) 0%Z m.

Lemma map_sum_empty f : map_sum f ∅ = 0%Z.
Proof. apply map_fold_empty. Qed.

Lemma map_sum_insert_None f m i x :
  m !! i = None → map_sum f (<[i:=x]> m) = (f x + map_sum f m)%Z.
Proof.
  intros Hi. unfold map_sum. rewrite map_fold_insert_L; [done| |done].
  intros. lia.
Qed.

Lemma map_sum_lookup f m i x :
  m !! i = Some x → map_sum f m = (f x + map_sum f (delete i m))%Z.
Proof.
  intros Hi. rewrite <- (insert_delete_id m i x) at 1 by done.
  apply map_sum_insert_None, lookup_delete_eq.
Qed.

Lemma map_sum_insert_Some f m i x y :
  m !! i = Some y → map_sum f (<[i:=x]> m) = (map_sum f m + f x - f y)%Z.
Proof.
  intros Hi. rewrite (map_sum_lookup f m i y Hi).
  rewrite <- insert_delete_eq, map_sum_insert_None by apply lookup_delete_eq. lia.
Qed.

Lemma map_sum_nonneg f m : (∀ v, 0 <= f v)%Z → (0 <= map_sum f m)%Z.
Proof.
  intros Hf. induction m as [|i x m Hi IH] using map_ind.
  - rewrite map_sum_empty. lia.
  - rewrite map_sum_insert_None by done. specialize (Hf x). lia.
Qed.

Lemma map_sum_zero f m : (∀ i v, m !! i = Some v → f v = 0%Z) → map_sum f m = 0%Z.
Proof.
  induction m as [|i x m Hi IH] using map_ind; intros Hz; [apply map_sum_empty|].
  rewrite map_sum_insert_None, (Hz i x), IH; [lia| |apply lookup_insert_eq|done].
  intros j v Hj. apply (Hz j v). rewrite lookup_insert_ne; [done|congruence].
Qed.

Lemma map_sum_filter f (P : K * V → Prop) `{∀ x, Decision (P x)} m :
  (∀ i v, m !! i = Some v → ¬ P (i, v) → f v = 0%Z) →
  map_sum f (filter P m) = map_sum f m.
Proof.
  induction m as [|i x m Hi IH] using map_ind; intros Hz.
  - by rewrite map_filter_empty.
  - assert (∀ j v, m !! j = Some v → ¬ P (j, v) → f v = 0%Z) as Hz'.
    { intros j v Hj. apply Hz. rewrite lookup_insert_ne; [done|congruence]. }
    destruct (decide (P (i, x))) as [HP|HP].
    + rewrite map_filter_insert_True, !map_sum_insert_None, IH; try done.
      apply map_lookup_filter_None. by left.
    + rewrite map_filter_insert_not' by (done || naive_solver).
      rewrite map_sum_insert_None by done.
      rewrite IH by done. rewrite (Hz i x); [lia| |done]. apply lookup_insert_eq.
Qed.
End map_sum.

(** ** List lemmas *)

(** An invariant of every step of a fold is an invariant of the fold. *)
Lemma foldl_invariant {A B : Type} (P : A → Prop) (f : A → B → A) (a : A) (l : list B) :
  (∀ a b, P a → P (f a b)) → P a → P (foldl f a l).
Proof. intros Hf. revert a. induction l as [|b l IH]; intros a Ha; simpl; auto. Qed.

(** ** Sorting

    [sort.SliceStable(l, less)] for a strict weak order [less]: the result is
    determined, and insertion from the right computes it. [sort.Slice] gives the
    same result where no two elements are equivalent. *)

Section stable_sort.
Context {A : Type} (less : A → A → bool).

Fixpoint sort_insert (x : A) (l : list A) : list A :=
  match l with
  | [] => [x]
  | y :: l' => if less y x then y :: sort_insert x l' else x :: l
  end.

Definition stable_sort (l : list A) : list A := foldr sort_insert [] l.

Lemma sort_insert_perm x l : sort_insert x l ≡ₚ x :: l.
Proof.
  induction l as [|y l IH]; simpl; [done|]. destruct (less y x); [|done].
  rewrite IH. apply Permutation_swap.
Qed.

Lemma stable_sort_perm l : stable_sort l ≡ₚ l.
Proof.
  induction l as [|x l IH]; simpl; [done|]. by rewrite sort_insert_perm, IH.
Qed.

Context (less_asym : ∀ x y, less x y = true → less y x = false).
Context (less_trans : ∀ x y z, less y x = false → less z y = false → less z x = false).

(** [x] may come before [y]. *)
Definition not_after (x y : A) : Prop := less y x = false.

Lemma sort_insert_sorted x l :
  StronglySorted not_after l → StronglySorted not_after (sort_insert x l).
Proof.
  induction 1 as [|y l Hl IH Hy]; simpl; [repeat constructor|].
  destruct (less y x) eqn:E.
  - constructor; [done|]. rewrite sort_insert_perm. constructor; [by apply less_asym|done].
  - constructor; [by constructor|]. constructor; [done|].
    eapply Forall_impl; [done|]. intros z. unfold not_after. by apply less_trans.
Qed.

Lemma stable_sort_sorted l : StronglySorted not_after (stable_sort l).
Proof. induction l as [|x l IH]; simpl; [constructor|by apply sort_insert_sorted]. Qed.
End stable_sort.

Lemma stable_sort_nil {A} (less : A → A → bool) l : stable_sort less l = [] → l = [].
Proof. intros H. apply Permutation_nil_r. by rewrite <- H, stable_sort_perm. Qed.

(** Go's [<] on strings: bytewise lexicographic. *)
Definition str_less (a b : string) : bool := String.ltb a b.

Lemma str_less_leb a b : str_less a b = negb (String.leb b a).
Proof.
  unfold str_less, String.ltb, String.leb. rewrite String.compare_antisym.
  by destruct (String.compare b a).
Qed.

Lemma str_less_asym a b : str_less a b = true → str_less b a = false.
Proof.
  rewrite !str_less_leb, negb_true_iff, negb_false_iff. intros H.
  destruct (String.leb_total a b); congruence.
Qed.

Lemma str_less_trans a b c : str_less b a = false → str_less c b = false → str_less c a = false.
Proof.
  rewrite !str_less_leb, !negb_false_iff. intros H1 H2.
  apply Is_true_true. transitivity b; by apply Is_true_true.
Qed.

(** ** Indexes

    A Go map filled by a loop over a slice: the last item of a key wins. *)

Definition index_by {T} (key : T → string) (l : list T) : gmap string T :=
  foldl (λ m x, <[key x := x]> m) ∅ l.

Lemma index_by_snoc {T} (key : T → string) l x :
  index_by key (l ++ [x]) = <[key x := x]> (index_by key l).
Proof. unfold index_by. by rewrite foldl_app. Qed.

Lemma index_by_lookup {T} (key : T → string) l k x :
  index_by key l !! k = Some x → x ∈ l ∧ key x = k.
Proof.
  induction l as [|y l IH] using rev_ind; [done|].
  rewrite index_by_snoc, lookup_insert. case_decide.
  - intros [= ->]. split; [set_solver|done].
  - intros ?%IH. set_solver.
Qed.

Lemma index_by_NoDup {T} (key : T → string) l x :
  NoDup (key <$> l) → x ∈ l → index_by key l !! key x = Some x.
Proof.
  induction l as [|y l IH] using rev_ind; [set_solver|].
  rewrite fmap_app, NoDup_app, index_by_snoc, lookup_insert. intros (Hl&Hd&_) Hx.
  case_decide as Hk.
  - apply elem_of_app in Hx as [Hx|Hx]; [|set_solver].
    exfalso. apply (Hd (key x)); [by apply list_elem_of_fmap_2|]. simpl. set_solver.
  - apply IH; [done|]. set_solver.
Qed.
