(* ===== verification/GoFloat.v ===== *)
(** * Go's float64

    The program meters money, rates and scores in [float64].  The model is the
    Standard Library's executable specification of IEEE 754 binary64
    ([SpecFloat], 53-bit mantissa, exponent bound 1024, round to nearest even):
    every operation below is the correctly rounded one, so witnesses evaluate
    to the bits the gateway computes.  Go fixes these semantics for separate
    operations; fused multiply-add, which the language allows on some targets,
    is not used on amd64.

    The file also gives the order theory of float comparisons ([f64_key] maps a
    non-NaN float to a lexicographically ordered triple), which is what the
    admission checks of the components rest on. *)

From Stdlib Require Export SpecFloat.
From S2P Require Import Prelude.

Open Scope Z_scope.

Abbreviation float64 := spec_float.

Definition f64_add : float64 → float64 → float64 := SFadd 53 1024.
Definition f64_sub : float64 → float64 → float64 := SFsub 53 1024.
Definition f64_mul : float64 → float64 → float64 := SFmul 53 1024.
Definition f64_div : float64 → float64 → float64 := SFdiv 53 1024.
Definition f64_sqrt : float64 → float64 := SFsqrt 53 1024.
Definition f64_neg : float64 → float64 := SFopp.

Definition f64_ltb : float64 → float64 → bool := SFltb.
Definition f64_leb : float64 → float64 → bool := SFleb.
Definition f64_eqb : float64 → float64 → bool := SFeqb.
Definition f64_gtb (x y : float64) : bool := f64_ltb y x.
Definition f64_geb (x y : float64) : bool := f64_leb y x.

Definition f64_is_nan (x : float64) : bool :=
  match x with S754_nan => true | _ => false end.

(** [float64(n)] for an integer [n]. *)
Definition f64_of_Z (z : Z) : float64 := binary_normalize 53 1024 z 0 false.

Definition f64_zero : float64 := S754_zero false.
Definition f64_one : float64 := f64_of_Z 1.

(** A decimal constant [num/den] of the source, correctly rounded. *)
Definition f64_const (num den : Z) : float64 := f64_div (f64_of_Z num) (f64_of_Z den).

(** [int64(x)]: truncation towards zero.  Go leaves the result of an
    out-of-range conversion to the implementation; on amd64, the platform the
    images are built for, it is the smallest int64. *)
Definition f64_trunc (x : float64) : option Z :=
  match x with
  | S754_zero _ => Some 0
  | S754_finite s m e =>
      let a := if 0 <=? e then Z.pos m * 2 ^ e else Z.pos m / 2 ^ (- e) in
      Some (if s then - a else a)
  | _ => None
  end.

Definition f64_to_i64 (x : float64) : Z :=
  match f64_trunc x with
  | Some z => if (min_int64 <=? z) && (z <=? max_int64) then z else min_int64
  | None => min_int64
  end.

(** [math.Ceil]: a negative fraction above -1 rounds to -0. *)
Definition f64_ceil (x : float64) : float64 :=
  match x with
  | S754_finite s m e =>
      if 0 <=? e then x
      else
        let whole := Z.pos m / 2 ^ (- e) in
        if s then (if whole =? 0 then S754_zero true else binary_normalize 53 1024 (- whole) 0 false)
        else binary_normalize 53 1024 (if Z.pos m mod 2 ^ (- e) =? 0 then whole else whole + 1) 0 false
  | _ => x
  end.

(** [math.Max], [math.Min] and the builtin [min] on float64: NaN is
    contagious and -0 is below +0. *)
Definition f64_max (x y : float64) : float64 :=
  match x, y with
  | S754_infinity false, _ | _, S754_infinity false => S754_infinity false
  | S754_nan, _ | _, S754_nan => S754_nan
  | S754_zero sx, S754_zero sy => if sx then y else x
  | _, _ => if f64_gtb x y then x else y
  end.

Definition f64_min (x y : float64) : float64 :=
  match x, y with
  | S754_infinity true, _ | _, S754_infinity true => S754_infinity true
  | S754_nan, _ | _, S754_nan => S754_nan
  | S754_zero sx, S754_zero sy => if sx then x else y
  | _, _ => if f64_ltb x y then x else y
  end.

(** The builtin [min]: any NaN operand gives NaN, infinities included. *)
Definition f64_bmin (x y : float64) : float64 :=
  match x, y with
  | S754_nan, _ | _, S754_nan => S754_nan
  | S754_zero sx, S754_zero sy => if sx then x else y
  | _, _ => if f64_ltb x y then x else y
  end.

(** Float terms are kept folded while the components' proofs simplify. *)
Arguments f64_add : simpl never.
Arguments f64_sub : simpl never.
Arguments f64_mul : simpl never.
Arguments f64_div : simpl never.
Arguments f64_sqrt : simpl never.
Arguments f64_ltb : simpl never.
Arguments f64_leb : simpl never.
Arguments f64_eqb : simpl never.
Arguments f64_gtb : simpl never.
Arguments f64_geb : simpl never.
Arguments f64_of_Z : simpl never.
Arguments f64_const : simpl never.
Arguments f64_to_i64 : simpl never.
Arguments f64_ceil : simpl never.
Arguments f64_max : simpl never.
Arguments f64_min : simpl never.
Arguments f64_bmin : simpl never.

(** ** The order of non-NaN floats *)

Definition f64_key (x : float64) : Z * Z * Z :=
  match x with
  | S754_infinity true => (-2, 0, 0)
  | S754_finite true m e => (-1, - e, - Z.pos m)
  | S754_zero _ | S754_nan => (0, 0, 0)
  | S754_finite false m e => (1, e, Z.pos m)
  | S754_infinity false => (2, 0, 0)
  end.

Definition lex_lt (a b : Z * Z * Z) : Prop :=
  let '(a1, a2, a3) := a in
  let '(b1, b2, b3) := b in
  a1 < b1 ∨ (a1 = b1 ∧ (a2 < b2 ∨ (a2 = b2 ∧ a3 < b3))).

(** Close a goal about the comparison of two concrete float shapes. *)
Ltac f64_cases x y :=
  let m := fresh "m" in let e := fresh "e" in let m' := fresh "m" in let e' := fresh "e" in
  destruct x as [[|]|[|]| |[|] m e], y as [[|]|[|]| |[|] m' e']; simpl;
  try (change (Pos.compare_cont Eq m m') with (Pos.compare m m');
       destruct (Z.compare_spec e e'); simpl; try (destruct (Pos.compare_spec m m'); simpl));
  try (split; [intros; first [discriminate | split_and!; [done|done|lia]] | intros (?&?&?); first [discriminate | reflexivity | lia]]).

Lemma f64_ltb_key x y :
  f64_ltb x y = true ↔
  f64_is_nan x = false ∧ f64_is_nan y = false ∧ lex_lt (f64_key x) (f64_key y).
Proof. unfold f64_ltb, SFltb, SFcompare, lex_lt. f64_cases x y. Qed.

Lemma f64_leb_key x y :
  f64_leb x y = true ↔
  f64_is_nan x = false ∧ f64_is_nan y = false ∧ ¬ lex_lt (f64_key y) (f64_key x).
Proof. unfold f64_leb, SFleb, SFcompare, lex_lt. f64_cases x y. Qed.

Lemma lex_lt_trans a b c : lex_lt a b → lex_lt b c → lex_lt a c.
Proof. destruct a as [[??]?], b as [[??]?], c as [[??]?]. simpl. lia. Qed.

Lemma lex_total a b : ¬ lex_lt a b → ¬ lex_lt b a → a = b.
Proof.
  destruct a as [[??]?], b as [[??]?]. simpl. intros. f_equal; [f_equal|]; lia.
Qed.

Lemma f64_ltb_irrefl x : f64_ltb x x = false.
Proof.
  apply not_true_is_false. rewrite f64_ltb_key. intros (_&_&H).
  destruct (f64_key x) as [[??]?]. simpl in H. lia.
Qed.

Lemma f64_ltb_trans x y z : f64_ltb x y = true → f64_ltb y z = true → f64_ltb x z = true.
Proof. rewrite !f64_ltb_key. intros (?&?&?) (?&?&?). eauto using lex_lt_trans. Qed.

Lemma f64_leb_refl x : f64_is_nan x = false → f64_leb x x = true.
Proof.
  intros. rewrite f64_leb_key. split_and!; [done..|].
  destruct (f64_key x) as [[??]?]. simpl. lia.
Qed.

Lemma f64_leb_trans x y z : f64_leb x y = true → f64_leb y z = true → f64_leb x z = true.
Proof.
  rewrite !f64_leb_key. intros (?&?&?) (?&?&?). split_and!; [done..|].
  destruct (f64_key x) as [[??]?], (f64_key y) as [[??]?], (f64_key z) as [[??]?]. simpl in *. lia.
Qed.

(** On non-NaN operands the two comparisons are dual. *)
Lemma f64_ltb_false x y :
  f64_is_nan x = false → f64_is_nan y = false → f64_ltb x y = false → f64_leb y x = true.
Proof.
  intros Hx Hy Hlt. rewrite f64_leb_key. split_and!; [done..|].
  intros Hk. assert (f64_ltb x y = true) by (by rewrite f64_ltb_key). congruence.
Qed.

Lemma f64_leb_ltb x y : f64_leb x y = true → f64_ltb y x = false.
Proof.
  rewrite f64_leb_key. intros (_&_&H). apply not_true_is_false.
  rewrite f64_ltb_key. naive_solver.
Qed.

Lemma f64_leb_nan x y : f64_leb x y = true → f64_is_nan x = false ∧ f64_is_nan y = false.
Proof. rewrite f64_leb_key. naive_solver. Qed.

(** The builtin [min] never exceeds its first operand. *)
Lemma f64_bmin_le x y :
  f64_is_nan x = false → f64_is_nan y = false → f64_leb (f64_bmin x y) x = true.
Proof.
  intros Hx Hy. unfold f64_bmin.
  destruct (f64_ltb x y) eqn:E.
  - destruct x as [[]| | |], y as [[]| | |]; simplify_eq/=; try done; by apply f64_leb_refl.
  - apply f64_ltb_false in E; [|done..].
    destruct x as [[]| | |], y as [[]| | |]; simplify_eq/=; done.
Qed.

Lemma f64_bmin_nan x y :
  f64_is_nan (f64_bmin x y) = f64_is_nan x || f64_is_nan y.
Proof.
  unfold f64_bmin.
  destruct x as [[]| | |], y as [[]| | |]; simpl; try done; by destruct (f64_ltb _ _).
Qed.

(** Sanity checks of the executable arithmetic: 0.1 + 0.2 is the famous
    0.30000000000000004, and the conversion truncates. *)
Example f64_point_three :
  f64_add (f64_const 1 10) (f64_const 2 10) = S754_finite false 5404319552844596 (-54).
Proof. vm_compute. reflexivity. Qed.

Example f64_truncates : f64_to_i64 (f64_const 29 10) = 2 ∧ f64_to_i64 (f64_const (-29) 10) = -2.
Proof. vm_compute. done. Qed.

Example f64_ceils :
  f64_to_i64 (f64_ceil (f64_const 29 10)) = 3 ∧ f64_to_i64 (f64_ceil (f64_const (-29) 10)) = -2 ∧
  f64_ceil (f64_of_Z 7) = f64_of_Z 7 ∧ f64_ceil (f64_const (-1) 2) = S754_zero true.
Proof. vm_compute. done. Qed.
