(* ===== verification/GoStd.v ===== *)
(** * Parts of Go's standard library the program computes with

    Zero-padded decimals, crypto/sha256 with hex and encoding/binary, and
    math.Log, executable, so that hashed and
    weighted selections evaluate to what the gateway computes.  [math.Log] is
    the library's portable routine (the FreeBSD reduction and polynomial). *)

From stdpp Require Import pretty.
From S2P Require Import Prelude GoFloat.

Open Scope Z_scope.

(** ** Strings *)

Lemma str_cons_app c (a b : string) : String c a +:+ b = String c (a +:+ b).
Proof. done. Qed.

Lemma str_nil_app (a : string) : ""%string +:+ a = a.
Proof. done. Qed.

Lemma str_app_assoc (a b c : string) : (a +:+ b) +:+ c = a +:+ (b +:+ c).
Proof. induction a as [|x a IH]; [done|]. by rewrite !str_cons_app, IH. Qed.

Lemma str_app_nil (a : string) : a +:+ ""%string = a.
Proof. induction a as [|x a IH]; [done|]. by rewrite str_cons_app, IH. Qed.

Lemma str_length_app (a b : string) : String.length (a +:+ b) = (String.length a + String.length b)%nat.
Proof. induction a as [|x a IH]; [done|]. rewrite str_cons_app. simpl. by rewrite IH. Qed.

Lemma list_ascii_app (a b : string) :
  String.list_ascii_of_string (a +:+ b) = (String.list_ascii_of_string a ++ String.list_ascii_of_string b)%list.
Proof. induction a as [|x a IH]; [done|]. rewrite str_cons_app. simpl. by rewrite IH. Qed.

Lemma substring_app (a b : string) : String.substring 0 (String.length a) (a +:+ b) = a.
Proof. induction a as [|x a IH]; [by destruct b|]. rewrite str_cons_app. simpl. by rewrite IH. Qed.

(** [strings.Cut] at a character. *)
Fixpoint break_at (c : Ascii.ascii) (s : string) : option (string * string) :=
  match s with
  | EmptyString => None
  | String x s => if Ascii.eqb x c then Some (""%string, s) else (λ p, (String x p.1, p.2)) <$> break_at c s
  end.

Lemma break_at_app c a b :
  c ∉ String.list_ascii_of_string a → break_at c (a +:+ String c b) = Some (a, b).
Proof.
  induction a as [|x a IH]; intros Ha.
  - simpl. by rewrite Ascii.eqb_refl.
  - rewrite str_cons_app. simpl in *. destruct (Ascii.eqb_spec x c); [set_solver|]. by rewrite IH by set_solver.
Qed.

(** A separator that neither head contains splits a string in one way. *)
Lemma split_unique c a1 b1 a2 b2 :
  c ∉ String.list_ascii_of_string a1 → c ∉ String.list_ascii_of_string a2 →
  a1 +:+ String c b1 = a2 +:+ String c b2 → a1 = a2 ∧ b1 = b2.
Proof.
  intros H1 H2 He. pose proof (break_at_app c a1 b1 H1) as Hb.
  rewrite He, break_at_app in Hb by done. by simplify_eq.
Qed.

Definition bytes_of_string (s : string) : list Z :=
  map (λ c, Z.of_N (Ascii.N_of_ascii c)) (String.list_ascii_of_string s).

(** [strings.ToLower] and [strings.EqualFold] on ASCII text. *)
Definition lower_char (c : Ascii.ascii) : Ascii.ascii :=
  let n := Ascii.nat_of_ascii c in
  if (65 <=? n)%nat && (n <=? 90)%nat then Ascii.ascii_of_nat (n + 32) else c.

Definition to_lower (s : string) : string :=
  String.string_of_list_ascii (map lower_char (String.list_ascii_of_string s)).

(** [len([]rune(s))]: every byte that does not continue a well-formed UTF-8
    sequence counts as one rune. *)
Definition within (lo hi b : Z) : bool := (lo <=? b) && (b <=? hi).

Definition continuation : Z → bool := within 128 191.

(** The range of the second byte of a three-byte and of a four-byte sequence. *)
Definition second_of_three (a b : Z) : bool :=
  if a =? 224 then within 160 191 b else if a =? 237 then within 128 159 b else continuation b.

Definition second_of_four (a b : Z) : bool :=
  if a =? 240 then within 144 191 b else if a =? 244 then within 128 143 b else continuation b.

Fixpoint rune_count (bs : list Z) : Z :=
  match bs with
  | [] => 0
  | a :: r1 =>
      1 + match r1 with
          | b :: r2 =>
              if within 194 223 a && continuation b then rune_count r2
              else match r2 with
                   | c :: r3 =>
                       if within 224 239 a && second_of_three a b && continuation c then rune_count r3
                       else match r3 with
                            | d :: r4 =>
                                if within 240 244 a && second_of_four a b && continuation c && continuation d
                                then rune_count r4 else rune_count r1
                            | [] => rune_count r1
                            end
                   | [] => rune_count r1
                   end
          | [] => 0
          end
  end.

(** "héllo €" has seven runes in ten bytes; a stray byte is one rune. *)
Example runes_counted :
  rune_count [104; 195; 169; 108; 108; 111; 32; 226; 130; 172] = 7 ∧ rune_count [195; 40; 255] = 3.
Proof. done. Qed.

(** [utf8.Valid]: what encoding/json writes and reads back as it was. *)
Fixpoint valid_utf8 (bs : list Z) : bool :=
  match bs with
  | [] => true
  | a :: r1 =>
      if within 0 127 a then valid_utf8 r1
      else match r1 with
           | [] => false
           | b :: r2 =>
               if within 194 223 a && continuation b then valid_utf8 r2
               else match r2 with
                    | [] => false
                    | c :: r3 =>
                        if within 224 239 a && second_of_three a b && continuation c then valid_utf8 r3
                        else match r3 with
                             | [] => false
                             | d :: r4 =>
                                 within 240 244 a && second_of_four a b && continuation c && continuation d && valid_utf8 r4
                             end
                    end
           end
  end.

Definition utf8 (s : string) : Prop := valid_utf8 (bytes_of_string s) = true.

(** [strings.TrimSpace]: the ASCII spaces and the UTF-8 encodings of the other
    Unicode White_Space characters.  [front] drops one at the left end. *)
Definition space_front (bs : list Z) : option (list Z) :=
  match bs with
  | a :: r1 =>
      if within 9 13 a || (a =? 32) then Some r1
      else match r1 with
           | b :: r2 =>
               if (a =? 194) && ((b =? 133) || (b =? 160)) then Some r2
               else match r2 with
                    | c :: r3 =>
                        if (a =? 225) && (b =? 154) && (c =? 128) ||
                           (a =? 226) && (b =? 128) && (within 128 138 c || (c =? 168) || (c =? 169) || (c =? 175)) ||
                           (a =? 226) && (b =? 129) && (c =? 159) || (a =? 227) && (b =? 128) && (c =? 128)
                        then Some r3 else None
                    | [] => None
                    end
           | [] => None
           end
  | [] => None
  end.

(** The same at the right end, on the reversed bytes. *)
Definition space_back (rs : list Z) : option (list Z) :=
  match rs with
  | c :: r1 =>
      if within 9 13 c || (c =? 32) then Some r1
      else match r1 with
           | b :: r2 =>
               if (b =? 194) && ((c =? 133) || (c =? 160)) then Some r2
               else match r2 with
                    | a :: r3 => if bool_decide (space_front [a; b; c] = Some []) then Some r3 else None
                    | [] => None
                    end
           | [] => None
           end
  | [] => None
  end.

Fixpoint drop_spaces (step : list Z → option (list Z)) (fuel : nat) (bs : list Z) : list Z :=
  match fuel with
  | O => bs
  | S fuel => match step bs with Some rest => drop_spaces step fuel rest | None => bs end
  end.

Definition trim_space (bs : list Z) : list Z :=
  let left := drop_spaces space_front (length bs) bs in
  reverse (drop_spaces space_back (length left) (reverse left)).

Example trims : trim_space (bytes_of_string "  {a b}
 ") = bytes_of_string "{a b}" ∧ trim_space [226; 128; 128; 65; 194; 160] = [65].
Proof. vm_compute. done. Qed.

(** ** Decimal formatting *)

Definition digits (n : Z) : string := pretty (Z.to_N n).

(** [appendInt(b, x, width)] for non-negative [x]. *)
Definition zero_pad (width : nat) (n : Z) : string :=
  let d := digits n in
  String.concat ""%string (replicate (width - String.length d) "0"%string) +:+ d.

(** ** crypto/sha256 *)

Definition sha_k : list Z :=
  [1116352408; 1899447441; 3049323471; 3921009573; 961987163; 1508970993; 2453635748; 2870763221;
   3624381080; 310598401; 607225278; 1426881987; 1925078388; 2162078206; 2614888103; 3248222580;
   3835390401; 4022224774; 264347078; 604807628; 770255983; 1249150122; 1555081692; 1996064986;
   2554220882; 2821834349; 2952996808; 3210313671; 3336571891; 3584528711; 113926993; 338241895;
   666307205; 773529912; 1294757372; 1396182291; 1695183700; 1986661051; 2177026350; 2456956037;
   2730485921; 2820302411; 3259730800; 3345764771; 3516065817; 3600352804; 4094571909; 275423344;
   430227734; 506948616; 659060556; 883997877; 958139571; 1322822218; 1537002063; 1747873779;
   1955562222; 2024104815; 2227730452; 2361852424; 2428436474; 2756734187; 3204031479; 3329325298].

Definition sha_h0 : list Z :=
  [1779033703; 3144134277; 1013904242; 2773480762; 1359893119; 2600822924; 528734635; 1541459225].

Definition rotr32 (x n : Z) : Z := Z.lor (Z.shiftr x n) (wrapu32 (Z.shiftl x (32 - n))).

(** Big-endian words of a byte string, four bytes each. *)
Fixpoint be_words (bs : list Z) : list Z :=
  match bs with
  | a :: b :: c :: d :: rest => (((a * 256 + b) * 256 + c) * 256 + d) :: be_words rest
  | _ => []
  end.

(** The message schedule, most recent word first. *)
Definition schedule_step (w : list Z) : list Z :=
  let at_ n := nth n w 0 in
  let s0 := let x := at_ 14%nat in Z.lxor (Z.lxor (rotr32 x 7) (rotr32 x 18)) (Z.shiftr x 3) in
  let s1 := let x := at_ 1%nat in Z.lxor (Z.lxor (rotr32 x 17) (rotr32 x 19)) (Z.shiftr x 10) in
  wrapu32 (at_ 15%nat + s0 + at_ 6%nat + s1) :: w.

Definition schedule (block : list Z) : list Z :=
  reverse (Nat.iter 48 schedule_step (reverse (be_words block))).

Definition sha_round (st : list Z) (kw : Z * Z) : list Z :=
  match st with
  | [a; b; c; d; e; f; g; h] =>
      let S1 := Z.lxor (Z.lxor (rotr32 e 6) (rotr32 e 11)) (rotr32 e 25) in
      let ch := Z.lxor (Z.land e f) (Z.land (Z.lxor e 4294967295) g) in
      let t1 := h + S1 + ch + kw.1 + kw.2 in
      let S0 := Z.lxor (Z.lxor (rotr32 a 2) (rotr32 a 13)) (rotr32 a 22) in
      let maj := Z.lxor (Z.lxor (Z.land a b) (Z.land a c)) (Z.land b c) in
      [wrapu32 (t1 + S0 + maj); a; b; c; wrapu32 (d + t1); e; f; g]
  | _ => st
  end.

Definition sha_block (h : list Z) (block : list Z) : list Z :=
  zip_with (λ x y, wrapu32 (x + y)) h (foldl sha_round h (combine sha_k (schedule block))).

Fixpoint be_bytes (width : nat) (z : Z) : list Z :=
  match width with
  | O => []
  | S w => be_bytes w (Z.shiftr z 8) ++ [z mod 256]
  end.

Definition sha_pad (msg : list Z) : list Z :=
  let n := length msg in
  let zeros := Nat.modulo (119 - Nat.modulo n 64) 64 in
  (msg ++ [128] ++ replicate zeros 0 ++ be_bytes 8 (Z.of_nat n * 8))%list.

Fixpoint sha_blocks (fuel : nat) (h bs : list Z) : list Z :=
  match fuel with
  | O => h
  | S fuel => sha_blocks fuel (sha_block h (take 64 bs)) (drop 64 bs)
  end.

(** [sha256.Sum256]. *)
Definition sha256 (msg : list Z) : list Z :=
  let padded := sha_pad msg in
  concat (map (be_bytes 4) (sha_blocks (length padded / 64)%nat sha_h0 padded)).

(** [hex.EncodeToString]. *)
Definition hex_digit (n : Z) : Ascii.ascii :=
  Ascii.ascii_of_N (Z.to_N (if n <? 10 then 48 + n else 87 + n)).

Definition hex_encode (bs : list Z) : string :=
  String.string_of_list_ascii (concat (map (λ b, [hex_digit (b / 16); hex_digit (b mod 16)]) bs)).

(** [binary.BigEndian.Uint64(b[:8])]. *)
Definition be_uint64 (bs : list Z) : Z := foldl (λ acc b, acc * 256 + b) 0 (take 8 bs).

Definition hash64 (s : string) : Z := be_uint64 (sha256 (bytes_of_string s)).

(** The first eight bytes of the digest of "abc" (FIPS 180-4, B.1). *)
Example sha256_abc : hash64 "abc" = 0xba7816bf8f01cfea.
Proof. vm_compute. reflexivity. Qed.

(** A 56-byte message takes two blocks (FIPS 180-4, B.2). *)
Example sha256_two_blocks :
  hash64 "abcdbcdecdefdefgefghfghighijhijkijkljklmklmnlmnomnopnopq" = 0x248d6a61d20638b8.
Proof. vm_compute. reflexivity. Qed.

(** Bytes below 128 are well-formed text, so a digest in hexadecimal is. *)
Lemma ascii_valid_utf8 bs : Forall (λ b, 0 <= b <= 127) bs → valid_utf8 bs = true.
Proof.
  induction 1 as [|b bs Hb _ IH]; [done|]. simpl. unfold within.
  by rewrite (proj2 (Z.leb_le 0 b)), (proj2 (Z.leb_le b 127)) by lia.
Qed.

Lemma be_bytes_range n z : Forall (λ b, 0 <= b < 256) (be_bytes n z).
Proof.
  revert z. induction n as [|n IH]; intros z; simpl; [constructor|]. apply Forall_app. split; [done|].
  repeat constructor; apply Z.mod_pos_bound; lia.
Qed.

Lemma sha256_range msg : Forall (λ b, 0 <= b < 256) (sha256 msg).
Proof.
  unfold sha256. generalize (sha_blocks (length (sha_pad msg) / 64)%nat sha_h0 (sha_pad msg)). intros l.
  induction l as [|w l IH]; cbn [map concat]; [constructor|]. apply Forall_app. split; [apply be_bytes_range|done].
Qed.

Lemma hex_digit_ascii n : 0 <= n < 16 → 0 <= Z.of_N (Ascii.N_of_ascii (hex_digit n)) <= 127.
Proof.
  intros Hn. unfold hex_digit. destruct (Z.ltb_spec n 10); rewrite Ascii.N_ascii_embedding by lia; lia.
Qed.

Lemma hex_utf8 bs : Forall (λ b, 0 <= b < 256) bs → utf8 (hex_encode bs).
Proof.
  intros Hbs. unfold utf8, bytes_of_string, hex_encode. rewrite String.list_ascii_of_string_of_list_ascii.
  apply ascii_valid_utf8. induction Hbs as [|b bs Hb _ IH]; simpl; [constructor|].
  pose proof (Z.div_lt_upper_bound b 16 16 ltac:(lia) ltac:(lia)). pose proof (Z.div_pos b 16 ltac:(lia) ltac:(lia)).
  pose proof (Z.mod_pos_bound b 16 ltac:(lia)). do 2 (constructor; [by apply hex_digit_ascii|]). done.
Qed.

(** ** math.Log *)

Definition Ln2Hi : float64 := S754_finite false 6243314766446592 (-53).
Definition Ln2Lo : float64 := S754_finite false 7382048951581814 (-85).
Definition L1 : float64 := S754_finite false 6004799503160723 (-53).
Definition L2 : float64 := S754_finite false 7205759403686404 (-54).
Definition L3 : float64 := S754_finite false 5146971033736025 (-54).
Definition L4 : float64 := S754_finite false 8006390766270639 (-55).
Definition L5 : float64 := S754_finite false 6551322304906206 (-55).
Definition L6 : float64 := S754_finite false 5517391500461727 (-55).
Definition L7 : float64 := S754_finite false 5331612937900612 (-55).
Definition HalfSqrt2 : float64 := S754_finite false 6369051672525773 (-53).
Definition f64_half : float64 := f64_const 1 2.
Definition f64_two : float64 := f64_of_Z 2.

(** [math.Frexp] of a positive finite number: fraction in [1/2, 1). *)
Definition frexp (m : positive) (e : Z) : float64 * Z :=
  let d := Z.log2 (Z.pos m) + 1 in
  (binary_normalize 53 1024 (Z.pos m) (- d) false, e + d).

Definition f64_log (x : float64) : float64 :=
  match x with
  | S754_nan | S754_infinity false => x
  | S754_zero _ => S754_infinity true
  | S754_infinity true | S754_finite true _ _ => S754_nan
  | S754_finite false m e =>
      let '(f1, ki) := frexp m e in
      let '(f1, ki) := if f64_ltb f1 HalfSqrt2 then (f64_mul f1 f64_two, ki - 1) else (f1, ki) in
      let f := f64_sub f1 f64_one in
      let k := f64_of_Z ki in
      let s := f64_div f (f64_add f64_two f) in
      let s2 := f64_mul s s in
      let s4 := f64_mul s2 s2 in
      let t1 := f64_mul s2 (f64_add L1 (f64_mul s4 (f64_add L3 (f64_mul s4 (f64_add L5 (f64_mul s4 L7)))))) in
      let t2 := f64_mul s4 (f64_add L2 (f64_mul s4 (f64_add L4 (f64_mul s4 L6)))) in
      let R := f64_add t1 t2 in
      let hfsq := f64_mul (f64_mul f64_half f) f in
      f64_sub (f64_mul k Ln2Hi)
        (f64_sub (f64_sub hfsq (f64_add (f64_mul s (f64_add hfsq R)) (f64_mul k Ln2Lo))) f)
  end.
Arguments f64_log : simpl never.

(** The natural logarithm of 0.3 and of 1e-5, to the last bit. *)
Example log_03 :
  f64_log (S754_finite false 5404319552844595 (-54)) = S754_finite true 5422211472926497 (-52) ∧
  f64_log (S754_finite false 5902958103587057 (-69)) = S754_finite true 6481200854248027 (-49).
Proof. vm_compute. done. Qed.
