(* ===== verification/GoText.v ===== *)
(** * Text functions of Go's strings package

    [Contains], [ReplaceAll], [Fields] and [ContainsAny], executable on byte
    strings, with the theory of substrings that the guardrails rest on: a
    substring of a concatenation lies in one part or across the seam. *)

From S2P Require Import Prelude GoStd.

Open Scope Z_scope.

(** [strings.Contains(s, p)]. *)
Fixpoint contains (p s : string) : bool :=
  String.prefix p s || match s with EmptyString => false | String _ rest => contains p rest end.

(** [strings.ReplaceAll(s, p, r)] for a non-empty [p]: leftmost, not overlapping. *)
Fixpoint replace_from (fuel : nat) (p r s : string) : string :=
  match fuel with
  | O => s
  | S fuel =>
      if String.prefix p s
      then r +:+ replace_from fuel p r (String.substring (String.length p) (String.length s - String.length p) s)
      else match s with
           | EmptyString => EmptyString
           | String c rest => String c (replace_from fuel p r rest)
           end
  end.

Definition replace_all (p r s : string) : string := replace_from (S (String.length s)) p r s.

Example replaces : replace_all "aa" "b" "aaaxaa" = "baxb"%string.
Proof. vm_compute. reflexivity. Qed.

(** [len(strings.Fields(s))]: the maximal runs without white space. *)
Fixpoint fields_from (fuel : nat) (inside : bool) (bs : list Z) : Z :=
  match fuel with
  | O => 0
  | S fuel =>
      match bs with
      | [] => 0
      | _ :: rest =>
          match space_front bs with
          | Some after => fields_from fuel false after
          | None => (if inside then 0 else 1) + fields_from fuel true rest
          end
      end
  end.

Definition fields_count (s : string) : Z := fields_from (S (String.length s)) false (bytes_of_string s).

Example fields_counted : fields_count "  two words " = 2.
Proof. vm_compute. reflexivity. Qed.

(** [strings.ContainsAny(s, chars)] for ASCII [chars]. *)
Definition contains_any (chars s : string) : bool :=
  existsb (λ c, bool_decide (c ∈ String.list_ascii_of_string chars)) (String.list_ascii_of_string s).

(** The last [n] bytes of a string. *)
Definition last_bytes (n : nat) (s : string) : string :=
  String.substring (String.length s - n) n s.

(** ** Substrings *)

Lemma prefix_spec p s : String.prefix p s = true ↔ ∃ t, s = p +:+ t.
Proof.
  revert s. induction p as [|c p IH]; intros s; simpl.
  - split; [by exists s|by destruct s].
  - destruct s as [|d s]; [split; [done|by intros [t ?]]|]. simpl.
    destruct (Ascii.ascii_dec c d) as [->|Hne].
    + rewrite IH. split; intros [t Ht]; exists t; rewrite ?str_cons_app in *; congruence.
    + split; [done|]. intros [t Ht]. rewrite str_cons_app in Ht. congruence.
Qed.

Lemma contains_spec p s : contains p s = true ↔ ∃ a b, s = a +:+ p +:+ b.
Proof.
  induction s as [|c s IH]; cbn [contains]; rewrite orb_true_iff, prefix_spec.
  - split.
    + intros [[t Ht]|]; [|done]. by exists ""%string, t.
    + intros (a & b & Hab). left. destruct a; [|done]. by exists b.
  - rewrite IH. split.
    + intros [[t Ht]|(a & b & Hab)]; [by exists ""%string, t|]. exists (String c a), b. by rewrite str_cons_app, <- Hab.
    + intros (a & b & Hab). destruct a as [|d a]; [left; by exists b|]. right.
      rewrite str_cons_app in Hab. injection Hab as -> Hab. by exists a, b.
Qed.

Lemma contains_app_l p s t : contains p s = true → contains p (s +:+ t) = true.
Proof. rewrite !contains_spec. intros (a & b & ->). exists a, (b +:+ t). by rewrite !str_app_assoc. Qed.

Lemma contains_app_r p s t : contains p t = true → contains p (s +:+ t) = true.
Proof. rewrite !contains_spec. intros (a & b & ->). exists (s +:+ a), b. by rewrite !str_app_assoc. Qed.

(** Two ways to cut the same string. *)
Lemma str_app_cut (a b c d : string) :
  a +:+ b = c +:+ d → (String.length a <= String.length c)%nat → ∃ m, c = a +:+ m ∧ b = m +:+ d.
Proof.
  revert c. induction a as [|x a IH]; intros c He Hl; [by exists c|].
  destruct c as [|y c]; [simpl in Hl; lia|]. rewrite !str_cons_app in He. injection He as -> He.
  destruct (IH c He) as (m & -> & ->); [simpl in Hl; lia|]. exists m. by rewrite str_cons_app.
Qed.

Lemma substring_full s : String.substring 0 (String.length s) s = s.
Proof. induction s as [|c s IH]; [done|]. simpl. by rewrite IH. Qed.

Lemma substring_suffix s k :
  (k <= String.length s)%nat →
  ∃ a, String.length a = k ∧ s = a +:+ String.substring k (String.length s - k) s.
Proof.
  revert k. induction s as [|c s IH]; intros k Hk.
  - exists ""%string. simpl in *. replace k with 0%nat by lia. done.
  - destruct k as [|k].
    + exists ""%string. rewrite Nat.sub_0_r, substring_full. done.
    + destruct (IH k) as (a & Ha & Hs); [simpl in Hk; lia|]. exists (String c a). simpl. split; [by rewrite Ha|].
      by rewrite str_cons_app, <- Hs.
Qed.

Lemma last_bytes_spec n s :
  (n <= String.length s)%nat → ∃ a, s = a +:+ last_bytes n s ∧ String.length (last_bytes n s) = n.
Proof.
  unfold last_bytes. intros Hn. destruct (substring_suffix s (String.length s - n)) as (a & Ha & Hs); [lia|].
  replace (String.length s - (String.length s - n))%nat with n in Hs by lia.
  exists a. split; [done|]. apply (f_equal String.length) in Hs. rewrite str_length_app in Hs. lia.
Qed.
