(* ===== verification/GoJSON.v ===== *)
(** * encoding/json

    What the A2A streaming profile uses of Go's encoding/json, executable on byte strings:
    the grammar of values, the strings with their escapes and surrogates, the printer with
    its escapes for HTML, the raw text of members and items, and decoding into strings,
    pointers, slices, fields of structs and values without a type.  A number keeps its
    literal.

    The main theorem: what is printed is read back as it was. *)

From Stdlib Require Import Ascii.
From S2P Require Import Prelude GoFloat GoStd.

Open Scope string_scope.
Open Scope Z_scope.

Inductive json :=
| JNull
| JBool (b : bool)
| JNum (literal : string)
| JStr (text : string)
| JArr (items : list json)
| JObj (members : list (string * json)).

(** ** Text *)

Definition code (c : ascii) : Z := Z.of_N (N_of_ascii c).
Definition byte (n : Z) : ascii := ascii_of_N (Z.to_N n).

Definition dquote : ascii := byte 34.
Definition backslash : ascii := byte 92.

(** The length of the well-formed UTF-8 sequence at the front, or 0. *)
Definition rune_len (s : string) : nat :=
  match s with
  | "" => 0%nat
  | String a r1 =>
      if code a <? 128 then 1%nat
      else match r1 with
           | "" => 0%nat
           | String b r2 =>
               if within 194 223 (code a) && continuation (code b) then 2%nat
               else match r2 with
                    | "" => 0%nat
                    | String c r3 =>
                        if within 224 239 (code a) && second_of_three (code a) (code b) && continuation (code c) then 3%nat
                        else match r3 with
                             | "" => 0%nat
                             | String d _ =>
                                 if within 240 244 (code a) && second_of_four (code a) (code b) && continuation (code c) && continuation (code d)
                                 then 4%nat else 0%nat
                             end
                    end
           end
  end.

(** [utf8.Valid]; [k] bytes of a sequence are still to come. *)
Fixpoint text_from (k : nat) (s : string) : bool :=
  match s with
  | "" => (k =? 0)%nat
  | String _ rest =>
      match k with
      | S k => text_from k rest
      | O => match rune_len s with O => false | S n => text_from n rest end
      end
  end.
Definition text (s : string) : bool := text_from 0 s.

(** [utf8.AppendRune]. *)
Definition utf8_encode (r : Z) : string :=
  let tail shift := byte (128 + Z.land (Z.shiftr r shift) 63) in
  if r <? 128 then String (byte r) ""
  else if r <? 2048 then String (byte (192 + Z.shiftr r 6)) (String (tail 0) "")
  else if r <? 65536 then String (byte (224 + Z.shiftr r 12)) (String (tail 6) (String (tail 0) ""))
  else String (byte (240 + Z.shiftr r 18)) (String (tail 12) (String (tail 6) (String (tail 0) ""))).

Definition rune_error : string := utf8_encode 65533.

(** ** Reading strings *)

Definition hex_value (c : ascii) : option Z :=
  let n := code c in
  if within 48 57 n then Some (n - 48) else if within 97 102 n then Some (n - 87) else if within 65 70 n then Some (n - 55) else None.

Definition hex4 (a b c d : ascii) : option Z :=
  match hex_value a, hex_value b, hex_value c, hex_value d with
  | Some a, Some b, Some c, Some d => Some (((a * 16 + b) * 16 + c) * 16 + d)
  | _, _, _, _ => None
  end.

Definition simple_escape (e : ascii) : option ascii :=
  let n := code e in
  if (n =? 34) || (n =? 92) || (n =? 47) then Some e
  else if n =? 98 then Some (byte 8) else if n =? 102 then Some (byte 12) else if n =? 110 then Some (byte 10)
  else if n =? 114 then Some (byte 13) else if n =? 116 then Some (byte 9) else None.

Definition prepend (front : string) (r : option (string * string)) : option (string * string) :=
  match r with Some (s, rest) => Some (front +:+ s, rest) | None => None end.

(** The text up to the closing quote, and what follows it. *)
Fixpoint read_string (k : nat) (s : string) : option (string * string) :=
  match s with
  | "" => None
  | String c rest =>
      match k with
      | S k => prepend (String c "") (read_string k rest)
      | O =>
          if bool_decide (c = dquote) then Some ("", rest)
          else if bool_decide (c = backslash) then
            match rest with
            | String e after =>
                if code e =? 117 then
                  match after with
                  | String h1 (String h2 (String h3 (String h4 after))) =>
                      match hex4 h1 h2 h3 h4 with
                      | None => None
                      | Some r =>
                          if negb (within 55296 57343 r) then prepend (utf8_encode r) (read_string 0 after)
                          else match after with
                               | String b (String u (String l1 (String l2 (String l3 (String l4 last))))) =>
                                   match hex4 l1 l2 l3 l4 with
                                   | Some low =>
                                       if bool_decide (b = backslash) && (code u =? 117) && (r <? 56320) && within 56320 57343 low
                                       then prepend (utf8_encode ((r - 55296) * 1024 + (low - 56320) + 65536)) (read_string 0 last)
                                       else prepend rune_error (read_string 0 after)
                                   | None => prepend rune_error (read_string 0 after)
                                   end
                               | _ => prepend rune_error (read_string 0 after)
                               end
                      end
                  | _ => None
                  end
                else match simple_escape e with Some c => prepend (String c "") (read_string 0 after) | None => None end
            | "" => None
            end
          else if code c <? 32 then None
          else match rune_len s with
               | O => prepend rune_error (read_string 0 rest)
               | S n => prepend (String c "") (read_string n rest)
               end
      end
  end.

(** ** Reading numbers *)

Definition digit (c : ascii) : bool := within 48 57 (code c).

Fixpoint digits_front (s : string) : string * string :=
  match s with
  | String c rest => if digit c then let '(ds, after) := digits_front rest in (String c ds, after) else ("", s)
  | "" => ("", "")
  end.

Definition read_integer (s : string) : option (string * string) :=
  match s with
  | String c rest =>
      if code c =? 48 then Some (String c "", rest)
      else if digit c then Some (digits_front s) else None
  | "" => None
  end.

Definition some_digits (s : string) : option (string * string) :=
  match digits_front s with ("", _) => None | r => Some r end.

Definition read_fraction (s : string) : option (string * string) :=
  match s with
  | String c rest => if code c =? 46 then prepend (String c "") (some_digits rest) else Some ("", s)
  | "" => Some ("", "")
  end.

Definition read_exponent (s : string) : option (string * string) :=
  match s with
  | String c rest =>
      if (code c =? 101) || (code c =? 69) then
        prepend (String c "")
          (match rest with
           | String sign after => if (code sign =? 43) || (code sign =? 45) then prepend (String sign "") (some_digits after) else some_digits rest
           | "" => None
           end)
      else Some ("", s)
  | "" => Some ("", "")
  end.

Definition chain (front : string) (read : string → option (string * string)) (r : option (string * string)) : option (string * string) :=
  match r with Some (s, rest) => prepend (front +:+ s) (read rest) | None => None end.

Definition read_number (s : string) : option (string * string) :=
  let '(sign, s) := match s with String c rest => if code c =? 45 then (String c "", rest) else ("", s) | "" => ("", s) end in
  chain "" read_exponent (chain sign read_fraction (read_integer s)).

(** ** Reading values *)

Definition space (c : ascii) : bool := (code c =? 32) || (code c =? 9) || (code c =? 10) || (code c =? 13).

Fixpoint skip (s : string) : string :=
  match s with String c rest => if space c then skip rest else s | "" => "" end.

Section Sequences.
Context {A : Type} (value : string → option (A * string)).

(** The items of an array after its bracket, of which there is one at least. *)
Fixpoint read_items (n : nat) (s : string) : option (list A * string) :=
  match n with
  | O => None
  | S n =>
      match value s with
      | None => None
      | Some (v, rest) =>
          match skip rest with
          | String c after =>
              if code c =? 44 then match read_items n after with Some (vs, last) => Some (v :: vs, last) | None => None end
              else if code c =? 93 then Some ([v], after) else None
          | "" => None
          end
      end
  end.

Definition read_key (s : string) : option (string * string) :=
  match skip s with
  | String c rest =>
      if bool_decide (c = dquote) then
        match read_string 0 rest with
        | Some (key, rest) =>
            match skip rest with String c after => if code c =? 58 then Some (key, after) else None | "" => None end
        | None => None
        end
      else None
  | "" => None
  end.

Fixpoint read_members (n : nat) (s : string) : option (list (string * A) * string) :=
  match n with
  | O => None
  | S n =>
      match read_key s with
      | None => None
      | Some (key, rest) =>
          match value rest with
          | None => None
          | Some (v, rest) =>
              match skip rest with
              | String c after =>
                  if code c =? 44 then match read_members n after with Some (vs, last) => Some ((key, v) :: vs, last) | None => None end
                  else if code c =? 125 then Some ([(key, v)], after) else None
              | "" => None
              end
          end
      end
  end.

(** The same, possibly empty. *)
Definition read_array (n : nat) (s : string) : option (list A * string) :=
  match skip s with
  | String c after => if code c =? 93 then Some ([], after) else read_items n s
  | "" => None
  end.

Definition read_object (n : nat) (s : string) : option (list (string * A) * string) :=
  match skip s with
  | String c after => if code c =? 125 then Some ([], after) else read_members n s
  | "" => None
  end.
End Sequences.

Definition literal (word s : string) (v : json) : option (json * string) :=
  if String.prefix word s then Some (v, String.substring (String.length word) (String.length s - String.length word) s) else None.

(** Go's decoder gives up below ten thousand levels. *)
Definition maxNestingDepth : nat := Z.to_nat 10000.

(** [fuel] bounds the levels that are left. *)
Fixpoint read_value (fuel : nat) (s : string) : option (json * string) :=
  match skip s with
  | "" => None
  | String c rest as s =>
      if bool_decide (c = dquote) then match read_string 0 rest with Some (t, rest) => Some (JStr t, rest) | None => None end
      else if code c =? 91 then
        match fuel with
        | O => None
        | S fuel => match read_array (read_value fuel) (String.length rest) rest with Some (l, rest) => Some (JArr l, rest) | None => None end
        end
      else if code c =? 123 then
        match fuel with
        | O => None
        | S fuel => match read_object (read_value fuel) (String.length rest) rest with Some (l, rest) => Some (JObj l, rest) | None => None end
        end
      else if code c =? 110 then literal "null" s JNull
      else if code c =? 116 then literal "true" s (JBool true)
      else if code c =? 102 then literal "false" s (JBool false)
      else match read_number s with Some (n, rest) => Some (JNum n, rest) | None => None end
  end.

Definition SyntaxError : error := ErrNew "invalid JSON".

(** [Decoder.Decode]: the first value of the input. *)
Definition json_first (s : string) : result json :=
  match read_value maxNestingDepth s with Some (v, _) => Ok v | None => Err SyntaxError end.

(** [Unmarshal]: the input is one value. *)
Definition json_parse (s : string) : result json :=
  match read_value maxNestingDepth s with
  | Some (v, rest) => if bool_decide (skip rest = "") then Ok v else Err SyntaxError
  | None => Err SyntaxError
  end.

(** ** Printing: [Marshal] *)

Definition hex_char (n : Z) : ascii := byte (if n <? 10 then 48 + n else 87 + n).

Definition escape (c : ascii) : string :=
  let n := code c in
  let after e := String backslash (String (byte e) "") in
  if (n =? 34) || (n =? 92) then String backslash (String c "")
  else if n =? 8 then after 98 else if n =? 12 then after 102 else if n =? 10 then after 110
  else if n =? 13 then after 114 else if n =? 9 then after 116
  else if (n <? 32) || (n =? 60) || (n =? 62) || (n =? 38)
  then "\u00" +:+ String (hex_char (Z.shiftr n 4)) (String (hex_char (Z.land n 15)) "")
  else String c "".

(** U+2028 and U+2029. *)
Definition line_separator (s : string) : option string :=
  match s with
  | String a (String b (String c _)) =>
      if (code a =? 226) && (code b =? 128) then
        if code c =? 168 then Some "\u2028" else if code c =? 169 then Some "\u2029" else None
      else None
  | _ => None
  end.

(** [k] bytes of a sequence are still to be copied, or left out. *)
Fixpoint quote_from (copy : bool) (k : nat) (s : string) : string :=
  match s with
  | "" => ""
  | String c rest =>
      match k with
      | S k => if copy then String c (quote_from copy k rest) else quote_from copy k rest
      | O =>
          if code c <? 128 then escape c +:+ quote_from true 0 rest
          else match rune_len s with
               | O => "\ufffd" +:+ quote_from true 0 rest
               | S n => match line_separator s with
                        | Some escaped => escaped +:+ quote_from false n rest
                        | None => String c (quote_from true n rest)
                        end
               end
      end
  end.

Definition quote (s : string) : string := String dquote (quote_from true 0 s +:+ String dquote "").

Fixpoint json_print (j : json) : string :=
  match j with
  | JNull => "null"
  | JBool b => if b then "true" else "false"
  | JNum literal => literal
  | JStr t => quote t
  | JArr l => "[" +:+ String.concat "," (map json_print l) +:+ "]"
  | JObj l => "{" +:+ String.concat "," (map (λ kv, quote kv.1 +:+ ":" +:+ json_print kv.2) l) +:+ "}"
  end.

Definition number_literal (l : string) : bool := bool_decide (read_number l = Some (l, "")).

(** Strings are UTF-8, numbers are literals, and the levels are bounded. *)
Fixpoint json_ok (levels : nat) (j : json) {struct j} : bool :=
  match j with
  | JNull | JBool _ => true
  | JNum l => number_literal l
  | JStr t => text t
  | JArr l => match levels with O => false | S n => forallb (json_ok n) l end
  | JObj l => match levels with O => false | S n => forallb (λ kv, text kv.1 && json_ok n kv.2) l end
  end.

Example prints_and_reads :
  let j := JObj [("a<b", JArr [JNum "-1.5e+3"; JNull; JBool true]); ("q", JStr (String dquote (String (byte 10) "x")))] in
  json_parse (json_print j) = Ok j ∧ json_parse " { }x" = Err SyntaxError ∧ json_parse "[1,]" = Err SyntaxError ∧ json_parse "01" = Err SyntaxError.
Proof. vm_compute. auto. Qed.

(** A pair of surrogates is one character, a single one is replaced. *)
Example reads_surrogates :
  json_parse (String dquote ("\ud83d\ude00\ud83dx" +:+ String dquote "")) = Ok (JStr (utf8_encode 128512 +:+ rune_error +:+ "x")).
Proof. vm_compute. reflexivity. Qed.

(** ** What is printed is read back: strings *)

Fixpoint sdrop (k : nat) (s : string) : string :=
  match k, s with S k, String _ rest => sdrop k rest | _, _ => s end.

Lemma read_escape c t : (code c <? 128) = true → read_string 0 (escape c +:+ t) = prepend (String c "") (read_string 0 t).
Proof. destruct c as [[] [] [] [] [] [] [] []]; intros Hc; try discriminate Hc; reflexivity. Qed.

Lemma rune_copied c s n q :
  (code c <? 128) = false → rune_len (String c s) = S n → text_from n s = true → rune_len (String c (quote_from true n s +:+ q)) = S n.
Proof.
  intros Hc Hn Ht. unfold rune_len in *. rewrite Hc in *. destruct s as [|b s]; [done|].
  destruct (within 194 223 (code c) && continuation (code b)) eqn:E2.
  { injection Hn as <-. cbn [quote_from]. rewrite str_cons_app, E2. done. }
  destruct s as [|d s]; [done|]. destruct (within 224 239 (code c) && second_of_three (code c) (code b) && continuation (code d)) eqn:E3.
  { injection Hn as <-. cbn [quote_from]. rewrite !str_cons_app, E2, E3. done. }
  destruct s as [|e s]; [done|].
  destruct (within 240 244 (code c) && second_of_four (code c) (code b) && continuation (code d) && continuation (code e)) eqn:E4; [|done].
  injection Hn as <-. cbn [quote_from]. rewrite !str_cons_app, E2, E3, E4. done.
Qed.

Lemma separator_read s escaped c rest n t :
  s = String c rest → line_separator s = Some escaped → rune_len s = S n →
  n = 2%nat ∧ read_string 0 (escaped +:+ t) = prepend (String.substring 0 3 s) (read_string 0 t) ∧ s = String.substring 0 3 s +:+ sdrop n rest.
Proof.
  intros -> Hs Hn. destruct rest as [|b [|d rest]]; try done. cbn [line_separator] in Hs.
  destruct (Z.eqb_spec (code c) 226) as [Hc|]; [|done]. destruct (Z.eqb_spec (code b) 128) as [Hb|]; [|done]. simpl in Hs.
  unfold rune_len in Hn. rewrite Hc, Hb in Hn. cbn -[continuation code] in Hn.
  assert (c = byte 226) as -> by (rewrite <- Hc; unfold byte, code; rewrite N2Z.id; symmetry; apply ascii_N_embedding).
  assert (b = byte 128) as -> by (rewrite <- Hb; unfold byte, code; rewrite N2Z.id; symmetry; apply ascii_N_embedding).
  assert (String.substring 0 3 (String (byte 226) (String (byte 128) (String d rest))) = String (byte 226) (String (byte 128) (String d ""))) as ->.
  { simpl. by destruct rest. }
  destruct (Z.eqb_spec (code d) 168) as [Hd|]; [|destruct (Z.eqb_spec (code d) 169) as [Hd|]; [|done]]; injection Hs as <-;
    (assert (d = byte (code d)) as Hbd by (unfold byte, code; rewrite N2Z.id; symmetry; apply ascii_N_embedding)); rewrite Hd in Hbd; subst d;
    vm_compute in Hn; injection Hn as <-; done.
Qed.

Lemma read_quoted s rest :
  ∀ k, text_from k s = true →
    read_string k (quote_from true k s +:+ String dquote rest) = Some (s, rest) ∧
    read_string 0 (quote_from false k s +:+ String dquote rest) = Some (sdrop k s, rest).
Proof.
  assert (∀ c : ascii, (code c <? 128) = false → c ≠ dquote ∧ c ≠ backslash ∧ (code c <? 32) = false) as Hhigh.
  { intros c Hc. split_and!; [by intros ->..|]. apply Z.ltb_ge in Hc. apply Z.ltb_ge. lia. }
  induction s as [|c s IH]; intros k Ht.
  - apply Nat.eqb_eq in Ht as ->. done.
  - cbn [text_from] in Ht. destruct k as [|k].
    + assert (read_string 0 (quote_from true 0 (String c s) +:+ String dquote rest) = Some (String c s, rest)) as Hq.
      { cbn [quote_from]. destruct (code c <? 128) eqn:Hc.
        - rewrite str_app_assoc, read_escape by done. unfold rune_len in Ht. rewrite Hc in Ht. by rewrite (proj1 (IH 0%nat Ht)).
        - destruct (rune_len (String c s)) as [|n] eqn:Hn; [done|]. destruct (line_separator (String c s)) as [escaped|] eqn:Hsep.
          + destruct (separator_read _ _ _ _ _ (quote_from false n s +:+ String dquote rest) eq_refl Hsep Hn) as (_ & Hr & Hs).
            rewrite str_app_assoc, Hr, (proj2 (IH n Ht)). cbn [prepend]. by rewrite <- Hs.
          + rewrite str_cons_app. cbn [read_string]. destruct (Hhigh c Hc) as (Hd & Hb & H32).
            rewrite !bool_decide_false, H32, (rune_copied c s n) by done. by rewrite (proj1 (IH n Ht)). }
      split; [exact Hq|]. exact Hq.
    + destruct (IH k Ht) as [Hcopy Hskip]. cbn [quote_from]. split; [|exact Hskip]. rewrite str_cons_app. cbn [read_string]. by rewrite Hcopy.
Qed.

Lemma read_quote s rest : text s = true → read_string 0 (quote_from true 0 s +:+ String dquote rest) = Some (s, rest).
Proof. apply (read_quoted s rest 0). Qed.

(** ** Numbers *)

(** What may follow a number without becoming part of it. *)
Definition ends (rest : string) : Prop :=
  match rest with "" => True | String c _ => digit c = false ∧ code c ≠ 46 ∧ code c ≠ 101 ∧ code c ≠ 69 end.

Lemma digits_front_app s a b rest : digits_front s = (a, b) → ends rest → digits_front (s +:+ rest) = (a, b +:+ rest).
Proof.
  revert a b. induction s as [|c s IH]; intros a b Hs He.
  - injection Hs as <- <-. rewrite str_nil_app. destruct rest as [|c rest]; [done|]. destruct He as [Hd _]. simpl. by rewrite Hd.
  - rewrite str_cons_app. cbn [digits_front] in *. destruct (digit c); [|injection Hs as <- <-; by rewrite str_cons_app].
    destruct (digits_front s) as [ds after]. injection Hs as <- <-. by rewrite (IH ds after eq_refl He).
Qed.

Lemma some_digits_app s a b rest : some_digits s = Some (a, b) → ends rest → some_digits (s +:+ rest) = Some (a, b +:+ rest).
Proof.
  unfold some_digits. intros Hs He. destruct (digits_front s) as [ds after] eqn:E. rewrite (digits_front_app _ _ _ _ E He).
  destruct ds; [done|]. by injection Hs as <- <-.
Qed.

Lemma read_integer_app s a b rest : read_integer s = Some (a, b) → ends rest → read_integer (s +:+ rest) = Some (a, b +:+ rest).
Proof.
  intros Hs He. destruct s as [|c s]; [done|]. rewrite str_cons_app. unfold read_integer in *. destruct (code c =? 48); [by injection Hs as <- <-|].
  destruct (digit c) eqn:Hd; [|done]. injection Hs as Hs. f_equal. rewrite <- str_cons_app. by apply digits_front_app.
Qed.

Lemma prepend_app f s r a b rest : prepend f s = Some (a, b) → (∀ a b, s = Some (a, b) → r = Some (a, b +:+ rest)) → prepend f r = Some (a, b +:+ rest).
Proof. intros Hp Hr. destruct s as [[x y]|]; [|done]. injection Hp as <- <-. by rewrite (Hr x y). Qed.

Lemma read_fraction_app s a b rest : read_fraction s = Some (a, b) → ends rest → read_fraction (s +:+ rest) = Some (a, b +:+ rest).
Proof.
  intros Hs He. destruct s as [|c s].
  - injection Hs as <- <-. rewrite str_nil_app. destruct rest as [|c rest]; [done|]. destruct He as (_ & Hc & _). simpl. by rewrite (proj2 (Z.eqb_neq _ _) Hc).
  - rewrite str_cons_app. unfold read_fraction in *. destruct (code c =? 46); [|injection Hs as <- <-; by rewrite str_cons_app].
    eapply prepend_app; [exact Hs|]. intros x y Hxy. by apply some_digits_app.
Qed.

Lemma read_exponent_app s a b rest : read_exponent s = Some (a, b) → ends rest → read_exponent (s +:+ rest) = Some (a, b +:+ rest).
Proof.
  intros Hs He. destruct s as [|c s].
  - injection Hs as <- <-. rewrite str_nil_app. destruct rest as [|c rest]; [done|]. destruct He as (_ & _ & Hc & Hc'). simpl.
    by rewrite (proj2 (Z.eqb_neq _ _) Hc), (proj2 (Z.eqb_neq _ _) Hc').
  - rewrite str_cons_app. unfold read_exponent in *. destruct (_ || _); [|injection Hs as <- <-; by rewrite str_cons_app].
    eapply prepend_app; [exact Hs|]. intros x y Hxy. destruct s as [|sign s]; [done|]. rewrite str_cons_app. destruct (_ || _).
    + eapply prepend_app; [exact Hxy|]. intros x' y' Hxy'. by apply some_digits_app.
    + rewrite <- str_cons_app. by apply some_digits_app.
Qed.

Lemma chain_app front read r r' a b rest :
  (∀ s a b, read s = Some (a, b) → read (s +:+ rest) = Some (a, b +:+ rest)) → (∀ a b, r = Some (a, b) → r' = Some (a, b +:+ rest)) →
  chain front read r = Some (a, b) → chain front read r' = Some (a, b +:+ rest).
Proof.
  intros Hread Hr Hc. destruct r as [[x y]|]; [|done]. rewrite (Hr x y) by done. simpl in *. eapply prepend_app; [exact Hc|]. intros x' y'. apply Hread.
Qed.

Lemma read_number_app s rest : number_literal s = true → ends rest → read_number (s +:+ rest) = Some (s, rest).
Proof.
  intros Hs He. apply bool_decide_eq_true in Hs. assert (∀ a b, read_number s = Some (a, b) → read_number (s +:+ rest) = Some (a, b +:+ rest)) as Hgen; [|by rewrite (Hgen s ""), str_nil_app].
  assert (∀ sign t a b, chain "" read_exponent (chain sign read_fraction (read_integer t)) = Some (a, b) →
    chain "" read_exponent (chain sign read_fraction (read_integer (t +:+ rest))) = Some (a, b +:+ rest)) as Hchain.
  { intros sign t a b. apply chain_app; [intros; by apply read_exponent_app|]. intros x y. apply chain_app; [intros; by apply read_fraction_app|].
    intros; by apply read_integer_app. }
  intros a b. destruct s as [|c s]; [done|]. rewrite str_cons_app. unfold read_number. destruct (code c =? 45); [apply Hchain|].
  rewrite <- str_cons_app. apply Hchain.
Qed.

(** ** Values *)

(** The first character of a value. *)
Definition opens (c : ascii) : bool := negb (space c) && negb (code c =? 93) && negb (code c =? 125) && negb (code c =? 44).

Lemma number_head s : number_literal s = true →
  ∃ c t, s = String c t ∧ opens c = true ∧ c ≠ dquote ∧ Forall (λ n, (code c =? n) = false) [91; 123; 110; 116; 102].
Proof.
  intros Hs%bool_decide_eq_true. destruct s as [|c t]; [done|]. exists c, t. split; [done|].
  assert (code c = 45 ∨ digit c = true) as Hc.
  { unfold read_number in Hs. destruct (Z.eqb_spec (code c) 45); [by left|]. right. unfold read_integer in Hs. destruct (Z.eqb_spec (code c) 48) as [E|E].
    - unfold digit. by rewrite E.
    - by destruct (digit c). }
  unfold opens, space. destruct Hc as [Hc|Hc].
  - rewrite Hc. split_and!; [done|by intros ->|]. repeat constructor.
  - unfold digit, within in Hc. apply andb_true_iff in Hc as [H1%Z.leb_le H2%Z.leb_le].
    assert (∀ n, n < 48 ∨ 57 < n → (code c =? n) = false) as Hn by (intros n Hn; apply Z.eqb_neq; lia).
    rewrite !Hn by lia. split_and!; [done|intros ->; by apply H1|]. repeat constructor; apply Hn; lia.
Qed.

Lemma json_nested_ind (P : json → Prop) :
  P JNull → (∀ b, P (JBool b)) → (∀ l, P (JNum l)) → (∀ t, P (JStr t)) →
  (∀ l, Forall P l → P (JArr l)) → (∀ l, Forall (λ kv, P kv.2) l → P (JObj l)) → ∀ j, P j.
Proof.
  intros Hnull Hbool Hnum Hstr Harr Hobj. fix IH 1. intros [|b|l|t|l|l]; [exact Hnull|apply Hbool|apply Hnum|apply Hstr| |].
  - apply Harr. induction l as [|j l IHl]; constructor; [apply IH|apply IHl].
  - apply Hobj. induction l as [|[k j] l IHl]; constructor; [apply IH|apply IHl].
Qed.

Lemma print_head n j : json_ok n j = true → ∃ c t, json_print j = String c t ∧ opens c = true.
Proof.
  destruct j as [|[]|l|t|l|l]; intros Hj; try (by eexists _, _); [|eexists _, _; split; [reflexivity|done]..].
  destruct (number_head l Hj) as (c & t & -> & Hc & _). eauto.
Qed.

Lemma skip_opens c t : opens c = true → skip (String c t) = String c t.
Proof. unfold opens. intros Hc. simpl. by destruct (space c). Qed.

Ltac comma := cbn [skip]; change (space ",") with false; cbv iota; change (code "," =? 44) with true; cbv iota.

(** A list of texts with separators, as a printer writes and a reader reads it. *)
Section Printed.
Context {A : Type} (value : string → option (A * string)) (print : A → string).

Definition reads (v : A) : Prop := ∀ rest, ends rest → value (print v +:+ rest) = Some (v, rest).

Lemma read_items_printed l rest n :
  Forall reads l → l ≠ [] → (length l <= n)%nat → read_items value n (String.concat "," (map print l) +:+ String "]" rest) = Some (l, rest).
Proof.
  intros Hl. revert n. induction Hl as [|v l Hv Hl IH]; [done|]. intros n _ Hn. destruct n as [|n]; [simpl in Hn; lia|].
  destruct l as [|w l].
  - cbn [map String.concat read_items]. rewrite Hv by done. done.
  - change (String.concat "," (map print (v :: w :: l))) with (print v +:+ ("," +:+ String.concat "," (map print (w :: l)))).
    specialize (IH n ltac:(done) ltac:(simpl in *; lia)). revert IH. generalize (String.concat "," (map print (w :: l))). intros more IH.
    rewrite !str_app_assoc, str_cons_app, str_nil_app. cbn [read_items]. rewrite Hv by done. comma. by rewrite IH.
Qed.

Definition member (kv : string * A) : string := quote kv.1 +:+ ":" +:+ print kv.2.

Lemma read_key_printed k t : text k = true → read_key (quote k +:+ ":" +:+ t) = Some (k, t).
Proof.
  intros Hk. unfold read_key, quote. rewrite str_cons_app. change (skip (String dquote ?t)) with (String dquote t). cbn iota. rewrite bool_decide_true by done.
  rewrite str_app_assoc, str_cons_app, str_nil_app, read_quote by done. done.
Qed.

Lemma read_members_printed l rest n :
  Forall (λ kv, text kv.1 = true ∧ reads kv.2) l → l ≠ [] → (length l <= n)%nat →
  read_members value n (String.concat "," (map member l) +:+ String "}" rest) = Some (l, rest).
Proof.
  intros Hl. revert n. induction Hl as [|[k v] l [Hk Hv] Hl IH]; [done|]. intros n _ Hn. destruct n as [|n]; [simpl in Hn; lia|]. simpl in Hk, Hv.
  assert (∀ t, member (k, v) +:+ t = quote k +:+ ":" +:+ (print v +:+ t)) as Hm by (intros t; unfold member; simpl; by rewrite !str_app_assoc).
  destruct l as [|w l].
  - cbn [map String.concat read_members]. rewrite Hm, read_key_printed, Hv by done. done.
  - change (String.concat "," (map member ((k, v) :: w :: l))) with (member (k, v) +:+ ("," +:+ String.concat "," (map member (w :: l)))).
    specialize (IH n ltac:(done) ltac:(simpl in *; lia)). revert IH. generalize (String.concat "," (map member (w :: l))). intros more IH.
    rewrite str_app_assoc, Hm, str_app_assoc, (str_cons_app "," ""), str_nil_app. cbn [read_members]. rewrite read_key_printed, Hv by done. comma. by rewrite IH.
Qed.

Lemma read_array_printed l rest n :
  Forall reads l → (∀ v, v ∈ l → ∃ c t, print v = String c t ∧ opens c = true) → (length l <= n)%nat →
  read_array value n (String.concat "," (map print l) +:+ String "]" rest) = Some (l, rest).
Proof.
  intros Hl Hh Hn. destruct l as [|v l]; [done|]. pose proof (read_items_printed (v :: l) rest n Hl ltac:(done) Hn) as Hr.
  destruct (Hh v ltac:(set_solver)) as (c & t & E & Hc).
  assert (∃ t', String.concat "," (map print (v :: l)) +:+ String "]" rest = String c t') as [t' Ht].
  { destruct l as [|w l]; simpl; rewrite E; by eexists. }
  unfold read_array. rewrite Ht in Hr |- *. rewrite skip_opens by done. unfold opens in Hc. destruct (code c =? 93); [|done]. by destruct (space c).
Qed.

Lemma read_object_printed l rest n :
  Forall (λ kv, text kv.1 = true ∧ reads kv.2) l → (length l <= n)%nat →
  read_object value n (String.concat "," (map member l) +:+ String "}" rest) = Some (l, rest).
Proof.
  intros Hl Hn. destruct l as [|[k v] l]; [done|]. pose proof (read_members_printed ((k, v) :: l) rest n Hl ltac:(done) Hn) as Hr.
  assert (∃ t', String.concat "," (map member ((k, v) :: l)) +:+ String "}" rest = String dquote t') as [t' Ht] by (by destruct l; eexists).
  unfold read_object. by rewrite Ht in Hr |- *.
Qed.
End Printed.

Lemma length_concat {A : Type} (print : A → string) l :
  (∀ v, v ∈ l → (1 <= String.length (print v))%nat) → (length l <= String.length (String.concat "," (map print l)))%nat.
Proof.
  induction l as [|v l IH]; intros Hl; [simpl; lia|]. pose proof (Hl v ltac:(set_solver)) as Hv. specialize (IH (λ w Hw, Hl w ltac:(set_solver))).
  destruct l as [|w l]; [exact Hv|]. change (String.concat "," (map print (v :: w :: l))) with (print v +:+ ("," +:+ String.concat "," (map print (w :: l)))).
  rewrite !str_length_app. cbn [length] in *. lia.
Qed.

Lemma literal_app word rest v : literal word (word +:+ rest) v = Some (v, rest).
Proof.
  unfold literal. assert (String.prefix word (word +:+ rest) = true) as ->.
  { induction word as [|c w IH]; [by destruct rest|]. rewrite str_cons_app. simpl. rewrite IH. by destruct (ascii_dec c c). }
  rewrite str_length_app. replace (String.length word + String.length rest - String.length word)%nat with (String.length rest) by lia.
  assert (String.substring (String.length word) (String.length rest) (word +:+ rest) = rest) as ->; [|done].
  induction word as [|c w IH]; [rewrite str_nil_app; simpl; induction rest; simpl; congruence|done].
Qed.

(** A value that is printed is read back, whatever follows it. *)
Lemma read_printed j : ∀ n, json_ok n j = true → reads (read_value n) json_print j.
Proof.
  induction j as [|b|l|t|l IH|l IH] using json_nested_ind; intros n Hj rest He.
  - destruct n; exact (literal_app "null" rest JNull).
  - destruct n, b; [exact (literal_app "true" rest _)|exact (literal_app "false" rest _)|exact (literal_app "true" rest _)|exact (literal_app "false" rest _)].
  - destruct (number_head l Hj) as (c & t & E & Hc & Hd & Hn). pose proof (read_number_app l rest Hj He) as Hr. rewrite E in Hr |- *.
    rewrite !str_cons_app in *. repeat (apply Forall_cons in Hn as [? Hn]).
    destruct n; cbn [read_value json_print]; rewrite str_cons_app, skip_opens, bool_decide_false by done; repeat case_match; by simplify_eq.
  - cbn [json_print]. unfold quote. rewrite str_cons_app, str_app_assoc, str_cons_app, str_nil_app.
    destruct n; cbn [read_value]; change (skip (String dquote ?x)) with (String dquote x); cbv iota; rewrite bool_decide_true, read_quote by done; done.
  - destruct n as [|n]; [done|]. cbn [json_ok] in Hj. rewrite forallb_forall in Hj. setoid_rewrite <- list_elem_of_In in Hj. rewrite Forall_forall in IH.
    assert (∀ v, v ∈ l → ∃ c t, json_print v = String c t ∧ opens c = true) as Hh by eauto using print_head.
    cbn [json_print]. rewrite !str_app_assoc, !str_cons_app, !str_nil_app. cbn [read_value]. change (skip (String "[" ?x)) with (String "[" x). cbv iota.
    rewrite bool_decide_false by done. change (code "[" =? 91) with true. cbv iota.
    rewrite read_array_printed; [done|apply Forall_forall; intros v Hv; by apply IH, Hj|done|].
    rewrite str_length_app. assert (length l <= String.length (String.concat "," (map json_print l)))%nat; [|lia].
    apply length_concat. intros v Hv. destruct (Hh v Hv) as (c & t & -> & _). simpl. lia.
  - destruct n as [|n]; [done|]. cbn [json_ok] in Hj. rewrite forallb_forall in Hj. setoid_rewrite <- list_elem_of_In in Hj. rewrite Forall_forall in IH.
    change (json_print (JObj l)) with ("{" +:+ String.concat "," (map (member json_print) l) +:+ "}").
    rewrite !str_app_assoc, !str_cons_app, !str_nil_app. cbn [read_value]. change (skip (String "{" ?x)) with (String "{" x). cbv iota.
    rewrite bool_decide_false by done. change (code "{" =? 91) with false. change (code "{" =? 123) with true. cbv iota.
    rewrite read_object_printed; [done| |].
    + apply Forall_forall. intros kv Hkv. specialize (Hj kv Hkv). apply andb_true_iff in Hj as [Hk Hv]. split; [done|by apply IH].
    + rewrite str_length_app. assert (length l <= String.length (String.concat "," (map (member json_print) l)))%nat; [|lia].
      apply length_concat. intros kv _. unfold member. simpl. lia.
Qed.

(** What [Marshal] writes [Unmarshal] and [Decode] read back as it was: the values whose
    strings are UTF-8, whose numbers are literals and that are not nested too deep. *)
Theorem json_parse_print j : json_ok maxNestingDepth j = true → json_parse (json_print j) = Ok j ∧ json_first (json_print j) = Ok j.
Proof.
  intros Hj. pose proof (read_printed j _ Hj "" I) as Hr. rewrite str_app_nil in Hr. unfold json_parse, json_first. rewrite Hr. done.
Qed.

(** ** Raw text: [json.RawMessage] *)

#[global] Instance result_ret : MRet result := λ A, Ok.
#[global] Instance result_bind : MBind result := λ A B f r, match r with Ok a => f a | Err e => Err e end.
#[global] Instance result_map : FMap result := λ A B f r, match r with Ok a => Ok (f a) | Err e => Err e end.

Definition TypeError : error := ErrNew "json: cannot unmarshal value into Go value".

(** The text of a value, without the space around it. *)
Definition raw_value (n : nat) (s : string) : option (string * string) :=
  let s := skip s in
  match read_value n s with Some (_, rest) => Some (String.substring 0 (String.length s - String.length rest) s, rest) | None => None end.

(** The text after the bracket of a value; the value is known to be well-formed. *)
Definition inside (s : string) : string := match skip s with String _ rest => rest | "" => "" end.

(** The members of an object and the items of an array.  A null has none. *)
Definition json_fields (s : string) : result (list (string * string)) :=
  v ← json_parse s;
  match v with
  | JNull => Ok []
  | JObj _ => match read_object (raw_value (pred maxNestingDepth)) (String.length (inside s)) (inside s) with Some (l, _) => Ok l | None => Err SyntaxError end
  | _ => Err TypeError
  end.

Definition json_items (s : string) : result (list string) :=
  v ← json_parse s;
  match v with
  | JNull => Ok []
  | JArr _ => match read_array (raw_value (pred maxNestingDepth)) (String.length (inside s)) (inside s) with Some (l, _) => Ok l | None => Err SyntaxError end
  | _ => Err TypeError
  end.

Lemma substring_prefix (a b : string) : String.substring 0 (String.length (a +:+ b) - String.length b) (a +:+ b) = a.
Proof. rewrite str_length_app. replace (String.length a + String.length b - String.length b)%nat with (String.length a) by lia. apply substring_app. Qed.

Lemma raw_printed n j : json_ok n j = true → reads (raw_value n) id (json_print j).
Proof.
  intros Hj rest He. destruct (print_head n j Hj) as (c & t & E & Hc). unfold raw_value, id. assert (skip (json_print j +:+ rest) = json_print j +:+ rest) as ->.
  { rewrite E, str_cons_app. by apply skip_opens. }
  rewrite (read_printed j n Hj rest He). by rewrite substring_prefix.
Qed.

Lemma ok_members l : json_ok maxNestingDepth (JObj l) = true → ∀ k v, (k, v) ∈ l → text k = true ∧ json_ok (pred maxNestingDepth) v = true.
Proof.
  intros Hl k v Hkv. assert (maxNestingDepth = S (pred maxNestingDepth)) as E by (unfold maxNestingDepth; lia). rewrite E in Hl. cbn [json_ok] in Hl.
  rewrite forallb_forall in Hl. apply list_elem_of_In, Hl, andb_true_iff in Hkv. done.
Qed.

Lemma ok_items l : json_ok maxNestingDepth (JArr l) = true → ∀ v, v ∈ l → json_ok (pred maxNestingDepth) v = true.
Proof.
  intros Hl v Hv. assert (maxNestingDepth = S (pred maxNestingDepth)) as E by (unfold maxNestingDepth; lia). rewrite E in Hl. cbn [json_ok] in Hl.
  rewrite forallb_forall in Hl. by apply list_elem_of_In, Hl in Hv.
Qed.

Lemma printed_members l n rest :
  (∀ k v, (k, v) ∈ l → text k = true ∧ json_ok n v = true) →
  read_object (raw_value n) (String.length (String.concat "," (map (member json_print) l) +:+ String "}" rest))
    (String.concat "," (map (member json_print) l) +:+ String "}" rest) = Some (prod_map id json_print <$> l, rest).
Proof.
  intros Hl. assert (map (member json_print) l = map (member id) (prod_map id json_print <$> l)) as E.
  { change (prod_map id json_print <$> l) with (map (prod_map id json_print) l). rewrite List.map_map. apply List.map_ext. by intros [k v]. }
  rewrite E. apply read_object_printed.
  - apply Forall_fmap, Forall_forall. intros [k v] Hkv. destruct (Hl k v Hkv). split; [done|by apply raw_printed].
  - rewrite str_length_app, <- E, length_fmap. assert (length l <= String.length (String.concat "," (map (member json_print) l)))%nat; [|lia].
    apply length_concat. intros kv _. unfold member. simpl. lia.
Qed.

Lemma fields_printed l : json_ok maxNestingDepth (JObj l) = true → json_fields (json_print (JObj l)) = Ok (prod_map id json_print <$> l).
Proof.
  intros Hl. unfold json_fields. rewrite (proj1 (json_parse_print _ Hl)). cbn [mbind result_bind].
  change (inside (json_print (JObj l))) with (String.concat "," (map (member json_print) l) +:+ String "}" "").
  by rewrite (printed_members l (pred maxNestingDepth) "" (ok_members l Hl)).
Qed.

Lemma items_printed l : json_ok maxNestingDepth (JArr l) = true → json_items (json_print (JArr l)) = Ok (json_print <$> l).
Proof.
  intros Hl. unfold json_items. rewrite (proj1 (json_parse_print _ Hl)). cbn [mbind result_bind].
  change (inside (json_print (JArr l))) with (String.concat "," (map json_print l) +:+ String "]" "").
  assert (map json_print l = map id (json_print <$> l)) as -> by (symmetry; apply List.map_id).
  rewrite read_array_printed; [done| | |].
  - apply Forall_fmap, Forall_forall. intros v Hv. by apply raw_printed, (ok_items l).
  - intros t (v & -> & Hv)%list_elem_of_fmap. eapply print_head, (ok_items l); done.
  - rewrite str_length_app. assert (length (json_print <$> l) <= String.length (String.concat "," (map id (json_print <$> l))))%nat; [|lia].
    apply length_concat. intros t (v & -> & Hv)%list_elem_of_fmap. destruct (print_head _ v (ok_items l Hl v Hv)) as (c & t' & E & _). unfold id. rewrite E. simpl. lia.
Qed.

(** ** Decoding into Go values *)

(** A literal as a decimal: its digits without point and sign, and the power of ten. *)
Fixpoint decimal (acc : Z) (s : string) : Z :=
  match s with String c rest => decimal (acc * 10 + (code c - 48)) rest | "" => acc end.

Definition signed (s : string) : Z :=
  match s with
  | String c rest => if code c =? 45 then - decimal 0 rest else if code c =? 43 then decimal 0 rest else decimal 0 s
  | "" => 0
  end.

Definition scientific (l : string) : Z * Z :=
  let l := match l with String c rest => if code c =? 45 then rest else l | "" => l end in
  let '(whole, rest) := digits_front l in
  let '(part, rest) := match rest with
                       | String c after => if code c =? 46 then digits_front after else ("", rest)
                       | "" => ("", "")
                       end in
  let power := match rest with String _ exponent => signed exponent | "" => 0 end in
  (decimal 0 (whole +:+ part), power - Z.of_nat (String.length part)).

(** [strconv.ParseFloat] has no range error: the value rounds to a finite float64. *)
Definition finite_literal (l : string) : bool :=
  let '(digits, power) := scientific l in
  if 0 <=? power then digits * 10 ^ power <? 2 ^ 1024 - 2 ^ 970
  else digits <? (2 ^ 1024 - 2 ^ 970) * 10 ^ (- power).

(** Decoding into [any] fails for a number that is too large, wherever it is. *)
Fixpoint finite_numbers (j : json) : bool :=
  match j with
  | JNum l => finite_literal l
  | JArr l => forallb finite_numbers l
  | JObj l => forallb (λ kv, finite_numbers kv.2) l
  | _ => true
  end.

Definition as_any (old : json) (t : string) : result json :=
  v ← json_parse t; if finite_numbers v then Ok v else Err TypeError.

(** A null leaves the variable as it is. *)
Definition as_string (old t : string) : result string :=
  v ← json_parse t; match v with JStr s => Ok s | JNull => Ok old | _ => Err TypeError end.

(** A pointer: null resets it, a value is decoded into what it points to. *)
Definition as_pointer {A : Type} (zero : A) (f : A → string → result A) (old : option A) (t : string) : result (option A) :=
  v ← json_parse t; match v with JNull => Ok None | _ => Some <$> f (default zero old) t end.

(** A slice and what its array holds beyond its length: an item is decoded into the
    element that was there before. *)
Fixpoint into_slots {A : Type} (zero : A) (f : A → string → result A) (slots : list A) (items : list string) : result (list A) :=
  match items with
  | [] => Ok []
  | item :: items => a ← f (default zero (head slots)) item; l ← into_slots zero f (tail slots) items; Ok (a :: l)
  end.

Definition as_slice {A : Type} (zero : A) (f : A → string → result A) (old : list A * list A) (t : string) : result (list A * list A) :=
  items ← json_items t;
  let slots := (old.1 ++ old.2)%list in
  l ← into_slots zero f slots items;
  Ok (l, match l with [] => [] | _ => drop (length l) slots end).

(** The folding of a key: ASCII case, and the two other characters that fold to ASCII letters. *)
Definition folds_to (s : string) : option (ascii * nat) :=
  match s with
  | String a (String b rest) =>
      if (code a =? 197) && (code b =? 191) then Some (byte 115, 1%nat)
      else match rest with
           | String c _ => if (code a =? 226) && (code b =? 132) && (code c =? 170) then Some (byte 107, 2%nat) else None
           | "" => None
           end
  | _ => None
  end.

(** [k] bytes of a folded character are left out. *)
Fixpoint fold_special (k : nat) (s : string) : string :=
  match s with
  | "" => ""
  | String c rest =>
      match k with
      | S k => fold_special k rest
      | O => match folds_to s with Some (c, k) => String c (fold_special k rest) | None => String c (fold_special 0 rest) end
      end
  end.

Definition fold_name (s : string) : string := to_lower (fold_special 0 s).

(** A field of a struct: the members whose key is its name, but for case. *)
Definition field {A : Type} (name : string) (f : A → string → result A) (old : A) (members : list (string * string)) : result A :=
  foldl (λ acc kv, old ← acc; if bool_decide (fold_name kv.1 = name) then f old kv.2 else Ok old) (Ok old) members.

(** ** What is written is decoded *)

Lemma ok_mono n m j : json_ok n j = true → (n <= m)%nat → json_ok m j = true.
Proof.
  revert n m. induction j as [|b|l|t|l IH|l IH] using json_nested_ind; intros n m Hj Hm; try done; destruct n as [|n], m as [|m]; try done; try lia; cbn [json_ok] in *;
    rewrite forallb_forall in *; rewrite Forall_forall in IH; intros v Hv; pose proof (Hj v Hv) as Hok.
  - apply (IH v (proj2 (list_elem_of_In _ _) Hv) n); [done|lia].
  - apply andb_true_iff in Hok as [-> Hok]. apply (IH v (proj2 (list_elem_of_In _ _) Hv) n); [done|lia].
Qed.

Lemma ok_member l k v : json_ok maxNestingDepth (JObj l) = true → (k, v) ∈ l → json_ok maxNestingDepth v = true.
Proof. intros Hl Hkv. destruct (ok_members l Hl k v Hkv) as [_ Hv]. eapply ok_mono; [exact Hv|lia]. Qed.

Lemma ok_item l v : json_ok maxNestingDepth (JArr l) = true → v ∈ l → json_ok maxNestingDepth v = true.
Proof. intros Hl Hv. eapply ok_mono; [by apply (ok_items l)|lia]. Qed.

Lemma ok_obj_cons k v l : json_ok maxNestingDepth (JObj ((k, v) :: l)) = true → json_ok maxNestingDepth v = true ∧ json_ok maxNestingDepth (JObj l) = true.
Proof.
  intros Hl. split; [eapply ok_member; [exact Hl|by left]|]. assert (maxNestingDepth = S (pred maxNestingDepth)) as E by (unfold maxNestingDepth; lia).
  rewrite E in *. cbn [json_ok forallb] in *. by apply andb_true_iff in Hl as [_ Hl].
Qed.

Section Written.
Local Abbreviation ok j := (json_ok maxNestingDepth j = true).

Lemma string_decoded old s : ok (JStr s) → as_string old (json_print (JStr s)) = Ok s.
Proof. intros Hs. unfold as_string. by rewrite (proj1 (json_parse_print _ Hs)). Qed.
Lemma pointer_decoded {A : Type} (zero : A) f old j a : ok j → j ≠ JNull → f (default zero old) (json_print j) = Ok a → as_pointer zero f old (json_print j) = Ok (Some a).
Proof. intros Hj Hn Hf. unfold as_pointer. rewrite (proj1 (json_parse_print _ Hj)). cbn [mbind result_bind]. rewrite Hf. by destruct j. Qed.

Lemma into_slots_ok {A : Type} (zero : A) f (enc : A → json) slots l :
  (∀ a old, a ∈ l → f old (json_print (enc a)) = Ok a) → into_slots zero f slots (json_print <$> (enc <$> l)) = Ok l.
Proof.
  revert slots. induction l as [|a l IH]; intros slots Hf; [done|]. cbn [fmap list_fmap into_slots]. rewrite Hf by (by left).
  cbn [mbind result_bind]. rewrite IH; [done|]. intros a' old Ha. apply Hf. by right.
Qed.

(** A slice that was empty. *)
Lemma slice_decoded {A : Type} (zero : A) f (enc : A → json) l :
  ok (JArr (enc <$> l)) → (∀ a old, a ∈ l → f old (json_print (enc a)) = Ok a) →
  as_slice zero f ([], []) (json_print (JArr (enc <$> l))) = Ok (l, []).
Proof.
  intros Hl Hf. unfold as_slice. rewrite items_printed by done. cbn [mbind result_bind fst snd app].
  rewrite (into_slots_ok zero f enc) by done. cbn [mbind result_bind]. rewrite drop_nil. by destruct l.
Qed.

Lemma field_err {A : Type} name (f : A → string → result A) e l :
  foldl (λ acc kv, old ← acc; if bool_decide (fold_name kv.1 = name) then f old kv.2 else Ok old) (Err e) l = Err e.
Proof. by induction l. Qed.

Lemma field_cons {A : Type} name (f : A → string → result A) old k t l :
  field name f old ((k, t) :: l) = (if bool_decide (fold_name k = name) then f old t else Ok old) ≫= λ old, field name f old l.
Proof. unfold field. cbn [foldl mbind result_bind fst snd]. destruct (if bool_decide (fold_name k = name) then f old t else Ok old); [done|]. apply field_err. Qed.

Lemma field_nil {A : Type} name (f : A → string → result A) old : field name f old [] = Ok old.
Proof. done. Qed.

Lemma field_hit {A : Type} name (f : A → string → result A) old k t l a :
  fold_name k = name → f old t = Ok a → field name f old ((k, t) :: l) = field name f a l.
Proof. intros Hk Hf. rewrite field_cons, bool_decide_true, Hf by done. done. Qed.

Lemma field_miss {A : Type} name (f : A → string → result A) old k t l : fold_name k ≠ name → field name f old ((k, t) :: l) = field name f old l.
Proof. intros Hk. by rewrite field_cons, bool_decide_false. Qed.
End Written.

(** The values inside a written object can be read on their own. *)
Ltac split_ok H := repeat match type of H with json_ok _ (JObj (_ :: _)) = true => apply ok_obj_cons in H as [? H] end.

(** The fields of a written object, one by one; [tac] decodes a value. *)
Ltac read_fields tac :=
  repeat (cbn [prod_map fst snd id fmap list_fmap app mbind result_bind option_fmap];
          first [rewrite field_nil
                |rewrite field_miss by (vm_compute; congruence)
                |erewrite field_hit; [|reflexivity|tac]]).

(** ** What is printed is one line *)

Definition line_feed : ascii := byte 10.

Lemma escape_one_line c : line_feed ∉ String.list_ascii_of_string (escape c).
Proof. destruct c as [[] [] [] [] [] [] [] []]; apply (bool_decide_unpack _); vm_compute; exact I. Qed.

(** The bytes of a sequence after its first are not ASCII. *)
Definition high (k : nat) (s : string) : Prop := Forall (λ c, (code c <? 128) = false) (take k (String.list_ascii_of_string s)).

Lemma rune_high c s n : (code c <? 128) = false → rune_len (String c s) = S n → high n s.
Proof.
  assert (∀ lo b : ascii, continuation (code b) = true → (code b <? 128) = false) as Hcont.
  { intros _ b Hb. unfold continuation, within in Hb. lia. }
  assert (∀ a b : Z, second_of_three a b = true → (b <? 128) = false) as Hthree.
  { intros a b. unfold second_of_three, continuation, within. repeat case_match; lia. }
  assert (∀ a b : Z, second_of_four a b = true → (b <? 128) = false) as Hfour.
  { intros a b. unfold second_of_four, continuation, within. repeat case_match; lia. }
  intros Hc. unfold rune_len, high. rewrite Hc. destruct s as [|b s]; [done|].
  destruct (within 194 223 (code c) && continuation (code b)) eqn:E2.
  { intros [= <-]. apply andb_true_iff in E2 as [_ E2]. repeat constructor. by eapply (Hcont c). }
  destruct s as [|d s]; [done|]. destruct (within 224 239 (code c) && _ && _) eqn:E3.
  { intros [= <-]. apply andb_true_iff in E3 as [[_ E3]%andb_true_iff E4]. repeat constructor; [by eapply Hthree|by eapply (Hcont c)]. }
  destruct s as [|e s]; [done|]. destruct (within 240 244 (code c) && _ && _ && _) eqn:E4; [|done].
  intros [= <-]. rewrite !andb_true_iff in E4. destruct E4 as [[[_ E4] E5] E6].
  repeat constructor; [by eapply Hfour|by eapply (Hcont c)..].
Qed.

Lemma high_not_feed c : (code c <? 128) = false → line_feed ≠ c.
Proof. by intros Hc <-. Qed.

Lemma quote_from_one_line copy k s : high k s → line_feed ∉ String.list_ascii_of_string (quote_from copy k s).
Proof.
  revert copy k. induction s as [|c s IH]; intros copy k Hh; [apply not_elem_of_nil|]. cbn [quote_from]. destruct k as [|k].
  - assert (∀ copy, line_feed ∉ String.list_ascii_of_string (quote_from copy 0 s)) as Hrest by (intros; apply IH; constructor).
    destruct (code c <? 128) eqn:Hc.
    { rewrite list_ascii_app, not_elem_of_app. split; [apply escape_one_line|done]. }
    destruct (rune_len (String c s)) as [|n] eqn:Hn.
    { rewrite list_ascii_app, not_elem_of_app. split; [apply (bool_decide_unpack _); vm_compute; exact I|done]. }
    pose proof (rune_high _ _ _ Hc Hn) as Hhn. destruct (line_separator (String c s)) as [escaped|] eqn:Hsep.
    + rewrite list_ascii_app, not_elem_of_app. split; [|by apply IH]. unfold line_separator in Hsep.
      repeat case_match; simplify_eq; apply (bool_decide_unpack _); vm_compute; exact I.
    + cbn [String.list_ascii_of_string]. apply not_elem_of_cons. split; [by apply high_not_feed|by apply IH].
  - unfold high in Hh. cbn [String.list_ascii_of_string take] in Hh. apply Forall_cons in Hh as [Hc Hh]. destruct copy; [|by apply IH].
    cbn [String.list_ascii_of_string]. apply not_elem_of_cons. split; [by apply high_not_feed|by apply IH].
Qed.

(** An object is written between its brackets. *)
Lemma object_shape l : ∃ mid, json_print (JObj l) = "{" +:+ mid +:+ "}".
Proof. eexists. reflexivity. Qed.

Lemma quote_one_line s : line_feed ∉ String.list_ascii_of_string (quote s).
Proof.
  unfold quote. cbn [String.list_ascii_of_string]. apply not_elem_of_cons. split; [done|]. rewrite list_ascii_app, not_elem_of_app.
  split; [apply quote_from_one_line; constructor|]. apply (bool_decide_unpack _); vm_compute; exact I.
Qed.
