(* ===== verification/GoNet.v ===== *)
(** * Addresses of Go's net package

    [net.ParseIP], [net.ParseCIDR] and [IPNet.Contains] on byte strings, as netip
    parses them (no leading zeros in dotted quads, one [::] in IPv6, an embedded
    dotted quad at the end, no zones), executable.  A [net.IP] is its bytes: 16 of
    them from the parser, 4 for the short form of an IPv4 address. *)

From S2P Require Import Prelude GoStd.

Open Scope Z_scope.

(** [strings.Split(s, c)] for a one-byte separator. *)
Fixpoint split_on (c : Z) (bs : list Z) : list (list Z) :=
  match bs with
  | [] => [[]]
  | b :: rest =>
      if b =? c then [] :: split_on c rest
      else match split_on c rest with
           | part :: parts => (b :: part) :: parts
           | [] => [[b]]
           end
  end.

Lemma split_on_app c a b : c ∉ a → split_on c (a ++ c :: b) = a :: split_on c b.
Proof.
  induction a as [|x a IH]; intros Ha; simpl; [by rewrite Z.eqb_refl|].
  destruct (Z.eqb_spec x c); [set_solver|]. by rewrite IH by set_solver.
Qed.

Lemma split_on_absent c a : c ∉ a → split_on c a = [a].
Proof.
  induction a as [|x a IH]; intros Ha; simpl; [done|].
  destruct (Z.eqb_spec x c); [set_solver|]. by rewrite IH by set_solver.
Qed.

(** ** Numbers *)

Definition decimal (b : Z) : option Z := if within 48 57 b then Some (b - 48) else None.

Definition hexadecimal (b : Z) : option Z :=
  if within 48 57 b then Some (b - 48)
  else if within 97 102 b then Some (b - 87)
  else if within 65 70 b then Some (b - 55)
  else None.

(** The value of a non-empty run of decimal digits. *)
Fixpoint decimal_from (acc : Z) (bs : list Z) : option Z :=
  match bs with
  | [] => Some acc
  | b :: rest => match decimal b with Some d => decimal_from (10 * acc + d) rest | None => None end
  end.

(** One field of a dotted quad. *)
Definition octet (bs : list Z) : option Z :=
  match bs with
  | [] => None
  | [_] => decimal_from 0 bs
  | b :: _ =>
      if (b =? 48) || (3 <? Z.of_nat (length bs)) then None
      else match decimal_from 0 bs with Some v => if v <=? 255 then Some v else None | None => None end
  end.

Definition parse4 (bs : list Z) : option (list Z) :=
  match split_on 46 bs with
  | [a; b; c; d] => match octet a, octet b, octet c, octet d with
                    | Some a, Some b, Some c, Some d => Some [a; b; c; d]
                    | _, _, _, _ => None
                    end
  | _ => None
  end.

(** ** IPv6 *)

(** The leading run of hexadecimal digits: how many, their value, the rest. *)
Fixpoint hex_run (n acc : Z) (bs : list Z) : Z * Z * list Z :=
  match bs with
  | [] => (n, acc, [])
  | b :: rest => match hexadecimal b with Some d => hex_run (n + 1) (16 * acc + d) rest | None => (n, acc, bs) end
  end.

(** The loop over the fields: the bytes read so far and where [::] stood.  Eight
    fields fill the address. *)
Fixpoint parse6_fields (fuel : nat) (bytes : list Z) (ellipsis : option nat) (bs : list Z) :
    option (list Z * option nat) :=
  match fuel with
  | O => match bs with [] => Some (bytes, ellipsis) | _ => None end
  | S fuel =>
      let '(n, value, rest) := hex_run 0 0 bs in
      if (n =? 0) || (4 <? n) then None
      else match rest with
           | [] => Some ((bytes ++ [value / 256; value mod 256])%list, ellipsis)
           | c :: more =>
               if c =? 46 then
                 if match ellipsis with None => negb (length bytes =? 12)%nat | Some _ => (12 <? length bytes)%nat end then None
                 else (λ quad, ((bytes ++ quad)%list, ellipsis)) <$> parse4 bs
               else if negb (c =? 58) then None
               else
                 let bytes := (bytes ++ [value / 256; value mod 256])%list in
                 match more with
                 | [] => None
                 | c :: more' =>
                     if c =? 58 then
                       match ellipsis with
                       | Some _ => None
                       | None =>
                           match more' with
                           | [] => Some (bytes, Some (length bytes))
                           | _ => parse6_fields fuel bytes (Some (length bytes)) more'
                           end
                       end
                     else parse6_fields fuel bytes ellipsis more
                 end
           end
  end.

(** [::] expands to the zeros that are missing, at least one field of them. *)
Definition expand (parsed : list Z * option nat) : option (list Z) :=
  let '(bytes, ellipsis) := parsed in
  let missing := (16 - length bytes)%nat in
  match ellipsis with
  | Some at_ => if (missing =? 0)%nat then None else Some (take at_ bytes ++ replicate missing 0 ++ drop at_ bytes)%list
  | None => if (missing =? 0)%nat then Some bytes else None
  end.

Definition parse6 (bs : list Z) : option (list Z) :=
  match bs with
  | a :: b :: rest =>
      if (a =? 58) && (b =? 58) then
        match rest with
        | [] => Some (replicate 16 0)
        | _ => parse6_fields 8 [] (Some 0%nat) rest ≫= expand
        end
      else parse6_fields 8 [] None bs ≫= expand
  | _ => None
  end.

(** ** net *)

Definition v4_prefix : list Z := [0; 0; 0; 0; 0; 0; 0; 0; 0; 0; 255; 255].

(** [netip.ParseAddr] without zones: the bytes and whether it is an IPv4 address. *)
Definition parse_addr (s : string) : option (bool * list Z) :=
  let bs := bytes_of_string s in
  if bool_decide (37 ∈ bs) then None
  else match list_find (λ b, b = 46 ∨ b = 58) bs with
       | Some (_, b) => if b =? 46 then (λ q, (true, q)) <$> parse4 bs else (λ q, (false, q)) <$> parse6 bs
       | None => None
       end.

(** [net.ParseIP]: 16 bytes. *)
Definition ParseIP (s : string) : option (list Z) :=
  (λ a : bool * list Z, if a.1 then (v4_prefix ++ a.2)%list else a.2) <$> parse_addr s.

Definition To4 (ip : list Z) : option (list Z) :=
  if (length ip =? 4)%nat then Some ip
  else if (length ip =? 16)%nat && bool_decide (take 12 ip = v4_prefix) then Some (drop 12 ip)
  else None.

(** [ip.Equal]. *)
Definition ip_equal (a b : list Z) : bool :=
  bool_decide (a = b) || match To4 a, To4 b with Some a, Some b => bool_decide (a = b) | _, _ => false end.

Definition IsLoopback (ip : list Z) : bool :=
  match To4 ip with
  | Some ip4 => match ip4 with b :: _ => b =? 127 | [] => false end
  | None => bool_decide (ip = (replicate 15 0 ++ [1])%list)
  end.

(** A network: its masked number and its prefix length, of 32 or of 128 bits. *)
Record IPNet := { net_number : list Z; net_bits : Z }.

(** The byte of a mask of [n] bits, of which the first [8 i] are spent. *)
Definition mask_byte (n : Z) : Z := Z.land (Z.lnot (Z.shiftr 255 (Z.max 0 (Z.min 8 n)))) 255.

Fixpoint mask_bytes (n : Z) (bytes : list Z) : list Z :=
  match bytes with
  | [] => []
  | b :: rest => Z.land b (mask_byte n) :: mask_bytes (n - 8) rest
  end.

Definition ParseCIDR (s : string) : option IPNet :=
  match break_at (Ascii.ascii_of_nat 47) s with
  | None => None
  | Some (addr, mask) =>
      match parse_addr addr, bytes_of_string mask with
      | Some (_, _), [] => None
      | Some (v4, bytes), digits =>
          match decimal_from 0 digits with
          | Some n => if n <=? 8 * Z.of_nat (length bytes) then Some {| net_number := mask_bytes n bytes; net_bits := n |} else None
          | None => None
          end
      | None, _ => None
      end
  end.

(** [IPNet.Contains]: a network number that is an IPv4 address in its 16-byte form is
    compared in its short form, with the last 4 bytes of its mask. *)
Definition Contains (net : IPNet) (ip : list Z) : bool :=
  let short := match To4 (net_number net) with Some _ => (length (net_number net) =? 16)%nat | None => false end in
  let number := match To4 (net_number net) with Some n => n | None => net_number net end in
  let bits := if short then net_bits net - 96 else net_bits net in
  let ip := match To4 ip with Some ip4 => ip4 | None => ip end in
  (length ip =? length number)%nat && bool_decide (mask_bytes bits number = mask_bytes bits ip).

Example parses_addresses :
  ParseIP "10.1.2.3" = Some (v4_prefix ++ [10; 1; 2; 3])%list ∧ ParseIP "010.1.2.3" = None ∧ ParseIP "1.2.3" = None ∧
  ParseIP "1.2.3.256" = None ∧ ParseIP "::1" = Some (replicate 15 0 ++ [1])%list ∧
  ParseIP "fe80::1:2" = Some [254; 128; 0; 0; 0; 0; 0; 0; 0; 0; 0; 0; 0; 1; 0; 2] ∧ ParseIP "1::2::3" = None ∧
  ParseIP "::ffff:10.0.0.1" = ParseIP "10.0.0.1" ∧ ParseIP "fe80::1%eth0" = None ∧ ParseIP "example.com" = None ∧
  ParseIP "1:2:3:4:5:6:7:8" = Some [0; 1; 0; 2; 0; 3; 0; 4; 0; 5; 0; 6; 0; 7; 0; 8] ∧ ParseIP "1:2:3:4:5:6:7" = None ∧
  ParseIP "1:2:3:4:5:6:7:8::" = None ∧ ParseIP ":1" = None ∧ ParseIP "12345::" = None.
Proof. vm_compute. split_and!; reflexivity. Qed.

Example contains_addresses :
  (ParseCIDR "172.16.9.9/12" = Some {| net_number := [172; 16; 0; 0]; net_bits := 12 |}) ∧
  (Contains {| net_number := [172; 16; 0; 0]; net_bits := 12 |} <$> ParseIP "172.31.255.1") = Some true ∧
  (Contains {| net_number := [172; 16; 0; 0]; net_bits := 12 |} <$> ParseIP "172.32.0.1") = Some false ∧
  (Contains {| net_number := [172; 16; 0; 0]; net_bits := 12 |} <$> ParseIP "::ffff:172.16.0.1") = Some true.
Proof. vm_compute. split_and!; reflexivity. Qed.
