(* ===== verification/Circuit.v ===== *)
(** * The circuit breaker: internal/resilience/circuit

    [breaker.go] keeps one state machine per (deployment, credential) tuple:
    closed, open with an escalating cooldown, and half-open with one exclusive
    probe.  The model is the whole component: the [Breaker] record with its
    [sync.Map] of entries (keyed, as in the code, by
    [deploymentID + ":" + credentialID]), every method as a state-passing
    function, the [Store] interface as a class with laws, and [memory_store.go]
    as its instance.

    Each method locks the entry it works on, so a method call is one atomic
    step.  A method reads the clock up to three times; [clk i] is the i-th
    reading of the call.  The observer callback is the log of transitions it
    was handed. *)

From Stdlib Require Import Ascii.
From S2P Require Import Prelude GoFloat.

Open Scope string_scope.
Open Scope Z_scope.

Abbreviation clock := (nat → Z).

Definition StateClosed : string := "closed".
Definition StateOpen : string := "open".
Definition StateHalfOpen : string := "half_open".
Definition StateReset : string := "reset".

Record Transition := {
  t_DeploymentID : string; t_CredentialID : string;
  t_From : string; t_To : string; t_Reason : string; t_At : Z }.

Record TupleKey := { k_DeploymentID : string; k_CredentialID : string }.

#[export] Instance TupleKey_eq_dec : EqDecision TupleKey.
Proof. solve_decision. Defined.
#[export] Instance TupleKey_countable : Countable TupleKey.
Proof.
  refine (inj_countable' (λ k, (k_DeploymentID k, k_CredentialID k))
            (λ p, {| k_DeploymentID := p.1; k_CredentialID := p.2 |}) _).
  by intros [].
Defined.

Record Fact := {
  f_DeploymentID : string; f_CredentialID : string; f_State : string;
  f_OpenedAtMS : Z; f_LastProbeAtMS : Z;
  f_SampleCount : Z; f_FailureCount : Z; f_OpenCount : Z }.

#[export] Instance Fact_eq_dec : EqDecision Fact.
Proof. solve_decision. Defined.

Definition fact_key (f : Fact) : TupleKey :=
  {| k_DeploymentID := f_DeploymentID f; k_CredentialID := f_CredentialID f |}.

(** ** The durable store interface and what the breaker relies on *)

Class CircuitStore (S : Type) := {
  store_Load : S → result (list Fact);
  store_Save : S → Fact → S * option error;
  store_Delete : S → TupleKey → S * option error }.

(** A lawful store is a map from tuples to facts. *)
Class CircuitStoreLaws (S : Type) `{!CircuitStore S} := {
  store_view : S → gmap TupleKey Fact;
  store_load_view s :
    ∃ l, store_Load s = Ok l ∧ Permutation l (map snd (map_to_list (store_view s)));
  store_save_view s f : store_view (store_Save s f).1 = <[fact_key f := f]> (store_view s);
  store_delete_view s k : store_view (store_Delete s k).1 = delete k (store_view s) }.

(** ** memory_store.go *)

Record MemoryStore := { ms_facts : gmap TupleKey Fact }.

Definition NewMemoryStore : MemoryStore := {| ms_facts := ∅ |}.

(** Go's map iteration order is unspecified; the model's is [map_to_list]'s. *)
Definition MemoryStore_Load (s : MemoryStore) : result (list Fact) :=
  Ok (map snd (map_to_list (ms_facts s))).

Definition MemoryStore_Save (s : MemoryStore) (f : Fact) : MemoryStore * option error :=
  ({| ms_facts := <[fact_key f := f]> (ms_facts s) |}, None).

Definition MemoryStore_Delete (s : MemoryStore) (k : TupleKey) : MemoryStore * option error :=
  ({| ms_facts := delete k (ms_facts s) |}, None).

#[export] Instance memory_store : CircuitStore MemoryStore :=
  {| store_Load := MemoryStore_Load; store_Save := MemoryStore_Save;
     store_Delete := MemoryStore_Delete |}.

#[export] Instance memory_store_laws : CircuitStoreLaws MemoryStore.
Proof.
  refine {| store_view := ms_facts |}.
  - intros s. by eexists.
  - done.
  - done.
Defined.

(** ** breaker.go *)

Section Breaker.
Context {S : Type} `{!CircuitStore S}.

Record Config := {
  MinSamples : Z;
  ErrorRate : float64;
  Cooldown : Z;
  CooldownFactor : float64;
  MaxCooldown : Z;
  Store : option S;
  Observer : bool (* an observer is installed *) }.

Definition DefaultConfig : Config :=
  {| MinSamples := 20; ErrorRate := f64_const 1 2; Cooldown := 30 * second;
     CooldownFactor := f64_of_Z 2; MaxCooldown := 10 * minute;
     Store := None; Observer := false |}.

Record entry := {
  e_state : string;
  e_samples : Z;
  e_failures : Z;
  e_openedAt : Z;
  e_lastProbeAt : Z;
  e_probeTaken : bool;
  e_openCount : Z }.

Definition new_entry : entry :=
  {| e_state := StateClosed; e_samples := 0; e_failures := 0; e_openedAt := zero_time;
     e_lastProbeAt := zero_time; e_probeTaken := false; e_openCount := 0 |}.

Record Breaker := {
  b_config : Config;
  b_entries : gmap string entry;
  b_observed : list Transition }.

Definition New (config : Config) : Breaker :=
  {| b_config := config; b_entries := ∅; b_observed := [] |}.

Definition SetConfig (b : Breaker) (config : Config) : Breaker :=
  {| b_config := config; b_entries := b_entries b; b_observed := b_observed b |}.

Definition circuit_key (deploymentID credentialID : string) : string :=
  deploymentID +:+ ":" +:+ credentialID.

(** [get] is [LoadOrStore]: a missing entry is created closed. *)
Definition lookup_entry (b : Breaker) (d c : string) : entry :=
  default new_entry (b_entries b !! circuit_key d c).

Definition put_entry (b : Breaker) (d c : string) (e : entry) : Breaker :=
  {| b_config := b_config b; b_entries := <[circuit_key d c := e]> (b_entries b);
     b_observed := b_observed b |}.

Definition get (b : Breaker) (d c : string) : Breaker :=
  put_entry b d c (lookup_entry b d c).

Fixpoint escalate (n : nat) (factor : float64) (cooldown : Z) : Z :=
  match n with
  | O => cooldown
  | Datatypes.S n' => escalate n' factor (f64_to_i64 (f64_mul (f64_of_Z cooldown) factor))
  end.

Definition cooldown (cfg : Config) (openCount : Z) : Z :=
  let openCount := if openCount <=? 0 then 1 else openCount in
  let c := Cooldown cfg in
  let c := if f64_gtb (CooldownFactor cfg) f64_one
           then escalate (Z.to_nat (openCount - 1)) (CooldownFactor cfg) c else c in
  let c := if (0 <? MaxCooldown cfg) && (MaxCooldown cfg <? c) then MaxCooldown cfg else c in
  if c <=? 0 then Cooldown cfg else c.

(** [persistLocked]: the store's error is discarded. *)
Definition fact_of (d c : string) (e : entry) : Fact :=
  {| f_DeploymentID := d; f_CredentialID := c; f_State := e_state e;
     f_OpenedAtMS := unix_milli (e_openedAt e);
     f_LastProbeAtMS := unix_milli (e_lastProbeAt e);
     f_SampleCount := e_samples e; f_FailureCount := e_failures e;
     f_OpenCount := e_openCount e |}.

Definition with_store (cfg : Config) (s : S) : Config :=
  {| MinSamples := MinSamples cfg; ErrorRate := ErrorRate cfg; Cooldown := Cooldown cfg;
     CooldownFactor := CooldownFactor cfg; MaxCooldown := MaxCooldown cfg;
     Store := Some s; Observer := Observer cfg |}.

Definition persistLocked (b : Breaker) (d c : string) : Breaker :=
  match Store (b_config b) with
  | None => b
  | Some s =>
      let b := get b d c in
      SetConfig b (with_store (b_config b) (store_Save s (fact_of d c (lookup_entry b d c))).1)
  end.

Definition notify (b : Breaker) (t : Transition) : Breaker :=
  if Observer (b_config b)
  then {| b_config := b_config b; b_entries := b_entries b; b_observed := b_observed b ++ [t] |}
  else b.

Definition notifyLocked (b : Breaker) (d c from to reason : string) (at_ : Z) : Breaker :=
  notify (persistLocked b d c)
    {| t_DeploymentID := d; t_CredentialID := c; t_From := from; t_To := to;
       t_Reason := reason; t_At := at_ |}.

Definition set_state (e : entry) (s : string) : entry :=
  {| e_state := s; e_samples := e_samples e; e_failures := e_failures e;
     e_openedAt := e_openedAt e; e_lastProbeAt := e_lastProbeAt e;
     e_probeTaken := e_probeTaken e; e_openCount := e_openCount e |}.

Definition transitionLocked (b : Breaker) (d c to reason : string) (at_ : Z) : Breaker :=
  let item := lookup_entry b d c in
  let from := e_state item in
  let b := persistLocked (put_entry b d c (set_state item to)) d c in
  if bool_decide (from ≠ to)
  then notify b {| t_DeploymentID := d; t_CredentialID := c; t_From := from; t_To := to;
                   t_Reason := reason; t_At := at_ |}
  else b.

Definition openNow (cfg : Config) (clk : clock) (item : entry) : bool :=
  if bool_decide (e_state item ≠ StateOpen) then false
  else time_sub (clk 0%nat) (e_openedAt item) <? cooldown cfg (e_openCount item).

Definition Open (b : Breaker) (clk : clock) (d c : string) : bool * Breaker :=
  let b := get b d c in
  (openNow (b_config b) clk (lookup_entry b d c), b).

(** [item.lastProbeAt = now; item.probeTaken = true]. *)
Definition take_probe (e : entry) (now : Z) : entry :=
  {| e_state := e_state e; e_samples := e_samples e; e_failures := e_failures e;
     e_openedAt := e_openedAt e; e_lastProbeAt := now;
     e_probeTaken := true; e_openCount := e_openCount e |}.

Definition Allow (b : Breaker) (clk : clock) (d c : string) : bool * Breaker :=
  let b := get b d c in
  let item := lookup_entry b d c in
  if bool_decide (e_state item = StateClosed) then (true, b)
  else if bool_decide (e_state item = StateOpen) then
    if time_sub (clk 0%nat) (e_openedAt item) <? cooldown (b_config b) (e_openCount item)
    then (false, b)
    else
      let b := transitionLocked b d c StateHalfOpen "cooldown_elapsed" (clk 1%nat) in
      (true, put_entry b d c (take_probe (lookup_entry b d c) (clk 2%nat)))
  else
    if e_probeTaken item then (false, b)
    else (true, put_entry b d c (take_probe item (clk 0%nat))).

(** The entry a successful half-open probe leaves. *)
Definition closed_by_probe (e : entry) : entry :=
  {| e_state := StateClosed; e_samples := 0; e_failures := 0;
     e_openedAt := e_openedAt e; e_lastProbeAt := e_lastProbeAt e;
     e_probeTaken := false; e_openCount := 0 |}.

Definition opened (e : entry) (openCount now : Z) : entry :=
  {| e_state := StateOpen; e_samples := e_samples e; e_failures := e_failures e;
     e_openedAt := now; e_lastProbeAt := e_lastProbeAt e;
     e_probeTaken := false; e_openCount := openCount |}.

Definition counted (e : entry) (success : bool) : entry :=
  {| e_state := e_state e; e_samples := wrap64 (e_samples e + 1);
     e_failures := if success then e_failures e else wrap64 (e_failures e + 1);
     e_openedAt := e_openedAt e; e_lastProbeAt := e_lastProbeAt e;
     e_probeTaken := e_probeTaken e; e_openCount := e_openCount e |}.

Definition trips (cfg : Config) (e : entry) : bool :=
  (MinSamples cfg <=? e_samples e) &&
  f64_gtb (f64_div (f64_of_Z (e_failures e)) (f64_of_Z (e_samples e))) (ErrorRate cfg).

Definition RecordOutcome (b : Breaker) (clk : clock) (d c : string) (success : bool) : Breaker :=
  let b := get b d c in
  let item := lookup_entry b d c in
  if bool_decide (e_state item = StateHalfOpen) then
    if success then
      notifyLocked (put_entry b d c (closed_by_probe item)) d c StateHalfOpen StateClosed "" (clk 0%nat)
    else
      notifyLocked (put_entry b d c (opened item (wrap64 (e_openCount item + 1)) (clk 0%nat)))
        d c StateHalfOpen StateOpen "" (clk 1%nat)
  else if bool_decide (e_state item = StateOpen) then b
  else
    let cfg := b_config b in
    let item := counted item success in
    if trips cfg item then
      notifyLocked (put_entry b d c (opened item 1 (clk 0%nat))) d c StateClosed StateOpen "" (clk 1%nat)
    else put_entry b d c item.

Definition Reset (b : Breaker) (clk : clock) (d c : string) : Breaker :=
  let from := e_state (lookup_entry b d c) in
  let b := {| b_config := b_config b; b_entries := delete (circuit_key d c) (b_entries b);
              b_observed := b_observed b |} in
  let b := match Store (b_config b) with
           | None => b
           | Some s => SetConfig b (with_store (b_config b)
               (store_Delete s {| k_DeploymentID := d; k_CredentialID := c |}).1)
           end in
  if bool_decide (from ≠ StateClosed)
  then notify b {| t_DeploymentID := d; t_CredentialID := c; t_From := from; t_To := StateReset;
                   t_Reason := "drift"; t_At := clk 0%nat |}
  else b.

(** [Start]: rebuild the entries from the durable facts; [probeTaken] is not
    a durable fact and keeps its value. *)
Definition restore (b : Breaker) (f : Fact) : Breaker :=
  let item := lookup_entry b (f_DeploymentID f) (f_CredentialID f) in
  put_entry b (f_DeploymentID f) (f_CredentialID f)
    {| e_state := f_State f; e_samples := f_SampleCount f; e_failures := f_FailureCount f;
       e_openedAt := of_unix_milli (f_OpenedAtMS f);
       e_lastProbeAt := of_unix_milli (f_LastProbeAtMS f);
       e_probeTaken := e_probeTaken item; e_openCount := f_OpenCount f |}.

Definition Start (b : Breaker) : result Breaker :=
  match Store (b_config b) with
  | None => Ok b
  | Some s =>
      match store_Load s with
      | Err e => Err e
      | Ok facts => Ok (foldl restore b facts)
      end
  end.
End Breaker.

Arguments Config S : clear implicits.
Arguments Breaker S : clear implicits.

(** ** Cooldown arithmetic *)

Section Cooldown.
Context {S : Type} (cfg : Config S).

(** The cooldown is positive and never above the configured maximum (or the
    initial cooldown, when that is larger), whatever the escalation factor
    did in floating point. *)
Lemma cooldown_bounds n :
  0 < Cooldown cfg → 0 < MaxCooldown cfg →
  0 < cooldown cfg n <= Z.max (Cooldown cfg) (MaxCooldown cfg).
Proof.
  intros Hc Hm. unfold cooldown.
  set (x := if f64_gtb _ _ then _ else _). clearbody x.
  destruct (Z.ltb_spec 0 (MaxCooldown cfg)), (Z.ltb_spec (MaxCooldown cfg) x); simpl;
    destruct (Z.leb_spec (MaxCooldown cfg) 0), (Z.leb_spec x 0); lia.
Qed.

Lemma escalate_app m n f c : escalate (m + n) f c = escalate n f (escalate m f c).
Proof. revert c. induction m as [|m IH]; intros c; simpl; [done|apply IH]. Qed.
End Cooldown.

(** Doubling an int64 that already overflowed stays at the smallest int64. *)
Lemma escalate_overflow n : escalate n (f64_of_Z 2) min_int64 = min_int64.
Proof. induction n as [|n IH]; [done|]. simpl. exact IH. Qed.

Lemma default_cooldown_escalates {S : Type} (n : Z) :
  1 <= n <= 29 →
  cooldown (@DefaultConfig S) n = Z.min (30 * second * 2 ^ (n - 1)) (10 * minute).
Proof.
  intros Hn.
  assert (forallb (λ k : nat, cooldown (@DefaultConfig S) (Z.of_nat k)
            =? Z.min (30 * second * 2 ^ (Z.of_nat k - 1)) (10 * minute)) (seq 1 29) = true) as Hall
    by (vm_compute; reflexivity).
  rewrite forallb_forall in Hall. specialize (Hall (Z.to_nat n)).
  rewrite Z2Nat.id in Hall by lia. apply Z.eqb_eq, Hall, in_seq. lia.
Qed.

Lemma default_cooldown_collapses {S : Type} (n : Z) :
  30 <= n → cooldown (@DefaultConfig S) n = 30 * second.
Proof.
  intros Hn. unfold cooldown. destruct (Z.leb_spec n 0); [lia|].
  replace (Z.to_nat (n - 1)) with (29 + Z.to_nat (n - 30))%nat by lia.
  change (CooldownFactor (@DefaultConfig S)) with (f64_of_Z 2).
  change (Cooldown (@DefaultConfig S)) with (30 * second).
  rewrite escalate_app.
  replace (escalate 29 (f64_of_Z 2) (30 * second)) with min_int64 by (vm_compute; reflexivity).
  rewrite escalate_overflow. vm_compute. reflexivity.
Qed.

(** ** Lookups through the bookkeeping *)

Section Lookups.
Context {S : Type} `{!CircuitStore S}.
Implicit Types (b : Breaker S) (e : entry) (d c : string).

Lemma lookup_put b d c e d' c' :
  lookup_entry (put_entry b d c e) d' c' =
  if bool_decide (circuit_key d c = circuit_key d' c') then e else lookup_entry b d' c'.
Proof.
  unfold lookup_entry, put_entry. simpl. rewrite lookup_insert.
  case_bool_decide; by case_decide.
Qed.

Lemma lookup_put_eq b d c e : lookup_entry (put_entry b d c e) d c = e.
Proof. rewrite lookup_put. by case_bool_decide. Qed.

Lemma lookup_put_ne b d c e d' c' :
  circuit_key d c ≠ circuit_key d' c' →
  lookup_entry (put_entry b d c e) d' c' = lookup_entry b d' c'.
Proof. intros. rewrite lookup_put. by case_bool_decide. Qed.

Lemma lookup_get b d c d' c' : lookup_entry (get b d c) d' c' = lookup_entry b d' c'.
Proof.
  unfold get. rewrite lookup_put. case_bool_decide as E; [|done].
  unfold lookup_entry. by rewrite E.
Qed.

Lemma lookup_setconfig b cfg d c : lookup_entry (SetConfig b cfg) d c = lookup_entry b d c.
Proof. done. Qed.

Lemma lookup_notify b t d c : lookup_entry (notify b t) d c = lookup_entry b d c.
Proof. unfold notify. by case_match. Qed.

Lemma lookup_persist b d c d' c' :
  lookup_entry (persistLocked b d c) d' c' = lookup_entry b d' c'.
Proof.
  unfold persistLocked. case_match; [|done].
  rewrite lookup_setconfig. apply lookup_get.
Qed.

Lemma lookup_notifyLocked b d c from to r t d' c' :
  lookup_entry (notifyLocked b d c from to r t) d' c' = lookup_entry b d' c'.
Proof. unfold notifyLocked. by rewrite lookup_notify, lookup_persist. Qed.

Lemma lookup_transition b d c to r t d' c' :
  lookup_entry (transitionLocked b d c to r t) d' c' =
  if bool_decide (circuit_key d c = circuit_key d' c')
  then set_state (lookup_entry b d c) to else lookup_entry b d' c'.
Proof.
  unfold transitionLocked. case_bool_decide; rewrite ?lookup_notify, lookup_persist; apply lookup_put.
Qed.

Lemma lookup_transition_eq b d c to r t :
  lookup_entry (transitionLocked b d c to r t) d c = set_state (lookup_entry b d c) to.
Proof. rewrite lookup_transition. by case_bool_decide. Qed.

Lemma lookup_transition_ne b d c to r t d' c' :
  circuit_key d c ≠ circuit_key d' c' →
  lookup_entry (transitionLocked b d c to r t) d' c' = lookup_entry b d' c'.
Proof. intros. rewrite lookup_transition. by case_bool_decide. Qed.

Lemma config_get b d c : b_config (get b d c) = b_config b.
Proof. done. Qed.
End Lookups.

Create Rewrite HintDb circuit.
#[export] Hint Rewrite @lookup_put_eq @lookup_get @lookup_setconfig @lookup_notify
  @lookup_persist @lookup_notifyLocked @lookup_transition_eq @config_get : circuit.

(** ** The abstract circuit: what one tuple promises *)

Inductive cstate :=
| CClosed
| COpen (openedAt openCount : Z)
| CHalf (probe : bool) (openCount : Z).

Inductive label :=
| LAllow (clk : clock) (granted : bool)
| LRecord (clk : clock) (success : bool)
| LReset.

(** One step of a tuple's circuit under configuration [cfg].  [cooldown] is
    the only arithmetic left; when a closed circuit trips is abstracted to a
    choice. *)
Inductive cstep {S} (cfg : Config S) : label → cstate → cstate → Prop :=
| step_allow_closed clk : cstep cfg (LAllow clk true) CClosed CClosed
| step_allow_cooling clk at_ n :
    time_sub (clk 0%nat) at_ < cooldown cfg n →
    cstep cfg (LAllow clk false) (COpen at_ n) (COpen at_ n)
| step_allow_elapsed clk at_ n :
    cooldown cfg n <= time_sub (clk 0%nat) at_ →
    cstep cfg (LAllow clk true) (COpen at_ n) (CHalf true n)
| step_allow_busy clk n : cstep cfg (LAllow clk false) (CHalf true n) (CHalf true n)
| step_allow_probe clk n : cstep cfg (LAllow clk true) (CHalf false n) (CHalf true n)
| step_record_recovered clk p n : cstep cfg (LRecord clk true) (CHalf p n) CClosed
| step_record_relapsed clk p n :
    cstep cfg (LRecord clk false) (CHalf p n) (COpen (clk 0%nat) (wrap64 (n + 1)))
| step_record_open clk s at_ n : cstep cfg (LRecord clk s) (COpen at_ n) (COpen at_ n)
| step_record_closed clk s : cstep cfg (LRecord clk s) CClosed CClosed
| step_record_trip clk s : cstep cfg (LRecord clk s) CClosed (COpen (clk 0%nat) 1)
| step_reset st : cstep cfg LReset st CClosed.

(** The abstraction of an entry: [None] for a state string no transition of
    the breaker writes. *)
Definition abs_entry (e : entry) : option cstate :=
  if bool_decide (e_state e = StateClosed) then Some CClosed
  else if bool_decide (e_state e = StateOpen) then Some (COpen (e_openedAt e) (e_openCount e))
  else if bool_decide (e_state e = StateHalfOpen) then Some (CHalf (e_probeTaken e) (e_openCount e))
  else None.

Definition abs {S} (b : Breaker S) (d c : string) : option cstate := abs_entry (lookup_entry b d c).

(** Operations of the breaker as data, their execution, and the label the
    operation shows for a tuple. *)
Inductive op {S} :=
| OpAllow (clk : clock) (d c : string)
| OpOpen (clk : clock) (d c : string)
| OpRecord (clk : clock) (d c : string) (success : bool)
| OpReset (clk : clock) (d c : string)
| OpSetConfig (cfg : Config S).
Arguments op S : clear implicits.

Definition exec {S} `{!CircuitStore S} (b : Breaker S) (o : op S) : option bool * Breaker S :=
  match o with
  | OpAllow clk d c => let '(r, b') := Allow b clk d c in (Some r, b')
  | OpOpen clk d c => let '(r, b') := Open b clk d c in (Some r, b')
  | OpRecord clk d c s => (None, RecordOutcome b clk d c s)
  | OpReset clk d c => (None, Reset b clk d c)
  | OpSetConfig cfg => (None, SetConfig b cfg)
  end.

Definition op_key {S} (o : op S) : option string :=
  match o with
  | OpAllow _ d c | OpOpen _ d c | OpRecord _ d c _ | OpReset _ d c => Some (circuit_key d c)
  | OpSetConfig _ => None
  end.

Definition op_label {S} (o : op S) (r : option bool) : option label :=
  match o, r with
  | OpAllow clk _ _, Some granted => Some (LAllow clk granted)
  | OpRecord clk _ _ s, _ => Some (LRecord clk s)
  | OpReset _ _ _, _ => Some LReset
  | _, _ => None
  end.

Section Refinement.
Context {S : Type} `{!CircuitStore S}.
Implicit Types (b : Breaker S).

(** An operation on one key leaves every tuple with another key alone. *)
Lemma exec_other b o d c :
  op_key o ≠ Some (circuit_key d c) → lookup_entry (exec b o).2 d c = lookup_entry b d c.
Proof.
  destruct o as [clk d' c'|clk d' c'|clk d' c' s|clk d' c'|cfg]; simpl; intros Hk;
    try assert (circuit_key d' c' ≠ circuit_key d c) by congruence; [..|done].
  - unfold Allow.
    go_cases; rewrite ?lookup_put_ne, ?lookup_transition_ne by done; by autorewrite with circuit.
  - unfold Open. simpl. by autorewrite with circuit.
  - unfold RecordOutcome.
    go_cases; autorewrite with circuit; rewrite ?lookup_put_ne by done; by autorewrite with circuit.
  - unfold Reset. unfold lookup_entry.
    go_cases; unfold notify; go_cases; by rewrite lookup_delete_ne.
Qed.

Lemma abs_key b d' c' d c :
  circuit_key d' c' = circuit_key d c → abs b d' c' = abs b d c.
Proof. intros E. unfold abs, lookup_entry. by rewrite E. Qed.

Lemma allow_refines b clk d c st :
  abs b d c = Some st →
  ∃ st', abs (Allow b clk d c).2 d c = Some st' ∧
         cstep (b_config b) (LAllow clk (Allow b clk d c).1) st st'.
Proof.
  unfold abs, Allow. autorewrite with circuit. unfold abs_entry at 1.
  destruct (lookup_entry b d c) as [es smp fl oa lp pt oc] eqn:Hl. simpl.
  repeat case_bool_decide; simplify_eq/=; intros [= <-].
  - eexists. split; [|constructor]. autorewrite with circuit. by rewrite ?Hl.
  - destruct (Z.ltb_spec (time_sub (clk 0%nat) oa) (cooldown (b_config b) oc)); simpl.
    + eexists. split; [|by constructor]. autorewrite with circuit. by rewrite ?Hl.
    + eexists. split; [|by constructor]. autorewrite with circuit. by rewrite ?Hl.
  - destruct pt; simpl.
    + eexists. split; [|constructor]. autorewrite with circuit. by rewrite ?Hl.
    + eexists. split; [|constructor]. by autorewrite with circuit.
Qed.

Lemma record_refines b clk d c s st :
  abs b d c = Some st →
  ∃ st', abs (RecordOutcome b clk d c s) d c = Some st' ∧
         cstep (b_config b) (LRecord clk s) st st'.
Proof.
  unfold abs, RecordOutcome. autorewrite with circuit. unfold abs_entry at 1.
  destruct (lookup_entry b d c) as [es smp fl oa lp pt oc] eqn:Hl. simpl.
  repeat case_bool_decide; simplify_eq/=; intros [= <-].
  - case_match; autorewrite with circuit.
    + eexists. split; [|apply step_record_trip]. done.
    + eexists. split; [|apply step_record_closed]. done.
  - eexists. split; [|apply step_record_open]. autorewrite with circuit. by rewrite ?Hl.
  - case_match; autorewrite with circuit.
    + eexists. split; [|apply step_record_recovered]. done.
    + eexists. split; [|apply step_record_relapsed]. done.
Qed.

Lemma lookup_reset b clk d c : lookup_entry (Reset b clk d c) d c = new_entry.
Proof.
  unfold Reset, notify, lookup_entry. go_cases; by rewrite lookup_delete_eq.
Qed.

(** Every operation on a tuple's key that has a label is that labelled step
    of the abstract circuit; [Open] and operations on other keys leave the
    tuple as it was. *)
Lemma exec_refines b o d c st :
  abs b d c = Some st →
  match op_label o (exec b o).1 with
  | Some l =>
      if bool_decide (op_key o = Some (circuit_key d c))
      then ∃ st', cstep (b_config b) l st st' ∧ abs (exec b o).2 d c = Some st'
      else abs (exec b o).2 d c = Some st
  | None => abs (exec b o).2 d c = Some st
  end.
Proof.
  intros Habs. case_bool_decide as Hk.
  2:{ unfold abs. rewrite exec_other by done. by case_match. }
  destruct o as [clk d' c'|clk d' c'|clk d' c' s|clk d' c'|cfg]; simpl in *; simplify_eq;
    rewrite <- (abs_key b d' c' d c Hk) in Habs; rewrite <- ?(abs_key _ d' c' d c Hk).
  - destruct (allow_refines b clk d' c' st Habs) as (st'&?&?).
    destruct (Allow b clk d' c') as [r b']. simpl in *.
    by exists st'.
  - unfold abs in *. by autorewrite with circuit.
  - destruct (record_refines b clk d' c' s st Habs) as (st'&?&?).
    by exists st'.
  - exists CClosed. split; [constructor|].
    unfold abs. by rewrite lookup_reset.
Qed.
End Refinement.

(** ** Runs *)

Fixpoint run {S} `{!CircuitStore S} (b : Breaker S) (ops : list (op S)) :
    list (option bool) * Breaker S :=
  match ops with
  | [] => ([], b)
  | o :: ops =>
      let '(r, b') := exec b o in
      let '(rs, b'') := run b' ops in (r :: rs, b'')
  end.

(** The labelled operations a run shows to one tuple, each with the
    configuration it ran under. *)
Fixpoint visible {S} `{!CircuitStore S} (b : Breaker S) (ops : list (op S)) (d c : string) :
    list (Config S * label) :=
  match ops with
  | [] => []
  | o :: ops =>
      let '(r, b') := exec b o in
      let rest := visible b' ops d c in
      if bool_decide (op_key o = Some (circuit_key d c)) then
        match op_label o r with Some l => (b_config b, l) :: rest | None => rest end
      else rest
  end.

Inductive ctrace {S} : list (Config S * label) → cstate → cstate → Prop :=
| ctrace_nil st : ctrace [] st st
| ctrace_cons cfg l tr st st' st'' :
    cstep cfg l st st' → ctrace tr st' st'' → ctrace ((cfg, l) :: tr) st st''.

(** Every tuple starts closed. *)
Lemma abs_new {S} (cfg : Config S) d c : abs (New cfg) d c = Some CClosed.
Proof. unfold abs, lookup_entry. simpl. by rewrite lookup_empty. Qed.

(** ** Probe exclusivity *)

Definition is_view_op {S} (o : op S) : bool :=
  match o with OpRecord _ _ _ _ | OpReset _ _ _ => false | _ => true end.

Section Exclusivity.
Context {S : Type} `{!CircuitStore S}.
Implicit Types (b : Breaker S).

Lemma exec_busy b o d c n :
  abs b d c = Some (CHalf true n) →
  (op_key o = Some (circuit_key d c) → is_view_op o = true) →
  abs (exec b o).2 d c = Some (CHalf true n).
Proof.
  intros Habs Hop. pose proof (exec_refines b o d c _ Habs) as H.
  destruct (op_label o (exec b o).1) as [l|] eqn:Hl; [|done].
  case_bool_decide as Hk; [|done]. destruct H as (st'&Hs&Ha). specialize (Hop Hk).
  destruct o; simplify_eq/=; destruct (Allow _ _ _ _); simplify_eq/=. by inversion Hs; simplify_eq.
Qed.

Lemma allow_busy b clk d c n :
  abs b d c = Some (CHalf true n) → (Allow b clk d c).1 = false.
Proof.
  intros Habs. destruct (allow_refines b clk d c _ Habs) as (st'&_&Hs).
  by inversion Hs.
Qed.
End Exclusivity.

(** ** Durability *)

Fixpoint no_colon (s : string) : bool :=
  match s with
  | EmptyString => true
  | String a s => negb (Ascii.eqb a ":"%char) && no_colon s
  end.

(** Deployment ids without a colon make the map key injective. *)
Lemma circuit_key_inj d c d' c' :
  no_colon d = true → no_colon d' = true → circuit_key d c = circuit_key d' c' → d = d' ∧ c = c'.
Proof.
  unfold circuit_key. revert d'. induction d as [|a d IH]; intros [|a' d'] Hd Hd' E; simpl in *.
  - by simplify_eq.
  - injection E as <- _. by rewrite Ascii.eqb_refl in Hd'.
  - injection E as -> _. by rewrite Ascii.eqb_refl in Hd.
  - injection E as <- E. apply andb_true_iff in Hd as [_ Hd], Hd' as [_ Hd'].
    destruct (IH d' Hd Hd' E). by subst.
Qed.

Definition tuple (d c : string) : TupleKey := {| k_DeploymentID := d; k_CredentialID := c |}.

(** The durable fact of a tuple says what a restarted process must know. *)
Definition agrees (e : entry) (f : option Fact) : Prop :=
  if bool_decide (e_state e = StateClosed)
  then match f with None => True | Some f => f_State f = StateClosed end
  else ∃ fact, f = Some fact ∧ f_State fact = e_state e ∧ f_OpenCount fact = e_openCount e ∧
         f_SampleCount fact = e_samples e ∧ f_FailureCount fact = e_failures e ∧
         f_OpenedAtMS fact = unix_milli (e_openedAt e).

(** The fields of an entry that agreement looks at. *)
Definition core (e : entry) : string * Z * Z * Z * Z :=
  (e_state e, e_samples e, e_failures e, e_openedAt e, e_openCount e).

Lemma agrees_core e e' f : core e = core e' → agrees e f → agrees e' f.
Proof. unfold core, agrees. destruct e, e'. simpl. by intros [= -> -> -> -> ->]. Qed.

Lemma agrees_fact d c e e' : core e = core e' → agrees e' (Some (fact_of d c e)).
Proof.
  intros E. apply (agrees_core e); [done|]. unfold agrees. case_bool_decide; [done|].
  eexists. by split_and!.
Qed.

Section Durability.
Context {S : Type} `{!CircuitStore S, !CircuitStoreLaws S}.
Implicit Types (b : Breaker S) (s : S).

Definition well_keyed s : Prop :=
  ∀ k f, store_view s !! k = Some f → fact_key f = k ∧ no_colon (k_DeploymentID k) = true.

(** [durable b s]: the store of [b] is [s] and agrees with every entry. *)
Record durable b s : Prop := {
  durable_store : Store (b_config b) = Some s;
  durable_keyed : well_keyed s;
  durable_wf d c : is_Some (abs b d c);
  durable_agrees d c : no_colon d = true → agrees (lookup_entry b d c) (store_view s !! tuple d c) }.

Definition store_of b : option S := Store (b_config b).

Lemma store_notify b t : store_of (notify b t) = store_of b.
Proof. unfold notify. by case_match. Qed.

Lemma store_persist b d c s :
  store_of b = Some s →
  store_of (persistLocked b d c) = Some (store_Save s (fact_of d c (lookup_entry b d c))).1.
Proof.
  unfold store_of, persistLocked. intros ->. simpl. by rewrite lookup_get.
Qed.

Lemma store_transition b d c to r t s :
  store_of b = Some s →
  store_of (transitionLocked b d c to r t) =
  Some (store_Save s (fact_of d c (set_state (lookup_entry b d c) to))).1.
Proof.
  intros Hs. unfold transitionLocked.
  case_bool_decide; rewrite ?store_notify; erewrite store_persist by done; by rewrite lookup_put_eq.
Qed.

Lemma store_notifyLocked b d c from to r t s :
  store_of b = Some s →
  store_of (notifyLocked b d c from to r t) = Some (store_Save s (fact_of d c (lookup_entry b d c))).1.
Proof. intros Hs. unfold notifyLocked. rewrite store_notify. by apply store_persist. Qed.

Lemma well_keyed_save s d c e :
  no_colon d = true → well_keyed s → well_keyed (store_Save s (fact_of d c e)).1.
Proof.
  intros Hd Hs k f. rewrite store_save_view, lookup_insert. case_decide as E; [|apply Hs].
  intros [= <-]. by subst.
Qed.

(** Writing an entry and persisting it keeps the store in agreement. *)
Lemma durable_update b b' s d c e :
  durable b s → no_colon d = true →
  is_Some (abs b' d c) →
  (∀ d' c', circuit_key d c ≠ circuit_key d' c' → lookup_entry b' d' c' = lookup_entry b d' c') →
  store_of b' = Some (store_Save s (fact_of d c e)).1 → core e = core (lookup_entry b' d c) →
  ∃ s', durable b' s'.
Proof.
  intros [Hst Hk Hwf Hag] Hd Habs Hother Hs Hcore.
  eexists. split; [done|by apply well_keyed_save|..].
  - intros d' c'. destruct (decide (circuit_key d c = circuit_key d' c')) as [E|E].
    + by rewrite <- (abs_key b' d c d' c' E).
    + unfold abs. rewrite Hother by done. apply Hwf.
  - intros d' c' Hd'. rewrite store_save_view, lookup_insert.
    destruct (decide (circuit_key d c = circuit_key d' c')) as [E|E].
    + destruct (circuit_key_inj _ _ _ _ Hd Hd' E) as [-> ->].
      rewrite decide_True by done. by apply agrees_fact.
    + rewrite decide_False; [by rewrite Hother; auto|].
      unfold tuple, fact_key. simpl. intros [= <- <-]. done.
Qed.

(** An operation that leaves the store alone keeps agreement when it keeps a
    closed entry closed and the core of every other entry as it is. *)
Lemma durable_frame b b' s :
  durable b s → store_of b' = Some s →
  (∀ d c, core (lookup_entry b d c) = core (lookup_entry b' d c) ∨
          (e_state (lookup_entry b d c) = StateClosed ∧ e_state (lookup_entry b' d c) = StateClosed)) →
  durable b' s.
Proof.
  intros [Hst Hk Hwf Hag] Hs Hsame. split; [done..| |].
  - intros d c. specialize (Hwf d c). unfold abs, abs_entry in *.
    destruct (Hsame d c) as [[= Hc _ _ _ _]|[_ Hc]]; [rewrite Hc in Hwf|rewrite Hc; by eexists].
    repeat case_bool_decide; first [by destruct Hwf as [? [=]] | by eexists].
  - intros d c Hd. destruct (Hsame d c) as [E|[Hc Hc']]; [eauto using agrees_core|].
    specialize (Hag d c Hd). unfold agrees in *. by rewrite Hc in Hag; rewrite Hc'.
Qed.

Lemma core_key b d' c' d c :
  circuit_key d' c' = circuit_key d c → lookup_entry b d' c' = lookup_entry b d c.
Proof. intros E. unfold lookup_entry. by rewrite E. Qed.

(** Only the entry under the operation's key can change. *)
Lemma durable_frame_one b b' s d c :
  durable b s → store_of b' = Some s →
  (∀ d' c', circuit_key d c ≠ circuit_key d' c' → lookup_entry b' d' c' = lookup_entry b d' c') →
  core (lookup_entry b d c) = core (lookup_entry b' d c) ∨
    (e_state (lookup_entry b d c) = StateClosed ∧ e_state (lookup_entry b' d c) = StateClosed) →
  durable b' s.
Proof.
  intros Hdur Hs Hother Hsame. apply (durable_frame b); [done..|].
  intros d' c'. destruct (decide (circuit_key d c = circuit_key d' c')) as [E|E].
  - by rewrite <- (core_key b d c d' c' E), <- (core_key b' d c d' c' E).
  - left. by rewrite Hother.
Qed.

Lemma allow_durable b s clk d c :
  durable b s → no_colon d = true → ∃ s', durable (Allow b clk d c).2 s'.
Proof.
  intros Hdur Hd. pose proof (exec_other b (OpAllow clk d c)) as Hother. simpl in Hother.
  destruct (durable_wf _ _ Hdur d c) as [st Hst].
  destruct (allow_refines b clk d c st Hst) as (st'&Hst'&_).
  pose proof (durable_store _ _ Hdur) as Hstore.
  assert (∀ d' c', circuit_key d c ≠ circuit_key d' c' →
            lookup_entry (Allow b clk d c).2 d' c' = lookup_entry b d' c') as Ho.
  { intros d' c' E. rewrite <- (Hother d' c') by congruence. by destruct (Allow _ _ _ _). }
  clear Hother. revert Hst' Ho. unfold Allow. autorewrite with circuit.
  destruct (lookup_entry b d c) as [es smp fl oa lp pt oc] eqn:Hl. simpl.
  repeat case_bool_decide; simplify_eq/=; try case_match; simpl; intros Hst' Ho.
  all: try (exists s; apply (durable_frame_one b _ _ d c); [done..|]; left;
            autorewrite with circuit; by rewrite ?Hl).
  eapply (durable_update b _ s d c (set_state (lookup_entry b d c) StateHalfOpen));
    [done|done|by rewrite Hst'|exact Ho|..].
  - rewrite <- (lookup_get b d c). by apply store_transition.
  - autorewrite with circuit. by rewrite Hl.
Qed.

Lemma record_durable b s clk d c ok :
  durable b s → no_colon d = true → ∃ s', durable (RecordOutcome b clk d c ok) s'.
Proof.
  intros Hdur Hd. pose proof (exec_other b (OpRecord clk d c ok)) as Hother. simpl in Hother.
  destruct (durable_wf _ _ Hdur d c) as [st Hst].
  destruct (record_refines b clk d c ok st Hst) as (st'&Hst'&_).
  pose proof (durable_store _ _ Hdur) as Hstore.
  assert (∀ d' c', circuit_key d c ≠ circuit_key d' c' →
            lookup_entry (RecordOutcome b clk d c ok) d' c' = lookup_entry b d' c') as Ho
    by (intros; apply Hother; congruence).
  clear Hother. revert Hst' Ho. unfold RecordOutcome. autorewrite with circuit.
  unfold abs, abs_entry in Hst.
  destruct (lookup_entry b d c) as [es smp fl oa lp pt oc] eqn:Hl. simpl in *.
  repeat case_bool_decide; simplify_eq/=; try case_match; simpl; intros Hst' Ho.
  all: try (exists s; apply (durable_frame_one b _ _ d c); [done..|];
            autorewrite with circuit; rewrite Hl; auto; done).
  all: eapply (durable_update b _ s d c);
    [done|done|by rewrite Hst'|exact Ho|by apply store_notifyLocked|by autorewrite with circuit].
Qed.

Lemma reset_durable b s clk d c :
  durable b s → no_colon d = true → ∃ s', durable (Reset b clk d c) s'.
Proof.
  intros [Hst Hk Hwf Hag] Hd.
  assert (∀ d' c', circuit_key d c ≠ circuit_key d' c' →
            lookup_entry (Reset b clk d c) d' c' = lookup_entry b d' c') as Ho
    by (intros; apply (exec_other b (OpReset clk d c)); simpl; congruence).
  exists (store_Delete s (tuple d c)).1. split.
  - unfold Reset. simpl. rewrite Hst. case_bool_decide; [|done]. unfold notify. by case_match.
  - intros k f. rewrite store_delete_view, lookup_delete_Some. intros [_ ?]. by apply Hk.
  - intros d' c'. destruct (decide (circuit_key d c = circuit_key d' c')) as [E|E].
    + rewrite <- (abs_key _ d c d' c' E). unfold abs. rewrite lookup_reset. by eexists.
    + unfold abs. rewrite Ho by done. apply Hwf.
  - intros d' c' Hd'. rewrite store_delete_view, lookup_delete.
    destruct (decide (circuit_key d c = circuit_key d' c')) as [E|E].
    + destruct (circuit_key_inj _ _ _ _ Hd Hd' E) as [-> ->].
      rewrite decide_True by done. by rewrite lookup_reset.
    + rewrite decide_False by (unfold tuple; intros [= <- <-]; done). rewrite Ho by done. auto.
Qed.

(** *** Reconstruction *)

Definition restored (f : Fact) (probe : bool) : entry :=
  {| e_state := f_State f; e_samples := f_SampleCount f; e_failures := f_FailureCount f;
     e_openedAt := of_unix_milli (f_OpenedAtMS f);
     e_lastProbeAt := of_unix_milli (f_LastProbeAtMS f);
     e_probeTaken := probe; e_openCount := f_OpenCount f |}.

Definition fact_circuit_key (f : Fact) : string :=
  circuit_key (f_DeploymentID f) (f_CredentialID f).

Lemma foldl_restore_other b l d c :
  (∀ f, f ∈ l → fact_circuit_key f ≠ circuit_key d c) →
  lookup_entry (foldl restore b l) d c = lookup_entry b d c.
Proof.
  revert b. induction l as [|f l IH]; intros b Hl; simpl; [done|].
  rewrite IH by (intros; apply Hl; by constructor).
  apply lookup_put_ne. apply Hl. constructor.
Qed.

Lemma foldl_restore_in b l f d c :
  f ∈ l → fact_circuit_key f = circuit_key d c →
  (∀ g, g ∈ l → fact_circuit_key g = circuit_key d c → g = f) →
  lookup_entry (foldl restore b l) d c = restored f (e_probeTaken (lookup_entry b d c)).
Proof.
  revert b. induction l as [|g l IH]; intros b Hf Hk Huniq; [by apply not_elem_of_nil in Hf|].
  assert (∀ g, g ∈ l → fact_circuit_key g = circuit_key d c → g = f) as Huniq'
    by (intros; apply Huniq; [by constructor|done]).
  simpl. destruct (decide (fact_circuit_key g = circuit_key d c)) as [E|E].
  - assert (g = f) as -> by (apply Huniq; [constructor|done]).
    assert (lookup_entry (restore b f) d c = restored f (e_probeTaken (lookup_entry b d c))) as Hr.
    { rewrite <- (core_key _ _ _ _ _ E). unfold restore. rewrite lookup_put_eq.
      by rewrite (core_key _ _ _ _ _ E). }
    destruct (decide (f ∈ l)) as [Hin|Hin].
    + rewrite IH by done. by rewrite Hr.
    + rewrite foldl_restore_other; [done|]. intros h Hh Eh. by rewrite (Huniq' h Hh Eh) in Hh.
  - apply elem_of_cons in Hf as [->|Hf]; [done|].
    rewrite IH by done. do 2 f_equal. by apply lookup_put_ne.
Qed.
End Durability.

(** ** Run-level lemmas *)

Section Runs.
Context {S : Type} `{!CircuitStore S}.
Implicit Types (b : Breaker S).

Lemma run_cons b o ops :
  run b (o :: ops) = ((exec b o).1 :: (run (exec b o).2 ops).1, (run (exec b o).2 ops).2).
Proof. cbn [run]. destruct (exec b o) as [r b']. simpl. by destruct (run b' ops). Qed.

Lemma run_refines b ops d c st :
  abs b d c = Some st →
  ∃ st', abs (run b ops).2 d c = Some st' ∧ ctrace (visible b ops d c) st st'.
Proof.
  revert b st. induction ops as [|o ops IH]; intros b st Habs.
  { exists st. split; [done|constructor]. }
  rewrite run_cons. cbn [visible]. destruct (exec b o) as [r b'] eqn:Ho.
  pose proof (exec_refines b o d c st Habs) as Hs. rewrite Ho in Hs. simpl in *.
  destruct (op_label o r) as [l|]; [case_bool_decide|case_bool_decide].
  - destruct Hs as (st1&Hstep&Habs1). destruct (IH b' st1 Habs1) as (st'&?&?).
    exists st'. split; [done|by econstructor].
  - apply (IH b' st Hs).
  - apply (IH b' st Hs).
  - apply (IH b' st Hs).
Qed.

Lemma run_busy b ops d c n :
  abs b d c = Some (CHalf true n) →
  Forall (λ o, op_key o = Some (circuit_key d c) → is_view_op o = true) ops →
  abs (run b ops).2 d c = Some (CHalf true n) ∧
  ∀ i clk, ops !! i = Some (OpAllow clk d c) → (run b ops).1 !! i = Some (Some false).
Proof.
  intros Habs Hops. revert b Habs. induction Hops as [|o ops Ho Hops IH]; intros b Habs.
  { split; [done|]. intros i clk H. inversion H. }
  rewrite run_cons. simpl.
  destruct (IH (exec b o).2 (exec_busy b o d c n Habs Ho)) as [H1 H2].
  split; [done|]. intros [|i] clk Hi; simpl in *; [|by eapply H2].
  simplify_eq. simpl. pose proof (allow_busy b clk d c n Habs).
  destruct (Allow b clk d c). simpl in *. by subst.
Qed.

(** Outcomes of one tuple recorded in sequence. *)
Definition record_all b (clk : clock) d c (outcomes : list bool) : Breaker S :=
  foldl (λ b ok, RecordOutcome b clk d c ok) b outcomes.

Definition failures_in (outcomes : list bool) : Z :=
  Z.of_nat (length (filter (λ ok, ok = false) outcomes)).

Lemma record_closed_step b clk d c ok :
  e_state (lookup_entry b d c) = StateClosed →
  trips (b_config b) (counted (lookup_entry b d c) ok) = false →
  lookup_entry (RecordOutcome b clk d c ok) d c = counted (lookup_entry b d c) ok ∧
  b_config (RecordOutcome b clk d c ok) = b_config b.
Proof.
  intros Hc Ht. unfold RecordOutcome. autorewrite with circuit. rewrite Hc. simpl.
  rewrite Ht. by autorewrite with circuit.
Qed.

Lemma record_all_closed b clk d c outcomes :
  let e := lookup_entry b d c in
  e_state e = StateClosed → 0 <= e_samples e → 0 <= e_failures e <= e_samples e →
  e_samples e + Z.of_nat (length outcomes) < MinSamples (b_config b) →
  MinSamples (b_config b) <= max_int64 →
  let e' := lookup_entry (record_all b clk d c outcomes) d c in
  e_state e' = StateClosed ∧ e_samples e' = e_samples e + Z.of_nat (length outcomes) ∧
  e_failures e' = e_failures e + failures_in outcomes.
Proof.
  simpl. revert b. induction outcomes as [|ok outs IH]; intros b Hc Hs Hf Hlen Hmax.
  { unfold failures_in. simpl. split_and!; [done|lia|lia]. }
  simpl in Hlen. unfold record_all. simpl. fold (record_all (RecordOutcome b clk d c ok) clk d c outs).
  assert (wrap64 (e_samples (lookup_entry b d c) + 1) = e_samples (lookup_entry b d c) + 1) as Hw
    by (apply wrap64_id; unfold_ints; lia).
  assert (wrap64 (e_failures (lookup_entry b d c) + 1) = e_failures (lookup_entry b d c) + 1) as Hwf
    by (apply wrap64_id; unfold_ints; lia).
  destruct (record_closed_step b clk d c ok Hc) as [Hl Hcfg].
  { unfold trips, counted. simpl. rewrite Hw.
    destruct (Z.leb_spec (MinSamples (b_config b)) (e_samples (lookup_entry b d c) + 1)); [lia|done]. }
  destruct (IH (RecordOutcome b clk d c ok)) as (Hc'&Hs'&Hf');
    rewrite ?Hl, ?Hcfg; simpl; rewrite ?Hw; try (destruct ok; lia); [done|].
  split_and!; [done| |].
  - rewrite Hs', Hl. simpl. rewrite Hw. lia.
  - rewrite Hf', Hl. unfold failures_in. simpl. rewrite filter_cons.
    destruct ok; case_decide; try done; rewrite ?Hwf; simpl; lia.
Qed.
End Runs.

(** ** Restart *)

Section Restart.
Context {S : Type} `{!CircuitStore S, !CircuitStoreLaws S}.

(** Operations a running gateway performs on tuples whose deployment id has
    no colon; the configuration stays. *)
Definition regular_op (o : op S) : bool :=
  match o with
  | OpAllow _ d _ | OpOpen _ d _ | OpRecord _ d _ _ | OpReset _ d _ => no_colon d
  | OpSetConfig _ => false
  end.

Lemma exec_durable (b : Breaker S) s o :
  durable b s → regular_op o = true → ∃ s', durable (exec b o).2 s'.
Proof.
  intros Hdur Hop. destruct o as [clk d c|clk d c|clk d c ok|clk d c|cfg]; simpl in *; [..|done].
  - pose proof (allow_durable b s clk d c Hdur Hop). by destruct (Allow b clk d c).
  - exists s. apply (durable_frame b); [done|apply (durable_store _ _ Hdur)|].
    intros. left. by rewrite lookup_get.
  - by eapply record_durable.
  - by eapply reset_durable.
Qed.

Lemma run_durable (b : Breaker S) s ops :
  durable b s → Forall (λ o, regular_op o = true) ops → ∃ s', durable (run b ops).2 s'.
Proof.
  intros Hdur Hops. revert b s Hdur. induction Hops as [|o ops Ho _ IH]; intros b s Hdur.
  { by exists s. }
  rewrite run_cons. simpl. destruct (exec_durable b s o Hdur Ho) as [s' Hs']. eauto.
Qed.

Lemma new_durable cfg s :
  Store cfg = Some s → store_view s = ∅ → durable (New cfg) s.
Proof.
  intros Hs Hv. split; [done|..].
  - intros k f. by rewrite Hv, lookup_empty.
  - intros d c. rewrite abs_new. by eexists.
  - intros d c _. unfold lookup_entry. simpl. by rewrite Hv, !lookup_empty.
Qed.

(** What a restarted breaker knows of a tuple, compared to the one that
    stopped. *)
Definition recovered (e e' : entry) : Prop :=
  e_state e' = e_state e ∧
  (e_state e ≠ StateClosed →
     e_openCount e' = e_openCount e ∧ e_samples e' = e_samples e ∧ e_failures e' = e_failures e ∧
     e_openedAt e' = of_unix_milli (unix_milli (e_openedAt e)) ∧ e_probeTaken e' = false).

Lemma start_recovers (b : Breaker S) s :
  durable b s →
  ∃ b', Start (New (b_config b)) = Ok b' ∧
    ∀ d c, no_colon d = true → recovered (lookup_entry b d c) (lookup_entry b' d c).
Proof.
  intros [Hst Hk Hwf Hag]. unfold Start. simpl. rewrite Hst.
  destruct (store_load_view s) as (l&Hload&Hperm). rewrite Hload.
  eexists. split; [done|]. intros d c Hd.
  assert (∀ f, f ∈ l ↔ store_view s !! fact_key f = Some f) as Hin.
  { intros f. rewrite Hperm, list_elem_of_fmap. split.
    - intros ([k f']&->&Hkf). apply elem_of_map_to_list in Hkf.
      simpl. by rewrite (proj1 (Hk k f' Hkf)).
    - intros Hf. exists (fact_key f, f). by rewrite elem_of_map_to_list. }
  assert (∀ f, f ∈ l → fact_circuit_key f = circuit_key d c → fact_key f = tuple d c) as Hkey.
  { intros f Hf E. apply Hin in Hf. destruct (Hk _ _ Hf) as [_ Hcol].
    destruct (circuit_key_inj (f_DeploymentID f) _ _ _ Hcol Hd E) as [H1 H2].
    unfold fact_key, tuple. by rewrite H1, H2. }
  specialize (Hag d c Hd). destruct (store_view s !! tuple d c) as [f|] eqn:Hf.
  - pose proof (proj1 (Hk _ _ Hf)) as Hfk.
    assert (f ∈ l) as Hfl by (apply Hin; by rewrite Hfk).
    assert (fact_circuit_key f = circuit_key d c) as Hck.
    { unfold fact_circuit_key. unfold fact_key, tuple in Hfk. by simplify_eq. }
    rewrite (foldl_restore_in _ _ f) by
      (try done; intros g Hg E; pose proof (Hkey g Hg E) as Hgk; apply Hin in Hg; congruence).
    replace (lookup_entry (New (b_config b)) d c) with new_entry
      by (unfold lookup_entry; simpl; by rewrite lookup_empty).
    unfold agrees in Hag. case_bool_decide as Hc.
    + split; [simpl; congruence|done].
    + destruct Hag as (f'&[= <-]&?&?&?&?&?). split; [done|]. intros _. by split_and!; simpl; congruence.
  - rewrite foldl_restore_other.
    2:{ intros f Hfl E. pose proof (Hkey f Hfl E). apply Hin in Hfl. congruence. }
    unfold agrees in Hag. case_bool_decide as Hc; [|by destruct Hag as (?&?&_)].
    split; [|done]. rewrite Hc. unfold lookup_entry. simpl. by rewrite lookup_empty.
Qed.
End Restart.

(** ** Properties *)

(** C12: Refinement. Whatever sequence of operations a breaker executes, on
    whatever tuples and under whatever configuration changes, each tuple walks
    exactly the abstract circuit (closed / open / half-open with one probe),
    labelled by the operations that hit its key and by the answers [Allow]
    gave. *)
Theorem breaker_refines_circuit {S : Type} `{!CircuitStore S} (cfg : Config S)
    (ops : list (op S)) (d c : string) :
  ∃ st, abs (run (New cfg) ops).2 d c = Some st ∧ ctrace (visible (New cfg) ops d c) CClosed st.
Proof. apply run_refines, abs_new. Qed.

(** Probe exclusivity. Once a half-open probe is out for a tuple, every
    further [Allow] for it is refused, through any interleaving of operations
    on other tuples, views and configuration swaps, until an outcome is
    recorded for the tuple or it is reset. *)
Theorem probe_exclusive {S : Type} `{!CircuitStore S} (b : Breaker S) (ops : list (op S))
    (d c : string) (n : Z) :
  abs b d c = Some (CHalf true n) →
  Forall (λ o, op_key o = Some (circuit_key d c) → is_view_op o = true) ops →
  abs (run b ops).2 d c = Some (CHalf true n) ∧
  ∀ i clk, ops !! i = Some (OpAllow clk d c) → (run b ops).1 !! i = Some (Some false).
Proof. apply run_busy. Qed.

(** A configuration of the examples: one sample trips the circuit. *)
Definition tiny_config : Config MemoryStore :=
  {| MinSamples := 1; ErrorRate := f64_const 1 2; Cooldown := 30 * second;
     CooldownFactor := f64_of_Z 2; MaxCooldown := 10 * minute;
     Store := Some NewMemoryStore; Observer := true |}.

(** The breaker after a failure at time 0 and a probe granted at one minute. *)
Definition probing_breaker : Breaker MemoryStore :=
  (run (New tiny_config)
     [OpRecord (λ _, 0) "dep" "cred" false; OpAllow (λ _, minute) "dep" "cred"]).2.

Lemma probe_exclusive_witness :
  abs probing_breaker "dep" "cred" = Some (CHalf true 1) ∧
  (run probing_breaker [OpAllow (λ _, hour) "dep" "other"; OpAllow (λ _, hour) "dep" "cred"]).1
    !! 1%nat = Some (Some false).
Proof.
  split; [vm_compute; reflexivity|].
  refine (proj2 (probe_exclusive probing_breaker
    [OpAllow (λ _, hour) "dep" "other"; OpAllow (λ _, hour) "dep" "cred"] "dep" "cred" 1 _ _)
    1%nat (λ _, hour) eq_refl).
  - vm_compute. reflexivity.
  - repeat constructor.
Defined.

(** C26: Recovery. An open circuit whose cooldown has elapsed grants exactly the
    next attempt; if that probe succeeds the circuit is closed with its history
    forgotten, and if it fails the circuit is open again from the time of the
    failure, with the open count one higher (wrapped to 64 bits), which is what its
    next cooldown is computed from. *)
Theorem open_circuit_recovers {S : Type} `{!CircuitStore S} (b : Breaker S) (d c : string)
    (at_ n : Z) (clk clk' : clock) :
  abs b d c = Some (COpen at_ n) →
  cooldown (b_config b) n <= time_sub (clk 0%nat) at_ →
  let b1 := (Allow b clk d c).2 in
  (Allow b clk d c).1 = true ∧ abs b1 d c = Some (CHalf true n) ∧
  lookup_entry (RecordOutcome b1 clk' d c true) d c = closed_by_probe (lookup_entry b1 d c) ∧
  abs (RecordOutcome b1 clk' d c false) d c = Some (COpen (clk' 0%nat) (wrap64 (n + 1))).
Proof.
  intros Habs Hcool. destruct (allow_refines b clk d c _ Habs) as (st'&Ha&Hs).
  inversion Hs; simplify_eq; [lia|]. simpl. split_and!; [done..| |].
  - unfold abs, abs_entry in Ha. unfold RecordOutcome. autorewrite with circuit.
    repeat case_bool_decide; simplify_eq; by autorewrite with circuit.
  - destruct (record_refines _ clk' d c false _ Ha) as (st'&Hr&Hs').
    inversion Hs'; simplify_eq. done.
Qed.

Definition tripped_breaker : Breaker MemoryStore :=
  RecordOutcome (New tiny_config) (λ _, 0) "dep" "cred" false.

Lemma open_circuit_recovers_witness :
  (Allow tripped_breaker (λ _, minute) "dep" "cred").1 = true.
Proof.
  refine (proj1 (open_circuit_recovers tripped_breaker "dep" "cred" 0 1 (λ _, minute) (λ _, hour) _ _)).
  - vm_compute. reflexivity.
  - vm_compute. discriminate.
Defined.

(** No premature trip. While a closed tuple has recorded fewer outcomes
    than [MinSamples], it stays closed, and its counters are exactly the number
    of recorded outcomes and of recorded failures. *)
Theorem closed_until_min_samples {S : Type} `{!CircuitStore S} (cfg : Config S) (clk : clock)
    (d c : string) (outcomes : list bool) :
  Z.of_nat (length outcomes) < MinSamples cfg → MinSamples cfg <= max_int64 →
  let e := lookup_entry (record_all (New cfg) clk d c outcomes) d c in
  e_state e = StateClosed ∧ e_samples e = Z.of_nat (length outcomes) ∧
  e_failures e = failures_in outcomes.
Proof.
  intros Hlen Hmax.
  assert (lookup_entry (New cfg) d c = new_entry) as Hn
    by (unfold lookup_entry; simpl; by rewrite lookup_empty).
  pose proof (record_all_closed (New cfg) clk d c outcomes) as H.
  rewrite Hn in H. simpl in H. apply H; [done|lia..].
Qed.

Lemma closed_until_min_samples_witness :
  e_failures (lookup_entry (record_all (New (@DefaultConfig MemoryStore)) (λ _, 0) "dep" "cred"
    [false; true; false]) "dep" "cred") = 2.
Proof.
  refine (proj2 (proj2 (closed_until_min_samples DefaultConfig (λ _, 0) "dep" "cred"
    [false; true; false] _ _))); vm_compute; congruence.
Defined.

(** Trip rule. Recording an outcome on a closed tuple opens it exactly when
    the counters, with this outcome included, reach [MinSamples] and the
    failure ratio exceeds [ErrorRate] in float64; it is then open since now
    with open count one. *)
Theorem trip_rule {S : Type} `{!CircuitStore S} (b : Breaker S) (clk : clock) (d c : string)
    (ok : bool) :
  abs b d c = Some CClosed →
  abs (RecordOutcome b clk d c ok) d c =
  Some (if trips (b_config b) (counted (lookup_entry b d c) ok)
        then COpen (clk 0%nat) 1 else CClosed).
Proof.
  intros Hc. assert (e_state (lookup_entry b d c) = StateClosed) as Hs.
  { unfold abs, abs_entry in Hc. by repeat case_bool_decide. }
  unfold abs, RecordOutcome. autorewrite with circuit. rewrite Hs. simpl.
  case_match; autorewrite with circuit; [done|]. unfold abs_entry, counted. simpl. by rewrite Hs.
Qed.

Lemma trip_rule_witness :
  abs tripped_breaker "dep" "cred" = Some (COpen 0 1).
Proof.
  refine (eq_trans (trip_rule (New tiny_config) (λ _, 0) "dep" "cred" false _) _);
    vm_compute; reflexivity.
Defined.

(** Restart. Take a breaker over a lawful, initially empty store, run it
    through any operations on tuples whose deployment ids have no colon, and
    start a fresh breaker on the same store: every tuple is in the state it was
    in, and an open or half-open one keeps its open count, its counters and its
    opening time (to the millisecond), with a lost probe handed out again. *)
Theorem restart_recovers {S : Type} `{!CircuitStore S, !CircuitStoreLaws S} (cfg : Config S) (s : S)
    (ops : list (op S)) :
  Store cfg = Some s → store_view s = ∅ → Forall (λ o, regular_op o = true) ops →
  let b := (run (New cfg) ops).2 in
  ∃ b', Start (New (b_config b)) = Ok b' ∧
    ∀ d c, no_colon d = true → recovered (lookup_entry b d c) (lookup_entry b' d c).
Proof.
  intros Hs Hv Hops. destruct (run_durable _ _ ops (new_durable cfg s Hs Hv) Hops) as [s' Hd].
  by apply (start_recovers _ s').
Qed.

Lemma restart_recovers_witness :
  ∃ b', Start (New (b_config probing_breaker)) = Ok b' ∧
    e_state (lookup_entry b' "dep" "cred") = StateHalfOpen.
Proof.
  destruct (restart_recovers tiny_config NewMemoryStore
    [OpRecord (λ _, 0) "dep" "cred" false; OpAllow (λ _, minute) "dep" "cred"]) as (b'&Hb'&Hr);
    [reflexivity|reflexivity|repeat constructor|].
  exists b'. split; [exact Hb'|].
  rewrite (proj1 (Hr "dep" "cred" eq_refl)). vm_compute. reflexivity.
Defined.

(** Cooldown bounds. With a positive initial and maximal cooldown, the
    cooldown of every open count, float overflow included, is positive and at
    most the larger of the two. *)
Theorem cooldown_in_bounds {S : Type} (cfg : Config S) (n : Z) :
  0 < Cooldown cfg → 0 < MaxCooldown cfg →
  0 < cooldown cfg n <= Z.max (Cooldown cfg) (MaxCooldown cfg).
Proof. apply cooldown_bounds. Qed.

Lemma cooldown_in_bounds_witness :
  0 < cooldown (@DefaultConfig MemoryStore) 1000 <= Z.max (30 * second) (10 * minute).
Proof. apply (cooldown_in_bounds DefaultConfig 1000); vm_compute; reflexivity. Defined.

(** Escalation and its collapse. Under the default configuration the
    cooldown doubles from 30 seconds up to the ten-minute cap for the first 29
    consecutive openings, and from the 30th on it falls back to 30 seconds: the
    uncapped product overflows int64 before the cap is applied, and the
    non-positive result is replaced by the initial cooldown. *)
Theorem default_cooldown_profile {S : Type} (n : Z) :
  1 <= n →
  cooldown (@DefaultConfig S) n =
  if n <=? 29 then Z.min (30 * second * 2 ^ (n - 1)) (10 * minute) else 30 * second.
Proof.
  intros Hn. destruct (Z.leb_spec n 29).
  - apply default_cooldown_escalates. lia.
  - apply default_cooldown_collapses. lia.
Qed.

Lemma default_cooldown_profile_witness :
  cooldown (@DefaultConfig MemoryStore) 29 = 10 * minute ∧
  cooldown (@DefaultConfig MemoryStore) 30 = 30 * second.
Proof.
  split.
  - refine (eq_trans (default_cooldown_profile 29 _) _); [lia|vm_compute; reflexivity].
  - refine (eq_trans (default_cooldown_profile 30 _) _); [lia|vm_compute; reflexivity].
Defined.
