(* ===== verification/Coordination.v ===== *)
(** * Coordination primitives: internal/platform/coordination

    The replaceable primitives behind budgets, concurrency leases and in-flight
    counting: the interfaces of [contracts.go] as classes, and the in-process
    implementations of [memory.go] and [budgetslice.go] that the Lite profile
    runs.  The Redis implementations of the same contracts are in [Redis].

    Every method holds the component's mutex, so a call is one atomic step.
    Clock readings and the random lease id are inputs of the call. *)

From S2P Require Import Prelude GoFloat.

Open Scope string_scope.
Open Scope Z_scope.

(** ** contracts.go *)

Definition ErrReservationNotFound : error := ErrNew "budget reservation not found".
Definition ErrAlreadyFinalized : error := ErrNew "budget reservation already finalized".
Definition ErrCapacityExceeded : error := ErrNew "concurrency capacity exceeded".
Definition ErrLedgerUnavailable : error := ErrNew "budget ledger unavailable".

Record BudgetWindow := { w_Key : string; w_Limit : float64; w_TTL : Z }.

Record ReserveRequest := {
  rq_TenantID : string;
  rq_ReservationID : string;
  rq_Estimate : float64;
  rq_Windows : list BudgetWindow }.

Record ReserveResult := { rs_Reserved : bool; rs_Active : Z; rs_Degraded : bool }.

Definition not_reserved : ReserveResult := {| rs_Reserved := false; rs_Active := 0; rs_Degraded := false |}.
Definition reserved_ok : ReserveResult := {| rs_Reserved := true; rs_Active := 0; rs_Degraded := false |}.

(** The [BudgetLedger] interface: state-passing methods.  [Reserve] returns
    both a result and an error because a caller may look at the result of a
    failed call. *)
Class BudgetLedger (L : Type) := {
  ledger_Reserve : L → ReserveRequest → (ReserveResult * option error) * L;
  ledger_Reconcile : L → string → string → float64 → option error * L;
  ledger_Release : L → string → string → option error * L;
  ledger_Sweep : L → string → Z → (Z * option error) * L }.

(** The [LeaseCoordinator] interface.  [now] is the coordinator's clock and
    [fresh] what the random id generator gives the call. *)
Class LeaseCoordinator (L : Type) := {
  lease_Acquire : L → Z → result string → string → Z → Z → (bool * string * option error) * L;
  lease_Renew : L → Z → string → string → Z → (bool * option error) * L;
  lease_Release : L → string → string → option error * L;
  lease_Cleanup : L → Z → string → option error * L }.

Class InflightCounter (C : Type) := {
  inflight_Incr : C → string → (Z * option error) * C;
  inflight_Decr : C → string → option error * C;
  inflight_Get : C → string → Z * option error }.

(** ** memory.go: MemoryBudgetLedger *)

Record memoryReservation := { mr_estimate : float64; mr_windows : list string; mr_final : bool }.

Record MemoryBudgetLedger := {
  ml_windows : gmap string (gmap string float64);
  ml_reservations : gmap string (gmap string memoryReservation) }.

Definition NewMemoryBudgetLedger : MemoryBudgetLedger :=
  {| ml_windows := ∅; ml_reservations := ∅ |}.

(** [tenantWindows]: the tenant's counters (created on demand); a missing
    counter reads as zero. *)
Definition tenantWindows (m : MemoryBudgetLedger) (tenant : string) : gmap string float64 :=
  default ∅ (ml_windows m !! tenant).

Definition counter (ws : gmap string float64) (key : string) : float64 :=
  default f64_zero (ws !! key).

Definition bump (ws : gmap string float64) (key : string) (delta : float64) : gmap string float64 :=
  <[key := f64_add (counter ws key) delta]> ws.

Definition bump_sub (ws : gmap string float64) (key : string) (delta : float64) : gmap string float64 :=
  <[key := f64_sub (counter ws key) delta]> ws.

Definition set_windows (m : MemoryBudgetLedger) (tenant : string) (ws : gmap string float64) :=
  {| ml_windows := <[tenant := ws]> (ml_windows m); ml_reservations := ml_reservations m |}.

Definition set_reservation (m : MemoryBudgetLedger) (tenant id : string) (r : memoryReservation) :=
  {| ml_windows := ml_windows m;
     ml_reservations := <[tenant := <[id := r]> (default ∅ (ml_reservations m !! tenant))]>
                          (ml_reservations m) |}.

(** The check loop of [Reserve]: [Err] for an invalid window, [Ok None] for a
    window that does not fit, [Ok (Some keys)] when all fit. *)
Fixpoint check_windows (ws : gmap string float64) (estimate : float64) (windows : list BudgetWindow) :
    result (option (list string)) :=
  match windows with
  | [] => Ok (Some [])
  | w :: rest =>
      if bool_decide (w_Key w = "") || f64_ltb (w_Limit w) f64_zero then
        Err (ErrNew "invalid budget window")
      else if f64_gtb (f64_add (counter ws (w_Key w)) estimate) (w_Limit w) then Ok None
      else match check_windows ws estimate rest with
           | Ok (Some keys) => Ok (Some (w_Key w :: keys))
           | r => r
           end
  end.

Definition MemoryLedger_Reserve (m : MemoryBudgetLedger) (req : ReserveRequest) :
    (ReserveResult * option error) * MemoryBudgetLedger :=
  if bool_decide (rq_ReservationID req = "") || f64_ltb (rq_Estimate req) f64_zero then
    ((not_reserved, Some (ErrNew "invalid reserve request")), m)
  else
    let tenant := tenantWindows m (rq_TenantID req) in
    let m := set_windows m (rq_TenantID req) tenant in
    match check_windows tenant (rq_Estimate req) (rq_Windows req) with
    | Err e => ((not_reserved, Some e), m)
    | Ok None => ((not_reserved, None), m)
    | Ok (Some keys) =>
        let m := set_windows m (rq_TenantID req)
                   (foldl (λ ws k, bump ws k (rq_Estimate req)) tenant keys) in
        ((reserved_ok, None),
         set_reservation m (rq_TenantID req) (rq_ReservationID req)
           {| mr_estimate := rq_Estimate req; mr_windows := keys; mr_final := false |})
    end.

Definition ledger_reservation (m : MemoryBudgetLedger) (tenant id : string) : result memoryReservation :=
  match ml_reservations m !! tenant with
  | None => Err ErrReservationNotFound
  | Some rs =>
      match rs !! id with
      | None => Err ErrReservationNotFound
      | Some r => if mr_final r then Err ErrAlreadyFinalized else Ok r
      end
  end.

Definition finalize_reservation (m : MemoryBudgetLedger) (tenant id : string) (r : memoryReservation) :=
  set_reservation m tenant id
    {| mr_estimate := mr_estimate r; mr_windows := mr_windows r; mr_final := true |}.

Definition MemoryLedger_Reconcile (m : MemoryBudgetLedger) (tenant id : string) (actual : float64) :
    option error * MemoryBudgetLedger :=
  match ledger_reservation m tenant id with
  | Err e => (Some e, m)
  | Ok r =>
      let delta := f64_sub actual (mr_estimate r) in
      let ws := foldl (λ ws k, bump ws k delta) (tenantWindows m tenant) (mr_windows r) in
      (None, finalize_reservation (set_windows m tenant ws) tenant id r)
  end.

Definition MemoryLedger_Release (m : MemoryBudgetLedger) (tenant id : string) :
    option error * MemoryBudgetLedger :=
  match ledger_reservation m tenant id with
  | Err e => (Some e, m)
  | Ok r =>
      let ws := foldl (λ ws k, bump_sub ws k (mr_estimate r)) (tenantWindows m tenant) (mr_windows r) in
      (None, finalize_reservation (set_windows m tenant ws) tenant id r)
  end.

Definition MemoryLedger_Sweep (m : MemoryBudgetLedger) (tenant : string) (limit : Z) :
    (Z * option error) * MemoryBudgetLedger := ((0, None), m).

#[export] Instance memory_ledger : BudgetLedger MemoryBudgetLedger :=
  {| ledger_Reserve := MemoryLedger_Reserve; ledger_Reconcile := MemoryLedger_Reconcile;
     ledger_Release := MemoryLedger_Release; ledger_Sweep := MemoryLedger_Sweep |}.

(** ** memory.go: MemoryLeaseCoordinator *)

Record MemoryLeaseCoordinator := { ml_scopes : gmap string (gmap string Z) }.

Definition NewMemoryLeaseCoordinator : MemoryLeaseCoordinator := {| ml_scopes := ∅ |}.

Definition leases (m : MemoryLeaseCoordinator) (scope : string) : gmap string Z :=
  default ∅ (ml_scopes m !! scope).

Definition set_leases (m : MemoryLeaseCoordinator) (scope : string) (ls : gmap string Z) :=
  {| ml_scopes := <[scope := ls]> (ml_scopes m) |}.

(** [prune] drops every lease whose expiry is not after [now]. *)
Definition prune (ls : gmap string Z) (now : Z) : gmap string Z :=
  filter (λ p : string * Z, now < p.2) ls.

Definition MemoryLease_Acquire (m : MemoryLeaseCoordinator) (now : Z) (fresh : result string)
    (scope : string) (capacity ttl : Z) : (bool * string * option error) * MemoryLeaseCoordinator :=
  let ls := prune (leases m scope) now in
  let m := set_leases m scope ls in
  if capacity <=? Z.of_nat (size ls) then ((false, "", None), m)
  else match fresh with
       | Err e => ((false, "", Some e), m)
       | Ok id => ((true, id, None), set_leases m scope (<[id := time_add now ttl]> ls))
       end.

Definition MemoryLease_Renew (m : MemoryLeaseCoordinator) (now : Z) (scope leaseID : string) (ttl : Z) :
    (bool * option error) * MemoryLeaseCoordinator :=
  let ls := prune (leases m scope) now in
  let m := set_leases m scope ls in
  match ls !! leaseID with
  | None => ((false, None), m)
  | Some _ => ((true, None), set_leases m scope (<[leaseID := time_add now ttl]> ls))
  end.

Definition MemoryLease_Release (m : MemoryLeaseCoordinator) (scope leaseID : string) :
    option error * MemoryLeaseCoordinator :=
  (None, set_leases m scope (delete leaseID (leases m scope))).

Definition MemoryLease_Cleanup (m : MemoryLeaseCoordinator) (now : Z) (scope : string) :
    option error * MemoryLeaseCoordinator :=
  (None, set_leases m scope (prune (leases m scope) now)).

#[export] Instance memory_leases : LeaseCoordinator MemoryLeaseCoordinator :=
  {| lease_Acquire := MemoryLease_Acquire; lease_Renew := MemoryLease_Renew;
     lease_Release := MemoryLease_Release; lease_Cleanup := MemoryLease_Cleanup |}.

(** ** memory.go: MemoryInflightCounter *)

Record MemoryInflightCounter := { mi_value : gmap string Z }.

Definition NewMemoryInflightCounter : MemoryInflightCounter := {| mi_value := ∅ |}.

Definition inflight_value (m : MemoryInflightCounter) (scope : string) : Z :=
  default 0 (mi_value m !! scope).

Definition MemoryInflight_Incr (m : MemoryInflightCounter) (scope : string) :
    (Z * option error) * MemoryInflightCounter :=
  let v := wrap64 (inflight_value m scope + 1) in
  ((v, None), {| mi_value := <[scope := v]> (mi_value m) |}).

Definition MemoryInflight_Decr (m : MemoryInflightCounter) (scope : string) :
    option error * MemoryInflightCounter :=
  if 0 <? inflight_value m scope
  then (None, {| mi_value := <[scope := wrap64 (inflight_value m scope - 1)]> (mi_value m) |})
  else (None, m).

Definition MemoryInflight_Get (m : MemoryInflightCounter) (scope : string) : Z * option error :=
  (inflight_value m scope, None).

#[export] Instance memory_inflight : InflightCounter MemoryInflightCounter :=
  {| inflight_Incr := MemoryInflight_Incr; inflight_Decr := MemoryInflight_Decr;
     inflight_Get := MemoryInflight_Get |}.

(** ** budgetslice.go *)

Definition BudgetRegional : string := "regional".
Definition BudgetGlobalSoft : string := "global_soft".
Definition BudgetGlobalHard : string := "global_hard".

Definition ErrSliceOvershoot : error := ErrNew "budget slice overshoot exceeds bound".

Record sliceCounter := { sc_strict : float64; sc_used : float64 }.

Record SliceAuthority := {
  sa_window : string;
  sa_regional : bool;
  sa_slices : gmap string sliceCounter }.

Record SliceState := {
  ss_Region : string; ss_Used : float64; ss_Strict : float64; ss_Overshot : bool }.

Record ReconcileEvent := { ev_WindowKey : string; ev_Region : string; ev_Adjusted : float64 }.

Definition NewSliceAuthority (window : string) (regional : bool) : SliceAuthority :=
  {| sa_window := window; sa_regional := regional; sa_slices := ∅ |}.

Definition ForMode (window mode : string) : SliceAuthority :=
  NewSliceAuthority window (bool_decide (mode ≠ BudgetGlobalSoft)).

Definition set_slice (a : SliceAuthority) (region : string) (s : sliceCounter) : SliceAuthority :=
  {| sa_window := sa_window a; sa_regional := sa_regional a;
     sa_slices := <[region := s]> (sa_slices a) |}.

(** [Admit] of the source. *)
Definition Slice_Admit (a : SliceAuthority) (region : string) (amount strict overshoot : float64) :
    option error * SliceAuthority :=
  let slice := default {| sc_strict := strict; sc_used := f64_zero |} (sa_slices a !! region) in
  let a := set_slice a region slice in
  let bound := if sa_regional a then sc_strict slice else f64_add (sc_strict slice) overshoot in
  let used := f64_add (sc_used slice) amount in
  if f64_gtb used bound then (Some ErrSliceOvershoot, a)
  else (None, set_slice a region {| sc_strict := sc_strict slice; sc_used := used |}).

Definition Slice_Reconcile (a : SliceAuthority) (region : string) (trueUsed : float64) :
    result ReconcileEvent * SliceAuthority :=
  match sa_slices a !! region with
  | None => (Err (ErrNew "slice not found"), a)
  | Some slice =>
      (Ok {| ev_WindowKey := sa_window a; ev_Region := region; ev_Adjusted := trueUsed |},
       set_slice a region {| sc_strict := sc_strict slice; sc_used := trueUsed |})
  end.

Definition Slice_State (a : SliceAuthority) (region : string) : option SliceState :=
  match sa_slices a !! region with
  | None => None
  | Some slice =>
      Some {| ss_Region := region; ss_Used := sc_used slice; ss_Strict := sc_strict slice;
              ss_Overshot := f64_gtb (sc_used slice) (sc_strict slice) |}
  end.

(** ** Ledger lemmas *)

Definition ledger_counter (m : MemoryBudgetLedger) (tenant key : string) : float64 :=
  counter (tenantWindows m tenant) key.

Lemma tenantWindows_set m t ws t' :
  tenantWindows (set_windows m t ws) t' = if bool_decide (t = t') then ws else tenantWindows m t'.
Proof.
  unfold tenantWindows, set_windows. simpl. rewrite lookup_insert.
  case_bool_decide; by case_decide.
Qed.

Lemma tenantWindows_reservation m t id r t' :
  tenantWindows (set_reservation m t id r) t' = tenantWindows m t'.
Proof. done. Qed.

Lemma counter_bump ws k d k' :
  counter (bump ws k d) k' = if bool_decide (k = k') then f64_add (counter ws k) d else counter ws k'.
Proof.
  unfold counter at 1, bump. rewrite lookup_insert. case_bool_decide; by case_decide.
Qed.

(** Bumping a duplicate-free list of keys adds once to each of them. *)
Lemma counter_bump_all ws keys d k :
  NoDup keys →
  counter (foldl (λ ws k, bump ws k d) ws keys) k =
  if bool_decide (k ∈ keys) then f64_add (counter ws k) d else counter ws k.
Proof.
  revert ws. induction keys as [|k' keys IH]; intros ws Hnd; simpl; [done|].
  apply NoDup_cons in Hnd as [Hk' Hnd]. rewrite IH by done. rewrite !counter_bump.
  destruct (decide (k' = k)) as [->|Hne].
  - rewrite bool_decide_eq_false_2 by done. rewrite !bool_decide_eq_true_2; [done|left|done].
  - rewrite (bool_decide_eq_false_2 (k' = k)) by done.
    assert (k ∈ k' :: keys ↔ k ∈ keys) as Hiff by (rewrite elem_of_cons; naive_solver).
    repeat case_bool_decide; naive_solver.
Qed.

Lemma check_windows_keys ws est windows keys :
  check_windows ws est windows = Ok (Some keys) → keys = w_Key <$> windows.
Proof.
  revert keys. induction windows as [|w windows IH]; intros keys; simpl; [by intros [= <-]|].
  repeat case_match; intros; simplify_eq. f_equal. by apply IH.
Qed.

Lemma check_windows_fit ws est windows keys w :
  check_windows ws est windows = Ok (Some keys) → w ∈ windows →
  f64_gtb (f64_add (counter ws (w_Key w)) est) (w_Limit w) = false.
Proof.
  revert keys. induction windows as [|w' windows IH]; intros keys Hc Hw.
  { by apply not_elem_of_nil in Hw. }
  simpl in Hc. repeat case_match; simplify_eq.
  apply elem_of_cons in Hw as [->|Hw]; [done|eauto].
Qed.

Lemma reservation_set m t id r t' id' :
  ledger_reservation (set_reservation m t id r) t' id' =
  if bool_decide (t = t' ∧ id = id')
  then if mr_final r then Err ErrAlreadyFinalized else Ok r
  else ledger_reservation m t' id'.
Proof.
  unfold ledger_reservation, set_reservation. simpl. rewrite lookup_insert.
  destruct (decide (t = t')) as [->|Ht].
  - rewrite lookup_insert. destruct (decide (id = id')) as [->|Hid].
    + by rewrite bool_decide_eq_true_2.
    + rewrite bool_decide_eq_false_2 by naive_solver.
      by destruct (ml_reservations m !! t') as [rs|]; simpl; rewrite ?lookup_empty.
  - by rewrite bool_decide_eq_false_2 by naive_solver.
Qed.

Lemma reservation_set_windows m t ws t' id' :
  ledger_reservation (set_windows m t ws) t' id' = ledger_reservation m t' id'.
Proof. done. Qed.

Create Rewrite HintDb coordination.
#[export] Hint Rewrite tenantWindows_set tenantWindows_reservation reservation_set
  reservation_set_windows : coordination.

(** *** Ledger operations as data *)

Inductive ledger_op :=
| LgReserve (req : ReserveRequest)
| LgReconcile (tenant id : string) (actual : float64)
| LgRelease (tenant id : string)
| LgSweep (tenant : string) (limit : Z).

Definition ledger_exec (m : MemoryBudgetLedger) (o : ledger_op) : MemoryBudgetLedger :=
  match o with
  | LgReserve req => (MemoryLedger_Reserve m req).2
  | LgReconcile t id a => (MemoryLedger_Reconcile m t id a).2
  | LgRelease t id => (MemoryLedger_Release m t id).2
  | LgSweep t n => (MemoryLedger_Sweep m t n).2
  end.

Definition reserves (t id : string) (o : ledger_op) : bool :=
  match o with
  | LgReserve req => bool_decide (rq_TenantID req = t ∧ rq_ReservationID req = id)
  | _ => false
  end.

(** A settled reservation stays settled until its id is reserved again. *)
Lemma settled_exec m o t id :
  ledger_reservation m t id = Err ErrAlreadyFinalized → reserves t id o = false →
  ledger_reservation (ledger_exec m o) t id = Err ErrAlreadyFinalized.
Proof.
  intros Hs Hr. destruct o as [req|t' id' a|t' id'|t' n]; simpl in *; [..|done].
  - apply bool_decide_eq_false in Hr. unfold MemoryLedger_Reserve.
    repeat case_match; simpl; autorewrite with coordination; try done.
    by rewrite bool_decide_eq_false_2.
  - unfold MemoryLedger_Reconcile. case_match; simpl; [|done].
    unfold finalize_reservation. autorewrite with coordination. by case_bool_decide.
  - unfold MemoryLedger_Release. case_match; simpl; [|done].
    unfold finalize_reservation. autorewrite with coordination. by case_bool_decide.
Qed.

Lemma settled_run m ops t id :
  ledger_reservation m t id = Err ErrAlreadyFinalized →
  Forall (λ o, reserves t id o = false) ops →
  ledger_reservation (foldl ledger_exec m ops) t id = Err ErrAlreadyFinalized.
Proof.
  intros Hs Hops. revert m Hs. induction Hops as [|o ops Ho _ IH]; intros m Hs; simpl; [done|].
  by apply IH, settled_exec.
Qed.

(** A settlement: [Some actual] reconciles, [None] releases. *)
Definition settle (m : MemoryBudgetLedger) (t id : string) (actual : option float64) :
    option error * MemoryBudgetLedger :=
  match actual with
  | Some a => MemoryLedger_Reconcile m t id a
  | None => MemoryLedger_Release m t id
  end.

Lemma settle_settles m t id actual :
  (settle m t id actual).1 = None →
  ledger_reservation (settle m t id actual).2 t id = Err ErrAlreadyFinalized.
Proof.
  destruct actual as [a|]; simpl; [unfold MemoryLedger_Reconcile|unfold MemoryLedger_Release];
    case_match; simpl; try done; intros _; unfold finalize_reservation;
    autorewrite with coordination; by rewrite bool_decide_eq_true_2.
Qed.

Lemma settle_again m t id actual :
  ledger_reservation m t id = Err ErrAlreadyFinalized →
  settle m t id actual = (Some ErrAlreadyFinalized, m).
Proof.
  intros H. destruct actual; simpl; [unfold MemoryLedger_Reconcile|unfold MemoryLedger_Release];
    by rewrite H.
Qed.

(** ** Lease lemmas *)

Inductive lease_op :=
| LsAcquire (now : Z) (fresh : result string) (scope : string) (ttl : Z)
| LsRenew (now : Z) (scope leaseID : string) (ttl : Z)
| LsRelease (scope leaseID : string)
| LsCleanup (now : Z) (scope : string).

(** Every [Acquire] of the run asks under the same capacity. *)
Definition lease_exec (capacity : Z) (m : MemoryLeaseCoordinator) (o : lease_op) :
    MemoryLeaseCoordinator :=
  match o with
  | LsAcquire now fresh scope ttl => (MemoryLease_Acquire m now fresh scope capacity ttl).2
  | LsRenew now scope id ttl => (MemoryLease_Renew m now scope id ttl).2
  | LsRelease scope id => (MemoryLease_Release m scope id).2
  | LsCleanup now scope => (MemoryLease_Cleanup m now scope).2
  end.

Lemma leases_set m scope ls scope' :
  leases (set_leases m scope ls) scope' = if bool_decide (scope = scope') then ls else leases m scope'.
Proof.
  unfold leases, set_leases. simpl. rewrite lookup_insert. case_bool_decide; by case_decide.
Qed.
#[export] Hint Rewrite leases_set : coordination.

Lemma size_prune ls now : (size (prune ls now) <= size ls)%nat.
Proof. apply map_subseteq_size, map_filter_subseteq. Qed.

Lemma size_insert_bound (ls : gmap string Z) id e n :
  (size ls < n)%nat → (size (<[id := e]> ls) <= n)%nat.
Proof.
  intros. destruct (ls !! id) eqn:E.
  - rewrite map_size_insert_Some by (by rewrite E). lia.
  - rewrite map_size_insert_None by done. lia.
Qed.

Lemma lease_exec_capacity capacity m o :
  (∀ scope, Z.of_nat (size (leases m scope)) <= Z.max 0 capacity) →
  ∀ scope, Z.of_nat (size (leases (lease_exec capacity m o) scope)) <= Z.max 0 capacity.
Proof.
  intros Hinv scope. destruct o as [now fresh sc ttl|now sc id ttl|sc id|now sc]; simpl;
    pose proof (Hinv scope); try pose proof (size_prune (leases m scope) now) as Hp.
  - unfold MemoryLease_Acquire. destruct (Z.leb_spec capacity (Z.of_nat (size (prune (leases m sc) now))));
      [|destruct fresh]; simpl; autorewrite with coordination; repeat case_bool_decide; subst; try lia.
    assert (size (<[a:=time_add now ttl]> (prune (leases m scope) now)) <= Z.to_nat capacity)%nat
      by (apply size_insert_bound; lia). lia.
  - unfold MemoryLease_Renew. destruct (prune (leases m sc) now !! id) eqn:E; simpl;
      autorewrite with coordination; repeat case_bool_decide; subst; try lia.
    rewrite map_size_insert_Some by (by rewrite E). lia.
  - autorewrite with coordination. case_bool_decide; subst; [|lia].
    assert (size (delete id (leases m scope)) <= size (leases m scope))%nat
      by apply map_subseteq_size, delete_subseteq. lia.
  - autorewrite with coordination. case_bool_decide; subst; lia.
Qed.

Lemma prune_lookup ls now id e : prune ls now !! id = Some e ↔ ls !! id = Some e ∧ now < e.
Proof. unfold prune. by rewrite map_lookup_filter_Some. Qed.

(** ** Properties *)

(** All or nothing. A reservation over windows with distinct keys is
    admitted in full or not at all: when admitted, every window holds its old
    counter plus the estimate and is not above its limit, no other counter of
    any tenant moved, and the reservation is open; when refused or invalid, no
    counter and no reservation changed. *)
Theorem ledger_reserve_atomic (m : MemoryBudgetLedger) (req : ReserveRequest) :
  NoDup (w_Key <$> rq_Windows req) →
  let t := rq_TenantID req in
  let m' := (MemoryLedger_Reserve m req).2 in
  if rs_Reserved (MemoryLedger_Reserve m req).1.1 then
    (∀ w, w ∈ rq_Windows req →
       ledger_counter m' t (w_Key w) = f64_add (ledger_counter m t (w_Key w)) (rq_Estimate req) ∧
       f64_gtb (ledger_counter m' t (w_Key w)) (w_Limit w) = false) ∧
    (∀ t' k, t' ≠ t ∨ k ∉ w_Key <$> rq_Windows req → ledger_counter m' t' k = ledger_counter m t' k) ∧
    ledger_reservation m' t (rq_ReservationID req) =
      Ok {| mr_estimate := rq_Estimate req; mr_windows := w_Key <$> rq_Windows req; mr_final := false |}
  else
    (∀ t' k, ledger_counter m' t' k = ledger_counter m t' k) ∧
    ml_reservations m' = ml_reservations m.
Proof.
  intros Hnd. simpl. unfold MemoryLedger_Reserve.
  destruct (bool_decide (rq_ReservationID req = "") || _); [done|]. simpl.
  destruct (check_windows _ _ _) as [[keys|]|e] eqn:Hc; simpl.
  2,3: split; [|done]; intros t' k; unfold ledger_counter; autorewrite with coordination;
    case_bool_decide; by subst.
  pose proof (check_windows_keys _ _ _ _ Hc) as ->. split_and!.
  - intros w Hw. unfold ledger_counter. autorewrite with coordination.
    rewrite !bool_decide_eq_true_2 by done. rewrite counter_bump_all by done.
    rewrite bool_decide_eq_true_2 by by apply list_elem_of_fmap_2.
    split; [done|]. by eapply check_windows_fit.
  - intros t' k Hne. unfold ledger_counter. autorewrite with coordination.
    repeat case_bool_decide; subst; try done.
    rewrite counter_bump_all by done. rewrite bool_decide_eq_false_2; [done|]. by destruct Hne.
  - autorewrite with coordination. by rewrite bool_decide_eq_true_2.
Qed.

Definition example_request (id : string) (estimate : Z) : ReserveRequest :=
  {| rq_TenantID := "t"; rq_ReservationID := id; rq_Estimate := f64_of_Z estimate;
     rq_Windows := [ {| w_Key := "tenant:1d"; w_Limit := f64_of_Z 100; w_TTL := 0 |};
                     {| w_Key := "project:1d"; w_Limit := f64_of_Z 60; w_TTL := 0 |} ] |}.

Definition example_ledger : MemoryBudgetLedger :=
  (MemoryLedger_Reserve NewMemoryBudgetLedger (example_request "r-first" 40)).2.

(** The second window refuses 50 more tokens, so the first is not charged. *)
Lemma ledger_reserve_atomic_witness :
  ledger_counter (MemoryLedger_Reserve example_ledger (example_request "r-big" 50)).2 "t" "tenant:1d"
  = ledger_counter example_ledger "t" "tenant:1d".
Proof.
  refine (proj1 (ledger_reserve_atomic example_ledger (example_request "r-big" 50) _) "t" "tenant:1d").
  apply (bool_decide_unpack _). vm_compute. exact I.
Defined.

(** Exactly-once settlement. After a reservation was reconciled or released
    once, every later reconcile or release of it, however many other ledger
    operations come between, reports [ErrAlreadyFinalized] and changes nothing,
    as long as the id is not reserved anew. *)
Theorem ledger_settles_once (m : MemoryBudgetLedger) (t id : string)
    (first second : option float64) (ops : list ledger_op) :
  (settle m t id first).1 = None →
  Forall (λ o, reserves t id o = false) ops →
  let m' := foldl ledger_exec (settle m t id first).2 ops in
  settle m' t id second = (Some ErrAlreadyFinalized, m').
Proof. intros H1 Hops. by apply settle_again, settled_run, Hops; apply settle_settles. Qed.

Lemma ledger_settles_once_witness :
  (settle (settle example_ledger "t" "r-first" (Some (f64_of_Z 7))).2 "t" "r-first" None).1
  = Some ErrAlreadyFinalized.
Proof.
  pose proof (ledger_settles_once example_ledger "t" "r-first" (Some (f64_of_Z 7)) None []
    ltac:(vm_compute; reflexivity) ltac:(constructor)) as H.
  exact (f_equal fst H).
Defined.

(** Lease capacity. Starting empty, no sequence of acquisitions (all under
    the same capacity), renewals, releases and clean-ups, at any clock readings
    and with any generated ids, ever leaves a scope with more leases than its
    capacity. *)
Theorem leases_within_capacity (capacity : Z) (ops : list lease_op) (scope : string) :
  Z.of_nat (size (leases (foldl (lease_exec capacity) NewMemoryLeaseCoordinator ops) scope))
  <= Z.max 0 capacity.
Proof.
  revert scope. apply (foldl_invariant (λ m, ∀ scope, Z.of_nat (size (leases m scope)) <= Z.max 0 capacity)).
  - intros m o. apply lease_exec_capacity.
  - intros scope. unfold leases. simpl. rewrite lookup_empty. simpl. rewrite map_size_empty. lia.
Qed.

(** Lease lifetime. Right after [Acquire] granted a lease it can be renewed
    at any instant before its expiry and at no instant from its expiry on, and
    once released it cannot be renewed at all. *)
Theorem lease_lifetime (m m' : MemoryLeaseCoordinator) (now : Z) (fresh : result string)
    (scope id : string) (capacity ttl later ttl' : Z) :
  MemoryLease_Acquire m now fresh scope capacity ttl = ((true, id, None), m') →
  (MemoryLease_Renew m' later scope id ttl').1 = (bool_decide (later < time_add now ttl), None) ∧
  (MemoryLease_Renew (MemoryLease_Release m' scope id).2 later scope id ttl').1 = (false, None).
Proof.
  unfold MemoryLease_Acquire. repeat case_match; intros; simplify_eq. split.
  - unfold MemoryLease_Renew. autorewrite with coordination. rewrite !bool_decide_eq_true_2 by done.
    destruct (prune _ later !! id) as [e|] eqn:E; simpl.
    + apply prune_lookup in E as [E Hlt]. rewrite lookup_insert_eq in E. simplify_eq.
      by rewrite bool_decide_eq_true_2.
    + rewrite bool_decide_eq_false_2; [done|]. intros Hlt.
      assert (prune (<[id:=time_add now ttl]> (prune (leases m scope) now)) later !! id
              = Some (time_add now ttl)) as E' by (apply prune_lookup; by rewrite lookup_insert_eq).
      congruence.
  - unfold MemoryLease_Renew. simpl. autorewrite with coordination.
    rewrite !bool_decide_eq_true_2 by done.
    destruct (prune _ later !! id) as [e|] eqn:E; [|done].
    apply prune_lookup in E as [E _]. by rewrite lookup_delete_eq in E.
Qed.

Lemma lease_lifetime_witness :
  (MemoryLease_Renew (MemoryLease_Acquire NewMemoryLeaseCoordinator 0 (Ok "lease") "s" 1 second).2
     second "s" "lease" second).1 = (false, None).
Proof.
  exact (proj1 (lease_lifetime NewMemoryLeaseCoordinator _ 0 (Ok "lease") "s" "lease" 1 second second second
    eq_refl)).
Defined.

(** One region's slice, fed by admissions under fixed limits. *)
Definition slice_used (a : SliceAuthority) (region : string) : float64 :=
  match sa_slices a !! region with Some s => sc_used s | None => f64_zero end.

Definition admissions (a : SliceAuthority) (region : string) (strict overshoot : float64)
    (amounts : list float64) : SliceAuthority :=
  foldl (λ a amount, (Slice_Admit a region amount strict overshoot).2) a amounts.

Definition slice_strict (a : SliceAuthority) (region : string) (strict : float64) : float64 :=
  match sa_slices a !! region with Some s => sc_strict s | None => strict end.

(** One admission keeps the mode and the strict limit, and moves the usage only
    to a value within the bound. *)
Lemma slice_admit_step a region amount strict overshoot :
  let a' := (Slice_Admit a region amount strict overshoot).2 in
  let limit := slice_strict a region strict in
  sa_regional a' = sa_regional a ∧ slice_strict a' region strict = limit ∧
  (slice_used a' region = slice_used a region ∨
   f64_gtb (slice_used a' region) (if sa_regional a then limit else f64_add limit overshoot) = false).
Proof.
  unfold Slice_Admit, slice_used, slice_strict. simpl.
  destruct (sa_slices a !! region) as [s|]; simpl.
  - destruct (f64_gtb (f64_add (sc_used s) amount) _) eqn:E; simpl;
      rewrite ?insert_insert_eq, lookup_insert_eq; auto.
  - destruct (f64_gtb (f64_add f64_zero amount) _) eqn:E; simpl;
      rewrite ?insert_insert_eq, lookup_insert_eq; auto.
Qed.

(** Slice bound. However many reservations are offered to a region's slice,
    its usage never exceeds the strict limit under the regional and global_hard
    modes, nor the strict limit plus the overshoot allowance under global_soft. *)
Theorem slice_never_exceeds_bound (window mode region : string) (strict overshoot : float64)
    (amounts : list float64) :
  f64_leb f64_zero strict = true → f64_leb f64_zero (f64_add strict overshoot) = true →
  f64_gtb (slice_used (admissions (ForMode window mode) region strict overshoot amounts) region)
    (if bool_decide (mode = BudgetGlobalSoft) then f64_add strict overshoot else strict) = false.
Proof.
  intros Hs Hso. unfold admissions.
  set (bound := if bool_decide (mode = BudgetGlobalSoft) then f64_add strict overshoot else strict).
  enough (∀ a, a = foldl (λ a amount, (Slice_Admit a region amount strict overshoot).2)
                     (ForMode window mode) amounts →
            sa_regional a = bool_decide (mode ≠ BudgetGlobalSoft) ∧
            slice_strict a region strict = strict ∧ f64_gtb (slice_used a region) bound = false) as H
    by (by apply H).
  intros a ->. apply (foldl_invariant (λ a, sa_regional a = bool_decide (mode ≠ BudgetGlobalSoft) ∧
            slice_strict a region strict = strict ∧ f64_gtb (slice_used a region) bound = false)).
  - intros a amount (Hreg&Hst&Hb).
    destruct (slice_admit_step a region amount strict overshoot) as (Hr'&Hs'&Hu).
    rewrite Hr', Hs'. split_and!; [done..|]. rewrite Hst, Hreg in Hu.
    destruct Hu as [->|Hu]; [done|]. rewrite <- Hu. unfold bound. by repeat case_bool_decide.
  - unfold slice_strict, slice_used. simpl. rewrite lookup_empty. split_and!; [done..|].
    apply f64_leb_ltb. unfold bound. by case_bool_decide.
Qed.

Lemma slice_never_exceeds_bound_witness :
  f64_gtb (slice_used (admissions (ForMode "w" "global_soft") "eu" (f64_of_Z 100) (f64_of_Z 10)
    [f64_of_Z 60; f64_of_Z 45; f64_of_Z 30]) "eu") (f64_of_Z 110) = false.
Proof.
  exact (slice_never_exceeds_bound "w" "global_soft" "eu" (f64_of_Z 100) (f64_of_Z 10)
    [f64_of_Z 60; f64_of_Z 45; f64_of_Z 30] ltac:(vm_compute; reflexivity) ltac:(vm_compute; reflexivity)).
Defined.

(** Increment and decrement of one scope are a bracket. *)
Lemma inflight_bracket m scope :
  0 <= inflight_value m scope < max_int64 →
  let m' := (MemoryInflight_Decr (MemoryInflight_Incr m scope).2 scope).2 in
  ∀ scope', inflight_value m' scope' = inflight_value m scope'.
Proof.
  intros Hb m' scope'. subst m'. unfold MemoryInflight_Decr.
  assert (wrap64 (inflight_value m scope + 1) = inflight_value m scope + 1) as Hw
    by (apply wrap64_id; unfold_ints; lia).
  assert (inflight_value (MemoryInflight_Incr m scope).2 scope = inflight_value m scope + 1) as Hi.
  { unfold inflight_value at 1. simpl. rewrite lookup_insert_eq. simpl. done. }
  rewrite Hi. destruct (Z.ltb_spec 0 (inflight_value m scope + 1)); [|lia]. simpl.
  unfold inflight_value at 1. simpl. rewrite insert_insert_eq, lookup_insert. case_decide; subst; simpl; [|done].
  rewrite Z.add_simpl_r. apply wrap64_id. unfold_ints. lia.
Qed.
