(* ===== verification/Budget.v ===== *)
(** * Token budgets: internal/finops/budget

    [manager.go] is the in-process ledger of token reservations: one window per
    policy with its reserved and consumed totals, a retired window kept for
    requests that straddle a rollover, and an amortised sweep.  [failmode.go]
    wraps a distributed ledger with the declared fail mode and [orgbudget.go]
    adds user and organisation windows for trusted attributions.

    Token counts are int64 with wrap-around; [clk i] is the i-th clock reading
    of a call.  Every method runs under the manager's mutex. *)

From S2P Require Import Prelude GoFloat Coordination.

Open Scope string_scope.
Open Scope Z_scope.

(** ** manager.go *)

Definition ErrExceeded : error := ErrNew "token budget exceeded".

Record Policy := {
  p_ID : string; p_TenantID : string; p_ProjectID : string; p_KeyID : string; p_Mode : string;
  p_Consistency : string;
  p_TokenLimit : Z;
  p_WindowStart : Z; p_WindowEnd : Z }.

Record Reservation := { r_ID : string; r_PolicyID : string; r_EstimatedTokens : Z; r_Warning : bool }.

Record reservationState := { rv_estimate : Z; rv_final : bool }.

Record window := {
  w_start : Z;
  w_reserved : Z; w_consumed : Z;
  w_reservations : gmap string reservationState }.

Record retiredWindow := { rw_state : window; rw_retiredAt : Z }.

Definition sweepInterval : Z := 60 * second.
Definition retireGrace : Z := minute.

Record Manager := {
  m_windows : gmap string window;
  m_retired : gmap string retiredWindow;
  m_lastSweep : Z }.

Definition New (now : Z) : Manager := {| m_windows := ∅; m_retired := ∅; m_lastSweep := now |}.

Definition prune_final (w : window) : window :=
  {| w_start := w_start w; w_reserved := w_reserved w; w_consumed := w_consumed w;
     w_reservations := filter (λ p : string * reservationState, rv_final p.2 = false) (w_reservations w) |}.

Definition sweepLocked (m : Manager) (now : Z) : Manager :=
  if time_sub now (m_lastSweep m) <? sweepInterval then m
  else
    {| m_windows := prune_final <$> m_windows m;
       m_retired := filter (λ p : string * retiredWindow,
                      ¬ (retireGrace < time_sub now (rw_retiredAt p.2))) (m_retired m);
       m_lastSweep := now |}.

Definition invalid_reservation (policy : Policy) (id : string) (estimate : Z) (t0 t1 : Z) : bool :=
  bool_decide (id = "") || (estimate <? 0) || (p_TokenLimit policy <? 0) ||
  (bool_decide (p_Mode policy ≠ "hard") && bool_decide (p_Mode policy ≠ "soft")) ||
  negb (t0 <? p_WindowEnd policy) || (t1 <? p_WindowStart policy).

Definition set_window (m : Manager) (id : string) (w : window) : Manager :=
  {| m_windows := <[id := w]> (m_windows m); m_retired := m_retired m; m_lastSweep := m_lastSweep m |}.

(** The window of the policy, rolled over (and the old one retired) when the
    policy's window start moved. *)
Definition roll (m : Manager) (policy : Policy) (now : Z) : window * Manager :=
  let fresh := {| w_start := p_WindowStart policy; w_reserved := 0; w_consumed := 0;
                  w_reservations := ∅ |} in
  match m_windows m !! p_ID policy with
  | None => (fresh, set_window m (p_ID policy) fresh)
  | Some w =>
      if bool_decide (w_start w = p_WindowStart policy) then (w, m)
      else (fresh, set_window
              {| m_windows := m_windows m;
                 m_retired := <[p_ID policy := {| rw_state := w; rw_retiredAt := now |}]> (m_retired m);
                 m_lastSweep := m_lastSweep m |} (p_ID policy) fresh)
  end.

Definition soft_warning (policy : Policy) (total : Z) : bool :=
  bool_decide (p_Mode policy = "soft") && (p_TokenLimit policy <? total).

Definition Reserve (m : Manager) (clk : nat → Z) (policy : Policy) (id : string) (estimate : Z) :
    result Reservation * Manager :=
  if invalid_reservation policy id estimate (clk 0%nat) (clk 1%nat)
  then (Err (ErrNew "invalid budget reservation"), m)
  else
    let now := clk 2%nat in
    let m := sweepLocked m now in
    let '(state, m) := roll m policy now in
    match w_reservations state !! id with
    | Some existing =>
        (Ok {| r_ID := id; r_PolicyID := p_ID policy; r_EstimatedTokens := rv_estimate existing;
               r_Warning := soft_warning policy (wrap64 (w_reserved state + w_consumed state)) |}, m)
    | None =>
        let projected := wrap64 (wrap64 (w_reserved state + w_consumed state) + estimate) in
        if bool_decide (p_Mode policy = "hard") && (p_TokenLimit policy <? projected)
        then (Err ErrExceeded, m)
        else
          (Ok {| r_ID := id; r_PolicyID := p_ID policy; r_EstimatedTokens := estimate;
                 r_Warning := soft_warning policy projected |},
           set_window m (p_ID policy)
             {| w_start := w_start state; w_reserved := wrap64 (w_reserved state + estimate);
                w_consumed := w_consumed state;
                w_reservations := <[id := {| rv_estimate := estimate; rv_final := false |}]>
                                    (w_reservations state) |})
    end.

(** Which ledger holds a reservation: the current window, or the retired one
    when the request straddled a rollover. *)
Inductive place := InCurrent | InRetired.

Definition ledgerFor (m : Manager) (policyID reservationID : string) :
    option (place * window * reservationState) :=
  match m_windows m !! policyID ≫= λ w, (λ r, (InCurrent, w, r)) <$> w_reservations w !! reservationID with
  | Some x => Some x
  | None =>
      m_retired m !! policyID ≫= λ rw,
        (λ r, (InRetired, rw_state rw, r)) <$> w_reservations (rw_state rw) !! reservationID
  end.

(** Writing back through the ledger pointer. *)
Definition put_ledger (m : Manager) (p : place) (policyID : string) (w : window) : Manager :=
  match p with
  | InCurrent => set_window m policyID w
  | InRetired =>
      {| m_windows := m_windows m;
         m_retired := alter (λ rw, {| rw_state := w; rw_retiredAt := rw_retiredAt rw |}) policyID (m_retired m);
         m_lastSweep := m_lastSweep m |}
  end.

(** [state.reserved -= estimate; state.consumed += actual; final = true]. *)
Definition finalize (w : window) (id : string) (r : reservationState) (actual : Z) : window :=
  {| w_start := w_start w; w_reserved := wrap64 (w_reserved w - rv_estimate r);
     w_consumed := wrap64 (w_consumed w + actual);
     w_reservations := <[id := {| rv_estimate := rv_estimate r; rv_final := true |}]> (w_reservations w) |}.

Definition Reconcile (m : Manager) (policyID reservationID : string) (actual : Z) :
    option error * Manager :=
  if actual <? 0 then (Some (ErrNew "actual tokens cannot be negative"), m)
  else match ledgerFor m policyID reservationID with
       | None => (Some (ErrNew "reservation not found"), m)
       | Some (p, state, r) =>
           if rv_final r then (None, m)
           else (None, put_ledger m p policyID (finalize state reservationID r actual))
       end.

(** [Release] leaves [consumed] as it is. *)
Definition release_window (w : window) (id : string) (r : reservationState) : window :=
  {| w_start := w_start w; w_reserved := wrap64 (w_reserved w - rv_estimate r);
     w_consumed := w_consumed w;
     w_reservations := <[id := {| rv_estimate := rv_estimate r; rv_final := true |}]> (w_reservations w) |}.

Definition Release (m : Manager) (policyID reservationID : string) : option error * Manager :=
  match ledgerFor m policyID reservationID with
  | None => (None, m)
  | Some (p, state, r) =>
      if rv_final r then (None, m)
      else (None, put_ledger m p policyID (release_window state reservationID r))
  end.

Definition Sweep (m : Manager) (now : Z) : Manager :=
  sweepLocked {| m_windows := m_windows m; m_retired := m_retired m; m_lastSweep := zero_time |} now.

Definition Usage (m : Manager) (policyID : string) : Z * Z :=
  match m_windows m !! policyID with
  | Some w => (w_reserved w, w_consumed w)
  | None => (0, 0)
  end.

(** ** failmode.go *)

Definition FailClosed : string := "hard".
Definition FailOpen : string := "soft".

(** The wrapper adds no state of its own; [alerts] collects what the alert hook
    is called with. *)
Record FailModeLedger (L : Type) := {
  fm_inner : L; fm_mode : string; fm_alerts : list (string * string) }.
Arguments fm_inner {L}.
Arguments fm_mode {L}.
Arguments fm_alerts {L}.

Section FailMode.
Context {L : Type} `{!BudgetLedger L}.

Definition alert (f : FailModeLedger L) (kind message : string) : FailModeLedger L :=
  {| fm_inner := fm_inner f; fm_mode := fm_mode f; fm_alerts := fm_alerts f ++ [(kind, message)] |}.

Definition with_inner (f : FailModeLedger L) (inner : L) : FailModeLedger L :=
  {| fm_inner := inner; fm_mode := fm_mode f; fm_alerts := fm_alerts f |}.

Definition FailMode_Reserve (f : FailModeLedger L) (req : ReserveRequest) :
    (ReserveResult * option error) * FailModeLedger L :=
  let '((res, err), inner) := ledger_Reserve (fm_inner f) req in
  let f := with_inner f inner in
  match err with
  | Some e =>
      if errors_is e ErrLedgerUnavailable then
        if bool_decide (fm_mode f = FailClosed) then
          ((res, err), alert f "budget.fail_closed" "hard budget ledger unavailable")
        else
          (({| rs_Reserved := true; rs_Active := 0; rs_Degraded := true |}, None),
           alert f "budget.fail_open" "soft budget ledger unavailable; proceeding without enforcement")
      else ((res, err), f)
  | None => ((res, err), f)
  end.

Definition FailMode_Reconcile (f : FailModeLedger L) (tenant id : string) (actual : float64) :
    option error * FailModeLedger L :=
  let '(err, inner) := ledger_Reconcile (fm_inner f) tenant id actual in (err, with_inner f inner).

Definition FailMode_Release (f : FailModeLedger L) (tenant id : string) :
    option error * FailModeLedger L :=
  let '(err, inner) := ledger_Release (fm_inner f) tenant id in (err, with_inner f inner).

Definition FailMode_Sweep (f : FailModeLedger L) (tenant : string) (limit : Z) :
    (Z * option error) * FailModeLedger L :=
  let '(r, inner) := ledger_Sweep (fm_inner f) tenant limit in (r, with_inner f inner).

(** The wrapper is again a ledger. *)
#[export] Instance failmode_ledger : BudgetLedger (FailModeLedger L) :=
  {| ledger_Reserve := FailMode_Reserve; ledger_Reconcile := FailMode_Reconcile;
     ledger_Release := FailMode_Release; ledger_Sweep := FailMode_Sweep |}.
End FailMode.

(** ** Invariants over every ledger of a manager *)

Definition all_windows (Q : string → window → Prop) (m : Manager) : Prop :=
  (∀ id w, m_windows m !! id = Some w → Q id w) ∧
  (∀ id rw, m_retired m !! id = Some rw → Q id (rw_state rw)).

Definition fresh_window (start : Z) : window :=
  {| w_start := start; w_reserved := 0; w_consumed := 0; w_reservations := ∅ |}.

Section AllWindows.
Context (Q : string → window → Prop).
Implicit Types (m : Manager) (w : window).

Lemma all_set_window m id w : all_windows Q m → Q id w → all_windows Q (set_window m id w).
Proof.
  intros [H1 H2] Hw. split; simpl; [|done].
  intros id' w'. rewrite lookup_insert. case_decide; [|by apply H1]. intros [= <-]. by subst.
Qed.

Lemma all_put_ledger m p id w : all_windows Q m → Q id w → all_windows Q (put_ledger m p id w).
Proof.
  intros [H1 H2] Hw. destruct p; [by apply all_set_window|]. split; simpl; [done|].
  intros id' rw. rewrite lookup_alter. case_decide; [|by apply H2].
  intros (rw'&_&->)%fmap_Some. by subst.
Qed.

Lemma ledgerFor_all m pid rid p w r :
  all_windows Q m → ledgerFor m pid rid = Some (p, w, r) →
  Q pid w ∧ w_reservations w !! rid = Some r.
Proof.
  intros [H1 H2]. unfold ledgerFor.
  destruct (m_windows m !! pid) as [w1|] eqn:E1; simpl.
  - destruct (w_reservations w1 !! rid) eqn:Er; simpl.
    + intros [= <- <- <-]. eauto.
    + destruct (m_retired m !! pid) as [rw|] eqn:E2; simpl; [|done].
      destruct (w_reservations (rw_state rw) !! rid) eqn:Er'; simpl; [|done].
      intros [= <- <- <-]. eauto.
  - destruct (m_retired m !! pid) as [rw|] eqn:E2; simpl; [|done].
    destruct (w_reservations (rw_state rw) !! rid) eqn:Er'; simpl; [|done].
    intros [= <- <- <-]. eauto.
Qed.

Context (Qprune : ∀ id w, Q id w → Q id (prune_final w)).

Lemma all_sweep m now : all_windows Q m → all_windows Q (sweepLocked m now).
Proof.
  intros [H1 H2]. unfold sweepLocked. case_match; [done|]. split; simpl.
  - intros id w. rewrite lookup_fmap. intros (w'&?&->)%fmap_Some. eauto.
  - intros id rw [? _]%map_lookup_filter_Some. eauto.
Qed.

Lemma all_roll m policy now :
  all_windows Q m → Q (p_ID policy) (fresh_window (p_WindowStart policy)) →
  let '(w, m') := roll m policy now in
  Q (p_ID policy) w ∧ all_windows Q m' ∧ m_windows m' !! p_ID policy = Some w.
Proof.
  intros [H1 H2] Hf. unfold roll. destruct (m_windows m !! p_ID policy) as [w|] eqn:E.
  - case_bool_decide; [split_and!; [by apply H1|done|done]|].
    split_and!; [done| |apply lookup_insert_eq].
    apply all_set_window; [|done]. split; simpl; [done|].
    intros id rw. rewrite lookup_insert. case_decide; [|by apply H2]. intros [= <-]. subst. eauto.
  - split_and!; [done| |apply lookup_insert_eq]. by apply all_set_window.
Qed.
End AllWindows.

(** *** Conservation *)

(** What an open reservation holds back. *)
Definition pending (r : reservationState) : Z := if rv_final r then 0 else rv_estimate r.

Definition conserves (_ : string) (w : window) : Prop :=
  w_reserved w = wrap64 (map_sum pending (w_reservations w)).

Lemma pending_pruned w : map_sum pending (w_reservations (prune_final w)) = map_sum pending (w_reservations w).
Proof.
  apply map_sum_filter. intros id r _ H. unfold pending. simpl in H. by destruct (rv_final r).
Qed.

Lemma conserves_prune id w : conserves id w → conserves id (prune_final w).
Proof. unfold conserves. by rewrite pending_pruned. Qed.

Lemma conserves_fresh id start : conserves id (fresh_window start).
Proof. unfold conserves. simpl. by rewrite map_sum_empty. Qed.

Lemma conserves_settle id w rid r w' :
  conserves id w → w_reservations w !! rid = Some r → rv_final r = false →
  w_reserved w' = wrap64 (w_reserved w - rv_estimate r) →
  w_reservations w' = <[rid := {| rv_estimate := rv_estimate r; rv_final := true |}]> (w_reservations w) →
  conserves id w'.
Proof.
  unfold conserves. intros Hc Hr Hf -> ->. erewrite map_sum_insert_Some by done.
  rewrite Hc, wrap64_sub_l. f_equal. unfold pending. rewrite Hf. simpl. lia.
Qed.

Lemma conserves_insert id w rid est w' :
  conserves id w → w_reservations w !! rid = None →
  w_reserved w' = wrap64 (w_reserved w + est) →
  w_reservations w' = <[rid := {| rv_estimate := est; rv_final := false |}]> (w_reservations w) →
  conserves id w'.
Proof.
  unfold conserves. intros Hc Hr -> ->. rewrite map_sum_insert_None by done.
  rewrite Hc, wrap64_add_l. f_equal. unfold pending at 2. simpl. lia.
Qed.

(** *** Operations as data *)

Inductive budget_op :=
| BReserve (clk : nat → Z) (policy : Policy) (id : string) (estimate : Z)
| BReconcile (policyID reservationID : string) (actual : Z)
| BRelease (policyID reservationID : string)
| BSweep (now : Z).

Definition budget_exec (m : Manager) (o : budget_op) : Manager :=
  match o with
  | BReserve clk policy id est => (Reserve m clk policy id est).2
  | BReconcile pid rid a => (Reconcile m pid rid a).2
  | BRelease pid rid => (Release m pid rid).2
  | BSweep now => Sweep m now
  end.

Lemma exec_conserves m o : all_windows conserves m → all_windows conserves (budget_exec m o).
Proof.
  intros Hm. destruct o as [clk policy id est|pid rid a|pid rid|now]; simpl.
  - unfold Reserve. case_match; [done|].
    pose proof (all_roll conserves (sweepLocked m (clk 2%nat)) policy (clk 2%nat)
      (all_sweep _ conserves_prune _ _ Hm) (conserves_fresh _ _)) as Hroll.
    destruct (roll _ _ _) as [w m']. destruct Hroll as (Hw&Hm'&_).
    repeat case_match; simpl; try done.
    apply all_set_window; [done|]. by eapply conserves_insert.
  - unfold Reconcile. case_match; [done|]. destruct (ledgerFor m pid rid) as [[[p w] r]|] eqn:E; [|done].
    destruct (ledgerFor_all _ _ _ _ _ _ _ Hm E) as [Hw Hr]. case_match; [done|].
    apply all_put_ledger; [done|]. by eapply conserves_settle.
  - unfold Release. destruct (ledgerFor m pid rid) as [[[p w] r]|] eqn:E; [|done].
    destruct (ledgerFor_all _ _ _ _ _ _ _ Hm E) as [Hw Hr]. case_match; [done|].
    apply all_put_ledger; [done|]. by eapply conserves_settle.
  - unfold Sweep. by apply (all_sweep _ conserves_prune).
Qed.

(** *** The hard limit *)

(** A window that respects a limit without wrap-around. *)
Record within (limit : Z) (w : window) : Prop := {
  within_sum : w_reserved w = map_sum pending (w_reservations w);
  within_est rid r : w_reservations w !! rid = Some r → 0 <= rv_estimate r;
  within_reserved : 0 <= w_reserved w;
  within_consumed : 0 <= w_consumed w;
  within_limit : w_reserved w + w_consumed w <= limit }.

Lemma within_prune limit w : within limit w → within limit (prune_final w).
Proof.
  intros [Hs He Hr Hc Hl]. split; simpl; try done.
  - change (filter _ (w_reservations w)) with (w_reservations (prune_final w)). by rewrite pending_pruned.
  - intros rid r [? _]%map_lookup_filter_Some. eauto.
Qed.

Lemma within_fresh limit start : 0 <= limit → within limit (fresh_window start).
Proof.
  intros. split; simpl; try lia.
  - by rewrite map_sum_empty.
  - intros rid r. by rewrite lookup_empty.
Qed.

Lemma pending_nonneg (rs : gmap string reservationState) :
  (∀ rid r, rs !! rid = Some r → 0 <= rv_estimate r) → 0 <= map_sum pending rs.
Proof.
  induction rs as [|i x m Hi IH] using map_ind; intros He; [by rewrite map_sum_empty|].
  rewrite map_sum_insert_None by done.
  assert (0 <= map_sum pending m).
  { apply IH. intros rid r Hr. apply (He rid r). rewrite lookup_insert_ne; [done|congruence]. }
  pose proof (He i x (lookup_insert_eq _ _ _)). unfold pending at 1. case_match; lia.
Qed.

Lemma within_settle limit w rid r actual w' :
  within limit w → w_reservations w !! rid = Some r → rv_final r = false →
  0 <= actual <= rv_estimate r → limit <= max_int64 →
  w_reserved w' = wrap64 (w_reserved w - rv_estimate r) →
  w_consumed w' = wrap64 (w_consumed w + actual) →
  w_reservations w' = <[rid := {| rv_estimate := rv_estimate r; rv_final := true |}]> (w_reservations w) →
  within limit w'.
Proof.
  intros [Hs He Hr Hc Hl] Hrid Hf Ha Hmax Er Ec Ers.
  assert (map_sum pending (w_reservations w') = w_reserved w - rv_estimate r) as Hsum.
  { rewrite Ers. erewrite map_sum_insert_Some by done. rewrite Hs. unfold pending. rewrite Hf. simpl. lia. }
  assert (∀ rid' r', w_reservations w' !! rid' = Some r' → 0 <= rv_estimate r') as He'.
  { intros rid' r'. rewrite Ers, lookup_insert. case_decide; [|eauto]. intros [= <-]. simpl. eauto. }
  pose proof (pending_nonneg _ He').
  rewrite wrap64_id in Er by (unfold_ints; lia). rewrite wrap64_id in Ec by (unfold_ints; lia).
  split; [congruence|done|lia|lia|lia].
Qed.

Lemma within_insert limit w rid est w' :
  within limit w → w_reservations w !! rid = None → 0 <= est → limit + est <= max_int64 →
  wrap64 (wrap64 (w_reserved w + w_consumed w) + est) <= limit →
  w_reserved w' = wrap64 (w_reserved w + est) → w_consumed w' = w_consumed w →
  w_reservations w' = <[rid := {| rv_estimate := est; rv_final := false |}]> (w_reservations w) →
  within limit w'.
Proof.
  intros [Hs He Hr Hc Hl] Hrid Hest Hmax Hproj Er Ec Ers.
  rewrite wrap64_add_l, wrap64_id in Hproj by (unfold_ints; lia).
  rewrite wrap64_id in Er by (unfold_ints; lia).
  split; try lia.
  - rewrite Er, Ers, map_sum_insert_None by done. unfold pending at 1. simpl. lia.
  - intros rid' r'. rewrite Ers, lookup_insert. case_decide; [|eauto]. by intros [= <-].
Qed.

(** States reached when every policy with the same id declares one hard limit,
    estimates leave headroom below int64, and no request uses more tokens than
    it reserved. *)
Inductive hard_reachable (limit : string → Z) : Manager → Prop :=
| hard_new now : hard_reachable limit (New now)
| hard_reserve m clk policy id est :
    hard_reachable limit m →
    p_Mode policy = "hard" → p_TokenLimit policy = limit (p_ID policy) →
    limit (p_ID policy) + est <= max_int64 →
    hard_reachable limit (Reserve m clk policy id est).2
| hard_reconcile m pid rid actual :
    hard_reachable limit m →
    (∀ p w r, ledgerFor m pid rid = Some (p, w, r) → actual <= rv_estimate r) →
    hard_reachable limit (Reconcile m pid rid actual).2
| hard_release m pid rid :
    hard_reachable limit m → hard_reachable limit (Release m pid rid).2
| hard_sweep m now : hard_reachable limit m → hard_reachable limit (Sweep m now).

Definition hard_within (limit : string → Z) (id : string) (w : window) : Prop :=
  limit id <= max_int64 ∧ within (limit id) w.

Lemma hard_within_prune limit id w : hard_within limit id w → hard_within limit id (prune_final w).
Proof. intros [? ?]. split; [done|by apply within_prune]. Qed.

Lemma hard_reachable_within limit m : hard_reachable limit m → all_windows (hard_within limit) m.
Proof.
  induction 1 as [now|m clk policy id est _ IH Hmode Hlim Hmax|m pid rid actual _ IH Hact
                 |m pid rid _ IH|m now _ IH].
  - split; simpl; intros ? ?; by rewrite lookup_empty.
  - unfold Reserve. destruct (invalid_reservation _ _ _ _ _) eqn:Hinv; [done|].
    unfold invalid_reservation in Hinv. rewrite !orb_false_iff, !Z.ltb_ge in Hinv.
    destruct Hinv as (((((_&Hest)&Hl)&_)&_)&_).
    pose proof (all_roll (hard_within limit) (sweepLocked m (clk 2%nat)) policy (clk 2%nat)
      (all_sweep _ (hard_within_prune limit) _ _ IH)) as Hroll.
    destruct (roll _ _ _) as [w m']. destruct Hroll as (Hw&Hm'&_).
    { split; [lia|apply within_fresh; lia]. }
    repeat case_match; simpl; try done.
    apply all_set_window; [done|]. destruct Hw as [Hmx Hw]. split; [done|].
    eapply (within_insert _ _ id est); [done|done|done|lia|rewrite <- Hlim|done..].
    rewrite Hmode in *. simpl in *. by apply Z.ltb_ge.
  - unfold Reconcile. destruct (Z.ltb_spec actual 0); [done|].
    destruct (ledgerFor m pid rid) as [[[p w] r]|] eqn:E; [|done].
    destruct (ledgerFor_all _ _ _ _ _ _ _ IH E) as [[Hmax Hw] Hr]. case_match; [done|].
    apply all_put_ledger; [done|]. split; [done|].
    eapply within_settle; try done. specialize (Hact _ _ _ eq_refl). lia.
  - unfold Release. destruct (ledgerFor m pid rid) as [[[p w] r]|] eqn:E; [|done].
    destruct (ledgerFor_all _ _ _ _ _ _ _ IH E) as [[Hmax Hw] Hr]. case_match; [done|].
    apply all_put_ledger; [done|]. split; [done|].
    eapply (within_settle _ _ _ _ 0); try done.
    + split; [lia|]. by eapply within_est.
    + simpl. rewrite wrap64_id; [lia|]. destruct Hw. unfold_ints. lia.
  - unfold Sweep. by apply (all_sweep _ (hard_within_prune limit)).
Qed.

(** *** Settlement through the ledger pointer *)

Lemma ledgerFor_put m pid rid p w r w' r' :
  ledgerFor m pid rid = Some (p, w, r) → w_reservations w' !! rid = Some r' →
  ledgerFor (put_ledger m p pid w') pid rid = Some (p, w', r').
Proof.
  unfold ledgerFor. intros Hl Hr'. destruct p; simpl.
  - rewrite lookup_insert_eq. simpl. by rewrite Hr'.
  - destruct (m_windows m !! pid) as [w1|] eqn:E1; simpl in *.
    + destruct (w_reservations w1 !! rid) eqn:Er; simpl in *; [done|].
      destruct (m_retired m !! pid) as [rw|] eqn:E2; simpl in *; [|done].
      rewrite lookup_alter_eq, E2. simpl. by rewrite Hr'.
    + destruct (m_retired m !! pid) as [rw|] eqn:E2; simpl in *; [|done].
      rewrite lookup_alter_eq, E2. simpl. by rewrite Hr'.
Qed.

Definition manager_settle (m : Manager) (pid rid : string) (actual : option Z) : option error * Manager :=
  match actual with Some a => Reconcile m pid rid a | None => Release m pid rid end.

Lemma settled_final m pid rid actual p w r :
  ledgerFor m pid rid = Some (p, w, r) → (manager_settle m pid rid actual).1 = None →
  ∃ p' w' r', ledgerFor (manager_settle m pid rid actual).2 pid rid = Some (p', w', r') ∧
    rv_final r' = true.
Proof.
  intros Hl Hok.
  destruct actual as [a|]; simpl in *; [unfold Reconcile in *; case_match; [done|]|unfold Release in *];
    rewrite Hl in *; (destruct (rv_final r) eqn:Hf; [by eexists _, _, _|]);
    eexists _, _, {| rv_estimate := rv_estimate r; rv_final := true |}; (split; [|done]);
    (eapply ledgerFor_put; [done|apply lookup_insert_eq]).
Qed.

Lemma settle_final_noop m pid rid actual p w r :
  ledgerFor m pid rid = Some (p, w, r) → rv_final r = true →
  (∀ a, actual = Some a → 0 <= a) → manager_settle m pid rid actual = (None, m).
Proof.
  intros Hl Hf Ha. destruct actual as [a|]; simpl; unfold Reconcile, Release; rewrite Hl, Hf; [|done].
  destruct (Z.ltb_spec a 0); [|done]. specialize (Ha a eq_refl). lia.
Qed.

(** *** Lookups after the sweep *)

Lemma sweep_window m now pid w :
  m_windows m !! pid = Some w →
  ∃ w', m_windows (sweepLocked m now) !! pid = Some w' ∧ w_start w' = w_start w ∧
    w_reserved w' = w_reserved w ∧ w_consumed w' = w_consumed w ∧
    (∀ rid r, w_reservations w !! rid = Some r → rv_final r = false → w_reservations w' !! rid = Some r).
Proof.
  intros Hw. unfold sweepLocked. case_match; [by exists w|].
  exists (prune_final w). simpl. rewrite lookup_fmap, Hw. split_and!; try done.
  intros rid r Hr Hf. apply map_lookup_filter_Some. done.
Qed.

Lemma sweep_usage m now pid : Usage (sweepLocked m now) pid = Usage m pid.
Proof.
  unfold Usage, sweepLocked. destruct (_ <? _); [done|]. simpl. rewrite lookup_fmap.
  by destruct (m_windows m !! pid).
Qed.

Definition open_tokens (m : Manager) (pid : string) : Z :=
  match m_windows m !! pid with Some w => map_sum pending (w_reservations w) | None => 0 end.

(** ** Properties of the manager *)

(** C13: conservation.  After any sequence of Reserve, Reconcile, Release and
    Sweep calls, with any clock readings, arguments and rollovers, the reserved
    tokens [Usage] reports for a policy are the int64 sum of the estimates of
    exactly the reservations that are still open in its current window. *)
Theorem budget_conservation now (ops : list budget_op) (pid : string) :
  let m := foldl budget_exec (New now) ops in
  (Usage m pid).1 = wrap64 (open_tokens m pid).
Proof.
  intros m. assert (all_windows conserves m) as [Hm _].
  { apply (foldl_invariant (all_windows conserves)); [intros; by apply exec_conserves|].
    split; simpl; intros ? ?; by rewrite lookup_empty. }
  unfold Usage, open_tokens. destruct (m_windows m !! pid) as [w|] eqn:E; [|done]. by apply (Hm pid).
Qed.

(** C27: a hard budget is never exceeded.  When every policy of one id is hard
    with one token limit, estimates leave headroom below the int64 range, and
    requests use at most what they reserved, reserved plus consumed tokens stay
    within the limit in every reachable state, whatever the interleaving of
    reservations, settlements, rollovers and sweeps. *)
Theorem hard_budget_never_exceeded limit m pid :
  hard_reachable limit m →
  0 <= (Usage m pid).1 ∧ 0 <= (Usage m pid).2 ∧
  (Usage m pid).1 + (Usage m pid).2 <= Z.max 0 (limit pid).
Proof.
  intros [Hm _]%hard_reachable_within. unfold Usage.
  destruct (m_windows m !! pid) as [w|] eqn:E; simpl; [|lia].
  destruct (Hm _ _ E) as [_ []]. lia.
Qed.

(** A reservation is settled once.  After a successful Reconcile or Release
    of a reservation, any further Reconcile (with a valid count) or Release of it
    succeeds and changes nothing: tokens are neither charged nor returned twice,
    also when the reservation lives in the retired window. *)
Theorem budget_settles_once m pid rid first second p w r :
  ledgerFor m pid rid = Some (p, w, r) →
  (manager_settle m pid rid first).1 = None →
  (∀ a, second = Some a → 0 <= a) →
  let m' := (manager_settle m pid rid first).2 in
  manager_settle m' pid rid second = (None, m').
Proof.
  intros Hl Hok Ha m'. destruct (settled_final _ _ _ _ _ _ _ Hl Hok) as (p'&w'&r'&Hl'&Hf).
  by eapply settle_final_noop.
Qed.

(** Retrying an admitted request does not charge it again.  While a
    reservation is open in the policy's current window, reserving the same id
    again, with any estimate and at any time, returns the original estimate and
    leaves the usage of every policy as it was. *)
Theorem reserve_retry_is_free m clk policy id est w r :
  m_windows m !! p_ID policy = Some w → w_start w = p_WindowStart policy →
  w_reservations w !! id = Some r → rv_final r = false →
  invalid_reservation policy id est (clk 0%nat) (clk 1%nat) = false →
  (∃ warning, (Reserve m clk policy id est).1 =
     Ok {| r_ID := id; r_PolicyID := p_ID policy; r_EstimatedTokens := rv_estimate r;
           r_Warning := warning |}) ∧
  ∀ pid, Usage (Reserve m clk policy id est).2 pid = Usage m pid.
Proof.
  intros Hw Hstart Hr Hf Hinv. unfold Reserve. rewrite Hinv. unfold roll.
  destruct (sweep_window m (clk 2%nat) _ _ Hw) as (w'&Hw'&Hs&_&_&Hk).
  rewrite Hw', bool_decide_true by congruence. rewrite (Hk _ _ Hr Hf). simpl.
  split; [by eexists|]. intros pid. apply sweep_usage.
Qed.

(** Rollover isolation.  When a request arrives for the policy's next window,
    usage restarts at that request's estimate, and a request of the previous
    window that settles afterwards is charged to the retired window: it succeeds
    and the new window's usage does not move. *)
Theorem rollover_isolation m clk policy id est w rid r res actual :
  m_windows m !! p_ID policy = Some w → w_start w ≠ p_WindowStart policy →
  w_reservations w !! rid = Some r → rv_final r = false → rid ≠ id →
  (Reserve m clk policy id est).1 = Ok res → 0 <= actual →
  let m' := (Reserve m clk policy id est).2 in
  let m'' := (Reconcile m' (p_ID policy) rid actual).2 in
  Usage m' (p_ID policy) = (wrap64 est, 0) ∧
  (Reconcile m' (p_ID policy) rid actual).1 = None ∧
  Usage m'' (p_ID policy) = Usage m' (p_ID policy) ∧
  ∃ w'', ledgerFor m'' (p_ID policy) rid = Some (InRetired, w'',
           {| rv_estimate := rv_estimate r; rv_final := true |}) ∧
         w_consumed w'' = wrap64 (w_consumed w + actual).
Proof.
  intros Hw Hstart Hr Hf Hne. unfold Reserve.
  destruct (invalid_reservation _ _ _ _ _); [done|]. unfold roll.
  destruct (sweep_window m (clk 2%nat) _ _ Hw) as (w'&Hw'&Hs&_&Hc&Hk).
  rewrite Hw', bool_decide_false by congruence. simpl. rewrite lookup_empty.
  case_match; [done|]. intros _ Hact. simpl. rewrite Z.add_0_l.
  unfold Reconcile. destruct (Z.ltb_spec actual 0); [lia|].
  unfold ledgerFor, Usage. simpl. rewrite !lookup_insert_eq. simpl.
  rewrite (lookup_insert_ne ∅) by done. rewrite lookup_empty. simpl.
  rewrite (Hk _ _ Hr Hf). simpl. rewrite Hf. simpl.
  rewrite !lookup_insert_eq. split_and!; [done..|]. simpl.
  rewrite (lookup_insert_ne ∅) by done. rewrite lookup_empty. simpl.
  rewrite lookup_alter_eq, lookup_insert_eq. simpl. rewrite lookup_insert_eq. simpl.
  eexists. split; [done|]. simpl. by rewrite Hc.
Qed.

(** ** The fail modes *)

Section FailModeLaws.
Context {L : Type} `{!BudgetLedger L}.

(** What §14.4 declares: the outcome of [FailMode_Reserve] in terms of the
    wrapped ledger's own outcome. *)
Definition fail_mode_spec (mode : string) (inner : ReserveResult * option error) :
    (ReserveResult * option error) * list (string * string) :=
  match inner.2 with
  | Some e =>
      if errors_is e ErrLedgerUnavailable then
        if bool_decide (mode = FailClosed)
        then (inner, [("budget.fail_closed", "hard budget ledger unavailable")])
        else (({| rs_Reserved := true; rs_Active := 0; rs_Degraded := true |}, None),
              [("budget.fail_open",
                "soft budget ledger unavailable; proceeding without enforcement")])
      else (inner, [])
  | None => (inner, [])
  end.

Lemma fail_mode_reserve (f : FailModeLedger L) req :
  let inner := ledger_Reserve (fm_inner f) req in
  let out := FailMode_Reserve f req in
  out.1 = (fail_mode_spec (fm_mode f) inner.1).1 ∧
  fm_alerts out.2 = (fm_alerts f ++ (fail_mode_spec (fm_mode f) inner.1).2)%list ∧
  fm_inner out.2 = inner.2 ∧ fm_mode out.2 = fm_mode f.
Proof.
  unfold FailMode_Reserve, fail_mode_spec. destruct (ledger_Reserve _ _) as [[res [e|]] inner]; simpl.
  - destruct (errors_is e _); [destruct (bool_decide _)|]; simpl; by rewrite ?app_nil_r.
  - by rewrite app_nil_r.
Qed.
End FailModeLaws.

(** ** Concrete instances of the properties *)

Definition day_policy (start : Z) : Policy :=
  {| p_ID := "p"; p_TenantID := "t"; p_ProjectID := "pr"; p_KeyID := "k"; p_Mode := "hard";
     p_Consistency := ""; p_TokenLimit := 100; p_WindowStart := start; p_WindowEnd := start + 24 * hour |}.

Definition at_time (t : Z) : nat → Z := λ _, t.

(** Two requests of one day, the first still open. *)
Definition busy_manager : Manager :=
  (Reserve (Reserve (New 0) (at_time 1) (day_policy 0) "a" 40).2 (at_time 2) (day_policy 0) "b" 50).2.

Lemma hard_budget_never_exceeded_witness :
  0 <= (Usage busy_manager "p").1 ∧ 0 <= (Usage busy_manager "p").2 ∧
  (Usage busy_manager "p").1 + (Usage busy_manager "p").2 <= Z.max 0 100.
Proof.
  apply (hard_budget_never_exceeded (λ _, 100) busy_manager "p").
  unfold busy_manager. apply hard_reserve; [apply hard_reserve; [apply hard_new|..]|..]; done.
Defined.

Lemma budget_settles_once_witness :
  let m' := (manager_settle busy_manager "p" "a" (Some 30)).2 in
  manager_settle m' "p" "a" None = (None, m').
Proof.
  eapply (budget_settles_once busy_manager "p" "a" (Some 30) None); [reflexivity|reflexivity|done].
Defined.

Lemma reserve_retry_is_free_witness :
  (∃ warning, (Reserve busy_manager (at_time 3) (day_policy 0) "a" 60).1 =
     Ok {| r_ID := "a"; r_PolicyID := "p"; r_EstimatedTokens := 40; r_Warning := warning |}) ∧
  ∀ pid, Usage (Reserve busy_manager (at_time 3) (day_policy 0) "a" 60).2 pid = Usage busy_manager pid.
Proof.
  eapply (reserve_retry_is_free busy_manager (at_time 3) (day_policy 0) "a" 60 _
    {| rv_estimate := 40; rv_final := false |}); reflexivity.
Defined.

Lemma rollover_isolation_witness :
  let day2 := day_policy (24 * hour) in
  let m' := (Reserve busy_manager (at_time (24 * hour)) day2 "c" 70).2 in
  let m'' := (Reconcile m' "p" "a" 35).2 in
  Usage m' "p" = (70, 0) ∧ Usage m'' "p" = (70, 0).
Proof.
  intros day2 m' m''.
  destruct (rollover_isolation busy_manager (at_time (24 * hour)) day2 "c" 70
    (default (fresh_window 0) (m_windows busy_manager !! "p")) "a"
    {| rv_estimate := 40; rv_final := false |}
    {| r_ID := "c"; r_PolicyID := "p"; r_EstimatedTokens := 70; r_Warning := false |} 35)
    as (H1&_&H2&_); [reflexivity|done|reflexivity|reflexivity|done|reflexivity|done|].
  split; [exact H1|]. transitivity (Usage m' "p"); [exact H2|exact H1].
Defined.
