(* ===== verification/Enforcer.v ===== *)
(** * Layered budget enforcement: internal/app/budgetenforcer.go

    The gateway admits a request's token estimate through up to three ledgers:
    the in-process [Budget.Manager], the distributed ledger of the coordinator
    behind its fail mode, and the region slice of the policy's consistency mode.
    Also here: [OrgBudgetGate] of internal/finops/budget/orgbudget.go, which adds
    the user and organisation windows to a ledger request.

    The distributed ledger is any instance of [Coordination.BudgetLedger]. *)

From S2P Require Import Prelude GoFloat GoStd Coordination Budget.

Open Scope string_scope.
Open Scope Z_scope.

(** ** Time.Format of the standard library *)

(** Proleptic Gregorian date of a day number (days since 1970-01-01). *)
Definition civil (days : Z) : Z * Z * Z :=
  let z := days + 719468 in
  let era := z / 146097 in
  let doe := z mod 146097 in
  let yoe := (doe - doe / 1460 + doe / 36524 - doe / 146096) / 365 in
  let doy := doe - (365 * yoe + yoe / 4 - yoe / 100) in
  let mp := (5 * doy + 2) / 153 in
  let d := doy - (153 * mp + 2) / 5 + 1 in
  let m := if mp <? 10 then mp + 3 else mp - 9 in
  (yoe + era * 400 + (if m <=? 2 then 1 else 0), m, d).

(** [t.UTC().Format("20060102150405")]. *)
Definition format_compact (t : Z) : string :=
  let secs := t / second in
  let '(y, m, d) := civil (secs / 86400) in
  let tod := secs mod 86400 in
  (if y <? 0 then "-" else "") +:+ zero_pad 4 (Z.abs y) +:+ zero_pad 2 m +:+ zero_pad 2 d +:+
  zero_pad 2 (tod / 3600) +:+ zero_pad 2 (tod / 60 mod 60) +:+ zero_pad 2 (tod mod 60).

Example format_epoch : format_compact 0 = "19700101000000".
Proof. vm_compute. reflexivity. Qed.

Example format_leap_day : format_compact (1709210096 * second) = "20240229123456".
Proof. vm_compute. reflexivity. Qed.

(** ** The enforcer *)

Definition sliceRegion : string := "global".
Definition defaultSliceOvershootRatio : float64 := f64_const 1 10.
Definition budgetSweepLimit : Z := 500.

Record sliceEntry := { se_authority : SliceAuthority; se_windowStart : Z }.

Record budgetEnforcer (L : Type) := {
  e_manager : Manager;
  e_distributed : option L;
  e_alerts : list (string * string);
  e_slices : gmap string sliceEntry;
  e_tenantByPolicy : gmap string string }.
Arguments Build_budgetEnforcer {L}.
Arguments e_manager {L}.
Arguments e_distributed {L}.
Arguments e_alerts {L}.
Arguments e_slices {L}.
Arguments e_tenantByPolicy {L}.

Definition consistencyMode (consistency : string) : string :=
  if bool_decide (consistency = "regional") then BudgetRegional
  else if bool_decide (consistency = "global_soft") then BudgetGlobalSoft
  else if bool_decide (consistency = "global_hard") then BudgetGlobalHard
  else "".

Definition distributedWindows (policy : Policy) : list BudgetWindow :=
  let ttl := time_sub (p_WindowEnd policy) (p_WindowStart policy) in
  let ttl := if ttl <? second then hour else ttl in
  [{| w_Key := "{tenant:" +:+ p_TenantID policy +:+ "}:budget:" +:+ p_ID policy +:+ ":" +:+
               format_compact (p_WindowStart policy);
      w_Limit := f64_of_Z (p_TokenLimit policy); w_TTL := ttl |}].

Section Enforcer.
Context {L : Type} `{!BudgetLedger L}.
Implicit Types (e : budgetEnforcer L).

Definition newBudgetEnforcer (manager : Manager) : budgetEnforcer L :=
  {| e_manager := manager; e_distributed := None; e_alerts := []; e_slices := ∅;
     e_tenantByPolicy := ∅ |}.

Definition withDistributedLedger e (ledger : L) : budgetEnforcer L :=
  {| e_manager := e_manager e; e_distributed := Some ledger; e_alerts := e_alerts e;
     e_slices := e_slices e; e_tenantByPolicy := e_tenantByPolicy e |}.

Definition set_manager e (m : Manager) : budgetEnforcer L :=
  {| e_manager := m; e_distributed := e_distributed e; e_alerts := e_alerts e;
     e_slices := e_slices e; e_tenantByPolicy := e_tenantByPolicy e |}.

Definition set_entry e (pid : string) (s : sliceEntry) : budgetEnforcer L :=
  {| e_manager := e_manager e; e_distributed := e_distributed e; e_alerts := e_alerts e;
     e_slices := <[pid := s]> (e_slices e); e_tenantByPolicy := e_tenantByPolicy e |}.

Definition set_ledger e (l : L) (alerts : list (string * string)) : budgetEnforcer L :=
  {| e_manager := e_manager e; e_distributed := Some l; e_alerts := alerts;
     e_slices := e_slices e; e_tenantByPolicy := e_tenantByPolicy e |}.

Definition recordTenant e (policyID tenantID : string) : budgetEnforcer L :=
  if bool_decide (policyID = "") || bool_decide (tenantID = "") then e
  else {| e_manager := e_manager e; e_distributed := e_distributed e; e_alerts := e_alerts e;
          e_slices := e_slices e; e_tenantByPolicy := <[policyID := tenantID]> (e_tenantByPolicy e) |}.

Definition tenantFor e (policyID : string) : string := default "" (e_tenantByPolicy e !! policyID).

(** The set of tenants seen; the source lists it in no particular order. *)
Definition tenants e : gset string := map_to_set (λ _ t, t) (e_tenantByPolicy e).

Definition authorityFor e (policy : Policy) : sliceEntry * budgetEnforcer L :=
  let fresh := {| se_authority := ForMode (p_ID policy) (consistencyMode (p_Consistency policy));
                  se_windowStart := p_WindowStart policy |} in
  match e_slices e !! p_ID policy with
  | Some entry =>
      if bool_decide (se_windowStart entry = p_WindowStart policy) then (entry, e)
      else (fresh, set_entry e (p_ID policy) fresh)
  | None => (fresh, set_entry e (p_ID policy) fresh)
  end.

Definition syncSlice e (policyID : string) : budgetEnforcer L :=
  match e_slices e !! policyID with
  | None => e
  | Some entry =>
      let '(reserved, consumed) := Budget.Usage (e_manager e) policyID in
      let '(_, authority) := Slice_Reconcile (se_authority entry) sliceRegion
                               (f64_of_Z (wrap64 (reserved + consumed))) in
      set_entry e policyID {| se_authority := authority; se_windowStart := se_windowStart entry |}
  end.

Definition rollback e (policy : Policy) (id : string) : budgetEnforcer L :=
  set_manager e (Budget.Release (e_manager e) (p_ID policy) id).2.

Definition ledger_request (policy : Policy) (id : string) (estimate : Z) : ReserveRequest :=
  {| rq_TenantID := p_TenantID policy; rq_ReservationID := id; rq_Estimate := f64_of_Z estimate;
     rq_Windows := distributedWindows policy |}.

(** The distributed leg of [Reserve]: [None] when the request may go on. *)
Definition reserve_distributed e (policy : Policy) (id : string) (estimate : Z) :
    option error * budgetEnforcer L :=
  match e_distributed e with
  | None => (None, e)
  | Some l =>
      let mode := if bool_decide (p_Mode policy = "soft") then FailOpen else FailClosed in
      let failMode := {| fm_inner := l; fm_mode := mode; fm_alerts := e_alerts e |} in
      let '((result, reserveErr), failMode) :=
        FailMode_Reserve failMode (ledger_request policy id estimate) in
      let e := set_ledger e (fm_inner failMode) (fm_alerts failMode) in
      match reserveErr with
      | Some err => (Some err, rollback e policy id)
      | None => if rs_Reserved result then (None, e) else (Some ErrExceeded, rollback e policy id)
      end
  end.

(** The slice leg of [Reserve]. *)
Definition reserve_slice e (policy : Policy) (id : string) (estimate : Z) :
    option error * budgetEnforcer L :=
  if bool_decide (p_Consistency policy = "") then (None, e)
  else
    let '(entry, e) := authorityFor e policy in
    let strict := f64_of_Z (p_TokenLimit policy) in
    let overshoot :=
      if bool_decide (consistencyMode (p_Consistency policy) = BudgetGlobalSoft)
      then f64_mul strict defaultSliceOvershootRatio else f64_zero in
    let '(err, authority) := Slice_Admit (se_authority entry) sliceRegion (f64_of_Z estimate) strict overshoot in
    let e := set_entry e (p_ID policy)
               {| se_authority := authority; se_windowStart := se_windowStart entry |} in
    match err with
    | Some err => (Some err, rollback e policy id)
    | None => (None, e)
    end.

Definition Reserve e (clk : nat → Z) (policy : Policy) (id : string) (estimate : Z) :
    result Reservation * budgetEnforcer L :=
  let e := recordTenant e (p_ID policy) (p_TenantID policy) in
  let '(reserved, m) := Budget.Reserve (e_manager e) clk policy id estimate in
  let e := set_manager e m in
  match reserved with
  | Err err => (Err err, e)
  | Ok r =>
      match reserve_distributed e policy id estimate with
      | (Some err, e) => (Err err, e)
      | (None, e) =>
          match reserve_slice e policy id estimate with
          | (Some err, e) => (Err err, e)
          | (None, e) => (Ok r, e)
          end
      end
  end.

Definition Reconcile e (policyID reservationID : string) (actual : Z) :
    option error * budgetEnforcer L :=
  match Budget.Reconcile (e_manager e) policyID reservationID actual with
  | (Some err, m) => (Some err, set_manager e m)
  | (None, m) =>
      let e := set_manager e m in
      let e := match e_distributed e with
               | Some l =>
                   if bool_decide (tenantFor e policyID ≠ "")
                   then set_ledger e (ledger_Reconcile l (tenantFor e policyID) reservationID
                                        (f64_of_Z actual)).2 (e_alerts e)
                   else e
               | None => e
               end in
      (None, syncSlice e policyID)
  end.

Definition Release e (policyID reservationID : string) : option error * budgetEnforcer L :=
  match Budget.Release (e_manager e) policyID reservationID with
  | (Some err, m) => (Some err, set_manager e m)
  | (None, m) =>
      let e := set_manager e m in
      let e := match e_distributed e with
               | Some l =>
                   if bool_decide (tenantFor e policyID ≠ "")
                   then set_ledger e (ledger_Release l (tenantFor e policyID) reservationID).2 (e_alerts e)
                   else e
               | None => e
               end in
      (None, syncSlice e policyID)
  end.

Definition Usage e (policyID : string) : Z * Z := Budget.Usage (e_manager e) policyID.

(** [order] is the order in which the call happens to list the tenants. *)
Definition Sweep e (now : Z) (order : list string) : budgetEnforcer L :=
  let e := set_manager e (Budget.Sweep (e_manager e) now) in
  match e_distributed e with
  | None => e
  | Some l => set_ledger e (foldl (λ l t, (ledger_Sweep l t budgetSweepLimit).2) l order) (e_alerts e)
  end.
End Enforcer.

(** ** orgbudget.go *)

(** identity.TrustedAttribution *)
Definition AttributionVerified : string := "verified".
Definition AttributionDelegated : string := "delegated".

Definition TrustedAttribution (trust : string) : bool :=
  bool_decide (trust = AttributionVerified) || bool_decide (trust = AttributionDelegated).

Record PrincipalAttribution := {
  pa_UserID : string; pa_OrgUnitID : string; pa_OrgPath : string; pa_CostCenterID : string;
  pa_AttributionTrust : string }.

Record OrgBudgetGate := { TenantTag : string }.

Definition UserOrgWindowKeys (g : OrgBudgetGate) (a : PrincipalAttribution) (windowHours : Z) :
    list BudgetWindow * bool :=
  if negb (TrustedAttribution (pa_AttributionTrust a)) then ([], false)
  else
    let key kind id := "budget:" +:+ TenantTag g +:+ ":" +:+ kind +:+ ":" +:+ id +:+ ":1d" in
    let bare k := {| w_Key := k; w_Limit := f64_zero; w_TTL := 0 |} in
    let windows :=
      ((if bool_decide (pa_UserID a ≠ "") then [bare (key "user" (pa_UserID a))] else []) ++
       (if bool_decide (pa_OrgUnitID a ≠ "") then [bare (key "org" (pa_OrgUnitID a))] else []))%list in
    let windows :=
      map (λ w, if 0 <? windowHours
                then {| w_Key := w_Key w; w_Limit := w_Limit w; w_TTL := wrap64 (windowHours * hour) |}
                else w) windows in
    (windows, (0 <? length windows)%nat).

Definition Apply (g : OrgBudgetGate) (request : ReserveRequest) (a : PrincipalAttribution)
    (windowHours : Z) : ReserveRequest :=
  match UserOrgWindowKeys g a windowHours with
  | (_, false) => request
  | (windows, true) =>
      {| rq_TenantID := rq_TenantID request; rq_ReservationID := rq_ReservationID request;
         rq_Estimate := rq_Estimate request; rq_Windows := (rq_Windows request ++ windows)%list |}
  end.

(** ** Manager lemmas the layers rely on *)

(** The policy's window is the current one, or there is none yet. *)
Definition no_rollover (m : Manager) (policy : Policy) : Prop :=
  ∀ w, m_windows m !! p_ID policy = Some w → w_start w = p_WindowStart policy.

Definition unknown_reservation (m : Manager) (pid id : string) : Prop := ledgerFor m pid id = None.

Lemma unknown_in_window m pid id w :
  unknown_reservation m pid id → m_windows m !! pid = Some w → w_reservations w !! id = None.
Proof.
  unfold unknown_reservation, ledgerFor. intros Hu Hw. rewrite Hw in Hu. simpl in Hu.
  by destruct (w_reservations w !! id).
Qed.

Lemma set_window_usage m id w pid :
  Budget.Usage (set_window m id w) pid =
  if decide (id = pid) then (w_reserved w, w_consumed w) else Budget.Usage m pid.
Proof. unfold Budget.Usage. simpl. rewrite lookup_insert. by case_decide. Qed.

(** Without a rollover, [roll] finds the window whose usage is reported. *)
Lemma roll_usage m policy now :
  no_rollover m policy →
  let '(w, m') := roll m policy now in
  (∀ pid, Budget.Usage m' pid = Budget.Usage m pid) ∧
  Budget.Usage m (p_ID policy) = (w_reserved w, w_consumed w) ∧
  m_retired m' = m_retired m ∧ m_windows m' !! p_ID policy = Some w ∧
  (∀ id, unknown_reservation m (p_ID policy) id → w_reservations w !! id = None).
Proof.
  intros Hn. unfold roll. destruct (m_windows m !! p_ID policy) as [w|] eqn:E.
  - rewrite bool_decide_true by auto. split_and!; [done| |done|done|].
    + unfold Budget.Usage. by rewrite E.
    + intros id Hu. by eapply unknown_in_window.
  - split_and!; [|by unfold Budget.Usage; rewrite E|done|apply lookup_insert_eq|].
    + intros pid. rewrite set_window_usage. case_decide; [subst|done].
      unfold Budget.Usage. by rewrite E.
    + intros id _. apply lookup_empty.
Qed.

Lemma sweep_no_rollover m policy now : no_rollover m policy → no_rollover (sweepLocked m now) policy.
Proof.
  intros Hn w Hw. destruct (m_windows m !! p_ID policy) as [w0|] eqn:E.
  - destruct (sweep_window m now _ _ E) as (w'&Hw'&Hs&_).
    rewrite Hw in Hw'. simplify_eq. rewrite Hs. eauto.
  - unfold sweepLocked in Hw. destruct (_ <? _); simpl in Hw; [congruence|].
    rewrite lookup_fmap, E in Hw. done.
Qed.

Lemma sweep_unknown m now pid id :
  unknown_reservation m pid id → unknown_reservation (sweepLocked m now) pid id.
Proof.
  unfold unknown_reservation, ledgerFor, sweepLocked. destruct (_ <? _); [done|]. simpl.
  rewrite lookup_fmap. intros Hu.
  assert (∀ w : window, w_reservations w !! id = None → w_reservations (prune_final w) !! id = None) as Hp.
  { intros w Hw. apply map_lookup_filter_None. by left. }
  assert (∀ rw, filter (λ p : string * retiredWindow, ¬ (retireGrace < time_sub now (rw_retiredAt p.2)))
                  (m_retired m) !! pid = Some rw → m_retired m !! pid = Some rw) as Hk.
  { intros rw [? _]%map_lookup_filter_Some. done. }
  destruct (m_windows m !! pid) as [w|]; simpl in *; [destruct (w_reservations w !! id) eqn:Er; [done|];
    rewrite Hp by done; simpl in *|];
    (destruct (filter _ (m_retired m) !! pid) as [rw|] eqn:Ef; [|done]; simpl;
     rewrite (Hk _ eq_refl) in Hu; simpl in Hu; by destruct (w_reservations (rw_state rw) !! id)).
Qed.

(** A refused or rolled-back reservation leaves every usage as it was. *)
Lemma refused_reserve_usage m clk policy id est err m' pid :
  no_rollover m policy → Budget.Reserve m clk policy id est = (Err err, m') →
  Budget.Usage m' pid = Budget.Usage m pid.
Proof.
  intros Hn. unfold Budget.Reserve. destruct (invalid_reservation _ _ _ _ _); [by intros [= _ <-]|].
  pose proof (roll_usage _ policy (clk 2%nat) (sweep_no_rollover _ _ (clk 2%nat) Hn)) as Hr.
  destruct (roll _ _ _) as [w m1]. destruct Hr as (Hu&_).
  repeat case_match; intros; simplify_eq. by rewrite Hu, sweep_usage.
Qed.

Lemma rolled_back_reserve_usage m clk policy id est r m' pid :
  no_rollover m policy → unknown_reservation m (p_ID policy) id →
  in_int64 (Budget.Usage m (p_ID policy)).1 →
  Budget.Reserve m clk policy id est = (Ok r, m') →
  Budget.Usage (Budget.Release m' (p_ID policy) id).2 pid = Budget.Usage m pid.
Proof.
  intros Hn Hunk Hint. unfold Budget.Reserve. destruct (invalid_reservation _ _ _ _ _); [done|].
  pose proof (roll_usage _ policy (clk 2%nat) (sweep_no_rollover _ _ (clk 2%nat) Hn)) as Hr.
  destruct (roll _ _ _) as [w m1]. destruct Hr as (Hu&Huw&_&_&Hres).
  rewrite (Hres id) by (by apply sweep_unknown). destruct (_ && _); [done|]. intros [= _ <-].
  unfold Budget.Release, ledgerFor. simpl. rewrite lookup_insert_eq. simpl. rewrite lookup_insert_eq. simpl.
  rewrite !set_window_usage. rewrite sweep_usage in Huw. case_decide; [subst|by rewrite Hu, sweep_usage].
  simpl. rewrite Huw in *. simpl in *. f_equal. rewrite wrap64_sub_l.
  transitivity (wrap64 (w_reserved w)); [f_equal; lia|by apply wrap64_id].
Qed.

(** ** Properties of the enforcer *)

Section EnforcerLaws.
Context {L : Type} `{!BudgetLedger L}.
Implicit Types (e : budgetEnforcer L).

(** What the ledger behind its fail mode answers. *)
Definition ledger_answer (l : L) (policy : Policy) (id : string) (estimate : Z) :
    ReserveResult * option error :=
  (fail_mode_spec (if bool_decide (p_Mode policy = "soft") then FailOpen else FailClosed)
     (ledger_Reserve l (ledger_request policy id estimate)).1).1.

Definition ledger_agrees e (policy : Policy) (id : string) (estimate : Z) : Prop :=
  match e_distributed e with
  | None => True
  | Some l => (ledger_answer l policy id estimate).2 = None ∧
              rs_Reserved (ledger_answer l policy id estimate).1 = true
  end.

(** The slice the policy's current window is admitted against. *)
Definition slice_of e (policy : Policy) : SliceAuthority :=
  match e_slices e !! p_ID policy with
  | Some entry =>
      if bool_decide (se_windowStart entry = p_WindowStart policy) then se_authority entry
      else ForMode (p_ID policy) (consistencyMode (p_Consistency policy))
  | None => ForMode (p_ID policy) (consistencyMode (p_Consistency policy))
  end.

Definition slice_answer e (policy : Policy) (estimate : Z) : option error :=
  let strict := f64_of_Z (p_TokenLimit policy) in
  (Slice_Admit (slice_of e policy) sliceRegion (f64_of_Z estimate) strict
     (if bool_decide (consistencyMode (p_Consistency policy) = BudgetGlobalSoft)
      then f64_mul strict defaultSliceOvershootRatio else f64_zero)).1.

Definition slice_agrees e (policy : Policy) (estimate : Z) : Prop :=
  p_Consistency policy = "" ∨ slice_answer e policy estimate = None.

Lemma reserve_distributed_spec e policy id est :
  let out := reserve_distributed e policy id est in
  (out.1 = None ↔ ledger_agrees e policy id est) ∧
  e_slices out.2 = e_slices e ∧
  e_manager out.2 = (if out.1 is Some _ then (Budget.Release (e_manager e) (p_ID policy) id).2 else e_manager e) ∧
  e_distributed out.2 =
    (λ l, (ledger_Reserve l (ledger_request policy id est)).2) <$> e_distributed e.
Proof.
  unfold reserve_distributed, ledger_agrees, ledger_answer. destruct (e_distributed e) as [l|] eqn:El;
    [|simpl; rewrite ?El; naive_solver].
  set (f := {| fm_inner := l; fm_mode := _; fm_alerts := _ |}).
  destruct (fail_mode_reserve f (ledger_request policy id est)) as (H1&_&H3&_).
  destruct (FailMode_Reserve f _) as [[res rerr] f']. simpl in *. rewrite <- H1, <- H3. simpl.
  destruct rerr as [err|]; [naive_solver|]. destruct (rs_Reserved res); naive_solver.
Qed.

Lemma authorityFor_spec e policy :
  se_authority (authorityFor e policy).1 = slice_of e policy ∧
  e_manager (authorityFor e policy).2 = e_manager e ∧
  e_distributed (authorityFor e policy).2 = e_distributed e.
Proof. unfold authorityFor, slice_of. repeat case_match; done. Qed.

Lemma reserve_slice_spec e policy id est :
  let out := reserve_slice e policy id est in
  (out.1 = None ↔ slice_agrees e policy est) ∧
  e_manager out.2 = (if out.1 is Some _ then (Budget.Release (e_manager e) (p_ID policy) id).2 else e_manager e) ∧
  e_distributed out.2 = e_distributed e.
Proof.
  unfold reserve_slice, slice_agrees. case_bool_decide; [naive_solver|].
  pose proof (authorityFor_spec e policy) as (Ha&Hm&Hd). destruct (authorityFor e policy) as [en e'].
  simpl in *. unfold slice_answer. rewrite <- Ha.
  destruct (Slice_Admit _ _ _ _ _) as [[err|] a]; simpl; [rewrite Hm|]; naive_solver.
Qed.

Lemma recordTenant_spec e pid t :
  e_manager (recordTenant e pid t) = e_manager e ∧ e_distributed (recordTenant e pid t) = e_distributed e ∧
  e_slices (recordTenant e pid t) = e_slices e.
Proof. unfold recordTenant. by destruct (_ || _). Qed.

Lemma slice_agrees_slices e e' policy est :
  e_slices e = e_slices e' → slice_agrees e policy est ↔ slice_agrees e' policy est.
Proof. unfold slice_agrees, slice_answer, slice_of. by intros ->. Qed.

Lemma ledger_agrees_ledger e e' policy id est :
  e_distributed e = e_distributed e' → ledger_agrees e policy id est ↔ ledger_agrees e' policy id est.
Proof. unfold ledger_agrees. by intros ->. Qed.

(** Layered admission.  A request is admitted exactly when every layer that
    applies to its policy agrees: the manager's window, the distributed ledger
    under the policy's fail mode when one is wired, and the region slice when
    the policy declares a consistency mode; the reservation returned is the
    manager's. *)
Theorem enforcer_admits_iff e clk policy id est r :
  (Reserve e clk policy id est).1 = Ok r ↔
  (Budget.Reserve (e_manager e) clk policy id est).1 = Ok r ∧
  ledger_agrees e policy id est ∧ slice_agrees e policy est.
Proof.
  unfold Reserve. destruct (recordTenant_spec e (p_ID policy) (p_TenantID policy)) as (Hm&Hd&Hs).
  rewrite Hm. destruct (Budget.Reserve _ _ _ _ _) as [[r'|err] m]; [|simpl; naive_solver].
  set (e1 := set_manager _ m).
  destruct (reserve_distributed_spec e1 policy id est) as (Hiff&Hs'&_&_).
  rewrite (ledger_agrees_ledger e1 e) in Hiff by done.
  destruct (reserve_distributed e1 policy id est) as [[err|] e2]; simpl in *; [naive_solver|].
  destruct (reserve_slice_spec e2 policy id est) as (Hiff2&_).
  rewrite (slice_agrees_slices e2 e) in Hiff2 by (rewrite Hs'; exact Hs).
  destruct (reserve_slice e2 policy id est) as [[err|] e3]; simpl in *; naive_solver.
Qed.

(** A refused request leaves no trace in the window.  Whichever layer
    refuses a new reservation, the usage the manager reports is the usage
    before the call for every policy, unless the call itself rolled the
    policy's window over. *)
Theorem enforcer_refusal_rolls_back e clk policy id est err :
  no_rollover (e_manager e) policy → unknown_reservation (e_manager e) (p_ID policy) id →
  in_int64 (Usage e (p_ID policy)).1 →
  (Reserve e clk policy id est).1 = Err err →
  ∀ pid, Usage (Reserve e clk policy id est).2 pid = Usage e pid.
Proof.
  intros Hn Hunk Hint Herr pid. unfold Usage in *. revert Herr.
  unfold Reserve. destruct (recordTenant_spec e (p_ID policy) (p_TenantID policy)) as (Hm&_&_).
  rewrite Hm. destruct (Budget.Reserve _ _ _ _ _) as [[r'|err'] m] eqn:ER; [|intros _; simpl].
  - set (e1 := set_manager _ m).
    pose proof (rolled_back_reserve_usage _ _ _ _ _ _ _ pid Hn Hunk Hint ER) as Hback.
    destruct (reserve_distributed_spec e1 policy id est) as (_&_&Hm2&_).
    destruct (reserve_distributed e1 policy id est) as [[err'|] e2]; simpl in *; [by rewrite Hm2|].
    destruct (reserve_slice_spec e2 policy id est) as (_&Hm3&_).
    destruct (reserve_slice e2 policy id est) as [[err'|] e3]; simpl in *; [|done].
    by rewrite Hm3, Hm2.
  - by eapply refused_reserve_usage.
Qed.

(** The distributed ledger keeps the reservation of a request the slice
    refuses.  The manager's reservation is rolled back, but the shared ledger
    is left exactly as its own Reserve left it: no Release reaches it. *)
Theorem slice_refusal_keeps_ledger_reservation e clk policy id est r l :
  e_distributed e = Some l →
  (Budget.Reserve (e_manager e) clk policy id est).1 = Ok r →
  ledger_agrees e policy id est → ¬ slice_agrees e policy est →
  is_ok (Reserve e clk policy id est).1 = false ∧
  e_distributed (Reserve e clk policy id est).2 =
    Some (ledger_Reserve l (ledger_request policy id est)).2.
Proof.
  intros El Hr Hl Hsl. unfold Reserve.
  destruct (recordTenant_spec e (p_ID policy) (p_TenantID policy)) as (Hm&Hd&Hs).
  rewrite Hm. destruct (Budget.Reserve _ _ _ _ _) as [[r'|err] m]; [|done].
  set (e1 := set_manager _ m).
  destruct (reserve_distributed_spec e1 policy id est) as (Hiff&Hs'&_&Hd').
  rewrite (ledger_agrees_ledger e1 e) in Hiff by done.
  assert (e_distributed e1 = Some l) as El1 by (simpl; congruence). rewrite El1 in Hd'.
  destruct (reserve_distributed e1 policy id est) as [[err|] e2]; simpl in *; [naive_solver|].
  destruct (reserve_slice_spec e2 policy id est) as (Hiff2&_&Hd2).
  rewrite (slice_agrees_slices e2 e) in Hiff2 by (rewrite Hs'; exact Hs).
  destruct (reserve_slice e2 policy id est) as [[err|] e3]; simpl in *; [|naive_solver].
  split; [done|]. by rewrite Hd2.
Qed.

Lemma syncSlice_mirrors e pid entry c :
  e_slices e !! pid = Some entry → sa_slices (se_authority entry) !! sliceRegion = Some c →
  e_manager (syncSlice e pid) = e_manager e ∧
  ∃ entry', e_slices (syncSlice e pid) !! pid = Some entry' ∧
    sa_slices (se_authority entry') !! sliceRegion =
      Some {| sc_strict := sc_strict c;
              sc_used := f64_of_Z (wrap64 ((Usage e pid).1 + (Usage e pid).2)) |}.
Proof.
  intros He Hc. unfold syncSlice, Usage. rewrite He. destruct (Budget.Usage _ _) as [rs cs].
  unfold Slice_Reconcile. rewrite Hc. simpl. split; [done|].
  eexists. split; [apply lookup_insert_eq|]. simpl. by rewrite lookup_insert_eq.
Qed.

Definition enforcer_settle e (pid rid : string) (actual : option Z) : option error * budgetEnforcer L :=
  match actual with Some a => Reconcile e pid rid a | None => Release e pid rid end.

(** The slice mirrors the window after a settlement.  When Reconcile or
    Release succeeds on a policy whose slice has admitted anything, the slice's
    counter equals the reserved plus consumed tokens of the manager's window,
    and its strict bound is untouched. *)
Theorem slice_mirrors_manager e pid rid actual entry c :
  e_slices e !! pid = Some entry → sa_slices (se_authority entry) !! sliceRegion = Some c →
  (enforcer_settle e pid rid actual).1 = None →
  let e' := (enforcer_settle e pid rid actual).2 in
  ∃ entry', e_slices e' !! pid = Some entry' ∧
    sa_slices (se_authority entry') !! sliceRegion =
      Some {| sc_strict := sc_strict c;
              sc_used := f64_of_Z (wrap64 ((Usage e' pid).1 + (Usage e' pid).2)) |}.
Proof.
  intros He Hc. assert (∀ e2, e_slices e2 = e_slices e → let e' := syncSlice e2 pid in
    ∃ entry', e_slices e' !! pid = Some entry' ∧ sa_slices (se_authority entry') !! sliceRegion =
      Some {| sc_strict := sc_strict c;
              sc_used := f64_of_Z (wrap64 ((Usage e' pid).1 + (Usage e' pid).2)) |}) as Hsync.
  { intros e2 Hs. rewrite <- Hs in He. destruct (syncSlice_mirrors e2 pid _ _ He Hc) as [Hm Hex].
    intros e'. unfold Usage in *. unfold e'. by rewrite Hm. }
  destruct actual as [a|]; simpl; [unfold Reconcile|unfold Release];
    (destruct (_ (e_manager e) pid rid) as [[err|] m] || destruct (_ (e_manager e) pid rid a) as [[err|] m]);
    simpl; try done; intros _; apply Hsync; repeat case_match; done.
Qed.
End EnforcerLaws.

(** ** Concrete instances of the properties *)

Definition regional_policy (limit : Z) : Policy :=
  {| p_ID := "p"; p_TenantID := "t"; p_ProjectID := "pr"; p_KeyID := "k"; p_Mode := "hard";
     p_Consistency := "regional"; p_TokenLimit := limit; p_WindowStart := 0; p_WindowEnd := 24 * hour |}.

(** One request of 60 tokens admitted by all three layers. *)
Definition layered : budgetEnforcer MemoryBudgetLedger :=
  (Reserve (withDistributedLedger (newBudgetEnforcer (New 0)) NewMemoryBudgetLedger)
     (at_time 1) (regional_policy 100) "a" 60).2.

Lemma enforcer_refusal_rolls_back_witness :
  (Reserve layered (at_time 2) (regional_policy 200) "b" 70).1 = Err ErrSliceOvershoot ∧
  Usage (Reserve layered (at_time 2) (regional_policy 200) "b" 70).2 "p" = Usage layered "p".
Proof.
  split; [vm_compute; reflexivity|].
  apply (enforcer_refusal_rolls_back layered (at_time 2) (regional_policy 200) "b" 70 ErrSliceOvershoot).
  - intros w. vm_compute. intros [= <-]. reflexivity.
  - vm_compute. reflexivity.
  - vm_compute. split; discriminate.
  - vm_compute. reflexivity.
Defined.

(** The tenant raises its limit from 100 to 200 within the window: the manager
    and the ledger take the new request, the slice still enforces 100, and the
    ledger goes on counting the 70 tokens of the refused request. *)
Lemma slice_refusal_keeps_ledger_reservation_witness :
  let key := w_Key (hd {| w_Key := ""; w_Limit := f64_zero; w_TTL := 0 |}
                       (distributedWindows (regional_policy 200))) in
  let e' := (Reserve layered (at_time 2) (regional_policy 200) "b" 70).2 in
  Usage e' "p" = (60, 0) ∧
  (λ l, ledger_counter l "t" key) <$> e_distributed e' = Some (f64_of_Z 130).
Proof.
  intros key e'. split; [vm_compute; reflexivity|].
  unfold e'.
  destruct (slice_refusal_keeps_ledger_reservation layered (at_time 2) (regional_policy 200) "b" 70
    {| r_ID := "b"; r_PolicyID := "p"; r_EstimatedTokens := 70; r_Warning := false |}
    (default NewMemoryBudgetLedger (e_distributed layered))) as [_ ->].
  - vm_compute. reflexivity.
  - vm_compute. reflexivity.
  - vm_compute. done.
  - vm_compute. intros [H|H]; discriminate.
  - vm_compute. reflexivity.
Defined.

Lemma slice_mirrors_manager_witness :
  ∃ entry', e_slices (Reconcile layered "p" "a" 45).2 !! "p" = Some entry' ∧
    sa_slices (se_authority entry') !! sliceRegion =
      Some {| sc_strict := f64_of_Z 100; sc_used := f64_of_Z 45 |}.
Proof.
  eapply (slice_mirrors_manager layered "p" "a" (Some 45)
    {| se_authority := {| sa_window := "p"; sa_regional := true;
         sa_slices := {[ sliceRegion := {| sc_strict := f64_of_Z 100; sc_used := f64_of_Z 60 |} ]} |};
       se_windowStart := 0 |} {| sc_strict := f64_of_Z 100; sc_used := f64_of_Z 60 |});
    vm_compute; reflexivity.
Defined.
