(* ===== verification/Rate.v ===== *)
(** * Request and token rates: internal/policy/rate/limiter.go

    [Limiter] is the in-process requests-per-minute token bucket: scopes are
    spread over sixteen lock shards by FNV-1a, tokens are float64, idle buckets
    are swept.  [Meter] is the fixed-window tokens-per-minute meter with
    estimate-then-reconcile.  [now] is the reading of the UTC clock a call makes;
    a call that takes several shard locks is one step here, since each shard is
    only read and written under its own lock. *)

From S2P Require Import Prelude GoFloat.

Open Scope string_scope.
Open Scope Z_scope.

(** ** The request limiter *)

Record Policy := { RequestsPerMinute : Z; Burst : Z }.
Record Decision := { Allowed : bool; RetryAfter : Z }.
Record bucket := { b_tokens : float64; b_last : Z }.

Definition sweepInterval : Z := 60 * second.
Definition idleTTL : Z := 10 * minute.
Definition shardCount : nat := 16.

Record shard := { s_buckets : gmap string bucket; s_lastSweep : Z }.
Record Limiter := { l_shards : list shard }.

Definition New (now : Z) : Limiter :=
  {| l_shards := replicate shardCount {| s_buckets := ∅; s_lastSweep := now |} |}.

(** One byte of FNV-1a: [h ^= uint32(b); h *= 16777619]. *)
Definition fnv_step (h : Z) (b : Ascii.ascii) : Z :=
  wrapu32 (Z.lxor h (Z.of_N (Ascii.N_of_ascii b)) * 16777619).

Definition shardIndex (key : string) : nat :=
  Z.to_nat (foldl fnv_step 2166136261 (String.list_ascii_of_string key) mod Z.of_nat shardCount).

Definition shard_sweepLocked (s : shard) (now : Z) : shard :=
  if time_sub now (s_lastSweep s) <? sweepInterval then s
  else {| s_buckets := filter (λ p : string * bucket, ¬ (idleTTL <= time_sub now (b_last p.2))) (s_buckets s);
          s_lastSweep := now |}.

Definition sweepDue (l : Limiter) (now : Z) : Limiter :=
  {| l_shards := (λ s, shard_sweepLocked s now) <$> l_shards l |}.

Definition shard_at (l : Limiter) (key : string) : shard :=
  default {| s_buckets := ∅; s_lastSweep := 0 |} (l_shards l !! shardIndex key).

Definition bucketExists (l : Limiter) (key : string) : bool :=
  bool_decide (is_Some (s_buckets (shard_at l key) !! key)).

(** [d.Minutes()]. *)
Definition minutes (d : Z) : float64 :=
  f64_add (f64_of_Z (Z.quot d minute)) (f64_div (f64_of_Z (Z.rem d minute)) (f64_of_Z minute)).

Definition scope_key (tenantID projectID : string) : string := tenantID +:+ ":" +:+ projectID.

(** The decision on one bucket. *)
Definition bucket_allow (state : bucket) (policy : Policy) (now : Z) : Decision * bucket :=
  let elapsed := minutes (time_sub now (b_last state)) in
  let elapsed := if f64_ltb elapsed f64_zero then f64_zero else elapsed in
  let tokens := f64_bmin (f64_of_Z (Burst policy))
                  (f64_add (b_tokens state) (f64_mul elapsed (f64_of_Z (RequestsPerMinute policy)))) in
  if f64_geb tokens f64_one
  then ({| Allowed := true; RetryAfter := 0 |}, {| b_tokens := f64_sub tokens f64_one; b_last := now |})
  else
    let missing := f64_sub f64_one tokens in
    ({| Allowed := false;
        RetryAfter := f64_to_i64 (f64_mul (f64_div missing (f64_of_Z (RequestsPerMinute policy)))
                                    (f64_of_Z minute)) |},
     {| b_tokens := tokens; b_last := now |}).

Definition Allow (l : Limiter) (now : Z) (tenantID projectID : string) (policy : Policy) :
    Decision * Limiter :=
  if (RequestsPerMinute policy <=? 0) || (Burst policy <=? 0)
  then ({| Allowed := false; RetryAfter := minute |}, l)
  else
    let key := scope_key tenantID projectID in
    let l := sweepDue l now in
    let s := shard_at l key in
    let state := default {| b_tokens := f64_of_Z (Burst policy); b_last := now |} (s_buckets s !! key) in
    let '(d, state) := bucket_allow state policy now in
    (d, {| l_shards := <[shardIndex key := {| s_buckets := <[key := state]> (s_buckets s);
                                              s_lastSweep := s_lastSweep s |}]> (l_shards l) |}).

(** ** The token meter *)

Record TPMDecision := { t_Allowed : bool; t_RetryAfter : Z }.
Record tpmBucket := { tb_window : Z; tb_used : Z }.

(** The cap of a scope, zero or negative when the meter is off for it. *)
Definition TPMPolicyFunc := string → string → Z.

Record Meter := { m_policy : option TPMPolicyFunc; m_scopes : gmap string tpmBucket }.

Definition NewMeter (policy : option TPMPolicyFunc) : Meter := {| m_policy := policy; m_scopes := ∅ |}.

(** Year, day of the year, hour and minute agree exactly when the times fall in
    the same minute of the UTC day count. *)
Definition sameMinute (a b : Z) : bool := a / minute =? b / minute.

Definition nextMinute (now : Z) : Z := now / minute * minute + minute.

Definition meter_limit (m : Meter) (tenantID projectID : string) : Z :=
  match m_policy m with Some f => f tenantID projectID | None => 0 end.

Definition set_scope (m : Meter) (key : string) (b : tpmBucket) : Meter :=
  {| m_policy := m_policy m; m_scopes := <[key := b]> (m_scopes m) |}.

Definition Reserve (m : Meter) (now : Z) (tenantID projectID : string) (estimated : Z) :
    (TPMDecision * Z) * Meter :=
  let limit := meter_limit m tenantID projectID in
  if (limit <=? 0) || (estimated <=? 0) then (({| t_Allowed := true; t_RetryAfter := 0 |}, -1), m)
  else
    let key := scope_key tenantID projectID in
    let fresh := {| tb_window := now; tb_used := 0 |} in
    let '(state, m) :=
      match m_scopes m !! key with
      | Some state => if sameMinute (tb_window state) now then (state, m) else (fresh, set_scope m key fresh)
      | None => (fresh, set_scope m key fresh)
      end in
    if limit <? wrap64 (tb_used state + estimated) then
      (({| t_Allowed := false; t_RetryAfter := time_sub (nextMinute now) now |}, -1), m)
    else
      let m := set_scope m key {| tb_window := tb_window state; tb_used := wrap64 (tb_used state + estimated) |} in
      (({| t_Allowed := true; t_RetryAfter := 0 |}, Z.of_nat (size (m_scopes m))), m).

Definition Reconcile (m : Meter) (now : Z) (tenantID projectID : string) (estimated actual : Z) : Meter :=
  if (estimated <=? 0) && (actual <=? 0) then m
  else
    let key := scope_key tenantID projectID in
    match m_scopes m !! key with
    | None => m
    | Some state =>
        if negb (sameMinute (tb_window state) now) then m
        else
          let used := wrap64 (wrap64 (tb_used state - estimated) + actual) in
          set_scope m key {| tb_window := tb_window state; tb_used := if used <? 0 then 0 else used |}
    end.

Definition windowState (m : Meter) (tenantID projectID : string) : Z * Z * Z * bool :=
  let limit := meter_limit m tenantID projectID in
  match m_scopes m !! scope_key tenantID projectID with
  | None => (zero_time, 0, limit, false)
  | Some state => (tb_window state, tb_used state, limit, true)
  end.

(** ** The limiter's shards *)

Lemma shardIndex_bound key : (shardIndex key < shardCount)%nat.
Proof.
  unfold shardIndex. set (h := foldl _ _ _).
  pose proof (Z.mod_pos_bound h (Z.of_nat shardCount)). unfold shardCount in *. lia.
Qed.

(** Every shard exists. *)
Definition wf (l : Limiter) : Prop := length (l_shards l) = shardCount.

Lemma wf_shard l key : wf l → l_shards l !! shardIndex key = Some (shard_at l key).
Proof.
  intros Hwf. unfold shard_at. destruct (l_shards l !! shardIndex key) eqn:E; [done|].
  apply lookup_ge_None in E. pose proof (shardIndex_bound key). unfold wf in Hwf. lia.
Qed.

Lemma wf_sweep l now : wf l → wf (sweepDue l now).
Proof. unfold wf, sweepDue. simpl. by rewrite length_fmap. Qed.

Lemma wf_allow l now t p pol : wf l → wf (Allow l now t p pol).2.
Proof.
  intros Hwf. unfold Allow. destruct (_ || _); [done|]. destruct (bucket_allow _ _ _) as [d st].
  unfold wf. simpl. rewrite length_insert, length_fmap. done.
Qed.

Definition scope_bucket (l : Limiter) (key : string) : option bucket := s_buckets (shard_at l key) !! key.

Lemma scope_bucket_sweep l now key b :
  wf l → scope_bucket l key = Some b → time_sub now (b_last b) < idleTTL →
  scope_bucket (sweepDue l now) key = Some b.
Proof.
  intros Hwf Hb Hidle. unfold scope_bucket, shard_at, sweepDue. simpl.
  rewrite list_lookup_fmap, wf_shard by done. simpl. unfold shard_sweepLocked.
  destruct (_ <? _); [done|]. simpl. apply map_lookup_filter_Some. split; [done|]. simpl. lia.
Qed.

Lemma scope_bucket_sweep_inv l now key b :
  wf l → scope_bucket (sweepDue l now) key = Some b → scope_bucket l key = Some b.
Proof.
  intros Hwf. unfold scope_bucket, shard_at at 1, sweepDue. simpl.
  rewrite list_lookup_fmap, wf_shard by done. simpl. unfold shard_sweepLocked.
  destruct (_ <? _); [done|]. simpl. by intros [? _]%map_lookup_filter_Some.
Qed.

(** What [Allow] does to the bucket of any scope: it only writes its own. *)
Lemma scope_bucket_allow l now t p pol key :
  wf l → 0 < RequestsPerMinute pol → 0 < Burst pol →
  scope_bucket (Allow l now t p pol).2 key =
    if decide (key = scope_key t p) then
      Some (bucket_allow (default {| b_tokens := f64_of_Z (Burst pol); b_last := now |}
                            (scope_bucket (sweepDue l now) (scope_key t p))) pol now).2
    else scope_bucket (sweepDue l now) key.
Proof.
  intros Hwf Hr Hb. unfold Allow. destruct (Z.leb_spec (RequestsPerMinute pol) 0); [lia|].
  destruct (Z.leb_spec (Burst pol) 0); [lia|]. simpl. fold (scope_bucket (sweepDue l now) (scope_key t p)).
  destruct (bucket_allow _ _ _) as [d st]. simpl. unfold scope_bucket, shard_at at 1. simpl.
  pose proof (wf_shard _ (scope_key t p) (wf_sweep _ now Hwf)) as Hs.
  destruct (decide (shardIndex key = shardIndex (scope_key t p))) as [Hi|Hi].
  - rewrite Hi, list_lookup_insert_eq by (by apply lookup_lt_Some in Hs). simpl.
    rewrite lookup_insert. unfold shard_at. rewrite Hi. repeat case_decide; congruence.
  - rewrite list_lookup_insert_ne by congruence. rewrite decide_False by congruence. done.
Qed.

(** A call on the limiter, as data. *)
Record rpm_call := { c_now : Z; c_tenant : string; c_project : string; c_policy : Policy }.

Definition rpm_exec (l : Limiter) (c : rpm_call) : Limiter :=
  (Allow l (c_now c) (c_tenant c) (c_project c) (c_policy c)).2.

Definition call_key (c : rpm_call) : string := scope_key (c_tenant c) (c_project c).

Lemma wf_history l calls : wf l → wf (foldl rpm_exec l calls).
Proof. apply (foldl_invariant wf). intros a b. apply wf_allow. Qed.

Lemma wf_New now : wf (New now).
Proof. reflexivity. Qed.

(** A bucket used within the idle time before [now] is still there. *)
Definition fresh_at (now : Z) (l : Limiter) (key : string) : Prop :=
  ∀ b, scope_bucket l key = Some b → time_sub now (b_last b) < idleTTL.

Lemma sweep_keeps_fresh l now' now key :
  wf l → now' <= now → fresh_at now l key → scope_bucket (sweepDue l now') key = scope_bucket l key.
Proof.
  intros Hwf Hle Hf. destruct (scope_bucket l key) as [b|] eqn:E.
  - apply scope_bucket_sweep; [done|done|]. pose proof (Hf _ E). pose proof (time_sub_mono now' now (b_last b)). lia.
  - destruct (scope_bucket (sweepDue l now') key) eqn:E'; [|done].
    apply scope_bucket_sweep_inv in E'; [congruence|done].
Qed.

Lemma others_keep_bucket l now key calls :
  wf l → fresh_at now l key → Forall (λ c, call_key c ≠ key ∧ c_now c <= now) calls →
  scope_bucket (foldl rpm_exec l calls) key = scope_bucket l key.
Proof.
  intros Hwf Hf Hc. revert l Hwf Hf. induction Hc as [|c calls [Hk Hle] _ IH]; intros l Hwf Hf; [done|].
  assert (scope_bucket (rpm_exec l c) key = scope_bucket l key) as Hone.
  { unfold rpm_exec. destruct (decide (0 < RequestsPerMinute (c_policy c) ∧ 0 < Burst (c_policy c))) as [[? ?]|Hn].
    - rewrite scope_bucket_allow by done. rewrite decide_False by (unfold call_key in Hk; congruence).
      by apply (sweep_keeps_fresh l (c_now c) now).
    - unfold Allow. destruct (Z.leb_spec (RequestsPerMinute (c_policy c)) 0); [done|].
      destruct (Z.leb_spec (Burst (c_policy c)) 0); [done|lia]. }
  simpl. rewrite IH; [done|by apply wf_allow|]. intros b Hb. apply Hf. congruence.
Qed.

Lemma allow_decision l now t p pol :
  (Allow l now t p pol).1 =
    if (RequestsPerMinute pol <=? 0) || (Burst pol <=? 0)
    then {| Allowed := false; RetryAfter := minute |}
    else (bucket_allow (default {| b_tokens := f64_of_Z (Burst pol); b_last := now |}
            (scope_bucket (sweepDue l now) (scope_key t p))) pol now).1.
Proof.
  unfold Allow, scope_bucket. destruct (_ || _); [done|]. by destruct (bucket_allow _ _ _).
Qed.

(** One tenant's traffic never throttles another.  After any history, any
    number of calls for other scopes, with any policies, leaves the decision a
    scope gets at a later time exactly as it would have been without them, as
    long as its bucket has not been idle long enough to be swept. *)
Theorem rpm_scope_isolation start history others now t p pol :
  let l := foldl rpm_exec (New start) history in
  fresh_at now l (scope_key t p) →
  Forall (λ c, call_key c ≠ scope_key t p ∧ c_now c <= now) others →
  (Allow (foldl rpm_exec l others) now t p pol).1 = (Allow l now t p pol).1.
Proof.
  intros l Hf Ho. assert (wf l) as Hwf by apply wf_history, wf_New.
  rewrite !allow_decision. destruct (_ || _); [done|].
  pose proof (others_keep_bucket _ _ _ _ Hwf Hf Ho) as Hb.
  rewrite (sweep_keeps_fresh (foldl rpm_exec l others) now now); [|by apply wf_history|lia|].
  - by rewrite Hb, (sweep_keeps_fresh l now now).
  - intros b. rewrite Hb. apply Hf.
Qed.

Lemma rpm_scope_isolation_witness :
  let pol := {| RequestsPerMinute := 60; Burst := 2 |} in
  let call t now := {| c_now := now; c_tenant := t; c_project := "p"; c_policy := pol |} in
  let l := foldl rpm_exec (New 0) [call "a" 1] in
  (Allow (foldl rpm_exec l [call "b" 2; call "b" 3; call "b" 4]) (2 * second) "a" "p" pol).1 =
  (Allow l (2 * second) "a" "p" pol).1.
Proof.
  intros pol call l.
  apply (rpm_scope_isolation 0 [call "a" 1] [call "b" 2; call "b" 3; call "b" 4] (2 * second) "a" "p" pol).
  - intros b Hb. assert (b_last <$> scope_bucket l (scope_key "a" "p") = Some 1) as Hl
      by (vm_compute; reflexivity).
    change (scope_bucket l (scope_key "a" "p") = Some b) in Hb.
    rewrite Hb in Hl. injection Hl as ->. reflexivity.
  - repeat constructor; done.
Defined.

(** A burst of two at one instant, the third request waits a second. *)
Example burst_of_two :
  let pol := {| RequestsPerMinute := 60; Burst := 2 |} in
  let l := New 0 in
  let '(d1, l) := Allow l 1 "a" "p" pol in
  let '(d2, l) := Allow l 1 "a" "p" pol in
  let '(d3, l) := Allow l 1 "a" "p" pol in
  (Allowed d1, Allowed d2, d3) = (true, true, {| Allowed := false; RetryAfter := second |}).
Proof. vm_compute. reflexivity. Qed.

(** ** The meter *)

(** Calls on the meter as data; a settlement never reports more tokens than
    were reserved. *)
Inductive tpm_call :=
| TReserve (now : Z) (tenant project : string) (estimated : Z)
| TReconcile (now : Z) (tenant project : string) (estimated actual : Z).

Definition tpm_exec (m : Meter) (c : tpm_call) : Meter :=
  match c with
  | TReserve now t p e => (Reserve m now t p e).2
  | TReconcile now t p e a => Reconcile m now t p e a
  end.

Definition tpm_call_ok (limit : Z) (c : tpm_call) : Prop :=
  match c with
  | TReserve _ _ _ e => e <= max_int64 - limit
  | TReconcile _ _ _ e a => 0 <= a <= e ∧ e <= max_int64
  end.

Definition meter_within (limit : Z) (m : Meter) : Prop :=
  m_policy m = Some (λ _ _, limit) ∧ ∀ key b, m_scopes m !! key = Some b → 0 <= tb_used b <= limit.

Lemma set_scope_within limit m key b :
  meter_within limit m → 0 <= tb_used b <= limit → meter_within limit (set_scope m key b).
Proof.
  intros [Hp Hm] Hb. split; [done|]. simpl. intros k b'. rewrite lookup_insert. case_decide; [|eauto].
  by intros [= <-].
Qed.

Lemma tpm_step_within limit m c :
  0 <= limit <= max_int64 → tpm_call_ok limit c → meter_within limit m → meter_within limit (tpm_exec m c).
Proof.
  intros Hl Hok Hm. destruct c as [now t p e|now t p e a]; simpl in *.
  - unfold Reserve, meter_limit. rewrite (proj1 Hm). destruct (Z.leb_spec limit 0); [done|].
    destruct (Z.leb_spec e 0); [done|]. simpl.
    assert (meter_within limit (set_scope m (scope_key t p) {| tb_window := now; tb_used := 0 |})) as Hfresh
      by (apply set_scope_within; simpl; [done|lia]).
    assert (∀ st m', meter_within limit m' → 0 <= tb_used st <= limit →
      meter_within limit
        (if limit <? wrap64 (tb_used st + e)
         then (({| t_Allowed := false; t_RetryAfter := time_sub (nextMinute now) now |}, -1), m')
         else let m2 := set_scope m' (scope_key t p)
                    {| tb_window := tb_window st; tb_used := wrap64 (tb_used st + e) |} in
              (({| t_Allowed := true; t_RetryAfter := 0 |}, Z.of_nat (size (m_scopes m2))), m2)).2) as Hfin.
    { intros st m' Hm' Hst. rewrite wrap64_id by (unfold_ints; lia).
      destruct (Z.ltb_spec limit (tb_used st + e)); [done|]. apply set_scope_within; [done|simpl; lia]. }
    destruct (m_scopes m !! scope_key t p) as [st|] eqn:E; [destruct (sameMinute _ _)|];
      apply Hfin; simpl; first [done|lia|by apply (proj2 Hm _ _ E)].
  - unfold Reconcile. destruct (_ && _); [done|]. destruct (m_scopes m !! scope_key t p) as [st|] eqn:E; [|done].
    destruct (negb _); [done|]. pose proof (proj2 Hm _ _ E). apply set_scope_within; [done|]. simpl.
    rewrite wrap64_add_l. destruct (Z.ltb_spec (wrap64 (tb_used st - e + a)) 0) as [Hneg|Hpos]; [lia|].
    rewrite wrap64_id in * by (unfold_ints; lia). lia.
Qed.

(** The token meter never admits past the cap.  With one cap for the scopes
    and estimates below the int64 headroom, after any sequence of reservations and
    settlements (reporting at most what was reserved, in any minute) the recorded
    usage of every scope lies between zero and the cap. *)
Theorem tpm_within_cap limit calls t p :
  0 <= limit <= max_int64 → Forall (tpm_call_ok limit) calls →
  let m := foldl tpm_exec (NewMeter (Some (λ _ _, limit))) calls in
  let '(_, used, cap, _) := windowState m t p in 0 <= used <= cap.
Proof.
  intros Hl Hc m. assert (meter_within limit m) as Hm.
  { subst m. assert (meter_within limit (NewMeter (Some (λ _ _, limit)))) as H0.
    { split; [done|]. intros k b. simpl. by rewrite lookup_empty. }
    revert H0. generalize (NewMeter (Some (λ _ _ : string, limit))).
    induction Hc as [|c calls Hok _ IH]; intros m Hm; [done|]. simpl. by apply IH, tpm_step_within. }
  unfold windowState, meter_limit. rewrite (proj1 Hm).
  destruct (m_scopes m !! scope_key t p) as [b|] eqn:E; [by apply (proj2 Hm _ _ E)|lia].
Qed.

Lemma tpm_within_cap_witness :
  let m := foldl tpm_exec (NewMeter (Some (λ _ _, 100)))
             [TReserve 0 "t" "p" 70; TReserve 1 "t" "p" 70; TReconcile 2 "t" "p" 70 40] in
  let '(_, used, cap, _) := windowState m "t" "p" in 0 <= used <= cap.
Proof.
  apply (tpm_within_cap 100 [TReserve 0 "t" "p" 70; TReserve 1 "t" "p" 70; TReconcile 2 "t" "p" 70 40] "t" "p").
  - unfold_ints. lia.
  - repeat apply Forall_cons_2; [simpl; unfold_ints; lia..|apply Forall_nil_2].
Defined.

(** Usage a scope shows at a time. *)
Definition used_at (m : Meter) (t p : string) : Z := (windowState m t p).1.1.2.

Lemma reserve_opens_window m now t p e cap :
  m_policy m = Some (λ _ _, cap) → 0 < e <= cap → cap <= max_int64 →
  (∀ st, m_scopes m !! scope_key t p = Some st → sameMinute (tb_window st) now = false) →
  m_scopes (Reserve m now t p e).2 !! scope_key t p = Some {| tb_window := now; tb_used := e |} ∧
  m_policy (Reserve m now t p e).2 = m_policy m.
Proof.
  intros Hp He Hcap Hst. unfold Reserve, meter_limit. rewrite Hp.
  destruct (Z.leb_spec cap 0); [lia|]. destruct (Z.leb_spec e 0); [lia|]. simpl.
  destruct (m_scopes m !! scope_key t p) as [st|]; [rewrite (Hst st eq_refl)|]; simpl;
    rewrite Z.add_0_l, wrap64_id by (unfold_ints; lia); (destruct (Z.ltb_spec cap e); [lia|]); simpl;
    rewrite lookup_insert_eq; done.
Qed.

(** A settlement that arrives after the minute has turned is applied to the
    next window.  If a first request reserved [e1] tokens in one minute and
    another request of the scope opened the following window with [e2], settling
    the first at [a1] moves the new window's usage to [max 0 (e2 - e1 + a1)]:
    the overestimate of the old request is refunded to the new window. *)
Theorem late_settlement_refunds_next_window m now1 now2 t p e1 e2 a1 cap :
  m_policy m = Some (λ _ _, cap) → m_scopes m !! scope_key t p = None →
  0 < e1 <= cap → 0 < e2 <= cap → 0 <= a1 <= e1 → cap <= max_int64 →
  sameMinute now1 now2 = false →
  let m1 := (Reserve m now1 t p e1).2 in
  let m2 := (Reserve m1 now2 t p e2).2 in
  used_at m2 t p = e2 ∧ used_at (Reconcile m2 now2 t p e1 a1) t p = Z.max 0 (e2 - e1 + a1).
Proof.
  intros Hp Hnone He1 He2 Ha Hcap Hmin m1 m2.
  destruct (reserve_opens_window m now1 t p e1 cap) as [Hs1 Hp1]; [done..| |].
  { intros st Hst. congruence. }
  destruct (reserve_opens_window m1 now2 t p e2 cap) as [Hs2 _]; [by unfold m1; rewrite Hp1|done..| |].
  { intros st Hst. unfold m1 in Hst. rewrite Hs1 in Hst. by injection Hst as <-. }
  fold m2 in Hs2. unfold used_at, windowState. rewrite Hs2. split; [done|].
  unfold Reconcile. destruct (Z.leb_spec e1 0); [lia|]. simpl. rewrite Hs2. simpl.
  assert (sameMinute now2 now2 = true) as -> by apply Z.eqb_refl. simpl. rewrite lookup_insert_eq. simpl.
  rewrite wrap64_add_l, wrap64_id by (unfold_ints; lia).
  destruct (Z.ltb_spec (e2 - e1 + a1) 0); lia.
Qed.

(** With a cap of 100: the settlement of last minute's request clears the 60
    tokens in use now, and a further 100 are admitted in the same minute. *)
Lemma late_settlement_refunds_next_window_witness :
  let m := NewMeter (Some (λ _ _, 100)) in
  let m1 := (Reserve m (59 * second) "t" "p" 100).2 in
  let m2 := (Reserve m1 (61 * second) "t" "p" 60).2 in
  let m3 := Reconcile m2 (61 * second) "t" "p" 100 10 in
  used_at m2 "t" "p" = 60 ∧ used_at m3 "t" "p" = 0 ∧
  t_Allowed (Reserve m3 (62 * second) "t" "p" 100).1.1 = true.
Proof.
  destruct (late_settlement_refunds_next_window (NewMeter (Some (λ _ _, 100))) (59 * second) (61 * second)
    "t" "p" 100 60 10 100) as [H1 H2]; try done.
Defined.
