(* ===== verification/Redis.v ===== *)
(** * Coordination over Redis

    platform/coordination/redisledger.go, redisleases.go and redisinflight.go, and
    policy/rate/redis.go: the shared implementations of the contracts in Coordination.v
    and Rate.v.  Their logic is in Lua scripts, which the server runs atomically; each
    script is one definition here.

    The server is a store per kind of key (the program's keys of different kinds have
    different names).  A key has an optional time, in milliseconds of the server's clock
    [T], after which it is gone; the replicas' clocks [now] are independent of it.  A Lua
    number that a script stores reads back as the same double (it is written with 17
    digits); what INCRBYFLOAT adds in long double, and what tostring keeps of a double,
    are parameters.  Integer counters are exact below 2^53.  A call may be lost on the
    way, with or without having been applied. *)

From stdpp Require Import pretty.
From S2P Require Import Prelude GoFloat GoStd Coordination Rate.

Open Scope string_scope.
Open Scope Z_scope.

(** ** The server *)

Class RedisFloat := { incrbyfloat : float64 → float64 → float64; tostring14 : float64 → float64 }.

(** The hash of a reservation: its fields status, estimate, wc and w0, w1, ... *)
Record reservation_hash := { rh_status : string; rh_estimate : float64; rh_windows : list string }.

Record Redis := {
  rd_numbers : gmap string (float64 * option Z);
  rd_reservations : gmap string (reservation_hash * option Z);
  rd_zsets : gmap string (gmap string Z * option Z);
  rd_ints : gmap string (Z * option Z);
  rd_buckets : gmap string (float64 * Z * option Z) }.

Definition NewRedis : Redis := {| rd_numbers := ∅; rd_reservations := ∅; rd_zsets := ∅; rd_ints := ∅; rd_buckets := ∅ |}.

(** A key is gone once its time has passed. *)
Definition gone (T : Z) (at_ : option Z) : bool := match at_ with Some when => when <? T | None => false end.

Definition fetch {V} (T : Z) (m : gmap string (V * option Z)) (key : string) : option (V * option Z) :=
  match m !! key with
  | Some (v, at_) => if gone T at_ then None else Some (v, at_)
  | None => None
  end.
Definition value {V} (T : Z) (m : gmap string (V * option Z)) (key : string) : option V := fst <$> fetch T m key.

(** PEXPIRE: a time to live that is not positive deletes the key. *)
Definition pexpire {V} (T : Z) (m : gmap string (V * option Z)) (key : string) (ttl : Z) : gmap string (V * option Z) :=
  match fetch T m key with
  | Some (v, _) => if ttl <=? 0 then delete key m else <[key := (v, Some (T + ttl))]> m
  | None => m
  end.

Definition with_numbers (r : Redis) m : Redis :=
  {| rd_numbers := m; rd_reservations := rd_reservations r; rd_zsets := rd_zsets r; rd_ints := rd_ints r; rd_buckets := rd_buckets r |}.
Definition with_reservations (r : Redis) m : Redis :=
  {| rd_numbers := rd_numbers r; rd_reservations := m; rd_zsets := rd_zsets r; rd_ints := rd_ints r; rd_buckets := rd_buckets r |}.
Definition with_zsets (r : Redis) m : Redis :=
  {| rd_numbers := rd_numbers r; rd_reservations := rd_reservations r; rd_zsets := m; rd_ints := rd_ints r; rd_buckets := rd_buckets r |}.
Definition with_ints (r : Redis) m : Redis :=
  {| rd_numbers := rd_numbers r; rd_reservations := rd_reservations r; rd_zsets := rd_zsets r; rd_ints := m; rd_buckets := rd_buckets r |}.
Definition with_buckets (r : Redis) m : Redis :=
  {| rd_numbers := rd_numbers r; rd_reservations := rd_reservations r; rd_zsets := rd_zsets r; rd_ints := rd_ints r; rd_buckets := m |}.

(** Sorted sets: a missing one is empty, and an emptied one is deleted. *)
Definition zset (T : Z) (r : Redis) (key : string) : gmap string Z := default ∅ (value T (rd_zsets r) key).

Definition put_zset (T : Z) (r : Redis) (key : string) (members : gmap string Z) : Redis :=
  with_zsets r (if bool_decide (members = ∅) then delete key (rd_zsets r)
                else <[key := (members, fetch T (rd_zsets r) key ≫= snd)]> (rd_zsets r)).

Definition zadd (T : Z) (r : Redis) (key : string) (score : Z) (member : string) : Redis :=
  put_zset T r key (<[member := score]> (zset T r key)).
Definition zrem (T : Z) (r : Redis) (key member : string) : Redis := put_zset T r key (delete member (zset T r key)).

(** ZREMRANGEBYSCORE key -inf max. *)
Definition zremrange (T : Z) (r : Redis) (key : string) (max : Z) : Redis :=
  put_zset T r key (filter (λ p : string * Z, max < p.2) (zset T r key)).

(** How a call fares: it is answered, or its answer is lost. *)
Inductive link := Answers | Drops (applied : bool) (context : bool) (err : error).

Definition run_script {A} (l : link) (r : Redis) (script : Redis → A * Redis) : result A * Redis :=
  match l with
  | Answers => let '(a, r) := script r in (Ok a, r)
  | Drops applied _ err => (Err err, if applied then (script r).2 else r)
  end.

(** ** redisledger.go *)

Section Redis.
Context `{!RedisFloat}.

Record RedisBudgetLedger := { rl_ttl : Z }.

Definition NewRedisBudgetLedger (reservationTTL : Z) : RedisBudgetLedger :=
  {| rl_ttl := if reservationTTL <=? 0 then hour else reservationTTL |}.

Definition milliseconds_of (d : Z) : Z := Z.quot d millisecond.

Definition reservation_key (tenantID reservationID : string) : string :=
  "budget:{tenant:" +:+ tenantID +:+ "}:reservation:" +:+ reservationID.
Definition expiry_key (tenantID : string) : string := "budget:{tenant:" +:+ tenantID +:+ "}:reservation_expiry".

(** The first loop: a window that has no counter yet is not checked. *)
Definition window_fits (T : Z) (r : Redis) (estimate : float64) (w : BudgetWindow) : bool :=
  match value T (rd_numbers r) (w_Key w) with
  | Some current => negb (f64_gtb (f64_add current estimate) (w_Limit w))
  | None => true
  end.

(** The second loop. *)
Definition add_estimate (T : Z) (estimate : float64) (r : Redis) (w : BudgetWindow) : Redis :=
  let next := f64_add (default f64_zero (value T (rd_numbers r) (w_Key w))) estimate in
  let ttl := milliseconds_of (w_TTL w) in
  with_numbers r (<[w_Key w := (next, if 0 <? ttl then Some (T + ttl) else None)]> (rd_numbers r)).

Definition reserve_script (T : Z) (reservation expiry reservationID : string) (estimate : float64) (expires_at ttl : Z)
    (windows : list BudgetWindow) (r : Redis) : bool * Redis :=
  if negb (forallb (window_fits T r estimate) windows) then (false, r)
  else
    let r := foldl (add_estimate T estimate) r windows in
    let hash := {| rh_status := "reserved"; rh_estimate := estimate; rh_windows := w_Key <$> windows |} in
    let r := with_reservations r (<[reservation := (hash, fetch T (rd_reservations r) reservation ≫= snd)]> (rd_reservations r)) in
    let r := zadd T r expiry expires_at reservationID in
    let r := with_reservations r (pexpire T (rd_reservations r) reservation ttl) in
    (true, with_zsets r (pexpire T (rd_zsets r) expiry ttl)).

Definition wrap_link (l : link) (err : error) : error :=
  match l with Drops _ true _ => err | _ => ErrJoin ErrLedgerUnavailable err end.

(** [now] and [later] are the two readings of the replica's clock. *)
Definition RedisLedger_Reserve (g : RedisBudgetLedger) (T now later : Z) (l : link) (r : Redis) (req : ReserveRequest) :
    (ReserveResult * option error) * Redis :=
  if bool_decide (rq_ReservationID req = "") || f64_ltb (rq_Estimate req) f64_zero || bool_decide (rq_Windows req = [])
  then ((not_reserved, Some (ErrNew "invalid reserve request")), r)
  else if existsb (λ w, bool_decide (w_Key w = "") || f64_ltb (w_Limit w) f64_zero) (rq_Windows req)
  then ((not_reserved, Some (ErrNew "invalid budget window")), r)
  else
    match run_script l r (reserve_script T (reservation_key (rq_TenantID req) (rq_ReservationID req)) (expiry_key (rq_TenantID req))
            (rq_ReservationID req) (rq_Estimate req) (unix_milli (time_add later (rl_ttl g))) (milliseconds_of (rl_ttl g)) (rq_Windows req)) with
    | (Err err, r) => ((not_reserved, Some (wrap_link l err)), r)
    | (Ok reserved, r) => (({| rs_Reserved := reserved; rs_Active := 0; rs_Degraded := false |}, None), r)
    end.

(** INCRBYFLOAT on the windows of a reservation: a missing counter starts at zero and
    has no time to live, an existing one keeps its own. *)
Definition add_delta (T : Z) (delta : float64) (r : Redis) (key : string) : Redis :=
  with_numbers r (<[key := match fetch T (rd_numbers r) key with
                           | Some (current, at_) => (incrbyfloat current delta, at_)
                           | None => (incrbyfloat f64_zero delta, None)
                           end]> (rd_numbers r)).

(** A reserved hash becomes final; its windows move by [delta] of its estimate. *)
Definition finish_script (T : Z) (reservation expiry reservationID status : string) (delta : float64 → float64) (r : Redis) :
    bool * Redis :=
  match fetch T (rd_reservations r) reservation with
  | Some (hash, at_) =>
      if bool_decide (rh_status hash = "reserved") then
        let r := foldl (add_delta T (delta (rh_estimate hash))) r (rh_windows hash) in
        let hash := {| rh_status := status; rh_estimate := rh_estimate hash; rh_windows := rh_windows hash |} in
        let r := with_reservations r (<[reservation := (hash, at_)]> (rd_reservations r)) in
        (true, zrem T r expiry reservationID)
      else (false, r)
  | None => (false, r)
  end.

Definition reconcile_script (T : Z) (reservation expiry reservationID : string) (actual : float64) :=
  finish_script T reservation expiry reservationID "reconciled" (λ estimate, f64_sub actual estimate).
Definition release_script (T : Z) (reservation expiry reservationID : string) :=
  finish_script T reservation expiry reservationID "released" f64_neg.

Definition settled (l : link) (x : result bool * Redis) : option error * Redis :=
  match x with
  | (Err err, r) => (Some (wrap_link l err), r)
  | (Ok true, r) => (None, r)
  | (Ok false, r) => (Some ErrAlreadyFinalized, r)
  end.

Definition RedisLedger_Reconcile (T : Z) (l : link) (r : Redis) (tenantID reservationID : string) (actual : float64) :
    option error * Redis :=
  settled l (run_script l r (reconcile_script T (reservation_key tenantID reservationID) (expiry_key tenantID) reservationID actual)).

Definition RedisLedger_Release (T : Z) (l : link) (r : Redis) (tenantID reservationID : string) : option error * Redis :=
  settled l (run_script l r (release_script T (reservation_key tenantID reservationID) (expiry_key tenantID) reservationID)).

(** The entry of the expiry set goes first, whatever happens to the reservation. *)
Definition expire_script (T : Z) (reservation expiry reservationID : string) (r : Redis) : bool * Redis :=
  let r := zrem T r expiry reservationID in
  match fetch T (rd_reservations r) reservation with
  | None => (false, r)
  | Some (hash, at_) =>
      if bool_decide (rh_status hash = "reserved") then
        let r := foldl (add_delta T (f64_neg (rh_estimate hash))) r (rh_windows hash) in
        let hash := {| rh_status := "expired"; rh_estimate := rh_estimate hash; rh_windows := rh_windows hash |} in
        (true, with_reservations r (<[reservation := (hash, at_)]> (rd_reservations r)))
      else (true, r)
  end.

(** ZRANGEBYSCORE: by score, members of a score by name. *)
Definition by_score (a b : string * Z) : Prop := a.2 < b.2 ∨ (a.2 = b.2 ∧ (str_less a.1 b.1 = true ∨ a.1 = b.1)).
#[local] Instance by_score_dec : RelDecision by_score.
Proof. intros a b. unfold by_score. apply _. Defined.

Definition due (T : Z) (r : Redis) (key : string) (max : Z) (count : nat) : list string :=
  take count (merge_sort by_score (filter (λ p : string * Z, p.2 <= max) (map_to_list (zset T r key)))).*1.

(** One batch of ids: how many were swept, and the link's error if a call is lost. *)
Fixpoint sweep_ids (T : Z) (tenantID : string) (links : list link) (swept : Z) (ids : list string) (r : Redis) :
    Z * option error * list link * Redis :=
  match ids with
  | [] => (swept, None, links, r)
  | id :: ids =>
      let l := default Answers (head links) in
      match run_script l r (expire_script T (reservation_key tenantID id) (expiry_key tenantID) id) with
      | (Err err, r) => (swept, Some (wrap_link l err), tail links, r)
      | (Ok _, r) => sweep_ids T tenantID (tail links) (swept + 1) ids r
      end
  end.

(** The loop ends when a batch is empty or shorter than what is left of the limit; every
    round before that sweeps at least one id, so [limit] rounds are enough. *)
Fixpoint sweep_rounds (rounds : nat) (T now : Z) (tenantID : string) (limit swept : Z) (links : list link) (r : Redis) :
    Z * option error * Redis :=
  match rounds with
  | O => (swept, None, r)
  | S rounds =>
      if negb (swept <? limit) then (swept, None, r)
      else
        match run_script (default Answers (head links)) r
                (λ r, (due T r (expiry_key tenantID) (unix_milli now) (Z.to_nat (limit - swept)), r)) with
        | (Err err, r) => (swept, Some (wrap_link (default Answers (head links)) err), r)
        | (Ok [], r) => (swept, None, r)
        | (Ok ids, r) =>
            match sweep_ids T tenantID (tail links) swept ids r with
            | (swept, Some err, _, r) => (swept, Some err, r)
            | (swept, None, links, r) =>
                if Z.of_nat (length ids) <? limit - swept then (swept, None, r)
                else sweep_rounds rounds T now tenantID limit swept links r
            end
        end
  end.

Definition RedisLedger_Sweep (T now : Z) (links : list link) (r : Redis) (tenantID : string) (limit : Z) : Z * option error * Redis :=
  let limit := if limit <=? 0 then 500 else limit in
  sweep_rounds (Z.to_nat limit) T now tenantID limit 0 links r.

(** ** redisleases.go *)

Definition leases_key (scope : string) : string := "concurrency:" +:+ scope +:+ ":leases".

(** The key outlives the lease by a minute. *)
Definition lease_key_ttl (expires_at now : Z) : Z := Z.max 60000 (expires_at - now + 60000).

Definition acquire_script (T : Z) (key leaseID : string) (capacity now expires_at : Z) (r : Redis) : bool * Redis :=
  let r := zremrange T r key now in
  if capacity <=? Z.of_nat (size (zset T r key)) then (false, r)
  else
    let r := zadd T r key expires_at leaseID in
    (true, with_zsets r (pexpire T (rd_zsets r) key (lease_key_ttl expires_at now))).

(** [fresh] is the random lease id, [now] and [later] the replica's clock. *)
Definition RedisLease_Acquire (T now later : Z) (fresh : result string) (l : link) (r : Redis) (scope : string) (capacity ttl : Z) :
    (bool * string * option error) * Redis :=
  if bool_decide (scope = "") || (capacity <=? 0) || (ttl <=? 0) then ((false, "", None), r)
  else match fresh with
       | Err err => ((false, "", Some err), r)
       | Ok leaseID =>
           match run_script l r (acquire_script T (leases_key scope) leaseID capacity (unix_milli now) (unix_milli (time_add later ttl))) with
           | (Err err, r) => ((false, "", Some err), r)
           | (Ok true, r) => ((true, leaseID, None), r)
           | (Ok false, r) => ((false, "", None), r)
           end
       end.

Definition renew_script (T : Z) (key leaseID : string) (expires_at now : Z) (r : Redis) : bool * Redis :=
  match zset T r key !! leaseID with
  | Some _ =>
      let r := zadd T r key expires_at leaseID in
      (true, with_zsets r (pexpire T (rd_zsets r) key (lease_key_ttl expires_at now)))
  | None => (false, r)
  end.

Definition RedisLease_Renew (T now later : Z) (l : link) (r : Redis) (scope leaseID : string) (ttl : Z) :
    (bool * option error) * Redis :=
  if bool_decide (scope = "") || bool_decide (leaseID = "") || (ttl <=? 0) then ((false, None), r)
  else match run_script l r (renew_script T (leases_key scope) leaseID (unix_milli (time_add later ttl)) (unix_milli now)) with
       | (Err err, r) => ((false, Some err), r)
       | (Ok renewed, r) => ((renewed, None), r)
       end.

Definition RedisLease_Release (T : Z) (l : link) (r : Redis) (scope leaseID : string) : option error * Redis :=
  if bool_decide (scope = "") || bool_decide (leaseID = "") then (None, r)
  else match run_script l r (λ r, (tt, zrem T r (leases_key scope) leaseID)) with
       | (Err err, r) => (Some err, r)
       | (Ok _, r) => (None, r)
       end.

Definition RedisLease_Cleanup (T now : Z) (l : link) (r : Redis) (scope : string) : option error * Redis :=
  if bool_decide (scope = "") then (None, r)
  else match run_script l r (λ r, (tt, zremrange T r (leases_key scope) (unix_milli now))) with
       | (Err err, r) => (Some err, r)
       | (Ok _, r) => (None, r)
       end.

(** ** redisinflight.go *)

Definition inflight_key (scope : string) : string := "inflight:" +:+ scope +:+ ":count".

Definition no_scope : error := ErrNew "inflight counter requires a scope".

(** INCR and DECR of a missing key start at zero; both keep the time to live. *)
Definition incr_by (T : Z) (r : Redis) (key : string) (d : Z) : Z * Redis :=
  let '(v, at_) := default (0, None) (fetch T (rd_ints r) key) in
  (v + d, with_ints r (<[key := (v + d, at_)]> (rd_ints r))).

Definition decr_script (T : Z) (key : string) (r : Redis) : Z * Redis :=
  let '(v, r) := incr_by T r key (-1) in
  if v <? 0 then (0, with_ints r (<[key := (0, None)]> (rd_ints r))) else (v, r).

Definition RedisInflight_Incr (T : Z) (l : link) (r : Redis) (scope : string) : (Z * option error) * Redis :=
  if bool_decide (scope = "") then ((0, Some no_scope), r)
  else match run_script l r (λ r, incr_by T r (inflight_key scope) 1) with
       | (Err err, r) => ((0, Some err), r)
       | (Ok v, r) => ((v, None), r)
       end.

Definition RedisInflight_Decr (T : Z) (l : link) (r : Redis) (scope : string) : option error * Redis :=
  if bool_decide (scope = "") then (Some no_scope, r)
  else match run_script l r (decr_script T (inflight_key scope)) with
       | (Err err, r) => (Some err, r)
       | (Ok _, r) => (None, r)
       end.

Definition RedisInflight_Get (T : Z) (l : link) (r : Redis) (scope : string) : Z * option error :=
  if bool_decide (scope = "") then (0, Some no_scope)
  else match l with
       | Answers => (default 0 (value T (rd_ints r) (inflight_key scope)), None)
       | Drops _ _ err => (0, Some err)
       end.

(** ** policy/rate/redis.go *)

Definition rpm_key (tenantID projectID : string) : string := "rate:{tenant:" +:+ tenantID +:+ "}:" +:+ projectID.

(** Lua's math.min keeps its first argument unless the second is smaller. *)
Definition lua_min (x y : float64) : float64 := if f64_ltb y x then y else x.

Definition rpm_script (T : Z) (key : string) (capacity rate now : Z) (r : Redis) : (bool * float64) * Redis :=
  let '(tokens, ts) := default (f64_of_Z capacity, now) (value T (rd_buckets r) key) in
  let elapsed := f64_div (f64_of_Z (Z.max 0 (now - ts))) (f64_of_Z 60000) in
  let tokens := lua_min (f64_of_Z capacity) (f64_add tokens (f64_mul elapsed (f64_of_Z rate))) in
  let allowed := f64_geb tokens f64_one in
  let tokens := if allowed then f64_sub tokens f64_one else tokens in
  ((allowed, tostring14 tokens), with_buckets r (<[key := (tokens, now, Some (T + 120000))]> (rd_buckets r))).

(** A lost answer lets the request through. *)
Definition RedisLimiter_Allow (T now : Z) (l : link) (r : Redis) (tenantID projectID : string) (policy : Policy) : Decision * Redis :=
  if (RequestsPerMinute policy <=? 0) || (Burst policy <=? 0) then ({| Allowed := false; RetryAfter := minute |}, r)
  else
    match run_script l r (rpm_script T (rpm_key tenantID projectID) (Burst policy) (RequestsPerMinute policy) (unix_milli now)) with
    | (Err _, r) | (Ok (true, _), r) => ({| Allowed := true; RetryAfter := 0 |}, r)
    | (Ok (false, tokens), r) =>
        let missing := f64_max f64_zero (f64_sub f64_one tokens) in
        let retry := f64_to_i64 (f64_mul (f64_div missing (f64_of_Z (RequestsPerMinute policy))) (f64_of_Z minute)) in
        ({| Allowed := false; RetryAfter := if retry <=? 0 then second else retry |}, r)
    end.

Definition tpm_key (tenantID projectID : string) (now : Z) : string :=
  "tpm:{tenant:" +:+ tenantID +:+ "}:" +:+ projectID +:+ ":" +:+ pretty (Z.quot (now / second) 60).

Definition tpm_reserve_script (T : Z) (key : string) (estimate limit : Z) (r : Redis) : bool * Redis :=
  let used := default 0 (value T (rd_ints r) key) in
  if limit <? used + estimate then (false, r)
  else let '(_, r) := incr_by T r key estimate in
       (true, with_ints r (pexpire T (rd_ints r) key 120000)).

Record RedisMeter := { rm_policy : option TPMPolicyFunc }.

Definition RedisMeter_Reserve (m : RedisMeter) (T now : Z) (l : link) (r : Redis) (tenantID projectID : string) (estimated : Z) :
    (TPMDecision * Z) * Redis :=
  let limit := match rm_policy m with Some f => f tenantID projectID | None => 0 end in
  if (limit <=? 0) || (estimated <=? 0) then (({| t_Allowed := true; t_RetryAfter := 0 |}, -1), r)
  else
    match run_script l r (tpm_reserve_script T (tpm_key tenantID projectID now) estimated limit) with
    | (Err _, r) => (({| t_Allowed := true; t_RetryAfter := 0 |}, -1), r)
    | (Ok true, r) => (({| t_Allowed := true; t_RetryAfter := 0 |}, 0), r)
    | (Ok false, r) => (({| t_Allowed := false; t_RetryAfter := time_sub (nextMinute now) now |}, -1), r)
    end.

Definition tpm_reconcile_script (T : Z) (key : string) (delta : Z) (r : Redis) : unit * Redis :=
  let next := default 0 (value T (rd_ints r) key) + delta in
  (tt, with_ints r (<[key := (if next <? 0 then 0 else next, Some (T + 120000))]> (rd_ints r))).

Definition RedisMeter_Reconcile (T now : Z) (l : link) (r : Redis) (tenantID projectID : string) (estimated actual : Z) : Redis :=
  if (estimated <=? 0) && (actual <=? 0) then r
  else
    let delta := wrap64 (actual - estimated) in
    if delta =? 0 then r
    else (run_script l r (tpm_reconcile_script T (tpm_key tenantID projectID now) delta)).2.

End Redis.

(** ** Keys and sorted sets *)

Lemma append_cancel_r a b t : a +:+ t = b +:+ t → a = b.
Proof.
  assert (∀ a t, String.length (a +:+ t) = (String.length a + String.length t)%nat) as Hl.
  { intros x u. induction x as [|c x IH]; [done|]. change (S (String.length (x +:+ u)) = S (String.length x + String.length u)). by rewrite IH. }
  revert b. induction a as [|c a IH]; intros [|d b] Heq; [done| | |].
  - apply (f_equal String.length) in Heq. rewrite !Hl in Heq. simpl in Heq. lia.
  - apply (f_equal String.length) in Heq. rewrite !Hl in Heq. simpl in Heq. lia.
  - change (String c (a +:+ t) = String d (b +:+ t)) in Heq. injection Heq as -> Heq. f_equal. by apply IH.
Qed.

Lemma leases_key_inj a b : leases_key a = leases_key b → a = b.
Proof.
  unfold leases_key. intros Heq. apply (append_cancel_r _ _ ":leases"). by apply (inj (String.append "concurrency:")).
Qed.

(** What is stored under a key, expired or not. *)
Definition raw (r : Redis) (key : string) : gmap string Z := default ∅ (fst <$> rd_zsets r !! key).

Lemma zset_raw T r key : zset T r key = raw r key ∨ zset T r key = ∅.
Proof.
  unfold zset, value, fetch, raw. destruct (rd_zsets r !! key) as [[m at_]|]; simpl; [|by left].
  destruct (gone T at_); simpl; [by right|by left].
Qed.

Lemma zset_put T r key m : zset T (put_zset T r key m) key = m.
Proof.
  unfold zset, value, fetch, put_zset. simpl. case_bool_decide as Hm.
  - by rewrite lookup_delete_eq.
  - rewrite lookup_insert_eq. unfold fetch. destruct (rd_zsets r !! key) as [[m' at_]|]; [|reflexivity].
    destruct (gone T at_) eqn:Hg; [reflexivity|]. cbn [mbind option_bind snd]. by rewrite Hg.
Qed.

Lemma raw_put T r key m key' : raw (put_zset T r key m) key' = if decide (key = key') then m else raw r key'.
Proof.
  unfold raw, put_zset. simpl. case_bool_decide as Hm; case_decide as Hk; subst.
  - by rewrite lookup_delete_eq.
  - by rewrite lookup_delete_ne.
  - by rewrite lookup_insert_eq.
  - by rewrite lookup_insert_ne.
Qed.

Lemma raw_pexpire T r key ttl key' :
  raw (with_zsets r (pexpire T (rd_zsets r) key ttl)) key' = raw r key' ∨
  raw (with_zsets r (pexpire T (rd_zsets r) key ttl)) key' = ∅.
Proof.
  unfold raw, pexpire, fetch. simpl. destruct (rd_zsets r !! key) as [[m at_]|] eqn:E; simpl; [|by left].
  destruct (gone T at_); simpl; [by left|]. destruct (ttl <=? 0).
  - destruct (decide (key = key')) as [<-|]; [right; by rewrite lookup_delete_eq|left; by rewrite lookup_delete_ne].
  - destruct (decide (key = key')) as [<-|]; [left; by rewrite lookup_insert_eq, E|left; by rewrite lookup_insert_ne].
Qed.

Lemma size_filter_le {A} (P : string * A → Prop) `{!∀ x, stdpp.base.Decision (P x)} (m : gmap string A) : (size (filter P m) <= size m)%nat.
Proof. apply map_subseteq_size, map_filter_subseteq. Qed.

(** ** Leases stay within capacity *)

Inductive lease_op :=
| OpAcquire (T now later : Z) (fresh : result string) (l : link) (scope : string) (capacity ttl : Z)
| OpRenew (T now later : Z) (l : link) (scope id : string) (ttl : Z)
| OpRelease (T : Z) (l : link) (scope id : string)
| OpCleanup (T now : Z) (l : link) (scope : string).

Definition lease_step (r : Redis) (op : lease_op) : Redis :=
  match op with
  | OpAcquire T now later fresh l scope capacity ttl => (RedisLease_Acquire T now later fresh l r scope capacity ttl).2
  | OpRenew T now later l scope id ttl => (RedisLease_Renew T now later l r scope id ttl).2
  | OpRelease T l scope id => (RedisLease_Release T l r scope id).2
  | OpCleanup T now l scope => (RedisLease_Cleanup T now l r scope).2
  end.

Lemma run_script_state {A} (l : link) (r : Redis) (script : Redis → A * Redis) (P : Redis → Prop) :
  P r → P (script r).2 → P (run_script l r script).2.
Proof. intros Hr Hs. unfold run_script. destruct l as [|[]]; [by destruct (script r)|done|done]. Qed.

(** Dropping the answer of a script keeps its state. *)
Lemma acquire_state T now later fresh l r scope capacity ttl (P : Redis → Prop) :
  P r → (∀ id key, key = leases_key scope → P (acquire_script T key id capacity (unix_milli now) (unix_milli (time_add later ttl)) r).2) →
  P (RedisLease_Acquire T now later fresh l r scope capacity ttl).2.
Proof.
  intros Hr Hs. unfold RedisLease_Acquire. destruct (_ || _ || _); [done|]. destruct fresh as [id|]; [|done].
  pose proof (run_script_state l r (acquire_script T (leases_key scope) id capacity (unix_milli now) (unix_milli (time_add later ttl))) P) as Hp.
  destruct (run_script _ _ _) as [[[]|] r']; apply Hp; auto.
Qed.

Definition within (scope : string) (c : Z) (r : Redis) : Prop := Z.of_nat (size (raw r (leases_key scope))) <= c.

Lemma within_put T scope c r key m :
  (key = leases_key scope → Z.of_nat (size m) <= c) → within scope c r → within scope c (put_zset T r key m).
Proof. intros Hm Hr. unfold within. rewrite raw_put. case_decide; auto. Qed.

Lemma within_pexpire T scope c r key ttl :
  0 <= c → within scope c r → within scope c (with_zsets r (pexpire T (rd_zsets r) key ttl)).
Proof.
  intros Hc Hr. unfold within in *. destruct (raw_pexpire T r key ttl (leases_key scope)) as [->| ->]; [done|].
  rewrite map_size_empty. lia.
Qed.

Lemma within_zset T scope c r key : key = leases_key scope → 0 <= c → within scope c r → Z.of_nat (size (zset T r key)) <= c.
Proof.
  intros -> Hc Hr. destruct (zset_raw T r (leases_key scope)) as [->| ->]; [done|]. rewrite map_size_empty. lia.
Qed.

Lemma within_zremrange T scope c r key max : 0 <= c → within scope c r → within scope c (zremrange T r key max).
Proof.
  intros Hc Hr. apply within_put; [|done]. intros Hk.
  pose proof (size_filter_le (λ p : string * Z, max < p.2) (zset T r key)). pose proof (within_zset T scope c r key Hk Hc Hr). lia.
Qed.

Lemma within_acquire T scope c r key id capacity now expires :
  0 <= c → (key = leases_key scope → capacity <= c) → within scope c r →
  within scope c (acquire_script T key id capacity now expires r).2.
Proof.
  intros Hc Hcap Hr. unfold acquire_script. pose proof (within_zremrange T scope c r key now Hc Hr) as H1.
  set (r1 := zremrange T r key now) in *. destruct (Z.leb_spec capacity (Z.of_nat (size (zset T r1 key)))); simpl; [done|].
  apply within_pexpire; [done|]. apply within_put; [|done]. intros Hk. specialize (Hcap Hk).
  rewrite map_size_insert. destruct (zset T r1 key !! id); simpl; lia.
Qed.

Lemma within_renew T scope c r key id expires now :
  0 <= c → within scope c r → within scope c (renew_script T key id expires now r).2.
Proof.
  intros Hc Hr. unfold renew_script. destruct (zset T r key !! id) as [e|] eqn:E; [|done]. simpl.
  apply within_pexpire; [done|]. apply within_put; [|done]. intros Hk. rewrite map_size_insert, E.
  by apply (within_zset T scope).
Qed.

(** Shared leases stay within capacity.  Whatever the replicas do with the leases of
    a scope, in whatever order, with clocks that need not agree with each other or with
    the server's, and whichever answers are lost, the server never holds more leases of
    the scope than the largest capacity with which one was asked for. *)
Theorem redis_leases_within_capacity r ops scope c :
  0 <= c → Z.of_nat (size (raw r (leases_key scope))) <= c →
  (∀ T now later fresh l capacity ttl, OpAcquire T now later fresh l scope capacity ttl ∈ ops → capacity <= c) →
  ∀ T, Z.of_nat (size (zset T (foldl lease_step r ops) (leases_key scope))) <= c.
Proof.
  intros Hc Hr Hops T. apply (within_zset T scope); [done|done|]. change (within scope c r) in Hr.
  revert r Hr Hops. induction ops as [|op ops IH]; intros r Hr Hops; [done|]. simpl. apply IH; [|intros; eapply Hops; by right].
  destruct op as [T' now later fresh l scope' capacity ttl|T' now later l scope' id ttl|T' l scope' id|T' now l scope']; simpl.
  - apply acquire_state; [done|]. intros id key ->. apply within_acquire; [done| |done].
    intros ->%leases_key_inj. eapply Hops. by left.
  - unfold RedisLease_Renew. destruct (_ || _ || _); [done|].
    pose proof (run_script_state l r (renew_script T' (leases_key scope') id (unix_milli (time_add later ttl)) (unix_milli now)) (within scope c)) as Hp.
    destruct (run_script _ _ _) as [[]?]; (apply Hp; [done|]); by apply within_renew.
  - unfold RedisLease_Release. destruct (_ || _); [done|].
    pose proof (run_script_state l r (λ r, (tt, zrem T' r (leases_key scope') id)) (within scope c)) as Hp.
    destruct (run_script _ _ _) as [[]?]; (apply Hp; [done|]); apply within_put; try done; intros Hk;
      pose proof (within_zset T' scope c r _ Hk Hc Hr); rewrite map_size_delete;
      destruct (zset T' r (leases_key scope') !! id); simpl; lia.
  - unfold RedisLease_Cleanup. destruct (bool_decide _); [done|].
    pose proof (run_script_state l r (λ r, (tt, zremrange T' r (leases_key scope') (unix_milli now))) (within scope c)) as Hp.
    destruct (run_script _ _ _) as [[]?]; (apply Hp; [done|]); by apply within_zremrange.
Qed.

(** ** The shared leases refine the local ones

    A history gives the same operations at the same times to both coordinators, with
    leases of one duration [D]; times are whole milliseconds, and the server's clock is
    the replicas'. *)

Inductive lop :=
| LAcquire (scope id : string) (capacity : Z)
| LRenew (scope id : string)
| LRelease (scope id : string)
| LCleanup (scope : string).

(** An operation in the millisecond [tm_at] of the server's clock, at [tm_ns] and, at
    the replica's second reading, [tm_later] nanoseconds of that millisecond by the
    replica's clock. *)
Record timed := { tm_at : Z; tm_ns : Z; tm_later : Z; tm_op : lop }.

(** The reference: an in-process coordinator whose clock reads whole milliseconds. *)
Definition memory_step (D : Z) (m : MemoryLeaseCoordinator) (x : timed) : (bool * string * option error) * MemoryLeaseCoordinator :=
  let now := tm_at x * millisecond in
  match tm_op x with
  | LAcquire scope id capacity => MemoryLease_Acquire m now (Ok id) scope capacity (D * millisecond)
  | LRenew scope id => let '((b, e), m) := MemoryLease_Renew m now scope id (D * millisecond) in ((b, "", e), m)
  | LRelease scope id => let '(e, m) := MemoryLease_Release m scope id in ((true, "", e), m)
  | LCleanup scope => let '(e, m) := MemoryLease_Cleanup m now scope in ((true, "", e), m)
  end.

Definition redis_step (D : Z) (r : Redis) (x : timed) : (bool * string * option error) * Redis :=
  let T := tm_at x in
  let now := tm_at x * millisecond + tm_ns x in
  let later := tm_at x * millisecond + tm_later x in
  match tm_op x with
  | LAcquire scope id capacity => RedisLease_Acquire T now later (Ok id) Answers r scope capacity (D * millisecond)
  | LRenew scope id => let '((b, e), r) := RedisLease_Renew T now later Answers r scope id (D * millisecond) in ((b, "", e), r)
  | LRelease scope id => let '(e, r) := RedisLease_Release T Answers r scope id in ((true, "", e), r)
  | LCleanup scope => let '(e, r) := RedisLease_Cleanup T now Answers r scope in ((true, "", e), r)
  end.

(** The answers of a history. *)
Fixpoint answers {S} (step : S → timed → (bool * string * option error) * S) (s : S) (xs : list timed) : list (bool * string * option error) :=
  match xs with [] => [] | x :: xs => (step s x).1 :: answers step (step s x).2 xs end.

Definition op_valid (D : Z) (x : timed) : Prop :=
  0 <= tm_at x ∧ tm_at x + D <= max_int64 ∧ 0 <= tm_ns x < millisecond ∧ 0 <= tm_later x < millisecond ∧
  match tm_op x with
  | LAcquire scope id capacity => scope ≠ "" ∧ 0 < capacity
  | LRenew scope id | LRelease scope id => scope ≠ "" ∧ id ≠ ""
  | LCleanup scope => scope ≠ ""
  end.

(** A renewal comes while the lease still runs, or after it was dropped. *)
Definition timely (r : Redis) (x : timed) : Prop :=
  match tm_op x with
  | LRenew scope id => ∀ e, zset (tm_at x) r (leases_key scope) !! id = Some e → tm_at x < e
  | _ => True
  end.

Fixpoint timely_all (D : Z) (r : Redis) (xs : list timed) : Prop :=
  match xs with [] => True | x :: xs => timely r x ∧ timely_all D (redis_step D r x).2 xs end.

Definition running (t : Z) (m : gmap string Z) : gmap string Z := filter (λ p : string * Z, t < p.2) m.
Definition in_ns (m : gmap string Z) : gmap string Z := (λ e, e * millisecond) <$> m.

(** A stored key outlives its leases, and no lease is longer than [D]. *)
Definition outlives (D t : Z) (r : Redis) (key : string) : Prop :=
  ∀ members at_, rd_zsets r !! key = Some (members, at_) →
    ∃ when, at_ = Some when ∧ ∀ id e, members !! id = Some e → e <= when ∧ e <= t + D.

Definition agree (D t : Z) (m : MemoryLeaseCoordinator) (r : Redis) : Prop :=
  ∀ scope, scope ≠ "" →
    in_ns (running t (raw r (leases_key scope))) = prune (leases m scope) (t * millisecond) ∧ outlives D t r (leases_key scope).

Lemma running_twice t m : running t (running t m) = running t m.
Proof. unfold running. rewrite map_filter_filter. apply map_filter_ext. intros; simpl; tauto. Qed.

Lemma running_later t t' m : t <= t' → running t' (running t m) = running t' m.
Proof. intros. unfold running. rewrite map_filter_filter. apply map_filter_ext. intros; simpl in *; lia. Qed.

Lemma in_ns_running t m : in_ns (running t m) = prune (in_ns m) (t * millisecond).
Proof.
  unfold in_ns, running, prune. rewrite map_filter_fmap. f_equal. apply map_filter_ext. intros i x _. simpl. unfold millisecond. lia.
Qed.

Lemma prune_later t t' m : t <= t' → prune (prune m (t * millisecond)) (t' * millisecond) = prune m (t' * millisecond).
Proof. intros. unfold prune. rewrite map_filter_filter. apply map_filter_ext. intros; simpl in *; unfold millisecond in *; lia. Qed.

Lemma running_zset D t r key : outlives D t r key → running t (zset t r key) = running t (raw r key).
Proof.
  intros Ho. unfold zset, value, fetch, raw, outlives in *. destruct (rd_zsets r !! key) as [[m at_]|]; [|done].
  destruct (Ho m at_ eq_refl) as (when & -> & Hm). simpl. destruct (Z.ltb_spec when t); simpl; [|done].
  unfold running. rewrite map_filter_empty. symmetry. apply map_empty. intros i.
  apply map_lookup_filter_None. right. intros x Hx. simpl. apply Hm in Hx. lia.
Qed.

Lemma agree_later D t t' m r : t <= t' → agree D t m r → agree D t' m r.
Proof.
  intros Ht Ha scope Hs. destruct (Ha scope Hs) as [He Ho]. split.
  - rewrite <- (running_later t t'), in_ns_running, He, prune_later by done. done.
  - intros members at_ Hr. destruct (Ho _ _ Hr) as (when & -> & Hm). exists when. split; [done|]. intros id e Hi.
    destruct (Hm _ _ Hi). lia.
Qed.

Lemma below_empty (m : gmap string Z) : m ⊆ ∅ → m = ∅.
Proof.
  intros Hm. apply map_empty. intros i. destruct (m !! i) as [x|] eqn:E; [|done].
  apply (lookup_weaken _ _ _ _ E) in Hm. by rewrite lookup_empty in Hm.
Qed.

(** Storing less than what a live key holds. *)
Lemma outlives_shrink D t r key m : outlives D t r key → m ⊆ zset t r key → outlives D t (put_zset t r key m) key.
Proof.
  intros Ho Hm members at_. unfold put_zset. simpl. case_bool_decide as He; [by rewrite lookup_delete_eq|].
  rewrite lookup_insert_eq. intros [= <- <-]. unfold zset, value, fetch, outlives in *.
  destruct (rd_zsets r !! key) as [[m' at_]|]; [|by apply below_empty in Hm].
  destruct (Ho m' at_ eq_refl) as (when & -> & Hw). simpl in *. destruct (when <? t); simpl in *; [by apply below_empty in Hm|].
  exists when. split; [done|]. intros id e Hi. apply (Hw id). by eapply lookup_weaken.
Qed.

(** Adding a lease and renewing the key. *)
Definition extended (t D : Z) (r : Redis) (key : string) : Redis :=
  with_zsets r (pexpire t (rd_zsets r) key (lease_key_ttl (t + D) t)).

Lemma extended_put t D r key id m :
  rd_zsets (extended t D (put_zset t r key (<[id := t + D]> m)) key) =
  <[key := (<[id := t + D]> m, Some (t + lease_key_ttl (t + D) t))]> (rd_zsets r).
Proof.
  unfold extended, pexpire. pose proof (zset_put t r key (<[id := t + D]> m)) as Hz. unfold zset, value in Hz.
  destruct (fetch t (rd_zsets (put_zset t r key (<[id:=t + D]> m))) key) as [[v a]|] eqn:E; simpl in Hz.
  - subst v. cbn [with_zsets rd_zsets]. destruct (Z.leb_spec (lease_key_ttl (t + D) t) 0) as [Hl|_]; [unfold lease_key_ttl in Hl; lia|].
    unfold put_zset. rewrite bool_decide_eq_false_2 by apply insert_non_empty. cbn [rd_zsets with_zsets]. by rewrite insert_insert_eq.
  - exfalso. by apply (insert_non_empty m id (t + D)).
Qed.

Lemma outlives_extended t D r key id m :
  (∀ i e, m !! i = Some e → e <= t + D) → outlives D t (extended t D (put_zset t r key (<[id := t + D]> m)) key) key.
Proof.
  intros Hm members at_. rewrite extended_put, lookup_insert_eq. intros [= <- <-]. eexists. split; [done|].
  intros i e Hi. assert (e <= t + D) as Hle.
  { apply lookup_insert_Some in Hi as [[_ <-]|[_ Hi]]; [lia|]. by eapply Hm. }
  unfold lease_key_ttl. lia.
Qed.

Lemma zset_bounded D t r key i e : outlives D t r key → zset t r key !! i = Some e → e <= t + D.
Proof.
  intros Ho. unfold zset, value, fetch, outlives in *. destruct (rd_zsets r !! key) as [[m at_]|]; [|simpl; by rewrite lookup_empty].
  destruct (Ho m at_ eq_refl) as (when & -> & Hw). simpl. destruct (when <? t); simpl; [by rewrite lookup_empty|]. apply Hw.
Qed.

(** A step on one scope: the rest of the agreement is about other keys. *)
Lemma agree_step D t m r m' r' scope :
  agree D t m r → (∀ key, key ≠ leases_key scope → rd_zsets r' !! key = rd_zsets r !! key) →
  (∀ scope', scope' ≠ scope → leases m' scope' = leases m scope') →
  in_ns (running t (raw r' (leases_key scope))) = prune (leases m' scope) (t * millisecond) → outlives D t r' (leases_key scope) →
  agree D t m' r'.
Proof.
  intros Ha Hk Hm He Ho scope' Hs. destruct (decide (scope' = scope)) as [->|Hn]; [done|].
  assert (leases_key scope' ≠ leases_key scope) as Hkk by (intros ?%leases_key_inj; done).
  destruct (Ha scope' Hs) as [He' Ho']. rewrite Hm by done. unfold raw, outlives. rewrite Hk by done. done.
Qed.

Lemma put_zset_other T r key m key' : key' ≠ key → rd_zsets (put_zset T r key m) !! key' = rd_zsets r !! key'.
Proof. intros Hn. unfold put_zset. simpl. case_bool_decide; [by rewrite lookup_delete_ne|by rewrite lookup_insert_ne]. Qed.

Lemma shared_leases_set m scope ls scope' : leases (set_leases m scope ls) scope' = if decide (scope = scope') then ls else leases m scope'.
Proof. unfold leases, set_leases. simpl. rewrite lookup_insert. by case_decide. Qed.

Lemma prune_twice m t : prune (prune m t) t = prune m t.
Proof. unfold prune. rewrite map_filter_filter. apply map_filter_ext. intros; simpl; tauto. Qed.

Lemma unix_milli_exact t ns : 0 <= t <= max_int64 → 0 <= ns < millisecond → unix_milli (t * millisecond + ns) = t.
Proof.
  intros Ht Hns. unfold unix_milli. rewrite Z.div_add_l, Z.div_small, Z.add_0_r by (done || lia). unfold wrap64. unfold max_int64, two63, two64 in *.
  rewrite Z.mod_small; lia.
Qed.

Section Refinement.
Variable D : Z.
Hypothesis D_positive : 0 < D.

Lemma agree_insert t id (members held : gmap string Z) :
  in_ns (running t members) = prune held (t * millisecond) →
  in_ns (running t (<[id := t + D]> members)) = prune (<[id := time_add (t * millisecond) (D * millisecond)]> held) (t * millisecond).
Proof.
  intros He. unfold running. rewrite map_filter_insert_True by (simpl; lia). unfold in_ns. rewrite fmap_insert.
  fold (running t members) (in_ns (running t members)). rewrite He. unfold prune at 2.
  rewrite map_filter_insert_True by (simpl; unfold time_add, millisecond; lia). f_equal. unfold time_add. lia.
Qed.

Lemma agree_acquire t ns ns' m r scope id capacity :
  scope ≠ "" → 0 < capacity → 0 <= t → t + D <= max_int64 → 0 <= ns < millisecond → 0 <= ns' < millisecond → agree D t m r →
  let x := {| tm_at := t; tm_ns := ns; tm_later := ns'; tm_op := LAcquire scope id capacity |} in
  (redis_step D r x).1 = (memory_step D m x).1 ∧ agree D t (memory_step D m x).2 (redis_step D r x).2.
Proof.
  intros Hs Hc Ht HD Hns Hns' Ha. simpl. destruct (Ha scope Hs) as [He Ho]. set (key := leases_key scope) in *.
  unfold redis_step, memory_step, RedisLease_Acquire, MemoryLease_Acquire. simpl.
  rewrite bool_decide_eq_false_2 by done. destruct (Z.leb_spec capacity 0); [lia|].
  destruct (Z.leb_spec (D * millisecond) 0); [unfold millisecond in *; lia|]. simpl.
  assert (time_add (t * millisecond) (D * millisecond) = (t + D) * millisecond) as Hadd by (unfold time_add; lia).
  assert (time_add (t * millisecond + ns') (D * millisecond) = (t + D) * millisecond + ns') as Hadd' by (unfold time_add; lia).
  rewrite Hadd, Hadd', !unix_milli_exact by lia. unfold acquire_script, zremrange. fold key. rewrite zset_put.
  fold (running t (zset t r key)). rewrite (running_zset D) by done.
  assert (size (prune (leases m scope) (t * millisecond)) = size (running t (raw r key))) as Hsz by (rewrite <- He; apply map_size_fmap).
  rewrite Hsz.
  destruct (Z.leb_spec capacity (Z.of_nat (size (running t (raw r key))))); simpl.
  - split; [done|]. apply (agree_step D t m r _ _ scope); try done.
    + intros. by apply put_zset_other.
    + intros scope' Hn. rewrite shared_leases_set. by case_decide.
    + fold key. rewrite raw_put, decide_True, running_twice by done. rewrite shared_leases_set, decide_True by done. by rewrite He, prune_twice.
    + apply outlives_shrink; [done|]. rewrite <- (running_zset D) by done. apply map_filter_subseteq.
  - split; [done|]. set (F := running t (raw r key)) in *.
    match goal with |- agree _ _ _ ?r' =>
      assert (r' = extended t D (put_zset t (put_zset t r key F) key (<[id := t + D]> F)) key) as ->
        by (unfold extended, zadd; by rewrite zset_put) end.
    apply (agree_step D t m r _ _ scope); [done| | | |].
    + intros key' Hk. rewrite extended_put, lookup_insert_ne by done. by apply put_zset_other.
    + intros scope' Hn. rewrite !shared_leases_set. by case_decide.
    + unfold raw at 1. rewrite extended_put, lookup_insert_eq. simpl. rewrite shared_leases_set, decide_True by done.
      rewrite <- Hadd. apply agree_insert. unfold F. rewrite running_twice. fold F. by rewrite He, prune_twice.
    + apply outlives_extended. intros i e Hi. unfold F in Hi. rewrite <- (running_zset D) in Hi by done.
      apply map_lookup_filter_Some in Hi as [Hi _]. by apply (zset_bounded D t r key i).
Qed.

Lemma agree_renew t ns ns' m r scope id :
  scope ≠ "" → id ≠ "" → 0 <= t → t + D <= max_int64 → 0 <= ns < millisecond → 0 <= ns' < millisecond → agree D t m r →
  (∀ e, zset t r (leases_key scope) !! id = Some e → t < e) →
  let x := {| tm_at := t; tm_ns := ns; tm_later := ns'; tm_op := LRenew scope id |} in
  (redis_step D r x).1 = (memory_step D m x).1 ∧ agree D t (memory_step D m x).2 (redis_step D r x).2.
Proof.
  intros Hs Hi Ht HD Hns Hns' Ha Htm. simpl. destruct (Ha scope Hs) as [He Ho]. set (key := leases_key scope) in *.
  unfold redis_step, memory_step, RedisLease_Renew, MemoryLease_Renew. simpl.
  rewrite !bool_decide_eq_false_2 by done. destruct (Z.leb_spec (D * millisecond) 0); [unfold millisecond in *; lia|]. simpl.
  assert (time_add (t * millisecond) (D * millisecond) = (t + D) * millisecond) as Hadd by (unfold time_add; lia).
  assert (time_add (t * millisecond + ns') (D * millisecond) = (t + D) * millisecond + ns') as Hadd' by (unfold time_add; lia).
  rewrite Hadd, Hadd', !unix_milli_exact by lia. rewrite <- Hadd. unfold renew_script. fold key.
  assert (prune (leases m scope) (t * millisecond) !! id = (λ e, e * millisecond) <$> zset t r key !! id) as Hlook.
  { rewrite <- He, <- (running_zset D) by done. unfold in_ns, running. rewrite lookup_fmap, map_lookup_filter. f_equal.
    destruct (zset t r key !! id) as [e|] eqn:E; [|done]. simpl. rewrite option_guard_True; [done|]. by apply Htm. }
  destruct (zset t r key !! id) as [e|] eqn:E; simpl in Hlook; rewrite Hlook; simpl.
  - split; [done|].
    match goal with |- agree _ _ ?m' _ =>
      change (agree D t m' (extended t D (put_zset t r key (<[id := t + D]> (zset t r key))) key)) end.
    apply (agree_step D t m r _ _ scope); [done| | | |].
    + intros key' Hk. by rewrite extended_put, lookup_insert_ne.
    + intros scope' Hn. rewrite !shared_leases_set. by case_decide.
    + unfold raw at 1. rewrite extended_put, lookup_insert_eq. simpl. rewrite shared_leases_set, decide_True by done.
      apply agree_insert. by rewrite (running_zset D), He, prune_twice.
    + apply outlives_extended. intros i e' Hi'. by apply (zset_bounded D t r key i).
  - split; [done|]. apply (agree_step D t m r _ _ scope); try done.
    + intros scope' Hn. rewrite shared_leases_set. by case_decide.
    + by rewrite shared_leases_set, decide_True, prune_twice.
Qed.

Lemma agree_shrink t m r scope members held :
  scope ≠ "" → agree D t m r → members ⊆ zset t r (leases_key scope) →
  in_ns (running t members) = prune held (t * millisecond) →
  agree D t (set_leases m scope held) (put_zset t r (leases_key scope) members).
Proof.
  intros Hs Ha Hm He. destruct (Ha scope Hs) as [_ Ho]. apply (agree_step D t m r _ _ scope); try done.
  - intros. by apply put_zset_other.
  - intros scope' Hn. rewrite shared_leases_set. by case_decide.
  - by rewrite raw_put, shared_leases_set, !decide_True.
  - by apply outlives_shrink.
Qed.

Lemma agree_one t m r x :
  tm_at x = t → op_valid D x → timely r x → agree D t m r →
  (redis_step D r x).1 = (memory_step D m x).1 ∧ agree D t (memory_step D m x).2 (redis_step D r x).2.
Proof.
  destruct x as [t' ns ns' op]. simpl. intros -> (Ht & HD & Hns & Hns' & Hop) Htm Ha. simpl in *.
  destruct op as [scope id capacity|scope id|scope id|scope]; simpl in *.
  - destruct Hop. by apply agree_acquire.
  - destruct Hop. by apply agree_renew.
  - destruct Hop as [Hs Hi]. unfold redis_step, memory_step, RedisLease_Release, MemoryLease_Release. simpl.
    rewrite !bool_decide_eq_false_2 by done. simpl. split; [done|]. destruct (Ha scope Hs) as [He Ho].
    apply agree_shrink; [done|done|apply delete_subseteq|]. unfold running, prune. rewrite !map_filter_delete.
    unfold in_ns. rewrite fmap_delete. f_equal. fold (running t (zset t r (leases_key scope))). by rewrite (running_zset D).
  - unfold redis_step, memory_step, RedisLease_Cleanup, MemoryLease_Cleanup. simpl. rewrite bool_decide_eq_false_2 by done. simpl.
    rewrite unix_milli_exact by lia. split; [done|]. destruct (Ha scope Hop) as [He Ho].
    apply agree_shrink; [done|done|apply map_filter_subseteq|].
    fold (running t (zset t r (leases_key scope))). by rewrite running_twice, (running_zset D), He, prune_twice.
Qed.

Lemma agree_answers xs : ∀ t m r,
  agree D t m r → Forall (λ x, t <= tm_at x) xs → StronglySorted Z.le (tm_at <$> xs) → Forall (op_valid D) xs → timely_all D r xs →
  answers (redis_step D) r xs = answers (memory_step D) m xs.
Proof.
  induction xs as [|x xs IH]; intros t m r Ha Hf Hsort Hv Htm; [done|]. simpl.
  apply Forall_cons in Hf as [Hx _]. apply Forall_cons in Hv as [Hvx Hv]. destruct Htm as [Htx Htm].
  apply StronglySorted_inv in Hsort as [Hsort Hle]. apply (agree_later D t (tm_at x)) in Ha; [|done].
  destruct (agree_one (tm_at x) m r x) as [Heq Ha']; [done..|]. rewrite Heq. f_equal.
  change (Forall (Z.le (tm_at x)) (tm_at <$> xs)) in Hle. rewrite Forall_fmap in Hle. by apply (IH (tm_at x)).
Qed.

End Refinement.

(** C38: the shared leases refine the local ones, to the millisecond.  For leases of one
    positive duration in whole milliseconds, non-empty scopes and lease ids, positive
    capacities, calls that Redis answers, replicas whose clocks agree with the server's
    on the millisecond, and any history of acquisitions, renewals, releases and clean-ups
    at times that do not go back, in which no lease is renewed after it ran out, the
    Redis coordinator gives every caller the answer that the in-process coordinator
    gives when its clock reads whole milliseconds.  (Within a millisecond, and for the
    empty scope, the two differ: [shared_leases_are_coarser].) *)
Theorem redis_leases_refine_memory D xs :
  0 < D → StronglySorted Z.le (tm_at <$> xs) → Forall (op_valid D) xs → timely_all D NewRedis xs →
  answers (redis_step D) NewRedis xs = answers (memory_step D) NewMemoryLeaseCoordinator xs.
Proof.
  intros HD Hs Hv Ht. apply (agree_answers D HD xs 0); [|by eapply Forall_impl; [exact Hv|intros x (? & _)]|done..].
  intros scope _. unfold raw, leases. simpl. rewrite !lookup_empty. simpl. unfold running, prune, in_ns. rewrite !map_filter_empty, fmap_empty.
  split; [done|]. intros members at_ Hx. simpl in Hx. by rewrite lookup_empty in Hx.
Qed.

(** ** Settlements *)

Section Settlement.
Context `{!RedisFloat}.

(** A settlement of one reservation. *)
Inductive settlement := Reconciled (actual : float64) | Released | Swept.

Definition settle_step (tenantID reservationID : string) (x : Z * settlement) (r : Redis) : bool * Redis :=
  match x.2 with
  | Reconciled actual => reconcile_script x.1 (reservation_key tenantID reservationID) (expiry_key tenantID) reservationID actual r
  | Released => release_script x.1 (reservation_key tenantID reservationID) (expiry_key tenantID) reservationID r
  | Swept => expire_script x.1 (reservation_key tenantID reservationID) (expiry_key tenantID) reservationID r
  end.

(** A reservation that is gone or has left the state reserved. *)
Definition final (key : string) (r : Redis) : Prop :=
  match rd_reservations r !! key with Some (hash, _) => rh_status hash ≠ "reserved" | None => True end.

Lemma add_delta_reservations T delta r keys : rd_reservations (foldl (add_delta T delta) r keys) = rd_reservations r.
Proof. revert r. induction keys as [|k keys IH]; intros r; [done|]. simpl. by rewrite IH. Qed.

Lemma zrem_numbers T r key member : rd_numbers (zrem T r key member) = rd_numbers r ∧ rd_reservations (zrem T r key member) = rd_reservations r.
Proof. done. Qed.

Lemma finish_final T key expiry id status delta r :
  status ≠ "reserved" → (finish_script T key expiry id status delta r).1 = true → final key (finish_script T key expiry id status delta r).2.
Proof.
  intros Hs. unfold finish_script. destruct (fetch _ _ _) as [[hash at_]|]; [|done].
  case_bool_decide; simpl; [|done]. intros _. unfold final. simpl. by rewrite lookup_insert_eq.
Qed.

Lemma fetch_final T key r hash at_ : final key r → fetch T (rd_reservations r) key = Some (hash, at_) → rh_status hash ≠ "reserved".
Proof.
  unfold final, fetch. destruct (rd_reservations r !! key) as [[h a]|]; [|done]. intros Hf. destruct (gone T a); [done|].
  by intros [= <- <-].
Qed.

Lemma settle_final tenant id x r :
  let key := reservation_key tenant id in
  final key r → final key (settle_step tenant id x r).2 ∧ rd_numbers (settle_step tenant id x r).2 = rd_numbers r ∧
  (x.2 ≠ Swept → (settle_step tenant id x r).1 = false).
Proof.
  intros key Hf. destruct x as [T x]. unfold settle_step. simpl. fold key.
  assert (∀ status delta, finish_script T key (expiry_key tenant) id status delta r = (false, r)) as Hfin.
  { intros status delta. unfold finish_script. destruct (fetch T (rd_reservations r) key) as [[hash at_]|] eqn:E; [|done].
    rewrite bool_decide_eq_false_2; [done|]. by eapply fetch_final. }
  destruct x as [actual| |]; simpl.
  - unfold reconcile_script. by rewrite Hfin.
  - unfold release_script. by rewrite Hfin.
  - unfold expire_script. cbn [zrem put_zset with_zsets rd_reservations].
    destruct (fetch T (rd_reservations r) key) as [[hash at_]|] eqn:E; [|done].
    rewrite bool_decide_eq_false_2; [done|]. by eapply fetch_final.
Qed.

(** A shared reservation settles once.  After a settlement of a reservation took
    effect, no later one does, whichever of reconciliation, release and sweep they are
    and whenever the server runs them: the window counters stay as they are, and every
    later reconciliation and release reports that the reservation is final. *)
Theorem redis_settles_once tenant id T first r xs :
  first ≠ Swept → (settle_step tenant id (T, first) r).1 = true →
  let r1 := (settle_step tenant id (T, first) r).2 in
  let after := λ xs, foldl (λ r x, (settle_step tenant id x r).2) r1 xs in
  rd_numbers (after xs) = rd_numbers r1 ∧
  ∀ T' actual l, (RedisLedger_Reconcile T' l (after xs) tenant id actual).1 ≠ None ∧ (RedisLedger_Release T' l (after xs) tenant id).1 ≠ None.
Proof.
  intros Hfirst Hok r1 after. set (key := reservation_key tenant id).
  assert (final key r1) as Hf.
  { unfold r1, settle_step in *. simpl in *. destruct first; [by apply finish_final|by apply finish_final|done]. }
  assert (final key (after xs) ∧ rd_numbers (after xs) = rd_numbers r1) as [Ha Hn].
  { unfold after. clear Hok Hfirst. revert Hf. generalize r1. induction xs as [|x xs IH]; intros r2 Hf; [done|]. simpl.
    destruct (settle_final tenant id x r2 Hf) as (Hf' & Hn' & _). destruct (IH _ Hf') as [? ->]. done. }
  split; [done|]. intros T' actual l. clear Hn. revert Ha. generalize (after xs). intros r2 Ha.
  pose proof (settle_final tenant id (T', Reconciled actual) r2 Ha) as (_ & _ & Hx).
  pose proof (settle_final tenant id (T', Released) r2 Ha) as (_ & _ & Hy). unfold settle_step in Hx, Hy. simpl in *. fold key in Hx, Hy.
  unfold RedisLedger_Reconcile, RedisLedger_Release, run_script. destruct l as [|applied context err]; [|done]. fold key. split.
  - destruct (reconcile_script _ _ _ _ _ r2) as [[] ?]; [by specialize (Hx ltac:(done))|done].
  - destruct (release_script _ _ _ _ r2) as [[] ?]; [by specialize (Hy ltac:(done))|done].
Qed.

End Settlement.

(** ** Examples *)

#[local] Instance exact_floats : RedisFloat := { incrbyfloat := f64_add; tostring14 := λ x, x }.

Definition take_lease (T : Z) (id : string) (capacity ttl : Z) : lease_op :=
  OpAcquire T (T * millisecond) (T * millisecond) (Ok id) Answers "{t}:d" capacity (ttl * millisecond).

Lemma redis_leases_within_capacity_witness :
  Z.of_nat (size (zset 7 (foldl lease_step NewRedis [take_lease 0 "a" 1 100; take_lease 5 "b" 1 100]) (leases_key "{t}:d"))) <= 1.
Proof.
  apply (redis_leases_within_capacity NewRedis [take_lease 0 "a" 1 100; take_lease 5 "b" 1 100] "{t}:d" 1); [lia|vm_compute; discriminate|].
  intros T now later fresh l capacity ttl Hin. unfold take_lease in Hin. repeat (apply elem_of_cons in Hin as [[= -> -> -> -> -> -> ->]|Hin]; [lia|]).
  by apply elem_of_nil in Hin.
Defined.

Definition example_history : list timed :=
  [{| tm_at := 0; tm_ns := 0; tm_later := 0; tm_op := LAcquire "{t}:d" "a" 1 |}; {| tm_at := 40; tm_ns := 900000; tm_later := 900000; tm_op := LAcquire "{t}:d" "b" 1 |};
   {| tm_at := 60; tm_ns := 5; tm_later := 5; tm_op := LRenew "{t}:d" "a" |}; {| tm_at := 120; tm_ns := 0; tm_later := 0; tm_op := LRelease "{t}:d" "a" |};
   {| tm_at := 130; tm_ns := 0; tm_later := 0; tm_op := LAcquire "{t}:d" "c" 1 |}].

Lemma redis_leases_refine_memory_witness :
  answers (redis_step 100) NewRedis example_history = answers (memory_step 100) NewMemoryLeaseCoordinator example_history.
Proof.
  apply (redis_leases_refine_memory 100 example_history); [lia| | |].
  - unfold example_history. simpl. repeat constructor; lia.
  - unfold example_history, op_valid, max_int64. repeat constructor; simpl; try lia; done.
  - repeat split; try exact I. intros e He. vm_compute in He. injection He as <-. done.
Defined.

(** A lease of 100 ms that is taken at 0.9 ms has run out for Redis at 100.5 ms, and is
    still held in process; in the empty scope Redis grants nothing. *)
Example shared_leases_are_coarser :
  let ttl := 100 * millisecond in
  let shared := (RedisLease_Acquire 0 900000 900000 (Ok "a") Answers NewRedis "{t}:d" 1 ttl).2 in
  let local := (MemoryLease_Acquire NewMemoryLeaseCoordinator 900000 (Ok "a") "{t}:d" 1 ttl).2 in
  (RedisLease_Acquire 100 100500000 100500000 (Ok "b") Answers shared "{t}:d" 1 ttl).1.1.1 = true ∧
  (MemoryLease_Acquire local 100500000 (Ok "b") "{t}:d" 1 ttl).1.1.1 = false ∧
  (RedisLease_Acquire 0 0 0 (Ok "a") Answers NewRedis "" 1 ttl).1.1.1 = false ∧
  (MemoryLease_Acquire NewMemoryLeaseCoordinator 0 (Ok "a") "" 1 ttl).1.1.1 = true.
Proof. vm_compute. done. Qed.

Definition day_window (limit : Z) : BudgetWindow := {| w_Key := "{t}:budget"; w_Limit := f64_of_Z limit; w_TTL := 24 * hour |}.
Definition reserve_request (id : string) (estimate limit : Z) : ReserveRequest :=
  {| rq_TenantID := "t"; rq_ReservationID := id; rq_Estimate := f64_of_Z estimate; rq_Windows := [day_window limit] |}.
Definition hourly : RedisBudgetLedger := NewRedisBudgetLedger 0.
Definition one_reserved : Redis := (RedisLedger_Reserve hourly 0 0 0 Answers NewRedis (reserve_request "r1" 40 100)).2.
Definition window_at (T : Z) (r : Redis) : option float64 := value T (rd_numbers r) "{t}:budget".

Definition once_settled : Redis := (settle_step "t" "r1" (10, Reconciled (f64_of_Z 25)) one_reserved).2.
Definition settled_again : Redis :=
  foldl (λ r x, (settle_step "t" "r1" x r).2) once_settled [(20, Released); (4000000, Swept)].

Lemma redis_settles_once_witness :
  rd_numbers settled_again = rd_numbers once_settled ∧
  (RedisLedger_Reconcile 30 Answers settled_again "t" "r1" (f64_of_Z 9)).1 ≠ None ∧
  (RedisLedger_Release 30 Answers settled_again "t" "r1").1 ≠ None.
Proof.
  destruct (redis_settles_once "t" "r1" 10 (Reconciled (f64_of_Z 25)) one_reserved [(20, Released); (4000000, Swept)])
    as [Hn Hs]; [done|vm_compute; reflexivity|].
  split; [exact Hn|]. exact (Hs 30 (f64_of_Z 9) Answers).
Defined.

Example settlement_moves_the_window :
  window_at 10 one_reserved = Some (f64_of_Z 40) ∧
  window_at 10 (RedisLedger_Reconcile 10 Answers one_reserved "t" "r1" (f64_of_Z 25)).2 = Some (f64_of_Z 25).
Proof. vm_compute. done. Qed.

(** The script checks a window only when its counter exists: the first reservation of a
    window is granted whatever its size, where the in-process ledger refuses it. *)
Example fresh_window_ignores_limit :
  (RedisLedger_Reserve hourly 0 0 0 Answers NewRedis (reserve_request "r1" 500 100)).1 = (reserved_ok, None) ∧
  (MemoryLedger_Reserve NewMemoryBudgetLedger (reserve_request "r1" 500 100)).1 = (not_reserved, None).
Proof. vm_compute. done. Qed.

(** A reservation's hash expires at the very time it becomes due for the sweep: a
    millisecond later the sweep finds nothing and its tokens stay in the window. *)
Example sweep_returns_nothing :
  let T := 3600001 in
  let swept := RedisLedger_Sweep T (T * millisecond) [] one_reserved "t" 500 in
  swept.1 = (0, None) ∧ window_at T swept.2 = Some (f64_of_Z 40) ∧
  (RedisLedger_Release T Answers one_reserved "t" "r1").1 = Some ErrAlreadyFinalized.
Proof. vm_compute. done. Qed.

(** A release after the window's counter expired creates one below zero that has no
    time to live. *)
Example late_release_leaves_credit :
  let short := {| rq_TenantID := "t"; rq_ReservationID := "r1"; rq_Estimate := f64_of_Z 40;
                  rq_Windows := [{| w_Key := "{t}:budget"; w_Limit := f64_of_Z 100; w_TTL := second |}] |} in
  let r := (RedisLedger_Reserve hourly 0 0 0 Answers NewRedis short).2 in
  window_at 1001 r = None ∧
  rd_numbers (RedisLedger_Release 1001 Answers r "t" "r1").2 !! "{t}:budget" = Some (f64_of_Z (-40), None).
Proof. vm_compute. done. Qed.

(** A lease that has run out and was not removed yet can still be renewed; the
    in-process coordinator refuses. *)
Example expired_lease_renewed :
  let taken := {| tm_at := 0; tm_ns := 0; tm_later := 0; tm_op := LAcquire "{t}:d" "a" 1 |} in
  let late := {| tm_at := 101; tm_ns := 0; tm_later := 0; tm_op := LRenew "{t}:d" "a" |} in
  answers (redis_step 100) NewRedis [taken; late] = [(true, "a", None); (true, "", None)] ∧
  answers (memory_step 100) NewMemoryLeaseCoordinator [taken; late] = [(true, "a", None); (false, "", None)].
Proof. vm_compute. done. Qed.

(** Each acquisition sets the life of the whole key by its own duration: a short lease
    makes the server forget a long one, and the capacity is granted again. *)
Example short_lease_drops_longer :
  let r := foldl lease_step NewRedis [take_lease 0 "long" 2 3600000; take_lease 0 "short" 2 1000] in
  zset 0 r (leases_key "{t}:d") !! "long" = Some 3600000 ∧ zset 61001 r (leases_key "{t}:d") = ∅.
Proof. vm_compute. done. Qed.
