(* ===== verification/Retry.v ===== *)
(** * Retry timing: internal/resilience/retry/policy.go

    [Backoff] is the exponential backoff with jitter between attempts.
    Durations are int64 nanoseconds with wrap-around. *)

From S2P Require Import Prelude.

Open Scope Z_scope.

Record Policy := {
  MaxAttemptsPerDeployment : Z; MaxTotalCalls : Z;
  AttemptTimeout : Z; TotalTimeout : Z;
  StreamTotalTimeout : Z;
  StreamIdleTimeout : Z;
  FirstTokenTimeout : Z;
  ProviderTimeout : Z;
  BaseBackoff : Z; MaxBackoff : Z }.

Definition DefaultPolicy : Policy :=
  {| MaxAttemptsPerDeployment := 2;
     MaxTotalCalls := 4;
     AttemptTimeout := 120 * second;
     TotalTimeout := 300 * second;
     StreamTotalTimeout := 0;
     StreamIdleTimeout := 60 * second;
     FirstTokenTimeout := 30 * second;
     ProviderTimeout := 120 * second;
     BaseBackoff := 200 * millisecond;
     MaxBackoff := 4 * second |}.

(** The doubling loop [for i := 1; i < retryNumber; i++]: [n] is the number of
    iterations left. *)
Fixpoint double_until (maxBackoff value : Z) (n : nat) : Z :=
  match n with
  | O => value
  | S n =>
      let value := wrap64 (value * 2) in
      if maxBackoff <=? value then maxBackoff else double_until maxBackoff value n
  end.

Definition Backoff (p : Policy) (retryNumber jitter : Z) : Z :=
  let value := double_until (MaxBackoff p) (BaseBackoff p) (Z.to_nat (retryNumber - 1)) in
  let value := wrap64 (value + jitter) in
  if MaxBackoff p <? value then MaxBackoff p else value.

(** The loop computes the capped power of two, and touches nothing when it does
    not run. *)
Lemma double_until_spec maxB value n :
  0 < value < 2 ^ 62 → 0 <= maxB <= 2 ^ 62 →
  double_until maxB value n =
    if decide (n = O) then value else Z.min maxB (value * 2 ^ Z.of_nat n).
Proof.
  intros Hv Hm. revert value Hv. induction n as [|n IH]; intros value Hv; [done|]. simpl double_until.
  rewrite Nat2Z.inj_succ, Z.pow_succ_r, decide_False by lia.
  rewrite wrap64_id by (unfold_ints; lia).
  assert (1 <= 2 ^ Z.of_nat n) by (pose proof (Z.pow_pos_nonneg 2 (Z.of_nat n)); lia).
  destruct (Z.leb_spec maxB (value * 2)); [nia|].
  rewrite IH by lia. case_decide as Hn; [subst; simpl; lia|]. f_equal. lia.
Qed.

(** The backoff in closed form.  For a policy with a positive base and a cap
    below 2^62 ns, the wait before retry [n] is exactly the base doubled [n - 1]
    times plus the jitter, capped: it never exceeds [MaxBackoff], never drops
    below the capped base, and the int64 doubling never overflows. *)
Theorem backoff_closed_form p n jitter :
  1 <= n → 0 < BaseBackoff p < 2 ^ 62 → 0 <= MaxBackoff p <= 2 ^ 62 → 0 <= jitter <= 2 ^ 62 - 1 →
  Backoff p n jitter = Z.min (MaxBackoff p) (BaseBackoff p * 2 ^ (n - 1) + jitter).
Proof.
  intros Hn Hb Hm Hj. unfold Backoff. rewrite double_until_spec by done.
  rewrite Z2Nat.id by lia. case_decide as H0.
  - replace (n - 1) with 0 by lia. rewrite wrap64_id by (unfold_ints; lia). simpl.
    destruct (Z.ltb_spec (MaxBackoff p) (BaseBackoff p + jitter)); lia.
  - assert (1 <= 2 ^ (n - 1)) by (pose proof (Z.pow_pos_nonneg 2 (n - 1)); lia).
    rewrite wrap64_id by (unfold_ints; nia).
    destruct (Z.ltb_spec (MaxBackoff p) (Z.min (MaxBackoff p) (BaseBackoff p * 2 ^ (n - 1)) + jitter)); lia.
Qed.

Lemma backoff_closed_form_witness : Backoff DefaultPolicy 4 (37 * millisecond) = 1637 * millisecond.
Proof.
  rewrite (backoff_closed_form DefaultPolicy 4 (37 * millisecond)); vm_compute; intuition discriminate.
Defined.

Example default_backoffs :
  map (λ n, Backoff DefaultPolicy n 0) [1; 2; 3; 4; 5; 6; 7; 100] =
  map (λ ms, ms * millisecond) [200; 400; 800; 1600; 3200; 4000; 4000; 4000].
Proof. reflexivity. Qed.
