(* ===== verification/Snapshot.v ===== *)
(** * Runtime snapshots: internal/kernel/runtime/snapshot.go

    The immutable tenant configuration every request captures: the compiled
    records, the constructor that indexes them, the lookups, and the registry
    that swaps a tenant's snapshot.  The source's [clone...] functions copy slices
    and maps so that no caller shares memory with the snapshot; values here are
    immutable, so a clone is the value itself.  A nil map and an empty map are
    both [∅]. *)

From S2P Require Import Prelude GoFloat.

Open Scope string_scope.
Open Scope Z_scope.

(** ** Process-wide configuration *)

Record DrainConfig := { DrainTimeoutMS : Z; StreamDrainTimeoutMS : Z; ForceShutdownTimeoutMS : Z }.
Record SecretCacheConfig := { TTLMS : Z; StaleGraceMS : Z; RotationOverlapMS : Z }.

Record GlobalRuntime := {
  gr_Version : Z; gr_PublishedAt : Z; gr_pepperRefs : gmap Z string;
  gr_drain : DrainConfig; gr_secretCache : SecretCacheConfig }.

Definition NewGlobalRuntime (version publishedAt : Z) (refs : gmap Z string)
    (drain : DrainConfig) (secretCache : SecretCacheConfig) : GlobalRuntime :=
  {| gr_Version := version; gr_PublishedAt := publishedAt; gr_pepperRefs := refs;
     gr_drain := drain; gr_secretCache := secretCache |}.

Definition PepperRef (g : GlobalRuntime) (version : Z) : option string := gr_pepperRefs g !! version.

(** ** The compiled records *)

Record Project := {
  pj_ID : string; pj_Status : string; pj_AllowedDataRegions : list string;
  pj_ResidencyEnforcement : string }.
Record Provider := {
  pv_ID : string; pv_OwnerScope : string; pv_Type : string; pv_Endpoint : string; pv_Status : string }.
Record Credential := {
  cr_ID : string; cr_ProviderID : string; cr_OwnerScope : string; cr_SecretRef : string; cr_Status : string }.
Record Deployment := {
  d_ID : string; d_ProviderID : string; d_CredentialID : string; d_UpstreamModel : string;
  d_DataRegion : string; d_Status : string;
  d_PoolID : string;
  d_Capabilities : list string;
  d_ContextWindow : Z; d_Priority : Z }.
Record RoutePolicy := {
  rp_ID : string; rp_ProjectID : string; rp_Strategy : string;
  rp_DeploymentIDs : list string;
  rp_Weights : gmap string Z;
  rp_ScoreWeights : gmap string float64;
  rp_Version : Z }.
Record LogicalModel := { lm_ID : string; lm_Alias : string; lm_RoutePolicyID : string }.
Record APIKey := {
  ak_ID : string; ak_PublicID : string; ak_ProjectID : string; ak_ApplicationID : string;
  ak_AgentID : string; ak_ServiceAccountID : string; ak_Status : string;
  ak_HMACDigest : list Z;
  ak_PepperVersion : Z;
  ak_ExpiresAt : option Z;
  ak_ModelAllowlist : list string; ak_IPAllowlist : list string }.
Record BudgetPolicy := {
  bp_ID : string; bp_TenantID : string; bp_ProjectID : string; bp_KeyID : string;
  bp_WindowHours : Z; bp_TokenLimit : float64; bp_Mode : string; bp_Consistency : string }.
Record SpoolPolicy := {
  sp_Mode : string; sp_WarnThreshold : float64; sp_CriticalThreshold : float64;
  sp_HardThreshold : float64; sp_QuotaBytes : Z }.
Record SemanticCachePolicy := { sc_Enabled : bool; sc_Model : string; sc_Threshold : float64 }.
Record CachePolicy := {
  cp_Enabled : bool; cp_TTLSeconds : Z; cp_NamespaceVersion : Z; cp_AllowedKinds : list string;
  cp_MaxTemperature : float64; cp_Semantic : SemanticCachePolicy }.
Record MCPServer := { ms_ID : string; ms_URL : string; ms_Status : string }.
Record Tool := {
  tl_ID : string; tl_ServerID : string; tl_Name : string; tl_DataClassification : string;
  tl_Endpoint : string; tl_Status : string; tl_Schema : list Z; tl_CapabilityTags : list string }.
Record ToolPolicy := {
  tp_ToolID : string; tp_ProjectID : string; tp_AllowedAgentIDs : list string;
  tp_Allowed : bool; tp_RequireApproval : bool }.
Record Agent := {
  ag_ID : string; ag_ProjectID : string; ag_Name : string; ag_Status : string;
  ag_CurrentVersion : string; ag_Capabilities : list string; ag_RequireApproval : bool }.
Record AgentEndpoint := {
  ae_ID : string; ae_AgentID : string; ae_Version : string; ae_URL : string; ae_Protocol : string;
  ae_AuthScheme : string; ae_SecretRef : string; ae_Headers : gmap string string;
  ae_DataClassification : string; ae_Capabilities : list string }.
Record FederatedAgent := {
  fa_ID : string; fa_Name : string; fa_ExternalSubject : string; fa_Status : string;
  fa_TrustBoundary : string }.
Record FederationRelationship := {
  fr_ID : string; fr_ExternalAgentID : string; fr_Status : string; fr_AssuranceLevel : string;
  fr_HasVerifiedAnchor : bool; fr_Direction : string; fr_ProjectGrants : list string;
  fr_CapabilityGrants : list string; fr_BoundaryStatus : string; fr_ProcessingRegions : list string;
  fr_ApprovedVersion : string }.
Record GuardrailRule := {
  gl_ID : string; gl_Kind : string; gl_Pattern : string; gl_Action : string; gl_Replacement : string }.
Record GuardrailJudge := { gj_Enabled : bool; gj_Model : string; gj_Action : string }.
Record GuardrailGroundedness := { gg_Enabled : bool; gg_MinOverlap : float64 }.
Record GuardrailPolicy := {
  gp_Mode : string; gp_SecurityEpoch : Z; gp_Rules : list GuardrailRule; gp_Judge : GuardrailJudge;
  gp_Groundedness : GuardrailGroundedness }.
Record PoolMember := { pm_CredentialID : string; pm_Weight : Z }.
Record CredentialPool := {
  pl_ID : string; pl_ProviderID : string; pl_TenantID : string; pl_Strategy : string;
  pl_Members : list PoolMember }.
Record LeaseConfig := { le_DeploymentID : string; le_Capacity : Z; le_TTLSeconds : Z }.
Record CircuitConfig := {
  cc_MinSamples : Z; cc_ErrorRate : float64; cc_InitialCooldownMS : Z; cc_MaxCooldownMS : Z;
  cc_CooldownFactor : float64 }.
Record DriftMetadata := { dm_Version : Z; dm_GraceMS : Z; dm_Strict : bool; dm_SecurityEpoch : Z }.

Record TenantSnapshotData := {
  td_TenantID : string; td_TenantRef : string; td_Status : string;
  td_Version : Z; td_SecurityEpoch : Z;
  td_PublishedAt : Z;
  td_Projects : list Project;
  td_Providers : list Provider;
  td_Credentials : list Credential;
  td_Deployments : list Deployment;
  td_RoutePolicies : list RoutePolicy;
  td_LogicalModels : list LogicalModel;
  td_APIKeys : list APIKey;
  td_BudgetPolicies : list BudgetPolicy;
  td_CredentialPools : list CredentialPool;
  td_Leases : list LeaseConfig;
  td_Circuit : CircuitConfig;
  td_Drift : DriftMetadata;
  td_Spool : SpoolPolicy;
  td_Cache : CachePolicy;
  td_MCPServers : list MCPServer;
  td_Tools : list Tool;
  td_ToolPolicies : list ToolPolicy;
  td_Agents : list Agent;
  td_AgentEndpoints : list AgentEndpoint;
  td_FederatedAgents : list FederatedAgent;
  td_FederationRelationships : list FederationRelationship;
  td_Guardrail : GuardrailPolicy }.

Record TenantRuntimeSnapshot := {
  sn_TenantID : string;
  sn_TenantRef : string;
  sn_Status : string;
  sn_Version : Z;
  sn_SecurityEpoch : Z;
  sn_PublishedAt : Z;
  sn_projects : gmap string Project;
  sn_providers : gmap string Provider;
  sn_credentials : gmap string Credential;
  sn_deployments : gmap string Deployment;
  sn_routePolicies : gmap string RoutePolicy;
  sn_logicalModels : gmap string LogicalModel;
  sn_apiKeys : gmap string APIKey;
  sn_budgetPolicies : gmap string BudgetPolicy;
  sn_credentialPools : gmap string CredentialPool;
  sn_leases : gmap string LeaseConfig;
  sn_circuit : CircuitConfig;
  sn_drift : DriftMetadata;
  sn_spool : SpoolPolicy;
  sn_cache : CachePolicy;
  sn_mcpServers : gmap string MCPServer;
  sn_tools : gmap string Tool;
  sn_toolPolicies : gmap string ToolPolicy;
  sn_agents : gmap string Agent;
  sn_agentEndpoints : gmap string AgentEndpoint;
  sn_capabilityIndex : gmap string (list string);
  sn_federatedAgents : gmap string FederatedAgent;
  sn_federatedRels : gmap string FederationRelationship;
  sn_guardrail : GuardrailPolicy;
  sn_sourceData : TenantSnapshotData }.

(** ** The constructor *)

Definition indexCapabilities (index : gmap string (list string)) (agentID : string)
    (capabilities : list string) : gmap string (list string) :=
  foldl (λ index capability,
           let existing := default [] (index !! capability) in
           if bool_decide (agentID ∈ existing) then index
           else <[capability := (existing ++ [agentID])%list]> index)
        index capabilities.

Definition capability_index (data : TenantSnapshotData) : gmap string (list string) :=
  let byAgent := foldl (λ ix a, indexCapabilities ix (ag_ID a) (ag_Capabilities a)) ∅ (td_Agents data) in
  foldl (λ ix e, indexCapabilities ix (ae_AgentID e) (ae_Capabilities e)) byAgent (td_AgentEndpoints data).

Definition NewTenantSnapshot (data : TenantSnapshotData) : TenantRuntimeSnapshot :=
  {| sn_TenantID := td_TenantID data; sn_TenantRef := td_TenantRef data; sn_Status := td_Status data;
     sn_Version := td_Version data; sn_SecurityEpoch := td_SecurityEpoch data;
     sn_PublishedAt := td_PublishedAt data;
     sn_projects := index_by pj_ID (td_Projects data);
     sn_providers := index_by pv_ID (td_Providers data);
     sn_credentials := index_by cr_ID (td_Credentials data);
     sn_deployments := index_by d_ID (td_Deployments data);
     sn_routePolicies := index_by rp_ID (td_RoutePolicies data);
     sn_logicalModels := index_by lm_Alias (td_LogicalModels data);
     sn_apiKeys := index_by ak_PublicID (td_APIKeys data);
     sn_budgetPolicies := index_by bp_ID (td_BudgetPolicies data);
     sn_credentialPools := index_by pl_ID (td_CredentialPools data);
     sn_leases := index_by le_DeploymentID (td_Leases data);
     sn_circuit := td_Circuit data;
     sn_drift := td_Drift data;
     sn_spool := td_Spool data;
     sn_cache := td_Cache data;
     sn_mcpServers := index_by ms_ID (td_MCPServers data);
     sn_tools := index_by tl_ID (td_Tools data);
     sn_toolPolicies := index_by (λ t, tp_ProjectID t +:+ ":" +:+ tp_ToolID t) (td_ToolPolicies data);
     sn_agents := index_by ag_ID (td_Agents data);
     sn_agentEndpoints := index_by ae_ID (td_AgentEndpoints data);
     sn_capabilityIndex := capability_index data;
     sn_federatedAgents := index_by fa_ID (td_FederatedAgents data);
     sn_federatedRels := index_by fr_ID (td_FederationRelationships data);
     sn_guardrail := td_Guardrail data;
     sn_sourceData := data |}.

(** ** Lookups *)

Definition snapshot_project (s : TenantRuntimeSnapshot) (id : string) := sn_projects s !! id.
Definition snapshot_provider (s : TenantRuntimeSnapshot) (id : string) := sn_providers s !! id.
Definition snapshot_credential (s : TenantRuntimeSnapshot) (id : string) := sn_credentials s !! id.
Definition snapshot_deployment (s : TenantRuntimeSnapshot) (id : string) := sn_deployments s !! id.
Definition snapshot_routePolicy (s : TenantRuntimeSnapshot) (id : string) := sn_routePolicies s !! id.
Definition snapshot_logicalModel (s : TenantRuntimeSnapshot) (alias : string) := sn_logicalModels s !! alias.
Definition snapshot_apiKey (s : TenantRuntimeSnapshot) (publicID : string) := sn_apiKeys s !! publicID.
Definition snapshot_budgetPolicy (s : TenantRuntimeSnapshot) (id : string) := sn_budgetPolicies s !! id.
Definition snapshot_credentialPool (s : TenantRuntimeSnapshot) (id : string) := sn_credentialPools s !! id.
Definition snapshot_lease (s : TenantRuntimeSnapshot) (deploymentID : string) := sn_leases s !! deploymentID.
Definition snapshot_tool (s : TenantRuntimeSnapshot) (id : string) := sn_tools s !! id.
Definition snapshot_toolPolicy (s : TenantRuntimeSnapshot) (projectID toolID : string) :=
  sn_toolPolicies s !! (projectID +:+ ":" +:+ toolID).
Definition snapshot_agent (s : TenantRuntimeSnapshot) (id : string) := sn_agents s !! id.
Definition snapshot_agentEndpoint (s : TenantRuntimeSnapshot) (id : string) := sn_agentEndpoints s !! id.
Definition snapshot_federatedAgent (s : TenantRuntimeSnapshot) (id : string) := sn_federatedAgents s !! id.
Definition snapshot_federationRelationship (s : TenantRuntimeSnapshot) (id : string) :=
  sn_federatedRels s !! id.
Definition AgentsByCapability (s : TenantRuntimeSnapshot) (capability : string) : list string :=
  default [] (sn_capabilityIndex s !! capability).

(** [snapshotCollectSorted] under a key that is unique in the map. *)
Definition snapshotCollectSorted {T} (stored : gmap string T) (less : T → T → bool) : list T :=
  stable_sort less (map_to_list stored).*2.

Definition LogicalModels (s : TenantRuntimeSnapshot) : list LogicalModel :=
  snapshotCollectSorted (sn_logicalModels s) (λ a b, str_less (lm_Alias a) (lm_Alias b)).
Definition BudgetPolicies (s : TenantRuntimeSnapshot) : list BudgetPolicy :=
  snapshotCollectSorted (sn_budgetPolicies s) (λ a b, str_less (bp_ID a) (bp_ID b)).

(** ** The active registry *)

(** A tenant slot holds a pointer that may be nil. *)
Record ActiveRegistry := {
  ar_global : option GlobalRuntime;
  ar_tenants : gmap string (option TenantRuntimeSnapshot) }.

Definition ActivateGlobal (r : ActiveRegistry) (value : option GlobalRuntime) : ActiveRegistry :=
  {| ar_global := value; ar_tenants := ar_tenants r |}.

Definition Tenant (r : ActiveRegistry) (ref : string) : option TenantRuntimeSnapshot :=
  mjoin (ar_tenants r !! ref).

Definition ActivateTenant (r : ActiveRegistry) (ref : string) (snapshot : option TenantRuntimeSnapshot) :
    ActiveRegistry :=
  {| ar_global := ar_global r; ar_tenants := <[ref := snapshot]> (ar_tenants r) |}.

Definition HasAnyTenant (r : ActiveRegistry) : bool :=
  bool_decide (Exists (λ p : string * option TenantRuntimeSnapshot, is_Some p.2) (map_to_list (ar_tenants r))).

(** ** Lemmas *)

Definition indexed (ix : gmap string (list string)) (c : string) : list string := default [] (ix !! c).

Lemma indexCapabilities_spec ix a caps c :
  NoDup (indexed ix c) →
  NoDup (indexed (indexCapabilities ix a caps) c) ∧
  (∀ x, x ∈ indexed (indexCapabilities ix a caps) c ↔ x ∈ indexed ix c ∨ (x = a ∧ c ∈ caps)).
Proof.
  unfold indexCapabilities. revert ix. induction caps as [|cap caps IH]; intros ix Hnd; simpl.
  - split; [done|]. set_solver.
  - fold (indexed ix cap). set (ix' := if (bool_decide _ : bool) then ix else _).
    assert (NoDup (indexed ix' c) ∧ ∀ x, x ∈ indexed ix' c ↔ x ∈ indexed ix c ∨ (x = a ∧ c = cap)) as [Hn Hx].
    { subst ix'. case_bool_decide as Hin.
      - split; [done|]. intros x. split; [by left|]. intros [?|[-> ->]]; done.
      - unfold indexed in *. destruct (decide (c = cap)) as [->|Hne].
        + rewrite lookup_insert_eq. simpl. split; [|set_solver].
          apply NoDup_app. split_and!; [done|set_solver|apply NoDup_singleton].
        + rewrite lookup_insert_ne by done. split; [done|]. naive_solver. }
    destruct (IH ix' Hn) as [Hn' Hx']. split; [done|]. intros x. rewrite Hx', Hx. set_solver.
Qed.

Lemma index_fold_spec {T} (name : T → string) (caps : T → list string) l ix c :
  NoDup (indexed ix c) →
  let ix' := foldl (λ ix x, indexCapabilities ix (name x) (caps x)) ix l in
  NoDup (indexed ix' c) ∧
  (∀ a, a ∈ indexed ix' c ↔ a ∈ indexed ix c ∨ ∃ x, x ∈ l ∧ name x = a ∧ c ∈ caps x).
Proof.
  revert ix. induction l as [|y l IH]; intros ix Hnd; simpl.
  - split; [done|]. set_solver.
  - destruct (indexCapabilities_spec ix (name y) (caps y) c Hnd) as [Hn Hx].
    destruct (IH _ Hn) as [Hn' Hx']. split; [done|]. intros a. rewrite Hx', Hx. set_solver.
Qed.

(** The capability index is exact.  In a compiled snapshot the agents listed
    for a capability are precisely the agents that declare it themselves or
    through one of their endpoints, each listed once. *)
Theorem capability_index_exact data capability :
  let s := NewTenantSnapshot data in
  NoDup (AgentsByCapability s capability) ∧
  ∀ a, a ∈ AgentsByCapability s capability ↔
    (∃ x, x ∈ td_Agents data ∧ ag_ID x = a ∧ capability ∈ ag_Capabilities x) ∨
    (∃ x, x ∈ td_AgentEndpoints data ∧ ae_AgentID x = a ∧ capability ∈ ae_Capabilities x).
Proof.
  unfold AgentsByCapability. simpl. unfold capability_index.
  destruct (index_fold_spec ag_ID ag_Capabilities (td_Agents data) ∅ capability) as [Hn Hx].
  { unfold indexed. rewrite lookup_empty. apply NoDup_nil_2. }
  destruct (index_fold_spec ae_AgentID ae_Capabilities (td_AgentEndpoints data) _ capability Hn) as [Hn' Hx'].
  split; [exact Hn'|]. intros a. etransitivity; [apply (Hx' a)|]. rewrite Hx.
  unfold indexed. rewrite lookup_empty. set_solver.
Qed.

Lemma Tenant_activate r ref snapshot ref' :
  Tenant (ActivateTenant r ref snapshot) ref' = if decide (ref = ref') then snapshot else Tenant r ref'.
Proof. unfold Tenant. simpl. rewrite lookup_insert. by case_decide. Qed.

(** ** A tenant for the witnesses *)

(** A tenant with three deployments, one of them disabled. *)
Definition example_deployment (id status : string) : Deployment :=
  {| d_ID := id; d_ProviderID := "pv"; d_CredentialID := "cr"; d_UpstreamModel := "m"; d_DataRegion := "eu";
     d_Status := status; d_PoolID := ""; d_Capabilities := ["chat"]; d_ContextWindow := 8000; d_Priority := 1 |}.

Definition example_tenant (strategy : string) (cache : CachePolicy) (budgets : list BudgetPolicy) : TenantSnapshotData :=
  {| td_TenantID := "t"; td_TenantRef := "acme"; td_Status := "active"; td_Version := 7; td_SecurityEpoch := 1;
     td_PublishedAt := 0;
     td_Projects := [{| pj_ID := "proj"; pj_Status := "active"; pj_AllowedDataRegions := ["eu"];
                        pj_ResidencyEnforcement := "strict" |}];
     td_Providers := [{| pv_ID := "pv"; pv_OwnerScope := "tenant"; pv_Type := "openai"; pv_Endpoint := "";
                         pv_Status := "enabled" |}];
     td_Credentials := [{| cr_ID := "cr"; cr_ProviderID := "pv"; cr_OwnerScope := "tenant"; cr_SecretRef := "";
                           cr_Status := "enabled" |}];
     td_Deployments := [example_deployment "d3" "enabled"; example_deployment "d2" "disabled";
                        example_deployment "d1" "enabled"];
     td_RoutePolicies := [{| rp_ID := "rp"; rp_ProjectID := ""; rp_Strategy := strategy;
                             rp_DeploymentIDs := ["d1"; "d2"; "d3"]; rp_Weights := {["d3" := 4]};
                             rp_ScoreWeights := ∅; rp_Version := 1 |}];
     td_LogicalModels := [{| lm_ID := "lm"; lm_Alias := "gpt"; lm_RoutePolicyID := "rp" |}];
     td_APIKeys := []; td_BudgetPolicies := budgets; td_CredentialPools := [];
     td_Leases := [{| le_DeploymentID := "d1"; le_Capacity := 1; le_TTLSeconds := 60 |}];
     td_Circuit := {| cc_MinSamples := 10; cc_ErrorRate := (f64_const 1 2); cc_InitialCooldownMS := 30000;
                      cc_MaxCooldownMS := 600000; cc_CooldownFactor := (f64_of_Z 2) |};
     td_Drift := {| dm_Version := 0; dm_GraceMS := 0; dm_Strict := false; dm_SecurityEpoch := 0 |};
     td_Spool := {| sp_Mode := "hard"; sp_WarnThreshold := f64_one; sp_CriticalThreshold := f64_one;
                    sp_HardThreshold := f64_one; sp_QuotaBytes := 0 |};
     td_Cache := cache;
     td_MCPServers := []; td_Tools := []; td_ToolPolicies := []; td_Agents := []; td_AgentEndpoints := [];
     td_FederatedAgents := []; td_FederationRelationships := [];
     td_Guardrail := {| gp_Mode := ""; gp_SecurityEpoch := 0; gp_Rules := [];
                        gp_Judge := {| gj_Enabled := false; gj_Model := ""; gj_Action := "" |};
                        gp_Groundedness := {| gg_Enabled := false; gg_MinOverlap := f64_zero |} |} |}.

Definition no_cache : CachePolicy :=
  {| cp_Enabled := false; cp_TTLSeconds := 0; cp_NamespaceVersion := 0; cp_AllowedKinds := [];
     cp_MaxTemperature := f64_zero;
     cp_Semantic := {| sc_Enabled := false; sc_Model := ""; sc_Threshold := f64_zero |} |}.

Definition example_data (strategy : string) : TenantSnapshotData := example_tenant strategy no_cache [].

Definition example_key : APIKey :=
  {| ak_ID := "k"; ak_PublicID := "pub"; ak_ProjectID := "proj"; ak_ApplicationID := ""; ak_AgentID := "";
     ak_ServiceAccountID := ""; ak_Status := "active"; ak_HMACDigest := []; ak_PepperVersion := 1;
     ak_ExpiresAt := None; ak_ModelAllowlist := ["gpt"]; ak_IPAllowlist := [] |}.
