(* ===== verification/CredentialPool.v ===== *)
(** * Credential pools: internal/resilience/credentialpool

    [pool.go] orders the eligible credentials of a deployment by strategy and
    hands them out one per attempt; [snapshot.go] derives eligibility from the
    tenant snapshot, the circuit and optional hooks.  A nil [State] dereferenced
    by a comparison is a panic, the outer [None] of [Order]. *)

From S2P Require Import Prelude GoFloat GoStd Snapshot.

Open Scope string_scope.
Open Scope Z_scope.

(** ** pool.go *)

Definition RoundRobin : string := "round_robin".
Definition Weighted : string := "weighted".
Definition LeastInflight : string := "least_inflight".
Definition QuotaAware : string := "quota_aware".

Definition ErrNoEligibleCredential : error := ErrNew "no eligible credential".
Definition ErrExhausted : error := ErrNew "credential pool exhausted".

Record Member := { mb_CredentialID : string; mb_Weight : Z }.

(** The [State] interface, at the moment of a call. *)
Record State := {
  Eligible : string → bool;
  Inflight : string → Z;
  Cost : string → float64;
  Quota : string → float64 * float64 }.

Record Pool := { p_strategy : string; p_members : list Member; p_state : option State }.

Definition New (strategy : string) (members : list Member) (state : option State) : result Pool :=
  match members with
  | [] => Err (ErrNew "credential pool has no members")
  | _ =>
      if bool_decide (strategy ∈ [RoundRobin; Weighted; LeastInflight; QuotaAware])
      then Ok {| p_strategy := strategy; p_members := members; p_state := state |}
      else Err (ErrNew ("unsupported pool strategy " +:+ strategy))
  end.

Record candidate := { c_id : string; c_weight : Z }.

Definition MaxFloat64 : float64 := S754_finite false 9007199254740991 971.

Definition quotaRatio (state : State) (id : string) : float64 :=
  let '(used, limit) := Quota state id in
  if f64_leb limit f64_zero then MaxFloat64 else f64_div used limit.

Definition hashKey (key : string) : Z := hash64 key.

Definition weightedScore (key id : string) (weight : Z) : float64 :=
  let value := hash64 (key +:+ String (Ascii.ascii_of_nat 0) id) in
  let unit := f64_div (f64_add (f64_of_Z value) f64_one) (f64_add (f64_of_Z 18446744073709551615) f64_one) in
  f64_div (f64_neg (f64_log unit)) (f64_of_Z weight).

Definition state_eligible (state : option State) (id : string) : bool :=
  match state with Some s => Eligible s id | None => true end.

Definition eligible_candidates (p : Pool) : list candidate :=
  (λ m, {| c_id := mb_CredentialID m; c_weight := if mb_Weight m <=? 0 then 1 else mb_Weight m |}) <$>
  filter (λ m, state_eligible (p_state p) (mb_CredentialID m) = true) (p_members p).

(** [left == right ? id order : left < right]. *)
Definition inflight_less (s : State) (a b : candidate) : bool :=
  let left := Inflight s (c_id a) in
  let right := Inflight s (c_id b) in
  if left =? right then str_less (c_id a) (c_id b) else left <? right.

Definition quota_less (s : State) (a b : candidate) : bool :=
  let left := quotaRatio s (c_id a) in
  let right := quotaRatio s (c_id b) in
  if f64_eqb left right then str_less (c_id a) (c_id b) else f64_ltb left right.

(** A sort with a comparison that reads the state; a single element is never
    compared. *)
Definition sort_with_state (less : State → candidate → candidate → bool) (state : option State)
    (l : list candidate) : option (list candidate) :=
  match state with
  | Some s => Some (stable_sort (less s) l)
  | None => if (length l <=? 1)%nat then Some l else None
  end.

Definition order_candidates (p : Pool) (key : string) (eligible : list candidate) : option (list candidate) :=
  if bool_decide (p_strategy p = Weighted) then
    (* scores[item.id]: the last candidate of an id sets its score *)
    let scores := foldl (λ m c, <[c_id c := weightedScore key (c_id c) (c_weight c)]> m)
                    (∅ : gmap string float64) eligible in
    let score c := default f64_zero (scores !! c_id c) in
    Some (stable_sort (λ a b, f64_ltb (score a) (score b)) eligible)
  else if bool_decide (p_strategy p = LeastInflight) then sort_with_state inflight_less (p_state p) eligible
  else if bool_decide (p_strategy p = QuotaAware) then sort_with_state quota_less (p_state p) eligible
  else
    let start := if bool_decide (key = "") then O
                 else Z.to_nat (hashKey key mod Z.of_nat (length eligible)) in
    Some (drop start eligible ++ take start eligible)%list.

Definition Order (p : Pool) (key : string) : option (result (list string)) :=
  match eligible_candidates p with
  | [] => Some (Err ErrNoEligibleCredential)
  | eligible => (λ l : list candidate, Ok (c_id <$> l)) <$> order_candidates p key eligible
  end.

Definition Select (p : Pool) (key : string) : option (result string) :=
  match Order p key with
  | Some (Ok (id :: _)) => Some (Ok id)
  | Some (Ok []) => None
  | Some (Err e) => Some (Err e)
  | None => None
  end.

Record Picker := { pk_order : list string; pk_index : nat }.

Definition NewPicker (p : Pool) (key : string) : option (result Picker) :=
  match Order p key with
  | Some (Ok order) => Some (Ok {| pk_order := order; pk_index := 0 |})
  | Some (Err e) => Some (Err e)
  | None => None
  end.

Definition Next (p : Picker) : result string * Picker :=
  match pk_order p !! pk_index p with
  | Some id => (Ok id, {| pk_order := pk_order p; pk_index := S (pk_index p) |})
  | None => (Err ErrExhausted, p)
  end.

(** ** snapshot.go *)

Record SnapshotState := {
  ss_snapshot : TenantRuntimeSnapshot;
  ss_inflight : option (string → Z);
  ss_cost : option (string → float64);
  ss_quota : option (string → float64 * float64);
  ss_circuitOpen : option (string → string → bool);
  ss_deploymentID : string }.

Definition NewSnapshotState (snapshot : TenantRuntimeSnapshot) (deploymentID : string) : SnapshotState :=
  {| ss_snapshot := snapshot; ss_inflight := None; ss_cost := None; ss_quota := None;
     ss_circuitOpen := None; ss_deploymentID := deploymentID |}.

Definition snapshot_Eligible (s : SnapshotState) (credentialID : string) : bool :=
  match snapshot_credential (ss_snapshot s) credentialID with
  | None => false
  | Some credential =>
      if bool_decide (cr_Status credential ≠ "enabled") then false
      else match snapshot_provider (ss_snapshot s) (cr_ProviderID credential) with
           | None => false
           | Some provider =>
               if bool_decide (pv_Status provider ≠ "enabled") then false
               else match ss_circuitOpen s with
                    | Some open => negb (open (ss_deploymentID s) credentialID)
                    | None => true
                    end
           end
  end.

Definition snapshot_state (s : SnapshotState) : State :=
  {| Eligible := snapshot_Eligible s;
     Inflight := λ id, match ss_inflight s with Some f => f id | None => 0 end;
     Cost := λ id, match ss_cost s with Some f => f id | None => f64_zero end;
     Quota := λ id, match ss_quota s with Some f => f id | None => (f64_zero, f64_zero) end |}.

Definition FromSnapshot (snapshot : TenantRuntimeSnapshot) (deployment : Deployment) (state : option State) :
    result Pool :=
  if bool_decide (d_PoolID deployment ≠ "") then
    match snapshot_credentialPool snapshot (d_PoolID deployment) with
    | None => Err (ErrNew "credential pool not found in snapshot")
    | Some pool =>
        New (pl_Strategy pool)
          ((λ m, {| mb_CredentialID := pm_CredentialID m; mb_Weight := pm_Weight m |}) <$> pl_Members pool) state
    end
  else if bool_decide (d_CredentialID deployment = "")
  then Err (ErrNew "deployment has neither pool nor credential")
  else New RoundRobin [{| mb_CredentialID := d_CredentialID deployment; mb_Weight := 0 |}] state.

(** ** Properties *)

(** The credentials a pool may use now, in membership order. *)
Definition eligible_ids (p : Pool) : list string :=
  filter (λ id, state_eligible (p_state p) id = true) (mb_CredentialID <$> p_members p).

Lemma eligible_candidates_ids p : c_id <$> eligible_candidates p = eligible_ids p.
Proof.
  unfold eligible_candidates, eligible_ids. rewrite <- list_fmap_compose.
  induction (p_members p) as [|m l IH]; [done|]. rewrite fmap_cons, !filter_cons.
  case_decide; rewrite ?fmap_cons, IH; done.
Qed.

Lemma order_candidates_perm p key l l' : order_candidates p key l = Some l' → l' ≡ₚ l.
Proof.
  unfold order_candidates, sort_with_state. repeat case_match; intros [= <-];
    rewrite ?stable_sort_perm; try done; by rewrite Permutation_app_comm, take_drop.
Qed.

(** Draining a picker: what successive calls of [Next] give. *)
Fixpoint drain (n : nat) (p : Picker) : list (result string) :=
  match n with
  | O => []
  | S n => let '(r, p) := Next p in r :: drain n p
  end.

Lemma drain_picker order i n :
  (i + n <= length order)%nat →
  drain n {| pk_order := order; pk_index := i |} = Ok <$> take n (drop i order).
Proof.
  revert i. induction n as [|n IH]; intros i Hi; [done|]. simpl. unfold Next. simpl.
  destruct (order !! i) as [x|] eqn:E; [|apply lookup_ge_None in E; lia].
  rewrite (drop_S _ _ _ E). simpl. f_equal. apply IH. lia.
Qed.

Lemma drain_over order i n m :
  (i + n)%nat = length order →
  drain (n + m) {| pk_order := order; pk_index := i |} =
    ((Ok <$> drop i order) ++ replicate m (Err ErrExhausted))%list.
Proof.
  revert i. induction n as [|n IH]; intros i Hi; simpl.
  - rewrite drop_ge by lia. simpl.
    induction m as [|m IHm]; [done|]. simpl. unfold Next at 1. simpl.
    rewrite lookup_ge_None_2 by lia. by rewrite IHm.
  - unfold Next. simpl. destruct (order !! i) as [x|] eqn:E; [|apply lookup_ge_None in E; lia].
    rewrite (drop_S _ _ _ E). simpl. f_equal. apply IH. lia.
Qed.

(** Rotation visits every eligible credential exactly once.  Whatever the
    strategy and key, a pool that has an eligible credential yields a rotation
    that is a permutation of its eligible members, and the picker hands out
    that rotation in order and answers "exhausted" ever after; a pool with none
    answers with the no-eligible error and no ineligible credential is ever
    handed out. *)
Theorem pool_rotation_complete p key extra :
  p_state p ≠ None →
  match eligible_ids p with
  | [] => NewPicker p key = Some (Err ErrNoEligibleCredential)
  | ids =>
      ∃ picker order, NewPicker p key = Some (Ok picker) ∧ order ≡ₚ ids ∧
        drain (length ids + extra) picker = ((Ok <$> order) ++ replicate extra (Err ErrExhausted))%list
  end.
Proof.
  intros Hst. unfold NewPicker, Order. rewrite <- eligible_candidates_ids.
  destruct (eligible_candidates p) as [|c l] eqn:El; [done|].
  assert (∃ l', order_candidates p key (c :: l) = Some l') as [l' Hl'].
  { unfold order_candidates, sort_with_state. destruct (p_state p); [|done]. repeat case_match; eauto. }
  simpl. rewrite Hl'. simpl. apply order_candidates_perm in Hl' as Hp.
  exists {| pk_order := c_id <$> l'; pk_index := 0 |}, (c_id <$> l'). split_and!; [done|by rewrite Hp|].
  assert (length (c_id <$> l') = S (length (c_id <$> l))) as Hlen by (rewrite !length_fmap, Hp; done).
  pose proof (drain_over (c_id <$> l') 0 _ extra eq_refl) as Hd. rewrite Hlen, drop_0 in Hd. exact Hd.
Qed.

Lemma inflight_less_asym s a b : inflight_less s a b = true → inflight_less s b a = false.
Proof.
  unfold inflight_less. rewrite (Z.eqb_sym (Inflight s (c_id b))).
  destruct (Z.eqb_spec (Inflight s (c_id a)) (Inflight s (c_id b))); [apply str_less_asym|].
  rewrite Z.ltb_lt, Z.ltb_ge. lia.
Qed.

Lemma inflight_less_trans s a b c :
  inflight_less s b a = false → inflight_less s c b = false → inflight_less s c a = false.
Proof.
  unfold inflight_less.
  destruct (Z.eqb_spec (Inflight s (c_id b)) (Inflight s (c_id a))),
    (Z.eqb_spec (Inflight s (c_id c)) (Inflight s (c_id b))),
    (Z.eqb_spec (Inflight s (c_id c)) (Inflight s (c_id a))); try lia; rewrite ?Z.ltb_ge; try lia.
  by apply str_less_trans.
Qed.

(** Least-inflight selection picks a least loaded credential.  The credential
    [Select] returns is eligible, and no eligible credential of the pool has fewer
    requests in flight. *)
Theorem least_inflight_minimal p s key id :
  p_strategy p = LeastInflight → p_state p = Some s → Select p key = Some (Ok id) →
  id ∈ eligible_ids p ∧ ∀ id', id' ∈ eligible_ids p → Inflight s id <= Inflight s id'.
Proof.
  intros Hs Hst. unfold Select, Order. rewrite <- eligible_candidates_ids.
  destruct (eligible_candidates p) as [|c l] eqn:El; [done|]. rewrite <- El. clear El.
  generalize (eligible_candidates p). clear c l. intros l.
  unfold order_candidates. rewrite Hs. simpl. unfold sort_with_state. rewrite Hst. simpl.
  pose proof (stable_sort_sorted (inflight_less s) (inflight_less_asym s) (inflight_less_trans s) l) as Hsort.
  pose proof (stable_sort_perm (inflight_less s) l) as Hp.
  destruct (stable_sort (inflight_less s) l) as [|x r]; [done|]. simpl. intros [= <-].
  rewrite <- Hp. split; [simpl; set_solver|].
  intros id' (c'&->&Hc')%list_elem_of_fmap. rewrite <- Hp in Hc'. apply elem_of_cons in Hc' as [->|Hc']; [lia|].
  apply StronglySorted_inv in Hsort as [_ Hall]. rewrite Forall_forall in Hall.
  specialize (Hall _ Hc'). unfold not_after, inflight_less in Hall.
  destruct (Z.eqb_spec (Inflight s (c_id c')) (Inflight s (c_id x))); [lia|]. apply Z.ltb_ge in Hall. lia.
Qed.

(** ** Concrete instances of the properties *)

Definition example_state : State :=
  {| Eligible := λ id, negb (bool_decide (id = "b"));
     Inflight := λ id, if bool_decide (id = "a") then 5 else 2;
     Cost := λ _, f64_zero; Quota := λ _, (f64_zero, f64_one) |}.

Definition example_pool (strategy : string) : Pool :=
  {| p_strategy := strategy;
     p_members := [{| mb_CredentialID := "a"; mb_Weight := 0 |}; {| mb_CredentialID := "b"; mb_Weight := 3 |};
                   {| mb_CredentialID := "c"; mb_Weight := 1 |}];
     p_state := Some example_state |}.

Lemma pool_rotation_complete_witness :
  ∃ picker order, NewPicker (example_pool Weighted) "req-1" = Some (Ok picker) ∧ order ≡ₚ ["a"; "c"] ∧
    drain 3 picker = ((Ok <$> order) ++ [Err ErrExhausted])%list.
Proof. apply (pool_rotation_complete (example_pool Weighted) "req-1" 1). done. Defined.

Lemma least_inflight_minimal_witness :
  "c" ∈ eligible_ids (example_pool LeastInflight) ∧
  ∀ id', id' ∈ eligible_ids (example_pool LeastInflight) →
    Inflight example_state "c" <= Inflight example_state id'.
Proof.
  eapply (least_inflight_minimal (example_pool LeastInflight) example_state "k" "c"); reflexivity.
Defined.
