(* ===== verification/Planner.v ===== *)
(** * Route planning: internal/routing/model

    [planner.go] turns a request and the tenant snapshot into an explainable route
    plan: every candidate deployment of the route policy is checked against the
    exclusion rules, and the eligible ones are ordered by the policy's strategy.
    [simulator.go] replays requests through the same planner.

    The round-robin counters are uint64; an index computed from a counter past
    2^63 is negative in Go and panics, the outer [None] of [Plan]. *)

From stdpp Require Import pretty.
From S2P Require Import Prelude GoFloat GoStd Snapshot.

Open Scope string_scope.
Open Scope Z_scope.

Definition ErrNoEligibleDeployment : error := ErrNew "no eligible deployment".

Record DeploymentMetrics := {
  LatencyMS : float64; MetricCost : float64; Load : float64; CacheAffinity : float64 }.

Definition no_metrics : DeploymentMetrics :=
  {| LatencyMS := f64_zero; MetricCost := f64_zero; Load := f64_zero; CacheAffinity := f64_zero |}.

Record Input := {
  in_Snapshot : option TenantRuntimeSnapshot;
  in_Key : APIKey;
  in_LogicalModel : string; in_ProjectID : string; in_RequestID : string; in_RoutingKey : string;
  in_RequiredCapabilities : list string;
  in_RequiresTools : bool;
  in_ContextTokens : Z;
  in_Health : gmap string bool;
  in_Circuit : option (string → string → bool);
  in_Metrics : gmap string DeploymentMetrics }.

Record CandidateEvidence := {
  ev_DeploymentID : string;
  ev_Eligible : bool;
  ev_Exclusions : list string;
  ev_Priority : Z; ev_Weight : Z;
  ev_SelectionScore : float64;
  ev_ScoreBreakdown : gmap string float64 }.

Record RoutePlan := {
  pl_tenantSnapshotVersion : Z; pl_policyVersion : Z;
  pl_logicalModel : string; pl_routePolicyID : string; pl_selected : string;
  pl_fallback : list string;
  pl_evidence : list CandidateEvidence }.

(** The round-robin counters by key. *)
Record Planner := { pn_roundRobin : gmap string Z }.

Definition contains (values : list string) (want : string) : bool := bool_decide (want ∈ values).

Definition hasCapabilities (actual required : list string) : bool := forallb (contains actual) required.

Definition allowedModel (allowlist : list string) (model : string) : bool :=
  match allowlist with [] => true | _ => contains allowlist model end.

(** ** Exclusions *)

Definition deployment_credentials_available (s : TenantRuntimeSnapshot) (d : Deployment) : bool :=
  let enabled id :=
    match snapshot_credential s id with Some c => bool_decide (cr_Status c = "enabled") | None => false end in
  if bool_decide (d_PoolID d ≠ "") then
    match snapshot_credentialPool s (d_PoolID d) with
    | Some pool => existsb (λ m, enabled (pm_CredentialID m)) (pl_Members pool)
    | None => false
    end
  else enabled (d_CredentialID d).

(** The rules in source order: code and whether it excludes the deployment. *)
Definition exclusion_rules (s : TenantRuntimeSnapshot) (input : Input) (project : option Project)
    (id : string) (d : Deployment) : list (string * bool) :=
  [("deployment_disabled", bool_decide (d_Status d ≠ "enabled"));
   ("provider_unavailable",
     match snapshot_provider s (d_ProviderID d) with
     | Some p => bool_decide (pv_Status p ≠ "enabled") | None => true end);
   ("credential_pool_unavailable",
     bool_decide (d_PoolID d ≠ "") && negb (deployment_credentials_available s d));
   ("credential_unavailable",
     bool_decide (d_PoolID d = "") && negb (deployment_credentials_available s d));
   ("capability_mismatch", negb (hasCapabilities (d_Capabilities d) (in_RequiredCapabilities input)));
   ("tools_not_supported",
     in_RequiresTools input && (0 <? Z.of_nat (length (d_Capabilities d))) &&
     negb (contains (d_Capabilities d) "tools"));
   ("context_window_exceeded", (0 <? d_ContextWindow d) && (d_ContextWindow d <? in_ContextTokens input));
   ("project_disabled", match project with Some p => bool_decide (pj_Status p ≠ "active") | None => false end);
   ("project_missing", match project with Some _ => false | None => true end);
   ("data_residency_mismatch",
     match project with
     | Some p => bool_decide (pj_ResidencyEnforcement p = "strict") &&
                 negb (contains (pj_AllowedDataRegions p) (d_DataRegion d))
     | None => false end);
   ("unhealthy", match in_Health input !! id with Some healthy => negb healthy | None => false end);
   ("circuit_open",
     match in_Circuit input with Some open => open id (d_CredentialID d) | None => false end)].

Definition exclusions (s : TenantRuntimeSnapshot) (input : Input) (project : option Project)
    (id : string) (d : Deployment) : list string :=
  (filter (λ r : string * bool, r.2 = true) (exclusion_rules s input project id d)).*1.

(** One iteration of the candidate loop. *)
Definition candidate (s : TenantRuntimeSnapshot) (policy : RoutePolicy) (input : Input)
    (project : option Project) (id : string) : CandidateEvidence * option Deployment :=
  let weight := default 0 (rp_Weights policy !! id) in
  match snapshot_deployment s id with
  | None =>
      ({| ev_DeploymentID := id; ev_Eligible := false; ev_Exclusions := ["deployment_missing"];
          ev_Priority := 0; ev_Weight := weight; ev_SelectionScore := f64_zero; ev_ScoreBreakdown := ∅ |}, None)
  | Some d =>
      let ex := exclusions s input project id d in
      let ok := (length ex =? 0)%nat in
      ({| ev_DeploymentID := id; ev_Eligible := ok; ev_Exclusions := ex; ev_Priority := d_Priority d;
          ev_Weight := if weight <=? 0 then 1 else weight; ev_SelectionScore := f64_zero;
          ev_ScoreBreakdown := ∅ |},
       if ok then Some d else None)
  end.

(** ** Ordering *)

Definition weightedScore (key id : string) (weight : Z) : float64 :=
  let value := hash64 (key +:+ String (Ascii.ascii_of_nat 0) id) in
  let unit := f64_div (f64_add (f64_of_Z value) f64_one) (f64_add (f64_of_Z 18446744073709551615) f64_one) in
  f64_div (f64_neg (f64_log unit)) (f64_of_Z weight).

Definition defaultScoreWeights (configured : gmap string float64) : gmap string float64 :=
  if (0 <? size configured)%nat then configured
  else <["latency" := f64_one]> (<["cost" := f64_one]> (<["load" := f64_zero]> {["cache" := f64_zero]})).

Definition score_floor : float64 := f64_const 1 1000.

Definition soft_scale (field : DeploymentMetrics → float64) (items : list Deployment)
    (metrics : gmap string DeploymentMetrics) : float64 :=
  f64_max (foldl (λ acc d, f64_max acc (field (default no_metrics (metrics !! d_ID d)))) f64_zero items)
    score_floor.

Definition softScores (policy : RoutePolicy) (items : list Deployment) (metrics : gmap string DeploymentMetrics) :
    gmap string float64 * gmap string (gmap string float64) :=
  let weights := defaultScoreWeights (rp_ScoreWeights policy) in
  let weight k := default f64_zero (weights !! k) in
  let component field d :=
    f64_min (f64_div (field (default no_metrics (metrics !! d_ID d))) (soft_scale field items metrics)) f64_one in
  let total d :=
    f64_add (f64_add (f64_add (f64_mul (weight "latency") (component LatencyMS d))
                              (f64_mul (weight "cost") (component MetricCost d)))
                     (f64_mul (weight "load") (component Load d)))
            (f64_mul (weight "cache") (f64_sub f64_one (component CacheAffinity d))) in
  let breakdown d : gmap string float64 :=
    <["latency" := component LatencyMS d]> (<["cost" := component MetricCost d]>
      (<["load" := component Load d]> {["cache_affinity" := component CacheAffinity d]})) in
  (foldl (λ m d, <[d_ID d := total d]> m) ∅ items, foldl (λ m d, <[d_ID d := breakdown d]> m) ∅ items).

Definition priority_less (a b : Deployment) : bool :=
  if d_Priority a =? d_Priority b then str_less (d_ID a) (d_ID b) else d_Priority a <? d_Priority b.

Definition by_id_less (a b : Deployment) : bool := str_less (d_ID a) (d_ID b).

Definition round_robin_key (s : TenantRuntimeSnapshot) (policy : RoutePolicy) : string :=
  sn_TenantRef s +:+ ":" +:+ rp_ID policy +:+ ":" +:+ pretty (sn_Version s).

(** [items[start:]] then [items[:start]]; a negative start panics. *)
Definition rotate {A} (start : Z) (items : list A) : option (list A) :=
  if start <? 0 then None
  else Some (drop (Z.to_nat start) items ++ take (Z.to_nat start) items)%list.

Definition order (p : Planner) (s : TenantRuntimeSnapshot) (policy : RoutePolicy) (input : Input)
    (items : list Deployment) :
    option (list string * gmap string float64 * gmap string (gmap string float64)) * Planner :=
  let items := stable_sort by_id_less items in
  let by_score (scores : gmap string float64) :=
    stable_sort (λ a b, f64_ltb (default f64_zero (scores !! d_ID a)) (default f64_zero (scores !! d_ID b))) items in
  if bool_decide (rp_Strategy policy = "weighted") then
    let key := if bool_decide (in_RoutingKey input = "") then in_RequestID input else in_RoutingKey input in
    let scores := foldl (λ m d, <[d_ID d := weightedScore key (d_ID d)
                           (Z.max (default 0 (rp_Weights policy !! d_ID d)) 1)]> m) ∅ items in
    (Some (d_ID <$> by_score scores, scores, ∅), p)
  else if bool_decide (rp_Strategy policy = "round_robin") then
    let key := round_robin_key s policy in
    let value := default 0 (pn_roundRobin p !! key) in
    let p := {| pn_roundRobin := <[key := wrapu64 (value + 1)]> (pn_roundRobin p) |} in
    let start := Z.rem (wrap64 value) (Z.of_nat (length items)) in
    ((λ l : list Deployment, (d_ID <$> l, ∅, ∅)) <$> rotate start items, p)
  else if bool_decide (rp_Strategy policy = "soft") then
    let '(scores, breaks) := softScores policy items (in_Metrics input) in
    (Some (d_ID <$> by_score scores, scores, breaks), p)
  else (Some (d_ID <$> stable_sort priority_less items, ∅, ∅), p).

(** ** Plan *)

Definition with_score (scores : gmap string float64) (breaks : gmap string (gmap string float64))
    (e : CandidateEvidence) : CandidateEvidence :=
  {| ev_DeploymentID := ev_DeploymentID e; ev_Eligible := ev_Eligible e; ev_Exclusions := ev_Exclusions e;
     ev_Priority := ev_Priority e; ev_Weight := ev_Weight e;
     ev_SelectionScore := default f64_zero (scores !! ev_DeploymentID e);
     ev_ScoreBreakdown := default ∅ (breaks !! ev_DeploymentID e) |}.

Definition route_policy (s : TenantRuntimeSnapshot) (input : Input) : option RoutePolicy :=
  match snapshot_logicalModel s (in_LogicalModel input) with
  | None => None
  | Some logical =>
      if negb (allowedModel (ak_ModelAllowlist (in_Key input)) (in_LogicalModel input)) then None
      else match snapshot_routePolicy s (lm_RoutePolicyID logical) with
           | None => None
           | Some policy =>
               if bool_decide (rp_ProjectID policy ≠ "") && bool_decide (rp_ProjectID policy ≠ in_ProjectID input)
               then None else Some policy
           end
  end.

Definition Plan (p : Planner) (input : Input) : option (option RoutePlan * option error) * Planner :=
  match in_Snapshot input with
  | None => (Some (None, Some ErrNoEligibleDeployment), p)
  | Some s =>
      match route_policy s input with
      | None => (Some (None, Some ErrNoEligibleDeployment), p)
      | Some policy =>
          let project := snapshot_project s (in_ProjectID input) in
          let cs := candidate s policy input project <$> rp_DeploymentIDs policy in
          let evidence := cs.*1 in
          let plan selected fallback evidence :=
            {| pl_tenantSnapshotVersion := sn_Version s; pl_policyVersion := rp_Version policy;
               pl_logicalModel := in_LogicalModel input; pl_routePolicyID := rp_ID policy;
               pl_selected := selected; pl_fallback := fallback; pl_evidence := evidence |} in
          match omap snd cs with
          | [] => (Some (Some (plan "" [] evidence), Some ErrNoEligibleDeployment), p)
          | eligible =>
              match order p s policy input eligible with
              | (Some (fallback, scores, breaks), p) =>
                  (Some (Some (plan (default "" (head fallback)) fallback
                                 (with_score scores breaks <$> evidence)), None), p)
              | (None, p) => (None, p)
              end
          end
      end
  end.

(** simulator.go: [Replay] is the production [Plan]. *)
Definition Replay (p : Planner) (input : Input) : option (option RoutePlan * option error) * Planner :=
  Plan p input.

(** ** Lemmas *)

(** A candidate id may be routed to: it is deployed and no rule excludes it. *)
Definition routable (s : TenantRuntimeSnapshot) (input : Input) (id : string) : bool :=
  match snapshot_deployment s id with
  | Some d => (length (exclusions s input (snapshot_project s (in_ProjectID input)) id d) =? 0)%nat
  | None => false
  end.

(** Deployments are stored under their own id, as the constructor does. *)
Definition ids_consistent (s : TenantRuntimeSnapshot) : Prop :=
  ∀ id d, snapshot_deployment s id = Some d → d_ID d = id.

Lemma NewTenantSnapshot_consistent data : ids_consistent (NewTenantSnapshot data).
Proof. intros id d Hd. by apply index_by_lookup in Hd as [_ ?]. Qed.

Lemma candidate_deployment s policy input id :
  (candidate s policy input (snapshot_project s (in_ProjectID input)) id).2 =
  if routable s input id then snapshot_deployment s id else None.
Proof. unfold candidate, routable. destruct (snapshot_deployment s id); [|done]. simpl. by case_match. Qed.

Lemma routable_deployed s input id : routable s input id = true → is_Some (snapshot_deployment s id).
Proof. unfold routable. by destruct (snapshot_deployment s id). Qed.

Lemma eligible_ids s policy input :
  ids_consistent s →
  d_ID <$> omap snd (candidate s policy input (snapshot_project s (in_ProjectID input)) <$>
                     rp_DeploymentIDs policy) =
  filter (λ id, routable s input id = true) (rp_DeploymentIDs policy).
Proof.
  intros Hc. induction (rp_DeploymentIDs policy) as [|id l IH]; [done|].
  rewrite fmap_cons, filter_cons. cbn [omap list_omap]. rewrite candidate_deployment.
  destruct (routable s input id) eqn:Er; simpl; [|done].
  destruct (routable_deployed _ _ _ Er) as [d Hd]. rewrite Hd, fmap_cons, (Hc _ _ Hd). by f_equal.
Qed.

Lemma rotate_perm {A} start (l l' : list A) : rotate start l = Some l' → l' ≡ₚ l.
Proof.
  unfold rotate. case_match; [done|]. intros [= <-]. by rewrite Permutation_app_comm, take_drop.
Qed.

Lemma order_perm p s policy input items fallback scores breaks p' :
  order p s policy input items = (Some (fallback, scores, breaks), p') →
  fallback ≡ₚ d_ID <$> items.
Proof.
  unfold order. pose proof (stable_sort_perm by_id_less items) as Hs.
  set (sorted := stable_sort by_id_less items) in *.
  repeat case_match; intros; simplify_eq/=; rewrite ?stable_sort_perm, ?Hs; try done.
  destruct (rotate _ _) as [l'|] eqn:El in *; simplify_eq/=. apply rotate_perm in El. by rewrite El, Hs.
Qed.

Lemma length_filter_nil {A} (P : A → Prop) `{∀ x, Decision (P x)} (l : list A) :
  filter P l = [] ↔ ∀ x, x ∈ l → ¬ P x.
Proof.
  split.
  - intros Hf x Hx HP. assert (x ∈ filter P l) as Hin by (by apply list_elem_of_filter). rewrite Hf in Hin. set_solver.
  - intros Hn. destruct (filter P l) as [|x r] eqn:E; [done|].
    assert (x ∈ filter P l) as [HP Hx]%list_elem_of_filter by (rewrite E; set_solver). by destruct (Hn x Hx).
Qed.

(** An id is routable only if every rule lets it pass. *)
Lemma routable_rules s input id d n code excluded :
  routable s input id = true → snapshot_deployment s id = Some d →
  exclusion_rules s input (snapshot_project s (in_ProjectID input)) id d !! n = Some (code, excluded) →
  excluded = false.
Proof.
  unfold routable, exclusions. intros Hr Hd Hin%list_elem_of_lookup_2. rewrite Hd in Hr.
  apply Nat.eqb_eq in Hr. rewrite length_fmap in Hr. apply nil_length_inv in Hr.
  apply (proj1 (length_filter_nil _ _)) with (x := (code, excluded)) in Hr; [|done].
  by destruct excluded; simpl in Hr.
Qed.

(** What the exclusion rules guarantee of a deployment the request may use. *)
Record governed (s : TenantRuntimeSnapshot) (input : Input) (id : string) (d : Deployment) : Prop := {
  gov_deployed : snapshot_deployment s id = Some d;
  gov_enabled : d_Status d = "enabled";
  gov_provider : ∃ p, snapshot_provider s (d_ProviderID d) = Some p ∧ pv_Status p = "enabled";
  gov_credential : deployment_credentials_available s d = true;
  gov_capabilities c : c ∈ in_RequiredCapabilities input → c ∈ d_Capabilities d;
  gov_tools : in_RequiresTools input = true → d_Capabilities d ≠ [] → "tools" ∈ d_Capabilities d;
  gov_context : 0 < d_ContextWindow d → in_ContextTokens input <= d_ContextWindow d;
  gov_project : ∃ p, snapshot_project s (in_ProjectID input) = Some p ∧ pj_Status p = "active" ∧
    (pj_ResidencyEnforcement p = "strict" → d_DataRegion d ∈ pj_AllowedDataRegions p);
  gov_healthy : in_Health input !! id ≠ Some false;
  gov_circuit open : in_Circuit input = Some open → open id (d_CredentialID d) = false }.

Lemma routable_governed s input id :
  routable s input id = true → ∃ d, governed s input id d.
Proof.
  intros Hr. destruct (routable_deployed _ _ _ Hr) as [d Hd]. exists d.
  pose proof (λ n code b, routable_rules s input id d n code b Hr Hd) as Hrule.
  unfold exclusion_rules in Hrule.
  pose proof (Hrule 0%nat _ _ eq_refl) as H0%bool_decide_eq_false.
  pose proof (Hrule 1%nat _ _ eq_refl) as H1. pose proof (Hrule 2%nat _ _ eq_refl) as H2.
  pose proof (Hrule 3%nat _ _ eq_refl) as H3.
  pose proof (Hrule 4%nat _ _ eq_refl) as H4%negb_false_iff.
  pose proof (Hrule 5%nat _ _ eq_refl) as H5. pose proof (Hrule 6%nat _ _ eq_refl) as H6.
  pose proof (Hrule 7%nat _ _ eq_refl) as H7. pose proof (Hrule 8%nat _ _ eq_refl) as H8.
  pose proof (Hrule 9%nat _ _ eq_refl) as H9. pose proof (Hrule 10%nat _ _ eq_refl) as H10.
  pose proof (Hrule 11%nat _ _ eq_refl) as H11. clear Hrule.
  destruct (snapshot_provider s (d_ProviderID d)) as [pv|] eqn:Epv; [|done].
  destruct (snapshot_project s (in_ProjectID input)) as [pj|] eqn:Epj; [|done].
  apply bool_decide_eq_false in H1, H7. split; try done.
  - by apply dec_stable.
  - exists pv. split; [done|]. by apply dec_stable.
  - destruct (deployment_credentials_available s d); [done|].
    rewrite andb_true_r in H2, H3. by apply bool_decide_eq_false in H2, H3.
  - intros c Hc. unfold hasCapabilities in H4. rewrite forallb_forall in H4.
    apply list_elem_of_In, H4 in Hc. by apply bool_decide_eq_true in Hc.
  - intros Ht Hne. rewrite Ht in H5. destruct (d_Capabilities d) as [|c l]; [done|].
    simpl in H5. apply negb_false_iff in H5. by apply bool_decide_eq_true in H5.
  - intros Hw. apply andb_false_iff in H6 as [H6%Z.ltb_ge|H6%Z.ltb_ge]; lia.
  - exists pj. split_and!; [done|by apply dec_stable|]. intros Hstrict.
    rewrite bool_decide_true in H9 by done. apply negb_false_iff in H9. by apply bool_decide_eq_true in H9.
  - intros Hh. rewrite Hh in H10. done.
  - intros open Ho. by rewrite Ho in H11.
Qed.

(** ** Properties *)

(** What the policy may route the request to, in policy order. *)
Definition eligible_for (s : TenantRuntimeSnapshot) (input : Input) (policy : RoutePolicy) : list string :=
  filter (λ id, routable s input id = true) (rp_DeploymentIDs policy).

Lemma plan_unfold p input s policy :
  in_Snapshot input = Some s → ids_consistent s → route_policy s input = Some policy →
  let cs := candidate s policy input (snapshot_project s (in_ProjectID input)) <$> rp_DeploymentIDs policy in
  (eligible_for s input policy = [] ∧
     ∃ plan, Plan p input = (Some (Some plan, Some ErrNoEligibleDeployment), p)) ∨
  (eligible_for s input policy ≠ [] ∧ d_ID <$> omap snd cs = eligible_for s input policy ∧
     match order p s policy input (omap snd cs) with
     | (Some (fallback, scores, breaks), p') =>
         ∃ plan, Plan p input = (Some (Some plan, None), p') ∧ pl_fallback plan = fallback ∧
           pl_selected plan = default "" (head fallback)
     | (None, p') => Plan p input = (None, p')
     end).
Proof.
  intros Hs Hc Hp cs. pose proof (eligible_ids s policy input Hc) as He. fold cs in He.
  unfold eligible_for. rewrite <- He. unfold Plan. rewrite Hs, Hp. fold cs.
  destruct (omap snd cs) as [|d l] eqn:El; [left; eauto|right].
  split; [done|]. split; [done|]. destruct (order _ _ _ _ _) as [[[[f sc] br]|] p']; [|done]. by eexists.
Qed.

(** A route plan lists exactly the eligible deployments.  For a compiled
    snapshot and the policy the request resolves to, planning fails with
    ErrNoEligibleDeployment when no candidate passes the exclusion rules;
    otherwise the fallback order is a permutation of all candidates that pass
    them, whatever the strategy, and the selected deployment is its head. *)
Theorem plan_routes_exactly_eligible p input data policy outcome p' :
  in_Snapshot input = Some (NewTenantSnapshot data) →
  route_policy (NewTenantSnapshot data) input = Some policy →
  Plan p input = (Some outcome, p') →
  match eligible_for (NewTenantSnapshot data) input policy with
  | [] => outcome.2 = Some ErrNoEligibleDeployment
  | ids => ∃ plan, outcome = (Some plan, None) ∧ pl_fallback plan ≡ₚ ids ∧
             head (pl_fallback plan) = Some (pl_selected plan)
  end.
Proof.
  intros Hs Hp Hplan.
  destruct (plan_unfold p input _ policy Hs (NewTenantSnapshot_consistent data) Hp)
    as [[Hnil (plan&Hplan')]|(Hne&He&Hord)].
  - rewrite Hnil. rewrite Hplan' in Hplan. by simplify_eq.
  - destruct (order _ _ _ _ _) as [[[[f sc] br]|] p''] eqn:Eo; [|congruence].
    destruct Hord as (plan&Hplan'&Hf&Hsel). apply order_perm in Eo. rewrite He in Eo.
    destruct (eligible_for _ _ _) as [|id ids]; [done|]. exists plan. split; [congruence|].
    rewrite Hf. split; [done|]. rewrite Hsel. destruct f; [|done].
    by apply Permutation_nil_cons in Eo.
Qed.

(** C28: governance holds of every deployment a plan may use.  Each deployment of
    a successful plan's fallback order is enabled with an enabled provider and an
    enabled credential or pool member, has every required capability (and tools,
    where it declares capabilities), has room for the context, lies in an allowed
    region when the active project enforces residency, is not known unhealthy and
    its circuit is not open; and the API key may use the requested model. *)
Theorem plan_enforces_governance p input data plan p' id :
  in_Snapshot input = Some (NewTenantSnapshot data) →
  Plan p input = (Some (Some plan, None), p') → id ∈ pl_fallback plan →
  allowedModel (ak_ModelAllowlist (in_Key input)) (in_LogicalModel input) = true ∧
  ∃ d, d ∈ td_Deployments data ∧ governed (NewTenantSnapshot data) input id d.
Proof.
  intros Hs Hplan Hid. set (s := NewTenantSnapshot data) in *.
  destruct (route_policy s input) as [policy|] eqn:Hp; [|unfold Plan in Hplan; rewrite Hs, Hp in Hplan; done].
  split.
  { revert Hp. unfold route_policy. repeat case_match; try done. intros _. by apply negb_false_iff. }
  assert (routable s input id = true) as Hr.
  { destruct (plan_unfold p input s policy Hs (NewTenantSnapshot_consistent data) Hp)
      as [[_ (plan'&Hplan')]|(_&He&Hord)]; [congruence|].
    destruct (order _ _ _ _ _) as [[[[f sc] br]|] p''] eqn:Eo; [|congruence].
    destruct Hord as (plan'&Hplan'&Hf&_). apply order_perm in Eo. rewrite He in Eo.
    assert (plan' = plan) as -> by congruence. rewrite Hf, Eo in Hid. by apply list_elem_of_filter in Hid as [? _]. }
  destruct (routable_governed _ _ _ Hr) as [d Hd]. exists d. split; [|done].
  by apply gov_deployed, index_by_lookup in Hd as [? _].
Qed.

(** *** Round robin *)

Definition rr_counter (p : Planner) (s : TenantRuntimeSnapshot) (policy : RoutePolicy) : Z :=
  default 0 (pn_roundRobin p !! round_robin_key s policy).

(** The eligible deployments in the order round robin cycles through. *)
Definition rr_cycle (s : TenantRuntimeSnapshot) (input : Input) (policy : RoutePolicy) : list string :=
  d_ID <$> stable_sort by_id_less
    (omap snd (candidate s policy input (snapshot_project s (in_ProjectID input)) <$> rp_DeploymentIDs policy)).

Lemma rr_cycle_perm s input policy :
  ids_consistent s → rr_cycle s input policy ≡ₚ eligible_for s input policy.
Proof. intros Hc. unfold rr_cycle. by rewrite stable_sort_perm, eligible_ids. Qed.

Definition selected_by (out : option (option RoutePlan * option error)) : option string :=
  match out with Some (Some plan, None) => Some (pl_selected plan) | _ => None end.

(** One call under round robin, counter below 2^63: the selection is the counter's
    entry of the cycle and the counter moves on by one. *)
Lemma round_robin_step p input s policy :
  in_Snapshot input = Some s → ids_consistent s → route_policy s input = Some policy →
  rp_Strategy policy = "round_robin" → eligible_for s input policy ≠ [] →
  0 <= rr_counter p s policy <= max_int64 →
  let n := Z.of_nat (length (rr_cycle s input policy)) in
  selected_by (Plan p input).1 = rr_cycle s input policy !! Z.to_nat (rr_counter p s policy mod n) ∧
  rr_counter (Plan p input).2 s policy = rr_counter p s policy + 1.
Proof.
  intros Hs Hc Hp Hrr Hne Hv n.
  destruct (plan_unfold p input s policy Hs Hc Hp) as [[? _]|(_&_&Hord)]; [done|].
  unfold order in Hord. rewrite Hrr in Hord. simpl in Hord. fold (rr_counter p s policy) in Hord.
  set (items := stable_sort by_id_less _) in *.
  assert (n = Z.of_nat (length items)) as Hn by (unfold n, rr_cycle; by rewrite length_fmap).
  rewrite wrap64_id, <- Hn in Hord by (unfold_ints; lia).
  assert (0 < n) as Hpos.
  { pose proof (rr_cycle_perm s input policy Hc) as Hperm. unfold n. rewrite Hperm.
    destruct (eligible_for s input policy); [done|simpl; lia]. }
  rewrite Z.rem_mod_nonneg in Hord by lia.
  pose proof (Z.mod_pos_bound (rr_counter p s policy) n Hpos) as Hb.
  unfold rotate in Hord. destruct (Z.ltb_spec (rr_counter p s policy mod n) 0); [lia|].
  destruct Hord as (plan&->&Hf&Hsel). simpl. split.
  - rewrite Hsel. unfold rr_cycle. fold items. rewrite list_lookup_fmap, fmap_app.
    destruct (items !! Z.to_nat (rr_counter p s policy mod n)) as [d|] eqn:Ed; [|apply lookup_ge_None in Ed; lia].
    rewrite (drop_S _ _ _ Ed). done.
  - unfold rr_counter at 1. simpl. rewrite lookup_insert_eq. simpl. fold (rr_counter p s policy).
    unfold wrapu64. rewrite Z.mod_small; [done|]. revert Hv. unfold_ints. lia.
Qed.

(** The selections of [n] successive calls. *)
Fixpoint selections (n : nat) (p : Planner) (input : Input) : list (option string) :=
  match n with
  | O => []
  | S n => let '(out, p) := Plan p input in selected_by out :: selections n p input
  end.

Lemma selections_round_robin n p input s policy :
  in_Snapshot input = Some s → ids_consistent s → route_policy s input = Some policy →
  rp_Strategy policy = "round_robin" → eligible_for s input policy ≠ [] →
  0 <= rr_counter p s policy → rr_counter p s policy + Z.of_nat n <= max_int64 + 1 →
  selections n p input =
    (λ k, rr_cycle s input policy !!
          Z.to_nat ((rr_counter p s policy + Z.of_nat k) mod Z.of_nat (length (rr_cycle s input policy))))
    <$> seq 0 n.
Proof.
  intros Hs Hc Hp Hrr Hne. revert p. induction n as [|n IH]; intros p Hv Hb; [done|]. simpl.
  destruct (round_robin_step p input s policy Hs Hc Hp Hrr Hne) as [Hsel Hcnt]; [lia|].
  destruct (Plan p input) as [out p']. simpl in *. rewrite Hsel. f_equal; [by rewrite Z.add_0_r|].
  rewrite IH by lia. rewrite <- fmap_S_seq, <- list_fmap_compose. apply list_fmap_ext.
  intros i k _. simpl. rewrite Hcnt. do 3 f_equal. lia.
Qed.

Lemma cycle_rotation {A} (l : list A) (v : Z) :
  l ≠ [] → 0 <= v →
  (λ k, l !! Z.to_nat ((v + Z.of_nat k) mod Z.of_nat (length l))) <$> seq 0 (length l) =
  Some <$> (drop (Z.to_nat (v mod Z.of_nat (length l))) l ++ take (Z.to_nat (v mod Z.of_nat (length l))) l)%list.
Proof.
  intros Hne Hv. assert (0 < Z.of_nat (length l)) as Hn by (destruct l; [done|simpl; lia]).
  set (n := length l) in *. pose proof (Z.mod_pos_bound v (Z.of_nat n) Hn) as Hb.
  set (r := Z.to_nat (v mod Z.of_nat n)).
  apply list_eq. intros i. rewrite !list_lookup_fmap.
  destruct (decide (i < n)%nat) as [Hi|Hi].
  - rewrite lookup_seq_lt by done. simpl.
    rewrite Zplus_mod, (Z.mod_small (Z.of_nat i)) by lia.
    destruct (decide (r + i < n)%nat) as [Hri|Hri].
    + rewrite Z.mod_small by lia. rewrite lookup_app_l by (rewrite length_drop; lia).
      rewrite lookup_drop. replace (Z.to_nat (v mod Z.of_nat n + Z.of_nat i)) with (r + i)%nat by lia.
      destruct (l !! (r + i)%nat) eqn:E; [done|]. apply lookup_ge_None in E. lia.
    + replace ((v mod Z.of_nat n + Z.of_nat i) mod Z.of_nat n) with (Z.of_nat (r + i - n)).
      2:{ apply Z.mod_unique with 1; lia. }
      rewrite lookup_app_r by (rewrite length_drop; lia). rewrite length_drop, lookup_take_lt by lia.
      rewrite Nat2Z.id. fold n. replace (i - (n - r))%nat with (r + i - n)%nat by lia.
      destruct (l !! (r + i - n)%nat) eqn:E; [done|]. apply lookup_ge_None in E. lia.
  - rewrite (lookup_ge_None_2 (seq 0 n)) by (rewrite length_seq; lia).
    rewrite (lookup_ge_None_2 (_ ++ _)%list); [done|]. rewrite length_app, length_drop, length_take. lia.
Qed.

(** Round robin is fair.  As many consecutive plans as there are eligible
    deployments, from any counter value below the int64 range, select every
    eligible deployment exactly once. *)
Theorem round_robin_fair p input data policy :
  let s := NewTenantSnapshot data in
  let ids := eligible_for s input policy in
  in_Snapshot input = Some s → route_policy s input = Some policy →
  rp_Strategy policy = "round_robin" → ids ≠ [] →
  0 <= rr_counter p s policy → rr_counter p s policy + Z.of_nat (length ids) <= max_int64 + 1 →
  selections (length ids) p input ≡ₚ Some <$> ids.
Proof.
  intros s ids Hs Hp Hrr Hne Hv Hb. pose proof (NewTenantSnapshot_consistent data) as Hc.
  rewrite (selections_round_robin _ p input s policy) by done.
  pose proof (rr_cycle_perm s input policy Hc) as Hperm. fold ids in Hperm.
  rewrite <- (Permutation_length Hperm), cycle_rotation;
    [|intros Hnil; rewrite Hnil in Hperm; by apply Permutation_nil in Hperm|done].
  apply fmap_Permutation. by rewrite Permutation_app_comm, take_drop.
Qed.

(** A replay moves production's round robin.  Replaying a request through the
    simulator leaves the production counter one further, so the production call
    that follows selects the deployment after the one it would have selected. *)
Theorem replay_advances_round_robin p input data policy :
  let s := NewTenantSnapshot data in
  let cycle := rr_cycle s input policy in
  let n := Z.of_nat (length cycle) in
  in_Snapshot input = Some s → route_policy s input = Some policy →
  rp_Strategy policy = "round_robin" → eligible_for s input policy ≠ [] →
  0 <= rr_counter p s policy < max_int64 →
  selected_by (Plan p input).1 = cycle !! Z.to_nat (rr_counter p s policy mod n) ∧
  selected_by (Plan (Replay p input).2 input).1 = cycle !! Z.to_nat ((rr_counter p s policy + 1) mod n).
Proof.
  intros s cycle n Hs Hp Hrr Hne Hv. pose proof (NewTenantSnapshot_consistent data) as Hc.
  destruct (round_robin_step p input s policy Hs Hc Hp Hrr Hne) as [H1 H2]; [lia|]. split; [done|].
  destruct (round_robin_step (Replay p input).2 input s policy Hs Hc Hp Hrr Hne) as [H3 _];
    unfold Replay in *; rewrite H2 in *; [lia|done].
Qed.

(** ** Concrete instances of the properties *)

Definition example_input (strategy : string) : Input :=
  {| in_Snapshot := Some (NewTenantSnapshot (example_data strategy)); in_Key := example_key;
     in_LogicalModel := "gpt"; in_ProjectID := "proj"; in_RequestID := "req"; in_RoutingKey := "";
     in_RequiredCapabilities := ["chat"]; in_RequiresTools := false; in_ContextTokens := 100;
     in_Health := ∅; in_Circuit := None; in_Metrics := ∅ |}.

Definition example_policy (strategy : string) : RoutePolicy :=
  default {| rp_ID := ""; rp_ProjectID := ""; rp_Strategy := ""; rp_DeploymentIDs := []; rp_Weights := ∅;
             rp_ScoreWeights := ∅; rp_Version := 0 |}
    (route_policy (NewTenantSnapshot (example_data strategy)) (example_input strategy)).

Definition example_outcome (strategy : string) : option RoutePlan * option error :=
  default (None, None) (Plan {| pn_roundRobin := ∅ |} (example_input strategy)).1.

Lemma plan_routes_exactly_eligible_witness :
  ∃ plan, example_outcome "weighted" = (Some plan, None) ∧ pl_fallback plan ≡ₚ ["d1"; "d3"] ∧
    head (pl_fallback plan) = Some (pl_selected plan).
Proof.
  eapply (plan_routes_exactly_eligible {| pn_roundRobin := ∅ |} (example_input "weighted")
    (example_data "weighted") (example_policy "weighted") (example_outcome "weighted")
    {| pn_roundRobin := ∅ |}); vm_compute; reflexivity.
Defined.

Lemma plan_enforces_governance_witness :
  allowedModel ["gpt"] "gpt" = true ∧
  ∃ d, d ∈ td_Deployments (example_data "soft") ∧
    governed (NewTenantSnapshot (example_data "soft")) (example_input "soft") "d1" d.
Proof.
  destruct (Plan {| pn_roundRobin := ∅ |} (example_input "soft")) as [[[[plan|] [e|]]|] p'] eqn:E;
    try (vm_compute in E; discriminate).
  apply (plan_enforces_governance {| pn_roundRobin := ∅ |} (example_input "soft") (example_data "soft") plan p' "d1");
    [reflexivity|exact E|].
  assert (pl_fallback <$> (example_outcome "soft").1 = Some ["d1"; "d3"]) as Hf by (vm_compute; reflexivity).
  unfold example_outcome in Hf. rewrite E in Hf. simpl in Hf. injection Hf as ->. set_solver.
Defined.

Lemma round_robin_fair_witness :
  selections 2 {| pn_roundRobin := ∅ |} (example_input "round_robin") ≡ₚ [Some "d1"; Some "d3"].
Proof.
  apply (round_robin_fair {| pn_roundRobin := ∅ |} (example_input "round_robin") (example_data "round_robin")
    (example_policy "round_robin")); vm_compute; (reflexivity || discriminate).
Defined.

Lemma replay_advances_round_robin_witness :
  let p := {| pn_roundRobin := ∅ |} in
  selected_by (Plan p (example_input "round_robin")).1 = Some "d1" ∧
  selected_by (Plan (Replay p (example_input "round_robin")).2 (example_input "round_robin")).1 = Some "d3".
Proof.
  intros p. destruct (replay_advances_round_robin p (example_input "round_robin") (example_data "round_robin")
    (example_policy "round_robin")) as [H1 H2]; [reflexivity|vm_compute; reflexivity|reflexivity|
    vm_compute; discriminate|vm_compute; split; [discriminate|reflexivity]|].
  split; [exact H1|exact H2].
Defined.
