(* ===== verification/Executor.v ===== *)
(** * Executing a route plan: internal/gateway/execution, internal/resilience/leasegate

    [runPlan] walks the fallback order of a plan with the circuit gate, the
    capacity lease, the bounded call, retries with backoff and the final error
    classification; [ExecuteWithPool] does the same with a credential per attempt
    and [streamAttempt] is the select loop of a streaming call.

    The collaborators the executor is built from (resolver, circuit, lease gate,
    inflight counter, invoker, sleeper) are a record [Env] of state-passing
    operations over a world [W]; [traced] instruments any of them with the list of
    events, which is what the theorems on leases and outcomes speak about.
    [stream_env] makes the select loop the call step and logs what it observed. *)

From S2P Require Import Prelude GoFloat Circuit Snapshot Retry Planner Coordination CredentialPool.

Open Scope string_scope.
Open Scope Z_scope.

(** ** leasegate/gate.go *)

Section LeaseGate.
Context {L : Type} `{!LeaseCoordinator L} {C : Type}.

(** [g_circuit] is the optional circuit view: its [Allow]. *)
Record Gate := { g_coordinator : L; g_circuit : option (C → string → string → bool * C) }.

Definition Gate_Acquire (g : Gate) (c : C) (now : Z) (fresh : result string)
    (scope deploymentID credentialID : string) (capacity ttl : Z) :
    (bool * string * option error) * Gate * C :=
  let '(admitted, c) :=
    match g_circuit g with Some allow => allow c deploymentID credentialID | None => (true, c) end in
  if negb admitted then ((false, "", None), g, c)
  else
    let '(r, l) := lease_Acquire (g_coordinator g) now fresh scope capacity ttl in
    (r, {| g_coordinator := l; g_circuit := g_circuit g |}, c).

Definition Gate_Renew (g : Gate) (now : Z) (scope leaseID : string) (ttl : Z) : (bool * option error) * Gate :=
  let '(r, l) := lease_Renew (g_coordinator g) now scope leaseID ttl in
  (r, {| g_coordinator := l; g_circuit := g_circuit g |}).

Definition Gate_Release (g : Gate) (scope leaseID : string) : option error * Gate :=
  let '(r, l) := lease_Release (g_coordinator g) scope leaseID in
  (r, {| g_coordinator := l; g_circuit := g_circuit g |}).
End LeaseGate.
Arguments Gate L C : clear implicits.

(** ** executor.go: data *)

Record Attempt := {
  at_DeploymentID : string; at_CredentialID : string; at_Number : Z; at_Outcome : string; at_Retryable : bool }.

(** A failed call: the error, what the invoker normalises it to, whether it is a
    first-token timeout, and whether output had been committed. *)
Record Failure := {
  f_err : error; f_code : string; f_retryable : bool; f_firstToken : bool; f_committed : bool }.

Section Executor.
Context {R : Type}.

Record Env (W : Type) := {
  env_resolve : TenantRuntimeSnapshot → Deployment → bool;
  env_resolveCredential : option (TenantRuntimeSnapshot → Deployment → string → bool);
  env_allow : option (W → string → string → bool * W);
  env_record : W → string → string → bool → W;
  env_acquire : option (W → string → string → string → Z → Z → (bool * string * option error) * W);
  env_release : W → string → string → W;
  env_incr : option (W → string → W);
  env_decr : W → string → W;
  env_call : W → Deployment → string → (R + Failure) * W;
  env_sleep : W → Z → option error * W;
  env_jitter : W → Z * W }.
Global Arguments env_resolve {W}.
Global Arguments env_resolveCredential {W}.
Global Arguments env_allow {W}.
Global Arguments env_record {W}.
Global Arguments env_acquire {W}.
Global Arguments env_release {W}.
Global Arguments env_incr {W}.
Global Arguments env_decr {W}.
Global Arguments env_call {W}.
Global Arguments env_sleep {W}.
Global Arguments env_jitter {W}.

Definition lease_scope (s : TenantRuntimeSnapshot) (d : Deployment) : string :=
  "{tenant:" +:+ sn_TenantID s +:+ "}:deployment:" +:+ d_ID d.

Definition inflightScope (tenantID deploymentID credentialID : string) : string :=
  "{tenant:" +:+ tenantID +:+ "}:deployment:" +:+ deploymentID +:+ ":credential:" +:+ credentialID.

Section Run.
Context {W : Type} (env : Env W) (policy : Retry.Policy) (s : TenantRuntimeSnapshot).

Definition allow (w : W) (d : Deployment) (cred : string) : bool * W :=
  match env_allow env with Some f => f w (d_ID d) cred | None => (true, w) end.

Definition record (w : W) (d : Deployment) (cred : string) (success : bool) : W :=
  match env_allow env with Some _ => env_record env w (d_ID d) cred success | None => w end.

(** [(scope, leaseID, leased, err)]. *)
Definition acquireLease (w : W) (d : Deployment) (cred : string) :
    (string * string * bool * option error) * W :=
  match env_acquire env with
  | None => (("", "", true, None), w)
  | Some acquire =>
      match snapshot_lease s (d_ID d) with
      | None => (("", "", true, None), w)
      | Some lease =>
          if (le_Capacity lease <=? 0) || (le_TTLSeconds lease <=? 0) then (("", "", true, None), w)
          else
            let scope := lease_scope s d in
            match acquire w scope (d_ID d) cred (le_Capacity lease) (wrap64 (le_TTLSeconds lease * second)) with
            | ((_, _, Some err), w) => (("", "", false, Some err), w)
            | ((false, _, None), w) => (("", "", false, None), w)
            | ((true, leaseID, None), w) => ((scope, leaseID, true, None), w)
            end
      end
  end.

Definition releaseLease (w : W) (scope leaseID : string) : W :=
  match env_acquire env with
  | None => w
  | Some _ => if bool_decide (scope = "") || bool_decide (leaseID = "") then w
              else env_release env w scope leaseID
  end.

Definition incrInflight (w : W) (d : Deployment) (cred : string) : W :=
  match env_incr env with
  | Some incr => incr w (inflightScope (sn_TenantID s) (d_ID d) cred) | None => w end.

Definition decrInflight (w : W) (d : Deployment) (cred : string) : W :=
  match env_incr env with
  | Some _ => env_decr env w (inflightScope (sn_TenantID s) (d_ID d) cred) | None => w end.

Record run := {
  r_attempts : list Attempt; r_last : option error; r_leaseBlocked : bool; r_calls : Z; r_world : W }.

(** A return from inside the loops: response, deployment, error. *)
Record outcome := { o_response : option R; o_deployment : string; o_err : option error }.

Definition set_world (st : run) (w : W) : run :=
  {| r_attempts := r_attempts st; r_last := r_last st; r_leaseBlocked := r_leaseBlocked st;
     r_calls := r_calls st; r_world := w |}.

Definition lease_blocked (st : run) (w : W) : run :=
  {| r_attempts := r_attempts st; r_last := r_last st; r_leaseBlocked := true;
     r_calls := r_calls st; r_world := w |}.

Definition fail_with (err : error) : outcome :=
  {| o_response := None; o_deployment := ""; o_err := Some err |}.

(** A leased call: inflight tracking, the call, the release of the lease. *)
Definition leased_call (w : W) (d : Deployment) (cred scope leaseID : string) : (R + Failure) * W :=
  let w := incrInflight w d cred in
  let '(r, w) := env_call env w d cred in
  let w := decrInflight w d cred in
  (r, releaseLease w scope leaseID).

Definition succeeded (st : run) (d : Deployment) (cred : string) (attempt : Z) (resp : R) (w : W) :
    option outcome * run :=
  let w := record w d cred true in
  (Some {| o_response := Some resp; o_deployment := d_ID d; o_err := None |},
   {| r_attempts := r_attempts st ++ [{| at_DeploymentID := d_ID d; at_CredentialID := cred;
                        at_Number := attempt; at_Outcome := "success"; at_Retryable := false |}];
      r_last := r_last st; r_leaseBlocked := r_leaseBlocked st; r_calls := wrap64 (r_calls st + 1);
      r_world := w |}).

Definition failed (st : run) (d : Deployment) (cred : string) (attempt : Z) (code : string)
    (retryable : bool) (err : error) (w : W) : run :=
  {| r_attempts := r_attempts st ++ [{| at_DeploymentID := d_ID d; at_CredentialID := cred;
                        at_Number := attempt; at_Outcome := code; at_Retryable := retryable |}];
     r_last := Some err; r_leaseBlocked := r_leaseBlocked st; r_calls := wrap64 (r_calls st + 1);
     r_world := record w d cred false |}.

(** [e.sleeper.Sleep(totalCtx, e.policy.Backoff(attempt, e.jitter()))]. *)
Definition backoff (st : run) (attempt : Z) : option error * run :=
  let '(jitter, w) := env_jitter env (r_world st) in
  let '(err, w) := env_sleep env w (Backoff policy attempt jitter) in
  (err, set_world st w).

(** The attempts on one deployment; [n] are the attempts left. *)
Fixpoint attempts_on (stopOnCommitted : bool) (n : nat) (attempt : Z) (d : Deployment) (st : run) :
    option outcome * run :=
  match n with
  | O => (None, st)
  | S n =>
      if negb (r_calls st <? MaxTotalCalls policy) then (None, st)
      else
        let cred := d_CredentialID d in
        let '(allowed, w) := allow (r_world st) d cred in
        if negb allowed then (None, set_world st w)
        else
          match acquireLease w d cred with
          | ((_, _, _, Some err), w) => (Some (fail_with err), set_world st w)
          | ((_, _, false, None), w) => (None, lease_blocked st w)
          | ((scope, leaseID, true, None), w) =>
              match leased_call w d cred scope leaseID with
              | (inl resp, w) => succeeded st d cred attempt resp w
              | (inr f, w) =>
                  let code := if f_firstToken f then "first_token_timeout" else f_code f in
                  let retryable := if f_firstToken f then true else f_retryable f in
                  let st := failed st d cred attempt code retryable (f_err f) w in
                  if f_firstToken f then (None, st)
                  else if (stopOnCommitted && f_committed f) || negb (f_retryable f)
                  then (Some (fail_with (f_err f)), st)
                  else if (attempt <? MaxAttemptsPerDeployment policy) && (r_calls st <? MaxTotalCalls policy)
                  then match backoff st attempt with
                       | (Some err, st) => (Some (fail_with err), st)
                       | (None, st) => attempts_on stopOnCommitted n (attempt + 1) d st
                       end
                  else attempts_on stopOnCommitted n (attempt + 1) d st
              end
          end
  end.

Fixpoint walk (stopOnCommitted : bool) (ids : list string) (st : run) : option outcome * run :=
  match ids with
  | [] => (None, st)
  | id :: rest =>
      match snapshot_deployment s id with
      | None => walk stopOnCommitted rest st
      | Some d =>
          if negb (env_resolve env s d) then walk stopOnCommitted rest st
          else match attempts_on stopOnCommitted (Z.to_nat (MaxAttemptsPerDeployment policy)) 1 d st with
               | (Some o, st) => (Some o, st)
               | (None, st) => walk stopOnCommitted rest st
               end
      end
  end.

Definition start (w : W) : run :=
  {| r_attempts := []; r_last := None; r_leaseBlocked := false; r_calls := 0; r_world := w |}.

Definition LEASE_BUSY : error := ErrKernel "LEASE_BUSY" "all deployments at capacity" true.
Definition exhausted : error := ErrNew "route plan exhausted".

(** The classification after the loops. *)
Definition final_error (st : run) : error :=
  match r_last st with
  | Some err => err
  | None => if r_leaseBlocked st then LEASE_BUSY else exhausted
  end.

Definition runPlan (stopOnCommitted : bool) (plan : RoutePlan) (w : W) :
    (list Attempt * outcome) * W :=
  match walk stopOnCommitted (pl_fallback plan) (start w) with
  | (Some o, st) => ((r_attempts st, o), r_world st)
  | (None, st) => ((r_attempts st, fail_with (final_error st)), r_world st)
  end.

Definition Execute := runPlan false.
Definition ExecuteStream := runPlan true.

(** ** ExecuteWithPool *)

(** The resolver asserted to [CredentialResolver]. *)
Definition resolveCredential (d : Deployment) (cred : string) : bool :=
  match env_resolveCredential env with Some f => f s d cred | None => false end.

Fixpoint pool_attempts (n : nat) (attempt : Z) (d : Deployment) (picker : Picker) (st : run) :
    option outcome * run :=
  match n with
  | O => (None, st)
  | S n =>
      if negb (r_calls st <? MaxTotalCalls policy) then (None, st)
      else
        match Next picker with
        | (Err _, _) => (None, st)
        | (Ok cred, picker) =>
            let '(allowed, w) := allow (r_world st) d cred in
            if negb allowed then pool_attempts n (attempt + 1) d picker (set_world st w)
            else
              match acquireLease w d cred with
              | ((_, _, _, Some err), w) => (Some (fail_with err), set_world st w)
              | ((_, _, false, None), w) => pool_attempts n (attempt + 1) d picker (lease_blocked st w)
              | ((scope, leaseID, true, None), w) =>
                  if negb (resolveCredential d cred)
                  then pool_attempts n (attempt + 1) d picker (set_world st (releaseLease w scope leaseID))
                  else
                    match leased_call w d cred scope leaseID with
                    | (inl resp, w) => succeeded st d cred attempt resp w
                    | (inr f, w) =>
                        let st := failed st d cred attempt (f_code f) (f_retryable f) (f_err f) w in
                        if negb (f_retryable f) then (Some (fail_with (f_err f)), st)
                        else if r_calls st <? MaxTotalCalls policy
                        then match backoff st attempt with
                             | (Some err, st) => (Some (fail_with err), st)
                             | (None, st) => pool_attempts n (attempt + 1) d picker st
                             end
                        else pool_attempts n (attempt + 1) d picker st
                    end
              end
        end
  end.

Fixpoint pool_walk (pickerFor : W → Deployment → option Picker) (ids : list string) (st : run) :
    option outcome * run :=
  match ids with
  | [] => (None, st)
  | id :: rest =>
      match snapshot_deployment s id with
      | None => pool_walk pickerFor rest st
      | Some d =>
          match pickerFor (r_world st) d with
          | None => pool_walk pickerFor rest st
          | Some picker =>
              match pool_attempts (Z.to_nat (MaxAttemptsPerDeployment policy)) 1 d picker st with
              | (Some o, st) => (Some o, st)
              | (None, st) => pool_walk pickerFor rest st
              end
          end
      end
  end.

Definition ExecuteWithPool (pickerFor : W → Deployment → option Picker) (plan : RoutePlan) (w : W) :
    (list Attempt * outcome) * W :=
  match env_resolveCredential env with
  | None => Execute plan w
  | Some _ =>
      match pool_walk pickerFor (pl_fallback plan) (start w) with
      | (Some o, st) => ((r_attempts st, o), r_world st)
      | (None, st) => ((r_attempts st, fail_with (final_error st)), r_world st)
      end
  end.
End Run.
End Executor.
Arguments Env R W : clear implicits.
Arguments outcome R : clear implicits.

(** ** The loops as a step relation

    Both executors only ever move through these micro-steps, which is what the
    invariants below are proved on. *)

Section Steps.
Context {R W : Type} (env : Env R W) (policy : Retry.Policy) (s : TenantRuntimeSnapshot).
Implicit Types (st : run (W := W)) (d : Deployment).

Inductive advance : run (W := W) → run (W := W) → Prop :=
| adv_refused st d cred w :
    allow env (r_world st) d cred = (false, w) → advance st (set_world st w)
| adv_lease_error st d cred w x err w' :
    allow env (r_world st) d cred = (true, w) → acquireLease env s w d cred = ((x, Some err), w') →
    advance st (set_world st w')
| adv_busy st d cred w x w' :
    allow env (r_world st) d cred = (true, w) → acquireLease env s w d cred = ((x, false, None), w') →
    advance st (lease_blocked st w')
| adv_unresolved st d cred w scope id w' :
    allow env (r_world st) d cred = (true, w) →
    acquireLease env s w d cred = ((scope, id, true, None), w') →
    advance st (set_world st (releaseLease env w' scope id))
| adv_success st d cred w scope id w' resp w'' attempt :
    r_calls st < MaxTotalCalls policy →
    allow env (r_world st) d cred = (true, w) →
    acquireLease env s w d cred = ((scope, id, true, None), w') →
    leased_call env s w' d cred scope id = (inl resp, w'') →
    advance st (succeeded env st d cred attempt resp w'').2
| adv_failure st d cred w scope id w' f w'' attempt code retryable :
    r_calls st < MaxTotalCalls policy →
    allow env (r_world st) d cred = (true, w) →
    acquireLease env s w d cred = ((scope, id, true, None), w') →
    leased_call env s w' d cred scope id = (inr f, w'') →
    advance st (failed env st d cred attempt code retryable (f_err f) w'')
| adv_sleep st attempt err st' :
    backoff env policy st attempt = (err, st') → advance st st'.

Lemma attempts_on_steps stop n attempt d st :
  rtc advance st (attempts_on env policy s stop n attempt d st).2.
Proof.
  revert attempt st. induction n as [|n IH]; intros attempt st; simpl; [done|].
  destruct (Z.ltb_spec (r_calls st) (MaxTotalCalls policy)) as [Hc|]; simpl; [|done].
  destruct (allow env (r_world st) d (d_CredentialID d)) as [[|] w] eqn:Ea; simpl;
    [|by apply rtc_once; eapply adv_refused].
  destruct (acquireLease env s w d (d_CredentialID d)) as [[[[scope id] [|]] [err|]] w'] eqn:El;
    try (by apply rtc_once; eapply adv_lease_error); [|by apply rtc_once; eapply adv_busy].
  destruct (leased_call _ _ _ _ _ _ _) as [[resp|f] w''] eqn:Ecall;
    [by apply rtc_once; eapply adv_success|].
  set (st' := failed _ _ _ _ _ _ _ _ _).
  assert (rtc advance st st') as Hst by (by apply rtc_once; eapply adv_failure).
  destruct (f_firstToken f); [done|]. destruct (_ || _); [done|].
  destruct (_ && _).
  - destruct (backoff env policy st' attempt) as [[err|] st''] eqn:Eb; simpl.
    + eapply rtc_r; [exact Hst|by eapply adv_sleep].
    + etransitivity; [exact Hst|]. eapply rtc_l; [by eapply adv_sleep|apply IH].
  - etransitivity; [exact Hst|apply IH].
Qed.

Lemma walk_steps stop ids st : rtc advance st (walk env policy s stop ids st).2.
Proof.
  revert st. induction ids as [|id ids IH]; intros st; simpl; [done|].
  destruct (snapshot_deployment s id) as [d|]; [|apply IH]. destruct (negb _); [apply IH|].
  pose proof (attempts_on_steps stop (Z.to_nat (MaxAttemptsPerDeployment policy)) 1 d st) as Ha.
  destruct (attempts_on _ _ _ _ _ _ _ _) as [[o|] st']; simpl in *; [done|].
  etransitivity; [exact Ha|apply IH].
Qed.

Lemma pool_attempts_steps n attempt d picker st :
  rtc advance st (pool_attempts env policy s n attempt d picker st).2.
Proof.
  revert attempt picker st. induction n as [|n IH]; intros attempt picker st; simpl; [done|].
  destruct (Z.ltb_spec (r_calls st) (MaxTotalCalls policy)) as [Hc|]; simpl; [|done].
  destruct (Next picker) as [[cred|e] picker']; [|done].
  destruct (allow env (r_world st) d cred) as [[|] w] eqn:Ea; simpl;
    [|eapply rtc_l; [by eapply adv_refused|apply IH]].
  destruct (acquireLease env s w d cred) as [[[[scope id] [|]] [err|]] w'] eqn:El;
    try (by apply rtc_once; eapply adv_lease_error); [|eapply rtc_l; [by eapply adv_busy|apply IH]].
  destruct (negb _); [eapply rtc_l; [by eapply adv_unresolved|apply IH]|].
  destruct (leased_call _ _ _ _ _ _ _) as [[resp|f] w''] eqn:Ecall;
    [by apply rtc_once; eapply adv_success|].
  set (st' := failed _ _ _ _ _ _ _ _ _).
  assert (rtc advance st st') as Hst by (by apply rtc_once; eapply adv_failure).
  destruct (negb _); [done|]. destruct (_ <? _).
  - destruct (backoff env policy st' attempt) as [[err|] st''] eqn:Eb; simpl.
    + eapply rtc_r; [exact Hst|by eapply adv_sleep].
    + etransitivity; [exact Hst|]. eapply rtc_l; [by eapply adv_sleep|apply IH].
  - etransitivity; [exact Hst|apply IH].
Qed.

Lemma pool_walk_steps pickerFor ids st : rtc advance st (pool_walk env policy s pickerFor ids st).2.
Proof.
  revert st. induction ids as [|id ids IH]; intros st; simpl; [done|].
  destruct (snapshot_deployment s id) as [d|]; [|apply IH].
  destruct (pickerFor (r_world st) d) as [picker|]; [|apply IH].
  pose proof (pool_attempts_steps (Z.to_nat (MaxAttemptsPerDeployment policy)) 1 d picker st) as Ha.
  destruct (pool_attempts _ _ _ _ _ _ _ _) as [[o|] st']; simpl in *; [done|].
  etransitivity; [exact Ha|apply IH].
Qed.

(** Every execution ends in a state the steps reach, with that state's attempts
    and world. *)
Definition execution_reaches (w : W) (result : (list Attempt * outcome R) * W) : Prop :=
  ∃ st, rtc advance (start w) st ∧ result.1.1 = r_attempts st ∧ result.2 = r_world st.

Lemma runPlan_reaches stop plan w : execution_reaches w (runPlan env policy s stop plan w).
Proof.
  pose proof (walk_steps stop (pl_fallback plan) (start w)) as Hw. unfold execution_reaches, runPlan.
  destruct (walk _ _ _ _ _ _) as [[o|] st]; by exists st.
Qed.

Lemma ExecuteWithPool_reaches pickerFor plan w :
  execution_reaches w (ExecuteWithPool env policy s pickerFor plan w).
Proof.
  pose proof (pool_walk_steps pickerFor (pl_fallback plan) (start w)) as Hw.
  unfold ExecuteWithPool. destruct (env_resolveCredential env); [|apply runPlan_reaches].
  unfold execution_reaches.
  destruct (pool_walk _ _ _ _ _ _) as [[o|] st]; by exists st.
Qed.

(** Calls are counted by the attempts and stay within the budget. *)
Lemma calls_bounded st st' :
  rtc advance st st' → 0 <= MaxTotalCalls policy <= max_int64 →
  r_calls st = Z.of_nat (length (r_attempts st)) → r_calls st <= MaxTotalCalls policy →
  r_calls st' = Z.of_nat (length (r_attempts st')) ∧ r_calls st' <= MaxTotalCalls policy.
Proof.
  intros Hs Hm. induction Hs as [|st st1 st2 Hstep _ IH]; [done|]. intros Hc Hb. apply IH; clear IH.
  - destruct Hstep; simpl; try done; try (rewrite length_app, wrap64_id by (unfold_ints; lia); simpl; lia).
    unfold backoff in *. repeat case_match; simplify_eq/=; done.
  - destruct Hstep; simpl; try done; try (rewrite wrap64_id by (unfold_ints; lia); lia).
    unfold backoff in *. repeat case_match; simplify_eq/=; done.
Qed.
End Steps.

(** ** Traces *)

Inductive event :=
| EAcquired (scope leaseID : string)
| EReleased (scope leaseID : string)
| EIncr (scope : string)
| EDecr (scope : string)
| ECall (d : string) (cred : string) (committed : bool)
| ERecorded (d : string) (cred : string) (success : bool).

(** A call that returned a response has committed it. *)
Definition call_commits {R} (r : R + Failure) : bool :=
  match r with inl _ => true | inr f => f_committed f end.

Definition emit {W} (w : W * list event) (w' : W) (e : event) : W * list event := (w', (w.2 ++ [e])%list).

Section Trace.
Context {R W : Type}.

Definition traced (env : Env R W) : Env R (W * list event) :=
  {| env_resolve := env_resolve env;
     env_resolveCredential := env_resolveCredential env;
     env_allow := (λ f w d c, let '(r, w') := f w.1 d c in (r, (w', w.2))) <$> env_allow env;
     env_record := λ w d c ok, emit w (env_record env w.1 d c ok) (ERecorded d c ok);
     env_acquire := (λ f w scope d c cap ttl,
       match f w.1 scope d c cap ttl with
       | ((true, id, None), w') => ((true, id, None), emit w w' (EAcquired scope id))
       | (r, w') => (r, (w', w.2))
       end) <$> env_acquire env;
     env_release := λ w scope id, emit w (env_release env w.1 scope id) (EReleased scope id);
     env_incr := (λ f w scope, emit w (f w.1 scope) (EIncr scope)) <$> env_incr env;
     env_decr := λ w scope, emit w (env_decr env w.1 scope) (EDecr scope);
     env_call := λ w d c, let '(r, w') := env_call env w.1 d c in
                          (r, emit w w' (ECall (d_ID d) c (call_commits r)));
     env_sleep := λ w t, let '(r, w') := env_sleep env w.1 t in (r, (w', w.2));
     env_jitter := λ w, let '(r, w') := env_jitter env w.1 in (r, (w', w.2)) |}.

(** The effect of an event on a balance: [+1] opens, [-1] closes. *)
Definition lease_delta (scope id : string) (e : event) : Z :=
  match e with
  | EAcquired s i => if bool_decide (s = scope ∧ i = id) then 1 else 0
  | EReleased s i => if bool_decide (s = scope ∧ i = id) then -1 else 0
  | _ => 0
  end.

Definition inflight_delta (scope : string) (e : event) : Z :=
  match e with
  | EIncr s => if bool_decide (s = scope) then 1 else 0
  | EDecr s => if bool_decide (s = scope) then -1 else 0
  | _ => 0
  end.

(** Calls minus recorded outcomes. *)
Definition record_delta (e : event) : Z :=
  match e with ECall _ _ _ => 1 | ERecorded _ _ _ => -1 | _ => 0 end.

Definition is_call (e : event) : Z := match e with ECall _ _ _ => 1 | _ => 0 end.

Definition total (f : event → Z) (t : list event) : Z := foldr (λ e acc, f e + acc) 0 t.

Lemma total_app f t1 t2 : total f (t1 ++ t2) = total f t1 + total f t2.
Proof. induction t1 as [|e t1 IH]; simpl; [done|]. rewrite IH. lia. Qed.

Lemma total_emit f w (w' : W) e : total f (emit w w' e).2 = total f w.2 + f e.
Proof. unfold emit. simpl. rewrite total_app. simpl. lia. Qed.

Context (env : Env R W) (s : TenantRuntimeSnapshot).
Implicit Types (w : W * list event) (d : Deployment).

Lemma traced_allow w d c b w' : allow (traced env) w d c = (b, w') → w'.2 = w.2.
Proof.
  unfold allow, traced. simpl. destruct (env_allow env) as [f|]; simpl; [|by intros [= _ <-]].
  destruct (f _ _ _). by intros [= _ <-].
Qed.

(** Acquiring emits the acquisition exactly when it hands out a lease, and then
    the lease is real: releasing it will emit its release. *)
Lemma traced_acquire w d c scope id ok err w' :
  acquireLease (traced env) s w d c = ((scope, id, ok, err), w') →
  (scope = "" ∧ id = "" ∧ w'.2 = w.2) ∨
  (ok = true ∧ err = None ∧ scope = lease_scope s d ∧ is_Some (env_acquire env) ∧
   w'.2 = (w.2 ++ [EAcquired scope id])%list).
Proof.
  unfold acquireLease, traced. simpl. destruct (env_acquire env) as [f|]; simpl; [|naive_solver].
  destruct (snapshot_lease s (d_ID d)) as [l|]; [|naive_solver]. destruct (_ || _); [naive_solver|].
  destruct (f _ _ _ _ _ _) as [[[[|] id'] [e|]] w1]; intros [= <- <- <- <- <-];
    [by left| |by left|by left]. right. split_and!; try done.
Qed.

(** Whether [releaseLease] reaches the gate. *)
Definition releases (scope id : string) : bool :=
  match env_acquire env with
  | Some _ => negb (bool_decide (scope = "") || bool_decide (id = ""))
  | None => false
  end.

Lemma traced_release w scope id :
  (releaseLease (traced env) w scope id).2 =
  if releases scope id then (w.2 ++ [EReleased scope id])%list else w.2.
Proof.
  unfold releaseLease, releases, traced. simpl. destruct (env_acquire env); simpl; [|done].
  by destruct (_ || _).
Qed.

Lemma traced_record w d c ok :
  (record (traced env) w d c ok).2 =
  match env_allow env with Some _ => (w.2 ++ [ERecorded (d_ID d) c ok])%list | None => w.2 end.
Proof. unfold record, traced. simpl. by destruct (env_allow env). Qed.

Definition inflight_events (e : event) : list event := if env_incr env is Some _ then [e] else [].

Lemma traced_incr w d c :
  (incrInflight (traced env) s w d c).2 =
  (w.2 ++ inflight_events (EIncr (inflightScope (sn_TenantID s) (d_ID d) c)))%list.
Proof. unfold incrInflight, inflight_events. simpl. destruct (env_incr env); by rewrite ?app_nil_r. Qed.

Lemma traced_decr w d c :
  (decrInflight (traced env) s w d c).2 =
  (w.2 ++ inflight_events (EDecr (inflightScope (sn_TenantID s) (d_ID d) c)))%list.
Proof. unfold decrInflight, inflight_events. simpl. destruct (env_incr env); by rewrite ?app_nil_r. Qed.

(** The events of a leased call, in order. *)
Definition call_events (d : Deployment) (c scope id : string) (committed : bool) : list event :=
  let iscope := inflightScope (sn_TenantID s) (d_ID d) c in
  (inflight_events (EIncr iscope) ++ [ECall (d_ID d) c committed] ++ inflight_events (EDecr iscope) ++
   (if releases scope id then [EReleased scope id] else []))%list.

Lemma traced_leased_call w d c scope id r w' :
  leased_call (traced env) s w d c scope id = (r, w') →
  w'.2 = (w.2 ++ call_events d c scope id (call_commits r))%list.
Proof.
  unfold leased_call, call_events. simpl.
  destruct (env_call env _ d c) as [r' w1]. intros [= <- <-]. rewrite traced_release, traced_decr.
  unfold emit. simpl. rewrite traced_incr.
  destruct (releases scope id); by rewrite ?app_nil_r, <- ?app_assoc.
Qed.
End Trace.

(** Balances that a step keeps at zero. *)
Section Balance.
Context {R W : Type} (env : Env R W) (policy : Retry.Policy) (s : TenantRuntimeSnapshot).
Implicit Types (st : run (W := W * list event)).

Lemma traced_backoff st attempt err st' :
  backoff (traced env) policy st attempt = (err, st') → (r_world st').2 = (r_world st).2 ∧ r_attempts st' = r_attempts st.
Proof.
  unfold backoff. simpl. destruct (env_jitter env _) as [j w1]. simpl.
  destruct (env_sleep env _ _) as [e w2]. by intros [= _ <-].
Qed.

(** What a step appends to the trace: nothing, a lease that was given back at
    once, or a whole attempt. *)
Inductive step_events : list event → list Attempt → Prop :=
| se_none : step_events [] []
| se_unresolved d scope id :
    scope = lease_scope s d → is_Some (env_acquire env) →
    step_events (EAcquired scope id :: if releases env scope id then [EReleased scope id] else []) []
| se_call acq d c scope id committed ok a :
    (scope = "" ∧ id = "" ∧ acq = []) ∨
    (scope = lease_scope s d ∧ is_Some (env_acquire env) ∧ acq = [EAcquired scope id]) →
    step_events (acq ++ call_events env s d c scope id committed ++
                 (if env_allow env is Some _ then [ERecorded (d_ID d) c ok] else [])) [a].

Lemma advance_events st st' :
  advance (traced env) policy s st st' →
  ∃ t a, (r_world st').2 = ((r_world st).2 ++ t)%list ∧
         r_attempts st' = (r_attempts st ++ a)%list ∧ step_events t a.
Proof.
  destruct 1 as [st d cred w Ha|st d cred w x err w' Ha Hl|st d cred w x w' Ha Hl|st d cred w scope id w' Ha Hl
    |st d cred w scope id w' resp w'' n Hc Ha Hl Hk|st d cred w scope id w' f w'' n code rt Hc Ha Hl Hk
    |st n err st' Hb]; simpl;
    try apply traced_allow in Ha.
  - exists [], []. rewrite Ha, !app_nil_r. split_and!; [done..|constructor].
  - destruct x as [[scope id] ok]. apply traced_acquire in Hl as [(_&_&Hw)|(_&?&_)]; [|done].
    exists [], []. rewrite Hw, Ha, !app_nil_r. split_and!; [done..|constructor].
  - destruct x as [scope id]. apply traced_acquire in Hl as [(_&_&Hw)|(?&_)]; [|done].
    exists [], []. rewrite Hw, Ha, !app_nil_r. split_and!; [done..|constructor].
  - rewrite traced_release. apply traced_acquire in Hl as [(->&->&Hw)|(_&_&Hsc&Henv&Hw)]; rewrite Hw, Ha.
    + exists [], []. rewrite !app_nil_r. split_and!; [|done|constructor].
      unfold releases. by destruct (env_acquire env).
    + exists (EAcquired scope id :: if releases env scope id then [EReleased scope id] else []), [].
      rewrite app_nil_r. split_and!; [|done|by eapply se_unresolved].
      destruct (releases env scope id); by rewrite <- ?app_assoc.
  - apply traced_leased_call in Hk. rewrite traced_record, Hk.
    apply traced_acquire in Hl as [(->&->&Hw)|(_&_&Hsc&Henv&Hw)]; rewrite Hw, Ha;
      eexists _, _; (split_and!; [|done|eapply (se_call _ d cred _ _ _ true); eauto]);
      destruct (env_allow env); by rewrite ?app_nil_r, <- ?app_assoc.
  - apply traced_leased_call in Hk. rewrite traced_record, Hk.
    apply traced_acquire in Hl as [(->&->&Hw)|(_&_&Hsc&Henv&Hw)]; rewrite Hw, Ha;
      eexists _, _; (split_and!; [|done|eapply (se_call _ d cred _ _ _ false); eauto]);
      destruct (env_allow env); by rewrite ?app_nil_r, <- ?app_assoc.
  - apply traced_backoff in Hb as [Hw Hat]. exists [], []. rewrite Hw, Hat, !app_nil_r.
    split_and!; [done..|constructor].
Qed.

Lemma total_inflight_pair scope e1 e2 :
  inflight_delta scope e1 + inflight_delta scope e2 = 0 →
  total (inflight_delta scope) (inflight_events env e1) + total (inflight_delta scope) (inflight_events env e2) = 0.
Proof. unfold inflight_events. destruct (env_incr env); simpl; lia. Qed.

Lemma total_inflight_zero f e : f e = 0 → total f (inflight_events env e) = 0.
Proof. unfold inflight_events. destruct (env_incr env); simpl; lia. Qed.

Lemma lease_scope_nonempty d : lease_scope s d ≠ "".
Proof. done. Qed.

(** Acquiring a lease and giving it back cancel out. *)
Lemma total_lease_pair scope0 id0 scope id :
  id0 ≠ "" → scope ≠ "" → is_Some (env_acquire env) →
  lease_delta scope0 id0 (EAcquired scope id) +
  total (lease_delta scope0 id0) (if releases env scope id then [EReleased scope id] else []) = 0.
Proof.
  intros Hid Hsc [f Hf]. unfold releases. rewrite Hf, (bool_decide_false (scope = "")) by done.
  destruct (decide (id = "")) as [->|Hi].
  - rewrite (bool_decide_true ("" = "")) by done. simpl. rewrite bool_decide_false; [done|]. intros [_ ?]. congruence.
  - rewrite (bool_decide_false (id = "")) by done. simpl. by destruct (bool_decide _).
Qed.

Lemma step_events_balanced t a :
  step_events t a →
  (∀ scope id, id ≠ "" → total (lease_delta scope id) t = 0) ∧
  (∀ scope, total (inflight_delta scope) t = 0) ∧
  (is_Some (env_allow env) → total record_delta t = 0) ∧
  total is_call t = Z.of_nat (length a).
Proof.
  destruct 1 as [|d scope id -> Henv|acq d c scope id committed ok a Hacq].
  - done.
  - split_and!; intros; simpl.
    + apply total_lease_pair; [done|apply lease_scope_nonempty|done].
    + destruct (releases _ _ _); done.
    + destruct (releases _ _ _); done.
    + destruct (releases _ _ _); done.
  - assert (∀ f : event → Z, (∀ x y, f (EAcquired x y) = 0) → total f acq = 0) as Hacq0.
    { intros f Hf. destruct Hacq as [(_&_&->)|(_&_&->)]; simpl; [done|]. rewrite Hf. done. }
    assert (∀ f : event → Z, (∀ x y, f (EReleased x y) = 0) →
      total f (if releases env scope id then [EReleased scope id] else []) = 0) as Hrel0.
    { intros f Hf. destruct (releases _ _ _); simpl; [rewrite Hf|]; done. }
    unfold call_events. split_and!; intros; repeat (rewrite total_app || cbn [total foldr]).
    + rewrite !total_inflight_zero by done.
      assert (total (lease_delta scope0 id0) (if env_allow env is Some _ then [ERecorded (d_ID d) c ok] else []) = 0)
        as -> by (by destruct (env_allow env)).
      destruct Hacq as [(->&->&->)|(->&Henv&->)]; simpl.
      * unfold releases. by destruct (env_acquire env).
      * pose proof (total_lease_pair scope0 id0 (lease_scope s d) id) as Hp. simpl in Hp.
        specialize (Hp ltac:(done) (lease_scope_nonempty d) Henv). lia.
    + rewrite Hacq0, Hrel0 by done.
      assert (total (inflight_delta scope0) (if env_allow env is Some _ then [ERecorded (d_ID d) c ok] else []) = 0)
        as -> by (by destruct (env_allow env)).
      pose proof (total_inflight_pair scope0
        (EIncr (inflightScope (sn_TenantID s) (d_ID d) c)) (EDecr (inflightScope (sn_TenantID s) (d_ID d) c))) as Hp.
      simpl in *. case_bool_decide; simpl in *; lia.
    + rewrite Hacq0, Hrel0, !total_inflight_zero by done. destruct (env_allow env); simpl; [lia|].
      destruct H as [? [=]].
    + rewrite Hacq0, Hrel0, !total_inflight_zero by done. by destruct (env_allow env).
Qed.

(** Balances of a state reached from a fresh start. *)
Record balanced (st : run (W := W * list event)) : Prop := {
  bal_leases scope id : id ≠ "" → total (lease_delta scope id) (r_world st).2 = 0;
  bal_inflight scope : total (inflight_delta scope) (r_world st).2 = 0;
  bal_records : is_Some (env_allow env) → total record_delta (r_world st).2 = 0;
  bal_calls : total is_call (r_world st).2 = Z.of_nat (length (r_attempts st)) }.

Lemma advance_balanced st st' : advance (traced env) policy s st st' → balanced st → balanced st'.
Proof.
  intros (t&a&Hw&Ha&Ht)%advance_events [H1 H2 H3 H4].
  apply step_events_balanced in Ht as (B1&B2&B3&B4).
  split; intros; rewrite Hw, total_app; [rewrite H1, B1 by done|rewrite H2, B2|rewrite H3, B3 by done|];
    try lia. rewrite H4, B4, Ha, length_app. lia.
Qed.

Lemma reached_balanced w st :
  rtc (advance (traced env) policy s) (start (w, [])) st → balanced st.
Proof.
  intros Hs. assert (balanced (start (w, []))) as H0 by (by split).
  revert H0. induction Hs as [|st1 st2 st3 Hstep _ IH]; [done|]. intros Hb. by apply IH, (advance_balanced st1).
Qed.
End Balance.

(** ** streamAttempt: the select loop of a streaming call *)

(** What the loop and its writer observe, in order: the invoker writes a chunk
    (successfully or not) through the tracking writer, the loop drains the
    activity signal, the invoker returns, the timer fires (with a chunk possibly
    slipping in before the cancelled invoker returns: that branch waits for it),
    or the context ends.  That last branch does not wait: it reads the flag and
    returns while the invoker's goroutine is still running, so a late write there
    reaches the client after the flag was read. *)
Inductive select_event :=
| SWrite (ok : bool)
| SActivity
| SResult (err : option error)
| STimer (lateWrite : bool)
| SDone (err : error) (lateWrite : bool).

Record stream_state := {
  ss_committed : bool; ss_activity : bool; ss_firstToken : bool; ss_timer : option Z }.

Record stream_end := { se_committed : bool; se_err : option error; se_firstToken : bool }.

Definition DeadlineExceeded : error := ErrNew "context deadline exceeded".
Definition firstTokenTimeoutError : error := ErrNew "stream first token timeout".

Definition first_token_timeout (p : Retry.Policy) : Z :=
  if (FirstTokenTimeout p <=? 0) || ((0 <? StreamIdleTimeout p) && (StreamIdleTimeout p <? FirstTokenTimeout p))
  then StreamIdleTimeout p else FirstTokenTimeout p.

Definition stream_start (p : Retry.Policy) : stream_state :=
  {| ss_committed := false; ss_activity := false; ss_firstToken := true;
     ss_timer := if 0 <? first_token_timeout p then Some (first_token_timeout p) else None |}.

(** [WriteChunk] commits first and signals activity only when the write succeeded. *)
Definition WriteChunk (st : stream_state) (ok : bool) : stream_state :=
  {| ss_committed := true; ss_activity := ss_activity st || ok; ss_firstToken := ss_firstToken st;
     ss_timer := ss_timer st |}.

(** The schedule ends with the event that makes the loop return; [None] for a
    schedule the loop cannot take. *)
Fixpoint stream_loop (p : Retry.Policy) (st : stream_state) (evs : list select_event) : option stream_end :=
  match evs with
  | SWrite ok :: rest => stream_loop p (WriteChunk st ok) rest
  | SActivity :: rest =>
      if ss_activity st then
        stream_loop p {| ss_committed := ss_committed st; ss_activity := false; ss_firstToken := false;
                         ss_timer := match ss_timer st with
                                     | Some _ => if 0 <? StreamIdleTimeout p then Some (StreamIdleTimeout p) else None
                                     | None => None
                                     end |} rest
      else None
  | [SResult err] => Some {| se_committed := ss_committed st; se_err := err; se_firstToken := false |}
  | [STimer late] =>
      match ss_timer st with
      | None => None
      | Some _ =>
          if ss_committed st || late then
            Some {| se_committed := true; se_err := Some DeadlineExceeded; se_firstToken := false |}
          else if ss_firstToken st then
            Some {| se_committed := false; se_err := Some firstTokenTimeoutError; se_firstToken := true |}
          else Some {| se_committed := false; se_err := Some DeadlineExceeded; se_firstToken := false |}
      end
  | [SDone err _] => Some {| se_committed := ss_committed st; se_err := Some err; se_firstToken := false |}
  | _ => None
  end.

Definition streamAttempt (p : Retry.Policy) (evs : list select_event) : option stream_end :=
  stream_loop p (stream_start p) evs.

(** The call step of [ExecuteStream]; [normalize] is the invoker's. *)
Definition streamCall (p : Retry.Policy) (normalize : error → string * bool) (evs : list select_event) :
    option (unit + Failure) :=
  (λ e, match se_err e with
        | None => inl tt
        | Some err => inr {| f_err := err; f_code := (normalize err).1; f_retryable := (normalize err).2;
                             f_firstToken := se_firstToken e; f_committed := se_committed e |}
        end) <$> streamAttempt p evs.

(** A write the invoker tried, whether it succeeded or not, before the attempt
    returned, and one it tried after that. *)
Definition writes (e : select_event) : bool :=
  match e with SWrite _ => true | STimer late => late | _ => false end.

Definition writes_late (e : select_event) : bool :=
  match e with SDone _ late => late | _ => false end.

Lemma stream_loop_committed p st evs e :
  stream_loop p st evs = Some e → se_committed e = ss_committed st || existsb writes evs.
Proof.
  revert st. induction evs as [|ev evs IH]; intros st; [done|]. destruct ev; simpl.
  - intros H. rewrite (IH _ H). simpl. by rewrite orb_true_r.
  - destruct (ss_activity st); [|done]. intros H. by rewrite (IH _ H).
  - destruct evs; [|done]. intros [= <-]. simpl. by rewrite orb_false_r.
  - destruct evs; [|done]. destruct (ss_timer st); [|done]. simpl. rewrite orb_false_r.
    destruct (ss_committed st || lateWrite) eqn:E; [by intros [= <-]|]. by destruct (ss_firstToken st); intros [= <-].
  - destruct evs; [|done]. intros [= <-]. simpl. by rewrite orb_false_r.
Qed.

Lemma stream_loop_first_token p st evs e :
  stream_loop p st evs = Some e → se_firstToken e = true → se_committed e = false.
Proof.
  revert st. induction evs as [|ev evs IH]; intros st; [done|].
  destruct ev; simpl; try (destruct evs; [|done]); eauto.
  - destruct (ss_activity st); [|done]. eauto.
  - by intros [= <-].
  - destruct (ss_timer st); [|done]. destruct (_ || _); [by intros [= <-]|].
    by destruct (ss_firstToken st); intros [= <-].
  - by intros [= <-].
Qed.

(** The failure of a streaming call says exactly whether a write was tried. *)
Lemma streamCall_failed p normalize evs f :
  streamCall p normalize evs = Some (inr f) →
  f_committed f = existsb writes evs ∧ (f_firstToken f = true → existsb writes evs = false).
Proof.
  unfold streamCall, streamAttempt. intros (e&Hs&He)%fmap_Some.
  pose proof (stream_loop_committed _ _ _ _ Hs) as Hc. pose proof (stream_loop_first_token _ _ _ _ Hs) as Hf.
  destruct (se_err e); [|done]. simplify_eq/=. split; [done|]. intros H. by rewrite <- Hc, Hf.
Qed.

(** ** Writes of an execution *)

(** No call tried to write. *)
Definition quiet (log : list (list select_event)) : Prop := Forall (λ evs, existsb writes evs = false) log.

(** A call that tried to write is the last call. *)
Definition sealed (log : list (list select_event)) : Prop :=
  ∀ l1 evs l2, log = (l1 ++ evs :: l2)%list → existsb writes evs = true → l2 = [].

(** After quiet calls, one more call seals the log. *)
Lemma quiet_one_call log evs : quiet log → sealed (log ++ [evs]).
Proof.
  intros Hq l1 evs' l2 He Hw. destruct l2 as [|x l2 _] using rev_ind; [done|].
  rewrite app_comm_cons, app_assoc in He. apply app_inj_tail in He as [-> _].
  apply Forall_app in Hq as [_ Hq]. inversion Hq; simplify_eq/=. congruence.
Qed.

Lemma sealed_of_quiet log : quiet log → sealed log.
Proof.
  intros Hq l1 evs l2 -> Hw. apply Forall_app in Hq as [_ Hq]. inversion Hq; simplify_eq/=. congruence.
Qed.

Section NoReplay.
Context {W : Type} (policy : Retry.Policy) (normalize : error → string * bool).
Context (sched : W → Deployment → string → list select_event * W) (env : Env unit W).

(** The collaborators [env] with the streaming call step of [ExecuteStream]:
    [sched] says what the select loop observes during a call, and the log keeps
    the observations of every call made. *)
Definition stream_env : Env unit (W * list (list select_event)) :=
  {| env_resolve := env_resolve env;
     env_resolveCredential := env_resolveCredential env;
     env_allow := (λ f w d c, let '(r, w') := f w.1 d c in (r, (w', w.2))) <$> env_allow env;
     env_record := λ w d c ok, (env_record env w.1 d c ok, w.2);
     env_acquire := (λ f w scope d c cap ttl,
                       let '(r, w') := f w.1 scope d c cap ttl in (r, (w', w.2))) <$> env_acquire env;
     env_release := λ w scope id, (env_release env w.1 scope id, w.2);
     env_incr := (λ f w scope, (f w.1 scope, w.2)) <$> env_incr env;
     env_decr := λ w scope, (env_decr env w.1 scope, w.2);
     env_call := λ w d c, let '(evs, w') := sched w.1 d c in
                          (default (inl tt) (streamCall policy normalize evs), (w', (w.2 ++ [evs])%list));
     env_sleep := λ w t, let '(r, w') := env_sleep env w.1 t in (r, (w', w.2));
     env_jitter := λ w, let '(r, w') := env_jitter env w.1 in (r, (w', w.2)) |}.

Context (s : TenantRuntimeSnapshot).
Context (Hsched : ∀ w d c, is_Some (streamAttempt policy (sched w d c).1)).
Implicit Types (st : run (W := W * list (list select_event))) (w : W * list (list select_event)).

Lemma logged_allow w d c b w' : allow stream_env w d c = (b, w') → w'.2 = w.2.
Proof.
  unfold allow, stream_env. simpl. destruct (env_allow env) as [f|]; simpl; [|by intros [= _ <-]].
  destruct (f _ _ _). by intros [= _ <-].
Qed.

Lemma logged_acquire w d c r w' : acquireLease stream_env s w d c = (r, w') → w'.2 = w.2.
Proof.
  unfold acquireLease, stream_env. simpl. destruct (env_acquire env) as [f|]; simpl; [|by intros [= _ <-]].
  destruct (snapshot_lease s (d_ID d)) as [l|]; [|by intros [= _ <-]].
  destruct (_ || _); [by intros [= _ <-]|].
  destruct (f _ _ _ _ _ _) as [[[ok id] err] w1]. by destruct err, ok; intros [= _ <-].
Qed.

Lemma logged_record w d c ok : (record stream_env w d c ok).2 = w.2.
Proof. unfold record, stream_env. simpl. by destruct (env_allow env). Qed.

Lemma logged_release w scope id : (releaseLease stream_env w scope id).2 = w.2.
Proof.
  unfold releaseLease, stream_env. simpl. destruct (env_acquire env); simpl; [|done]. by destruct (_ || _).
Qed.

Lemma logged_decr w d c : (decrInflight stream_env s w d c).2 = w.2.
Proof. unfold decrInflight, stream_env. simpl. by destruct (env_incr env). Qed.

Lemma logged_incr w d c : (incrInflight stream_env s w d c).2 = w.2.
Proof. unfold incrInflight, stream_env. simpl. by destruct (env_incr env). Qed.

Lemma logged_backoff st attempt err st' :
  backoff stream_env policy st attempt = (err, st') → (r_world st').2 = (r_world st).2.
Proof.
  unfold backoff. simpl. destruct (env_jitter env _) as [j w1]. simpl.
  destruct (env_sleep env _ _) as [e w2]. by intros [= _ <-].
Qed.

(** A leased call adds its observations to the log, and its result is what the
    select loop makes of them. *)
Lemma logged_call w d c scope id r w' :
  leased_call stream_env s w d c scope id = (r, w') →
  ∃ evs, w'.2 = (w.2 ++ [evs])%list ∧ streamCall policy normalize evs = Some r.
Proof.
  unfold leased_call. simpl. pose proof (Hsched (incrInflight stream_env s w d c).1 d c) as [e He].
  destruct (sched _ d c) as [evs w1]. simpl in He. unfold streamCall. rewrite He. simpl.
  intros [= <- <-]. exists evs. rewrite logged_release, logged_decr. simpl. by rewrite logged_incr, He.
Qed.

Lemma attempts_on_seals n attempt d st :
  quiet (r_world st).2 →
  let '(o, st') := attempts_on stream_env policy s true n attempt d st in
  match o with None => quiet (r_world st').2 | Some _ => sealed (r_world st').2 end.
Proof.
  revert attempt st. induction n as [|n IH]; intros attempt st Hq; simpl; [done|].
  destruct (negb (r_calls st <? MaxTotalCalls policy)); [done|].
  destruct (allow stream_env (r_world st) d (d_CredentialID d)) as [[|] w] eqn:Ea; simpl;
    apply logged_allow in Ea; [|by rewrite Ea].
  destruct (acquireLease stream_env s w d (d_CredentialID d)) as [[[[scope id] ok] err] w1] eqn:El.
  apply logged_acquire in El. rewrite Ea in El.
  destruct ok, err as [err|]; simpl; try (rewrite El; by apply sealed_of_quiet); [|by rewrite El].
  destruct (leased_call _ _ _ _ _ _ _) as [r w2] eqn:Ecall. apply logged_call in Ecall as (evs&Hlog&Hr).
  rewrite El in Hlog. destruct r as [resp|f]; simpl.
  { rewrite logged_record, Hlog. by apply quiet_one_call. }
  apply streamCall_failed in Hr as [Hcm Hft].
  set (st' := failed _ _ _ _ _ _ _ _ _).
  assert ((r_world st').2 = ((r_world st).2 ++ [evs])%list) as Hst'.
  { change ((r_world st').2) with (record stream_env w2 d (d_CredentialID d) false).2. by rewrite logged_record. }
  assert (existsb writes evs = false → quiet (r_world st').2) as Hquiet.
  { intros Hf. rewrite Hst'. apply Forall_app. split; [done|]. by constructor. }
  assert (sealed (r_world st').2) as Hsealed by (rewrite Hst'; by apply quiet_one_call).
  destruct (f_firstToken f); [by apply Hquiet, Hft|].
  destruct (f_committed f); simpl; [done|]. destruct (negb (f_retryable f)); [done|].
  destruct (_ && _); [|by apply IH, Hquiet].
  destruct (backoff stream_env policy st' attempt) as [[err|] st''] eqn:Eb;
    apply logged_backoff in Eb; rewrite ?Eb; [done|]. apply IH. rewrite Eb. by apply Hquiet.
Qed.

Lemma walk_seals ids st :
  quiet (r_world st).2 → sealed (r_world (walk stream_env policy s true ids st).2).2.
Proof.
  revert st. induction ids as [|id ids IH]; intros st Hq; simpl; [by apply sealed_of_quiet|].
  destruct (snapshot_deployment s id) as [d|]; [|by apply IH]. destruct (negb _); [by apply IH|].
  pose proof (attempts_on_seals (Z.to_nat (MaxAttemptsPerDeployment policy)) 1 d st Hq) as Ha.
  destruct (attempts_on _ _ _ _ _ _ _ _) as [[o|] st']; simpl in *; [done|by apply IH].
Qed.
End NoReplay.

(** ** Properties *)

(** What an execution leaves behind, given its traced result: every lease it was
    granted has been returned, every inflight count taken was given back, every
    upstream call has had its outcome recorded with the circuit, and the attempts
    reported to the caller are exactly the upstream calls. *)
Record leak_free {R W} (env : Env R W) (result : (list Attempt * outcome R) * (W * list event)) : Prop := {
  lf_leases scope id : id = "" ∨ total (lease_delta scope id) result.2.2 = 0;
  lf_inflight scope : total (inflight_delta scope) result.2.2 = 0;
  lf_records : env_allow env = None ∨ total record_delta result.2.2 = 0;
  lf_calls : total is_call result.2.2 = Z.of_nat (length result.1.1) }.

Lemma reaches_leak_free {R W} (env : Env R W) policy s w result :
  execution_reaches (traced env) policy s (w, []) result → leak_free env result.
Proof.
  intros (st&Hst&Ha&Hw). destruct (reached_balanced env policy s w st Hst) as [B1 B2 B3 B4].
  split; rewrite ?Hw, ?Ha; try done.
  - intros scope id. destruct (decide (id = "")); [by left|right; by apply B1].
  - destruct (env_allow env); [right; by apply B3|by left].
Qed.

(** C11: executions leak nothing.  Whatever the resolver, circuit, lease gate,
    invoker and sleeper do, on success, on every error path and when the plan is
    exhausted, both the plan walk (plain or streaming) and the pooled execution
    end with all leases and inflight counts given back, one recorded outcome per
    upstream call, and one reported attempt per upstream call. *)
Theorem executions_leak_nothing {R W} (env : Env R W) policy s stop plan pickerFor w :
  leak_free env (runPlan (traced env) policy s stop plan (w, [])) ∧
  leak_free env (ExecuteWithPool (traced env) policy s pickerFor plan (w, [])).
Proof.
  split; eapply reaches_leak_free; [apply runPlan_reaches|apply ExecuteWithPool_reaches].
Qed.

(** The retry budget is respected.  No execution of a plan makes more upstream
    calls than the policy's [MaxTotalCalls], over all deployments, credentials and
    retries together. *)
Theorem call_budget_respected {R W} (env : Env R W) policy s stop plan pickerFor w :
  0 <= MaxTotalCalls policy <= max_int64 →
  total is_call (runPlan (traced env) policy s stop plan (w, [])).2.2 <= MaxTotalCalls policy ∧
  total is_call (ExecuteWithPool (traced env) policy s pickerFor plan (w, [])).2.2 <= MaxTotalCalls policy.
Proof.
  intros Hm. assert (∀ result, execution_reaches (traced env) policy s (w, []) result →
    total is_call result.2.2 <= MaxTotalCalls policy) as Hbound.
  { intros result Hr. destruct (reaches_leak_free _ _ _ _ _ Hr) as [_ _ _ ->].
    destruct Hr as (st&Hst&->&_). destruct (calls_bounded _ _ _ _ _ Hst Hm) as [<- ?]; [done|simpl; lia|done]. }
  split; apply Hbound; [apply runPlan_reaches|apply ExecuteWithPool_reaches].
Qed.

(** C25: no replay after a write.  Whatever the resolver, circuit, lease gate and
    sleeper do and whatever the select loop of each streaming call observes, a call
    whose invoker tried to write a chunk before the attempt returned, be it a write
    that failed or one that slipped in after the timer fired, is the last upstream
    call of the execution: failover and retries only ever follow attempts that had
    written nothing when they returned.  (A write that the invoker's goroutine does
    after the context had ended and the attempt had returned is not counted:
    [late_write_is_replayed].) *)
Theorem stream_never_replays {W} policy normalize sched (env : Env unit W) s plan w :
  (∀ w d c, is_Some (streamAttempt policy (sched w d c).1)) →
  sealed (ExecuteStream (stream_env policy normalize sched env) policy s plan (w, [])).2.2.
Proof.
  intros Hsched. unfold ExecuteStream, runPlan.
  assert (sealed (r_world (walk (stream_env policy normalize sched env) policy s true (pl_fallback plan)
                                (start (w, []))).2).2) as Hs by (apply walk_seals; [done|constructor]).
  destruct (walk _ _ _ _ _ _) as [[o|] st]; exact Hs.
Qed.

(** *** The executor over the circuit breaker *)

Section Breaker.
Context {S : Type} `{!Circuit.CircuitStore S} {R : Type}.

(** The breaker as the executor's circuit, read at [clk], with a coordinator
    that has no capacity left. *)
Definition busy_env (clk : Circuit.clock) (call : Deployment → string → R + Failure) :
    Env R (Circuit.Breaker S) :=
  {| env_resolve := λ _ _, true;
     env_resolveCredential := Some (λ _ _ _, true);
     env_allow := Some (λ b d c, Circuit.Allow b clk d c);
     env_record := λ b d c ok, Circuit.RecordOutcome b clk d c ok;
     env_acquire := Some (λ b _ _ _ _ _, ((false, "", None), b));
     env_release := λ b _ _, b;
     env_incr := None;
     env_decr := λ b _, b;
     env_call := λ b d c, (call d c, b);
     env_sleep := λ b _, (None, b);
     env_jitter := λ b, (0, b) |}.

(** A busy lease strands the half-open probe.  When an open circuit's
    cooldown has elapsed but the deployment has no lease capacity left, the
    execution takes the probe, makes no call and records no outcome: it reports
    LEASE_BUSY and leaves the circuit half-open with its only probe taken, so
    the circuit refuses every later attempt at any time. *)
Theorem busy_lease_strands_probe clk call policy s plan (b : Circuit.Breaker S) id d lease at_ n :
  pl_fallback plan = [id] → snapshot_deployment s id = Some d →
  snapshot_lease s (d_ID d) = Some lease → 0 < le_Capacity lease → 0 < le_TTLSeconds lease →
  0 < MaxAttemptsPerDeployment policy → 0 < MaxTotalCalls policy →
  Circuit.abs b (d_ID d) (d_CredentialID d) = Some (Circuit.COpen at_ n) →
  Circuit.cooldown (Circuit.b_config b) n <= time_sub (clk 0%nat) at_ →
  let '((attempts, o), b') := Execute (busy_env clk call) policy s plan b in
  attempts = [] ∧ o_err o = Some LEASE_BUSY ∧
  Circuit.abs b' (d_ID d) (d_CredentialID d) = Some (Circuit.CHalf true n) ∧
  ∀ clk', (Circuit.Allow b' clk' (d_ID d) (d_CredentialID d)).1 = false.
Proof.
  intros Hplan Hd Hl Hcap Httl Hm1 Hm2 Habs Hcool. unfold Execute, runPlan. rewrite Hplan. simpl.
  rewrite Hd. destruct (Z.to_nat (MaxAttemptsPerDeployment policy)) eqn:En; [lia|]. simpl.
  destruct (Z.ltb_spec 0 (MaxTotalCalls policy)); [|lia]. simpl. unfold allow. simpl.
  destruct (Circuit.allow_refines b clk (d_ID d) (d_CredentialID d) _ Habs) as (st'&Ha&Hs).
  inversion Hs; simplify_eq; [lia|].
  destruct (Circuit.Allow b clk (d_ID d) (d_CredentialID d)) as [g b']. simpl in *. subst g. simpl.
  unfold acquireLease. simpl. rewrite Hl.
  destruct (Z.leb_spec (le_Capacity lease) 0); [lia|]. destruct (Z.leb_spec (le_TTLSeconds lease) 0); [lia|].
  simpl. split_and!; [done..|]. intros clk'. by eapply Circuit.allow_busy.
Qed.
End Breaker.

(** ** Concrete instances of the properties *)

Definition example_snapshot : TenantRuntimeSnapshot := NewTenantSnapshot (example_data "priority").

Definition example_plan (ids : list string) : RoutePlan :=
  {| pl_tenantSnapshotVersion := 7; pl_policyVersion := 1; pl_logicalModel := "gpt"; pl_routePolicyID := "rp";
     pl_selected := default "" (head ids); pl_fallback := ids; pl_evidence := [] |}.

(** Every lease is granted and every call fails with a retryable error. *)
Definition failing_env : Env unit nat :=
  {| env_resolve := λ _ _, true; env_resolveCredential := Some (λ _ _ _, true); env_allow := None;
     env_record := λ w _ _ _, w;
     env_acquire := Some (λ w _ _ _ _ _, ((true, "lease", None), w)); env_release := λ w _ _, w;
     env_incr := Some (λ w _, w); env_decr := λ w _, w;
     env_call := λ w _ _, (inr {| f_err := ErrNew "503"; f_code := "upstream_http_error"; f_retryable := true;
                                  f_firstToken := false; f_committed := false |}, S w);
     env_sleep := λ w _, (None, w); env_jitter := λ w, (0, w) |}.

Lemma call_budget_respected_witness :
  total is_call (runPlan (traced failing_env) DefaultPolicy example_snapshot false
                   (example_plan ["d1"; "d3"; "d1"]) (0%nat, [])).2.2 <= 4.
Proof.
  apply (call_budget_respected failing_env DefaultPolicy example_snapshot false
    (example_plan ["d1"; "d3"; "d1"]) (λ _ _, None) 0%nat). vm_compute. split; discriminate.
Defined.

(** The first deployment stalls before its first token, the second fails on its
    first write. *)
Definition example_schedule (d : Deployment) : list select_event :=
  if bool_decide (d_ID d = "d1") then [STimer false]
  else [SWrite false; SResult (Some (ErrNew "connection reset"))].

Definition plain_env : Env unit nat :=
  {| env_resolve := λ _ _, true; env_resolveCredential := Some (λ _ _ _, true); env_allow := None;
     env_record := λ w _ _ _, w; env_acquire := None; env_release := λ w _ _, w;
     env_incr := None; env_decr := λ w _, w;
     env_call := λ w _ _, (inl tt, w);
     env_sleep := λ w _, (None, w); env_jitter := λ w, (0, w) |}.

Definition retryable_error (_ : error) : string * bool := ("upstream_transport_error", true).

Lemma stream_never_replays_witness :
  let log := (ExecuteStream (stream_env DefaultPolicy retryable_error (λ w d _, (example_schedule d, S w)) plain_env)
                DefaultPolicy example_snapshot (example_plan ["d1"; "d3"; "d1"]) (0%nat, [])).2.2 in
  log = [[STimer false]; [SWrite false; SResult (Some (ErrNew "connection reset"))]] ∧ sealed log.
Proof.
  split; [vm_compute; reflexivity|].
  apply (stream_never_replays DefaultPolicy retryable_error (λ w d _, (example_schedule d, S w)) plain_env
    example_snapshot (example_plan ["d1"; "d3"; "d1"]) 0%nat).
  intros w d c. unfold example_schedule. simpl. case_bool_decide; eexists; vm_compute; reflexivity.
Defined.

(** When the overall deadline of a stream ends an attempt that had not written
    yet, the attempt returns without waiting for its invoker and its error is
    retryable: the next deployment is called although the first invoker may still
    write to the same client. *)
Example late_write_is_replayed :
  let policy := {| MaxAttemptsPerDeployment := 1; MaxTotalCalls := 4; AttemptTimeout := 120 * second;
                   TotalTimeout := 300 * second; StreamTotalTimeout := second; StreamIdleTimeout := 120 * second;
                   FirstTokenTimeout := 0; ProviderTimeout := 0; BaseBackoff := second; MaxBackoff := second |} in
  let schedule (d : Deployment) :=
    if bool_decide (d_ID d = "d1") then [SDone DeadlineExceeded true] else [SResult (Some DeadlineExceeded)] in
  let log := (ExecuteStream (stream_env policy retryable_error (λ w d _, (schedule d, S w)) plain_env)
                policy example_snapshot (example_plan ["d1"; "d3"]) (0%nat, [])).2.2 in
  log = [[SDone DeadlineExceeded true]; [SResult (Some DeadlineExceeded)]] ∧
  map (existsb writes_late) log = [true; false].
Proof. vm_compute. done. Qed.

Lemma busy_lease_strands_probe_witness :
  let b := (Circuit.run (Circuit.New Circuit.tiny_config) [Circuit.OpRecord (λ _, 0) "d1" "cr" false]).2 in
  let '((attempts, o), b') :=
    Execute (R := unit) (busy_env (λ _, hour) (λ _ _, inl tt)) DefaultPolicy example_snapshot (example_plan ["d1"]) b in
  attempts = [] ∧ o_err o = Some LEASE_BUSY ∧
  Circuit.abs b' "d1" "cr" = Some (Circuit.CHalf true 1) ∧
  ∀ clk', (Circuit.Allow b' clk' "d1" "cr").1 = false.
Proof.
  intros b.
  apply (busy_lease_strands_probe (R := unit) (λ _, hour) (λ _ _, inl tt) DefaultPolicy example_snapshot
    (example_plan ["d1"]) b "d1" (example_deployment "d1" "enabled")
    {| le_DeploymentID := "d1"; le_Capacity := 1; le_TTLSeconds := 60 |} 0 1);
    vm_compute; (reflexivity || discriminate).
Defined.
