(* ===== verification/Accounting.v ===== *)
(** * Request finalization: internal/finops/accounting

    [facts.go] are the immutable facts of a request, [finalizer.go] persists them
    once and settles the budget reservation, [spool.go] and [durable.go] route
    them through a local spool with pressure classes, and the flusher drains the
    spool into the authoritative repository.

    The collaborators (repository, budget, event sink, spool) are classes of
    state-passing operations; [sync.Once] is the [fz_done] flag. *)

From S2P Require Import Prelude GoFloat Coordination Budget.

Open Scope string_scope.
Open Scope Z_scope.

(** ** facts.go *)

Record Attempt := { a_DeploymentID : string; a_Outcome : string; a_Number : Z; a_Retryable : bool }.
Record RouteEvidence := { re_DeploymentID : string; re_Eligible : bool; re_Exclusions : list string }.

Record Facts := {
  f_UsageEventID : string; f_RequestID : string; f_ParentRequestID : string; f_TenantID : string;
  f_ProjectID : string; f_KeyID : string; f_LogicalModel : string; f_DeploymentID : string;
  f_Outcome : string; f_UsageSource : string; f_GuardrailStatus : string;
  f_InputTokens : Z; f_OutputTokens : Z;
  f_CacheReadTokens : Z; f_CacheWriteTokens : Z; f_CachedInputTokens : Z; f_ReasoningTokens : Z;
  f_ToolCalls : Z;
  f_RetryCount : Z; f_FallbackCount : Z;
  f_LatencyMS : Z;
  f_SnapshotVersion : Z; f_SecurityEpoch : Z;
  f_ProviderCost : option float64;
  f_ProviderCurrency : string;
  f_ReceivedAt : Z; f_CompletedAt : Z;
  f_Attempts : list Attempt;
  f_RouteEvidence : list RouteEvidence;
  f_BudgetPolicyID : string; f_ReservationID : string;
  f_ActualTokens : option Z;
  f_UserID : string; f_OrgUnitID : string; f_OrgPathSnapshot : string; f_CostCenterID : string;
  f_AttributionTrust : string;
  f_SessionID : string; f_TaskID : string; f_RootTaskID : string; f_ParentTaskID : string; f_AgentID : string;
  f_AgentVersion : string; f_AgentEndpointID : string;
  f_Estimated : bool;
  f_EstimationMethod : string }.

(** contracts.DomainEvent, as the accounting code fills it. *)
Record DomainEvent := {
  ev_ID : string; ev_Kind : string; ev_OccurredAt : Z; ev_TenantID : string; ev_ProjectID : string;
  ev_RequestID : string; ev_Attributes : list (string * string) }.

Class Repository (S : Type) := {
  repo_Finalize : S → Facts → (bool * option error) * S }.

Class SettlementBudget (B : Type) := {
  budget_Reconcile : B → string → string → Z → option error * B;
  budget_Release : B → string → string → option error * B }.

Class EventSink (K : Type) := {
  sink_Emit : K → DomainEvent → option error * K }.

(** The manager and its layered enforcer are settlement budgets. *)
#[export] Instance manager_budget : SettlementBudget Manager :=
  {| budget_Reconcile := Budget.Reconcile; budget_Release := Budget.Release |}.

(** ** finalizer.go *)

Record FinalizeResult := { fr_Created : bool; fr_TelemetryError : option error }.

Section Finalizer.
Context {S B K : Type} `{!Repository S} `{!SettlementBudget B} `{!EventSink K}.

(** [fz_repository] and the optional budget and sink are shared objects: the
    finalizer holds their current state. *)
Record Finalizer := {
  fz_repository : S; fz_budget : option B; fz_sink : option K; fz_facts : Facts;
  fz_done : bool; fz_result : FinalizeResult; fz_err : option error }.

Definition NewFinalizer (timeout : Z) (repository : option S) (budget : option B) (sink : option K)
    (facts : Facts) : result Finalizer :=
  match repository with
  | Some r =>
      if timeout <=? 0 then Err (ErrNew "finalizer timeout and repository are required")
      else Ok {| fz_repository := r; fz_budget := budget; fz_sink := sink; fz_facts := facts;
                 fz_done := false; fz_result := {| fr_Created := false; fr_TelemetryError := None |};
                 fz_err := None |}
  | None => Err (ErrNew "finalizer timeout and repository are required")
  end.

(** The deferred release of an unsettled reservation. *)
Definition deferred_release (facts : Facts) (settled : bool) (budget : option B) : option B :=
  match budget with
  | Some b =>
      if bool_decide (f_ReservationID facts ≠ "") && negb settled
      then Some (budget_Release b (f_BudgetPolicyID facts) (f_ReservationID facts)).2 else Some b
  | None => None
  end.

(** The settle step: error, whether the reservation is settled, the budget. *)
Definition settle_reservation (facts : Facts) (budget : option B) : option error * bool * option B :=
  match budget with
  | Some b =>
      if bool_decide (f_ReservationID facts ≠ "") then
        let '(err, b) :=
          match f_ActualTokens facts with
          | None => budget_Release b (f_BudgetPolicyID facts) (f_ReservationID facts)
          | Some n => budget_Reconcile b (f_BudgetPolicyID facts) (f_ReservationID facts) n
          end in
        (err, match err with None => true | Some _ => false end, Some b)
      else (None, false, Some b)
  | None => (None, false, None)
  end.

Definition completed_event (facts : Facts) : DomainEvent :=
  {| ev_ID := f_UsageEventID facts; ev_Kind := "request.completed"; ev_OccurredAt := f_CompletedAt facts;
     ev_TenantID := f_TenantID facts; ev_ProjectID := f_ProjectID facts; ev_RequestID := f_RequestID facts;
     ev_Attributes := [("outcome", f_Outcome facts); ("logical_model", f_LogicalModel facts);
                       ("deployment_id", f_DeploymentID facts)] |}.

(** The body run by [sync.Once]. *)
Definition finalize_once (f : Finalizer) : Finalizer :=
  let facts := fz_facts f in
  let '((created, err), repo) := repo_Finalize (fz_repository f) facts in
  let finish budget sink telemetry err :=
    {| fz_repository := repo; fz_budget := budget; fz_sink := sink; fz_facts := facts; fz_done := true;
       fz_result := {| fr_Created := created; fr_TelemetryError := telemetry |}; fz_err := err |} in
  match err with
  | Some e => finish (deferred_release facts false (fz_budget f)) (fz_sink f) None (Some e)
  | None =>
      let '(err, settled, budget) := settle_reservation facts (fz_budget f) in
      match err with
      | Some e => finish (deferred_release facts settled budget) (fz_sink f) None (Some e)
      | None =>
          let '(telemetry, sink) :=
            match fz_sink f with
            | Some k => let '(t, k) := sink_Emit k (completed_event facts) in (t, Some k)
            | None => (None, None)
            end in
          finish (deferred_release facts settled budget) sink telemetry None
      end
  end.

Definition Finalize (f : Finalizer) : (FinalizeResult * option error) * Finalizer :=
  let f := if fz_done f then f else finalize_once f in
  ((fz_result f, fz_err f), f).
End Finalizer.
Arguments Finalizer S B K : clear implicits.

(** ** spool.go *)

Definition ErrSpoolUnavailable : error := ErrNew "accounting spool unavailable".
Definition ErrSpoolFull : error := ErrNew "accounting spool full".

Record SpoolRecord := {
  s_EventID : string; s_RequestID : string; s_TenantID : string; s_ProjectID : string;
  s_EventTS : Z; s_PricingVersion : string; s_Facts : Facts; s_Checksum : string }.

Record SpoolStats := { st_Events : Z; st_Bytes : Z; st_OldestAge : Z; st_UsageRatio : float64 }.

(** The [Spool] interface. *)
Class Spool (P : Type) := {
  spool_Append : P → SpoolRecord → option error * P;
  spool_Pending : P → Z → result (list SpoolRecord);
  spool_Commit : P → list string → option error * P;
  spool_Stats : P → result SpoolStats;
  spool_TenantUsage : P → string → result (Z * Z) }.

Record SpoolPolicy := {
  po_Mode : string; po_WarnThreshold : float64; po_CriticalThreshold : float64;
  po_HardThreshold : float64; po_QuotaBytes : Z }.

Inductive SpoolPressure := SpoolOK | SpoolWarn | SpoolCritical | SpoolHard.

Definition ClassifySpoolPressure (ratio : float64) (policy : SpoolPolicy) : SpoolPressure :=
  let reaches t := f64_gtb t f64_zero && f64_geb ratio t in
  if reaches (po_HardThreshold policy) then SpoolHard
  else if reaches (po_CriticalThreshold policy) then SpoolCritical
  else if reaches (po_WarnThreshold policy) then SpoolWarn
  else SpoolOK.

Definition ratioFor (policy : SpoolPolicy) (events bytes : Z) : float64 :=
  if 0 <? po_QuotaBytes policy then f64_div (f64_of_Z bytes) (f64_of_Z (po_QuotaBytes policy))
  else f64_div (f64_of_Z events) (f64_of_Z 1000000).

(** ** durable.go *)

Definition estimateSize (f : Facts) : Z :=
  Z.of_nat (String.length (f_RequestID f) + String.length (f_UsageEventID f) + String.length (f_TenantID f) +
            String.length (f_LogicalModel f) + 256).

Record SpoolRepository (P : Type) := { sr_spool : P; sr_policy : SpoolPolicy }.
Arguments Build_SpoolRepository {P}.
Arguments sr_spool {P}.
Arguments sr_policy {P}.

Section Durable.
Context {P : Type} `{!Spool P}.

Definition spool_record (facts : Facts) : SpoolRecord :=
  {| s_EventID := f_UsageEventID facts; s_RequestID := f_RequestID facts; s_TenantID := f_TenantID facts;
     s_ProjectID := f_ProjectID facts; s_EventTS := f_CompletedAt facts; s_PricingVersion := "";
     s_Facts := facts; s_Checksum := "" |}.

(** The quota and pressure gates: [None] when the facts may be appended. *)
Definition spool_gate (r : SpoolRepository P) (facts : Facts) : option error :=
  let quota :=
    if 0 <? po_QuotaBytes (sr_policy r) then
      match spool_TenantUsage (sr_spool r) (f_TenantID facts) with
      | Err _ => Some ErrSpoolUnavailable
      | Ok (_, bytes) =>
          if po_QuotaBytes (sr_policy r) <? wrap64 (bytes + estimateSize facts) then Some ErrSpoolFull else None
      end
    else None in
  match quota with
  | Some e => Some e
  | None =>
      if bool_decide (po_Mode (sr_policy r) = "hard") then
        match spool_Stats (sr_spool r) with
        | Err _ => Some ErrSpoolUnavailable
        | Ok stats =>
            match ClassifySpoolPressure (ratioFor (sr_policy r) (st_Events stats) (st_Bytes stats)) (sr_policy r) with
            | SpoolHard => Some ErrSpoolFull
            | _ => None
            end
        end
      else None
  end.

Definition SpoolRepository_Finalize (r : SpoolRepository P) (facts : Facts) :
    (bool * option error) * SpoolRepository P :=
  match spool_gate r facts with
  | Some e => ((false, Some e), r)
  | None =>
      let '(err, p) := spool_Append (sr_spool r) (spool_record facts) in
      let r := {| sr_spool := p; sr_policy := sr_policy r |} in
      match err with
      | Some e => ((false, Some e), r)
      | None => ((true, None), r)
      end
  end.

#[export] Instance spool_repository : Repository (SpoolRepository P) :=
  {| repo_Finalize := SpoolRepository_Finalize |}.

(** *** Flusher *)

Context {S : Type} `{!Repository S}.

Record Flusher := { fl_spool : P; fl_ingest : S; fl_batch : Z; fl_ingested : Z; fl_failures : list string }.

(** Ingest in order until the first failure: the acknowledged ids. *)
Fixpoint ingest_prefix (ingest : S) (pending : list SpoolRecord) : list string * option SpoolRecord * S :=
  match pending with
  | [] => ([], None, ingest)
  | record :: rest =>
      match repo_Finalize ingest (s_Facts record) with
      | ((_, Some _), ingest) => ([], Some record, ingest)
      | ((_, None), ingest) =>
          let '(ids, failed, ingest) := ingest_prefix ingest rest in (s_EventID record :: ids, failed, ingest)
      end
  end.

(** [fl_failures] are the flush_failed events emitted, [fl_ingested] what the
    metrics hook has been told. *)
Definition RunOnce (f : Flusher) : (Z * option error) * Flusher :=
  match spool_Pending (fl_spool f) (fl_batch f) with
  | Err e => ((0, Some e), f)
  | Ok pending =>
      let '(committed, failed, ingest) := ingest_prefix (fl_ingest f) pending in
      let failures := match failed with
                      | Some r => (fl_failures f ++ [s_EventID r +:+ ".flush_failed"])%list
                      | None => fl_failures f end in
      let n := Z.of_nat (length committed) in
      match committed with
      | [] => ((0, None), {| fl_spool := fl_spool f; fl_ingest := ingest; fl_batch := fl_batch f;
                             fl_ingested := fl_ingested f; fl_failures := failures |})
      | _ =>
          let '(err, p) := spool_Commit (fl_spool f) committed in
          ((n, err), {| fl_spool := p; fl_ingest := ingest; fl_batch := fl_batch f;
                        fl_ingested := match err with Some _ => fl_ingested f | None => fl_ingested f + n end;
                        fl_failures := failures |})
      end
  end.
End Durable.

(** *** DurableFinalizer *)

Section DurableFinalizer.
Context {P B K : Type} `{!Spool P} `{!SettlementBudget B} `{!EventSink K}.

(** The finalizer's repository is the spool repository; the sink [K] is shared
    by the finalizer and the alerts. *)
Definition pressure_event (policy : SpoolPolicy) (facts : Facts) (now : Z) (pressure : SpoolPressure) :
    option DomainEvent :=
  let event kind severity :=
    {| ev_ID := f_UsageEventID facts +:+ ".pressure"; ev_Kind := kind; ev_OccurredAt := now;
       ev_TenantID := f_TenantID facts; ev_ProjectID := f_ProjectID facts; ev_RequestID := f_RequestID facts;
       ev_Attributes := [("severity", severity); ("mode", po_Mode policy)] |} in
  match pressure with
  | SpoolWarn => Some (event "accounting.spool.warning" "warning")
  | SpoolCritical => Some (event "accounting.spool.critical" "critical")
  | _ => None
  end.

Definition recordPressure (policy : SpoolPolicy) (facts : Facts) (now : Z) (spool : P) (sink : K) : K :=
  match spool_Stats spool with
  | Err _ => sink
  | Ok stats =>
      match pressure_event policy facts now
              (ClassifySpoolPressure (ratioFor policy (st_Events stats) (st_Bytes stats)) policy) with
      | Some e => (sink_Emit sink e).2
      | None => sink
      end
  end.

Definition degraded_event (facts : Facts) (now : Z) (err : error) : DomainEvent :=
  {| ev_ID := f_UsageEventID facts +:+ ".spool";
     ev_Kind := if errors_is err ErrSpoolFull then "accounting.spool.full" else "accounting.spool.unavailable";
     ev_OccurredAt := now; ev_TenantID := f_TenantID facts; ev_ProjectID := f_ProjectID facts;
     ev_RequestID := f_RequestID facts; ev_Attributes := [("mode", "soft"); ("severity", "critical")] |}.

Definition DurableFinalize (policy : SpoolPolicy) (facts : Facts) (now : Z)
    (f : Finalizer (SpoolRepository P) B K) (sink : K) :
    (FinalizeResult * option error) * Finalizer (SpoolRepository P) B K * K :=
  let '((result, err), f) := Finalize f in
  let sink := recordPressure policy facts now (sr_spool (fz_repository f)) sink in
  match err with
  | Some e =>
      if (errors_is e ErrSpoolUnavailable || errors_is e ErrSpoolFull) && bool_decide (po_Mode policy = "soft")
      then ((result, None), f, (sink_Emit sink (degraded_event facts now e)).2)
      else ((result, err), f, sink)
  | None => ((result, err), f, sink)
  end.
End DurableFinalizer.

(** ** Properties *)

(** Calling [Finalize] again changes nothing. *)
Lemma Finalize_once {S B K} `{!Repository S} `{!SettlementBudget B} `{!EventSink K} (f : Finalizer S B K) :
  Finalize (Finalize f).2 = ((Finalize f).1, (Finalize f).2).
Proof.
  assert (fz_done (Finalize f).2 = true) as Hd.
  { unfold Finalize. simpl. destruct (fz_done f) eqn:E; [done|]. unfold finalize_once.
    repeat case_match; done. }
  unfold Finalize at 1. by rewrite Hd.
Qed.

Section Reservation.
Context {S K : Type} `{!Repository S} `{!EventSink K}.
Implicit Types (f : Finalizer S Manager K) (m : Manager).

Definition reservation_final m (pid rid : string) : Prop :=
  ∃ p w r, ledgerFor m pid rid = Some (p, w, r) ∧ rv_final r = true.

Lemma release_final m pid rid p w r :
  ledgerFor m pid rid = Some (p, w, r) → reservation_final (Budget.Release m pid rid).2 pid rid.
Proof.
  intros Hl. assert ((manager_settle m pid rid None).1 = None) as Hok.
  { simpl. unfold Budget.Release. rewrite Hl. by destruct (rv_final r). }
  by apply (settled_final _ _ _ _ _ _ _ Hl Hok).
Qed.

(** An error of Reconcile leaves the reservation where it was. *)
Lemma reconcile_error m pid rid n e : (Budget.Reconcile m pid rid n).1 = Some e → (Budget.Reconcile m pid rid n).2 = m.
Proof. unfold Budget.Reconcile. repeat case_match; done. Qed.

Lemma finalize_once_settles f m p w r :
  fz_budget f = Some m → f_ReservationID (fz_facts f) ≠ "" →
  ledgerFor m (f_BudgetPolicyID (fz_facts f)) (f_ReservationID (fz_facts f)) = Some (p, w, r) →
  ∃ m', fz_budget (finalize_once f) = Some m' ∧
    reservation_final m' (f_BudgetPolicyID (fz_facts f)) (f_ReservationID (fz_facts f)).
Proof.
  intros Hb Hne Hl. set (pid := f_BudgetPolicyID (fz_facts f)) in *.
  set (rid := f_ReservationID (fz_facts f)) in *.
  pose proof (release_final _ _ _ _ _ _ Hl) as Hrel.
  assert (∀ (settled : bool) m1, (if settled then reservation_final m1 pid rid
                         else ∃ p w r, ledgerFor m1 pid rid = Some (p, w, r)) →
    ∃ m', deferred_release (fz_facts f) settled (Some m1) = Some m' ∧ reservation_final m' pid rid) as Hdef.
  { intros settled m1 H1. unfold deferred_release. rewrite bool_decide_true by done. simpl.
    destruct settled; simpl; [by eexists|]. destruct H1 as (p1&w1&r1&H1).
    eexists. split; [done|]. by eapply release_final. }
  unfold finalize_once. destruct (repo_Finalize _ _) as [[created [e|]] repo].
  - rewrite Hb. simpl. apply (Hdef false). eauto.
  - rewrite Hb. unfold settle_reservation. rewrite bool_decide_true by done. fold pid rid.
    destruct (f_ActualTokens (fz_facts f)) as [n|]; simpl.
    + destruct (Budget.Reconcile m pid rid n) as [[e|] m1] eqn:Er; simpl.
      * apply (Hdef false). pose proof (reconcile_error m pid rid n e) as Hm. rewrite Er in Hm.
        simpl in Hm. rewrite (Hm eq_refl). eauto.
      * assert (reservation_final m1 pid rid) as Hfin.
        { pose proof (settled_final m pid rid (Some n) p w r Hl) as Hs. simpl in Hs. rewrite Er in Hs.
          by apply Hs. }
        destruct (fz_sink f) as [k|]; [destruct (sink_Emit _ _)|]; simpl; by apply (Hdef true).
    + destruct (Budget.Release m pid rid) as [[e|] m1] eqn:Er; simpl in *.
      * apply (Hdef false). destruct Hrel as (?&?&?&?&_). eauto.
      * destruct (fz_sink f) as [k|]; [destruct (sink_Emit _ _)|]; simpl; by apply (Hdef true).
Qed.

(** Finalization never leaks a reservation.  Whatever the repository answers,
    whatever usage is reported (negative counts included) and however often
    Finalize is called, once a request that holds a reservation has been
    finalized its reservation is final in the budget manager, and every further
    call returns the first result and touches nothing. *)
Theorem finalize_never_leaks_reservation f m p w r n :
  fz_done f = false → fz_budget f = Some m → f_ReservationID (fz_facts f) ≠ "" →
  ledgerFor m (f_BudgetPolicyID (fz_facts f)) (f_ReservationID (fz_facts f)) = Some (p, w, r) →
  let f' := Nat.iter n (λ f, (Finalize f).2) (Finalize f).2 in
  f' = (Finalize f).2 ∧ (Finalize f').1 = (Finalize f).1 ∧
  ∃ m', fz_budget f' = Some m' ∧
    reservation_final m' (f_BudgetPolicyID (fz_facts f)) (f_ReservationID (fz_facts f)).
Proof.
  intros Hd Hb Hne Hl f'.
  assert (f' = (Finalize f).2) as Hf'.
  { subst f'. induction n as [|n IH]; [done|]. rewrite Nat.iter_succ, IH. by rewrite Finalize_once. }
  rewrite Hf'. split_and!; [done|by rewrite Finalize_once|].
  unfold Finalize. rewrite Hd. simpl. by eapply finalize_once_settles.
Qed.
End Reservation.

(** ** Concrete instances of the properties *)

Definition example_facts (actual : option Z) : Facts :=
  {| f_UsageEventID := "u"; f_RequestID := "a"; f_ParentRequestID := ""; f_TenantID := "t"; f_ProjectID := "pr";
     f_KeyID := "k"; f_LogicalModel := "gpt"; f_DeploymentID := "d1"; f_Outcome := "success"; f_UsageSource := "";
     f_GuardrailStatus := ""; f_InputTokens := 0; f_OutputTokens := 0; f_CacheReadTokens := 0;
     f_CacheWriteTokens := 0; f_CachedInputTokens := 0; f_ReasoningTokens := 0; f_ToolCalls := 0;
     f_RetryCount := 0; f_FallbackCount := 0; f_LatencyMS := 0; f_SnapshotVersion := 0; f_SecurityEpoch := 0;
     f_ProviderCost := None; f_ProviderCurrency := ""; f_ReceivedAt := 0; f_CompletedAt := 0; f_Attempts := [];
     f_RouteEvidence := []; f_BudgetPolicyID := "p"; f_ReservationID := "a"; f_ActualTokens := actual;
     f_UserID := ""; f_OrgUnitID := ""; f_OrgPathSnapshot := ""; f_CostCenterID := ""; f_AttributionTrust := "";
     f_SessionID := ""; f_TaskID := ""; f_RootTaskID := ""; f_ParentTaskID := ""; f_AgentID := "";
     f_AgentVersion := ""; f_AgentEndpointID := ""; f_Estimated := false; f_EstimationMethod := "" |}.

(** A repository that is down and a sink that drops its events. *)
#[local] Instance down_repository : Repository unit :=
  {| repo_Finalize := λ s _, ((false, Some (ErrNew "connection refused")), s) |}.
#[local] Instance null_sink : EventSink nat := {| sink_Emit := λ k _, (None, S k) |}.

Definition example_finalizer : Finalizer unit Manager nat :=
  {| fz_repository := tt; fz_budget := Some busy_manager; fz_sink := None; fz_facts := example_facts (Some 30);
     fz_done := false; fz_result := {| fr_Created := false; fr_TelemetryError := None |}; fz_err := None |}.

Lemma finalize_never_leaks_reservation_witness :
  let f' := Nat.iter 2 (λ f, (Finalize f).2) (Finalize example_finalizer).2 in
  f' = (Finalize example_finalizer).2 ∧ (Finalize f').1 = (Finalize example_finalizer).1 ∧
  ∃ m', fz_budget f' = Some m' ∧ reservation_final m' "p" "a".
Proof.
  eapply (finalize_never_leaks_reservation example_finalizer busy_manager); (reflexivity || done).
Defined.
