(* ===== verification/Spool.v ===== *)
(** * The accounting WAL: internal/platform/storage/spool/spool.go

    An append-only log of accounting events in segment files, with checksums,
    torn-tail recovery, a committed log and truncation of committed segments.

    The file system is explicit: a directory maps names to inodes and inodes to
    contents, so that two handles on one file, and a handle on a removed file,
    behave as they do on disk.  An open segment file is its inode (every handle is
    in append mode).  [json] is the interface of encoding/json; the checksum is
    SHA-256 over the marshalled record, computed.  Which of the I/O steps of a
    call fail is an argument of the call ([io]).  Counters of events and bytes are
    unbounded here: they count records held in memory. *)

From Stdlib Require Import Ascii.
From S2P Require Import Prelude GoFloat GoStd Accounting.

Open Scope string_scope.
Open Scope Z_scope.

(** ** Files *)

Record FS := { fs_dir : gmap string nat; fs_data : gmap nat string; fs_next : nat }.

Definition newline : Ascii.ascii := Ascii.ascii_of_nat 10.
Definition nl : string := String newline "".

Definition inode_data (fs : FS) (i : nat) : string := default "" (fs_data fs !! i).

Definition read_file (fs : FS) (name : string) : option string := inode_data fs <$> fs_dir fs !! name.

(** [os.OpenFile(name, O_CREATE|O_APPEND)]: the existing inode, or a new one. *)
Definition open_append (fs : FS) (name : string) : nat * FS :=
  match fs_dir fs !! name with
  | Some i => (i, fs)
  | None => (fs_next fs, {| fs_dir := <[name := fs_next fs]> (fs_dir fs);
                            fs_data := <[fs_next fs := ""]> (fs_data fs); fs_next := S (fs_next fs) |})
  end.

Definition append_inode (fs : FS) (i : nat) (s : string) : FS :=
  {| fs_dir := fs_dir fs; fs_data := <[i := inode_data fs i +:+ s]> (fs_data fs); fs_next := fs_next fs |}.

Definition set_inode (fs : FS) (i : nat) (s : string) : FS :=
  {| fs_dir := fs_dir fs; fs_data := <[i := s]> (fs_data fs); fs_next := fs_next fs |}.

Definition remove_file (fs : FS) (name : string) : FS :=
  {| fs_dir := delete name (fs_dir fs); fs_data := fs_data fs; fs_next := fs_next fs |}.

(** What a write that fails after [n] bytes leaves behind its handle. *)
Definition short_write (fs : FS) (i : nat) (s : string) (n : nat) : FS := append_inode fs i (String.substring 0 n s).

(** [os.WriteFile]: create or truncate, then write. *)
Definition write_file (fs : FS) (name content : string) : FS :=
  let '(i, fs) := open_append fs name in set_inode fs i content.

(** The lines of a file, each with whether it ended in a newline. *)
Fixpoint split_lines (cur : string) (s : string) : list (string * bool) :=
  match s with
  | EmptyString => if bool_decide (cur = "") then [] else [(cur, false)]
  | String c s => if Ascii.eqb c newline then (cur, true) :: split_lines "" s
                  else split_lines (cur +:+ String c "") s
  end.

Definition lines (s : string) : list (string * bool) := split_lines "" s.

(** ** Records *)

Class JSON := {
  json_Marshal : SpoolRecord → result string;
  json_Unmarshal : string → result SpoolRecord }.

Definition with_checksum (r : SpoolRecord) (sum : string) : SpoolRecord :=
  {| s_EventID := s_EventID r; s_RequestID := s_RequestID r; s_TenantID := s_TenantID r;
     s_ProjectID := s_ProjectID r; s_EventTS := s_EventTS r; s_PricingVersion := s_PricingVersion r;
     s_Facts := s_Facts r; s_Checksum := sum |}.

Definition checksum (payload : string) : string := hex_encode (sha256 (bytes_of_string payload)).

Record Config := { c_SegmentBytes : Z; c_FsyncEvery : Z }.

Record segment := {
  g_name : string; g_inode : nat; g_bytes : Z;
  g_ids : list string; g_tenants : list string; g_sizes : list Z; g_offsets : list Z;
  g_committedCount : nat }.

Record FileSpool := {
  fs_config : Config;
  fs_segments : list segment;
  fs_committed : gset string;
  fs_tenants : gmap string (Z * Z);
  fs_pendingEvents : Z;
  fs_pendingBytes : Z;
  fs_appends : Z;
  fs_closed : bool;
  fs_files : FS }.

(** Which I/O steps of a call fail.  A write that fails may have written a part:
    [io_short] bytes of what it was given.  [os.WriteFile], which truncates the
    file first, fails before that ([Some None]) or after some bytes. *)
Record IO := { io_open : bool; io_write : bool; io_short : nat; io_sync : bool; io_rewrite : option (option nat) }.
Definition io_ok : IO := {| io_open := true; io_write := true; io_short := 0; io_sync := true; io_rewrite := None |}.

Section FileSpool.
Context `{!JSON}.

Definition decodeRecord (line : string) : result SpoolRecord :=
  match json_Unmarshal line with
  | Err e => Err e
  | Ok rec =>
      if bool_decide (s_Checksum rec = "") then Err (ErrNew "missing checksum")
      else
        let stored := s_Checksum rec in
        let rec := with_checksum rec "" in
        match json_Marshal rec with
        | Err e => Err e
        | Ok payload =>
            if bool_decide (checksum payload ≠ stored)
            then Err (ErrNew ("checksum mismatch for event " +:+ s_EventID rec)) else Ok rec
        end
  end.

(** The line without its newline; [serialize] appends it. *)
Definition serialize (event : SpoolRecord) : result string :=
  let rec := with_checksum event "" in
  match json_Marshal rec with
  | Err e => Err e
  | Ok payload =>
      match json_Marshal (with_checksum rec (checksum payload)) with
      | Err e => Err e
      | Ok final => Ok (final +:+ nl)
      end
  end.

(** *** Loading *)

(** One pass over the lines of a segment file.  The result says where a torn
    tail has to be cut. *)
Fixpoint load_lines (name : string) (ls : list (string * bool)) (offset : Z)
    (acc : list (string * string * Z * Z)) : result (list (string * string * Z * Z) * Z * option Z) :=
  match ls with
  | [] => Ok (acc, offset, None)
  | (line, terminated) :: rest =>
      let consumed := Z.of_nat (String.length line) + (if terminated then 1 else 0) in
      if bool_decide (line = "") then load_lines name rest (offset + consumed) acc
      else
        match decodeRecord line with
        | Err e => if terminated then Err (ErrWrap ("corrupt spool segment " +:+ name) e)
                   else Ok (acc, offset, Some offset)
        | Ok rec => load_lines name rest (offset + consumed)
                      (acc ++ [(s_EventID rec, s_TenantID rec, consumed, offset)])%list
        end
  end.

Definition loadSegment (fs : FS) (name : string) : result (segment * FS) :=
  match fs_dir fs !! name with
  | None => Err (ErrNew "file does not exist")
  | Some i =>
      match load_lines name (lines (inode_data fs i)) 0 [] with
      | Err e => Err e
      | Ok (entries, bytes, cut) =>
          let fs := match cut with
                    | Some n => set_inode fs i (String.substring 0 (Z.to_nat n) (inode_data fs i))
                    | None => fs
                    end in
          Ok ({| g_name := name; g_inode := i; g_bytes := bytes;
                 g_ids := (λ e, e.1.1.1) <$> entries; g_tenants := (λ e, e.1.1.2) <$> entries;
                 g_sizes := (λ e, e.1.2) <$> entries; g_offsets := (λ e, e.2) <$> entries;
                 g_committedCount := 0 |}, fs)
      end
  end.

Fixpoint load_segments (fs : FS) (names : list string) : result (list segment * FS) :=
  match names with
  | [] => Ok ([], fs)
  | name :: rest =>
      match loadSegment fs name with
      | Err e => Err e
      | Ok (seg, fs) =>
          match load_segments fs rest with
          | Err e => Err e
          | Ok (segs, fs) => Ok (seg :: segs, fs)
          end
      end
  end.

(** The committed prefix of a segment: how far the ids are known. *)
Fixpoint prefix_in (known : gset string) (ids : list string) : nat :=
  match ids with
  | id :: ids => if bool_decide (id ∈ known) then S (prefix_in known ids) else O
  | [] => O
  end.

Definition set_committed (g : segment) (n : nat) : segment :=
  {| g_name := g_name g; g_inode := g_inode g; g_bytes := g_bytes g; g_ids := g_ids g;
     g_tenants := g_tenants g; g_sizes := g_sizes g; g_offsets := g_offsets g; g_committedCount := n |}.

Definition fully_committed (g : segment) : bool :=
  (0 <? length (g_ids g))%nat && (g_committedCount g =? length (g_ids g))%nat.

Definition charge (events bytes : Z) (m : gmap string (Z * Z)) (t : string) : gmap string (Z * Z) :=
  let '(e, b) := default (0, 0) (m !! t) in <[t := (e + events, b + bytes)]> m.

(** The pending entries of a segment: tenant and size. *)
Definition pending_entries (g : segment) : list (string * Z) :=
  drop (g_committedCount g) (zip (g_tenants g) (g_sizes g)).

Definition all_pending (segs : list segment) : list (string * Z) := concat (pending_entries <$> segs).

Definition rebuildStateLocked (config : Config) (segs : list segment) (appends : Z) (fs : FS) : FileSpool :=
  let pending := all_pending segs in
  let dead := filter (λ g, fully_committed g = true) segs in
  let keep := filter (λ g, fully_committed g = false) segs in
  {| fs_config := config; fs_segments := keep;
     fs_committed := list_to_set (concat ((λ g, take (g_committedCount g) (g_ids g)) <$> keep));
     fs_tenants := foldl (λ m e, charge 1 e.2 m e.1) ∅ pending;
     fs_pendingEvents := Z.of_nat (length pending);
     fs_pendingBytes := foldr (λ e acc, e.2 + acc) 0 pending;
     fs_appends := appends; fs_closed := false;
     fs_files := foldl (λ fs g, remove_file fs (g_name g)) fs dead |}.

Definition segment_name (n : nat) : string := "segment-" +:+ zero_pad 6 (Z.of_nat n) +:+ ".wal".

Definition set_segments (s : FileSpool) (segs : list segment) (fs : FS) : FileSpool :=
  {| fs_config := fs_config s; fs_segments := segs; fs_committed := fs_committed s; fs_tenants := fs_tenants s;
     fs_pendingEvents := fs_pendingEvents s; fs_pendingBytes := fs_pendingBytes s; fs_appends := fs_appends s;
     fs_closed := fs_closed s; fs_files := fs |}.

Definition set_files (s : FileSpool) (fs : FS) : FileSpool := set_segments s (fs_segments s) fs.

Definition rotate (s : FileSpool) : FileSpool :=
  let name := segment_name (S (length (fs_segments s))) in
  let '(i, fs) := open_append (fs_files s) name in
  set_segments s (fs_segments s ++ [{| g_name := name; g_inode := i; g_bytes := 0; g_ids := [];
                     g_tenants := []; g_sizes := []; g_offsets := []; g_committedCount := 0 |}])%list fs.

Definition is_segment_name (name : string) : bool :=
  String.prefix "segment-" name && String.prefix "law." (String.rev name).

(** [New]: defaults, load every segment, replay committed.log, rebuild. *)
Definition New (config : Config) (fs : FS) : result FileSpool :=
  let config := {| c_SegmentBytes := if c_SegmentBytes config <=? 0 then 16777216 else c_SegmentBytes config;
                   c_FsyncEvery := if c_FsyncEvery config <=? 0 then 1 else c_FsyncEvery config |} in
  let names := stable_sort str_less (filter (λ n, is_segment_name n = true) (map_to_list (fs_dir fs)).*1) in
  match load_segments fs names with
  | Err e => Err e
  | Ok (segs, fs) =>
      let segs :=
        match read_file fs "committed.log" with
        | None => segs
        | Some data =>
            let known : gset string := list_to_set (filter (λ l, l ≠ "") (fst <$> lines data)) in
            (λ g, set_committed g (prefix_in known (g_ids g))) <$> segs
        end in
      let s := rebuildStateLocked config segs 0 fs in
      Ok (match fs_segments s with [] => rotate s | _ => s end)
  end.

(** *** Append *)

Definition last_segment (s : FileSpool) : segment :=
  default {| g_name := ""; g_inode := 0; g_bytes := 0; g_ids := []; g_tenants := []; g_sizes := [];
             g_offsets := []; g_committedCount := 0 |} (last (fs_segments s)).

(** The in-memory update after a written and synced line. *)
Definition push_entry (g : segment) (id tenant : string) (n : Z) : segment :=
  {| g_name := g_name g; g_inode := g_inode g; g_bytes := g_bytes g + n;
     g_ids := (g_ids g ++ [id])%list; g_tenants := (g_tenants g ++ [tenant])%list;
     g_sizes := (g_sizes g ++ [n])%list; g_offsets := (g_offsets g ++ [g_bytes g])%list;
     g_committedCount := g_committedCount g |}.

Definition record_append (s : FileSpool) (event : SpoolRecord) (n : Z) : FileSpool :=
  {| fs_config := fs_config s;
     fs_segments := alter (λ g, push_entry g (s_EventID event) (s_TenantID event) n)
                      (Nat.pred (length (fs_segments s))) (fs_segments s);
     fs_committed := fs_committed s;
     fs_tenants := charge 1 n (fs_tenants s) (s_TenantID event);
     fs_pendingEvents := fs_pendingEvents s + 1; fs_pendingBytes := fs_pendingBytes s + n;
     fs_appends := fs_appends s; fs_closed := fs_closed s; fs_files := fs_files s |}.

Definition write_line (s : FileSpool) (line : string) : FileSpool :=
  {| fs_config := fs_config s; fs_segments := fs_segments s; fs_committed := fs_committed s;
     fs_tenants := fs_tenants s; fs_pendingEvents := fs_pendingEvents s; fs_pendingBytes := fs_pendingBytes s;
     fs_appends := fs_appends s + 1; fs_closed := fs_closed s;
     fs_files := append_inode (fs_files s) (g_inode (last_segment s)) line |}.

Definition open_error : error := ErrNew "open segment".

Definition Append (s : FileSpool) (io : IO) (event : SpoolRecord) : option error * FileSpool :=
  if fs_closed s then (Some ErrSpoolUnavailable, s)
  else if negb (io_open io) && bool_decide (fs_segments s = []) then (Some open_error, s)
  else
    let s := match fs_segments s with [] => rotate s | _ => s end in
    match serialize event with
    | Err e => (Some e, s)
    | Ok line =>
        let n := Z.of_nat (String.length line) in
        let full := c_SegmentBytes (fs_config s) <? g_bytes (last_segment s) + n in
        if full && negb (io_open io) then (Some open_error, s)
        else
          let s := if full then rotate s else s in
          if negb (io_write io)
          then (Some ErrSpoolUnavailable,
                set_files s (short_write (fs_files s) (g_inode (last_segment s)) line (io_short io)))
          else
            let s := write_line s line in
            if (Z.rem (fs_appends s) (c_FsyncEvery (fs_config s)) =? 0) && negb (io_sync io)
            then (Some ErrSpoolUnavailable, s)
            else (None, record_append s event n)
    end.

(** *** Pending *)

(** The scan of one segment file from the first pending line; [limit] is what
    [Pending] passes, compared with the whole output. *)
Fixpoint scan (committed : gset string) (name : string) (limit : Z) (ls : list (string * bool))
    (out : list SpoolRecord) : result (list SpoolRecord) :=
  match ls with
  | [] => Ok out
  | (line, _) :: rest =>
      if bool_decide (line = "") then scan committed name limit rest out
      else
        match decodeRecord line with
        | Err e => Err (ErrWrap ("corrupt spool segment " +:+ name) e)
        | Ok rec =>
            if bool_decide (s_EventID rec ∈ committed) then scan committed name limit rest out
            else
              let out := (out ++ [rec])%list in
              if limit <=? Z.of_nat (length out) then Ok out else scan committed name limit rest out
        end
  end.

Definition drop_string (n : nat) (s : string) : string := String.substring n (String.length s - n) s.

(** A read or seek on a segment file that [Close] closed. *)
Definition ErrClosed : error := ErrNew "file already closed".

Definition collectPending (s : FileSpool) (g : segment) (limit : Z) (out : list SpoolRecord) :
    result (list SpoolRecord) :=
  match g_offsets g !! g_committedCount g with
  | None => Ok out
  | Some off =>
      if fs_closed s then Err ErrClosed
      else scan (fs_committed s) (g_name g) limit
        (lines (drop_string (Z.to_nat off) (inode_data (fs_files s) (g_inode g)))) out
  end.

Fixpoint collect_all (s : FileSpool) (limit : Z) (segs : list segment) (out : list SpoolRecord) :
    result (list SpoolRecord) :=
  match segs with
  | [] => Ok out
  | g :: rest =>
      if limit <=? Z.of_nat (length out) then Ok out
      else match collectPending s g (limit - Z.of_nat (length out)) out with
           | Err e => Err e
           | Ok out => collect_all s limit rest out
           end
  end.

Definition Pending (s : FileSpool) (limit : Z) : result (list SpoolRecord) :=
  if limit <=? 0 then Ok [] else collect_all s limit (fs_segments s) [].

(** *** Commit *)

(** The ids a commit newly marks, in order, and the grown set. *)
Fixpoint mark_committed (committed : gset string) (ids : list string) : list string * gset string :=
  match ids with
  | [] => ([], committed)
  | id :: ids =>
      if bool_decide (id ∈ committed) then mark_committed committed ids
      else let '(fresh, committed) := mark_committed ({[id]} ∪ committed) ids in (id :: fresh, committed)
  end.

(** Advance a segment's prefix; the entries that leave the backlog. *)
Definition advance (committed : gset string) (g : segment) : segment * list (string * Z) :=
  let more := prefix_in committed (drop (g_committedCount g) (g_ids g)) in
  (set_committed g (g_committedCount g + more), take more (pending_entries g)).

Definition discharge (m : gmap string (Z * Z)) (e : string * Z) : gmap string (Z * Z) :=
  match m !! e.1 with
  | Some (n, b) => <[e.1 := (n - 1, b - e.2)]> m
  | None => m
  end.

Definition removeFullyCommittedLocked (s : FileSpool) (io : IO) : option error * FileSpool :=
  let dead := filter (λ g, fully_committed g = true) (fs_segments s) in
  let keep := filter (λ g, fully_committed g = false) (fs_segments s) in
  let fs := foldl (λ fs g, remove_file fs (g_name g)) (fs_files s) dead in
  let committed := fs_committed s ∖ list_to_set (concat (g_ids <$> dead)) in
  let failed := bool_decide (dead ≠ []) && bool_decide (io_rewrite io ≠ None) in
  let log := String.concat "" ((λ id, id +:+ nl) <$>
               concat ((λ g, take (g_committedCount g) (g_ids g)) <$> keep)) in
  let fs := match dead, io_rewrite io with
            | [], _ | _, Some None => fs
            | _, None => write_file fs "committed.log" log
            | _, Some (Some n) => write_file fs "committed.log" (String.substring 0 n log)
            end in
  (if failed then Some (ErrNew "rewrite committed.log") else None,
   {| fs_config := fs_config s; fs_segments := keep; fs_committed := committed; fs_tenants := fs_tenants s;
      fs_pendingEvents := fs_pendingEvents s; fs_pendingBytes := fs_pendingBytes s; fs_appends := fs_appends s;
      fs_closed := fs_closed s; fs_files := fs |}).

Definition Commit (s : FileSpool) (io : IO) (ids : list string) : option error * FileSpool :=
  match ids with
  | [] => (None, s)
  | _ =>
      if negb (io_open io) then (Some open_error, s)
      else
        let '(i, fs) := open_append (fs_files s) "committed.log" in
        let '(fresh, committed) := mark_committed (fs_committed s) ids in
        let marked fs :=
          {| fs_config := fs_config s; fs_segments := fs_segments s; fs_committed := committed;
             fs_tenants := fs_tenants s; fs_pendingEvents := fs_pendingEvents s;
             fs_pendingBytes := fs_pendingBytes s; fs_appends := fs_appends s; fs_closed := fs_closed s;
             fs_files := fs |} in
        let entry := String.concat "" ((λ id, id +:+ nl) <$> fresh) in
        if bool_decide (fresh ≠ []) && negb (io_write io)
        then (Some (ErrNew "write committed.log"), marked (short_write fs i entry (io_short io)))
        else
          let fs := append_inode fs i entry in
          if bool_decide (fresh ≠ []) && negb (io_sync io) then (Some (ErrNew "sync committed.log"), marked fs)
          else
            let moved := advance committed <$> fs_segments s in
            let left := concat (snd <$> moved) in
            removeFullyCommittedLocked
               {| fs_config := fs_config s; fs_segments := fst <$> moved; fs_committed := committed;
                  fs_tenants := foldl discharge (fs_tenants s) left;
                  fs_pendingEvents := fs_pendingEvents s - Z.of_nat (length left);
                  fs_pendingBytes := fs_pendingBytes s - foldr (λ e acc, e.2 + acc) 0 left;
                  fs_appends := fs_appends s; fs_closed := fs_closed s; fs_files := fs |} io
  end.

(** The line at an offset of a segment, within the bytes the segment accounts for. *)
Definition lineAt (s : FileSpool) (g : segment) (offset : Z) : result SpoolRecord :=
  let section := String.substring (Z.to_nat offset) (Z.to_nat (g_bytes g - offset))
                   (inode_data (fs_files s) (g_inode g)) in
  if fs_closed s then Err ErrClosed else decodeRecord (default "" (fst <$> head (lines section))).

(** The age of the first pending event whose line decodes and carries a time. *)
Fixpoint oldestUncommittedLocked (s : FileSpool) (now : Z) (segs : list segment) : Z :=
  match segs with
  | [] => 0
  | g :: rest =>
      match g_offsets g !! g_committedCount g with
      | None => oldestUncommittedLocked s now rest
      | Some off =>
          match lineAt s g off with
          | Err _ => oldestUncommittedLocked s now rest
          | Ok rec => if s_EventTS rec =? zero_time then oldestUncommittedLocked s now rest
                      else time_sub now (s_EventTS rec)
          end
      end
  end.

Definition Stats (s : FileSpool) (now : Z) : SpoolStats :=
  {| st_Events := fs_pendingEvents s; st_Bytes := fs_pendingBytes s;
     st_OldestAge := oldestUncommittedLocked s now (fs_segments s); st_UsageRatio := f64_zero |}.

(** [Close] syncs and closes every segment; the first failure is reported and
    the spool is closed either way. *)
Definition Close (s : FileSpool) (io : IO) : option error * FileSpool :=
  if fs_closed s then (None, s)
  else (if bool_decide (fs_segments s ≠ []) && negb (io_sync io) then Some (ErrNew "sync segment") else None,
        {| fs_config := fs_config s; fs_segments := fs_segments s; fs_committed := fs_committed s;
           fs_tenants := fs_tenants s; fs_pendingEvents := fs_pendingEvents s;
           fs_pendingBytes := fs_pendingBytes s; fs_appends := fs_appends s; fs_closed := true;
           fs_files := fs_files s |}).

Definition TenantUsage (s : FileSpool) (tenant : string) : Z * Z := default (0, 0) (fs_tenants s !! tenant).

Definition SegmentCount (s : FileSpool) : nat := length (fs_segments s).
End FileSpool.

(** ** The counters *)

Definition sum_sizes (l : list (string * Z)) : Z := foldr (λ e acc, e.2 + acc) 0 l.

(** Events and bytes of a tenant in a backlog. *)
Definition usage_of (t : string) (l : list (string * Z)) : Z * Z :=
  (foldr (λ e acc, (if bool_decide (e.1 = t) then 1 else 0) + acc) 0 l,
   foldr (λ e acc, (if bool_decide (e.1 = t) then e.2 else 0) + acc) 0 l).

Definition usage_add (u v : Z * Z) : Z * Z := (u.1 + v.1, u.2 + v.2).

Lemma sum_sizes_app l1 l2 : sum_sizes (l1 ++ l2) = sum_sizes l1 + sum_sizes l2.
Proof. induction l1 as [|e l1 IH]; simpl; [done|]. rewrite IH. lia. Qed.

Lemma usage_of_app t l1 l2 : usage_of t (l1 ++ l2) = usage_add (usage_of t l1) (usage_of t l2).
Proof.
  unfold usage_add, usage_of. simpl. induction l1 as [|e l1 IH]; simpl; [done|].
  injection IH as -> ->. f_equal; lia.
Qed.

Lemma sum_sizes_perm l l' : l ≡ₚ l' → sum_sizes l = sum_sizes l'.
Proof. induction 1; simpl; lia. Qed.

Lemma usage_of_perm t l l' : l ≡ₚ l' → usage_of t l = usage_of t l'.
Proof.
  induction 1 as [|x l l' _ IH|x y l|l1 l2 l3 _ IH1 _ IH2]; [done| | |congruence].
  - pose proof (usage_of_app t [x] l) as H1. pose proof (usage_of_app t [x] l') as H2. simpl in H1, H2.
    by rewrite H1, H2, IH.
  - unfold usage_of. simpl. f_equal; lia.
Qed.

Lemma charge_lookup n b m t t' :
  default (0, 0) (charge n b m t !! t') =
  usage_add (default (0, 0) (m !! t')) (if decide (t = t') then (n, b) else (0, 0)).
Proof.
  unfold charge. destruct (default (0, 0) (m !! t)) as [e0 b0] eqn:E. rewrite lookup_insert.
  unfold usage_add. case_decide as Ht; simpl.
  - subst. by rewrite E.
  - destruct (default (0, 0) (m !! t')). simpl. f_equal; lia.
Qed.

Lemma charge_all m l t :
  default (0, 0) (foldl (λ m e, charge 1 e.2 m e.1) m l !! t) =
  usage_add (default (0, 0) (m !! t)) (usage_of t l).
Proof.
  revert m. induction l as [|e l IH]; intros m; simpl.
  - unfold usage_add. simpl. destruct (default (0, 0) (m !! t)). simpl. f_equal; lia.
  - rewrite IH, charge_lookup. unfold usage_add, usage_of. simpl.
    destruct (decide (e.1 = t)); [rewrite (bool_decide_true (e.1 = t)) by done|
      rewrite (bool_decide_false (e.1 = t)) by done]; simpl; f_equal; lia.
Qed.

(** Discharging entries that are accounted for. *)
Lemma discharge_all m l t rest :
  (∀ t, default (0, 0) (m !! t) = usage_of t (l ++ rest)) → Forall (λ e, is_Some (m !! e.1)) l →
  default (0, 0) (foldl discharge m l !! t) = usage_of t rest.
Proof.
  revert m. induction l as [|e l IH]; intros m Hm Hs; simpl; [apply Hm|].
  apply Forall_cons in Hs as [[[n b] He] Hs]. apply IH.
  - intros t'. unfold discharge. rewrite He, lookup_insert. pose proof (Hm t') as Ht'.
    unfold usage_of in *. cbn [app foldr] in Ht'. case_decide as Hd.
    + subst t'. rewrite He, !(bool_decide_true (e.1 = e.1)) in Ht' by done.
      injection Ht' as -> ->. simpl. f_equal; lia.
    + rewrite !(bool_decide_false (e.1 = t')) in Ht' by done. exact Ht'.
  - eapply Forall_impl; [exact Hs|]. intros e' [x Hx]. unfold discharge. rewrite He, lookup_insert.
    case_decide; eauto.
Qed.

(** ** Segments *)

Record seg_wf (g : segment) : Prop := {
  wf_tenants : length (g_tenants g) = length (g_ids g);
  wf_sizes : length (g_sizes g) = length (g_ids g);
  wf_committed : (g_committedCount g <= length (g_ids g))%nat }.

Lemma all_pending_app l1 l2 : all_pending (l1 ++ l2) = (all_pending l1 ++ all_pending l2)%list.
Proof. unfold all_pending. by rewrite fmap_app, concat_app. Qed.

Lemma Forall_kept {A} (P Q : A → Prop) `{∀ x, Decision (Q x)} l : Forall P l → Forall P (filter Q l).
Proof. rewrite !Forall_forall. intros HP x [_ Hx]%list_elem_of_filter. by apply HP. Qed.

Lemma all_pending_cons g segs : all_pending (g :: segs) = (pending_entries g ++ all_pending segs)%list.
Proof. done. Qed.

Lemma fully_committed_pending g : seg_wf g → fully_committed g = true → pending_entries g = [].
Proof.
  intros [H1 H2 H3] [_ Hf]%andb_prop. apply Nat.eqb_eq in Hf. apply drop_ge.
  rewrite length_zip. lia.
Qed.

Lemma all_pending_keep segs :
  Forall seg_wf segs → all_pending (filter (λ g, fully_committed g = false) segs) = all_pending segs.
Proof.
  induction 1 as [|g segs Hg _ IH]; [done|]. rewrite filter_cons.
  case_decide as Hf; rewrite ?all_pending_cons, IH; [done|].
  by rewrite (fully_committed_pending g) by (done || by apply not_false_iff_true).
Qed.

Lemma last_alter_snoc (segs : list segment) f :
  segs ≠ [] → ∃ init g, segs = (init ++ [g])%list ∧ last segs = Some g ∧
    alter f (Nat.pred (length segs)) segs = (init ++ [f g])%list.
Proof.
  intros Hne. destruct (exists_last Hne) as (init&g&->). exists init, g. split; [done|].
  split; [by rewrite last_snoc|]. rewrite length_app. simpl. rewrite Nat.add_1_r. simpl.
  rewrite alter_app_r_alt by lia. by rewrite Nat.sub_diag.
Qed.

Lemma push_entry_wf g id t n : seg_wf g → seg_wf (push_entry g id t n).
Proof. intros [H1 H2 H3]. split; simpl; rewrite !length_app; simpl; lia. Qed.

Lemma push_entry_pending g id t n :
  seg_wf g → pending_entries (push_entry g id t n) = (pending_entries g ++ [(t, n)])%list.
Proof.
  intros [H1 H2 H3]. unfold pending_entries. simpl. rewrite zip_with_app by lia. simpl.
  rewrite drop_app_le; [done|]. rewrite length_zip. lia.
Qed.

Lemma prefix_in_le known ids : (prefix_in known ids <= length ids)%nat.
Proof. induction ids as [|id ids IH]; simpl; [lia|]. case_bool_decide; simpl; lia. Qed.

Lemma advance_spec known g :
  seg_wf g →
  seg_wf (advance known g).1 ∧
  pending_entries g = ((advance known g).2 ++ pending_entries (advance known g).1)%list.
Proof.
  intros [H1 H2 H3]. unfold advance. simpl.
  pose proof (prefix_in_le known (drop (g_committedCount g) (g_ids g))) as Hle. rewrite length_drop in Hle.
  split; [split; simpl; lia|]. unfold pending_entries. simpl. by rewrite <- drop_drop, take_drop.
Qed.

(** ** The counters follow the backlog *)

Record counters_ok (s : FileSpool) : Prop := {
  co_segments : Forall seg_wf (fs_segments s);
  co_events : fs_pendingEvents s = Z.of_nat (length (all_pending (fs_segments s)));
  co_bytes : fs_pendingBytes s = sum_sizes (all_pending (fs_segments s));
  co_tenants t : TenantUsage s t = usage_of t (all_pending (fs_segments s)) }.

Lemma empty_segment_ok (s : FileSpool) :
  counters_ok s → counters_ok (rotate s) ∧ fs_segments (rotate s) ≠ [].
Proof.
  intros [H1 H2 H3 H4]. unfold rotate. destruct (open_append _ _) as [i fs]. split.
  - split; simpl; rewrite ?all_pending_app; simpl; rewrite ?app_nil_r; try done.
    apply Forall_app. split; [done|]. repeat constructor.
  - simpl. intros []%app_nil. done.
Qed.

Lemma rebuild_ok config segs appends fs :
  Forall seg_wf segs → counters_ok (rebuildStateLocked config segs appends fs).
Proof.
  intros Hwf. split; simpl; rewrite ?all_pending_keep by done; try done.
  - by apply Forall_kept.
  - intros t. unfold TenantUsage. simpl. rewrite charge_all, lookup_empty.
    unfold usage_add. by destruct (usage_of t (all_pending segs)).
Qed.

Section Reachable.
Context `{!JSON}.

Lemma loadSegment_wf fs name g fs' : loadSegment fs name = Ok (g, fs') → seg_wf g.
Proof.
  unfold loadSegment. repeat case_match; try done;
    intros [= <- _]; (split; simpl; rewrite ?length_fmap; lia).
Qed.

Lemma load_segments_wf names fs segs fs' :
  load_segments fs names = Ok (segs, fs') → Forall seg_wf segs.
Proof.
  revert fs segs fs'. induction names as [|name names IH]; intros fs segs fs'; simpl.
  - intros [= <- _]. constructor.
  - destruct (loadSegment fs name) as [[g fs1]|] eqn:Eg; [|done].
    destruct (load_segments fs1 names) as [[rest fs2]|] eqn:Er; [|done]. intros [= <- _].
    constructor; [by eapply loadSegment_wf|by eapply IH].
Qed.

Lemma New_ok config fs s : New config fs = Ok s → counters_ok s.
Proof.
  unfold New. destruct (load_segments _ _) as [[segs fs1]|] eqn:El; [|done]. intros [= <-].
  apply load_segments_wf in El.
  set (segs' := match read_file fs1 "committed.log" with None => segs | Some _ => _ end).
  assert (Forall seg_wf segs') as Hwf.
  { subst segs'. destruct (read_file _ _); [|done]. apply Forall_fmap. eapply Forall_impl; [done|].
    intros g [H1 H2 H3]. split; simpl; [done|done|apply prefix_in_le]. }
  simpl. destruct (filter _ segs'); [apply empty_segment_ok|]; by apply rebuild_ok.
Qed.

Lemma record_append_ok s event n :
  counters_ok s → fs_segments s ≠ [] → counters_ok (record_append s event n).
Proof.
  intros [H1 H2 H3 H4] Hne.
  destruct (last_alter_snoc (fs_segments s) (λ g, push_entry g (s_EventID event) (s_TenantID event) n) Hne)
    as (init&g&Hs&_&Ha).
  assert (all_pending (init ++ [push_entry g (s_EventID event) (s_TenantID event) n]) =
          (all_pending (fs_segments s) ++ [(s_TenantID event, n)])%list) as Hp.
  { rewrite Hs in *. apply Forall_app in H1 as [_ Hg%Forall_cons_1]. destruct Hg as [Hg _].
    rewrite !all_pending_app. unfold all_pending at 2 4. simpl. rewrite !app_nil_r, push_entry_pending by done.
    by rewrite app_assoc. }
  split; simpl; rewrite ?Ha, ?Hp.
  - rewrite Hs in H1. apply Forall_app in H1 as [Hi [Hg _]%Forall_cons_1].
    apply Forall_app. split; [done|]. constructor; [by apply push_entry_wf|constructor].
  - rewrite length_app. simpl. lia.
  - rewrite sum_sizes_app. simpl. lia.
  - intros t. rewrite usage_of_app. unfold TenantUsage in *. simpl. rewrite charge_lookup, H4. f_equal.
    unfold usage_of. simpl. case_decide; [rewrite bool_decide_true by done|rewrite bool_decide_false by done];
      f_equal; lia.
Qed.

Lemma Append_ok s io event : counters_ok s → counters_ok (Append s io event).2.
Proof.
  intros Hok. unfold Append. destruct (fs_closed s); [done|]. destruct (_ && _); [done|].
  set (s1 := match fs_segments s with [] => rotate s | _ => s end).
  assert (counters_ok s1 ∧ fs_segments s1 ≠ []) as [Hok1 Hne1].
  { subst s1. destruct (fs_segments s) eqn:E; [by apply empty_segment_ok|]. rewrite E. done. }
  destruct (serialize event) as [line|]; [|done]. destruct (_ && _); [done|].
  set (s2 := if (_ <? _) then rotate s1 else s1).
  assert (counters_ok s2 ∧ fs_segments s2 ≠ []) as [Hok2 Hne2].
  { subst s2. destruct (_ <? _); [by apply empty_segment_ok|done]. }
  destruct (negb _); [by destruct Hok2|].
  assert (counters_ok (write_line s2 line)) as Hw by (by destruct Hok2).
  destruct (_ && _); [exact Hw|]. simpl. by apply record_append_ok.
Qed.

Lemma remove_ok s io : counters_ok s → counters_ok (removeFullyCommittedLocked s io).2.
Proof.
  intros [H1 H2 H3 H4]. split; simpl; rewrite ?all_pending_keep by done; try done.
  - by apply Forall_kept.
Qed.

Lemma advance_all known segs :
  Forall seg_wf segs →
  Forall seg_wf (fst <$> (advance known <$> segs)) ∧
  all_pending segs ≡ₚ concat (snd <$> (advance known <$> segs)) ++ all_pending (fst <$> (advance known <$> segs)).
Proof.
  induction 1 as [|g segs Hg _ [IH1 IH2]]; [by split|]. destruct (advance_spec known g Hg) as [Hw Hp].
  split; [by constructor|]. rewrite !fmap_cons. rewrite !all_pending_cons. cbn [concat].
  rewrite Hp, IH2. solve_Permutation.
Qed.

Lemma usage_present (m : gmap string (Z * Z)) l :
  (∀ t, default (0, 0) (m !! t) = usage_of t l) → (∀ t, 0 < (usage_of t l).1 → is_Some (m !! t)).
Proof.
  intros Hm t Ht. destruct (m !! t) eqn:E; [done|]. specialize (Hm t). rewrite E in Hm.
  rewrite <- Hm in Ht. simpl in Ht. lia.
Qed.

Lemma usage_pos t l : (t ∈ l.*1) → 0 < (usage_of t l).1.
Proof.
  assert (∀ l, 0 <= (usage_of t l).1) as Hnn.
  { intros l'. unfold usage_of. simpl. induction l' as [|e l' IH]; simpl; [lia|]. case_bool_decide; lia. }
  induction l as [|e l IH]; [set_solver|]. rewrite fmap_cons, elem_of_cons. specialize (Hnn l).
  unfold usage_of in *. simpl in *. intros [->|Hin]; [rewrite bool_decide_true by done; lia|].
  specialize (IH Hin). case_bool_decide; lia.
Qed.

Lemma Commit_ok s io ids : counters_ok s → counters_ok (Commit s io ids).2.
Proof.
  intros Hok. destruct Hok as [H1 H2 H3 H4]. unfold Commit. destruct ids as [|id ids]; [done|].
  destruct (negb _); [done|]. destruct (open_append _ _) as [i fs]. destruct (mark_committed _ _) as [fresh known].
  destruct (_ && _); [done|]. destruct (_ && _); [done|]. apply remove_ok.
  destruct (advance_all known _ H1) as [Hw Hp]. split; simpl.
  - done.
  - rewrite H2, Hp, length_app. lia.
  - rewrite H3, (sum_sizes_perm _ _ Hp), sum_sizes_app. unfold sum_sizes. lia.
  - intros t. unfold TenantUsage in *. simpl. apply discharge_all.
    + intros t'. rewrite H4. by apply usage_of_perm.
    + apply Forall_forall. intros e He. eapply usage_present; [exact H4|]. rewrite (usage_of_perm _ _ _ Hp).
      apply usage_pos. rewrite fmap_app. apply elem_of_app. left. by apply list_elem_of_fmap_2.
Qed.

Lemma Close_ok s io : counters_ok s → counters_ok (Close s io).2.
Proof. unfold Close. destruct (fs_closed s); [done|]. by intros [H1 H2 H3 H4]. Qed.

(** A spool in use: opened on any directory, then appended to,
    committed from and closed, with any I/O failures. *)
Inductive spool_reachable : FileSpool → Prop :=
| reach_new config fs s : New config fs = Ok s → spool_reachable s
| reach_append s io event : spool_reachable s → spool_reachable (Append s io event).2
| reach_commit s io ids : spool_reachable s → spool_reachable (Commit s io ids).2
| reach_close s io : spool_reachable s → spool_reachable (Close s io).2.

(** The backlog counters are exact.  In every state a spool can reach, from
    any directory contents and through any appends, commits and closes with any I/O
    failures, the global event and byte counters and every tenant's usage equal
    what the segments hold uncommitted. *)
Theorem spool_counters_exact s now :
  spool_reachable s →
  st_Events (Stats s now) = Z.of_nat (length (all_pending (fs_segments s))) ∧
  st_Bytes (Stats s now) = sum_sizes (all_pending (fs_segments s)) ∧
  ∀ t, TenantUsage s t = usage_of t (all_pending (fs_segments s)).
Proof.
  intros Hr. assert (counters_ok s) as [_ H2 H3 H4]; [|done].
  induction Hr as [config fs s Hs|s io event _ IH|s io ids _ IH|s io _ IH].
  - by eapply New_ok.
  - by apply Append_ok.
  - by apply Commit_ok.
  - by apply Close_ok.
Qed.
End Reachable.

(** ** Torn tails *)

(** The strings and the integers of a record. *)
Definition attempt_texts (a : Attempt) : list string := [a_DeploymentID a; a_Outcome a].
Definition evidence_texts (e : RouteEvidence) : list string := re_DeploymentID e :: re_Exclusions e.

Definition facts_texts (f : Facts) : list string :=
  ([f_UsageEventID f; f_RequestID f; f_ParentRequestID f; f_TenantID f; f_ProjectID f; f_KeyID f; f_LogicalModel f;
    f_DeploymentID f; f_Outcome f; f_UsageSource f; f_GuardrailStatus f; f_ProviderCurrency f; f_BudgetPolicyID f;
    f_ReservationID f; f_UserID f; f_OrgUnitID f; f_OrgPathSnapshot f; f_CostCenterID f; f_AttributionTrust f;
    f_SessionID f; f_TaskID f; f_RootTaskID f; f_ParentTaskID f; f_AgentID f; f_AgentVersion f; f_AgentEndpointID f;
    f_EstimationMethod f] ++ concat (attempt_texts <$> f_Attempts f) ++ concat (evidence_texts <$> f_RouteEvidence f))%list.

Definition facts_integers (f : Facts) : list Z :=
  ([f_InputTokens f; f_OutputTokens f; f_CacheReadTokens f; f_CacheWriteTokens f; f_CachedInputTokens f;
    f_ReasoningTokens f; f_ToolCalls f; f_RetryCount f; f_FallbackCount f; f_LatencyMS f; f_SnapshotVersion f;
    f_SecurityEpoch f] ++ (a_Number <$> f_Attempts f) ++ option_list (f_ActualTokens f))%list.

Definition record_texts (r : SpoolRecord) : list string :=
  ([s_EventID r; s_RequestID r; s_TenantID r; s_ProjectID r; s_PricingVersion r; s_Checksum r] ++
   facts_texts (s_Facts r))%list.

(** A record of machine integers and floats whose strings are well-formed UTF-8. *)
Record faithful (r : SpoolRecord) : Prop := {
  fa_texts : Forall utf8 (record_texts r);
  fa_integers : Forall in_int64 (facts_integers (s_Facts r));
  fa_cost : match f_ProviderCost (s_Facts r) with Some c => SpecFloat.valid_binary 53 1024 c = true | None => True end }.

(** What the log relies on of encoding/json: a marshalled record parses back when
    its strings are well-formed UTF-8 (others come back with U+FFFD in them), it is
    one line, and no proper prefix of it parses. *)
Class JSONLaws `{!JSON} := {
  json_parses r s : faithful r → json_Marshal r = Ok s → json_Unmarshal s = Ok r;
  json_one_line r s : json_Marshal r = Ok s → newline ∉ String.list_ascii_of_string s;
  json_prefix r s p q : json_Marshal r = Ok s → s = p +:+ q → q ≠ "" → is_ok (json_Unmarshal p) = false }.

Lemma split_lines_step cur line rest :
  newline ∉ String.list_ascii_of_string line →
  split_lines cur (line +:+ nl +:+ rest) = (cur +:+ line, true) :: lines rest.
Proof.
  revert cur. induction line as [|c line IH]; intros cur Hl.
  - by rewrite str_app_nil.
  - rewrite str_cons_app. simpl in *. destruct (Ascii.eqb_spec c newline) as [->|_]; [set_solver|].
    rewrite IH by set_solver. by rewrite str_app_assoc, str_cons_app.
Qed.

Lemma split_lines_tail cur line :
  newline ∉ String.list_ascii_of_string line → cur +:+ line ≠ "" →
  split_lines cur line = [(cur +:+ line, false)].
Proof.
  revert cur. induction line as [|c line IH]; intros cur Hl Hne; simpl.
  - rewrite str_app_nil in *. by rewrite bool_decide_false.
  - simpl in Hl. destruct (Ascii.eqb_spec c newline) as [->|_]; [set_solver|].
    rewrite IH; [by rewrite str_app_assoc, str_cons_app|set_solver|]. by rewrite str_app_assoc, str_cons_app.
Qed.

Lemma str_app_inj_nl a b : a +:+ nl = b +:+ nl → a = b.
Proof.
  revert b. induction a as [|x a IH]; intros [|y b]; simpl; intros [=]; try done; [by destruct b|by destruct a|].
  subst. f_equal. by apply IH.
Qed.

(** The digest is never the empty string. *)
Lemma sha_round_length st kw : length st = 8%nat → length (sha_round st kw) = 8%nat.
Proof. do 9 (destruct st as [|? st]; try done). Qed.

Lemma sha_block_length h b : length h = 8%nat → length (sha_block h b) = 8%nat.
Proof.
  intros Hh. unfold sha_block. rewrite length_zip_with.
  assert (length (foldl sha_round h (combine sha_k (schedule b))) = 8%nat) as ->; [|lia].
  apply (foldl_invariant (λ l, length l = 8%nat)); [|done]. intros. by apply sha_round_length.
Qed.

Lemma checksum_nonempty payload : checksum payload ≠ "".
Proof.
  unfold checksum, sha256. set (p := sha_pad _). generalize (length p / 64)%nat. intros n.
  assert (∀ h bs, length h = 8%nat → length (sha_blocks n h bs) = 8%nat) as Hlen.
  { induction n as [|n IH]; intros h bs Hh; simpl; [done|]. apply IH. by apply sha_block_length. }
  specialize (Hlen sha_h0 p eq_refl). by destruct (sha_blocks n sha_h0 p).
Qed.

Lemma checksum_utf8 payload : utf8 (checksum payload).
Proof. apply hex_utf8, sha256_range. Qed.

#[local] Opaque sha256.
Arguments checksum : simpl never.

Section TornTail.
Context `{!JSON, !JSONLaws}.

(** What [serialize] writes is one line no proper part of which decodes, *)
Lemma serialize_line event line :
  serialize event = Ok line →
  ∃ body, line = body +:+ nl ∧ newline ∉ String.list_ascii_of_string body ∧
    (∀ p q, body = p +:+ q → q ≠ "" → is_ok (decodeRecord p) = false).
Proof.
  unfold serialize. destruct (json_Marshal (with_checksum event "")) as [payload|] eqn:Ep; [|done].
  destruct (json_Marshal (with_checksum _ (checksum payload))) as [body|] eqn:Eb; [|done]. intros [= <-].
  exists body. split_and!; [done|by eapply json_one_line|].
  intros p q Hb Hq. unfold decodeRecord. pose proof (json_prefix _ _ p q Eb Hb Hq) as Hp.
  by destruct (json_Unmarshal p).
Qed.

Lemma faithful_checksum event sum : faithful event → utf8 sum → faithful (with_checksum event sum).
Proof.
  intros [Ht Hi Hc] Hs. split; [|exact Hi|exact Hc]. unfold record_texts in *. simpl in *.
  do 5 (apply Forall_cons in Ht as [? Ht]; constructor; [done|]).
  apply Forall_cons in Ht as [_ Ht]. by constructor.
Qed.

(** and [decodeRecord] reads it back. *)
Lemma serialize_decode event body :
  faithful event → serialize event = Ok (body +:+ nl) →
  body ≠ "" ∧ decodeRecord body = Ok (with_checksum event "").
Proof.
  intros Hf. unfold serialize. destruct (json_Marshal (with_checksum event "")) as [payload|] eqn:Ep; [|done].
  destruct (json_Marshal (with_checksum _ (checksum payload))) as [body'|] eqn:Eb; [|done].
  intros [= Hb%str_app_inj_nl]. subst body'.
  pose proof (json_parses _ _ (faithful_checksum _ _ Hf (eq_refl : utf8 "")) Ep) as H2.
  assert (json_Unmarshal body = Ok (with_checksum event (checksum payload))) as H1.
  { apply json_parses; [by apply faithful_checksum, checksum_utf8|done]. }
  split.
  - intros ->. pose proof (json_prefix _ _ "" payload Ep eq_refl) as H3. rewrite H1 in H3. simpl in H3.
    destruct (decide (payload = "")) as [->|Hne]; [|by specialize (H3 Hne)].
    rewrite H2 in H1. apply (f_equal (λ r, match r with Ok r => s_Checksum r | Err _ => "" end)) in H1.
    by destruct (checksum_nonempty "").
  - unfold decodeRecord. rewrite H1. simpl. rewrite bool_decide_false by apply checksum_nonempty.
    change (with_checksum (with_checksum event (checksum payload)) "") with (with_checksum event "").
    rewrite Ep, bool_decide_false; [done|]. by intros [].
Qed.

(** The contents of a segment file after these events, all of them faithful, were
    appended. *)
Fixpoint written (events : list SpoolRecord) (content : string) : Prop :=
  match events with
  | [] => content = ""
  | e :: events => ∃ line rest, faithful e ∧ serialize e = Ok line ∧ content = line +:+ rest ∧ written events rest
  end.

Lemma load_written name events content off acc tail :
  written events content →
  ∃ entries, length entries = length events ∧ ((λ e, e.1.1.1) <$> entries) = (s_EventID <$> events) ∧
    load_lines name (lines (content +:+ tail)) off acc =
    load_lines name (lines tail) (off + Z.of_nat (String.length content)) (acc ++ entries).
Proof.
  revert content off acc. induction events as [|e events IH]; intros content off acc; simpl.
  - intros ->. exists []. split_and!; [done..|]. simpl. by rewrite Z.add_0_r, app_nil_r.
  - intros (line&rest&Hf&Hl&->&Hr). destruct (serialize_line _ _ Hl) as (body&->&Hnl&_).
    destruct (serialize_decode _ _ Hf Hl) as [Hne Hdec].
    destruct (IH rest (off + (Z.of_nat (String.length body) + 1))
      (acc ++ [(s_EventID e, s_TenantID e, Z.of_nat (String.length body) + 1, off)])%list Hr) as (entries&H1&H2&H3).
    exists ((s_EventID e, s_TenantID e, Z.of_nat (String.length body) + 1, off) :: entries).
    split_and!; [simpl; lia|simpl; by f_equal|].
    rewrite !str_app_assoc. unfold lines at 1. rewrite split_lines_step by done.
    cbn [load_lines]. change ("" +:+ body) with body. rewrite bool_decide_false, Hdec by done.
    cbn [s_EventID s_TenantID with_checksum]. rewrite H3. f_equal.
    + rewrite !str_length_app. simpl. lia.
    + by rewrite <- app_assoc.
Qed.

(** C29: torn-tail recovery.  Let a segment hold events of machine integers and
    floats whose strings are well-formed UTF-8 (the log is not this robust for
    others: encoding/json writes U+FFFD for a bad byte, and the line then fails its
    own checksum).  If the process died while appending an event, so that
    the segment file holds the complete lines of the earlier events followed by a
    part of the new line that lacks more than its newline (without just that the line
    counts as complete: [missing_newline_corrupts_segment]), then loading the segment
    succeeds, finds exactly the earlier events in order, and truncates the file back
    to their lines. *)
Theorem torn_tail_recovered fs name i events content event line torn missing :
  fs_dir fs !! name = Some i → written events content →
  serialize event = Ok line → line = torn +:+ missing +:+ nl → torn ≠ "" → missing ≠ "" →
  inode_data fs i = content +:+ torn →
  ∃ g, loadSegment fs name = Ok (g, set_inode fs i content) ∧
    g_ids g = s_EventID <$> events ∧ g_bytes g = Z.of_nat (String.length content) ∧ g_committedCount g = 0%nat.
Proof.
  intros Hdir Hw Hser Hline Hne Hmiss Hdata.
  destruct (serialize_line _ _ Hser) as (body&Hb&Hnl&Htorn).
  assert (body = torn +:+ missing) as Hbody.
  { rewrite Hline, <- str_app_assoc in Hb. by apply str_app_inj_nl in Hb. }
  assert (newline ∉ String.list_ascii_of_string torn) as Hnt.
  { rewrite Hbody, list_ascii_app in Hnl. set_solver. }
  specialize (Htorn _ _ Hbody Hmiss).
  destruct (load_written name events content 0 [] torn Hw) as (entries&_&Hids&Hload).
  unfold loadSegment. rewrite Hdir, Hdata, Hload. unfold lines. rewrite split_lines_tail by done.
  cbn [load_lines]. change ("" +:+ torn) with torn. rewrite bool_decide_false by done.
  destruct (decodeRecord torn) as [rec|err]; [done|]. rewrite Z.add_0_l, Nat2Z.id, substring_app.
  eexists. split; [done|]. simpl. done.
Qed.
End TornTail.

(** ** A concrete encoding

    A JSON-like encoding of the records the examples append: one object with the
    event id and the checksum, the other fields fixed.  It satisfies the laws, so
    the theorems above apply to it, and runs of the log evaluate. *)

#[export] Instance spec_float_eq_dec : EqDecision spec_float.
Proof. solve_decision. Defined.
#[export] Instance Attempt_eq_dec : EqDecision Attempt.
Proof. solve_decision. Defined.
#[export] Instance RouteEvidence_eq_dec : EqDecision RouteEvidence.
Proof. solve_decision. Defined.
#[export] Instance Facts_eq_dec : EqDecision Facts.
Proof. solve_decision. Defined.
#[export] Instance SpoolRecord_eq_dec : EqDecision SpoolRecord.
Proof. solve_decision. Defined.

Definition simple_record (id sum : string) : SpoolRecord :=
  {| s_EventID := id; s_RequestID := id; s_TenantID := "t"; s_ProjectID := "p"; s_EventTS := 0;
     s_PricingVersion := ""; s_Facts := example_facts None; s_Checksum := sum |}.

Definition plain (s : string) : bool :=
  forallb (λ c, negb (Ascii.eqb c ":"%char) && negb (Ascii.eqb c "}"%char) && negb (Ascii.eqb c newline))
    (String.list_ascii_of_string s).

#[export] Instance simple_json : JSON :=
  {| json_Marshal := λ r,
       if bool_decide (r = simple_record (s_EventID r) (s_Checksum r)) && plain (s_EventID r) && plain (s_Checksum r)
       then Ok ("{" +:+ s_EventID r +:+ ":" +:+ s_Checksum r +:+ "}") else Err (ErrNew "unsupported record");
     json_Unmarshal := λ s,
       match s with
       | String "{" rest =>
           match break_at ":" rest with
           | Some (id, rest) =>
               match break_at "}" rest with
               | Some (sum, "") => Ok (simple_record id sum)
               | _ => Err (ErrNew "invalid character")
               end
           | None => Err (ErrNew "unexpected end of input")
           end
       | _ => Err (ErrNew "invalid character")
       end |}.

Lemma plain_chars s c :
  plain s = true → c ∈ [":"%char; "}"%char; newline] → c ∉ String.list_ascii_of_string s.
Proof.
  unfold plain. rewrite forallb_forall. intros Hp Hc Hin. apply list_elem_of_In in Hin.
  specialize (Hp c Hin). rewrite !andb_true_iff, !negb_true_iff, !Ascii.eqb_neq in Hp. set_solver.
Qed.

Lemma break_at_none c s : c ∉ String.list_ascii_of_string s → break_at c s = None.
Proof.
  induction s as [|x s IH]; intros Hs; simpl in *; [done|].
  destruct (Ascii.eqb_spec x c); [set_solver|]. by rewrite IH by set_solver.
Qed.

Lemma break_at_rest c s a b d :
  d ∉ String.list_ascii_of_string s → break_at c s = Some (a, b) → d ∉ String.list_ascii_of_string b.
Proof.
  revert a b. induction s as [|x s IH]; intros a b Hs; simpl in *; [done|].
  destruct (Ascii.eqb x c); [intros [= _ <-]; set_solver|].
  intros ([a' b']&Hb&[= -> ->])%fmap_Some. eapply IH; [set_solver|done].
Qed.

(** A proper prefix of a string that ends in a fresh character lacks it. *)
Lemma proper_prefix_lacks s c p q :
  c ∉ String.list_ascii_of_string s → s +:+ String c "" = p +:+ q → q ≠ "" → c ∉ String.list_ascii_of_string p.
Proof.
  revert p. induction s as [|x s IH]; intros p Hs He Hq.
  - destruct p as [|y p]; [set_solver|]. rewrite str_cons_app in He. injection He as -> He.
    destruct p; [by destruct q|done].
  - destruct p as [|y p]; [set_solver|]. rewrite !str_cons_app in He. injection He as -> He. simpl in *.
    specialize (IH p ltac:(set_solver) He Hq). set_solver.
Qed.

#[export] Instance simple_json_laws : JSONLaws.
Proof.
  assert (∀ r s, json_Marshal r = Ok s →
    r = simple_record (s_EventID r) (s_Checksum r) ∧ plain (s_EventID r) = true ∧ plain (s_Checksum r) = true ∧
    s = "{" +:+ s_EventID r +:+ ":" +:+ s_Checksum r +:+ "}") as Hinv.
  { intros r s. simpl. destruct (_ && _) eqn:E; [|done]. intros [= <-].
    rewrite !andb_true_iff, bool_decide_eq_true in E. destruct E as [[? ?] ?]. done. }
  split.
  - intros r s _ (Hr&Hi&Hs&->)%Hinv. rewrite str_cons_app. simpl.
    rewrite str_cons_app, !str_nil_app, break_at_app by (apply plain_chars; [done|set_solver]).
    rewrite break_at_app by (apply plain_chars; [done|set_solver]). by rewrite <- Hr.
  - intros r s (_&Hi&Hs&->)%Hinv. rewrite !list_ascii_app.
    pose proof (plain_chars _ newline Hi ltac:(set_solver)). pose proof (plain_chars _ newline Hs ltac:(set_solver)).
    rewrite !elem_of_app. intros [H1|[H1|[H1|[H1|H1]]]]; try done; apply list_elem_of_In in H1; by destruct H1 as [H1|[]].
  - intros r s p q (_&Hi&Hs&->)%Hinv Hpq Hq.
    assert ("}"%char ∉ String.list_ascii_of_string p) as Hp.
    { eapply (proper_prefix_lacks ("{" +:+ s_EventID r +:+ ":" +:+ s_Checksum r)); [|by rewrite <- Hpq, !str_app_assoc|done].
      rewrite !list_ascii_app. pose proof (plain_chars _ "}"%char Hi ltac:(set_solver)).
      pose proof (plain_chars _ "}"%char Hs ltac:(set_solver)).
      rewrite !elem_of_app. intros [H1|[H1|[H1|H1]]]; try done; apply list_elem_of_In in H1; by destruct H1 as [H1|[]]. }
    simpl. destruct p as [|c p]; [done|]. simpl in Hp.
    destruct (break_at ":" p) as [[id rest]|] eqn:Eb; [|by repeat case_match].
    rewrite (break_at_none "}" rest) by (eapply break_at_rest; [|exact Eb]; set_solver).
    by repeat case_match.
Qed.

(** ** Runs of the log *)

Definition empty_fs : FS := {| fs_dir := ∅; fs_data := ∅; fs_next := 0 |}.

Inductive spool_op :=
| DoAppend (id : string)
| DoCommit (ids : list string).

Definition spool_exec (s : FileSpool) (o : spool_op) : FileSpool :=
  match o with
  | DoAppend id => (Append s io_ok (simple_record id "")).2
  | DoCommit ids => (Commit s io_ok ids).2
  end.

(** A log on an empty directory whose segments hold one event each. *)
Definition one_per_segment : Config := {| c_SegmentBytes := 80; c_FsyncEvery := 1 |}.

Definition fresh_spool (config : Config) : FileSpool :=
  match New config empty_fs with
  | Ok s => s
  | Err _ => rebuildStateLocked config [] 0 empty_fs
  end.

Definition run_spool (config : Config) (ops : list spool_op) : FileSpool :=
  foldl spool_exec (fresh_spool config) ops.

Definition pending_ids (s : FileSpool) (limit : Z) : option (list string) :=
  match Pending s limit with Ok rs => Some (s_EventID <$> rs) | Err _ => None end.

(** What a restart finds: the log reopened on the files left behind. *)
Definition after_restart (s : FileSpool) (limit : Z) : option (list string) :=
  match New (fs_config s) (fs_files s) with Ok s => pending_ids s limit | Err _ => None end.

(** An event can be lost.  Three segments hold one event each; the first is
    committed and its segment removed, so the next rotation counts two segments
    and opens the third segment's file again for the fourth event.  When the third
    event is then committed the shared file is deleted: the fourth event, appended
    and synced without an error and never committed, is gone after a restart. *)
Theorem rotation_loses_event :
  let s := run_spool one_per_segment
             [DoAppend "e1"; DoAppend "e2"; DoAppend "e3"; DoCommit ["e1"]; DoAppend "e4"; DoCommit ["e3"]] in
  g_name <$> fs_segments (run_spool one_per_segment
               [DoAppend "e1"; DoAppend "e2"; DoAppend "e3"; DoCommit ["e1"]; DoAppend "e4"]) =
    ["segment-000002.wal"; "segment-000003.wal"; "segment-000003.wal"] ∧
  fs_pendingEvents s = 2 ∧ after_restart s 10 = Some ["e2"].
Proof. vm_compute. done. Qed.

(** A batch can skip events.  With three events per segment pending, a batch of
    five stops early inside the second segment, because the scan compares the whole
    output with the part of the limit that was left, and goes on with the third
    segment: events are returned out of append order and "e5" is skipped. *)
Theorem pending_skips_events :
  let s := run_spool {| c_SegmentBytes := 240; c_FsyncEvery := 1 |}
             (DoAppend <$> ["e1"; "e2"; "e3"; "e4"; "e5"; "e6"; "e7"; "e8"; "e9"]) in
  SegmentCount s = 3%nat ∧ pending_ids s 5 = Some ["e1"; "e2"; "e3"; "e4"; "e7"].
Proof. vm_compute. done. Qed.

(** A failed append can poison the log.  A write that fails after five bytes leaves
    them in the segment, and the next append, which succeeds, extends them: its
    line no longer decodes, and since it ends in a newline it is not a torn tail.
    The backlog cannot be read any more and the log cannot be reopened. *)
Theorem short_write_corrupts_segment :
  let failing := {| io_open := true; io_write := false; io_short := 5; io_sync := true; io_rewrite := None |} in
  let s0 := (Append (fresh_spool one_per_segment) failing (simple_record "e1" "")).2 in
  let r := Append s0 io_ok (simple_record "e2" "") in
  (Append (fresh_spool one_per_segment) failing (simple_record "e1" "")).1 = Some ErrSpoolUnavailable ∧
  after_restart s0 10 = Some [] ∧ r.1 = None ∧ pending_ids r.2 10 = None ∧ after_restart r.2 10 = None.
Proof. vm_compute. done. Qed.

(** A line torn right before its newline is taken for a complete one.  The event is
    replayed, but the file is not completed: the next append, which succeeds, extends
    the line, and the log cannot be reopened. *)
Theorem missing_newline_corrupts_segment :
  let body := match serialize (simple_record "e1" "") with Ok l => String.substring 0 (String.length l - 1) l | Err _ => "" end in
  let fs := {| fs_dir := {["segment-000001.wal" := 0%nat]}; fs_data := {[0%nat := body]}; fs_next := 1 |} in
  let s := match New {| c_SegmentBytes := 240; c_FsyncEvery := 1 |} fs with Ok s => s | Err _ => fresh_spool one_per_segment end in
  let r := Append s io_ok (simple_record "e2" "") in
  pending_ids s 10 = Some ["e1"] ∧ r.1 = None ∧ pending_ids r.2 10 = None ∧ after_restart r.2 10 = None.
Proof. vm_compute. done. Qed.

(** A restart of an orderly log replays exactly what was not committed. *)
Example restart_replays :
  let s := run_spool {| c_SegmentBytes := 240; c_FsyncEvery := 1 |}
             [DoAppend "e1"; DoAppend "e2"; DoCommit ["e1"]; DoAppend "e3"] in
  after_restart s 10 = Some ["e2"; "e3"].
Proof. vm_compute. reflexivity. Qed.

(** ** Concrete instances of the properties *)

Lemma spool_counters_exact_witness :
  let s := (Commit (Append (fresh_spool one_per_segment) io_ok (simple_record "e1" "")).2 io_ok ["e1"]).2 in
  st_Events (Stats s 0) = Z.of_nat (length (all_pending (fs_segments s))) ∧
  st_Bytes (Stats s 0) = sum_sizes (all_pending (fs_segments s)) ∧
  ∀ t, TenantUsage s t = usage_of t (all_pending (fs_segments s)).
Proof.
  intros s. apply (spool_counters_exact s 0). apply reach_commit, reach_append.
  apply (reach_new one_per_segment empty_fs). vm_compute. reflexivity.
Defined.

(** The first line of a log, and the second cut after five bytes. *)
Definition line_of (id : string) : string :=
  match serialize (simple_record id "") with Ok l => l | Err _ => "" end.

Definition torn_fs : FS :=
  {| fs_dir := {["segment-000001.wal" := 0%nat]};
     fs_data := {[0%nat := line_of "e1" +:+ String.substring 0 5 (line_of "e2")]}; fs_next := 1 |}.

Lemma torn_tail_recovered_witness :
  ∃ g, loadSegment torn_fs "segment-000001.wal" = Ok (g, set_inode torn_fs 0 (line_of "e1")) ∧
    g_ids g = ["e1"] ∧ g_bytes g = Z.of_nat (String.length (line_of "e1")) ∧ g_committedCount g = 0%nat.
Proof.
  apply (torn_tail_recovered torn_fs "segment-000001.wal" 0 [simple_record "e1" ""] (line_of "e1")
    (simple_record "e2" "") (line_of "e2") (String.substring 0 5 (line_of "e2"))
    (String.substring 5 (String.length (line_of "e2") - 6) (line_of "e2"))).
  - vm_compute. reflexivity.
  - exists (line_of "e1"), "". split_and!; [|vm_compute; reflexivity..].
    split; [repeat constructor; vm_compute; reflexivity| |exact I].
    repeat constructor; vm_compute; discriminate.
  - vm_compute. reflexivity.
  - vm_compute. reflexivity.
  - vm_compute. discriminate.
  - vm_compute. discriminate.
  - vm_compute. reflexivity.
Defined.
