(* ===== verification/Approval.v ===== *)
(** * Human approvals: internal/controlplane/approval, its SQL store, and the data-plane checkpoint

    [approval.go] decides pending requests with separation of duties and dual
    approval; [sqlrepo/approvalstore.go] persists them in one table;
    [app/approvalgate.go] resolves the approval state of a call and
    [gateway/approval/handler.go] blocks calls whose action is not approved.

    The table is a map from id to row, and each SQL statement is the update or
    query it performs; a statement that fails at the database is an argument of
    the call ([db]).  A decision reads the row, computes the new row and writes
    it back, with no transaction around the two statements: [pending_write] and
    [interleaved] make the decisions of concurrent calls explicit. *)

From S2P Require Import Prelude GoStd Snapshot Planner Accounting.

Open Scope string_scope.
Open Scope Z_scope.

(** ** approval.go: data *)

Inductive Status := StatusPending | StatusApproved | StatusRejected | StatusCancelled.

#[export] Instance Status_eq_dec : EqDecision Status.
Proof. solve_decision. Defined.

Definition status_string (s : Status) : string :=
  match s with
  | StatusPending => "pending" | StatusApproved => "approved"
  | StatusRejected => "rejected" | StatusCancelled => "cancelled"
  end.

Definition ErrSelfApproval : error := ErrNew "requester cannot approve their own request".
Definition ErrNotPending : error := ErrNew "approval is not pending".
Definition ErrNotFound : error := ErrNew "approval not found".
Definition ErrScopeMismatch : error := ErrNew "approval tenant scope mismatch".
Definition ErrInvalidScope : error := ErrNew "invalid tenant scope".
Definition ErrIncomplete : error := ErrNew "approval requester and action are required".
Definition ErrDecided : error := ErrNew "approver already decided".

Record Request := {
  q_ID : string; q_TenantID : string; q_Requester : string; q_Action : string; q_Target : string;
  q_DualApproval : bool; q_Status : Status; q_ApprovedBy : list string; q_RejectedBy : string;
  q_CreatedAt : Z; q_UpdatedAt : Z }.

(** The columns a decision rewrites. *)
Definition decided (q : Request) (status : Status) (approvedBy : list string) (rejectedBy : string)
    (updatedAt : Z) : Request :=
  {| q_ID := q_ID q; q_TenantID := q_TenantID q; q_Requester := q_Requester q; q_Action := q_Action q;
     q_Target := q_Target q; q_DualApproval := q_DualApproval q; q_Status := status;
     q_ApprovedBy := approvedBy; q_RejectedBy := rejectedBy; q_CreatedAt := q_CreatedAt q;
     q_UpdatedAt := updatedAt |}.

(** ** sqlrepo/approvalstore.go *)

Abbreviation table := (gmap string Request).

(** The [SET] clause shared by the upsert and the update. *)
Definition set_columns (old new : Request) : Request :=
  decided old (q_Status new) (q_ApprovedBy new) (q_RejectedBy new) (q_UpdatedAt new).

(** [INSERT ... ON CONFLICT(id) DO UPDATE SET ...]. *)
Definition store_Create (t : table) (db : option error) (scope : string) (q : Request) : option error * table :=
  if bool_decide (q_TenantID q ≠ scope) then (Some ErrScopeMismatch, t)
  else match db with
       | Some err => (Some err, t)
       | None => (None, <[q_ID q := match t !! q_ID q with Some old => set_columns old q | None => q end]> t)
       end.

Definition store_Get (t : table) (db : option error) (scope id : string) : result Request :=
  match db with
  | Some err => Err err
  | None =>
      match t !! id with
      | Some q => if bool_decide (q_TenantID q = scope) then Ok q else Err ErrNotFound
      | None => Err ErrNotFound
      end
  end.

(** [UPDATE ... WHERE id=$1 AND tenant_id=$2]: no condition on the status. *)
Definition store_Update (t : table) (db : option error) (scope : string) (q : Request) : option error * table :=
  if bool_decide (q_TenantID q ≠ scope) then (Some ErrScopeMismatch, t)
  else match db with
       | Some err => (Some err, t)
       | None =>
           match t !! q_ID q with
           | Some old => if bool_decide (q_TenantID old = q_TenantID q)
                         then (None, <[q_ID q := set_columns old q]> t) else (Some ErrNotFound, t)
           | None => (Some ErrNotFound, t)
           end
       end.

(** [ORDER BY created_at DESC, id DESC]. *)
Definition newer (a b : Request) : bool :=
  (q_CreatedAt b <? q_CreatedAt a) || ((q_CreatedAt a =? q_CreatedAt b) && str_less (q_ID b) (q_ID a)).

Definition rows (t : table) : list Request := (map_to_list t).*2.

Definition matching (t : table) (scope target requester : string) : list Request :=
  filter (λ q, q_TenantID q = scope ∧ q_Target q = target ∧ q_Requester q = requester) (rows t).

Definition store_Find (t : table) (db : option error) (scope target requester : string) : result Request :=
  match db with
  | Some err => Err err
  | None => match stable_sort newer (matching t scope target requester) with
            | q :: _ => Ok q
            | [] => Err ErrNotFound
            end
  end.

Definition store_List (t : table) (db : option error) (scope : string) (limit : Z) : result (list Request) :=
  match db with
  | Some err => Err err
  | None => Ok (take (Z.to_nat (if limit <=? 0 then 50 else limit))
                  (stable_sort (λ a b, q_CreatedAt b <? q_CreatedAt a)
                     (filter (λ q, q_TenantID q = scope) (rows t))))
  end.

(** ** approval.go: the service *)

Record Service := { sv_store : table; sv_events : option (list DomainEvent) }.

Definition with_store (s : Service) (t : table) : Service := {| sv_store := t; sv_events := sv_events s |}.

Definition emit (s : Service) (q : Request) (kind : string) : Service :=
  {| sv_store := sv_store s;
     sv_events := (λ sink, (sink ++ [{| ev_ID := q_ID q; ev_Kind := kind; ev_OccurredAt := q_UpdatedAt q;
                     ev_TenantID := q_TenantID q; ev_ProjectID := ""; ev_RequestID := "";
                     ev_Attributes := [("status", status_string (q_Status q))] |}])%list) <$> sv_events s |}.

Section Service.
(** [SetApproverVerifier]: the identity check of a tenant's approver. *)
Context (approverVerifier : option (string → string → option error)).

Definition verifyApprover (scope approver : string) : option error :=
  match approverVerifier with Some verify => verify scope approver | None => None end.

Definition Create (s : Service) (now : Z) (db : option error) (scope : string) (q : Request) :
    result Request * Service :=
  if bool_decide (scope = "") then (Err ErrInvalidScope, s)
  else if bool_decide (q_Requester q = "") || bool_decide (q_Action q = "") then (Err ErrIncomplete, s)
  else
    let q := {| q_ID := q_ID q; q_TenantID := scope; q_Requester := q_Requester q; q_Action := q_Action q;
                q_Target := q_Target q; q_DualApproval := q_DualApproval q; q_Status := StatusPending;
                q_ApprovedBy := q_ApprovedBy q; q_RejectedBy := q_RejectedBy q; q_CreatedAt := now;
                q_UpdatedAt := now |} in
    match store_Create (sv_store s) db scope q with
    | (Some err, t) => (Err err, with_store s t)
    | (None, t) => (Ok q, emit (with_store s t) q "approval.created")
    end.

(** What [Approve] decides on the row it read: the new row and its event. *)
Definition approve_row (now : Z) (scope approver : string) (q : Request) : result (Request * string) :=
  if bool_decide (q_Status q ≠ StatusPending) then Err ErrNotPending
  else match verifyApprover scope approver with
       | Some err => Err err
       | None =>
           if bool_decide (approver = q_Requester q) then Err ErrSelfApproval
           else if bool_decide (approver ∈ q_ApprovedBy q) then Err ErrDecided
           else
             let approvedBy := (q_ApprovedBy q ++ [approver])%list in
             if q_DualApproval q && (length approvedBy <? 2)%nat
             then Ok (decided q (q_Status q) approvedBy (q_RejectedBy q) now, "approval.partial")
             else Ok (decided q StatusApproved approvedBy (q_RejectedBy q) now, "approval.approved")
       end.

Definition reject_row (now : Z) (scope reviewer : string) (q : Request) : result (Request * string) :=
  if bool_decide (q_Status q ≠ StatusPending) then Err ErrNotPending
  else match verifyApprover scope reviewer with
       | Some err => Err err
       | None =>
           if bool_decide (reviewer = q_Requester q) then Err ErrSelfApproval
           else Ok (decided q StatusRejected (q_ApprovedBy q) reviewer now, "approval.rejected")
       end.

(** Read, decide, write back, notify. *)
Definition transition (row : Request → result (Request * string)) (s : Service) (dbGet dbUpdate : option error)
    (scope id : string) : result Request * Service :=
  if bool_decide (scope = "") then (Err ErrInvalidScope, s)
  else match store_Get (sv_store s) dbGet scope id with
       | Err err => (Err err, s)
       | Ok q =>
           match row q with
           | Err err => (Err err, s)
           | Ok (q, kind) =>
               match store_Update (sv_store s) dbUpdate scope q with
               | (Some err, t) => (Err err, with_store s t)
               | (None, t) => (Ok q, emit (with_store s t) q kind)
               end
           end
       end.

Definition Approve (s : Service) (now : Z) (dbGet dbUpdate : option error) (scope id approver : string) :=
  transition (approve_row now scope approver) s dbGet dbUpdate scope id.

Definition Reject (s : Service) (now : Z) (dbGet dbUpdate : option error) (scope id reviewer : string) :=
  transition (reject_row now scope reviewer) s dbGet dbUpdate scope id.

Definition List (s : Service) (db : option error) (scope : string) (limit : Z) : result (list Request) :=
  if bool_decide (scope = "") then Err ErrInvalidScope else store_List (sv_store s) db scope limit.

Definition Find (s : Service) (db : option error) (scope target requester : string) : result Request :=
  if bool_decide (scope = "") then Err ErrInvalidScope else store_Find (sv_store s) db scope target requester.

(** ** app/approvalgate.go and gateway/approval/handler.go *)

Record Decision := {
  dc_Action : string; dc_Requester : string; dc_Approved : bool; dc_Rejected : bool;
  dc_Approvers : Z; dc_DualNeeded : bool }.

Definition stableApprovalID (tenantID caller target : string) : string :=
  let nul := String (Ascii.ascii_of_nat 0) "" in
  let digest := sha256 (bytes_of_string (tenantID +:+ nul +:+ caller +:+ nul +:+ target)) in
  let b := take 16 digest in
  let b := alter (λ x, Z.lor (Z.land x 15) 80) 6%nat b in
  let b := alter (λ x, Z.lor (Z.land x 63) 128) 8%nat b in
  let part from to := hex_encode (take (to - from) (drop from b)) in
  part 0%nat 4%nat +:+ "-" +:+ part 4%nat 6%nat +:+ "-" +:+ part 6%nat 8%nat +:+ "-" +:+ part 8%nat 10%nat +:+ "-" +:+ part 10%nat 16%nat.

(** What the checkpoint reads of a request context. *)
Record Call := {
  ca_Snapshot : option TenantRuntimeSnapshot; ca_TenantID : string; ca_ProjectID : string;
  ca_Kind : string; ca_Caller : string; ca_Target : string }.

Definition first_request (caller target id : string) : Request :=
  {| q_ID := id; q_TenantID := ""; q_Requester := caller; q_Action := target; q_Target := target;
     q_DualApproval := false; q_Status := StatusPending; q_ApprovedBy := []; q_RejectedBy := "";
     q_CreatedAt := zero_time; q_UpdatedAt := zero_time |}.

(** [approvalGate.Check]. *)
Definition gate_check (s : Service) (now : Z) (dbFind dbCreate : option error) (c : Call) :
    result Decision * Service :=
  match Find s dbFind (ca_TenantID c) (ca_Target c) (ca_Caller c) with
  | Ok q => (Ok {| dc_Action := ca_Target c; dc_Requester := ca_Caller c;
                   dc_Approved := bool_decide (q_Status q = StatusApproved);
                   dc_Rejected := bool_decide (q_Status q = StatusRejected);
                   dc_Approvers := Z.of_nat (length (q_ApprovedBy q));
                   dc_DualNeeded := q_DualApproval q |}, s)
  | Err err =>
      if negb (errors_is err ErrNotFound) then (Err err, s)
      else
        match Create s now dbCreate (ca_TenantID c)
                (first_request (ca_Caller c) (ca_Target c)
                   (stableApprovalID (ca_TenantID c) (ca_Caller c) (ca_Target c))) with
        | (Err err, s) => (Err err, s)
        | (Ok q, s) => (Ok {| dc_Action := ca_Target c; dc_Requester := ca_Caller c; dc_Approved := false;
                              dc_Rejected := false; dc_Approvers := 0; dc_DualNeeded := q_DualApproval q |}, s)
        end
  end.

Definition requiresApproval (c : Call) : bool :=
  match ca_Snapshot c with
  | None => false
  | Some snapshot =>
      if bool_decide (ca_Kind c = "approval") then true
      else if bool_decide (ca_Kind c = "tool") then
        match snapshot_toolPolicy snapshot (ca_ProjectID c) (ca_Target c) with
        | Some policy => tp_RequireApproval policy | None => false end
      else if bool_decide (ca_Kind c = "agent") then
        match snapshot_agent snapshot (ca_Target c) with
        | Some agent => ag_RequireApproval agent | None => false end
      else false
  end.

Definition REQUIRE_APPROVAL (msg : string) : error := ErrKernel "REQUIRE_APPROVAL" msg false.

(** [Handler.Handle]; the directive is always [Continue], so only the error. *)
Definition Handle (s : Service) (now : Z) (dbFind dbCreate : option error) (c : Call) : option error * Service :=
  if negb (requiresApproval c) then (None, s)
  else match gate_check s now dbFind dbCreate c with
       | (Err err, s) => (Some err, s)
       | (Ok d, s) =>
           (if dc_Rejected d then Some (REQUIRE_APPROVAL "action was rejected")
            else if negb (dc_Approved d) then Some (REQUIRE_APPROVAL "action awaits approval")
            else if dc_DualNeeded d && (dc_Approvers d <? 2)
            then Some (REQUIRE_APPROVAL "action awaits dual approval") else None, s)
       end.
End Service.

(** ** Concurrent decisions *)

Section Interleaving.
Context (approverVerifier : option (string → string → option error)).
Implicit Types (q : Request) (t : table) (s : Service).

(** A decision that has read and decided, and has not written yet. *)
Record pending_write := { w_scope : string; w_row : Request; w_kind : string }.

Definition read_for (row : Request → result (Request * string)) s (db : option error) (scope id : string) :
    result pending_write :=
  if bool_decide (scope = "") then Err ErrInvalidScope
  else match store_Get (sv_store s) db scope id with
       | Err err => Err err
       | Ok q => match row q with
                 | Err err => Err err
                 | Ok (q, kind) => Ok {| w_scope := scope; w_row := q; w_kind := kind |}
                 end
       end.

Definition write_back s (db : option error) (w : pending_write) : result Request * Service :=
  match store_Update (sv_store s) db (w_scope w) (w_row w) with
  | (Some err, t) => (Err err, with_store s t)
  | (None, t) => (Ok (w_row w), emit (with_store s t) (w_row w) (w_kind w))
  end.

(** A handler is its read followed by its write. *)
Lemma transition_split row s dbGet dbUpdate scope id :
  transition row s dbGet dbUpdate scope id =
  match read_for row s dbGet scope id with
  | Err err => (Err err, s)
  | Ok w => write_back s dbUpdate w
  end.
Proof.
  unfold transition, read_for, write_back. case_bool_decide; [done|].
  destruct (store_Get _ _ _ _) as [q|]; [|done]. by destruct (row q) as [[q' kind]|].
Qed.

Record shared := { sh_service : Service; sh_writes : list pending_write }.

(** The statements of concurrent calls, in any order.  Requests are created by
    the checkpoint, without approvals. *)
Inductive interleaved : shared → shared → Prop :=
| il_create s ws now db scope q : q_ApprovedBy q = [] →
    interleaved {| sh_service := s; sh_writes := ws |}
                {| sh_service := (Create s now db scope q).2; sh_writes := ws |}
| il_approve s ws now db scope id approver w :
    read_for (approve_row approverVerifier now scope approver) s db scope id = Ok w →
    interleaved {| sh_service := s; sh_writes := ws |} {| sh_service := s; sh_writes := w :: ws |}
| il_reject s ws now db scope id reviewer w :
    read_for (reject_row approverVerifier now scope reviewer) s db scope id = Ok w →
    interleaved {| sh_service := s; sh_writes := ws |} {| sh_service := s; sh_writes := w :: ws |}
| il_write s ws1 w ws2 db :
    interleaved {| sh_service := s; sh_writes := ws1 ++ w :: ws2 |}
                {| sh_service := (write_back s db w).2; sh_writes := ws1 ++ ws2 |}.

Definition opened (sink : option (list DomainEvent)) : shared :=
  {| sh_service := {| sv_store := ∅; sv_events := sink |}; sh_writes := [] |}.

Definition needed q : nat := if q_DualApproval q then 2 else 1.

(** Separation of duties on a row. *)
Record duties_ok q : Prop := {
  do_distinct : NoDup (q_ApprovedBy q);
  do_other : q_Requester q ∉ q_ApprovedBy q;
  do_verified : Forall (λ a, verifyApprover approverVerifier (q_TenantID q) a = None) (q_ApprovedBy q);
  do_enough : q_Status q = StatusApproved → (needed q <= length (q_ApprovedBy q))%nat }.

Definition same_identity q q' : Prop :=
  q_ID q = q_ID q' ∧ q_TenantID q = q_TenantID q' ∧ q_Requester q = q_Requester q' ∧
  q_DualApproval q = q_DualApproval q'.

Definition table_ok t : Prop := map_Forall (λ id q, q_ID q = id ∧ duties_ok q) t.

Definition write_ok t (w : pending_write) : Prop :=
  duties_ok (w_row w) ∧ ∃ old, t !! q_ID (w_row w) = Some old ∧ same_identity old (w_row w).

Definition shared_ok (sh : shared) : Prop :=
  table_ok (sv_store (sh_service sh)) ∧ Forall (write_ok (sv_store (sh_service sh))) (sh_writes sh).

Lemma duties_moved q q' : same_identity q q' → duties_ok q' → duties_ok (set_columns q q').
Proof.
  intros (_ & Ht & Hr & Hd) [H1 H2 H3 H4]. split; simpl; [done|by rewrite Hr|by rewrite Ht|].
  intros Ha. unfold needed in *. simpl. rewrite Hd. by apply H4.
Qed.

Lemma store_Get_spec t db scope id q :
  store_Get t db scope id = Ok q → t !! id = Some q ∧ q_TenantID q = scope.
Proof.
  unfold store_Get. destruct db; [done|]. destruct (t !! id) as [q'|] eqn:E; [|done].
  case_bool_decide; naive_solver.
Qed.

Lemma approve_row_ok now scope approver q q' kind :
  approve_row approverVerifier now scope approver q = Ok (q', kind) → q_TenantID q = scope →
  duties_ok q → duties_ok q' ∧ same_identity q q'.
Proof.
  unfold approve_row. intros H Ht [H1 H2 H3 H4]. case_bool_decide as Hp; [done|].
  destruct (verifyApprover _ _ _) eqn:Ev; [done|].
  repeat (case_bool_decide; [done|]).
  assert (NoDup (q_ApprovedBy q ++ [approver])) by (apply NoDup_app; split_and!; [done|set_solver|apply NoDup_singleton]).
  destruct (q_DualApproval q) eqn:Ed, (Nat.ltb_spec (length (q_ApprovedBy q ++ [approver])%list) 2);
    simpl in H; injection H as <- <-; split; try done; split; simpl; try done; try set_solver;
    try (apply Forall_app; split; [done|]; apply Forall_singleton; by rewrite Ht);
    unfold needed; simpl; rewrite ?Ed, ?length_app; simpl; rewrite ?length_app in *; simpl in *; intros; try lia; congruence.
Qed.

Lemma reject_row_ok now scope reviewer q q' kind :
  reject_row approverVerifier now scope reviewer q = Ok (q', kind) →
  duties_ok q → duties_ok q' ∧ same_identity q q'.
Proof.
  unfold reject_row. intros H [H1 H2 H3 H4]. case_bool_decide; [done|].
  destruct (verifyApprover _ _ _); [done|]. case_bool_decide; [done|]. injection H as <- <-.
  split; [|done]. by split.
Qed.

Lemma read_for_ok row s db scope id w :
  read_for row s db scope id = Ok w →
  (∀ q q' kind, row q = Ok (q', kind) → q_TenantID q = scope → duties_ok q → duties_ok q' ∧ same_identity q q') →
  table_ok (sv_store s) → write_ok (sv_store s) w.
Proof.
  unfold read_for. intros H Hrow Ht. case_bool_decide; [done|].
  destruct (store_Get _ _ _ _) as [q|] eqn:Eg; [|done]. apply store_Get_spec in Eg as [Eg Es].
  destruct (row q) as [[q' kind]|] eqn:Er; [|done]. injection H as <-. destruct (Ht _ _ Eg) as [Hid Hd].
  destruct (Hrow _ _ _ Er Es Hd) as [Hd' Hs]. split; [done|]. exists q. simpl. split; [|done].
  destruct Hs as [<- _]. by rewrite Hid.
Qed.

(** A row rewritten in place keeps the pending writes consistent. *)
Lemma write_ok_set t i old new w :
  t !! i = Some old → write_ok t w → write_ok (<[i := set_columns old new]> t) w.
Proof.
  intros Hi (Hd & o & Ho & Hs). split; [done|]. destruct (decide (i = q_ID (w_row w))) as [->|Hne].
  - exists (set_columns old new). rewrite lookup_insert_eq. simplify_eq. done.
  - exists o. by rewrite lookup_insert_ne.
Qed.

Lemma write_ok_new t i new w : t !! i = None → write_ok t w → write_ok (<[i := new]> t) w.
Proof.
  intros Hi (Hd & o & Ho & Hs). split; [done|]. exists o. rewrite lookup_insert_ne; [done|]. congruence.
Qed.

Lemma Create_ok s ws now db scope q :
  q_ApprovedBy q = [] → shared_ok {| sh_service := s; sh_writes := ws |} →
  shared_ok {| sh_service := (Create s now db scope q).2; sh_writes := ws |}.
Proof.
  unfold Create. intros Ha [Ht Hw]. simpl in *. case_bool_decide; [done|].
  destruct (bool_decide _ || bool_decide _); [done|]. unfold store_Create. simpl.
  case_bool_decide; [done|]. destruct db; [done|]. simpl.
  destruct (sv_store s !! q_ID q) as [old|] eqn:Eo; split; simpl.
  - apply map_Forall_insert_2; [|done]. destruct (Ht _ _ Eo) as [Hid _]. split; [done|].
    split; simpl; rewrite ?Ha; try done; [constructor|set_solver].
  - eapply Forall_impl; [exact Hw|]. intros w. by apply write_ok_set.
  - apply map_Forall_insert_2; [|done]. split; [done|].
    split; simpl; rewrite ?Ha; try done; [constructor|set_solver].
  - eapply Forall_impl; [exact Hw|]. intros w. by apply write_ok_new.
Qed.

Lemma write_back_ok s ws1 w ws2 db :
  shared_ok {| sh_service := s; sh_writes := ws1 ++ w :: ws2 |} →
  shared_ok {| sh_service := (write_back s db w).2; sh_writes := ws1 ++ ws2 |}.
Proof.
  intros [Ht Hw]. simpl in *. apply Forall_app in Hw as [Hw1 [Hw Hw2]%Forall_cons].
  assert (Forall (write_ok (sv_store s)) (ws1 ++ ws2)) as Hws by by apply Forall_app.
  unfold write_back, store_Update. case_bool_decide; [done|]. destruct db; [done|].
  destruct Hw as (Hd & old & Ho & Hs). rewrite Ho. case_bool_decide; [|done]. split; simpl.
  - apply map_Forall_insert_2; [|done]. split; [by destruct Hs|]. by apply duties_moved.
  - eapply Forall_impl; [exact Hws|]. intros w'. by apply write_ok_set.
Qed.

Lemma interleaved_ok sh sh' : interleaved sh sh' → shared_ok sh → shared_ok sh'.
Proof.
  destruct 1 as [s ws now db scope q Ha|s ws now db scope id approver w Hr|s ws now db scope id reviewer w Hr
                |s ws1 w ws2 db].
  - by apply Create_ok.
  - intros [Ht Hw]. split; [done|]. constructor; [|done]. eapply read_for_ok; eauto using approve_row_ok.
  - intros [Ht Hw]. split; [done|]. constructor; [|done]. eapply read_for_ok; eauto using reject_row_ok.
  - apply write_back_ok.
Qed.

Lemma reachable_ok sink sh : rtc interleaved (opened sink) sh → shared_ok sh.
Proof.
  intros Hr. eapply (rtc_ind_r shared_ok); [|intros; by eapply interleaved_ok|exact Hr].
  split; simpl; [apply map_Forall_empty|constructor].
Qed.

(** C17: separation of duties survives concurrency.  Whatever order the reads and
    writes of concurrent creations, approvals and rejections take, a request that
    is approved carries distinct approvers, none of them its requester, each of
    them verified for its tenant, and at least two when it needs dual approval. *)
Theorem separation_of_duties sink sh id q :
  rtc interleaved (opened sink) sh → sv_store (sh_service sh) !! id = Some q → q_Status q = StatusApproved →
  NoDup (q_ApprovedBy q) ∧ q_Requester q ∉ q_ApprovedBy q ∧
  Forall (λ a, verifyApprover approverVerifier (q_TenantID q) a = None) (q_ApprovedBy q) ∧
  (needed q <= length (q_ApprovedBy q))%nat.
Proof.
  intros [Ht _]%reachable_ok Hq Hs. destruct (Ht _ _ Hq) as [_ [H1 H2 H3 H4]]. auto.
Qed.

Lemma store_Find_spec t db scope target requester q :
  store_Find t db scope target requester = Ok q →
  ∃ id, t !! id = Some q ∧ q_TenantID q = scope ∧ q_Target q = target ∧ q_Requester q = requester.
Proof.
  unfold store_Find. destruct db; [done|]. destruct (stable_sort _ _) as [|q' l] eqn:E; [done|].
  intros [= ->]. assert (q ∈ matching t scope target requester) as Hin.
  { rewrite <- (stable_sort_perm newer), E. constructor. }
  unfold matching, rows in Hin. apply list_elem_of_filter in Hin as [Hm [[id q'] [-> Hin]]%list_elem_of_fmap].
  exists id. split; [by apply elem_of_map_to_list|done].
Qed.

(** A gated call runs only after other people approved it.  In every state
    concurrent decisions can produce, the checkpoint lets a call that needs
    approval pass only if its tenant's table holds an approved request of that
    caller for that target, approved by the needed number of distinct, verified
    users other than the caller; and passing changes nothing. *)
Theorem gated_call_was_approved sink sh now dbFind dbCreate c :
  rtc interleaved (opened sink) sh → requiresApproval c = true →
  (Handle (sh_service sh) now dbFind dbCreate c).1 = None →
  (Handle (sh_service sh) now dbFind dbCreate c).2 = sh_service sh ∧
  ∃ id q, sv_store (sh_service sh) !! id = Some q ∧
    q_TenantID q = ca_TenantID c ∧ q_Target q = ca_Target c ∧ q_Requester q = ca_Caller c ∧
    q_Status q = StatusApproved ∧ NoDup (q_ApprovedBy q) ∧ ca_Caller c ∉ q_ApprovedBy q ∧
    Forall (λ a, verifyApprover approverVerifier (ca_TenantID c) a = None) (q_ApprovedBy q) ∧
    (needed q <= length (q_ApprovedBy q))%nat.
Proof.
  intros [Ht _]%reachable_ok Hr. unfold Handle. rewrite Hr. simpl. unfold gate_check, Find.
  case_bool_decide; [done|].
  destruct (store_Find _ _ _ _ _) as [q|err] eqn:Ef; simpl.
  - apply store_Find_spec in Ef as (id & Hq & H1 & H2 & H3). destruct (Ht _ _ Hq) as [_ [D1 D2 D3 D4]].
    destruct (decide (q_Status q = StatusApproved)) as [Ha|Ha]; rewrite ?Ha; simpl;
      [|by destruct (q_Status q)].
    intros _. split; [done|]. exists id, q. rewrite <- H1, <- H3. by auto 10.
  - destruct (errors_is err ErrNotFound); simpl; [|done]. by destruct (Create _ _ _ _ _) as [[?|?] ?].
Qed.
(** The handlers run one at a time are interleavings. *)
Lemma Approve_steps s now dbGet dbUpdate scope id approver :
  rtc interleaved {| sh_service := s; sh_writes := [] |}
    {| sh_service := (Approve approverVerifier s now dbGet dbUpdate scope id approver).2; sh_writes := [] |}.
Proof.
  unfold Approve. rewrite transition_split. destruct (read_for _ _ _ _ _) as [w|err] eqn:Er; [|done].
  eapply rtc_l; [by eapply il_approve|]. apply rtc_once. apply (il_write s [] w []).
Qed.

Lemma Reject_steps s now dbGet dbUpdate scope id reviewer :
  rtc interleaved {| sh_service := s; sh_writes := [] |}
    {| sh_service := (Reject approverVerifier s now dbGet dbUpdate scope id reviewer).2; sh_writes := [] |}.
Proof.
  unfold Reject. rewrite transition_split. destruct (read_for _ _ _ _ _) as [w|err] eqn:Er; [|done].
  eapply rtc_l; [by eapply il_reject|]. apply rtc_once. apply (il_write s [] w []).
Qed.

End Interleaving.

(** ** Witnesses *)

Definition staff : option (string → string → option error) :=
  Some (λ scope a, if bool_decide (scope = "t1" ∧ a ∈ ["ann"; "bob"; "eve"]) then None
                   else Some (ErrNew "approver is not an active local user")).

Definition dual_request : Request :=
  {| q_ID := "r1"; q_TenantID := ""; q_Requester := "eve"; q_Action := "wire"; q_Target := "wire";
     q_DualApproval := true; q_Status := StatusPending; q_ApprovedBy := []; q_RejectedBy := "";
     q_CreatedAt := 0; q_UpdatedAt := 0 |}.

Definition requested (q : Request) : Service :=
  (Create {| sv_store := ∅; sv_events := None |} 1 None "t1" q).2.

Definition read_of (r : result pending_write) : list pending_write :=
  match r with Ok w => [w] | Err _ => [] end.

Definition read_approval (s : Service) (approver : string) : list pending_write :=
  read_of (read_for (approve_row staff 2 "t1" approver) s None "t1" "r1").

Definition read_rejection (s : Service) (reviewer : string) : list pending_write :=
  read_of (read_for (reject_row staff 2 "t1" reviewer) s None "t1" "r1").

(** Decisions made one after the other. *)
Definition approved_by (s : Service) (approvers : list string) : Service :=
  foldl (λ s a, (Approve staff s 2 None None "t1" "r1" a).2) s approvers.

Lemma approved_by_steps s approvers :
  rtc (interleaved staff) {| sh_service := s; sh_writes := [] |}
    {| sh_service := approved_by s approvers; sh_writes := [] |}.
Proof.
  revert s. induction approvers as [|a approvers IH]; intros s; [done|].
  etransitivity; [apply Approve_steps|apply IH].
Qed.

Lemma requested_steps q : q_ApprovedBy q = [] →
  rtc (interleaved staff) (opened None) {| sh_service := requested q; sh_writes := [] |}.
Proof. intros Hq. apply rtc_once, (il_create staff _ [] 1 None "t1" q Hq). Qed.

Definition approved_row : Request :=
  {| q_ID := "r1"; q_TenantID := "t1"; q_Requester := "eve"; q_Action := "wire"; q_Target := "wire";
     q_DualApproval := true; q_Status := StatusApproved; q_ApprovedBy := ["ann"; "bob"]; q_RejectedBy := "";
     q_CreatedAt := 1; q_UpdatedAt := 2 |}.

Lemma separation_of_duties_witness :
  NoDup ["ann"; "bob"] ∧ "eve" ∉ ["ann"; "bob"] ∧
  Forall (λ a, verifyApprover staff "t1" a = None) ["ann"; "bob"] ∧ (2 <= 2)%nat.
Proof.
  apply (separation_of_duties staff None
           {| sh_service := approved_by (requested dual_request) ["eve"; "ann"; "ann"; "mallory"; "bob"];
              sh_writes := [] |} "r1" approved_row).
  - etransitivity; [apply (requested_steps dual_request eq_refl)|apply approved_by_steps].
  - vm_compute. reflexivity.
  - reflexivity.
Defined.

Definition wire_call : Call :=
  {| ca_Snapshot := Some (NewTenantSnapshot (example_data "priority")); ca_TenantID := "t1"; ca_ProjectID := "p1";
     ca_Kind := "approval"; ca_Caller := "eve"; ca_Target := "wire" |}.

Lemma gated_call_was_approved_witness :
  let s := approved_by (requested dual_request) ["ann"; "bob"] in
  (Handle s 3 None None wire_call).2 = s ∧
  ∃ id q, sv_store s !! id = Some q ∧
    q_TenantID q = "t1" ∧ q_Target q = "wire" ∧ q_Requester q = "eve" ∧
    q_Status q = StatusApproved ∧ NoDup (q_ApprovedBy q) ∧ "eve" ∉ q_ApprovedBy q ∧
    Forall (λ a, verifyApprover staff "t1" a = None) (q_ApprovedBy q) ∧
    (needed q <= length (q_ApprovedBy q))%nat.
Proof.
  intros s. apply (gated_call_was_approved staff None {| sh_service := s; sh_writes := [] |} 3 None None wire_call).
  - etransitivity; [apply (requested_steps dual_request eq_refl)|apply approved_by_steps].
  - reflexivity.
  - vm_compute. reflexivity.
Defined.

Definition single_request : Request :=
  {| q_ID := "r1"; q_TenantID := ""; q_Requester := "eve"; q_Action := "wire"; q_Target := "wire";
     q_DualApproval := false; q_Status := StatusPending; q_ApprovedBy := []; q_RejectedBy := "";
     q_CreatedAt := 0; q_UpdatedAt := 0 |}.

(** A rejection can be lost.  [Approve] and [Reject] write the row they read
    with no condition on its status: when ann has read the pending row and bob's
    rejection completes before her write, the request ends approved, the
    rejection is erased from the row and the gated call passes. *)
Theorem rejection_lost_to_stale_approval :
  ∃ s1 s2 w,
    rtc (interleaved staff) (opened None) {| sh_service := s1; sh_writes := [w] |} ∧
    interleaved staff {| sh_service := s1; sh_writes := [w] |} {| sh_service := s2; sh_writes := [] |} ∧
    q_Status <$> sv_store s1 !! "r1" = Some StatusRejected ∧
    q_Status <$> sv_store s2 !! "r1" = Some StatusApproved ∧
    q_RejectedBy <$> sv_store s2 !! "r1" = Some "" ∧
    (Handle s1 3 None None wire_call).1 = Some (REQUIRE_APPROVAL "action was rejected") ∧
    (Handle s2 3 None None wire_call).1 = None.
Proof.
  set (s0 := requested single_request).
  destruct (read_approval s0 "ann") as [|w [|]] eqn:Ew; [by vm_compute in Ew| |by vm_compute in Ew].
  destruct (read_rejection s0 "bob") as [|v [|]] eqn:Ev; [by vm_compute in Ev| |by vm_compute in Ev].
  exists (write_back s0 None v).2, (write_back (write_back s0 None v).2 None w).2, w.
  assert (read_for (approve_row staff 2 "t1" "ann") s0 None "t1" "r1" = Ok w) as Hw.
  { unfold read_approval, read_of in Ew. by destruct (read_for _ _ _ _ _); simplify_eq. }
  assert (read_for (reject_row staff 2 "t1" "bob") s0 None "t1" "r1" = Ok v) as Hv.
  { unfold read_rejection, read_of in Ev. by destruct (read_for _ _ _ _ _); simplify_eq. }
  split; [|split; [apply (il_write staff _ [] w [])|]].
  - etransitivity; [apply (requested_steps single_request eq_refl)|]. eapply rtc_l; [by eapply il_approve|].
    eapply rtc_l; [by eapply il_reject|]. apply rtc_once. apply (il_write staff s0 [] v [w]).
  - vm_compute in Ew, Ev. injection Ew as <-. injection Ev as <-. vm_compute. done.
Qed.
