(* ===== verification/Pipeline.v ===== *)
(** * The fixed data-plane pipeline: internal/kernel/pipeline

    [stage.go] fixes the seven stages and their order, [runner.go] runs a request
    through them: a stage that fails stops the walk, the preflight stage may skip
    resolution and execution (a cache hit), and accounting always runs last.

    A handler transforms the request context and whatever else it touches: the
    world [W].  Directives are the [uint8] they are in the code, so that a handler
    returning an unknown directive is representable. *)

From S2P Require Import Prelude GoStd.

Open Scope string_scope.
Open Scope Z_scope.

(** ** stage.go *)

Inductive Stage :=
| Admission | InputGuardrail | PolicyCostPreflight | Resolution
| ExecutionResilience | OutputStreamGuardrail | AccountingTelemetry.

#[export] Instance Stage_eq_dec : EqDecision Stage.
Proof. solve_decision. Defined.

Definition Order : list Stage :=
  [Admission; InputGuardrail; PolicyCostPreflight; Resolution; ExecutionResilience;
   OutputStreamGuardrail; AccountingTelemetry].

Definition stage_String (s : Stage) : string :=
  match s with
  | Admission => "admission"
  | InputGuardrail => "input_guardrail"
  | PolicyCostPreflight => "policy_cost_preflight"
  | Resolution => "resolution"
  | ExecutionResilience => "execution_resilience"
  | OutputStreamGuardrail => "output_stream_guardrail"
  | AccountingTelemetry => "accounting_telemetry"
  end.

(** ** runner.go *)

Definition Continue : Z := 0.
Definition SkipResolutionExecution : Z := 1.

Definition stage_failed (stage : Stage) (err : error) : error :=
  ErrWrap ("pipeline stage " +:+ stage_String stage) err.

Definition unsupported (stage : Stage) (directive : Z) : error :=
  ErrNew ("pipeline stage " +:+ stage_String stage +:+ " returned unsupported directive " +:+ digits directive).

Section Runner.
Context {W : Type}.

Definition Handler : Type := W → (Z * option error) * W.

(** The seven handlers; a [nil] interface is [None]. *)
Definition Handlers : Type := Stage → option Handler.

Record Runner := { r_handlers : Stage → Handler }.

(** The first stage without a handler is reported. *)
Fixpoint missing (h : Handlers) (stages : list Stage) : option Stage :=
  match stages with
  | [] => None
  | s :: rest => match h s with None => Some s | Some _ => missing h rest end
  end.

Definition no_op : Handler := λ w, ((Continue, None), w).

Definition NewRunner (h : Handlers) : result Runner :=
  match missing h Order with
  | Some stage => Err (ErrNew ("pipeline stage " +:+ stage_String stage +:+ " has no handler"))
  | None => Ok {| r_handlers := λ s, default no_op (h s) |}
  end.

Definition runStage (r : Runner) (stage : Stage) (w : W) : option error * W :=
  match r_handlers r stage w with
  | ((_, Some err), w) => (Some (stage_failed stage err), w)
  | ((directive, None), w) => (if negb (directive =? Continue) then Some (unsupported stage directive) else None, w)
  end.

(** [if err = runStage(...); err != nil { return err }], then the rest. *)
Definition and_then (step : option error * W) (rest : W → option error * W) : option error * W :=
  match step with
  | (Some err, w) => (Some err, w)
  | (None, w) => rest w
  end.

(** The body of [Run], before the deferred accounting. *)
Definition stages (r : Runner) (w : W) : option error * W :=
  and_then (runStage r Admission w) (λ w,
  and_then (runStage r InputGuardrail w) (λ w,
  match r_handlers r PolicyCostPreflight w with
  | ((_, Some err), w) => (Some (stage_failed PolicyCostPreflight err), w)
  | ((directive, None), w) =>
      if negb (directive =? Continue) && negb (directive =? SkipResolutionExecution)
      then (Some (unsupported PolicyCostPreflight directive), w)
      else
        and_then (if directive =? Continue
                  then and_then (runStage r Resolution w) (λ w, runStage r ExecutionResilience w)
                  else (None, w)) (λ w,
        runStage r OutputStreamGuardrail w)
  end)).

(** [Run]: the deferred function stores the error in the request ([set_err]),
    runs accounting and joins its error. *)
Definition Run (set_err : option error → W → W) (r : Runner) (w : W) : option error * W :=
  let '(err, w) := stages r w in
  let '((_, accountingErr), w) := r_handlers r AccountingTelemetry (set_err err w) in
  (errors_join err accountingErr, w).

(** A runner exists exactly when every stage has a handler, and runs those. *)
Lemma missing_none (h : Handlers) stages :
  missing h stages = None ↔ Forall (λ s, is_Some (h s)) stages.
Proof.
  induction stages as [|s stages IH]; simpl; [by split|]. rewrite Forall_cons.
  destruct (h s); rewrite <- ?IH; [naive_solver|]. split; [done|]. by intros [[? ?] _].
Qed.

Lemma NewRunner_complete (h : Handlers) :
  (∀ s, is_Some (h s)) ↔ ∃ r, NewRunner h = Ok r ∧ ∀ s, h s = Some (r_handlers r s).
Proof.
  unfold NewRunner. split.
  - intros Hall. rewrite (proj2 (missing_none h Order)) by (by apply Forall_true).
    eexists. split; [done|]. intros s. simpl. by destruct (Hall s) as [f ->].
  - intros (r & _ & Hr) s. rewrite Hr. eauto.
Qed.
End Runner.
Arguments Handler : clear implicits.
Arguments Handlers : clear implicits.
Arguments Runner : clear implicits.

(** ** Which handlers run *)

Open Scope list_scope.

Section Trace.
Context {W : Type}.

(** What a handler invocation returned. *)
Record invocation := { i_stage : Stage; i_directive : Z; i_err : option error }.

(** Any runner, instrumented with the log of its invocations. *)
Definition traced (r : Runner W) : Runner (W * list invocation) :=
  {| r_handlers := λ s '(w, log),
       let '((d, err), w) := r_handlers r s w in
       ((d, err), (w, (log ++ [{| i_stage := s; i_directive := d; i_err := err |}])%list)) |}.

Definition log_of {A} (o : A * (W * list invocation)) : list invocation := o.2.2.

(** An invocation after which the walk goes on. *)
Definition passes (i : invocation) : bool :=
  match i_err i with
  | Some _ => false
  | None => (i_directive i =? Continue) ||
            (bool_decide (i_stage i = PolicyCostPreflight) && (i_directive i =? SkipResolutionExecution))
  end.

(** The specification: what comes after each stage. *)
Definition next (i : invocation) : option Stage :=
  if negb (passes i) then None
  else match i_stage i with
       | Admission => Some InputGuardrail
       | InputGuardrail => Some PolicyCostPreflight
       | PolicyCostPreflight =>
           Some (if i_directive i =? SkipResolutionExecution then OutputStreamGuardrail else Resolution)
       | Resolution => Some ExecutionResilience
       | ExecutionResilience => Some OutputStreamGuardrail
       | OutputStreamGuardrail | AccountingTelemetry => None
       end.

(** A walk from a stage: each invocation is followed by the stage the
    specification names, and the last one names none. *)
Inductive walk : Stage → list invocation → Prop :=
| walk_end i : next i = None → walk (i_stage i) [i]
| walk_next i s l : next i = Some s → walk s l → walk (i_stage i) (i :: l).

(** The error a walk ends with. *)
Definition walk_error (l : list invocation) : option error :=
  match last l with
  | Some i => match i_err i with
              | Some err => Some (stage_failed (i_stage i) err)
              | None => if passes i then None else Some (unsupported (i_stage i) (i_directive i))
              end
  | None => None
  end.

(** [set_err] on the instrumented world. *)
Definition lift (set_err : option error → W → W) (e : option error) (x : W * list invocation) :=
  (set_err e x.1, x.2).

(** One stage: it is invoked once, logged, and its error is the specification's. *)
Lemma runStage_spec (r : Runner W) stage w log :
  stage ≠ PolicyCostPreflight →
  ∃ i, i_stage i = stage ∧ log_of (runStage (traced r) stage (w, log)) = log ++ [i] ∧
    (runStage (traced r) stage (w, log)).1 = walk_error [i] ∧
    passes i = bool_decide ((runStage (traced r) stage (w, log)).1 = None).
Proof.
  intros Hs. unfold runStage, log_of, walk_error. simpl.
  destruct (r_handlers r stage w) as [[d err] w'].
  exists {| i_stage := stage; i_directive := d; i_err := err |}. unfold passes; simpl.
  rewrite (bool_decide_false (stage = PolicyCostPreflight)) by done. simpl. rewrite orb_false_r.
  destruct err; [done|]. destruct (Z.eqb_spec d Continue); by simpl.
Qed.

Lemma walk_error_cons i l : l ≠ [] → walk_error (i :: l) = walk_error l.
Proof. by destruct l. Qed.

Lemma walk_not_nil s l : walk s l → l ≠ [].
Proof. by destruct 1. Qed.

(** What the rest of a walk has to deliver from a stage. *)
Definition walks (s : Stage) (step : W * list invocation → option error * (W * list invocation)) : Prop :=
  ∀ w log, ∃ l, log_of (step (w, log)) = log ++ l ∧ walk s l ∧ (step (w, log)).1 = walk_error l.

Lemma walks_ext s f g : (∀ x, f x = g x) → walks s f → walks s g.
Proof. intros Hfg Hf w log. rewrite <- Hfg. apply Hf. Qed.

Lemma walks_last (r : Runner W) s :
  s ≠ PolicyCostPreflight → (∀ i, i_stage i = s → next i = None) → walks s (runStage (traced r) s).
Proof.
  intros Hs Hn w log. destruct (runStage_spec r s w log Hs) as (i & Hi & Hl & He & _).
  exists [i]. split_and!; [done| |done]. rewrite <- Hi. apply walk_end. auto.
Qed.

Lemma walks_then (r : Runner W) s s' rest :
  s ≠ PolicyCostPreflight → (∀ i, i_stage i = s → next i = if passes i then Some s' else None) →
  walks s' rest → walks s (λ x, and_then (runStage (traced r) s x) rest).
Proof.
  intros Hs Hn Hrest w log. destruct (runStage_spec r s w log Hs) as (i & Hi & Hl & He & Hp).
  specialize (Hn i Hi). rewrite Hp in Hn.
  destruct (runStage (traced r) s (w, log)) as [[err|] [w' log']]; unfold log_of in *; simpl in *; subst log'.
  - exists [i]. split_and!; [done| |done]. rewrite <- Hi. by apply walk_end.
  - destruct (Hrest w' (log ++ [i])) as (l & Hl' & Hw & Hx).
    unfold log_of in Hl'. exists (i :: l). rewrite Hl', <- (assoc_L (++)). simpl. split_and!; [done| |].
    + rewrite <- Hi. by eapply walk_next.
    + by rewrite walk_error_cons by (by eapply walk_not_nil).
Qed.

Lemma walks_preflight (r : Runner W) full skip :
  walks Resolution full → walks OutputStreamGuardrail skip →
  walks PolicyCostPreflight (λ x,
    match r_handlers (traced r) PolicyCostPreflight x with
    | ((_, Some err), x) => (Some (stage_failed PolicyCostPreflight err), x)
    | ((directive, None), x) =>
        if negb (directive =? Continue) && negb (directive =? SkipResolutionExecution)
        then (Some (unsupported PolicyCostPreflight directive), x)
        else if directive =? Continue then full x else skip x
    end).
Proof.
  intros Hfull Hskip w log. simpl. destruct (r_handlers r PolicyCostPreflight w) as [[d err] w'].
  set (i := {| i_stage := PolicyCostPreflight; i_directive := d; i_err := err |}).
  destruct err as [err|]; [exists [i]; split_and!; [done| |done]; by apply (walk_end i)|].
  assert (∀ s step, walks s step → next i = Some s → ∃ l, log_of (step (w', log ++ [i])) = log ++ l ∧
            walk PolicyCostPreflight l ∧ (step (w', log ++ [i])).1 = walk_error l) as Hgo.
  { intros s step Hstep Hn. destruct (Hstep w' (log ++ [i])) as (l & Hl & Hw & He).
    exists (i :: l). rewrite Hl, <- (assoc_L (++)). split_and!; [done|by eapply (walk_next i)|].
    by rewrite walk_error_cons by (by eapply walk_not_nil). }
  unfold next, passes in Hgo. simpl in Hgo. fold i.
  destruct (Z.eqb_spec d Continue) as [->|Hc]; simpl in *; [by eapply Hgo|].
  destruct (Z.eqb_spec d SkipResolutionExecution) as [Hd|Hd]; simpl in *; [by eapply Hgo|].
  exists [i]. split_and!; [done| |].
  - apply (walk_end i). unfold next, passes. simpl. by rewrite (proj2 (Z.eqb_neq _ _) Hc), (proj2 (Z.eqb_neq _ _) Hd).
  - unfold walk_error, passes. simpl. by rewrite (proj2 (Z.eqb_neq _ _) Hc), (proj2 (Z.eqb_neq _ _) Hd).
Qed.

Lemma next_passes i s' :
  (passes i = true → next i = Some s') → next i = if passes i then Some s' else None.
Proof. destruct (passes i) eqn:E; [auto|]. intros _. unfold next. by rewrite E. Qed.

Lemma stages_walk (r : Runner W) : walks Admission (stages (traced r)).
Proof.
  assert (∀ s s', s ≠ PolicyCostPreflight → s ≠ OutputStreamGuardrail → s ≠ AccountingTelemetry →
            (∀ i, i_stage i = s → passes i = true → next i = Some s') → ∀ rest,
            walks s' rest → walks s (λ x, and_then (runStage (traced r) s x) rest)) as Hthen.
  { intros s s' H1 H2 H3 Hn rest. apply walks_then; [done|]. intros i Hi. apply next_passes. auto. }
  assert (walks OutputStreamGuardrail (runStage (traced r) OutputStreamGuardrail)) as Hout.
  { apply walks_last; [done|]. intros i Hi. unfold next. rewrite Hi. by destruct (passes i). }
  apply Hthen with InputGuardrail; try done; [intros i Hi Hp; unfold next; by rewrite Hp, Hi|].
  apply Hthen with PolicyCostPreflight; try done; [intros i Hi Hp; unfold next; by rewrite Hp, Hi|].
  assert (walks Resolution (λ x, and_then (runStage (traced r) Resolution x) (λ x,
            and_then (runStage (traced r) ExecutionResilience x) (runStage (traced r) OutputStreamGuardrail)))) as Hfull.
  { apply Hthen with ExecutionResilience; try done; [intros i Hi Hp; unfold next; by rewrite Hp, Hi|].
    apply Hthen with OutputStreamGuardrail; try done. intros i Hi Hp; unfold next; by rewrite Hp, Hi. }
  eapply walks_ext; [|apply (walks_preflight r _ _ Hfull Hout)].
  intros x. simpl. destruct x as [w log]. destruct (r_handlers r PolicyCostPreflight w) as [[d [err|]] w']; [done|].
  destruct (negb _ && negb _); [done|]. destruct (d =? Continue); [|done].
  by destruct (runStage (traced r) Resolution _) as [[err|] x].
Qed.

(** Instrumentation does not change what a run does. *)
Definition erase {A} (o : A * (W * list invocation)) : A * W := (o.1, o.2.1).

Lemma runStage_erase (r : Runner W) s w log : erase (runStage (traced r) s (w, log)) = runStage r s w.
Proof. unfold runStage. simpl. by destruct (r_handlers r s w) as [[d [err|]] w']. Qed.

Lemma and_then_erase step step' rest rest' :
  erase step = step' → (∀ w log, erase (rest (w, log)) = rest' w) → erase (and_then step rest) = and_then step' rest'.
Proof. intros <- Hr. destruct step as [[err|] [w log]]; [done|]. apply Hr. Qed.

Lemma stages_erase (r : Runner W) w log : erase (stages (traced r) (w, log)) = stages r w.
Proof.
  unfold stages. apply and_then_erase; [apply runStage_erase|]. intros w1 log1.
  apply and_then_erase; [apply runStage_erase|]. intros w2 log2. simpl.
  destruct (r_handlers r PolicyCostPreflight w2) as [[d [err|]] w3]; [done|].
  destruct (negb _ && negb _); [done|]. apply and_then_erase; [|intros; apply runStage_erase].
  destruct (d =? Continue); [|done]. apply and_then_erase; [apply runStage_erase|intros; apply runStage_erase].
Qed.

Lemma Run_erase set_err (r : Runner W) w log :
  erase (Run (lift set_err) (traced r) (w, log)) = Run set_err r w.
Proof.
  unfold Run. rewrite <- (stages_erase r w log). destruct (stages (traced r) (w, log)) as [err [w' log']].
  simpl. by destruct (r_handlers r AccountingTelemetry (set_err err w')) as [[d e] w''].
Qed.

Lemma walk_inv s l :
  walk s l → ∃ i l', l = i :: l' ∧ i_stage i = s ∧
    (next i = None ∧ l' = [] ∨ ∃ s', next i = Some s' ∧ walk s' l').
Proof. destruct 1 as [i Hn|i s l Hn Hw]; exists i; naive_solver. Qed.

(** A walk is a prefix of the full order, or the order without resolution and
    execution; without an error it is one of the two in full. *)
Definition full_walk : list Stage := take 6 Order.
Definition skip_walk : list Stage := [Admission; InputGuardrail; PolicyCostPreflight; OutputStreamGuardrail].

Lemma walk_end_error i s : next i = None → i_stage i = s → s ≠ OutputStreamGuardrail → s ≠ AccountingTelemetry →
  walk_error [i] ≠ None.
Proof.
  unfold next, walk_error. simpl. intros Hn Hs H1 H2. destruct (passes i) eqn:E; simpl in *.
  - rewrite Hs in Hn. by destruct s.
  - by destruct (i_err i).
Qed.

Lemma next_stage i s : next i = Some s →
  match i_stage i with
  | Admission => s = InputGuardrail
  | InputGuardrail => s = PolicyCostPreflight
  | PolicyCostPreflight => s = OutputStreamGuardrail ∨ s = Resolution
  | Resolution => s = ExecutionResilience
  | ExecutionResilience => s = OutputStreamGuardrail
  | _ => False
  end.
Proof. unfold next. destruct (passes i); [|done]. destruct (i_stage i); simpl; intros [= <-]; try done. case_match; auto. Qed.

(** The walks from a stage follow one of the given paths, to its end unless an
    error stops them. *)
Definition shape (s : Stage) (paths : list (list Stage)) : Prop :=
  ∀ l, walk s l → ∃ path, path ∈ paths ∧ (i_stage <$> l) `prefix_of` path ∧
    (walk_error l = None → (i_stage <$> l) = path).

Lemma shape_last : shape OutputStreamGuardrail [[OutputStreamGuardrail]].
Proof.
  intros l (i & l' & -> & Hi & [[Hn ->]|(s' & Hn & _)])%walk_inv.
  - exists [OutputStreamGuardrail]. simpl. rewrite Hi. split_and!; [constructor|done|done].
  - apply next_stage in Hn. by rewrite Hi in Hn.
Qed.

Lemma shape_step s paths :
  s ≠ OutputStreamGuardrail → s ≠ AccountingTelemetry → paths ≠ [] →
  (∀ i s', i_stage i = s → next i = Some s' → shape s' paths) → shape s (cons s <$> paths).
Proof.
  intros H1 H2 Hp Hs l (i & l' & -> & Hi & [[Hn ->]|(s' & Hn & Hw)])%walk_inv.
  - destruct paths as [|p ps]; [done|]. exists (s :: p). simpl. rewrite Hi.
    split_and!; [constructor|by exists p|]. intros He. exfalso. by eapply walk_end_error.
  - destruct (Hs i s' Hi Hn l' Hw) as (p & Hin & Hpre & He). exists (s :: p). simpl. rewrite Hi.
    split_and!; [by apply list_elem_of_fmap_2|by apply prefix_cons|].
    rewrite walk_error_cons by (by eapply walk_not_nil). intros. f_equal. auto.
Qed.

Lemma walk_shape : shape Admission [full_walk; skip_walk].
Proof.
  assert (shape Resolution [[Resolution; ExecutionResilience; OutputStreamGuardrail]]) as Hr.
  { apply (shape_step Resolution [[ExecutionResilience; OutputStreamGuardrail]]); try done.
    intros i s' Hi Hn%next_stage. rewrite Hi in Hn. subst s'.
    apply (shape_step ExecutionResilience [[OutputStreamGuardrail]]); try done.
    intros j s' Hj Hn%next_stage. rewrite Hj in Hn. subst s'. apply shape_last. }
  assert (∀ s p q, shape s [p] → shape s [p; q] ∧ shape s [q; p]) as Hweak.
  { intros s p q H; split; intros l Hw; destruct (H l Hw) as (p' & Hin & ?); exists p'; set_solver. }
  change (shape Admission (cons Admission <$> (cons InputGuardrail <$> (cons PolicyCostPreflight <$>
    [[Resolution; ExecutionResilience; OutputStreamGuardrail]; [OutputStreamGuardrail]])))). apply shape_step; try done.
  intros i s' Hi Hn%next_stage. rewrite Hi in Hn. subst s'. apply shape_step; try done.
  intros j s' Hj Hn%next_stage. rewrite Hj in Hn. subst s'. apply shape_step; try done.
  intros k s' Hk Hn%next_stage. rewrite Hk in Hn. destruct Hn as [-> | ->].
  - apply (proj2 (Hweak _ _ _ shape_last)).
  - apply (proj1 (Hweak _ _ _ Hr)).
Qed.

(** C1: the pipeline runs its stages in the fixed order and always accounts, once
    and last.  For any handlers, the invocations of a run are a walk the
    specification allows (a stage only after the previous one passed, resolution
    and execution skipped exactly when the preflight says so), then accounting;
    the stages are a prefix of one of the two orders, a whole one when no stage
    failed; the error is the failing stage's joined with accounting's; and the
    instrumented run is the run. *)
Theorem pipeline_accounts_once_in_order set_err (r : Runner W) w :
  let out := Run (lift set_err) (traced r) (w, []) in
  erase out = Run set_err r w ∧
  ∃ l accounting, log_of out = l ++ [accounting] ∧ i_stage accounting = AccountingTelemetry ∧
    AccountingTelemetry ∉ (i_stage <$> l) ∧ walk Admission l ∧
    out.1 = errors_join (walk_error l) (i_err accounting) ∧
    ∃ order, order ∈ [full_walk; skip_walk] ∧ (i_stage <$> l) `prefix_of` order ∧
      (walk_error l = None → (i_stage <$> l) = order).
Proof.
  intros out. split; [apply Run_erase|]. subst out. unfold Run.
  destruct (stages_walk r w []) as (l & Hl & Hw & He). destruct (stages (traced r) (w, [])) as [err [w' log]].
  unfold log_of in Hl. simpl in *. subst. destruct (walk_shape l Hw) as (p & Hp & Hpre & Hfull).
  destruct (r_handlers r AccountingTelemetry _) as [[d e] w'']. simpl.
  exists l, {| i_stage := AccountingTelemetry; i_directive := d; i_err := e |}. simpl.
  split_and!; try done; [|by exists p].
  intros Hin. assert (AccountingTelemetry ∈ p) as Hacc by (destruct Hpre as [k ->]; set_solver).
  revert Hacc. rewrite !elem_of_cons in Hp. destruct Hp as [->|[->|Hp]]; [..|by inversion Hp];
    apply (bool_decide_unpack (_ ∉ _)); done.
Qed.
End Trace.
