(* ===== verification/Federation.v ===== *)
(** * Cross-organization trust: internal/federation and its console in internal/app/governance.go

    [federation.go] is the relationship lifecycle, [identity.go] resolves inbound
    transport identities, [permission.go] intersects the permission factors,
    [task.go] bounds the footprint of a federated task.  [governance.go] drives
    the lifecycle from the console.

    The lifecycle keeps a hot map in front of a [Store]; the hot map is written
    before the store.  The store is a class, instantiated by the in-memory store
    of [federation.go] and by the table of storage/sqlrepo/federationstore.go. *)

From S2P Require Import Prelude GoFloat GoStd.

Open Scope string_scope.
Open Scope Z_scope.

(** ** federation.go: data *)

(** [Status] is a string type; its zero value is the empty string. *)
Definition StatusCandidate : string := "candidate".
Definition StatusPendingReview : string := "pending_review".
Definition StatusActive : string := "active".
Definition StatusSuspended : string := "suspended".
Definition StatusRevoked : string := "revoked".

Record TrustAnchor := {
  ta_ID : string; ta_Type : string; ta_Subject : string; ta_Verified : bool; ta_VerifiedAt : Z }.

Record DataBoundary := {
  db_Status : string; db_ProcessingRegions : list string; db_Retention : string; db_TrainingUse : bool;
  db_Subprocessors : list string; db_DPAReference : string }.

Record ProjectGrant := { pg_ID : string; pg_ProjectID : string; pg_GrantedBy : string; pg_CreatedAt : Z }.

Record CapabilityGrant := { cg_ID : string; cg_Capability : string; cg_CreatedAt : Z }.

Record Relationship := {
  rl_ID : string; rl_TenantID : string; rl_ExternalAgentID : string; rl_ExternalSubject : string;
  rl_Name : string; rl_Status : string; rl_Direction : string; rl_AssuranceLevel : string;
  rl_AgentCardSource : string; rl_AuthMethod : string; rl_DataBoundary : DataBoundary;
  rl_Anchors : list TrustAnchor; rl_ProjectGrants : list ProjectGrant;
  rl_CapabilityGrants : list CapabilityGrant; rl_PricingRef : string; rl_ApprovedVersion : string;
  rl_ReviewStatus : string; rl_Version : Z; rl_CreatedAt : Z; rl_UpdatedAt : Z }.

Definition HasVerifiedAnchor (r : Relationship) : bool := existsb ta_Verified (rl_Anchors r).

Definition ErrUnverified : error := ErrNew "federation relationship has no verified trust anchor".
Definition ErrNotGranted : error := ErrNew "project or capability grant missing".
Definition ErrAlreadyActive : error := ErrNew "federation relationship already active".
Definition ErrStaleState : error := ErrNew "federation relationship is in a non-transitional state".
Definition ErrRelationshipNotFound : error := ErrNew "relationship not found".

(** The fields a transition rewrites. *)
Definition moved (r : Relationship) (status : string) (review : string) (updatedAt version : Z) : Relationship :=
  {| rl_ID := rl_ID r; rl_TenantID := rl_TenantID r; rl_ExternalAgentID := rl_ExternalAgentID r;
     rl_ExternalSubject := rl_ExternalSubject r; rl_Name := rl_Name r; rl_Status := status;
     rl_Direction := rl_Direction r; rl_AssuranceLevel := rl_AssuranceLevel r;
     rl_AgentCardSource := rl_AgentCardSource r; rl_AuthMethod := rl_AuthMethod r;
     rl_DataBoundary := rl_DataBoundary r; rl_Anchors := rl_Anchors r; rl_ProjectGrants := rl_ProjectGrants r;
     rl_CapabilityGrants := rl_CapabilityGrants r; rl_PricingRef := rl_PricingRef r;
     rl_ApprovedVersion := rl_ApprovedVersion r; rl_ReviewStatus := review; rl_Version := version;
     rl_CreatedAt := rl_CreatedAt r; rl_UpdatedAt := updatedAt |}.

(** ** federation.go: the store *)

Class Store (S : Type) := {
  store_Put : S → Relationship → option error * S;
  store_Get : S → string → string → option Relationship;
  store_List : S → string → result (list Relationship) }.

Definition memoryStore := gmap string Relationship.

Definition memory_Put (m : gmap string Relationship) (r : Relationship) : option error * gmap string Relationship :=
  (None, <[rl_ID r := r]> m).

Definition memory_Get (m : gmap string Relationship) (scope id : string) : option Relationship :=
  match m !! id with
  | Some r => if bool_decide (rl_TenantID r ≠ scope) then None else Some r
  | None => None
  end.

Definition memory_List (m : gmap string Relationship) (scope : string) : result (list Relationship) :=
  Ok (filter (λ r, rl_TenantID r = scope) (map_to_list m).*2).

#[export] Instance memory_store : Store memoryStore :=
  {| store_Put := memory_Put; store_Get := memory_Get; store_List := memory_List |}.

(** ** federation.go: the lifecycle *)

Section Lifecycle.
Context {S : Type} `{!Store S}.

Record Lifecycle := { lc_states : gmap string Relationship; lc_store : S }.

Definition NewLifecycle (store : S) : Lifecycle := {| lc_states := ∅; lc_store := store |}.

Definition loadLocked (l : Lifecycle) (scope id : string) : option Relationship * Lifecycle :=
  match lc_states l !! id with
  | Some r => (if bool_decide (rl_TenantID r ≠ scope) then None else Some r, l)
  | None =>
      match store_Get (lc_store l) scope id with
      | Some r => (Some r, {| lc_states := <[id := r]> (lc_states l); lc_store := lc_store l |})
      | None => (None, l)
      end
  end.

Definition Get := loadLocked.

Definition List (l : Lifecycle) (scope : string) : result (list Relationship) := store_List (lc_store l) scope.

(** The hot map first, then the store, whose error is returned. *)
Definition saveLocked (l : Lifecycle) (r : Relationship) : option error * Lifecycle :=
  let '(err, store) := store_Put (lc_store l) r in
  (err, {| lc_states := <[rl_ID r := r]> (lc_states l); lc_store := store |}).

(** [(relationship, err)] and the new state. *)
Definition answer : Type := (Relationship * option error) * Lifecycle.

Definition save (l : Lifecycle) (r : Relationship) : answer :=
  let '(err, l) := saveLocked l r in ((r, err), l).

Definition zero_relationship : Relationship :=
  {| rl_ID := ""; rl_TenantID := ""; rl_ExternalAgentID := ""; rl_ExternalSubject := ""; rl_Name := "";
     rl_Status := ""; rl_Direction := ""; rl_AssuranceLevel := ""; rl_AgentCardSource := "";
     rl_AuthMethod := "";
     rl_DataBoundary := {| db_Status := ""; db_ProcessingRegions := []; db_Retention := "";
                           db_TrainingUse := false; db_Subprocessors := []; db_DPAReference := "" |};
     rl_Anchors := []; rl_ProjectGrants := []; rl_CapabilityGrants := []; rl_PricingRef := "";
     rl_ApprovedVersion := ""; rl_ReviewStatus := ""; rl_Version := 0; rl_CreatedAt := zero_time;
     rl_UpdatedAt := zero_time |}.

Definition Discover (l : Lifecycle) (now : Z) (r : Relationship) : answer :=
  let r := moved r StatusCandidate (rl_ReviewStatus r) now 1 in
  match loadLocked l (rl_TenantID r) (rl_ID r) with
  | (Some _, l) => ((r, Some ErrAlreadyActive), l)
  | (None, l) => save l r
  end.

Definition Review (l : Lifecycle) (now : Z) (r : Relationship) (approved : bool) : answer :=
  match loadLocked l (rl_TenantID r) (rl_ID r) with
  | (None, l) => ((r, Some ErrRelationshipNotFound), l)
  | (Some current, l) =>
      if bool_decide (rl_Status current ≠ StatusCandidate) && bool_decide (rl_Status current ≠ StatusPendingReview)
      then ((current, Some ErrStaleState), l)
      else if negb approved
      then save l (moved current StatusPendingReview "rejected" now (wrap64 (rl_Version current + 1)))
      else if bool_decide (rl_Version r ≠ rl_Version current) then ((current, Some ErrStaleState), l)
      else save l (moved r StatusActive "approved" now (wrap64 (rl_Version current + 1)))
  end.

Definition Activate (l : Lifecycle) (now : Z) (r : Relationship) : answer :=
  if negb (HasVerifiedAnchor r) then ((r, Some ErrUnverified), l)
  else if bool_decide (rl_ProjectGrants r = []) || bool_decide (rl_CapabilityGrants r = [])
  then ((r, Some ErrNotGranted), l)
  else
    match loadLocked l (rl_TenantID r) (rl_ID r) with
    | (Some current, l) =>
        if bool_decide (rl_Version r ≠ rl_Version current) then ((current, Some ErrStaleState), l)
        else save l (moved r StatusActive "approved" now (wrap64 (rl_Version current + 1)))
    | (None, l) => save l (moved r StatusActive "approved" now 1)
    end.

Definition Suspend (l : Lifecycle) (now : Z) (scope id : string) : answer :=
  match loadLocked l scope id with
  | (None, l) => ((zero_relationship, Some ErrRelationshipNotFound), l)
  | (Some r, l) =>
      if bool_decide (rl_Status r = StatusRevoked) then ((r, Some ErrStaleState), l)
      else save l (moved r StatusSuspended (rl_ReviewStatus r) now (wrap64 (rl_Version r + 1)))
  end.

Definition Revoke (l : Lifecycle) (now : Z) (scope id : string) : answer :=
  match loadLocked l scope id with
  | (None, l) => ((zero_relationship, Some ErrRelationshipNotFound), l)
  | (Some r, l) => save l (moved r StatusRevoked "revoked" now (wrap64 (rl_Version r + 1)))
  end.

Definition Active (l : Lifecycle) (scope id : string) : bool * Lifecycle :=
  let '(r, l) := Get l scope id in
  (match r with Some r => bool_decide (rl_Status r = StatusActive) | None => false end, l).

(** [fields] are the material fields of the change. *)
Definition ReviewMaterialChange (l : Lifecycle) (now : Z) (scope id : string) (fields : list string) : answer :=
  match loadLocked l scope id with
  | (None, l) => ((zero_relationship, Some ErrRelationshipNotFound), l)
  | (Some r, l) =>
      match fields with
      | [] => ((r, None), l)
      | field :: _ => save l (moved r StatusPendingReview ("material_change:" +:+ field) now
                                (wrap64 (rl_Version r + 1)))
      end
  end.

(** ** governance.go: the console *)

Definition relationshipID (name url : string) : string :=
  let seed := if bool_decide (name = "") then url else name in
  "rel-" +:+ String.substring 0 16 (hex_encode (sha256 (bytes_of_string seed))).

(** What a fetched Agent Card contributes; [card_verified] is the outcome of the
    signature check against the supplied keys. *)
Record AgentCard := {
  card_Name : string; card_URL : string; card_Version : string; card_verified : bool }.

Record DiscoverInput := {
  di_URL : string; di_Name : string; di_ProjectGrants : list ProjectGrant;
  di_CapabilityGrants : list CapabilityGrant }.

Definition cardMaterialChange (existing : Relationship) (cardURL : string) (card : AgentCard) : list string :=
  ((if bool_decide (rl_AgentCardSource existing ≠ "") && bool_decide (rl_AgentCardSource existing ≠ cardURL)
    then ["endpoint"] else []) ++
   (if bool_decide (card_Version card ≠ "") && bool_decide (rl_ApprovedVersion existing ≠ "") &&
       bool_decide (card_Version card ≠ rl_ApprovedVersion existing) then ["publisher"] else []) ++
   (if Bool.eqb (HasVerifiedAnchor existing) (card_verified card) then [] else ["trust_key"]))%list.

Definition discovered (scope : string) (now : Z) (input : DiscoverInput) (card : AgentCard) : Relationship :=
  {| rl_ID := relationshipID (card_Name card) (di_URL input); rl_TenantID := scope;
     rl_ExternalAgentID := card_Name card; rl_ExternalSubject := card_URL card;
     rl_Name := if bool_decide (di_Name input = "") then card_Name card else di_Name input;
     rl_Status := ""; rl_Direction := ""; rl_AssuranceLevel := "declared";
     rl_AgentCardSource := di_URL input; rl_AuthMethod := "jws";
     rl_DataBoundary := {| db_Status := "unknown"; db_ProcessingRegions := []; db_Retention := "";
                           db_TrainingUse := false; db_Subprocessors := []; db_DPAReference := "" |};
     rl_Anchors := [{| ta_ID := "card"; ta_Type := "jws"; ta_Subject := card_Name card;
                       ta_Verified := card_verified card; ta_VerifiedAt := now |}];
     rl_ProjectGrants := di_ProjectGrants input; rl_CapabilityGrants := di_CapabilityGrants input;
     rl_PricingRef := ""; rl_ApprovedVersion := ""; rl_ReviewStatus := ""; rl_Version := 0;
     rl_CreatedAt := zero_time; rl_UpdatedAt := zero_time |}.

(** [liteFederation.Discover], from the fetched card on. *)
Definition console_Discover (l : Lifecycle) (now : Z) (scope : string) (input : DiscoverInput) (card : AgentCard) :
    option error * Lifecycle :=
  let id := relationshipID (card_Name card) (di_URL input) in
  match Get l scope id with
  | (Some existing, l) =>
      match cardMaterialChange existing (di_URL input) card with
      | [] => (None, l)
      | fields => let '((_, err), l) := ReviewMaterialChange l now scope id fields in (err, l)
      end
  | (None, l) => let '((_, err), l) := Discover l now (discovered scope now input card) in (err, l)
  end.

Definition with_grants (r : Relationship) (projects : list ProjectGrant) (capabilities : list CapabilityGrant) :
    Relationship :=
  {| rl_ID := rl_ID r; rl_TenantID := rl_TenantID r; rl_ExternalAgentID := rl_ExternalAgentID r;
     rl_ExternalSubject := rl_ExternalSubject r; rl_Name := rl_Name r; rl_Status := rl_Status r;
     rl_Direction := rl_Direction r; rl_AssuranceLevel := rl_AssuranceLevel r;
     rl_AgentCardSource := rl_AgentCardSource r; rl_AuthMethod := rl_AuthMethod r;
     rl_DataBoundary := rl_DataBoundary r; rl_Anchors := rl_Anchors r;
     rl_ProjectGrants := match projects with [] => rl_ProjectGrants r | _ => projects end;
     rl_CapabilityGrants := match capabilities with [] => rl_CapabilityGrants r | _ => capabilities end;
     rl_PricingRef := rl_PricingRef r; rl_ApprovedVersion := rl_ApprovedVersion r;
     rl_ReviewStatus := rl_ReviewStatus r; rl_Version := rl_Version r; rl_CreatedAt := rl_CreatedAt r;
     rl_UpdatedAt := rl_UpdatedAt r |}.

(** [liteFederation.Review]: the read, and the transition on the copy read. *)
Definition console_Review (l : Lifecycle) (now : Z) (scope id : string) (approved : bool)
    (projects : list ProjectGrant) (capabilities : list CapabilityGrant) : option error * Lifecycle :=
  match Get l scope id with
  | (None, l) => (Some ErrRelationshipNotFound, l)
  | (Some r, l) =>
      if negb approved then let '((_, err), l) := Review l now r false in (err, l)
      else
        let '((_, err), l) := Activate l now (with_grants r projects capabilities) in
        (match err with
         | Some e => Some (if errors_is e ErrUnverified
                           then ErrNew "cannot activate: relationship has no verified trust anchor"
                           else if errors_is e ErrNotGranted
                           then ErrNew "cannot activate: project and capability grants are required" else e)
         | None => None
         end, l)
  end.

Definition console_Suspend (l : Lifecycle) (now : Z) (scope id : string) : option error * Lifecycle :=
  let '((_, err), l) := Suspend l now scope id in (err, l).

(** ** identity.go *)

Record TransportFacts := { tf_AuthMethod : string; tf_Subject : string; tf_Issuer : string }.

Record Principal := {
  pr_Type : string; pr_TenantID : string; pr_AgentID : string; pr_AuthMethod : string;
  pr_AttributionTrust : string; pr_TrustBoundary : string; pr_FederationRelationshipID : string;
  pr_ExternalSubject : string }.

Definition anchor_matches (facts : TransportFacts) (a : TrustAnchor) : bool :=
  ta_Verified a &&
  (bool_decide (ta_Subject a = tf_Subject facts) ||
   (bool_decide (tf_Issuer facts ≠ "") &&
    bool_decide (ta_Subject a = tf_Issuer facts +:+ ":" +:+ tf_Subject facts))).

Definition matches (r : Relationship) (facts : TransportFacts) : bool :=
  existsb (anchor_matches facts) (rl_Anchors r).

(** [states] in the order the map is ranged over. *)
Definition Resolve (states : list Relationship) (scope : string) (facts : TransportFacts) : result Principal :=
  if bool_decide (tf_AuthMethod facts = "") || bool_decide (tf_Subject facts = "")
  then Err (ErrNew "inbound transport identity missing")
  else
    match List.find (λ r, bool_decide (rl_Status r = StatusActive) && matches r facts)
            (filter (λ r, rl_TenantID r = scope) states) with
    | Some r => Ok {| pr_Type := "agent"; pr_TenantID := scope; pr_AgentID := rl_ExternalAgentID r;
                      pr_AuthMethod := tf_AuthMethod facts; pr_AttributionTrust := "delegated";
                      pr_TrustBoundary := "external_federated"; pr_FederationRelationshipID := rl_ID r;
                      pr_ExternalSubject := tf_Subject facts |}
    | None => Err (ErrNew "no active relationship matches inbound transport identity")
    end.
End Lifecycle.
Arguments Lifecycle : clear implicits.
Arguments answer : clear implicits.

(** ** permission.go *)

Record PermissionRequest := {
  SystemPolicyEnabled : bool; TenantActive : bool; ProjectActive : bool; CallerAllowed : bool;
  LocalDelegationGranted : bool; RelationshipActive : bool; ProjectGranted : bool;
  CapabilityGranted : bool; DataBoundarySatisfied : bool }.

Record EffectiveFederatedPermission := {
  SystemOK : bool; TenantOK : bool; ProjectOK : bool; CallerOK : bool; LocalDelegationOK : bool;
  RelationshipOK : bool; ProjectGrantOK : bool; CapabilityGrantOK : bool; DataBoundaryOK : bool }.

Definition Evaluate (r : PermissionRequest) : EffectiveFederatedPermission :=
  {| SystemOK := SystemPolicyEnabled r; TenantOK := TenantActive r; ProjectOK := ProjectActive r;
     CallerOK := CallerAllowed r; LocalDelegationOK := LocalDelegationGranted r;
     RelationshipOK := RelationshipActive r; ProjectGrantOK := ProjectGranted r;
     CapabilityGrantOK := CapabilityGranted r; DataBoundaryOK := DataBoundarySatisfied r |}.

Definition Allowed (p : EffectiveFederatedPermission) : bool :=
  SystemOK p && TenantOK p && ProjectOK p && CallerOK p && LocalDelegationOK p && RelationshipOK p &&
  ProjectGrantOK p && CapabilityGrantOK p && DataBoundaryOK p.

(** ** task.go *)

Definition ConsistencyGlobalSoft : string := "global_soft".

Record TaskLimits := {
  MaxAgentHops : Z; MaxAgentCalls : Z; MaxTotalCost : float64; Consistency : string }.

Record TaskState := { Hops : Z; Calls : Z; TotalCost : float64; crossedBoundary : bool }.

Definition new_task : TaskState := {| Hops := 0; Calls := 0; TotalCost := f64_zero; crossedBoundary := false |}.

Definition RecordCrossing (t : TaskState) : TaskState :=
  {| Hops := Hops t; Calls := Calls t; TotalCost := TotalCost t; crossedBoundary := true |}.

Definition ShouldAllowHop (t : TaskState) (limits : TaskLimits) : bool :=
  let cost_ok cap := f64_leb (MaxTotalCost limits) f64_zero || f64_ltb (TotalCost t) cap in
  if bool_decide (Consistency limits ≠ ConsistencyGlobalSoft) then
    ((MaxAgentHops limits <=? 0) || (Hops t <? MaxAgentHops limits)) &&
    ((MaxAgentCalls limits <=? 0) || (Calls t <? MaxAgentCalls limits)) &&
    cost_ok (MaxTotalCost limits)
  else
    ((MaxAgentHops limits <=? 0) || (Hops t <? wrap64 (MaxAgentHops limits + 2))) &&
    ((MaxAgentCalls limits <=? 0) || (Calls t <? wrap64 (MaxAgentCalls limits + 2))) &&
    cost_ok (f64_mul (MaxTotalCost limits) (f64_const 11 10)).

Definition ConsumeHop (t : TaskState) (cost : float64) : TaskState :=
  {| Hops := wrap64 (Hops t + 1); Calls := wrap64 (Calls t + 1); TotalCost := f64_add (TotalCost t) cost;
     crossedBoundary := crossedBoundary t |}.

Record LoopDetector := { ld_path : list string; ld_maxDepth : Z }.

Definition NewLoopDetector (maxDepth : Z) : LoopDetector :=
  {| ld_path := []; ld_maxDepth := if maxDepth <=? 0 then 8 else maxDepth |}.

Definition Enter (d : LoopDetector) (agentID : string) : bool * LoopDetector :=
  if bool_decide (agentID ∈ ld_path d) then (false, d)
  else if ld_maxDepth d <=? Z.of_nat (length (ld_path d)) then (false, d)
  else (true, {| ld_path := (ld_path d ++ [agentID])%list; ld_maxDepth := ld_maxDepth d |}).

Definition Exit (d : LoopDetector) : LoopDetector :=
  {| ld_path := removelast (ld_path d); ld_maxDepth := ld_maxDepth d |}.

(** ** sqlrepo/federationstore.go

    A row has the columns of the insert; only [body], the JSON text of the relationship,
    is read back.  [sq_faults] says of the next writes whether they fail and whether the
    database answers reads after them. *)

Class RelationshipJSON := {
  json_body : Type;
  marshal_relationship : Relationship → result json_body;
  unmarshal_relationship : json_body → result Relationship }.

(** What encoding/json keeps: strings that are not UTF-8 change, nothing becomes active,
    and anchors keep their flags, grants their number. *)
Definition as_trusted (r r' : Relationship) : Prop :=
  (rl_Status r' = StatusActive → rl_Status r = StatusActive) ∧ ta_Verified <$> rl_Anchors r' = ta_Verified <$> rl_Anchors r ∧
  length (rl_ProjectGrants r') = length (rl_ProjectGrants r) ∧ length (rl_CapabilityGrants r') = length (rl_CapabilityGrants r).

Class RelationshipJSONLaws `{!RelationshipJSON} := {
  relationship_read_back r text r' :
    marshal_relationship r = Ok text → unmarshal_relationship text = Ok r' → as_trusted r r' }.

Section SQL.
Context `{!RelationshipJSON}.

Record federation_row := { fw_tenant_id : string; fw_body : json_body; fw_created_at : Z }.

Record FederationStore := { sq_rows : gmap string federation_row; sq_answers : bool; sq_faults : list (option error * bool) }.

(** [INSERT ... ON CONFLICT(id) DO UPDATE]: a row keeps its tenant and its creation time. *)
Definition sql_Put (s : FederationStore) (r : Relationship) : option error * FederationStore :=
  match marshal_relationship r with
  | Err err => (Some err, s)
  | Ok body =>
      let '(fault, answers, faults) := match sq_faults s with [] => (None, sq_answers s, []) | (e, a) :: rest => (e, a, rest) end in
      let stored := {| fw_tenant_id := match sq_rows s !! rl_ID r with Some row => fw_tenant_id row | None => rl_TenantID r end;
                       fw_body := body;
                       fw_created_at := match sq_rows s !! rl_ID r with Some row => fw_created_at row | None => rl_CreatedAt r end |} in
      match fault with
      | Some err => (Some err, {| sq_rows := sq_rows s; sq_answers := answers; sq_faults := faults |})
      | None => (None, {| sq_rows := <[rl_ID r := stored]> (sq_rows s); sq_answers := answers; sq_faults := faults |})
      end
  end.

Definition sql_Get (s : FederationStore) (scope id : string) : option Relationship :=
  if negb (sq_answers s) then None
  else match sq_rows s !! id with
       | Some row =>
           if bool_decide (fw_tenant_id row = scope)
           then match unmarshal_relationship (fw_body row) with Ok r => Some r | Err _ => None end else None
       | None => None
       end.

Fixpoint decode_bodies (rows : list federation_row) : result (list Relationship) :=
  match rows with
  | [] => Ok []
  | row :: rows =>
      match unmarshal_relationship (fw_body row) with
      | Err err => Err err
      | Ok r => match decode_bodies rows with Err err => Err err | Ok rs => Ok (r :: rs) end
      end
  end.

Definition sql_List (s : FederationStore) (scope : string) : result (list Relationship) :=
  if negb (sq_answers s) then Err (ErrNew "database is closed")
  else decode_bodies (stable_sort (λ a b, fw_created_at a <? fw_created_at b)
                        (filter (λ row, fw_tenant_id row = scope) (map_to_list (sq_rows s)).*2)).

#[export] Instance sql_store : Store FederationStore :=
  {| store_Put := sql_Put; store_Get := sql_Get; store_List := sql_List |}.
End SQL.
Arguments FederationStore : clear implicits.
Arguments FederationStore {_}.

(** ** What the lifecycle relies on of its store

    A store only answers with relationships it was given, as far as trust goes. *)
Class StoreLaws (S : Type) `{!Store S} := {
  store_holds : S → Relationship → Prop;
  get_holds s scope id r : store_Get s scope id = Some r → store_holds s r;
  put_holds s r r' : store_holds (store_Put s r).2 r' → as_trusted r r' ∨ store_holds s r' }.

#[export] Instance memory_store_laws : StoreLaws memoryStore.
Proof.
  refine {| store_holds := λ (m : gmap string Relationship) r, ∃ id, m !! id = Some r |}; simpl; unfold memory_Get, memory_Put.
  - intros s scope id r. destruct ((s : gmap string Relationship) !! id) eqn:E; [|done]. case_bool_decide; naive_solver.
  - intros s r r' [id Hid]. simpl in Hid. apply lookup_insert_Some in Hid as [[_ ->]|[_ H]]; [by left|eauto].
Defined.

#[export] Instance sql_store_laws `{!RelationshipJSON, !RelationshipJSONLaws} : StoreLaws FederationStore.
Proof.
  refine {| store_holds := λ (s : FederationStore) r, ∃ id row, sq_rows s !! id = Some row ∧ unmarshal_relationship (fw_body row) = Ok r |}; simpl.
  - intros s scope id r. unfold sql_Get. destruct (sq_answers s); [|done]. simpl. destruct (sq_rows s !! id) as [row|] eqn:E; [|done].
    case_bool_decide; [|done]. destruct (unmarshal_relationship _) eqn:Eu; [|done]. intros [= <-]. eauto.
  - intros s r r' (id & row & Hl & Hu). unfold sql_Put in Hl. destruct (marshal_relationship r) as [body|] eqn:Em; [|eauto].
    destruct (match sq_faults s with [] => _ | _ :: _ => _ end) as [[fault answers] faults]. destruct fault; simpl in Hl; [eauto|].
    apply lookup_insert_Some in Hl as [[_ <-]|[_ Hl]]; [|eauto]. left. by eapply relationship_read_back.
Defined.

(** A store that, in addition, answers only with the tenant's own relationships, each
    under its id: the one in memory.  The SQL store does not ([stored_tenant_differs]). *)
Class ScopedStore (S : Type) `{!Store S} := {
  store_wf : S → Prop;
  get_tenant s scope id r : store_Get s scope id = Some r → rl_TenantID r = scope;
  get_id s scope id r : store_wf s → store_Get s scope id = Some r → rl_ID r = id;
  put_wf s r : store_wf s → store_wf (store_Put s r).2 }.

#[export] Instance memory_scoped_store : ScopedStore memoryStore.
Proof.
  refine {| store_wf := λ (m : gmap string Relationship), map_Forall (λ id r, rl_ID r = id) m |}; simpl; unfold memory_Get, memory_Put.
  - intros s scope id r. destruct ((s : gmap string Relationship) !! id); [|done].
    case_bool_decide; [done|]. by intros [= <-].
  - intros s scope id r Hw. destruct ((s : gmap string Relationship) !! id) eqn:E; [|done].
    case_bool_decide; [done|]. intros [= <-]. by apply Hw in E.
  - intros s r Hw. simpl. by apply map_Forall_insert_2.
Defined.

Section Trust.
Context {S : Type} `{!Store S, !StoreLaws S}.
Implicit Types (l : Lifecycle S) (r : Relationship).

(** ** Trust of active relationships *)

Definition trusted r : Prop :=
  rl_Status r = StatusActive →
  HasVerifiedAnchor r = true ∧ rl_ProjectGrants r ≠ [] ∧ rl_CapabilityGrants r ≠ [].

Definition all_hold (P : Relationship → Prop) l : Prop :=
  map_Forall (λ _ r, P r) (lc_states l) ∧ ∀ r, store_holds (lc_store l) r → P r.

Lemma load_holds P l scope id :
  all_hold P l →
  all_hold P (loadLocked l scope id).2 ∧ ∀ r, (loadLocked l scope id).1 = Some r → P r.
Proof.
  intros [H1 H2]. unfold loadLocked. destruct (lc_states l !! id) as [r|] eqn:E; simpl.
  - split; [done|]. intros r'. case_bool_decide; [done|]. intros [= <-].
    by eapply H1.
  - destruct (store_Get _ _ _) as [r|] eqn:Eg; simpl; [|done].
    assert (P r) by (apply H2; by eapply get_holds). split; [|naive_solver].
    split; [by apply map_Forall_insert_2|done].
Qed.

(** A property that what the store gives back has as well. *)
Class ReadBack (P : Relationship → Prop) := read_back r r' : as_trusted r r' → P r → P r'.

#[local] Instance trusted_read_back : ReadBack trusted.
Proof.
  intros r r' (Hs & Ha & Hp & Hc) Ht Hact. destruct (Ht (Hs Hact)) as (Hv & Hg & Hcap). split_and!.
  - revert Hv. unfold HasVerifiedAnchor.
    assert (∀ anchors, existsb ta_Verified anchors = existsb id (ta_Verified <$> anchors)) as He by (intros x; induction x as [|y x IH]; [done|]; simpl; by rewrite IH).
    by rewrite !He, Ha.
  - by destruct (rl_ProjectGrants r'), (rl_ProjectGrants r).
  - by destruct (rl_CapabilityGrants r'), (rl_CapabilityGrants r).
Qed.

Lemma save_holds P `{!ReadBack P} l r : all_hold P l → P r → all_hold P (save l r).2.
Proof.
  intros [H1 H2] Hr. unfold save, saveLocked. destruct (store_Put (lc_store l) r) as [err st] eqn:E. simpl.
  split; simpl; [by apply map_Forall_insert_2|]. intros r' Hr'.
  pose proof (put_holds (lc_store l) r r') as Hp. rewrite E in Hp. destruct (Hp Hr'); [by eapply read_back|auto].
Qed.

(** Splits a handler at its load. *)
Ltac at_load P H :=
  match goal with
  | |- context [loadLocked ?l ?scope ?id] =>
      let H1 := fresh "Hl" in let H2 := fresh "Hr" in
      destruct (load_holds P l scope id H) as [H1 H2];
      destruct (loadLocked l scope id) as [[?r|] ?l]; simpl in *;
      [specialize (H2 _ eq_refl)|clear H2]
  end.

Lemma Discover_holds P `{!ReadBack P} l now r :
  all_hold P l → P (moved r StatusCandidate (rl_ReviewStatus r) now 1) → all_hold P (Discover l now r).2.
Proof. intros H HP. unfold Discover. at_load P H; [done|by apply save_holds]. Qed.

Lemma Activate_holds P `{!ReadBack P} l now r :
  all_hold P l →
  (∀ v, HasVerifiedAnchor r = true → rl_ProjectGrants r ≠ [] → rl_CapabilityGrants r ≠ [] →
     P (moved r StatusActive "approved" now v)) →
  all_hold P (Activate l now r).2.
Proof.
  intros H HP. unfold Activate. destruct (HasVerifiedAnchor r) eqn:Ev; [|done]. simpl.
  case_bool_decide; [done|]. case_bool_decide; [done|]. simpl.
  at_load P H; [case_bool_decide; [done|]|]; apply save_holds; auto.
Qed.

Lemma Review_rejected_holds P `{!ReadBack P} l now r :
  all_hold P l → (∀ c v, P c → P (moved c StatusPendingReview "rejected" now v)) →
  all_hold P (Review l now r false).2.
Proof.
  intros H HP. unfold Review. at_load P H; [|done]. destruct (_ && _); [done|]. simpl. apply save_holds; auto.
Qed.

Lemma Suspend_holds P `{!ReadBack P} l now scope id :
  all_hold P l → (∀ c v, P c → P (moved c StatusSuspended (rl_ReviewStatus c) now v)) →
  all_hold P (Suspend l now scope id).2.
Proof.
  intros H HP. unfold Suspend. at_load P H; [|done]. case_bool_decide; [done|]. apply save_holds; auto.
Qed.

Lemma MaterialChange_holds P `{!ReadBack P} l now scope id fields :
  all_hold P l → (∀ c v review, P c → P (moved c StatusPendingReview review now v)) →
  all_hold P (ReviewMaterialChange l now scope id fields).2.
Proof.
  intros H HP. unfold ReviewMaterialChange. at_load P H; [|done]. destruct fields; [done|]. apply save_holds; auto.
Qed.

(** The operators' console: the transitions the application drives. *)
Inductive console_step : Lifecycle S → Lifecycle S → Prop :=
| cs_get l scope id : console_step l (Get l scope id).2
| cs_discover l now scope input card : console_step l (console_Discover l now scope input card).2
| cs_review l now scope id approved projects capabilities :
    console_step l (console_Review l now scope id approved projects capabilities).2
| cs_suspend l now scope id : console_step l (console_Suspend l now scope id).2.

Lemma console_trusted l l' : console_step l l' → all_hold trusted l → all_hold trusted l'.
Proof.
  intros Hs H. assert (∀ c status review now v, status ≠ StatusActive → trusted (moved c status review now v)) as Hm.
  { intros c status review now v Hne Ha. by simpl in Ha. }
  destruct Hs as [l scope id|l now scope input card|l now scope id approved ps cs|l now scope id].
  - by apply load_holds.
  - unfold console_Discover. unfold Get. at_load trusted H.
    + destruct (cardMaterialChange _ _ _) as [|f fs]; [done|].
      pose proof (MaterialChange_holds trusted l0 now scope (relationshipID (card_Name card) (di_URL input)) (f :: fs) Hl)
        as Hm'. destruct (ReviewMaterialChange _ _ _ _ _) as [[? ?] ?]. apply Hm'. intros. by apply Hm.
    + pose proof (Discover_holds trusted l0 now (discovered scope now input card) Hl) as Hm'.
      destruct (Discover _ _ _) as [[? ?] ?]. apply Hm'. by apply Hm.
  - unfold console_Review, Get. at_load trusted H; [|done]. destruct approved; simpl.
    + pose proof (Activate_holds trusted l0 now (with_grants r ps cs) Hl) as Hm'.
      destruct (Activate _ _ _) as [[? ?] ?]. apply Hm'. by intros v ??? _.
    + pose proof (Review_rejected_holds trusted l0 now r Hl) as Hm'. destruct (Review _ _ _ _) as [[? ?] ?].
      apply Hm'. intros. by apply Hm.
  - unfold console_Suspend. pose proof (Suspend_holds trusted l now scope id H) as Hm'.
    destruct (Suspend _ _ _ _) as [[? ?] ?]. apply Hm'. intros. by apply Hm.
Qed.

(** C18: the console never trusts without proof.  Starting from a store whose active
    relationships are trusted - the SQL store or the one in memory - after any sequence
    of lookups, discoveries, reviews and suspensions by any tenants, with any store
    failures, a relationship that may serve calls has an anchor that was verified, a
    project grant and a capability grant.  (Which tenant's relationship it is, is not
    claimed: the SQL store may hold another tenant's, see [stored_tenant_differs].) *)
Theorem console_active_is_trusted (store : S) l scope id :
  (∀ r, store_holds store r → trusted r) → rtc console_step (NewLifecycle store) l →
  (Active l scope id).1 = true →
  ∃ r, (Get l scope id).1 = Some r ∧ rl_Status r = StatusActive ∧
    (∃ a, a ∈ rl_Anchors r ∧ ta_Verified a = true) ∧ rl_ProjectGrants r ≠ [] ∧ rl_CapabilityGrants r ≠ [].
Proof.
  intros H0 Hr. assert (all_hold trusted l) as H.
  { eapply (rtc_ind_r (all_hold trusted)); [|intros; by eapply console_trusted|exact Hr].
    split; [apply map_Forall_empty|done]. }
  unfold Active, Get. at_load trusted H; [|done]. case_bool_decide as Ha; [|done]. intros _.
  assert (trusted r) as Ht by done. destruct (Ht Ha) as (Hv & ? & ?). exists r. split_and!; try done.
  unfold HasVerifiedAnchor in Hv. apply existsb_exists in Hv as (a & Hin & Hv). exists a. split; [by apply list_elem_of_In|done].
Qed.

(** An inbound identity is backed by an active relationship.  Whatever order the
    relationships are ranged over, [Resolve] yields a principal exactly when the
    facts are complete and some active relationship of the tenant has a verified
    anchor matching them, and the principal carries such a relationship. *)
Theorem inbound_identity_is_backed l states scope facts :
  states ≡ₚ (map_to_list (lc_states l)).*2 →
  let backing r := (∃ id, lc_states l !! id = Some r) ∧ rl_TenantID r = scope ∧ rl_Status r = StatusActive ∧
                   ∃ a, a ∈ rl_Anchors r ∧ ta_Verified a = true ∧ anchor_matches facts a = true in
  match Resolve states scope facts with
  | Ok p => pr_TenantID p = scope ∧ pr_TrustBoundary p = "external_federated" ∧
            ∃ r, backing r ∧ pr_FederationRelationshipID p = rl_ID r ∧ pr_AgentID p = rl_ExternalAgentID r
  | Err _ => tf_AuthMethod facts = "" ∨ tf_Subject facts = "" ∨ ∀ r, ¬ backing r
  end.
Proof.
  intros Hp backing.
  assert (∀ r, r ∈ filter (λ r, rl_TenantID r = scope) states ↔
            (∃ id, lc_states l !! id = Some r) ∧ rl_TenantID r = scope) as Hin.
  { intros r. rewrite list_elem_of_filter, Hp, list_elem_of_fmap. split.
    - intros [? [[id r'] [-> ?%elem_of_map_to_list]]]. eauto.
    - intros [[id ?] ?]. split; [done|]. exists (id, r). split; [done|]. by apply elem_of_map_to_list. }
  assert (∀ r, matches r facts = true ↔
            ∃ a, a ∈ rl_Anchors r ∧ ta_Verified a = true ∧ anchor_matches facts a = true) as Hm.
  { intros r. unfold matches. rewrite existsb_exists. setoid_rewrite list_elem_of_In.
    unfold anchor_matches. split; [|naive_solver]. intros (a & Ha & Hb). exists a. by destruct (ta_Verified a). }
  unfold Resolve. case_bool_decide; [by left|]. case_bool_decide; [by right; left|]. simpl.
  destruct (List.find _ _) as [r|] eqn:Ef; simpl.
  - apply List.find_some in Ef as [Hr [Hs%bool_decide_eq_true Ha]%andb_true_iff].
    rewrite <- list_elem_of_In, Hin in Hr. split_and!; [done|done|]. exists r. unfold backing.
    rewrite <- Hm. naive_solver.
  - right; right. intros r (Hid & Ht & Hs & Ha%Hm). pose proof (List.find_none _ _ Ef r) as Hn. simpl in Hn.
    rewrite <- list_elem_of_In, Hin, Hs, Ha in Hn. by specialize (Hn (conj Hid Ht)).
Qed.
End Trust.

(** ** Optimistic concurrency *)

Section Versions.
Context {S : Type} `{!Store S, !ScopedStore S}.
Implicit Types (l : Lifecycle S) (r : Relationship).

(** Every transition of the lifecycle, by any caller. *)
Inductive fed_op :=
| OpGet (scope id : string)
| OpDiscover (now : Z) (r : Relationship)
| OpReview (now : Z) (r : Relationship) (approved : bool)
| OpActivate (now : Z) (r : Relationship)
| OpSuspend (now : Z) (scope id : string)
| OpRevoke (now : Z) (scope id : string)
| OpMaterialChange (now : Z) (scope id : string) (fields : list string).

Definition fed_exec l (op : fed_op) : Lifecycle S :=
  match op with
  | OpGet scope id => (Get l scope id).2
  | OpDiscover now r => (Discover l now r).2
  | OpReview now r approved => (Review l now r approved).2
  | OpActivate now r => (Activate l now r).2
  | OpSuspend now scope id => (Suspend l now scope id).2
  | OpRevoke now scope id => (Revoke l now scope id).2
  | OpMaterialChange now scope id fields => (ReviewMaterialChange l now scope id fields).2
  end.

Definition fed_run l (ops : list fed_op) : Lifecycle S := foldl fed_exec l ops.

(** The id and tenant an operation addresses. *)
Definition op_id (op : fed_op) : string :=
  match op with
  | OpGet _ id | OpSuspend _ _ id | OpRevoke _ _ id | OpMaterialChange _ _ id _ => id
  | OpDiscover _ r | OpReview _ r _ | OpActivate _ r => rl_ID r
  end.

Definition op_tenant (op : fed_op) : string :=
  match op with
  | OpGet scope _ | OpSuspend _ scope _ | OpRevoke _ scope _ | OpMaterialChange _ scope _ _ => scope
  | OpDiscover _ r | OpReview _ r _ | OpActivate _ r => rl_TenantID r
  end.

(** No other tenant addresses the id. *)
Definition addressed_by (tenant id : string) (op : fed_op) : Prop := op_id op = id → op_tenant op = tenant.

Definition keyed l : Prop := map_Forall (λ id r, rl_ID r = id) (lc_states l) ∧ store_wf (lc_store l).

(** A version at which the next transition does not wrap. *)
Definition version_ok (v : Z) : Prop := 0 <= v < max_int64.

Lemma load_hot l tenant id r :
  lc_states l !! id = Some r → rl_TenantID r = tenant → loadLocked l tenant id = (Some r, l).
Proof. intros H Ht. unfold loadLocked. rewrite H. by rewrite bool_decide_false by tauto. Qed.

Lemma load_frame l scope id :
  keyed l → keyed (loadLocked l scope id).2 ∧
  (∀ r, (loadLocked l scope id).1 = Some r → rl_ID r = id ∧ rl_TenantID r = scope) ∧
  ∀ id' r, lc_states l !! id' = Some r → lc_states (loadLocked l scope id).2 !! id' = Some r.
Proof.
  intros [Hk Hw]. unfold loadLocked. destruct (lc_states l !! id) as [r|] eqn:E; simpl.
  - split_and!; [done| |done]. intros r'. case_bool_decide; [done|]. intros [= <-]. split; [by apply Hk in E|done].
  - destruct (store_Get _ _ _) as [r|] eqn:Eg; simpl; [|done].
    assert (rl_ID r = id) by by eapply get_id. split_and!.
    + split; [by apply map_Forall_insert_2|done].
    + intros r' [= <-]. split; [done|by eapply get_tenant].
    + intros id' r' H'. rewrite lookup_insert_ne; [done|]. congruence.
Qed.

Lemma save_frame l r :
  keyed l → keyed (save l r).2 ∧ lc_states (save l r).2 = <[rl_ID r := r]> (lc_states l).
Proof.
  intros [Hk Hw]. unfold save, saveLocked. pose proof (put_wf (lc_store l) r Hw) as Hw'.
  destruct (store_Put (lc_store l) r) as [err st]. simpl in *. split; [|done].
  split; [by apply map_Forall_insert_2|done].
Qed.

(** A transition of one id: the entry of another id is untouched, and the hot
    entry of its own id keeps its tenant and moves on by at most one version. *)
Definition advances (tenant id : string) l l' : Prop :=
  keyed l' ∧ ∀ cur, lc_states l !! id = Some cur → rl_TenantID cur = tenant → version_ok (rl_Version cur) →
  ∃ cur', lc_states l' !! id = Some cur' ∧ rl_TenantID cur' = tenant ∧
    rl_Version cur <= rl_Version cur' <= rl_Version cur + 1.

Lemma advances_same tenant id l : keyed l → advances tenant id l l.
Proof. intros Hk. split; [done|]. intros cur Hc Ht Hv. exists cur. split_and!; try done; lia. Qed.

Lemma advances_load tenant id l scope id' : keyed l → advances tenant id l (loadLocked l scope id').2.
Proof.
  intros Hk. destruct (load_frame l scope id' Hk) as (H1 & _ & H3). split; [done|].
  intros cur Hc Ht Hv. exists cur. split_and!; [by apply H3|done|lia..].
Qed.

(** Loading and saving the next version of what was loaded. *)
Lemma advances_save tenant id l scope id' r :
  keyed l → rl_ID r = id' → rl_TenantID r = scope → (id' = id → scope = tenant) →
  ((loadLocked l scope id').1 = None ∨
   ∃ c, (loadLocked l scope id').1 = Some c ∧ rl_Version r = wrap64 (rl_Version c + 1)) →
  advances tenant id l (save (loadLocked l scope id').2 r).2.
Proof.
  intros Hk Hid Hsc Hown Hload. destruct (load_frame l scope id' Hk) as (H1 & H2 & H3).
  destruct (save_frame _ r H1) as [Hk' Hst]. split; [done|]. intros cur Hc Ht [Hv1 Hv2].
  rewrite Hst, Hid. destruct (decide (id' = id)) as [->|Hne].
  - exists r. rewrite lookup_insert_eq. specialize (Hown eq_refl). subst scope.
    rewrite Hown in *. rewrite (load_hot l tenant id cur Hc Ht) in Hload.
    destruct Hload as [?|(c & [= <-] & ->)]; [done|]. rewrite wrap64_id by (unfold_ints; lia).
    split_and!; [done|done|lia..].
  - exists cur. rewrite lookup_insert_ne by done. split_and!; [by apply H3|done|lia..].
Qed.

Lemma exec_advances tenant id l op :
  keyed l → addressed_by tenant id op → advances tenant id l (fed_exec l op).
Proof.
  intros Hk Ho. unfold addressed_by in Ho.
  pose proof (advances_save tenant id l (op_tenant op) (op_id op)) as Hsave.
  pose proof (advances_load tenant id l (op_tenant op) (op_id op) Hk) as Hload.
  pose proof (load_frame l (op_tenant op) (op_id op) Hk) as (_ & Hl & _).
  destruct op; simpl in *; unfold Get, Discover, Review, Activate, Suspend, Revoke, ReviewMaterialChange; simpl;
    try (destruct (HasVerifiedAnchor r); [|by apply advances_same]; simpl);
    try (destruct (bool_decide (rl_ProjectGrants r = []) || _); [by apply advances_same|]);
    try done;
    match type of Hl with context [loadLocked ?l ?t ?i] => destruct (loadLocked l t i) as [[c|] l'] end;
    simpl in *; try done; try (by apply Hsave; auto);
    destruct (Hl c eq_refl) as [Hci Hct]; repeat case_match; simpl; try done; apply Hsave; simpl; eauto.
Qed.

Lemma run_advances tenant id ops : ∀ l cur,
  keyed l → Forall (addressed_by tenant id) ops → lc_states l !! id = Some cur → rl_TenantID cur = tenant →
  0 <= rl_Version cur → rl_Version cur + Z.of_nat (length ops) <= max_int64 →
  keyed (fed_run l ops) ∧
  ∃ cur', lc_states (fed_run l ops) !! id = Some cur' ∧ rl_TenantID cur' = tenant ∧ rl_Version cur <= rl_Version cur'.
Proof.
  induction ops as [|op ops IH]; intros l cur Hk Ho Hc Ht Hv Hb; simpl in *.
  { split; [done|]. exists cur. split_and!; try done; lia. }
  apply Forall_cons in Ho as [Ho Hos]. destruct (exec_advances tenant id l op Hk Ho) as [Hk' Hadv].
  destruct (Hadv cur Hc Ht) as (c1 & Hc1 & Ht1 & Hv1); [unfold version_ok; lia|].
  destruct (IH (fed_exec l op) c1) as (H1 & c2 & H2 & H3 & H4); try done; [lia..|].
  split; [done|]. exists c2. split_and!; try done; lia.
Qed.

(** An activation is never lost to a stale one.  Once a caller's activation of an
    existing relationship succeeds, then after any further transitions by the
    tenants that own the ids, every activation or approving review based on the
    same version of the relationship is refused as stale and changes nothing. *)
Theorem stale_activation_rejected l now r id cur ops r2 now2 :
  keyed l → lc_states l !! id = Some cur → rl_TenantID cur = rl_TenantID r → rl_ID r = id →
  0 <= rl_Version cur → rl_Version cur + 1 + Z.of_nat (length ops) <= max_int64 →
  (Activate l now r).1.2 = None → Forall (addressed_by (rl_TenantID r) id) ops →
  rl_ID r2 = id → rl_TenantID r2 = rl_TenantID r → rl_Version r2 = rl_Version r →
  let l' := fed_run (Activate l now r).2 ops in
  is_Some (Activate l' now2 r2).1.2 ∧ (Activate l' now2 r2).2 = l' ∧
  (Review l' now2 r2 true).1.2 = Some ErrStaleState ∧ (Review l' now2 r2 true).2 = l'.
Proof.
  intros Hk Hc Ht <- Hv Hb Hok Ho Hid2 Ht2 Hv2 l'.
  assert (rl_Version cur = rl_Version r ∧ keyed (Activate l now r).2 ∧
          ∃ c, lc_states (Activate l now r).2 !! rl_ID r = Some c ∧ rl_TenantID c = rl_TenantID r ∧
               rl_Version c = rl_Version cur + 1) as (Hvr & Hk1 & c1 & Hc1 & Ht1 & Hv1).
  { revert Hok. unfold Activate. destruct (HasVerifiedAnchor r); [|done]. simpl. case_bool_decide; [done|].
    case_bool_decide; [done|]. simpl. rewrite (load_hot l _ _ cur Hc Ht). case_bool_decide as Hne; [done|].
    intros _. split; [done|].
    destruct (save_frame l (moved r StatusActive "approved" now (wrap64 (rl_Version cur + 1))) Hk) as [Hk' ->].
    split; [done|]. eexists. rewrite lookup_insert_eq. split; [done|]. simpl.
    rewrite wrap64_id by (unfold_ints; lia). done. }
  destruct (run_advances _ _ ops _ c1 Hk1 Ho Hc1 Ht1) as (_ & c2 & Hc2 & Ht2' & Hv2'); [lia..|]. fold l' in Hc2.
  assert (rl_Version r2 ≠ rl_Version c2) by lia.
  assert (loadLocked l' (rl_TenantID r2) (rl_ID r2) = (Some c2, l')) as Hload.
  { apply load_hot; [by rewrite Hid2|by rewrite Ht2]. }
  unfold Activate, Review. rewrite Hload. rewrite (bool_decide_true (rl_Version r2 ≠ rl_Version c2)) by done.
  split_and!; repeat case_match; simpl; by eauto.
Qed.
End Versions.

(** ** Tasks *)

(** A governed task: each downstream call is taken only when it is allowed. *)
Definition take_hop (limits : TaskLimits) (t : TaskState) (cost : float64) : TaskState :=
  if ShouldAllowHop t limits then ConsumeHop t cost else t.

Definition task_slack (limits : TaskLimits) : Z :=
  if bool_decide (Consistency limits = ConsistencyGlobalSoft) then 2 else 0.

Lemma allowed_hop t limits :
  ShouldAllowHop t limits = true → 0 < MaxAgentHops limits <= max_int64 →
  Hops t < MaxAgentHops limits + task_slack limits.
Proof.
  unfold ShouldAllowHop, task_slack. intros H Hm. rewrite bool_decide_not in H.
  destruct (bool_decide (Consistency limits = ConsistencyGlobalSoft)); simpl in H;
    apply andb_true_iff in H as [[[H|H]%orb_true_iff _]%andb_true_iff _]; try lia.
  apply Z.ltb_lt in H. destruct (Z.le_gt_cases (MaxAgentHops limits + 2) max_int64).
  - rewrite wrap64_id in H by (unfold_ints; lia). lia.
  - unfold wrap64, two63, two64, max_int64 in *. assert ((MaxAgentHops limits + 2 + 9223372036854775808) mod 18446744073709551616 =
      MaxAgentHops limits + 2 + 9223372036854775808 - 18446744073709551616) as Heq; [|lia].
    symmetry. apply (Z.mod_unique _ _ 1); lia.
Qed.

(** A governed task stays within its hop limit.  From a new task, whatever the
    costs of its calls, the hops taken never exceed the limit (plus the slice of
    two that the global_soft mode grants), and hops and calls advance together. *)
Theorem task_hops_bounded limits costs :
  0 < MaxAgentHops limits <= max_int64 - 2 →
  let t := foldl (take_hop limits) new_task costs in
  0 <= Hops t <= MaxAgentHops limits + task_slack limits ∧ Calls t = Hops t ∧ crossedBoundary t = false.
Proof.
  intros Hm. simpl. assert (0 <= task_slack limits <= 2) by (unfold task_slack; case_bool_decide; lia).
  assert (∀ t, 0 <= Hops t <= MaxAgentHops limits + task_slack limits ∧ Calls t = Hops t ∧ crossedBoundary t = false →
    let t' := foldl (take_hop limits) t costs in
    0 <= Hops t' <= MaxAgentHops limits + task_slack limits ∧ Calls t' = Hops t' ∧ crossedBoundary t' = false) as Hgo.
  { induction costs as [|c costs IH]; intros t Ht; [done|]. simpl. apply IH. unfold take_hop.
    destruct (ShouldAllowHop t limits) eqn:E; [|done]. apply allowed_hop in E; [|lia].
    destruct Ht as (Hh & Hc & Hb). simpl. rewrite Hc, wrap64_id by (unfold_ints; unfold max_int64 in *; lia).
    split_and!; [lia..|done|done]. }
  apply Hgo. simpl. split_and!; [lia..|done|done].
Qed.

Inductive loop_op := DoEnter (agentID : string) | DoExit.

Definition loop_exec (d : LoopDetector) (op : loop_op) : LoopDetector :=
  match op with DoEnter id => (Enter d id).2 | DoExit => Exit d end.

(** Hops that a detector accepts one after the other, without a return. *)
Fixpoint all_accepted (d : LoopDetector) (hops : list string) : bool :=
  match hops with [] => true | id :: hops => (Enter d id).1 && all_accepted (Enter d id).2 hops end.

Lemma loop_invariant maxDepth ops :
  let d := foldl loop_exec (NewLoopDetector maxDepth) ops in
  let depth := if maxDepth <=? 0 then 8 else maxDepth in
  NoDup (ld_path d) ∧ Z.of_nat (length (ld_path d)) <= depth ∧ ld_maxDepth d = depth.
Proof.
  simpl. set (depth := if maxDepth <=? 0 then 8 else maxDepth).
  set (inv d := NoDup (ld_path d) ∧ Z.of_nat (length (ld_path d)) <= depth ∧ ld_maxDepth d = depth).
  assert (∀ ops d, inv d → inv (foldl loop_exec d ops)) as Hinv.
  { clear ops. induction ops as [|op ops IH]; intros d Hd; [done|]. simpl. apply IH. destruct Hd as (H1 & H2 & H3).
    destruct op as [id|]; simpl.
    - unfold Enter. case_bool_decide; [done|]. destruct (Z.leb_spec (ld_maxDepth d) (Z.of_nat (length (ld_path d))));
        [done|]. unfold inv. simpl. rewrite length_app. simpl. split_and!; [|lia|done].
      apply NoDup_app. split_and!; [done|set_solver|apply NoDup_singleton].
    - unfold inv. simpl. destruct (ld_path d) as [|a l _] using rev_ind; [done|]. rewrite removelast_last.
      rewrite length_app in H2. apply NoDup_app in H1 as [? _]. simpl in H2. split_and!; [done|lia|done]. }
  apply Hinv. unfold inv. simpl. split_and!; [constructor|unfold depth; destruct (Z.leb_spec maxDepth 0); lia|done].
Qed.

(** One hop: what is accepted is recorded, what is not changes nothing. *)
Lemma Enter_cases d agentID :
  if (Enter d agentID).1
  then agentID ∉ ld_path d ∧ Z.of_nat (length (ld_path d)) < ld_maxDepth d ∧
       (Enter d agentID).2 = {| ld_path := (ld_path d ++ [agentID])%list; ld_maxDepth := ld_maxDepth d |}
  else (agentID ∈ ld_path d ∨ ld_maxDepth d <= Z.of_nat (length (ld_path d))) ∧ (Enter d agentID).2 = d.
Proof.
  unfold Enter. case_bool_decide; simpl; [split; [by left|done]|].
  destruct (Z.leb_spec (ld_maxDepth d) (Z.of_nat (length (ld_path d)))); simpl; [split; [by right|done]|by split_and!].
Qed.

Lemma accepted_chain d hops :
  NoDup (ld_path d) → Z.of_nat (length (ld_path d)) <= ld_maxDepth d → all_accepted d hops = true →
  NoDup (ld_path d ++ hops)%list ∧ Z.of_nat (length (ld_path d) + length hops) <= ld_maxDepth d.
Proof.
  revert d. induction hops as [|id hops IH]; intros d Hn Hl; simpl; [rewrite app_nil_r; intros _; split; [done|lia]|].
  pose proof (Enter_cases d id) as He. destruct (Enter d id) as [[|] d']; simpl in *; [|done]. destruct He as (Hin & Hlen & ->). intros Ha.
  apply IH in Ha as [Hn' Hl']; simpl in *.
  - rewrite <- app_assoc in Hn'. rewrite length_app in Hl'. simpl in *. split; [done|lia].
  - apply NoDup_app. split_and!; [done|set_solver|apply NoDup_singleton].
  - rewrite length_app. simpl. lia.
Qed.

(** C30: call chains are finite and acyclic.  After any hops and returns, the chain a
    detector has recorded repeats no agent and is at most its depth long (eight when
    none is configured).  A hop is accepted exactly when its agent is not on the chain
    and the chain is shorter than the depth; an accepted hop is recorded at the end of
    the chain, from where a return takes it, and a refused one changes nothing.  So
    however the hops are chosen, those that are accepted without a return are distinct,
    and no more than the depth leaves room for. *)
Theorem call_chain_acyclic maxDepth ops agentID hops :
  let d := foldl loop_exec (NewLoopDetector maxDepth) ops in
  let depth := if maxDepth <=? 0 then 8 else maxDepth in
  NoDup (ld_path d) ∧ Z.of_nat (length (ld_path d)) <= depth ∧
  ((Enter d agentID).1 = true ↔ agentID ∉ ld_path d ∧ Z.of_nat (length (ld_path d)) < depth) ∧
  ld_path (Enter d agentID).2 = (if (Enter d agentID).1 then ld_path d ++ [agentID] else ld_path d)%list ∧
  ((Enter d agentID).1 = true → Exit (Enter d agentID).2 = d) ∧
  (all_accepted d hops = true → NoDup (ld_path d ++ hops)%list ∧ Z.of_nat (length hops) <= depth - Z.of_nat (length (ld_path d))).
Proof.
  intros d depth. destruct (loop_invariant maxDepth ops) as (H1 & H2 & H3). fold depth in H2, H3. fold d in H1, H2, H3.
  pose proof (Enter_cases d agentID) as He. rewrite H3 in He. split_and!; [done|done| | | |].
  - destruct (Enter d agentID) as [[|] d']; simpl in *; [naive_solver|]. split; [done|]. intros [? ?]. destruct He as [[?|?] _]; [done|lia].
  - destruct (Enter d agentID) as [[|] d']; simpl in *; destruct He as [_ He]; [by destruct He as [_ ->]|by rewrite He].
  - destruct (Enter d agentID) as [[|] d']; simpl in *; [|done]. intros _. destruct He as (_ & _ & ->). unfold Exit. simpl.
    rewrite removelast_last, <- H3. by destruct d.
  - intros Ha. apply accepted_chain in Ha as [Hn Hl]; [|done|lia]. split; [done|lia].
Qed.

(** ** Concrete instances *)

Definition peer : AgentCard :=
  {| card_Name := "planner"; card_URL := "https://peer"; card_Version := "1"; card_verified := true |}.

Definition peer_input : DiscoverInput :=
  {| di_URL := "https://peer/card"; di_Name := "";
     di_ProjectGrants := [{| pg_ID := "g1"; pg_ProjectID := "p1"; pg_GrantedBy := "ann"; pg_CreatedAt := 0 |}];
     di_CapabilityGrants := [{| cg_ID := "c1"; cg_Capability := "plan"; cg_CreatedAt := 0 |}] |}.

Definition peer_id : string := relationshipID "planner" "https://peer/card".

Definition empty_lifecycle : Lifecycle memoryStore := NewLifecycle (∅ : gmap string Relationship).

(** A tenant discovers the peer and approves it. *)
Definition onboarded (l : Lifecycle memoryStore) (tenant : string) : Lifecycle memoryStore :=
  (console_Review (console_Discover l 1 tenant peer_input peer).2 2 tenant peer_id true [] []).2.

Definition peer_facts : TransportFacts :=
  {| tf_AuthMethod := "federated_jws"; tf_Subject := "planner"; tf_Issuer := "" |}.

(** Relationships that are their own text. *)
#[local] Instance plain_text : RelationshipJSON := {| json_body := Relationship; marshal_relationship := Ok; unmarshal_relationship := Ok |}.
#[local] Instance plain_text_laws : RelationshipJSONLaws.
Proof. split. intros r text r' [= <-] [= <-]. done. Defined.

Definition empty_table : FederationStore := {| sq_rows := ∅; sq_answers := true; sq_faults := [] |}.
Definition sql_onboarded (tenant : string) : Lifecycle FederationStore :=
  (console_Review (console_Discover (NewLifecycle empty_table) 1 tenant peer_input peer).2 2 tenant peer_id true [] []).2.

Lemma console_active_is_trusted_witness :
  ∃ r, (Get (sql_onboarded "acme") "acme" peer_id).1 = Some r ∧ rl_Status r = StatusActive ∧
    (∃ a, a ∈ rl_Anchors r ∧ ta_Verified a = true) ∧ rl_ProjectGrants r ≠ [] ∧ rl_CapabilityGrants r ≠ [].
Proof.
  apply (console_active_is_trusted empty_table).
  - intros r (id & row & H & _). discriminate H.
  - eapply rtc_l; [exact (cs_discover (NewLifecycle empty_table) 1 "acme" peer_input peer)|]. apply rtc_once.
    exact (cs_review (console_Discover (NewLifecycle empty_table) 1 "acme" peer_input peer).2 2 "acme" peer_id true [] []).
  - vm_compute. reflexivity.
Defined.

(** The SQL store keeps the tenant of the row and replaces its relationship: when acme
    has activated a peer and globex discovers the same peer, a process that starts on
    the table gives globex's relationship to acme, and globex gets none. *)
Theorem stored_tenant_differs :
  let l := (console_Discover (sql_onboarded "acme") 3 "globex" peer_input peer).2 in
  let restarted := NewLifecycle (lc_store l) in
  (rl_TenantID <$> (Get restarted "acme" peer_id).1) = Some "globex" ∧ (Get restarted "globex" peer_id).1 = None.
Proof. vm_compute. done. Qed.

Lemma inbound_identity_is_backed_witness :
  let l := onboarded empty_lifecycle "acme" in
  let backing r := (∃ id, lc_states l !! id = Some r) ∧ rl_TenantID r = "acme" ∧ rl_Status r = StatusActive ∧
                   ∃ a, a ∈ rl_Anchors r ∧ ta_Verified a = true ∧ anchor_matches peer_facts a = true in
  match Resolve (map_to_list (lc_states l)).*2 "acme" peer_facts with
  | Ok p => pr_TenantID p = "acme" ∧ pr_TrustBoundary p = "external_federated" ∧
            ∃ r, backing r ∧ pr_FederationRelationshipID p = rl_ID r ∧ pr_AgentID p = rl_ExternalAgentID r
  | Err _ => tf_AuthMethod peer_facts = "" ∨ tf_Subject peer_facts = "" ∨ ∀ r, ¬ backing r
  end.
Proof.
  intros l. apply (inbound_identity_is_backed l (map_to_list (lc_states l)).*2 "acme" peer_facts). reflexivity.
Defined.

(** A hot relationship, and an activation based on it. *)
Definition candidate : Relationship :=
  {| rl_ID := "rel-1"; rl_TenantID := "acme"; rl_ExternalAgentID := "planner"; rl_ExternalSubject := "";
     rl_Name := ""; rl_Status := StatusCandidate; rl_Direction := ""; rl_AssuranceLevel := "";
     rl_AgentCardSource := ""; rl_AuthMethod := "jws"; rl_DataBoundary := rl_DataBoundary zero_relationship;
     rl_Anchors := [{| ta_ID := "card"; ta_Type := "jws"; ta_Subject := "planner"; ta_Verified := true;
                       ta_VerifiedAt := 1 |}];
     rl_ProjectGrants := di_ProjectGrants peer_input; rl_CapabilityGrants := di_CapabilityGrants peer_input;
     rl_PricingRef := ""; rl_ApprovedVersion := ""; rl_ReviewStatus := ""; rl_Version := 1; rl_CreatedAt := 0;
     rl_UpdatedAt := 1 |}.

Definition hot (r : Relationship) : Lifecycle memoryStore :=
  {| lc_states := {[rl_ID r := r]}; lc_store := {[rl_ID r := r]} |}.

Lemma stale_activation_rejected_witness :
  let l' := fed_run (Activate (hot candidate) 2 candidate).2 [OpSuspend 3 "acme" (rl_ID candidate)] in
  is_Some (Activate l' 4 candidate).1.2 ∧ (Activate l' 4 candidate).2 = l' ∧
  (Review l' 4 candidate true).1.2 = Some ErrStaleState ∧ (Review l' 4 candidate true).2 = l'.
Proof.
  apply (stale_activation_rejected (hot candidate) 2 candidate (rl_ID candidate) candidate); try reflexivity; try lia.
  - split; by apply map_Forall_singleton.
  - done.
  - done.
  - by apply Forall_singleton.
Defined.

Lemma task_hops_bounded_witness :
  let limits := {| MaxAgentHops := 3; MaxAgentCalls := 0; MaxTotalCost := f64_zero;
                   Consistency := ConsistencyGlobalSoft |} in
  let t := foldl (take_hop limits) new_task (replicate 9 f64_one) in
  0 <= Hops t <= 5 ∧ Calls t = Hops t ∧ crossedBoundary t = false.
Proof. intros limits. apply (task_hops_bounded limits). simpl. unfold max_int64. lia. Defined.

(** One tenant's discovery takes over another's relationship.  The relationship
    id is derived from the peer alone and the lifecycle treats an id held by
    another tenant as free: after acme has activated a peer, globex discovering
    the same peer replaces acme's relationship in the hot map and in the store,
    and acme's calls to it are refused. *)
Theorem discovery_takes_over_other_tenant :
  let l := onboarded empty_lifecycle "acme" in
  let l' := (console_Discover l 3 "globex" peer_input peer).2 in
  (Active l "acme" peer_id).1 = true ∧
  (console_Discover l 3 "globex" peer_input peer).1 = None ∧
  (Active l' "acme" peer_id).1 = false ∧ (Get l' "acme" peer_id).1 = None ∧
  (rl_TenantID <$> (lc_store l' : gmap string Relationship) !! peer_id) = Some "globex".
Proof. vm_compute. done. Qed.

(** Revocation is not final.  A revoked relationship whose Agent Card changes
    goes back to review and an approving review makes it active again, and an
    activation based on its current version makes it active directly. *)
Theorem revoked_relationship_returns :
  let l := (Revoke (onboarded empty_lifecycle "acme") 3 "acme" peer_id).2 in
  let changed := (ReviewMaterialChange l 4 "acme" peer_id ["endpoint"]).2 in
  (Active l "acme" peer_id).1 = false ∧
  (Active (console_Review changed 5 "acme" peer_id true [] []).2 "acme" peer_id).1 = true ∧
  (Active (console_Review l 5 "acme" peer_id true [] []).2 "acme" peer_id).1 = true.
Proof. vm_compute. done. Qed.

(** A candidate with no verified anchor and no grants. *)
Definition unproven : Relationship :=
  moved (discovered "acme" 1 {| di_URL := "https://peer/card"; di_Name := ""; di_ProjectGrants := [];
                               di_CapabilityGrants := [] |}
           {| card_Name := "planner"; card_URL := ""; card_Version := ""; card_verified := false |})
    StatusCandidate "" 1 1.

(** An approving review skips the trust requirements.  [Review] activates a
    candidate that has neither a verified anchor nor any grant. *)
Theorem review_activates_unproven :
  HasVerifiedAnchor unproven = false ∧ rl_ProjectGrants unproven = [] ∧
  (Review (hot unproven) 2 unproven true).1.2 = None ∧
  (Active (Review (hot unproven) 2 unproven true).2 "acme" (rl_ID unproven)).1 = true.
Proof. vm_compute. done. Qed.
