(* ===== verification/Interaction.v ===== *)
(** * The canonical request: internal/kernel/interaction/types.go, internal/kernel/context.go

    The protocol-neutral request and response that every stage of the pipeline
    reads and writes, and the request context that carries them through it.
    Pointers are options, byte slices and raw JSON are strings, maps are [gmap].
    A stream writer is only present or absent here: what is written to it belongs
    to the executor. *)

From S2P Require Import Prelude GoFloat Snapshot.

Open Scope string_scope.
Open Scope Z_scope.

(** ** Scope and provenance *)

Record PrincipalRef := { pref_Type : string; pref_ID : string }.
Record ResourceRef := { rref_Type : string; rref_ID : string }.

Record FederationContext := {
  fc_RelationshipID : string; fc_ExternalAgentID : string; fc_AssuranceLevel : string;
  fc_DataBoundary : string; fc_TrustAnchorID : string }.

Record Context := {
  ic_Kind : string; ic_Protocol : string; ic_TenantID : string; ic_ProjectID : string;
  ic_SessionID : string; ic_TaskID : string; ic_RootTaskID : string; ic_ParentTaskID : string;
  ic_ParentRequestID : string; ic_TrustBoundary : string; ic_Direction : string;
  ic_Federation : option FederationContext; ic_Caller : PrincipalRef; ic_Target : ResourceRef }.

Definition IsExternalFederated (c : Context) : bool := bool_decide (ic_TrustBoundary c = "external_federated").

(** ** Requests *)

Definition RequestChat : string := "chat".
Definition RequestResponses : string := "responses".
Definition RequestEmbedding : string := "embedding".
Definition RequestRerank : string := "rerank".
Definition RequestAudio : string := "audio".
Definition RequestBatch : string := "batch".
Definition RequestFile : string := "file".
Definition RequestTool : string := "tool".

Record ToolFunction := { tfn_Name : string; tfn_Description : string; tfn_Parameters : string }.
Record ToolDecl := { tld_Type : string; tld_Function : ToolFunction }.

Record ToolCallFunction := { tcf_Name : string; tcf_Arguments : string }.
Record ToolCall := { tc_ID : string; tc_Type : string; tc_Function : ToolCallFunction }.
Record ToolCallDelta := {
  tcd_Index : Z; tcd_ID : string; tcd_Type : string; tcd_Name : string; tcd_Arguments : string }.

Definition ContentImage : string := "image".
Record ContentPart := { part_Kind : string; part_MediaType : string; part_DataURL : string; part_URL : string }.

Record Message := {
  msg_Role : string; msg_Content : string; msg_ToolCallID : string; msg_ToolCalls : list ToolCall;
  msg_CacheControl : string; msg_Parts : list ContentPart }.

Definition message_HasImages (m : Message) : bool :=
  existsb (λ p, bool_decide (part_Kind p = ContentImage)) (msg_Parts m).

Definition AddImage (m : Message) (p : ContentPart) : Message :=
  {| msg_Role := msg_Role m; msg_Content := msg_Content m; msg_ToolCallID := msg_ToolCallID m;
     msg_ToolCalls := msg_ToolCalls m; msg_CacheControl := msg_CacheControl m;
     msg_Parts := (msg_Parts m ++ [{| part_Kind := ContentImage; part_MediaType := part_MediaType p;
                                      part_DataURL := part_DataURL p; part_URL := part_URL p |}])%list |}.

Record ResponsesPayload := {
  rsp_Model : string; rsp_Messages : list Message; rsp_MaxOutputTokens : option Z;
  rsp_Temperature : option float64; rsp_TopP : option float64; rsp_Tools : list ToolDecl;
  rsp_ToolChoice : string }.

Record ChatPayload := {
  chat_Messages : list Message; chat_MaxOutputTokens : option Z; chat_Temperature : option float64;
  chat_TopP : option float64; chat_Stop : list string; chat_Tools : list ToolDecl;
  chat_ToolChoice : string; chat_ResponseFormat : string }.

Record EmbeddingPayload := { emb_Inputs : list string }.

Record RerankPayload := { rr_Query : string; rr_Documents : list string; rr_TopN : option Z }.

Definition AudioSpeech : string := "speech".
Record AudioPayload := {
  au_Operation : string; au_Filename : string; au_MediaType : string; au_Data : string;
  au_Language : string; au_Prompt : string; au_ResponseFormat : string; au_Temperature : option float64;
  au_Input : string; au_Voice : string; au_Instructions : string; au_Speed : option float64 }.

Record BatchPayload := {
  ba_Operation : string; ba_ID : string; ba_InputFileID : string; ba_Endpoint : string;
  ba_CompletionWindow : string; ba_Limit : Z; ba_After : string; ba_Metadata : gmap string string }.

Record FilePayload := {
  fi_Operation : string; fi_ID : string; fi_Purpose : string; fi_Filename : string; fi_MediaType : string;
  fi_Data : string; fi_Limit : Z; fi_After : string }.

Record Provenance := { pn_Source : string; pn_Trusted : bool }.

Record ToolPayload := {
  tl_Name : string; tl_Arguments : string; tl_Result : string; tl_Provenance : Provenance }.

Record UnifiedRequest := {
  ur_Kind : string; ur_Model : string; ur_Stream : bool; ur_Metadata : gmap string string;
  ur_SessionID : string; ur_TaskID : string; ur_RootTaskID : string; ur_ParentTaskID : string;
  ur_Chat : option ChatPayload; ur_Responses : option ResponsesPayload;
  ur_Embedding : option EmbeddingPayload; ur_Rerank : option RerankPayload;
  ur_Audio : option AudioPayload; ur_Batch : option BatchPayload; ur_File : option FilePayload;
  ur_Tool : option ToolPayload; ur_Parameters : gmap string string }.

Definition HasImages (u : UnifiedRequest) : bool :=
  match ur_Chat u with
  | Some chat => existsb message_HasImages (chat_Messages chat)
  | None => false
  end.

(** A message that carries or answers tool calls. *)
Definition tool_message (m : Message) : bool :=
  bool_decide (msg_Role m = "tool") || String.prefix "tool_" (msg_Role m) ||
  (0 <? length (msg_ToolCalls m))%nat.

Definition ToolCalls (u : UnifiedRequest) : bool :=
  if bool_decide (ur_Kind u = RequestTool) || bool_decide (is_Some (ur_Tool u)) then true
  else match ur_Chat u with
       | None => false
       | Some chat => (0 <? length (chat_Tools chat))%nat || existsb tool_message (chat_Messages chat)
       end.

(** ** Responses *)

Record UnifiedUsage := {
  us_InputTokens : Z; us_OutputTokens : Z; us_CacheReadTokens : Z; us_CacheWriteTokens : Z;
  us_CachedInputTokens : Z; us_ReasoningTokens : Z; us_AudioInputTokens : Z; us_AudioOutputTokens : Z;
  us_ImageInputUnits : Z; us_ImageOutputUnits : Z; us_ToolCalls : Z; us_Source : string;
  us_Estimated : bool; us_EstimationMethod : string }.

Definition TotalTokens (u : UnifiedUsage) : Z := wrap64 (us_InputTokens u + us_OutputTokens u).

Record AudioResult := { ar_Text : string; ar_Data : string; ar_ContentType : string }.

Inductive BatchResult := {
  br_ID : string; br_Object : string; br_Endpoint : string; br_InputFileID : string; br_OutputFileID : string;
  br_ErrorFileID : string; br_Status : string; br_CompletionWindow : string; br_Items : list BatchResult;
  br_HasMore : bool; br_FirstID : string; br_LastID : string; br_Raw : string }.

Inductive FileResult := {
  fr_ID : string; fr_Object : string; fr_Bytes : Z; fr_CreatedAt : Z; fr_Filename : string;
  fr_Purpose : string; fr_Deleted : bool; fr_Items : list FileResult; fr_HasMore : bool; fr_Raw : string }.

Record RerankResult := { rk_Index : Z; rk_RelevanceScore : float64; rk_Document : string }.
Record ToolResult := { tres_Name : string; tres_Content : string; tres_Provenance : Provenance }.
Record Choice := { ch_Index : Z; ch_Message : Message }.

Record UnifiedResponse := {
  re_ID : string; re_Model : string; re_StopReason : string; re_Usage : UnifiedUsage; re_CreatedAt : Z;
  re_Choices : list Choice; re_Embeddings : list (list float64); re_Rerank : list RerankResult;
  re_Audio : option AudioResult; re_Batch : option BatchResult; re_File : option FileResult;
  re_RawContent : string; re_ToolResult : option ToolResult }.

Record StreamEvent := {
  se_ID : string; se_Model : string; se_Index : Z; se_Delta : string;
  se_ToolCallDeltas : list ToolCallDelta; se_StopReason : string; se_Usage : option UnifiedUsage;
  se_Final : bool }.

(** ** kernel/context.go *)

Record RequestContext := {
  rc_RequestID : string; rc_ReceivedAt : Z; rc_Snapshot : option TenantRuntimeSnapshot;
  rc_Interaction : option Context; rc_Request : option UnifiedRequest;
  rc_Response : option UnifiedResponse; rc_Usage : option UnifiedUsage; rc_Source : string;
  rc_Key : APIKey; rc_SelectedDeploymentID : string; rc_ProviderCost : option float64;
  rc_Latency : Z; rc_TTFT : Z; rc_Err : option error; rc_CacheHit : bool; rc_CachePending : bool;
  rc_CacheKey : string; rc_StreamWriter : bool; rc_BudgetPolicyID : string; rc_ReservationID : string;
  rc_BudgetEstimated : Z; rc_BudgetSoftWarning : bool; rc_TPMEstimated : Z }.

Definition TenantID (c : RequestContext) : string :=
  match rc_Interaction c with Some i => ic_TenantID i | None => "" end.

Definition ProjectID (c : RequestContext) : string :=
  match rc_Interaction c with Some i => ic_ProjectID i | None => "" end.

Definition SnapshotVersion (c : RequestContext) : Z :=
  match rc_Snapshot c with Some s => sn_Version s | None => 0 end.

(** ** encoding/json, as the gateway relies on it *)

Class JSONCodec := {
  marshal_request : UnifiedRequest → string;
  marshal_tools : list ToolDecl → result string;
  marshal_response : UnifiedResponse → result string;
  unmarshal_response : string → result UnifiedResponse }.

(** A marshalled response parses back to itself. *)
Class JSONCodecLaws `{!JSONCodec} := {
  response_roundtrip r s : marshal_response r = Ok s → unmarshal_response s = Ok r }.

(** ** The groups of fields the stages write *)

(** The cache handlers: response, hit, pending, key, source. *)
Definition set_cache (c : RequestContext) (response : option UnifiedResponse) (hit pending : bool)
    (key source : string) : RequestContext :=
  {| rc_RequestID := rc_RequestID c; rc_ReceivedAt := rc_ReceivedAt c; rc_Snapshot := rc_Snapshot c;
     rc_Interaction := rc_Interaction c; rc_Request := rc_Request c; rc_Response := response;
     rc_Usage := rc_Usage c; rc_Source := source; rc_Key := rc_Key c;
     rc_SelectedDeploymentID := rc_SelectedDeploymentID c; rc_ProviderCost := rc_ProviderCost c;
     rc_Latency := rc_Latency c; rc_TTFT := rc_TTFT c; rc_Err := rc_Err c; rc_CacheHit := hit;
     rc_CachePending := pending; rc_CacheKey := key; rc_StreamWriter := rc_StreamWriter c;
     rc_BudgetPolicyID := rc_BudgetPolicyID c; rc_ReservationID := rc_ReservationID c;
     rc_BudgetEstimated := rc_BudgetEstimated c; rc_BudgetSoftWarning := rc_BudgetSoftWarning c;
     rc_TPMEstimated := rc_TPMEstimated c |}.

(** The budget reservation. *)
Definition set_budget (c : RequestContext) (policyID reservationID : string) (estimated : Z) (warning : bool) :
    RequestContext :=
  {| rc_RequestID := rc_RequestID c; rc_ReceivedAt := rc_ReceivedAt c; rc_Snapshot := rc_Snapshot c;
     rc_Interaction := rc_Interaction c; rc_Request := rc_Request c; rc_Response := rc_Response c;
     rc_Usage := rc_Usage c; rc_Source := rc_Source c; rc_Key := rc_Key c;
     rc_SelectedDeploymentID := rc_SelectedDeploymentID c; rc_ProviderCost := rc_ProviderCost c;
     rc_Latency := rc_Latency c; rc_TTFT := rc_TTFT c; rc_Err := rc_Err c; rc_CacheHit := rc_CacheHit c;
     rc_CachePending := rc_CachePending c; rc_CacheKey := rc_CacheKey c; rc_StreamWriter := rc_StreamWriter c;
     rc_BudgetPolicyID := policyID; rc_ReservationID := reservationID;
     rc_BudgetEstimated := estimated; rc_BudgetSoftWarning := warning;
     rc_TPMEstimated := rc_TPMEstimated c |}.

Definition set_tpm (c : RequestContext) (estimated : Z) : RequestContext :=
  {| rc_RequestID := rc_RequestID c; rc_ReceivedAt := rc_ReceivedAt c; rc_Snapshot := rc_Snapshot c;
     rc_Interaction := rc_Interaction c; rc_Request := rc_Request c; rc_Response := rc_Response c;
     rc_Usage := rc_Usage c; rc_Source := rc_Source c; rc_Key := rc_Key c;
     rc_SelectedDeploymentID := rc_SelectedDeploymentID c; rc_ProviderCost := rc_ProviderCost c;
     rc_Latency := rc_Latency c; rc_TTFT := rc_TTFT c; rc_Err := rc_Err c; rc_CacheHit := rc_CacheHit c;
     rc_CachePending := rc_CachePending c; rc_CacheKey := rc_CacheKey c; rc_StreamWriter := rc_StreamWriter c;
     rc_BudgetPolicyID := rc_BudgetPolicyID c; rc_ReservationID := rc_ReservationID c;
     rc_BudgetEstimated := rc_BudgetEstimated c; rc_BudgetSoftWarning := rc_BudgetSoftWarning c;
     rc_TPMEstimated := estimated |}.

(** Resolution and execution: response, usage, deployment, latency, first token. *)
Definition set_result (c : RequestContext) (response : option UnifiedResponse) (usage : option UnifiedUsage)
    (deployment : string) (latency ttft : Z) : RequestContext :=
  {| rc_RequestID := rc_RequestID c; rc_ReceivedAt := rc_ReceivedAt c; rc_Snapshot := rc_Snapshot c;
     rc_Interaction := rc_Interaction c; rc_Request := rc_Request c; rc_Response := response;
     rc_Usage := usage; rc_Source := rc_Source c; rc_Key := rc_Key c;
     rc_SelectedDeploymentID := deployment; rc_ProviderCost := rc_ProviderCost c;
     rc_Latency := latency; rc_TTFT := ttft; rc_Err := rc_Err c; rc_CacheHit := rc_CacheHit c;
     rc_CachePending := rc_CachePending c; rc_CacheKey := rc_CacheKey c; rc_StreamWriter := rc_StreamWriter c;
     rc_BudgetPolicyID := rc_BudgetPolicyID c; rc_ReservationID := rc_ReservationID c;
     rc_BudgetEstimated := rc_BudgetEstimated c; rc_BudgetSoftWarning := rc_BudgetSoftWarning c;
     rc_TPMEstimated := rc_TPMEstimated c |}.

(** The error the runner captures and the cost accounting derives. *)
Definition set_outcome (c : RequestContext) (err : option error) (cost : option float64) : RequestContext :=
  {| rc_RequestID := rc_RequestID c; rc_ReceivedAt := rc_ReceivedAt c; rc_Snapshot := rc_Snapshot c;
     rc_Interaction := rc_Interaction c; rc_Request := rc_Request c; rc_Response := rc_Response c;
     rc_Usage := rc_Usage c; rc_Source := rc_Source c; rc_Key := rc_Key c;
     rc_SelectedDeploymentID := rc_SelectedDeploymentID c; rc_ProviderCost := cost;
     rc_Latency := rc_Latency c; rc_TTFT := rc_TTFT c; rc_Err := err; rc_CacheHit := rc_CacheHit c;
     rc_CachePending := rc_CachePending c; rc_CacheKey := rc_CacheKey c; rc_StreamWriter := rc_StreamWriter c;
     rc_BudgetPolicyID := rc_BudgetPolicyID c; rc_ReservationID := rc_ReservationID c;
     rc_BudgetEstimated := rc_BudgetEstimated c; rc_BudgetSoftWarning := rc_BudgetSoftWarning c;
     rc_TPMEstimated := rc_TPMEstimated c |}.

(** The guardrails rewrite the payload of the request or of the response. *)
Definition with_payload (c : RequestContext) (request : option UnifiedRequest) (response : option UnifiedResponse) :
    RequestContext :=
  {| rc_RequestID := rc_RequestID c; rc_ReceivedAt := rc_ReceivedAt c; rc_Snapshot := rc_Snapshot c;
     rc_Interaction := rc_Interaction c; rc_Request := request; rc_Response := response;
     rc_Usage := rc_Usage c; rc_Source := rc_Source c; rc_Key := rc_Key c;
     rc_SelectedDeploymentID := rc_SelectedDeploymentID c; rc_ProviderCost := rc_ProviderCost c;
     rc_Latency := rc_Latency c; rc_TTFT := rc_TTFT c; rc_Err := rc_Err c; rc_CacheHit := rc_CacheHit c;
     rc_CachePending := rc_CachePending c; rc_CacheKey := rc_CacheKey c; rc_StreamWriter := rc_StreamWriter c;
     rc_BudgetPolicyID := rc_BudgetPolicyID c; rc_ReservationID := rc_ReservationID c;
     rc_BudgetEstimated := rc_BudgetEstimated c; rc_BudgetSoftWarning := rc_BudgetSoftWarning c;
     rc_TPMEstimated := rc_TPMEstimated c |}.

Definition with_content (m : Message) (content : string) : Message :=
  {| msg_Role := msg_Role m; msg_Content := content; msg_ToolCallID := msg_ToolCallID m;
     msg_ToolCalls := msg_ToolCalls m; msg_CacheControl := msg_CacheControl m; msg_Parts := msg_Parts m |}.

Definition with_messages (p : ChatPayload) (messages : list Message) : ChatPayload :=
  {| chat_Messages := messages; chat_MaxOutputTokens := chat_MaxOutputTokens p; chat_Temperature := chat_Temperature p;
     chat_TopP := chat_TopP p; chat_Stop := chat_Stop p; chat_Tools := chat_Tools p;
     chat_ToolChoice := chat_ToolChoice p; chat_ResponseFormat := chat_ResponseFormat p |}.

Definition with_payloads (u : UnifiedRequest) (chat : option ChatPayload) (file : option FilePayload)
    (tool : option ToolPayload) : UnifiedRequest :=
  {| ur_Kind := ur_Kind u; ur_Model := ur_Model u; ur_Stream := ur_Stream u; ur_Metadata := ur_Metadata u;
     ur_SessionID := ur_SessionID u; ur_TaskID := ur_TaskID u; ur_RootTaskID := ur_RootTaskID u;
     ur_ParentTaskID := ur_ParentTaskID u; ur_Chat := chat; ur_Responses := ur_Responses u;
     ur_Embedding := ur_Embedding u; ur_Rerank := ur_Rerank u; ur_Audio := ur_Audio u; ur_Batch := ur_Batch u;
     ur_File := file; ur_Tool := tool; ur_Parameters := ur_Parameters u |}.

Definition with_output (r : UnifiedResponse) (choices : list Choice) (tool : option ToolResult) : UnifiedResponse :=
  {| re_ID := re_ID r; re_Model := re_Model r; re_StopReason := re_StopReason r; re_Usage := re_Usage r;
     re_CreatedAt := re_CreatedAt r; re_Choices := choices; re_Embeddings := re_Embeddings r;
     re_Rerank := re_Rerank r; re_Audio := re_Audio r; re_Batch := re_Batch r; re_File := re_File r;
     re_RawContent := re_RawContent r; re_ToolResult := tool |}.

(** ** A request, its responses and a codec for the witnesses *)

Definition incoming (id : string) (snapshot : TenantRuntimeSnapshot) (request : UnifiedRequest) : RequestContext :=
  {| rc_RequestID := id; rc_ReceivedAt := 0; rc_Snapshot := Some snapshot;
     rc_Interaction := Some {| ic_Kind := "model"; ic_Protocol := "openai"; ic_TenantID := "t"; ic_ProjectID := "proj";
       ic_SessionID := ""; ic_TaskID := ""; ic_RootTaskID := ""; ic_ParentTaskID := ""; ic_ParentRequestID := "";
       ic_TrustBoundary := "internal"; ic_Direction := "inbound"; ic_Federation := None;
       ic_Caller := {| pref_Type := "application"; pref_ID := "app" |};
       ic_Target := {| rref_Type := "model"; rref_ID := ur_Model request |} |};
     rc_Request := Some request; rc_Response := None; rc_Usage := None; rc_Source := "gateway"; rc_Key := example_key;
     rc_SelectedDeploymentID := ""; rc_ProviderCost := None; rc_Latency := 0; rc_TTFT := 0; rc_Err := None;
     rc_CacheHit := false; rc_CachePending := false; rc_CacheKey := ""; rc_StreamWriter := false;
     rc_BudgetPolicyID := ""; rc_ReservationID := ""; rc_BudgetEstimated := 0; rc_BudgetSoftWarning := false;
     rc_TPMEstimated := 0 |}.

Definition example_request : UnifiedRequest :=
  {| ur_Kind := RequestChat; ur_Model := "gpt"; ur_Stream := false; ur_Metadata := ∅; ur_SessionID := "";
     ur_TaskID := ""; ur_RootTaskID := ""; ur_ParentTaskID := "";
     ur_Chat := Some {| chat_Messages := [{| msg_Role := "user"; msg_Content := "hello"; msg_ToolCallID := "";
                                             msg_ToolCalls := []; msg_CacheControl := ""; msg_Parts := [] |}];
                        chat_MaxOutputTokens := Some 10; chat_Temperature := None; chat_TopP := None; chat_Stop := [];
                        chat_Tools := []; chat_ToolChoice := ""; chat_ResponseFormat := "" |};
     ur_Responses := None; ur_Embedding := None; ur_Rerank := None; ur_Audio := None; ur_Batch := None;
     ur_File := None; ur_Tool := None; ur_Parameters := ∅ |}.

Definition plain_usage : UnifiedUsage :=
  {| us_InputTokens := 3; us_OutputTokens := 4; us_CacheReadTokens := 0; us_CacheWriteTokens := 0;
     us_CachedInputTokens := 0; us_ReasoningTokens := 0; us_AudioInputTokens := 0; us_AudioOutputTokens := 0;
     us_ImageInputUnits := 0; us_ImageOutputUnits := 0; us_ToolCalls := 0; us_Source := ""; us_Estimated := false;
     us_EstimationMethod := "" |}.

#[export] Instance UnifiedUsage_eq_dec : EqDecision UnifiedUsage.
Proof. solve_decision. Defined.

(** The responses that differ in their identifier only. *)
Definition plain_response (id : string) : UnifiedResponse :=
  {| re_ID := id; re_Model := "m"; re_StopReason := "stop"; re_Usage := plain_usage; re_CreatedAt := 0;
     re_Choices := []; re_Embeddings := []; re_Rerank := []; re_Audio := None; re_Batch := None; re_File := None;
     re_RawContent := ""; re_ToolResult := None |}.

(** A codec that supports those. *)
#[export] Instance plain_codec : JSONCodec :=
  {| marshal_request := λ u, ur_Model u;
     marshal_tools := λ _, Ok "[]";
     marshal_response := λ r,
       match re_Choices r, re_Embeddings r, re_Rerank r, re_Audio r, re_Batch r, re_File r, re_ToolResult r with
       | [], [], [], None, None, None, None =>
           if bool_decide (re_Model r = "m") && bool_decide (re_StopReason r = "stop") &&
              bool_decide (re_Usage r = plain_usage) && bool_decide (re_CreatedAt r = 0) &&
              bool_decide (re_RawContent r = "")
           then Ok (re_ID r) else Err (ErrNew "json: unsupported value")
       | _, _, _, _, _, _, _ => Err (ErrNew "json: unsupported value")
       end;
     unmarshal_response := λ s, Ok (plain_response s) |}.

#[export] Instance plain_codec_laws : JSONCodecLaws.
Proof.
  split. intros [id model stop usage created [] [] [] [] [] [] raw []] s; simpl; try done.
  intros H. destruct (_ && _) eqn:E; [|done]. rewrite !andb_true_iff, !bool_decide_eq_true in E. naive_solver.
Qed.
