(* ===== verification/Cache.v ===== *)
(** * The exact and semantic caches: internal/cache, internal/gateway/cache

    [cache.go] builds scoped keys, [memory.go] is the in-process LRU store,
    [semantic.go] the in-process vector index; the handlers of
    internal/gateway/cache decide cacheability and serve hits in the preflight
    stage.

    The LRU keeps a map of keys beside a recency list; both are kept here, the map
    as its key set, an element of the list being identified by its key.  Cumulative
    counters are unbounded.  The order in which Go ranges over a map is an argument
    ([ranged]) of the one operation that depends on it. *)

From Stdlib Require Import Ascii.
From S2P Require Import Prelude GoFloat GoStd Snapshot Pipeline Interaction.

Open Scope string_scope.
Open Scope Z_scope.

(** ** cache.go *)

Definition ErrMiss : error := ErrNew "cache miss".

Record Key := {
  k_TenantID : string; k_ProjectID : string; k_LogicalModel : string; k_NormalizedRequest : string;
  k_NamespaceVersion : Z }.

Definition digit (d : Z) : ascii := ascii_of_nat (48 + Z.to_nat d).

(** The loop of [itoa]; twenty digits are enough for an int64. *)
Fixpoint itoa_digits (fuel : nat) (v : Z) (acc : string) : string :=
  match fuel with
  | O => acc
  | S fuel => if v <=? 0 then acc else itoa_digits fuel (v / 10) (String (digit (v mod 10)) acc)
  end.

Definition itoa (v : Z) : string :=
  if v =? 0 then "0"
  else
    let negative := v <? 0 in
    let v := if negative then wrap64 (- v) else v in
    let digits := itoa_digits 20 v "" in
    if negative then "-" +:+ digits else digits.

Definition colon : ascii := ":"%char.
Definition nul : string := String (ascii_of_nat 0) "".

Definition key_raw (k : Key) : string :=
  k_TenantID k +:+ nul +:+ k_ProjectID k +:+ nul +:+ k_LogicalModel k +:+ nul +:+
  k_NormalizedRequest k +:+ nul +:+ itoa (k_NamespaceVersion k).

Definition key_String (k : Key) : string :=
  "cache:" +:+ k_TenantID k +:+ ":" +:+ k_ProjectID k +:+ ":" +:+ hex_encode (sha256 (bytes_of_string (key_raw k))).

Record Entry := { en_Response : string; en_StoredAt : Z; en_TTL : Z }.

Record Stats := { st_Hits : Z; st_Misses : Z; st_Puts : Z; st_Evictions : Z; st_SavingsTokens : Z }.

Definition no_stats : Stats :=
  {| st_Hits := 0; st_Misses := 0; st_Puts := 0; st_Evictions := 0; st_SavingsTokens := 0 |}.

(** The [Store] interface; reads may move entries, so they return the store. *)
Class CacheStore (S : Type) := {
  cache_Get : S → Z → string → result Entry * S;
  cache_Put : S → string → Entry → option error * S;
  cache_Delete : S → string → option error * S }.

(** ** memory.go *)

Record MemoryStore := {
  ms_capacity : Z; ms_entries : gset string; ms_order : list (string * Entry); ms_stats : Stats }.

Definition NewMemoryStore (capacity : Z) : MemoryStore :=
  {| ms_capacity := if capacity <=? 0 then 1024 else capacity; ms_entries := ∅; ms_order := [];
     ms_stats := no_stats |}.

Definition without (k : string) (l : list (string * Entry)) : list (string * Entry) := filter (λ e, e.1 ≠ k) l.

Definition find_entry (k : string) (l : list (string * Entry)) : option Entry :=
  snd <$> List.find (λ e, bool_decide (e.1 = k)) l.

Definition remove (s : MemoryStore) (k : string) : MemoryStore :=
  {| ms_capacity := ms_capacity s; ms_entries := ms_entries s ∖ {[k]}; ms_order := without k (ms_order s);
     ms_stats := ms_stats s |}.

Definition count (s : MemoryStore) (hits misses puts evictions : Z) : MemoryStore :=
  {| ms_capacity := ms_capacity s; ms_entries := ms_entries s; ms_order := ms_order s;
     ms_stats := {| st_Hits := st_Hits (ms_stats s) + hits; st_Misses := st_Misses (ms_stats s) + misses;
                    st_Puts := st_Puts (ms_stats s) + puts; st_Evictions := st_Evictions (ms_stats s) + evictions;
                    st_SavingsTokens := st_SavingsTokens (ms_stats s) |} |}.

(** The element of [k] at the front, with its entry. *)
Definition to_front (s : MemoryStore) (k : string) (e : Entry) : MemoryStore :=
  {| ms_capacity := ms_capacity s; ms_entries := {[k]} ∪ ms_entries s;
     ms_order := (k, e) :: without k (ms_order s); ms_stats := ms_stats s |}.

Definition expired (e : Entry) (now : Z) : bool :=
  (0 <? en_TTL e) && (en_TTL e <? time_sub now (en_StoredAt e)).

Definition Get (s : MemoryStore) (now : Z) (k : string) : result Entry * MemoryStore :=
  if bool_decide (k ∉ ms_entries s) then (Err ErrMiss, count s 0 1 0 0)
  else match find_entry k (ms_order s) with
       | None => (Err ErrMiss, count s 0 1 0 0)
       | Some e => if expired e now then (Err ErrMiss, count (remove s k) 0 1 0 0)
                   else (Ok e, count (to_front s k e) 1 0 0 0)
       end.

(** [for len(entries) > capacity]: the tail goes, until there is none. *)
Fixpoint evict (fuel : nat) (s : MemoryStore) : MemoryStore :=
  match fuel with
  | O => s
  | S fuel =>
      if ms_capacity s <? Z.of_nat (size (ms_entries s)) then
        match last (ms_order s) with
        | None => s
        | Some (k, _) => evict fuel (count (remove s k) 0 0 0 1)
        end
      else s
  end.

Definition Put (s : MemoryStore) (k : string) (e : Entry) : option error * MemoryStore :=
  if bool_decide (k ∈ ms_entries s) then (None, count (to_front s k e) 0 0 1 0)
  else
    let s := count (to_front s k e) 0 0 1 0 in
    (None, evict (length (ms_order s)) s).

Definition Delete (s : MemoryStore) (k : string) : option error * MemoryStore :=
  (None, if bool_decide (k ∈ ms_entries s) then remove s k else s).

#[export] Instance memory_cache : CacheStore MemoryStore :=
  {| cache_Get := Get; cache_Put := Put; cache_Delete := Delete |}.

(** ** semantic.go *)

Record SemanticKey := {
  sk_TenantID : string; sk_ProjectID : string; sk_Model : string; sk_Dimension : Z; sk_Version : Z;
  sk_SourceKey : string }.

Definition Namespace (k : SemanticKey) : string :=
  "semantic:" +:+ sk_TenantID k +:+ ":" +:+ sk_ProjectID k +:+ ":" +:+ sk_Model k +:+ ":dim:" +:+
  itoa (sk_Dimension k) +:+ ":ver:" +:+ itoa (sk_Version k).

Record SemanticCandidate := { cand_SourceKey : string; cand_Score : float64 }.

Record semanticEntry := {
  sm_namespace : string; sm_sourceKey : string; sm_vector : list float64; sm_storedAt : Z }.

Record MemorySemanticStore := {
  sms_capacity : Z; sms_ttl : Z; sms_entries : gset string; sms_order : list semanticEntry }.

Definition NewMemorySemanticStoreWithConfig (capacity ttl : Z) : MemorySemanticStore :=
  {| sms_capacity := if capacity <=? 0 then 1024 else capacity; sms_ttl := ttl; sms_entries := ∅; sms_order := [] |}.

Definition semanticMapKey (namespace sourceKey : string) : string := namespace +:+ nul +:+ sourceKey.

Definition map_key (e : semanticEntry) : string := semanticMapKey (sm_namespace e) (sm_sourceKey e).

Definition semantic_remove (s : MemorySemanticStore) (mapKey : string) : MemorySemanticStore :=
  {| sms_capacity := sms_capacity s; sms_ttl := sms_ttl s; sms_entries := sms_entries s ∖ {[mapKey]};
     sms_order := filter (λ e, map_key e ≠ mapKey) (sms_order s) |}.

Fixpoint semantic_evict (fuel : nat) (s : MemorySemanticStore) : MemorySemanticStore :=
  match fuel with
  | O => s
  | S fuel =>
      if sms_capacity s <? Z.of_nat (size (sms_entries s)) then
        match last (sms_order s) with
        | None => s
        | Some e => semantic_evict fuel (semantic_remove s (map_key e))
        end
      else s
  end.

Definition semantic_Put (s : MemorySemanticStore) (now : Z) (k : SemanticKey) (vector : list float64) :
    MemorySemanticStore :=
  let e := {| sm_namespace := Namespace k; sm_sourceKey := sk_SourceKey k; sm_vector := vector; sm_storedAt := now |} in
  let front := {| sms_capacity := sms_capacity s; sms_ttl := sms_ttl s;
                  sms_entries := {[map_key e]} ∪ sms_entries s;
                  sms_order := e :: filter (λ e', map_key e' ≠ map_key e) (sms_order s) |} in
  if bool_decide (map_key e ∈ sms_entries s) then front
  else semantic_evict (length (sms_order front)) front.

(** The cosine of two vectors; [None] is NaN. *)
Definition cosine (a b : list float64) : option float64 :=
  if bool_decide (length a ≠ length b) || bool_decide (a = []) then None
  else
    let '(dot, normA, normB) :=
      foldl (λ '(dot, na, nb) '(x, y),
               (f64_add dot (f64_mul x y), f64_add na (f64_mul x x), f64_add nb (f64_mul y y)))
        (f64_zero, f64_zero, f64_zero) (zip a b) in
    if f64_eqb normA f64_zero || f64_eqb normB f64_zero then None
    else
      let score := f64_div dot (f64_mul (f64_sqrt normA) (f64_sqrt normB)) in
      if f64_is_nan score then None else Some score.

(** One step of the insertion sort: the new candidate moves left past smaller
    scores; the sorted prefix is held in reverse. *)
Fixpoint sink (c : SemanticCandidate) (sorted : list SemanticCandidate) : list SemanticCandidate :=
  match sorted with
  | d :: rest => if f64_gtb (cand_Score c) (cand_Score d) then d :: sink c rest else c :: d :: rest
  | [] => [c]
  end.

Definition sort_candidates (l : list SemanticCandidate) : list SemanticCandidate :=
  rev (foldl (λ sorted c, sink c sorted) [] l).

Definition stale (s : MemorySemanticStore) (now : Z) (e : semanticEntry) : bool :=
  (0 <? sms_ttl s) && (sms_ttl s <? time_sub now (sm_storedAt e)).

(** [ranged] is the order in which the collected vectors are ranged over. *)
Definition semantic_Search (ranged : list semanticEntry → list semanticEntry) (s : MemorySemanticStore) (now : Z)
    (k : SemanticKey) (query : list float64) (limit : Z) :
    result (list SemanticCandidate) * MemorySemanticStore :=
  if limit <=? 0 then (Err (ErrNew "search limit must be positive"), s)
  else
    let mine := filter (λ e, sm_namespace e = Namespace k) (sms_order s) in
    let live := filter (λ e, stale s now e = false) mine in
    let s := foldl (λ s e, semantic_remove s (map_key e)) s (filter (λ e, stale s now e = true) mine) in
    let scored := omap (λ e, (λ score, {| cand_SourceKey := sm_sourceKey e; cand_Score := score |}) <$>
                               cosine query (sm_vector e)) (ranged live) in
    (Ok (take (Z.to_nat limit) (sort_candidates scored)), s).

(** ** gateway/cache/handler.go *)

(** [strings.EqualFold] with a constant of ASCII letters that no other rune folds to. *)
Definition equal_fold (a b : string) : bool := bool_decide (to_lower a = to_lower b).

Definition noCacheHeader : string := "no-cache".

Definition defaultCacheableKinds : list string := [RequestChat; RequestEmbedding].

Definition Cacheable (request : UnifiedRequest) (policy : CachePolicy) : bool :=
  if negb (cp_Enabled policy) then false
  else if equal_fold (default "" (ur_Metadata request !! "cache-control")) noCacheHeader then false
  else
    let allowed := match cp_AllowedKinds policy with [] => defaultCacheableKinds | kinds => kinds end in
    if bool_decide (ur_Kind request ∉ allowed) then false
    else if ToolCalls request then false
    else if HasImages request then false
    else if f64_gtb (cp_MaxTemperature policy) f64_zero then
      let temp := default f64_zero (ur_Chat request ≫= chat_Temperature) in
      negb (f64_gtb temp (cp_MaxTemperature policy))
    else true.

Section Handlers.
Context `{!JSONCodec} {S : Type} `{!CacheStore S}.

Definition request_key (c : RequestContext) (request : UnifiedRequest) (policy : CachePolicy) : string :=
  key_String {| k_TenantID := TenantID c; k_ProjectID := ProjectID c; k_LogicalModel := ur_Model request;
                k_NormalizedRequest := marshal_request request; k_NamespaceVersion := cp_NamespaceVersion policy |}.

(** A stored entry that decodes. *)
Definition decoded (r : result Entry) : option UnifiedResponse :=
  match r with
  | Ok e => match unmarshal_response (en_Response e) with Ok resp => Some resp | Err _ => None end
  | Err _ => None
  end.

(** [Handler.Handle]: the directive, the request context and the store.  It
    never fails. *)
Definition Handle (s : S) (now : Z) (c : RequestContext) : Z * RequestContext * S :=
  match rc_Snapshot c, rc_Request c with
  | Some snapshot, Some request =>
      let policy := sn_cache snapshot in
      if negb (Cacheable request policy) then (Continue, c, s)
      else
        let key := request_key c request policy in
        let '(found, s) := cache_Get s now key in
        match decoded found with
        | Some resp => (SkipResolutionExecution, set_cache c (Some resp) true (rc_CachePending c) key "cache", s)
        | None =>
            let s := if is_ok found then (cache_Delete s key).2 else s in
            (Continue, set_cache c (rc_Response c) (rc_CacheHit c) true key (rc_Source c), s)
        end
  | _, _ => (Continue, c, s)
  end.

Definition WriteBack (s : S) (now : Z) (c : RequestContext) (ttl : Z) : option error * S :=
  match rc_Response c with
  | Some resp =>
      if negb (rc_CachePending c) || bool_decide (rc_CacheKey c = "") then (None, s)
      else match marshal_response resp with
           | Err e => (Some e, s)
           | Ok raw => cache_Put s (rc_CacheKey c) {| en_Response := raw; en_StoredAt := now; en_TTL := ttl |}
           end
  | None => (None, s)
  end.

(** ** gateway/cache/semantic.go *)

Definition DefaultSemanticThreshold : float64 := f64_const 85 100.

Record SemanticHandler := {
  sh_Threshold : float64;
  sh_SecurityBlocked : option (RequestContext → bool) }.

Definition threshold (h : SemanticHandler) : float64 :=
  if f64_gtb (sh_Threshold h) f64_zero then sh_Threshold h else DefaultSemanticThreshold.

(** The exact entry of the best candidate, when its score is high enough. *)
Definition semantic_hit (h : SemanticHandler) (s : S) (now : Z) (candidates : list SemanticCandidate) :
    option (string * UnifiedResponse) * S :=
  match candidates with
  | c :: _ =>
      if f64_geb (cand_Score c) (threshold h) then
        let '(found, s) := cache_Get s now (cand_SourceKey c) in
        ((λ resp, (cand_SourceKey c, resp)) <$> decoded found, s)
      else (None, s)
  | [] => (None, s)
  end.

(** The embedder calls a provider: it has a state of its own. *)
Definition semantic_Handle {E : Type} (embed : E → string → result (list float64) * E)
    (ranged : list semanticEntry → list semanticEntry) (h : SemanticHandler)
    (vectors : MemorySemanticStore) (s : S) (em : E) (now : Z) (c : RequestContext) :
    Z * RequestContext * MemorySemanticStore * S * E :=
  match rc_Snapshot c, rc_Request c with
  | Some snapshot, Some request =>
      let policy := sn_cache snapshot in
      if negb (Cacheable request policy) then (Continue, c, vectors, s, em)
      else if match sh_SecurityBlocked h with Some blocked => blocked c | None => false end
      then (Continue, c, vectors, s, em)
      else
        let key := request_key c request policy in
        let '(embedded, em) := embed em (ur_Model request +:+ nul +:+ marshal_request request) in
        match embedded with
        | Err _ | Ok [] => (Continue, c, vectors, s, em)
        | Ok vector =>
            let searchKey source :=
              {| sk_TenantID := TenantID c; sk_ProjectID := ProjectID c; sk_Model := ur_Model request;
                 sk_Dimension := Z.of_nat (length vector); sk_Version := cp_NamespaceVersion policy;
                 sk_SourceKey := source |} in
            match semantic_Search ranged vectors now (searchKey "") vector 1 with
            | (Err _, vectors) => (Continue, c, vectors, s, em)
            | (Ok candidates, vectors) =>
                match semantic_hit h s now candidates with
                | (Some (source, resp), s) =>
                    (SkipResolutionExecution,
                     set_cache c (Some resp) true (rc_CachePending c) source "semantic_cache", vectors, s, em)
                | (None, s) =>
                    (Continue, set_cache c (rc_Response c) (rc_CacheHit c) true key (rc_Source c),
                     semantic_Put vectors now (searchKey key) vector, s, em)
                end
            end
        end
  | _, _ => (Continue, c, vectors, s, em)
  end.
End Handlers.

(** ** The LRU store refines its specification

    The specification is one recency list, most recent first: a put moves its key
    to the front and keeps the first [capacity] entries, a hit moves its key to the
    front, an expired entry is dropped. *)

Definition lru := list (string * Entry).

Definition spec_get (l : lru) (now : Z) (k : string) : result Entry * lru :=
  match find_entry k l with
  | None => (Err ErrMiss, l)
  | Some e => if expired e now then (Err ErrMiss, without k l) else (Ok e, (k, e) :: without k l)
  end.

Definition spec_put (capacity : nat) (l : lru) (k : string) (e : Entry) : lru :=
  take capacity ((k, e) :: without k l).

Inductive cache_op := OpGet (now : Z) (k : string) | OpPut (k : string) (e : Entry) | OpDelete (k : string).

Definition op_key (op : cache_op) : string :=
  match op with OpGet _ k | OpPut k _ | OpDelete k => k end.

(** The answer of an operation: a found entry, a miss, or nothing. *)
Definition cache_exec (s : MemoryStore) (op : cache_op) : result Entry * MemoryStore :=
  match op with
  | OpGet now k => Get s now k
  | OpPut k e => (Err ErrMiss, (Put s k e).2)
  | OpDelete k => (Err ErrMiss, (Delete s k).2)
  end.

Definition spec_exec (capacity : nat) (l : lru) (op : cache_op) : result Entry * lru :=
  match op with
  | OpGet now k => spec_get l now k
  | OpPut k e => (Err ErrMiss, spec_put capacity l k e)
  | OpDelete k => (Err ErrMiss, without k l)
  end.

Definition cache_run (s : MemoryStore) (ops : list cache_op) : MemoryStore := foldl (λ s op, (cache_exec s op).2) s ops.

Definition spec_run (capacity : nat) (l : lru) (ops : list cache_op) : lru :=
  foldl (λ l op, (spec_exec capacity l op).2) l ops.

Definition capacity_of (s : MemoryStore) : nat := Z.to_nat (ms_capacity s).

(** The map mirrors the list, and the list is within capacity. *)
Record lru_wf (s : MemoryStore) : Prop := {
  wf_keys : NoDup (ms_order s).*1;
  wf_entries : ms_entries s = list_to_set (ms_order s).*1;
  wf_length : (length (ms_order s) <= capacity_of s)%nat;
  wf_capacity : 0 < ms_capacity s }.

Lemma without_keys k l : (without k l).*1 = filter (λ x, x ≠ k) l.*1.
Proof.
  unfold without. induction l as [|[x e] l IH]; [done|]. rewrite fmap_cons, !filter_cons. simpl.
  destruct (decide (x ≠ k)); [simpl; by f_equal|done].
Qed.

Lemma without_absent k l : k ∉ l.*1 → without k l = l.
Proof.
  intros Hk. unfold without. induction l as [|[x e] l IH]; [done|]. rewrite filter_cons. simpl in *.
  rewrite decide_True by set_solver. f_equal. apply IH. set_solver.
Qed.

Lemma without_nodup k l : NoDup l.*1 → NoDup (without k l).*1.
Proof. rewrite without_keys. by apply NoDup_filter. Qed.

Lemma without_set k l : list_to_set (without k l).*1 = (list_to_set l.*1 : gset string) ∖ {[k]}.
Proof.
  rewrite without_keys. apply set_eq. intros x.
  rewrite elem_of_difference, !elem_of_list_to_set, list_elem_of_filter, elem_of_singleton. tauto.
Qed.

Lemma front_nodup k e l : NoDup l.*1 → NoDup ((k, e) :: without k l).*1.
Proof.
  intros Hl. rewrite fmap_cons. constructor; [|by apply without_nodup].
  rewrite without_keys, list_elem_of_filter. simpl. tauto.
Qed.

Lemma without_app k l1 l2 : without k (l1 ++ l2)%list = (without k l1 ++ without k l2)%list.
Proof. unfold without. apply filter_app. Qed.

Lemma find_entry_in k l e : find_entry k l = Some e → ∃ l1 l2, l = (l1 ++ (k, e) :: l2)%list.
Proof.
  unfold find_entry. destruct (List.find _ l) as [[x e']|] eqn:E; [|done]. intros [= <-].
  apply List.find_some in E as [Hin Hx]. apply bool_decide_eq_true in Hx. simpl in Hx. subst x.
  by apply in_split.
Qed.

Lemma find_entry_none k l : find_entry k l = None ↔ k ∉ l.*1.
Proof.
  unfold find_entry. induction l as [|[x e] l IH]; simpl; [set_solver|].
  case_bool_decide; subst; simpl; [set_solver|]. rewrite IH. set_solver.
Qed.

Lemma find_entry_mid k e l1 l2 : k ∉ l1.*1 → find_entry k (l1 ++ (k, e) :: l2)%list = Some e.
Proof.
  unfold find_entry. induction l1 as [|[x e'] l1 IH]; simpl; intros Hk.
  - by rewrite bool_decide_true.
  - rewrite bool_decide_false by set_solver. apply IH. set_solver.
Qed.

Lemma without_length k e l1 l2 :
  NoDup (l1 ++ (k, e) :: l2)%list.*1 → S (length (without k (l1 ++ (k, e) :: l2)%list)) = length (l1 ++ (k, e) :: l2)%list.
Proof.
  rewrite fmap_app, fmap_cons, NoDup_app, NoDup_cons. simpl. intros (_ & H1 & H2 & _).
  rewrite without_app. unfold without at 2. rewrite filter_cons, decide_False by (simpl; tauto).
  fold (without k l2). rewrite !without_absent by set_solver. rewrite !length_app. simpl. lia.
Qed.

Lemma wf_size s : lru_wf s → size (ms_entries s) = length (ms_order s).
Proof. intros [H1 H2 _ _]. rewrite H2, size_list_to_set by done. by rewrite length_fmap. Qed.

(** Eviction after a push: the list is cut to the capacity. *)
Lemma evict_cuts s fuel :
  NoDup (ms_order s).*1 → ms_entries s = list_to_set (ms_order s).*1 → 0 < ms_capacity s →
  (length (ms_order s) <= S (capacity_of s))%nat → (0 < fuel)%nat →
  ms_order (evict fuel s) = take (capacity_of s) (ms_order s) ∧
  ms_entries (evict fuel s) = list_to_set (take (capacity_of s) (ms_order s)).*1 ∧
  ms_capacity (evict fuel s) = ms_capacity s.
Proof.
  intros H1 H2 Hc Hl Hf. destruct fuel as [|fuel]; [lia|]. simpl.
  assert (size (ms_entries s) = length (ms_order s)) as Hsz.
  { rewrite H2, size_list_to_set by done. by rewrite length_fmap. }
  unfold capacity_of in *. destruct (Z.ltb_spec (ms_capacity s) (Z.of_nat (size (ms_entries s)))).
  - destruct (ms_order s) as [|x l _] eqn:Eo using rev_ind; [simpl in *; lia|].
    rewrite last_snoc. destruct x as [k e]. rewrite length_app in *. simpl in *.
    rewrite fmap_app, NoDup_app in H1. destruct H1 as (Hn & Hd & _).
    assert (k ∉ l.*1) as Hk by (intros ?; apply (Hd k); set_solver).
    assert (without k (l ++ [(k, e)])%list = l) as Hw.
    { rewrite without_app, (without_absent k l) by done. unfold without. rewrite filter_cons, decide_False by (simpl; tauto).
      by rewrite filter_nil, app_nil_r. }
    assert (take (Z.to_nat (ms_capacity s)) (l ++ [(k, e)])%list = l) as Ht by (rewrite take_app_le, take_ge by lia; done).
    set (s' := count (remove s k) 0 0 0 1). assert (ms_order s' = l) as Ho' by (simpl; by rewrite Eo).
    assert (ms_entries s' = list_to_set l.*1) as He'.
    { simpl. rewrite H2, fmap_app, list_to_set_app_L. simpl. set_solver. }
    assert (evict fuel s' = s') as ->.
    { destruct fuel; [done|]. simpl. rewrite H2, fmap_app, list_to_set_app_L. simpl.
      replace ((list_to_set l.*1 ∪ ({[k]} ∪ ∅)) ∖ {[k]}) with (list_to_set l.*1 : gset string) by set_solver.
      rewrite size_list_to_set, length_fmap by done.
      destruct (Z.ltb_spec (ms_capacity s) (Z.of_nat (length l))); [lia|done]. }
    rewrite Ht, Ho', He'. done.
  - rewrite take_ge by lia. done.
Qed.

Lemma Put_order s k e :
  lru_wf s →
  lru_wf (Put s k e).2 ∧ ms_order (Put s k e).2 = spec_put (capacity_of s) (ms_order s) k e ∧
  ms_capacity (Put s k e).2 = ms_capacity s.
Proof.
  intros Hwf. pose proof Hwf as [H1 H2 H3 H4]. unfold Put, spec_put.
  pose proof (front_nodup k e (ms_order s) H1) as Hn.
  assert ({[k]} ∪ ms_entries s = list_to_set ((k, e) :: without k (ms_order s)).*1) as He.
  { rewrite fmap_cons. simpl. rewrite without_set, H2. apply set_eq. intros x. destruct (decide (x = k)); set_solver. }
  case_bool_decide as Hin; cbn [fst snd].
  - assert (length ((k, e) :: without k (ms_order s)) = length (ms_order s)) as Hlen.
    { rewrite H2, elem_of_list_to_set in Hin. destruct (find_entry k (ms_order s)) as [e'|] eqn:Ef.
      - apply find_entry_in in Ef as (l1 & l2 & Hl). rewrite Hl in *. by apply (without_length k e').
      - by apply find_entry_none in Ef. }
    rewrite take_ge by (simpl in *; lia). split_and!; [|done|done].
    split; simpl; [by rewrite fmap_cons in Hn|done|simpl in *; unfold capacity_of in *; simpl; lia|done].
  - set (s' := count (to_front s k e) 0 0 1 0).
    assert (length (ms_order s') <= S (capacity_of s'))%nat as Hlen.
    { unfold s'. simpl. rewrite without_absent; [unfold capacity_of in *; simpl; lia|].
      by rewrite H2, elem_of_list_to_set in Hin. }
    destruct (evict_cuts s' (length (ms_order s'))) as (Ho & Hent & Hcap); try done; [simpl; lia|].
    split_and!; [|done|done]. split.
    + rewrite Ho, fmap_take. by eapply sublist_NoDup; [|apply sublist_take].
    + by rewrite Hent, Ho.
    + unfold capacity_of. rewrite Ho, Hcap, length_take. unfold capacity_of. lia.
    + by rewrite Hcap.
Qed.

Lemma remove_wf s k : lru_wf s → lru_wf (remove s k).
Proof.
  intros [H1 H2 H3 H4]. split; simpl; [by apply without_nodup|by rewrite without_set, H2| |done].
  unfold capacity_of in *. simpl. etransitivity; [apply length_filter|done].
Qed.

Lemma Get_order s now k :
  lru_wf s →
  lru_wf (Get s now k).2 ∧ ((Get s now k).1, ms_order (Get s now k).2) = spec_get (ms_order s) now k ∧
  ms_capacity (Get s now k).2 = ms_capacity s.
Proof.
  intros Hwf. pose proof Hwf as [H1 H2 H3 H4]. unfold Get, spec_get.
  destruct (find_entry k (ms_order s)) as [e|] eqn:Ef.
  - pose proof Ef as (l1 & l2 & Hl)%find_entry_in.
    rewrite bool_decide_false by (rewrite H2, elem_of_list_to_set, Hl, fmap_app; set_solver).
    destruct (expired e now); simpl; [split_and!; [|done|done]; by destruct (remove_wf s k Hwf)|].
    split_and!; [|done|done]. split; simpl; [by apply (front_nodup k e)| | |done].
    + rewrite without_set, H2. apply set_eq. intros x. destruct (decide (x = k)) as [->|]; [|set_solver].
      rewrite elem_of_union, elem_of_singleton. set_solver.
    + unfold capacity_of in *. simpl. rewrite Hl. rewrite without_length by (by rewrite <- Hl). by rewrite <- Hl.
  - apply find_entry_none in Ef. rewrite bool_decide_true by (by rewrite H2, elem_of_list_to_set).
    simpl. split_and!; [|done|done]. by split.
Qed.

Lemma Delete_order s k :
  lru_wf s →
  lru_wf (Delete s k).2 ∧ ms_order (Delete s k).2 = without k (ms_order s) ∧ ms_capacity (Delete s k).2 = ms_capacity s.
Proof.
  intros Hwf. unfold Delete. case_bool_decide as Hk; simpl; [split_and!; [by apply remove_wf|done|done]|].
  split_and!; [done| |done]. rewrite without_absent; [done|].
  by rewrite (wf_entries s Hwf), elem_of_list_to_set in Hk.
Qed.

Lemma lru_exec_refines s op :
  lru_wf s →
  lru_wf (cache_exec s op).2 ∧
  ((cache_exec s op).1, ms_order (cache_exec s op).2) = spec_exec (capacity_of s) (ms_order s) op ∧
  ms_capacity (cache_exec s op).2 = ms_capacity s.
Proof.
  intros Hwf. destruct op as [now k|k e|k]; cbn [cache_exec spec_exec fst snd]; [by apply Get_order| |].
  - destruct (Put_order s k e Hwf) as (? & -> & ?). done.
  - destruct (Delete_order s k Hwf) as (? & -> & ?). done.
Qed.

Lemma lru_run_refines ops s :
  lru_wf s →
  lru_wf (cache_run s ops) ∧ ms_order (cache_run s ops) = spec_run (capacity_of s) (ms_order s) ops ∧
  ms_capacity (cache_run s ops) = ms_capacity s.
Proof.
  revert s. induction ops as [|op ops IH]; intros s Hwf; [done|].
  destruct (lru_exec_refines s op Hwf) as (Hw & Ho & Hc). destruct (IH _ Hw) as (Hw' & Ho' & Hc').
  unfold cache_run, spec_run in *. cbn [foldl]. split_and!; [done| |by rewrite Hc', Hc].
  rewrite Ho'. unfold capacity_of at 1. rewrite Hc. f_equal. fold (capacity_of s). by rewrite <- Ho.
Qed.

Lemma new_wf capacity : lru_wf (NewMemoryStore capacity).
Proof.
  split; simpl; [constructor|done|unfold capacity_of; simpl; lia|].
  destruct (Z.leb_spec capacity 0); lia.
Qed.

(** C15: The LRU store refines its specification.  From an empty store of any
    configured capacity, every operation after any history answers as the
    recency list does and leaves that list, the map holds exactly its keys, and
    there are never more entries than the capacity. *)
Theorem memory_store_refines_lru capacity ops op :
  let s := cache_run (NewMemoryStore capacity) ops in
  let cap := Z.to_nat (if capacity <=? 0 then 1024 else capacity) in
  ((cache_exec s op).1, ms_order (cache_exec s op).2) = spec_exec cap (spec_run cap [] ops) op ∧
  ms_entries s = list_to_set (spec_run cap [] ops).*1 ∧ NoDup (spec_run cap [] ops).*1 ∧
  (length (spec_run cap [] ops) <= cap)%nat.
Proof.
  intros s cap. destruct (lru_run_refines ops (NewMemoryStore capacity) (new_wf capacity)) as (Hw & Ho & Hc).
  fold s in Hw, Ho, Hc. change (capacity_of (NewMemoryStore capacity)) with cap in Ho. simpl in Ho. rewrite <- Ho.
  assert (capacity_of s = cap) as Hcap by (unfold capacity_of; by rewrite Hc).
  destruct (lru_exec_refines s op Hw) as (_ & He & _). rewrite Hcap in He.
  destruct Hw as [H1 H2 H3 H4]. rewrite Hcap in H3. done.
Qed.

(** *** Retention *)

(** The key is in the list with its entry, behind keys of [touched] only. *)
Definition kept (touched : gset string) (k : string) (e : Entry) (l : lru) : Prop :=
  NoDup l.*1 ∧ ∃ l1 l2, l = (l1 ++ (k, e) :: l2)%list ∧ ∀ x, x ∈ l1.*1 → x ∈ touched.

Lemma kept_without touched k e l k' : k' ≠ k → kept touched k e l → kept touched k e (without k' l).
Proof.
  intros Hne (Hn & l1 & l2 & -> & Ht). split; [by apply without_nodup|].
  exists (without k' l1), (without k' l2). split.
  - rewrite without_app. unfold without at 2. by rewrite filter_cons, decide_True by (simpl; congruence).
  - intros x. rewrite without_keys, list_elem_of_filter. naive_solver.
Qed.

Lemma kept_front touched k e l k' e' :
  k' ≠ k → k' ∈ touched → kept touched k e l → kept touched k e ((k', e') :: without k' l).
Proof.
  intros Hne Hin Hk. pose proof Hk as [Hn _]. destruct (kept_without touched k e l k' Hne Hk) as (_ & l1 & l2 & Hl & Ht).
  split; [by apply front_nodup|]. exists ((k', e') :: l1), l2. rewrite Hl. split; [done|].
  intros x. rewrite fmap_cons, elem_of_cons. naive_solver.
Qed.

Lemma kept_take touched k e l n : (size touched < n)%nat → kept touched k e l → kept touched k e (take n l).
Proof.
  intros Hs (Hn & l1 & l2 & -> & Ht). split; [rewrite fmap_take; by eapply sublist_NoDup; [|apply sublist_take]|].
  assert (length l1 <= size touched)%nat as Hl.
  { rewrite fmap_app, NoDup_app in Hn. destruct Hn as [Hn _].
    rewrite <- (length_fmap fst), <- (size_list_to_set (C := gset string)) by done.
    apply subseteq_size. intros x Hx. apply Ht. by rewrite elem_of_list_to_set in Hx. }
  exists l1, (take (n - length l1 - 1) l2). split; [|done].
  rewrite take_app, take_ge by lia. f_equal.
  destruct (n - length l1)%nat as [|m] eqn:E; [lia|]. simpl. by rewrite Nat.sub_0_r.
Qed.

Lemma kept_exec touched n k e l op :
  (size touched < n)%nat → op_key op ≠ k → op_key op ∈ touched → kept touched k e l →
  kept touched k e (spec_exec n l op).2.
Proof.
  intros Hs Hne Hin Hk. destruct op as [now k'|k' e'|k']; simpl in *.
  - unfold spec_get. destruct (find_entry k' l) as [e'|]; [|done].
    destruct (expired e' now); simpl; [by apply kept_without|by apply kept_front].
  - apply kept_take; [done|]. by apply kept_front.
  - by apply kept_without.
Qed.

(** From any store that is well formed. *)
Lemma retained s k e ops now :
  lru_wf s → Forall (λ op, op_key op ≠ k) ops →
  Z.of_nat (size (list_to_set (op_key <$> ops) : gset string)) < ms_capacity s →
  (Get (cache_run (Put s k e).2 ops) now k).1 = if expired e now then Err ErrMiss else Ok e.
Proof.
  intros Hw Hne Hsize. destruct (Put_order s k e Hw) as (Hws & Hos & Hcs).
  set (s' := (Put s k e).2) in *. destruct (lru_run_refines ops s' Hws) as (Hw' & Ho' & _).
  set (touched := list_to_set (op_key <$> ops) : gset string) in *.
  assert (size touched < capacity_of s)%nat as Hcap by (unfold capacity_of; destruct Hw; lia).
  assert (capacity_of s' = capacity_of s) as Hcc by (unfold capacity_of; by rewrite Hcs).
  assert (kept touched k e (ms_order s')) as H0.
  { rewrite Hos. apply kept_take; [done|]. split; [apply front_nodup; by destruct Hw|].
    exists [], (without k (ms_order s)). split; [done|]. set_solver. }
  assert (kept touched k e (ms_order (cache_run s' ops))) as (Hn & l1 & l2 & Hl & _).
  { rewrite Ho', Hcc. assert (∀ op, op ∈ ops → op_key op ∈ touched) as Hin.
    { intros op Hop. apply elem_of_list_to_set. by apply list_elem_of_fmap_2. }
    clear Ho' Hw' Hsize. revert Hne H0 Hin Hcap. generalize (ms_order s') touched (capacity_of s). clear.
    induction ops as [|op ops IH]; intros l touched n Hne Hk Hin Hcap; [done|].
    apply Forall_cons in Hne as [Hop Hne]. simpl.
    apply (IH _ touched); [done| |set_solver|done]. apply kept_exec; [done|done|set_solver|done]. }
  destruct (Get_order (cache_run s' ops) now k Hw') as (_ & Hg & _).
  assert (find_entry k (ms_order (cache_run s' ops)) = Some e) as Hf.
  { rewrite Hl. apply find_entry_mid. rewrite Hl, fmap_app, NoDup_app in Hn. destruct Hn as (_ & Hd & _).
    intros Hk. apply (Hd k Hk). simpl. set_solver. }
  unfold spec_get in Hg. rewrite Hf in Hg. by destruct (expired e now); simplify_eq.
Qed.

(** *** Round trip: what was written back is replayed *)

Section Replay.
Context `{!JSONCodec} `{!JSONCodecLaws}.

(** A request, whose provider answered [resp], fills the cache. *)
Definition answered (c : RequestContext) (resp : UnifiedResponse) : RequestContext :=
  set_result c (Some resp) (Some (re_Usage resp)) (rc_SelectedDeploymentID c) (rc_Latency c) (rc_TTFT c).

(** The exact-cache life of one request: lookup, then write-back of the answer. *)
Definition exchange (s : MemoryStore) (now : Z) (c : RequestContext) (resp : UnifiedResponse) (ttl : Z) : MemoryStore :=
  let '(directive, c, s) := Handle s now c in
  if directive =? Continue then (WriteBack s now (answered c resp) ttl).2 else s.

(** Two requests that the cache must not tell apart. *)
Definition same_request (c1 c2 : RequestContext) : Prop :=
  TenantID c1 = TenantID c2 ∧ ProjectID c1 = ProjectID c2 ∧ rc_Request c1 = rc_Request c2 ∧
  (sn_cache <$> rc_Snapshot c1) = (sn_cache <$> rc_Snapshot c2).

Definition context_key (c : RequestContext) : string :=
  match rc_Snapshot c, rc_Request c with
  | Some snapshot, Some request => request_key c request (sn_cache snapshot)
  | _, _ => ""
  end.

Definition cacheable_context (c : RequestContext) : bool :=
  match rc_Snapshot c, rc_Request c with
  | Some snapshot, Some request => Cacheable request (sn_cache snapshot)
  | _, _ => false
  end.

Lemma same_request_key c1 c2 :
  same_request c1 c2 → context_key c1 = context_key c2 ∧ cacheable_context c1 = cacheable_context c2.
Proof.
  intros (Ht & Hp & Hr & Hs). unfold context_key, cacheable_context, request_key. rewrite Ht, Hp, Hr.
  destruct (rc_Snapshot c1), (rc_Snapshot c2); simplify_eq/=; [|done].
  destruct (rc_Request c2); [|done]. match goal with H : sn_cache _ = sn_cache _ |- _ => by rewrite H end.
Qed.

Lemma key_nonempty k : key_String k ≠ "".
Proof. unfold key_String. by rewrite str_cons_app. Qed.

Lemma spec_get_in l now k x : x ∈ (spec_get l now k).2 → x ∈ l.
Proof.
  unfold spec_get, without. destruct (find_entry k l) as [e|] eqn:Ef; [|done].
  apply find_entry_in in Ef as (l1 & l2 & ->).
  destruct (expired e now); simpl; rewrite ?elem_of_cons, list_elem_of_filter; set_solver.
Qed.

(** The handler on a cacheable request, by the outcome of the lookup. *)
Lemma Handle_miss_spec s now c :
  cacheable_context c = true → decoded (Get s now (context_key c)).1 = None →
  ∃ s', Handle s now c =
    (Continue, set_cache c (rc_Response c) (rc_CacheHit c) true (context_key c) (rc_Source c), s') ∧
    (lru_wf s → lru_wf s' ∧ ms_capacity s' = ms_capacity s ∧ ∀ x, x ∈ ms_order s' → x ∈ ms_order s).
Proof.
  unfold cacheable_context, context_key, Handle. intros Hc Hd.
  destruct (rc_Snapshot c) as [sn|]; [|done]. destruct (rc_Request c) as [rq|]; [|done].
  rewrite Hc. simpl. destruct (Get s now _) as [found s'] eqn:Eg. simpl in *. rewrite Hd.
  eexists. split; [done|]. intros Hw.
  pose proof (Get_order s now (request_key c rq (sn_cache sn)) Hw) as (Hw' & Hog & Hcap). rewrite Eg in *. simpl in *.
  assert (∀ x, x ∈ ms_order s' → x ∈ ms_order s) as Hin.
  { intros x Hx. apply (spec_get_in _ now (request_key c rq (sn_cache sn))). by rewrite <- Hog. }
  destruct (is_ok found); [|done].
  pose proof (Delete_order s' (request_key c rq (sn_cache sn)) Hw') as (? & Hod & ?).
  split_and!; [done|by etransitivity|]. intros x Hx. apply Hin.
  assert (x ∈ ms_order (Delete s' (request_key c rq (sn_cache sn))).2) as Hx' by exact Hx. clear Hx. rename Hx' into Hx.
  rewrite Hod in Hx. unfold without in Hx. rewrite list_elem_of_filter in Hx. tauto.
Qed.

Lemma Handle_hit s now c resp :
  cacheable_context c = true → decoded (Get s now (context_key c)).1 = Some resp →
  Handle s now c =
    (SkipResolutionExecution, set_cache c (Some resp) true (rc_CachePending c) (context_key c) "cache",
     (Get s now (context_key c)).2).
Proof.
  unfold cacheable_context, context_key, Handle. intros Hc Hd.
  destruct (rc_Snapshot c) as [sn|]; [|done]. destruct (rc_Request c) as [rq|]; [|done].
  rewrite Hc. simpl. destruct (Get s now _) as [found s'] eqn:Eg. simpl in *. by rewrite Hd.
Qed.

Lemma Handle_uncacheable s now c : cacheable_context c = false → Handle s now c = (Continue, c, s).
Proof.
  unfold Handle, cacheable_context. destruct (rc_Snapshot c), (rc_Request c); try done. by intros ->.
Qed.

(** The exact cache replays what it stored.  When a cacheable request missed and
    its provider answer was written back with a time to live, the same request of
    the same tenant and project, within that time and after operations on fewer
    other keys than the capacity, skips resolution and execution and is served
    exactly that response. *)
Theorem cached_response_replayed capacity history now1 c1 resp raw ttl ops now2 c2 :
  let s0 := cache_run (NewMemoryStore capacity) history in
  cacheable_context c1 = true →
  decoded (Get s0 now1 (context_key c1)).1 = None →
  marshal_response resp = Ok raw →
  same_request c1 c2 →
  Forall (λ op, op_key op ≠ context_key c1) ops →
  Z.of_nat (size (list_to_set (op_key <$> ops) : gset string)) < ms_capacity s0 →
  (0 < ttl → time_sub now2 now1 <= ttl) →
  (Handle (cache_run (exchange s0 now1 c1 resp ttl) ops) now2 c2).1 =
    (SkipResolutionExecution, set_cache c2 (Some resp) true (rc_CachePending c2) (context_key c1) "cache").
Proof.
  intros s0 Hc Hd Hm [Hk Hc2]%same_request_key Hne Hsize Httl.
  destruct (lru_run_refines history _ (new_wf capacity)) as (Hw & _ & _). fold s0 in Hw.
  destruct (Handle_miss_spec s0 now1 c1 Hc Hd) as (s1 & Eh & Hs1). destruct (Hs1 Hw) as (Hw1 & Hcap & _).
  unfold exchange. rewrite Eh. simpl. unfold WriteBack. simpl.
  rewrite bool_decide_false by (unfold context_key, cacheable_context in *; repeat case_match; try done; apply key_nonempty).
  rewrite Hm. set (e := {| en_Response := raw; en_StoredAt := now1; en_TTL := ttl |}).
  pose proof (retained s1 (context_key c1) e ops now2 Hw1 Hne ltac:(by rewrite Hcap)) as Hg.
  assert (expired e now2 = false) as Hexp.
  { unfold expired. simpl. destruct (Z.ltb_spec 0 ttl); [|done]. simpl. apply Z.ltb_ge. auto. }
  rewrite Hexp in Hg. rewrite (Handle_hit _ now2 c2 resp); [by rewrite Hk|by rewrite <- Hc2|].
  rewrite <- Hk. cbn [snd]. change (cache_Put s1) with (Put s1). rewrite Hg. simpl. by rewrite (response_roundtrip resp raw Hm).
Qed.

(** *** Isolation: a hit comes from the same tenant and project *)

Record life := { lf_now : Z; lf_ctx : RequestContext; lf_resp : UnifiedResponse; lf_ttl : Z }.

Definition serve (s : MemoryStore) (x : life) : MemoryStore :=
  exchange s (lf_now x) (lf_ctx x) (lf_resp x) (lf_ttl x).

(** Identifiers without the separator of the keys, on a request that has not been
    through the cache stage yet. *)
Definition fresh_scope (c : RequestContext) : Prop :=
  rc_CachePending c = false ∧ colon ∉ String.list_ascii_of_string (TenantID c) ∧
  colon ∉ String.list_ascii_of_string (ProjectID c).

(** The digest of tenant, project, model, request and namespace version. *)
Definition digest (c : RequestContext) : string :=
  match rc_Snapshot c, rc_Request c with
  | Some snapshot, Some request =>
      hex_encode (sha256 (bytes_of_string (key_raw
        {| k_TenantID := TenantID c; k_ProjectID := ProjectID c; k_LogicalModel := ur_Model request;
           k_NormalizedRequest := marshal_request request;
           k_NamespaceVersion := cp_NamespaceVersion (sn_cache snapshot) |})))
  | _, _ => ""
  end.

Lemma context_key_scope c1 c2 :
  fresh_scope c1 → fresh_scope c2 → cacheable_context c1 = true → cacheable_context c2 = true →
  context_key c1 = context_key c2 →
  TenantID c1 = TenantID c2 ∧ ProjectID c1 = ProjectID c2 ∧ digest c1 = digest c2.
Proof.
  intros (_ & Ht1 & Hp1) (_ & Ht2 & Hp2). unfold cacheable_context, context_key, digest, request_key, key_String.
  destruct (rc_Snapshot c1), (rc_Request c1), (rc_Snapshot c2), (rc_Request c2); try done. intros _ _.
  cbn [k_TenantID k_ProjectID]. rewrite !(str_cons_app _ "ache:"), !(str_cons_app _ "che:"), !(str_cons_app _ "he:"),
    !(str_cons_app _ "e:"), !(str_cons_app _ ":"), !(str_cons_app _ ""), !str_nil_app.
  intros [= Hk]. apply split_unique in Hk as [Ht Hk]; [|done..]. by apply split_unique in Hk as [Hp Hk].
Qed.

Lemma spec_put_in n l k e x : x ∈ spec_put n l k e → x = (k, e) ∨ x ∈ l.
Proof.
  unfold spec_put, without. intros Hx. eapply elem_of_subseteq in Hx; [|apply sublist_subseteq, sublist_take].
  rewrite elem_of_cons, list_elem_of_filter in Hx. naive_solver.
Qed.

(** What one request adds to the store. *)
Lemma serve_adds s x :
  lru_wf s → rc_CachePending (lf_ctx x) = false →
  lru_wf (serve s x) ∧
  ∀ k e, (k, e) ∈ ms_order (serve s x) →
    (k, e) ∈ ms_order s ∨
    cacheable_context (lf_ctx x) = true ∧ k = context_key (lf_ctx x) ∧ marshal_response (lf_resp x) = Ok (en_Response e).
Proof.
  intros Hw Hpend. destruct x as [now c resp ttl]. unfold serve, exchange. simpl in *.
  destruct (cacheable_context c) eqn:Hc.
  2: { rewrite Handle_uncacheable by done. simpl. unfold WriteBack. simpl. rewrite Hpend. simpl. eauto. }
  pose proof (Get_order s now (context_key c) Hw) as (Hwg & Hog & _).
  destruct (decoded (Get s now (context_key c)).1) as [r|] eqn:Hd.
  - rewrite (Handle_hit s now c r) by done. simpl. split; [done|]. intros k e Hin. left.
    apply (spec_get_in _ now (context_key c)). by rewrite <- Hog.
  - destruct (Handle_miss_spec s now c Hc Hd) as (s' & -> & Hs'). destruct (Hs' Hw) as (Hw' & _ & Hin'). simpl.
    unfold WriteBack. simpl. destruct (bool_decide (context_key c = "")); simpl; [naive_solver|].
    destruct (marshal_response resp) as [raw|err] eqn:Em; simpl; [|naive_solver].
    change (cache_Put s') with (Put s').
    destruct (Put_order s' (context_key c) {| en_Response := raw; en_StoredAt := now; en_TTL := ttl |} Hw') as (? & -> & _).
    split; [done|]. intros k e [[= -> ->]|Hin]%spec_put_in; [by right|left; auto].
Qed.

(** A cached response never crosses tenants or projects.  Whatever requests were
    served and written back before, a request that is answered from the exact cache
    gets the provider's answer to an earlier request of its own tenant and project
    whose scoped request has the same digest. *)
Theorem cache_hits_stay_in_scope capacity xs now c resp :
  let s := foldl serve (NewMemoryStore capacity) xs in
  Forall (λ x, fresh_scope (lf_ctx x)) xs → fresh_scope c →
  (Handle s now c).1.1 = SkipResolutionExecution → rc_Response (Handle s now c).1.2 = Some resp →
  ∃ x, x ∈ xs ∧ TenantID (lf_ctx x) = TenantID c ∧ ProjectID (lf_ctx x) = ProjectID c ∧
       digest (lf_ctx x) = digest c ∧ lf_resp x = resp.
Proof.
  intros s Hxs Hc Hskip Hresp.
  assert (lru_wf s ∧ ∀ k e, (k, e) ∈ ms_order s → ∃ x, x ∈ xs ∧ cacheable_context (lf_ctx x) = true ∧
            k = context_key (lf_ctx x) ∧ marshal_response (lf_resp x) = Ok (en_Response e)) as [Hw Hfrom].
  { clear Hskip Hresp Hc. subst s. induction xs as [|x xs IH] using rev_ind.
    - simpl. split; [apply new_wf|]. intros k e Hin. simpl in Hin. set_solver.
    - apply Forall_app in Hxs as [Hxs [Hx _]%Forall_cons]. destruct (IH Hxs) as [Hw Hfrom].
      rewrite foldl_app. simpl. destruct (serve_adds (foldl serve (NewMemoryStore capacity) xs) x Hw (proj1 Hx)) as [Hw' Hin].
      split; [done|]. intros k e [(y & ? & ?)%Hfrom|?]%Hin; [exists y|exists x]; set_solver. }
  destruct (cacheable_context c) eqn:Hcc.
  2: { by rewrite Handle_uncacheable in Hskip. }
  pose proof (Get_order s now (context_key c) Hw) as (_ & Hog & _).
  destruct (decoded (Get s now (context_key c)).1) as [r|] eqn:Hd.
  2: { destruct (Handle_miss_spec s now c Hcc Hd) as (s' & Eh & _). by rewrite Eh in Hskip. }
  rewrite (Handle_hit s now c r) in Hresp by done. injection Hresp as ->.
  unfold decoded in Hd. destruct (Get s now (context_key c)) as [[e|?] s'] eqn:Eg; [|done]. simpl in Hog, Hd.
  unfold spec_get in Hog. destruct (find_entry (context_key c) (ms_order s)) as [e'|] eqn:Ef; [|done].
  apply find_entry_in in Ef as (l1 & l2 & Hl). destruct (expired e' now); simplify_eq.
  destruct (Hfrom (context_key c) e') as (x & Hx & Hcx & Hk & Hm); [rewrite Hl; set_solver|].
  rewrite (response_roundtrip _ _ Hm) in Hd. simplify_eq.
  rewrite Forall_forall in Hxs. destruct (context_key_scope c (lf_ctx x)) as (? & ? & ?); auto.
  by exists x.
Qed.
End Replay.

(** *** Witnesses *)

Definition example_cache : CachePolicy :=
  {| cp_Enabled := true; cp_TTLSeconds := 60; cp_NamespaceVersion := 1; cp_AllowedKinds := [];
     cp_MaxTemperature := f64_zero;
     cp_Semantic := {| sc_Enabled := false; sc_Model := ""; sc_Threshold := f64_zero |} |}.

Definition example_context (request : string) : RequestContext :=
  incoming request (NewTenantSnapshot (example_tenant "priority" example_cache [])) example_request.

Definition other_key : cache_op := OpPut "cache:t:proj:0" {| en_Response := "x"; en_StoredAt := 0; en_TTL := 0 |}.

Lemma cached_response_replayed_witness :
  (Handle (cache_run (exchange (cache_run (NewMemoryStore 2) []) 0 (example_context "r1") (plain_response "a") minute)
             [other_key]) second (example_context "r2")).1 =
    (SkipResolutionExecution,
     set_cache (example_context "r2") (Some (plain_response "a")) true false (context_key (example_context "r1")) "cache").
Proof.
  apply (cached_response_replayed 2 [] 0 (example_context "r1") (plain_response "a") "a" minute [other_key] second
           (example_context "r2")).
  - vm_compute. reflexivity.
  - vm_compute. reflexivity.
  - reflexivity.
  - split_and!; reflexivity.
  - apply Forall_singleton. apply (bool_decide_unpack _). vm_compute. exact I.
  - vm_compute. reflexivity.
  - vm_compute. intros _. discriminate.
Defined.

Lemma cache_hits_stay_in_scope_witness :
  let xs := [{| lf_now := 0; lf_ctx := example_context "r1"; lf_resp := plain_response "a"; lf_ttl := minute |}] in
  ∃ x, x ∈ xs ∧ TenantID (lf_ctx x) = "t" ∧ ProjectID (lf_ctx x) = "proj" ∧
       digest (lf_ctx x) = digest (example_context "r2") ∧ lf_resp x = plain_response "a".
Proof.
  intros xs. assert (∀ r, fresh_scope (example_context r)) as Hf.
  { intros r. split; [reflexivity|]. split; apply (bool_decide_unpack _); vm_compute; exact I. }
  apply (cache_hits_stay_in_scope 2 xs second (example_context "r2") (plain_response "a")).
  - apply Forall_singleton, Hf.
  - apply Hf.
  - vm_compute. reflexivity.
  - vm_compute. reflexivity.
Defined.
