(* ===== verification/Metering.v ===== *)
(** * Token estimation: internal/tokenizer, internal/contextguard, internal/app/pipeline.go

    [registry.go] maps model names to encodings and sizes text in tokens,
    [guard.go] compares the estimated input with a context window, and the
    estimators of pipeline.go size a request for the budget, the token meter and
    routing.  Model names are ASCII text, so that lower-casing is bytewise. *)

From S2P Require Import Prelude GoFloat GoStd Snapshot Interaction Rate.

Open Scope string_scope.
Open Scope Z_scope.

(** ** tokenizer/registry.go *)

Definition MethodLocal : string := "local".
Definition MethodConservative : string := "conservative".
Definition RegistryVersion : string := "v1".

Record Encoding := { enc_Name : string; enc_CharsPerToken : float64 }.

Definition knownEncodings : gmap string Encoding :=
  list_to_map [
    ("o200k_base", {| enc_Name := "o200k_base"; enc_CharsPerToken := f64_of_Z 4 |});
    ("cl100k_base", {| enc_Name := "cl100k_base"; enc_CharsPerToken := f64_of_Z 4 |});
    ("claude", {| enc_Name := "claude"; enc_CharsPerToken := f64_const 38 10 |});
    ("llama", {| enc_Name := "llama"; enc_CharsPerToken := f64_of_Z 4 |});
    ("gemini", {| enc_Name := "gemini"; enc_CharsPerToken := f64_of_Z 4 |})].

Definition models : gmap string string :=
  list_to_map [
    ("gpt-4o", "o200k_base"); ("gpt-4.1", "o200k_base"); ("o1", "o200k_base"); ("o3", "o200k_base");
    ("gpt-3.5-turbo", "cl100k_base"); ("gpt-3.5", "cl100k_base"); ("gpt-4", "cl100k_base");
    ("text-embedding-3", "cl100k_base"); ("text-embedding-ada-002", "cl100k_base");
    ("claude", "claude"); ("llama", "llama"); ("mistral", "llama"); ("qwen", "llama"); ("gemini", "gemini")].

Record Result := { r_Tokens : Z; r_Method : string; r_Version : string }.

Record Registry := { rg_version : string; rg_models : gmap string string; rg_encodings : gmap string Encoding }.

Definition New : Registry :=
  {| rg_version := RegistryVersion; rg_models := models; rg_encodings := knownEncodings |}.

Definition Version (r : option Registry) : string :=
  match r with Some r => rg_version r | None => RegistryVersion end.

Definition conservativeEstimateRunes (runes : Z) : Result :=
  let perToken := f64_const 33 10 in
  let safetyFactor := f64_const 12 10 in
  let tokens := f64_to_i64 (f64_ceil (f64_mul (f64_ceil (f64_div (f64_of_Z runes) perToken)) safetyFactor)) in
  {| r_Tokens := if tokens <? 1 then 1 else tokens; r_Method := MethodConservative; r_Version := RegistryVersion |}.

(** The loop of [encodingFor]: [keys] in the order in which the map is ranged. *)
Definition longest_prefix (keys : list string) (model : string) : string :=
  foldl (λ best key,
           let k := to_lower key in
           if String.prefix k model && (String.length best <? String.length k)%nat then key else best) "" keys.

Definition encodingFor (r : Registry) (model : string) : option Encoding :=
  let best := longest_prefix (map_to_list (rg_models r)).*1 (to_lower model) in
  if bool_decide (best = "") then None else rg_encodings r !! default "" (rg_models r !! best).

Definition EstimateRunes (r : option Registry) (model : string) (runes : Z) : Result :=
  match r with
  | None => conservativeEstimateRunes runes
  | Some r =>
      match encodingFor r model with
      | None => conservativeEstimateRunes runes
      | Some encoding =>
          let tokens := f64_to_i64 (f64_ceil (f64_div (f64_of_Z runes) (enc_CharsPerToken encoding))) in
          {| r_Tokens := if tokens <? 1 then 1 else tokens; r_Method := MethodLocal; r_Version := rg_version r |}
      end
  end.

Definition EstimateTokens (r : option Registry) (model text : string) : Result :=
  EstimateRunes r model (rune_count (bytes_of_string text)).

Definition conservativeEstimate (text : string) : Result :=
  conservativeEstimateRunes (rune_count (bytes_of_string text)).

(** ** contextguard/guard.go *)

Definition ErrContextExceeded : error := ErrNew "context window exceeded".

Record GuardResult := {
  gr_InputTokens : Z; gr_ContextWindow : Z; gr_MaxAvailableOutput : Z; gr_Exceeded : bool }.

Record Guard := { g_registry : option Registry; g_strictMode : bool }.

Definition newline_text : string := String (Ascii.ascii_of_nat 10) "".

(** Sums of int64 counters. *)
Definition sum64 {A} (f : A → Z) (start : Z) (l : list A) : Z := foldl (λ acc x, wrap64 (acc + f x)) start l.

Section Estimators.
Context `{!JSONCodec}.

Definition estimateInputTokens (registry : option Registry) (request : UnifiedRequest) (model : string) : Z :=
  let registry := match registry with None => New | Some r => r end in
  let estimate text := r_Tokens (EstimateTokens (Some registry) model text) in
  match ur_Chat request, ur_Embedding request, ur_Audio request, ur_Tool request with
  | Some chat, _, _, _ =>
      let total :=
        foldl (λ total m,
                 sum64 (λ call, estimate (tcf_Name (tc_Function call) +:+ newline_text +:+ tcf_Arguments (tc_Function call)))
                   (wrap64 (total + estimate (msg_Role m +:+ newline_text +:+ msg_Content m +:+ newline_text +:+ msg_ToolCallID m)))
                   (msg_ToolCalls m)) 0 (chat_Messages chat) in
      match chat_Tools chat with
      | [] => total
      | tools => match marshal_tools tools with Ok bytes => wrap64 (total + estimate bytes) | Err _ => total end
      end
  | None, Some embedding, _, _ => sum64 estimate 0 (emb_Inputs embedding)
  | None, None, Some audio, _ =>
      if bool_decide (au_Operation audio = AudioSpeech)
      then estimate (au_Input audio +:+ newline_text +:+ au_Instructions audio) else 0
  | None, None, None, Some tool =>
      estimate (tl_Name tool +:+ newline_text +:+ tl_Arguments tool +:+ newline_text +:+ tl_Result tool)
  | None, None, None, None => 0
  end.

(** [Check] returns the facts and the error together. *)
Definition Check (g : Guard) (request : option UnifiedRequest) (model : string) (contextWindow : Z) :
    GuardResult * option error :=
  let none := {| gr_InputTokens := 0; gr_ContextWindow := 0; gr_MaxAvailableOutput := 0; gr_Exceeded := false |} in
  match request with
  | None => (none, None)
  | Some request =>
      if contextWindow <=? 0 then (none, None)
      else
        let input := estimateInputTokens (g_registry g) request model in
        let maxOutput := wrap64 (contextWindow - input) in
        let maxOutput := if maxOutput <? 0 then 0 else maxOutput in
        let result := {| gr_InputTokens := input; gr_ContextWindow := contextWindow;
                         gr_MaxAvailableOutput := maxOutput; gr_Exceeded := contextWindow <? input |} in
        if g_strictMode g && gr_Exceeded result then (result, Some ErrContextExceeded) else (result, None)
  end.

(** ** The estimators of app/pipeline.go *)

Definition estimateFor (registry : option Registry) (model : string) (runes : Z) : Z :=
  match registry with
  | Some _ => r_Tokens (EstimateRunes registry model runes)
  | None => Z.quot (runes + 3) 4
  end.

Definition len (s : string) : Z := Z.of_nat (String.length s).

(** The characters of a chat transcript. *)
Definition message_chars (m : Message) : Z :=
  sum64 (λ call, len (tcf_Name (tc_Function call)) + len (tcf_Arguments (tc_Function call)))
    (len (msg_Role m) + len (msg_Content m) + len (msg_ToolCallID m)) (msg_ToolCalls m).

Definition estimateTokensWith (request : option UnifiedRequest) (registry : option Registry) : Z :=
  match request with
  | None => 1
  | Some request =>
      let model := ur_Model request in
      let estimate := 1 in
      let estimate :=
        match ur_Chat request with
        | None => estimate
        | Some chat =>
            let chars := sum64 message_chars 0 (chat_Messages chat) in
            let chars :=
              match chat_Tools chat with
              | [] => chars
              | tools => match marshal_tools tools with Ok bytes => wrap64 (chars + len bytes) | Err _ => chars end
              end in
            let estimate := if 0 <? chars then wrap64 (estimate + estimateFor registry model chars) else estimate in
            match chat_MaxOutputTokens chat with
            | Some max => if 0 <? max then wrap64 (estimate + max) else estimate
            | None => estimate
            end
        end in
      let estimate :=
        match ur_Embedding request with
        | None => estimate
        | Some embedding => sum64 (λ input, estimateFor registry model (len input)) estimate (emb_Inputs embedding)
        end in
      let estimate :=
        match ur_Audio request with
        | None => estimate
        | Some audio =>
            wrap64 (estimate + estimateFor registry model (len (au_Input audio) + len (au_Prompt audio) + len (au_Language audio)))
        end in
      match ur_Tool request with
      | None => estimate
      | Some tool =>
          wrap64 (estimate + estimateFor registry model
                    (len (tl_Name tool) + Z.of_nat (length (trim_space (bytes_of_string (tl_Arguments tool))))))
      end
  end.

(** The text a request brings into the context window; [None] is chat, whose size
    the maximal output is added to. *)
Definition payload_chars (request : UnifiedRequest) : Z :=
  match ur_Embedding request, ur_Rerank request, ur_Audio request, ur_Batch request, ur_File request, ur_Tool request with
  | Some embedding, _, _, _, _, _ => sum64 len 0 (emb_Inputs embedding)
  | None, Some rerank, _, _, _, _ => sum64 len (len (rr_Query rerank)) (rr_Documents rerank)
  | None, None, Some audio, _, _, _ =>
      len (au_Data audio) + len (au_Prompt audio) + len (au_Language audio) + len (au_Input audio) + len (au_Instructions audio)
  | None, None, None, Some batch, _, _ => len (ba_InputFileID batch) + len (ba_Endpoint batch) + len (ba_CompletionWindow batch)
  | None, None, None, None, Some file, _ => len (fi_ID file)
  | None, None, None, None, None, Some tool => len (tl_Arguments tool) + len (tl_Result tool)
  | None, None, None, None, None, None => 0
  end.

Definition estimateContextTokensWith (request : option UnifiedRequest) (registry : option Registry) : Z :=
  match request with
  | None => 0
  | Some request =>
      match ur_Chat request with
      | Some chat =>
          let chars := sum64 message_chars 0 (chat_Messages chat) in
          let chars := match marshal_tools (chat_Tools chat) with Ok bytes => wrap64 (chars + len bytes) | Err _ => chars end in
          let base := estimateFor registry (ur_Model request) chars in
          match chat_MaxOutputTokens chat with Some max => wrap64 (base + max) | None => base end
      | None => estimateFor registry (ur_Model request) (payload_chars request)
      end
  end.
End Estimators.

(** ** The encoding of a model does not depend on the order of the map *)

Lemma prefix_same_length a b m :
  String.prefix a m = true → String.prefix b m = true → String.length a = String.length b → a = b.
Proof. rewrite !String.prefix_correct. intros Ha Hb Hl. by rewrite <- Ha, <- Hb, Hl. Qed.

Lemma longest_prefix_step (keys : list string) model best :
  Forall (λ k, to_lower k = k) keys → String.prefix best model = true →
  let r := foldl (λ best key,
             let k := to_lower key in
             if String.prefix k model && (String.length best <? String.length k)%nat then key else best) best keys in
  (r = best ∨ r ∈ keys) ∧ String.prefix r model = true ∧ (String.length best <= String.length r)%nat ∧
  ∀ k, k ∈ keys → String.prefix k model = true → (String.length k <= String.length r)%nat.
Proof.
  revert best. induction keys as [|key keys IH]; intros best Hlow Hbest; simpl; [set_solver|].
  apply Forall_cons in Hlow as [Hk Hlow]. rewrite Hk.
  destruct (String.prefix key model) eqn:Ep; cycle 1.
  - simpl. destruct (IH best Hlow Hbest) as (Hr & Hp & Hl & Hmax).
    split_and!; [set_solver|done|done|]. intros k [->|Hin]%elem_of_cons; [congruence|auto].
  - destruct (Nat.ltb_spec (String.length best) (String.length key)) as [Hlt|Hge]; simpl.
    + destruct (IH key Hlow Ep) as (Hr & Hp & Hl & Hmax).
      split_and!; [set_solver|done|by etransitivity; [apply Nat.lt_le_incl, Hlt|]|].
      intros k [->|Hin]%elem_of_cons; [done|auto].
    + destruct (IH best Hlow Hbest) as (Hr & Hp & Hl & Hmax).
      split_and!; [set_solver|done|done|]. intros k [->|Hin]%elem_of_cons; [by etransitivity|auto].
Qed.

Lemma empty_prefix model : String.prefix "" model = true.
Proof. by destruct model. Qed.

Lemma longest_prefix_spec keys model :
  Forall (λ k, to_lower k = k) keys →
  (longest_prefix keys model = "" ∨ longest_prefix keys model ∈ keys) ∧
  String.prefix (longest_prefix keys model) model = true ∧
  ∀ k, k ∈ keys → String.prefix k model = true → (String.length k <= String.length (longest_prefix keys model))%nat.
Proof. intros Hlow. destruct (longest_prefix_step keys model "" Hlow (empty_prefix model)) as (? & ? & _ & ?). done. Qed.

Lemma longest_prefix_perm keys1 keys2 model :
  keys1 ≡ₚ keys2 → Forall (λ k, to_lower k = k) keys1 → longest_prefix keys1 model = longest_prefix keys2 model.
Proof.
  intros Hp Hlow. pose proof Hlow as Hlow2. rewrite Hp in Hlow2.
  destruct (longest_prefix_spec keys1 model Hlow) as (Hr1 & Hp1 & Hm1).
  destruct (longest_prefix_spec keys2 model Hlow2) as (Hr2 & Hp2 & Hm2).
  apply (prefix_same_length _ _ model); [done..|]. apply Nat.le_antisymm.
  - destruct Hr1 as [Hr|Hin]; [rewrite Hr; simpl; lia|]. apply Hm2; [by rewrite <- Hp|done].
  - destruct Hr2 as [Hr|Hin]; [rewrite Hr; simpl; lia|]. apply Hm1; [by rewrite Hp|done].
Qed.

Lemma models_lower : Forall (λ k, to_lower k = k) (map_to_list models).*1.
Proof. apply (bool_decide_unpack _). vm_compute. exact I. Qed.

(** The registry resolves a model to its longest known prefix, whatever order the
    map is ranged in.  For every order [keys] of the embedded table, the loop ends
    on a known name that is a prefix of the lower-cased model and at least as long
    as every other such name, and [encodingFor] is that name's encoding; it is
    unknown only when no known name is a prefix. *)
Theorem encoding_is_longest_prefix keys model :
  keys ≡ₚ (map_to_list models).*1 →
  let best := longest_prefix keys (to_lower model) in
  (∀ k, k ∈ keys → String.prefix k (to_lower model) = true → (String.length k <= String.length best)%nat) ∧
  String.prefix best (to_lower model) = true ∧
  match encodingFor New model with
  | Some encoding => ∃ name, models !! best = Some name ∧ knownEncodings !! name = Some encoding
  | None => ∀ k, k ∈ keys → String.prefix k (to_lower model) = false
  end.
Proof.
  intros Hperm best. assert (Forall (λ k, to_lower k = k) keys) as Hlow by (rewrite Hperm; apply models_lower).
  destruct (longest_prefix_spec keys (to_lower model) Hlow) as (Hr & Hp & Hmax). fold best in Hr, Hp, Hmax.
  split_and!; [done|done|]. unfold encodingFor. cbn [rg_models rg_encodings New].
  rewrite <- (longest_prefix_perm keys) by done. fold best. case_bool_decide as Hb.
  - intros k Hk. apply not_true_is_false. intros Hkp. specialize (Hmax k Hk Hkp). rewrite Hb in Hmax. simpl in Hmax.
    destruct k; [|simpl in Hmax; lia]. rewrite Hperm in Hk. revert Hk. apply (bool_decide_unpack _). vm_compute. exact I.
  - destruct Hr as [?|Hin]; [done|]. rewrite Hperm in Hin. revert Hin. generalize best. clear. intros best Hin.
    assert (Forall (λ k, ∃ name e, models !! k = Some name ∧ knownEncodings !! name = Some e) (map_to_list models).*1) as Hall.
    { vm_compute (map_to_list models).*1. repeat constructor; eexists _, _; (split; vm_compute; reflexivity). }
    rewrite Forall_forall in Hall. destruct (Hall best Hin) as (name & e & Hn & He). rewrite Hn. simpl. rewrite He. eauto.
Qed.

Lemma encoding_is_longest_prefix_witness :
  let best := longest_prefix (reverse (map_to_list models).*1) "gpt-4o-mini" in
  best = "gpt-4o" ∧
  match encodingFor New "GPT-4o-mini" with
  | Some encoding => ∃ name, models !! best = Some name ∧ knownEncodings !! name = Some encoding
  | None => ∀ k, k ∈ reverse (map_to_list models).*1 → String.prefix k "gpt-4o-mini" = false
  end.
Proof.
  intros best. split; [vm_compute; reflexivity|].
  apply (encoding_is_longest_prefix (reverse (map_to_list models).*1) "GPT-4o-mini"). apply reverse_Permutation.
Defined.

(** ** The context guard *)

(** The strict guard is exact.  For a positive window, the check fails exactly when
    the guard is strict and the estimated input exceeds the window; when it passes in
    strict mode, the input and the output it leaves room for fill the window. *)
Theorem context_guard_exact `{!JSONCodec} g request model window :
  0 < window → in_int64 window → 0 <= estimateInputTokens (g_registry g) request model <= max_int64 →
  let input := estimateInputTokens (g_registry g) request model in
  let '(r, err) := Check g (Some request) model window in
  (err = Some ErrContextExceeded ↔ g_strictMode g = true ∧ window < input) ∧
  (err = None ∨ err = Some ErrContextExceeded) ∧
  (g_strictMode g = true → err = None → gr_InputTokens r + gr_MaxAvailableOutput r = window).
Proof.
  intros Hw Hin Hi input. unfold Check. destruct (Z.leb_spec window 0); [lia|]. fold input in Hi |- *.
  assert (wrap64 (window - input) = window - input) as -> by (apply wrap64_id; unfold_ints; lia).
  destruct (g_strictMode g); simpl; destruct (Z.ltb_spec window input); simpl; split_and!; try naive_solver lia.
  intros _ _. destruct (Z.ltb_spec (window - input) 0); lia.
Qed.

Lemma context_guard_exact_witness :
  let '(r, err) := Check {| g_registry := Some New; g_strictMode := true |} (Some example_request) "gpt-4o" 2 in
  (err = Some ErrContextExceeded ↔ true = true ∧ 2 < 3) ∧
  (err = None ∨ err = Some ErrContextExceeded) ∧
  (true = true → err = None → gr_InputTokens r + gr_MaxAvailableOutput r = 2).
Proof.
  apply (context_guard_exact {| g_registry := Some New; g_strictMode := true |} example_request "gpt-4o" 2).
  - reflexivity.
  - vm_compute. split; discriminate.
  - vm_compute. split; discriminate.
Defined.

(** ** An overflowing estimate *)

Definition huge_request : UnifiedRequest :=
  {| ur_Kind := RequestChat; ur_Model := "gpt-4o"; ur_Stream := false; ur_Metadata := ∅; ur_SessionID := "";
     ur_TaskID := ""; ur_RootTaskID := ""; ur_ParentTaskID := "";
     ur_Chat := Some {| chat_Messages := [{| msg_Role := "user"; msg_Content := "hello"; msg_ToolCallID := "";
                                             msg_ToolCalls := []; msg_CacheControl := ""; msg_Parts := [] |}];
                        chat_MaxOutputTokens := Some max_int64; chat_Temperature := None; chat_TopP := None;
                        chat_Stop := []; chat_Tools := []; chat_ToolChoice := ""; chat_ResponseFormat := "" |};
     ur_Responses := None; ur_Embedding := None; ur_Rerank := None; ur_Audio := None; ur_Batch := None;
     ur_File := None; ur_Tool := None; ur_Parameters := ∅ |}.

(** A request whose output limit is the largest int64 is estimated at a negative
    number of tokens, so the meter admits it unmetered, and settling it empties the
    window of a scope that had almost used up its minute. *)
Theorem huge_output_limit_empties_meter :
  let estimate := estimateTokensWith (Some huge_request) (Some New) in
  let m := (Reserve (NewMeter (Some (λ _ _, 1000))) 0 "t" "p" 990).2 in
  estimate < 0 ∧
  estimateContextTokensWith (Some huge_request) (Some New) < 0 ∧
  t_Allowed (Reserve m second "t" "p" estimate).1.1 = true ∧
  used_at m "t" "p" = 990 ∧
  used_at (Reconcile (Reserve m second "t" "p" estimate).2 second "t" "p" estimate 500) "t" "p" = 0.
Proof. vm_compute. done. Qed.
