(* ===== verification/FinOps.v ===== *)
(** * Pricing and rollups: internal/finops/pricing, internal/finops/aggregate

    [pricing.go] prices a usage fact under a price version and derives chargeback
    rows, [procurement.go] bounds external spend, [aggregate.go] groups ledger
    records by a dimension and totals a root task.  Amounts are [float64]. *)

From S2P Require Import Prelude GoFloat GoStd Coordination Budget Accounting.

Open Scope string_scope.
Open Scope Z_scope.

(** ** pricing.go *)

Definition ErrNoRate : error := ErrNew "no price rate for model/currency".

Record Rate := {
  rt_Model : string; rt_Currency : string; rt_InputPerMillion : float64; rt_OutputPerMillion : float64;
  rt_CacheReadPerMillion : float64; rt_CacheWritePerMillion : float64 }.

Record PriceVersion := { pv_ID : string; pv_PublishedAt : Z; pv_Rates : list Rate }.

Definition usd (model : string) (input output read write : float64) : Rate :=
  {| rt_Model := model; rt_Currency := "USD"; rt_InputPerMillion := input; rt_OutputPerMillion := output;
     rt_CacheReadPerMillion := read; rt_CacheWritePerMillion := write |}.

Definition LiteReferencePriceVersion : PriceVersion :=
  {| pv_ID := "lite-reference-v1"; pv_PublishedAt := zero_time;
     pv_Rates := [
       usd "gpt-4o-mini" (f64_const 15 100) (f64_const 60 100) (f64_const 75 1000) f64_zero;
       usd "gpt-4o" (f64_const 25 10) (f64_of_Z 10) (f64_const 125 100) f64_zero;
       usd "gpt-4.1" (f64_of_Z 2) (f64_of_Z 8) (f64_const 5 10) f64_zero;
       usd "o1-mini" (f64_const 11 10) (f64_const 44 10) (f64_const 55 100) f64_zero;
       usd "claude-3-5-sonnet" (f64_of_Z 3) (f64_of_Z 15) (f64_const 3 10) (f64_const 375 100);
       usd "claude-3-5-haiku" (f64_const 8 10) (f64_of_Z 4) (f64_const 8 100) (f64_of_Z 1)] |}.

Definition version_rate (v : PriceVersion) (model currency : string) : option Rate :=
  List.find (λ r, bool_decide (rt_Model r = model) && bool_decide (rt_Currency r = currency)) (pv_Rates v).

Definition per_million (tokens : Z) (price : float64) : float64 :=
  f64_mul (f64_div (f64_of_Z tokens) (f64_of_Z 1000000)) price.

Definition PriceCached (version : PriceVersion) (model currency : string)
    (inputTokens outputTokens cacheReadTokens cacheWriteTokens : Z) : result float64 :=
  match version_rate version model currency with
  | None => Err ErrNoRate
  | Some rate =>
      let cacheRead := if f64_leb (rt_CacheReadPerMillion rate) f64_zero then rt_InputPerMillion rate
                       else rt_CacheReadPerMillion rate in
      let cacheWrite := if f64_leb (rt_CacheWritePerMillion rate) f64_zero then rt_InputPerMillion rate
                        else rt_CacheWritePerMillion rate in
      let input := per_million inputTokens (rt_InputPerMillion rate) in
      let output := per_million outputTokens (rt_OutputPerMillion rate) in
      let read := per_million cacheReadTokens cacheRead in
      let write := per_million cacheWriteTokens cacheWrite in
      Ok (f64_add (f64_add (f64_add input output) read) write)
  end.

Definition Price (version : PriceVersion) (model currency : string) (inputTokens outputTokens : Z) : result float64 :=
  PriceCached version model currency inputTokens outputTokens 0 0.

Record Amounts := {
  am_ProviderCost : float64; am_CustomerCharge : float64; am_Currency : string; am_PricingVersion : string }.

(** The [Converter] interface. *)
Definition Converter := float64 → string → string → result float64.

Definition StaticConverter (rates : option (gmap string float64)) : Converter := λ amount from to,
  if bool_decide (from = to) then Ok amount
  else match rates with
       | None => Err (ErrNew "no conversion rate source")
       | Some rates =>
           match rates !! (from +:+ "-" +:+ to) with
           | None => Err (ErrNew ("missing conversion rate " +:+ from +:+ " -> " +:+ to))
           | Some rate => Ok (f64_mul amount rate)
           end
       end.

Definition and_ok {A B} (r : result A) (f : A → result B) : result B :=
  match r with Ok a => f a | Err e => Err e end.

Definition Derive (version : PriceVersion) (facts : Facts) (settlementCurrency : string) (converter : option Converter) :
    result Amounts :=
  let currency := if bool_decide (f_ProviderCurrency facts = "") then settlementCurrency else f_ProviderCurrency facts in
  let price cur := PriceCached version (f_LogicalModel facts) cur (f_InputTokens facts) (f_OutputTokens facts)
                     (f_CacheReadTokens facts) (f_CacheWriteTokens facts) in
  and_ok (match f_ProviderCost facts with Some cost => Ok cost | None => price currency end) (λ providerCost,
  and_ok (price settlementCurrency) (λ customerCharge,
  and_ok (match converter with
          | Some convert => convert providerCost currency settlementCurrency
          | None => Ok providerCost
          end) (λ providerCost,
  Ok {| am_ProviderCost := providerCost; am_CustomerCharge := customerCharge; am_Currency := settlementCurrency;
        am_PricingVersion := pv_ID version |}))).

Definition Chargeable (facts : Facts) : bool :=
  bool_decide (f_AttributionTrust facts ∈ ["verified"; "key_bound"; "delegated"]).

Record ChargebackLine := {
  cl_TenantID : string; cl_ProjectID : string; cl_ScopeType : string; cl_ScopeID : string;
  cl_CustomerCharge : float64; cl_PricingVersion : string }.

Definition Chargeback (facts : Facts) (amounts : Amounts) : list ChargebackLine :=
  let line scopeType scopeID :=
    {| cl_TenantID := f_TenantID facts; cl_ProjectID := f_ProjectID facts; cl_ScopeType := scopeType;
       cl_ScopeID := scopeID; cl_CustomerCharge := am_CustomerCharge amounts;
       cl_PricingVersion := am_PricingVersion amounts |} in
  let rows := [line "tenant" (f_TenantID facts); line "project" (f_ProjectID facts)] in
  if negb (Chargeable facts) then rows
  else
    let rows := if bool_decide (f_UserID facts ≠ "") then (rows ++ [line "user" (f_UserID facts)])%list else rows in
    let rows := if bool_decide (f_OrgUnitID facts ≠ "") then (rows ++ [line "org_unit" (f_OrgUnitID facts)])%list else rows in
    if bool_decide (f_AgentID facts ≠ "") then (rows ++ [line "agent" (f_AgentID facts)])%list else rows.

(** ** procurement.go *)

Record ExternalProcurement := { xp_RelationshipID : string; xp_VendorID : string; xp_ExternalCost : float64 }.
Record ExternalProcurementBudget := { xb_RelationshipID : string; xb_Limit : float64; xb_Spent : float64 }.

Definition Admit (b : ExternalProcurementBudget) (external : ExternalProcurement) (taskTotalLimit taskTotalSpent : float64) :
    option error :=
  if f64_gtb (f64_add taskTotalSpent (xp_ExternalCost external)) taskTotalLimit
  then Some (ErrNew "task total budget exceeded")
  else if f64_gtb (f64_add (xb_Spent b) (xp_ExternalCost external)) (xb_Limit b)
  then Some (ErrNew "external procurement budget exceeded")
  else None.

Definition Commit (b : ExternalProcurementBudget) (external : ExternalProcurement) : ExternalProcurementBudget :=
  {| xb_RelationshipID := xb_RelationshipID b; xb_Limit := xb_Limit b;
     xb_Spent := f64_add (xb_Spent b) (xp_ExternalCost external) |}.

(** ** aggregate.go *)

(** accounting.UsageRecord *)
Record UsageRecord := {
  ug_RequestID : string; ug_TenantID : string; ug_ProjectID : string; ug_LogicalModel : string; ug_Status : string;
  ug_InputTokens : Z; ug_OutputTokens : Z; ug_TotalTokens : Z; ug_CacheReadTokens : Z; ug_CacheWriteTokens : Z;
  ug_CachedInputTokens : Z; ug_ReasoningTokens : Z; ug_ToolCalls : Z; ug_Cost : float64;
  ug_UserID : string; ug_OrgUnitID : string; ug_OrgPathSnapshot : string; ug_CostCenterID : string;
  ug_AttributionTrust : string; ug_SessionID : string; ug_TaskID : string; ug_RootTaskID : string;
  ug_ParentTaskID : string; ug_AgentID : string; ug_AgentVersion : string; ug_AgentEndpointID : string }.

Record Row := {
  ro_ScopeType : string; ro_ScopeID : string; ro_TenantID : string; ro_ProjectID : string;
  ro_InputTokens : Z; ro_OutputTokens : Z; ro_Cost : float64; ro_Requests : Z }.

Definition Selector := UsageRecord → string * bool.

Definition by_field (f : UsageRecord → string) : Selector := λ r, (f r, bool_decide (f r ≠ "")).

Definition Scopes : gmap string Selector :=
  list_to_map [("tenant", by_field ug_TenantID); ("project", by_field ug_ProjectID); ("user", by_field ug_UserID);
               ("org_unit", by_field ug_OrgUnitID); ("agent", by_field ug_AgentID); ("task", by_field ug_TaskID)].

Definition new_row (scopeType id : string) (r : UsageRecord) : Row :=
  {| ro_ScopeType := scopeType; ro_ScopeID := id; ro_TenantID := ug_TenantID r; ro_ProjectID := ug_ProjectID r;
     ro_InputTokens := 0; ro_OutputTokens := 0; ro_Cost := f64_zero; ro_Requests := 0 |}.

Definition add_record (row : Row) (r : UsageRecord) : Row :=
  {| ro_ScopeType := ro_ScopeType row; ro_ScopeID := ro_ScopeID row; ro_TenantID := ro_TenantID row;
     ro_ProjectID := ro_ProjectID row;
     ro_InputTokens := wrap64 (ro_InputTokens row + ug_InputTokens r);
     ro_OutputTokens := wrap64 (ro_OutputTokens row + ug_OutputTokens r);
     ro_Cost := f64_add (ro_Cost row) (ug_Cost r); ro_Requests := wrap64 (ro_Requests row + 1) |}.

(** One iteration of [ByDimension] over the index and the order of first use. *)
Definition index_record (scopeType : string) (selectID : Selector) (st : gmap string Row * list string)
    (r : UsageRecord) : gmap string Row * list string :=
  let '(index, order) := st in
  let '(id, present) := selectID r in
  if negb present then (index, order)
  else match index !! id with
       | Some row => (<[id := add_record row r]> index, order)
       | None => (<[id := add_record (new_row scopeType id r) r]> index, (order ++ [id])%list)
       end.

Definition ByDimension (records : list UsageRecord) (scopeType : string) (selectID : Selector) : list Row :=
  let '(index, order) := foldl (index_record scopeType selectID) (∅, []) records in
  omap (λ id, index !! id) order.

Record Hop := {
  hp_TaskID : string; hp_AgentID : string; hp_Cost : float64; hp_InputTokens : Z; hp_OutputTokens : Z }.

Record RootTaskTotal := {
  rtt_InputTokens : Z; rtt_OutputTokens : Z; rtt_Requests : Z; rtt_Cost : float64; rtt_Hops : list Hop }.

Definition root_step (st : RootTaskTotal * gset string) (r : UsageRecord) : RootTaskTotal * gset string :=
  let '(total, seen) := st in
  let hopID := if bool_decide (ug_TaskID r = "") then ug_RequestID r else ug_TaskID r in
  let hop := {| hp_TaskID := ug_TaskID r; hp_AgentID := ug_AgentID r; hp_Cost := ug_Cost r;
                hp_InputTokens := ug_InputTokens r; hp_OutputTokens := ug_OutputTokens r |} in
  ({| rtt_InputTokens := wrap64 (rtt_InputTokens total + ug_InputTokens r);
      rtt_OutputTokens := wrap64 (rtt_OutputTokens total + ug_OutputTokens r);
      rtt_Requests := wrap64 (rtt_Requests total + 1); rtt_Cost := f64_add (rtt_Cost total) (ug_Cost r);
      rtt_Hops := if bool_decide (hopID ∈ seen) then rtt_Hops total else (rtt_Hops total ++ [hop])%list |},
   {[hopID]} ∪ seen).

Definition RootTask (records : list UsageRecord) : RootTaskTotal :=
  (foldl root_step ({| rtt_InputTokens := 0; rtt_OutputTokens := 0; rtt_Requests := 0; rtt_Cost := f64_zero;
                       rtt_Hops := [] |}, ∅) records).1.

Record OptimizationCost := {
  oc_RetryCost : float64; oc_FallbackCost : float64; oc_ExtraCost : float64; oc_CacheSavings : float64 }.

(** The fields of the request record it reads are arguments. *)
Definition QuantifyOptimizationCost (providerCost : option float64) (retryCount fallbackCount : Z)
    (chargePerMillion : float64) (cacheSavedTokens : Z) : OptimizationCost :=
  let savings := if f64_gtb chargePerMillion f64_zero && (0 <? cacheSavedTokens)
                 then per_million cacheSavedTokens chargePerMillion else f64_zero in
  let total := wrap64 (retryCount + fallbackCount) in
  let attempts := wrap64 (total + 1) in
  match providerCost with
  | Some cost =>
      if 1 <? attempts then
        let base := f64_div cost (f64_of_Z attempts) in
        {| oc_RetryCost := f64_mul base (f64_of_Z retryCount); oc_FallbackCost := f64_mul base (f64_of_Z fallbackCount);
           oc_ExtraCost := f64_mul base (f64_of_Z total); oc_CacheSavings := savings |}
      else {| oc_RetryCost := f64_zero; oc_FallbackCost := f64_zero; oc_ExtraCost := f64_zero; oc_CacheSavings := savings |}
  | None => {| oc_RetryCost := f64_zero; oc_FallbackCost := f64_zero; oc_ExtraCost := f64_zero; oc_CacheSavings := savings |}
  end.

(** ** Rollups agree with the ledger *)

Section Rollup.
Context (scopeType : string) (selectID : Selector).

Definition selected (r : UsageRecord) : option string :=
  let '(id, present) := selectID r in if present then Some id else None.

(** The ledger records of one scope. *)
Definition group (id : string) (records : list UsageRecord) : list UsageRecord :=
  filter (λ r, selected r = Some id) records.

(** The reference row of a scope: everything its group adds up to. *)
Definition rolled_up (id : string) (records : list UsageRecord) : option Row :=
  match group id records with
  | [] => None
  | first :: _ => Some (foldl add_record (new_row scopeType id first) (group id records))
  end.

Lemma group_snoc id records r :
  group id (records ++ [r])%list = (group id records ++ if bool_decide (selected r = Some id) then [r] else [])%list.
Proof.
  unfold group. rewrite filter_app. f_equal. rewrite filter_cons, filter_nil.
  case_decide; case_bool_decide; done.
Qed.

Lemma rolled_up_snoc id records r :
  rolled_up id (records ++ [r])%list =
    if bool_decide (selected r = Some id)
    then Some (add_record (default (new_row scopeType id r) (rolled_up id records)) r)
    else rolled_up id records.
Proof.
  unfold rolled_up. rewrite group_snoc. case_bool_decide; [|by rewrite app_nil_r].
  destruct (group id records) as [|first rest]; simpl; [done|]. by rewrite foldl_app.
Qed.

(** The scopes in the order of their first record. *)
Definition scope_order (records : list UsageRecord) : list string := reverse (remove_dups (reverse (omap selected records))).

Lemma scope_order_snoc records r :
  scope_order (records ++ [r])%list =
    match selected r with
    | Some id => if bool_decide (id ∈ omap selected records) then scope_order records else (scope_order records ++ [id])%list
    | None => scope_order records
    end.
Proof.
  unfold scope_order. rewrite omap_app. simpl. destruct (selected r) as [id|]; simpl; [|by rewrite app_nil_r].
  rewrite reverse_app. simpl. case_decide as Hd; rewrite elem_of_reverse in Hd.
  - by rewrite bool_decide_true.
  - by rewrite bool_decide_false, reverse_cons.
Qed.

Lemma rolled_up_none id records : rolled_up id records = None ↔ id ∉ omap selected records.
Proof.
  unfold rolled_up. rewrite list_elem_of_omap. destruct (group id records) as [|r rest] eqn:E.
  - split; [|done]. intros _ (r & Hr & Hs). assert (r ∈ group id records) as Hin by (by apply list_elem_of_filter).
    rewrite E in Hin. set_solver.
  - split; [done|]. intros H. exfalso. apply H. exists r.
    assert (r ∈ group id records) as Hin by (rewrite E; set_solver). apply list_elem_of_filter in Hin. tauto.
Qed.

Lemma index_record_selected index order r :
  index_record scopeType selectID (index, order) r =
    match selected r with
    | None => (index, order)
    | Some id => match index !! id with
                 | Some row => (<[id := add_record row r]> index, order)
                 | None => (<[id := add_record (new_row scopeType id r) r]> index, (order ++ [id])%list)
                 end
    end.
Proof. unfold index_record, selected. by destruct (selectID r) as [id []]. Qed.

(** The index holds the reference rows, the order lists their scopes. *)
Lemma index_exact records :
  (∀ id, (foldl (index_record scopeType selectID) (∅, []) records).1 !! id = rolled_up id records) ∧
  (foldl (index_record scopeType selectID) (∅, []) records).2 = scope_order records.
Proof.
  induction records as [|r records [IHi IHo]] using rev_ind; [done|].
  rewrite foldl_app, scope_order_snoc. cbn [foldl]. destruct (foldl _ _ records) as [index order]. simpl in IHi, IHo.
  subst order. rewrite index_record_selected. setoid_rewrite rolled_up_snoc.
  destruct (selected r) as [id|]; cycle 1.
  { split; [|done]. intros i. by rewrite bool_decide_false. }
  assert (bool_decide (id ∈ omap selected records) = bool_decide (is_Some (index !! id))) as ->.
  { apply bool_decide_ext. rewrite IHi, <- not_eq_None_Some, rolled_up_none.
    destruct (decide (id ∈ omap selected records)); tauto. }
  assert (∀ (i : string) (row : Row),
    <[id := add_record row r]> index !! i =
    if bool_decide (Some id = Some i) then Some (add_record row r) else rolled_up i records) as Hins.
  { intros i row. rewrite lookup_insert, <- IHi. case_decide; case_bool_decide; naive_solver. }
  destruct (index !! id) as [row|] eqn:Ei; simpl; (split; [|done]); intros i; rewrite Hins;
    case_bool_decide; simplify_eq; try done; by rewrite <- IHi, Ei.
Qed.

Lemma add_records_sum (l : list UsageRecord) row :
  ro_InputTokens (foldl add_record row l) = foldl (λ t r, wrap64 (t + ug_InputTokens r)) (ro_InputTokens row) l ∧
  ro_OutputTokens (foldl add_record row l) = foldl (λ t r, wrap64 (t + ug_OutputTokens r)) (ro_OutputTokens row) l ∧
  ro_Cost (foldl add_record row l) = foldl (λ c r, f64_add c (ug_Cost r)) (ro_Cost row) l ∧
  ro_Requests (foldl add_record row l) = foldl (λ n _, wrap64 (n + 1)) (ro_Requests row) l ∧
  ro_ScopeType (foldl add_record row l) = ro_ScopeType row ∧ ro_ScopeID (foldl add_record row l) = ro_ScopeID row.
Proof. revert row. induction l as [|r l IH]; intros row; simpl; [done|]. apply (IH (add_record row r)). Qed.

Lemma rolled_up_id id records row : rolled_up id records = Some row → ro_ScopeID row = id.
Proof.
  unfold rolled_up. destruct (group id records) as [|r l]; [done|]. intros Hr.
  apply (inj Some) in Hr as <-. by destruct (add_records_sum (r :: l) (new_row scopeType id r)) as (_ & _ & _ & _ & _ & ->).
Qed.

(** The dashboard's rollup is the ledger's.  [ByDimension] lists every scope that has
    a record exactly once, in the order of first use, and the row of a scope carries
    the tokens, the cost and the number of exactly the records of that scope. *)
Theorem dimension_rollup_exact records :
  let rows := ByDimension records scopeType selectID in
  ro_ScopeID <$> rows = scope_order records ∧ NoDup (ro_ScopeID <$> rows) ∧
  (∀ id, id ∈ ro_ScopeID <$> rows ↔ group id records ≠ []) ∧
  ∀ row, row ∈ rows →
    let mine := group (ro_ScopeID row) records in
    ro_ScopeType row = scopeType ∧
    ro_InputTokens row = foldl (λ t r, wrap64 (t + ug_InputTokens r)) 0 mine ∧
    ro_OutputTokens row = foldl (λ t r, wrap64 (t + ug_OutputTokens r)) 0 mine ∧
    ro_Cost row = foldl (λ c r, f64_add c (ug_Cost r)) f64_zero mine ∧
    ro_Requests row = foldl (λ n _, wrap64 (n + 1)) 0 mine.
Proof.
  intros rows. assert (rows = omap (λ id, rolled_up id records) (scope_order records)) as Hrows.
  { unfold rows, ByDimension. destruct (index_exact records) as [Hi Ho].
    destruct (foldl _ _ records) as [index order]. simpl in *. rewrite Ho. apply list_omap_ext, Forall_Forall2_diag.
    by apply Forall_true. }
  assert (ro_ScopeID <$> rows = scope_order records) as Hids.
  { rewrite Hrows. assert (∀ id, id ∈ scope_order records → is_Some (rolled_up id records)) as Hall.
    { intros id Hid. apply not_eq_None_Some. rewrite rolled_up_none. unfold scope_order in Hid.
      rewrite elem_of_reverse, elem_of_remove_dups, elem_of_reverse in Hid. naive_solver. }
    clear Hrows. induction (scope_order records) as [|id l IH]; [done|]. simpl.
    destruct (Hall id) as [row Hrow]; [set_solver|]. rewrite Hrow. simpl. f_equal; [by apply rolled_up_id in Hrow|].
    apply IH. set_solver. }
  rewrite Hids. split_and!; [done| | |].
  - unfold scope_order. rewrite reverse_Permutation. apply NoDup_remove_dups.
  - intros id. unfold scope_order. rewrite elem_of_reverse, elem_of_remove_dups, elem_of_reverse.
    pose proof (rolled_up_none id records) as Hn. unfold rolled_up in Hn. destruct (group id records); [naive_solver|].
    split; [done|]. intros _. destruct (decide (id ∈ omap selected records)); [done|naive_solver].
  - intros row Hrow. rewrite Hrows in Hrow. apply list_elem_of_omap in Hrow as (id & _ & Hr).
    rewrite (rolled_up_id _ _ _ Hr). unfold rolled_up in Hr. destruct (group id records) as [|first rest] eqn:E; [done|].
    apply (inj Some) in Hr as <-. destruct (add_records_sum (first :: rest) (new_row scopeType id first)) as (-> & -> & -> & -> & -> & _).
    done.
Qed.
End Rollup.

(** ** Chargeback *)

(** Untrusted labels are never charged back.  Every usage fact gives a tenant and
    a project row; a user, organisation or agent row exists only for an attributed
    fact whose trust level qualifies, names that fact's own non-empty identifier,
    and every row carries the same charge under the same price version. *)
Theorem chargeback_needs_trust facts amounts line :
  line ∈ Chargeback facts amounts →
  cl_TenantID line = f_TenantID facts ∧ cl_CustomerCharge line = am_CustomerCharge amounts ∧
  cl_PricingVersion line = am_PricingVersion amounts ∧
  (cl_ScopeType line = "tenant" ∧ cl_ScopeID line = f_TenantID facts ∨
   cl_ScopeType line = "project" ∧ cl_ScopeID line = f_ProjectID facts ∨
   Chargeable facts = true ∧ cl_ScopeID line ≠ "" ∧
   (cl_ScopeType line, cl_ScopeID line) ∈
     [("user", f_UserID facts); ("org_unit", f_OrgUnitID facts); ("agent", f_AgentID facts)]).
Proof.
  unfold Chargeback. destruct (Chargeable facts); simpl; repeat case_bool_decide; simpl;
    rewrite ?elem_of_app, ?elem_of_cons, ?elem_of_nil; intros Hin;
    repeat match goal with H : _ ∨ _ |- _ => destruct H as [H|H] end; try done; subst line; simpl;
    split_and!; try done; set_solver.
Qed.

Definition tenant_line : ChargebackLine :=
  {| cl_TenantID := "t"; cl_ProjectID := "pr"; cl_ScopeType := "tenant"; cl_ScopeID := "t";
     cl_CustomerCharge := f64_one; cl_PricingVersion := "v" |}.

Lemma chargeback_needs_trust_witness :
  cl_TenantID tenant_line = "t" ∧ cl_CustomerCharge tenant_line = f64_one.
Proof.
  destruct (chargeback_needs_trust (example_facts None)
              {| am_ProviderCost := f64_zero; am_CustomerCharge := f64_one; am_Currency := "USD"; am_PricingVersion := "v" |}
              tenant_line) as (Ht & Hc & _); [by left|]. by split.
Defined.

(** ** The root-task breakdown *)

Definition task_record (request task : string) (tokens : Z) : UsageRecord :=
  {| ug_RequestID := request; ug_TenantID := "t"; ug_ProjectID := "p"; ug_LogicalModel := "m"; ug_Status := "success";
     ug_InputTokens := tokens; ug_OutputTokens := 0; ug_TotalTokens := tokens; ug_CacheReadTokens := 0;
     ug_CacheWriteTokens := 0; ug_CachedInputTokens := 0; ug_ReasoningTokens := 0; ug_ToolCalls := 0; ug_Cost := f64_zero;
     ug_UserID := ""; ug_OrgUnitID := ""; ug_OrgPathSnapshot := ""; ug_CostCenterID := ""; ug_AttributionTrust := "";
     ug_SessionID := ""; ug_TaskID := task; ug_RootTaskID := "root"; ug_ParentTaskID := ""; ug_AgentID := "a";
     ug_AgentVersion := ""; ug_AgentEndpointID := "" |}.

(** A task with two requests: the total counts both, its hop only the first. *)
Theorem root_task_breakdown_incomplete :
  let total := RootTask [task_record "r1" "child" 100; task_record "r2" "child" 50] in
  rtt_InputTokens total = 150 ∧ foldr (λ h n, hp_InputTokens h + n) 0 (rtt_Hops total) = 100.
Proof. vm_compute. done. Qed.
