(* ===== verification/Guardrail.v ===== *)
(** * Guardrails: internal/guardrail, internal/gateway/guardrail

    [builtin/engine.go] evaluates content against keyword and regular-expression
    rules, [handler.go] runs the engine at the fixed input and output stages,
    [groundedness.go] and [external.go] are the advanced checks, and [policy.go]
    with its SQL store publishes the tenant policies.

    Package regexp is an interface ([Regexp]): its engine is not modelled, and no
    theorem here assumes anything of it.  A handler that has an id generator and a
    clock stamps its [n]-th event with [stamp n]. *)

From stdpp Require Import pretty.
From S2P Require Import Prelude GoFloat GoStd GoText Snapshot Accounting Pipeline Interaction.

Open Scope string_scope.
Open Scope Z_scope.

(** ** builtin/engine.go *)

Record Rule := { ru_ID : string; ru_Kind : string; ru_Pattern : string; ru_Action : string; ru_Replacement : string }.

Record Match := { ma_RuleID : string; ma_Action : string; ma_ContentHash : string }.

Record EvalResult := { res_Content : string; res_Blocked : bool; res_Matches : list Match }.

Definition RuleKinds : list string := ["keyword"; "regex"; "secret"; "pii"; "prompt_injection"].
Definition regexKinds : list string := ["regex"; "secret"; "pii"; "prompt_injection"].

(** Package regexp. *)
Class Regexp := {
  regex : Type;
  regex_Compile : string → result regex;
  regex_MatchString : regex → string → bool;
  regex_ReplaceAllString : regex → string → string → string }.

Definition content_hash (content : string) : string := hex_encode (sha256 (bytes_of_string content)).

Section Engine.
Context `{!Regexp}.

Record compiledRule := { cr_rule : Rule; cr_regex : option regex }.

Record Engine := { eng_version : Z; eng_rules : list compiledRule }.

(** One rule of [New]; the replacement has a default. *)
Definition compile_rule (rule : Rule) : result compiledRule :=
  if bool_decide (ru_ID rule = "") || bool_decide (ru_Pattern rule = "") ||
     (negb (bool_decide (ru_Action rule = "block")) && negb (bool_decide (ru_Action rule = "redact")))
  then Err (ErrNew "invalid guardrail rule")
  else if bool_decide (ru_Kind rule ∉ RuleKinds) then Err (ErrNew "unsupported guardrail rule kind")
  else
    let compiled re :=
      {| cr_rule := {| ru_ID := ru_ID rule; ru_Kind := ru_Kind rule; ru_Pattern := ru_Pattern rule;
                       ru_Action := ru_Action rule;
                       ru_Replacement := if bool_decide (ru_Replacement rule = "") then "[redacted]" else ru_Replacement rule |};
         cr_regex := re |} in
    if bool_decide (ru_Kind rule ∈ regexKinds) then
      match regex_Compile (ru_Pattern rule) with
      | Err e => Err e
      | Ok re => Ok (compiled (Some re))
      end
    else Ok (compiled None).

Fixpoint compile_rules (rules : list Rule) : result (list compiledRule) :=
  match rules with
  | [] => Ok []
  | rule :: rest =>
      match compile_rule rule with
      | Err e => Err e
      | Ok c => match compile_rules rest with Err e => Err e | Ok cs => Ok (c :: cs) end
      end
  end.

Definition New (version : Z) (rules : list Rule) : result Engine :=
  match compile_rules rules with
  | Err e => Err e
  | Ok cs => Ok {| eng_version := version; eng_rules := cs |}
  end.

(** Does the rule match, and what it leaves of the content. *)
Definition apply_rule (c : compiledRule) (content : string) : bool * string :=
  let rule := cr_rule c in
  let redact := bool_decide (ru_Action rule = "redact") in
  if bool_decide (ru_Kind rule = "keyword") then
    let matched := contains (ru_Pattern rule) content in
    (matched, if matched && redact then replace_all (ru_Pattern rule) (ru_Replacement rule) content else content)
  else match cr_regex c with
       | Some re =>
           let matched := regex_MatchString re content in
           (matched, if matched && redact then regex_ReplaceAllString re content (ru_Replacement rule) else content)
       | None => (false, content)
       end.

(** The loop of [Evaluate]: the hash is that of the original content. *)
Fixpoint evaluate_rules (rules : list compiledRule) (hash content : string) (matches : list Match) : EvalResult :=
  match rules with
  | [] => {| res_Content := content; res_Blocked := false; res_Matches := matches |}
  | c :: rest =>
      let '(matched, content) := apply_rule c content in
      if matched then
        let matches := (matches ++ [{| ma_RuleID := ru_ID (cr_rule c); ma_Action := ru_Action (cr_rule c);
                                       ma_ContentHash := hash |}])%list in
        if bool_decide (ru_Action (cr_rule c) = "block")
        then {| res_Content := content; res_Blocked := true; res_Matches := matches |}
        else evaluate_rules rest hash content matches
      else evaluate_rules rest hash content matches
  end.

Definition Evaluate (e : Engine) (content : string) : EvalResult :=
  evaluate_rules (eng_rules e) (content_hash content) content [].

Definition Version (e : option Engine) : Z := match e with Some e => eng_version e | None => 0 end.

Definition HasRules (e : option Engine) : bool :=
  match e with Some e => (0 <? length (eng_rules e))%nat | None => false end.

Definition newline : string := String (Ascii.ascii_of_nat 10) "".

Definition EvaluateMessages (e : Engine) (messages : list Message) : EvalResult :=
  Evaluate e (String.concat "" (map (λ m, msg_Role m +:+ newline +:+ msg_Content m +:+ newline) messages)).

(** ** guardrail/policy.go: tests and previews *)

Record TestCase := { case_ID : string; case_Input : string; case_ExpectedBlocked : bool }.
Record TestResult := { tr_TestCaseID : string; tr_Passed : bool; tr_Blocked : bool }.
Record Preview := { prev_Samples : Z; prev_Matched : Z; prev_Blocked : Z }.

Definition RunTests (version : Z) (rules : list Rule) (cases : list TestCase) : result (list TestResult) :=
  match New version rules with
  | Err e => Err e
  | Ok engine =>
      Ok (map (λ c, let blocked := res_Blocked (Evaluate engine (case_Input c)) in
                    {| tr_TestCaseID := case_ID c; tr_Passed := eqb blocked (case_ExpectedBlocked c); tr_Blocked := blocked |})
            cases)
  end.

Definition ImpactPreview (version : Z) (rules : list Rule) (samples : list string) : result Preview :=
  match New version rules with
  | Err e => Err e
  | Ok engine =>
      Ok (foldl (λ p s,
                   let r := Evaluate engine s in
                   {| prev_Samples := prev_Samples p;
                      prev_Matched := if (0 <? length (res_Matches r))%nat then prev_Matched p + 1 else prev_Matched p;
                      prev_Blocked := if res_Blocked r then prev_Blocked p + 1 else prev_Blocked p |})
            {| prev_Samples := Z.of_nat (length samples); prev_Matched := 0; prev_Blocked := 0 |} samples)
  end.
End Engine.

(** ** groundedness.go, external.go *)

Record Verdict := { vd_Passed : bool; vd_Reason : string; vd_Evidence : string }.

Record OverlapChecker := { oc_MinOverlap : float64; oc_Contrast : list string }.

Definition NewOverlapChecker (minOverlap : float64) : OverlapChecker :=
  {| oc_MinOverlap := if f64_leb minOverlap f64_zero then f64_const 2 10 else minOverlap;
     oc_Contrast := ["however"; "on the contrary"; "in fact"; "actually"; "not"; "contradicts"] |}.

(** [strings.Fields] of the lower-cased text, as byte strings. *)
Fixpoint fields_of (fuel : nat) (word : list Z) (bs : list Z) : list (list Z) :=
  let finish := if bool_decide (word = []) then [] else [reverse word] in
  match fuel with
  | O => finish
  | S fuel =>
      match bs with
      | [] => finish
      | b :: rest =>
          match space_front bs with
          | Some after => (finish ++ fields_of fuel [] after)%list
          | None => fields_of fuel (b :: word) rest
          end
      end
  end.

Definition tokenize (value : string) : list (list Z) :=
  let bs := bytes_of_string (to_lower value) in fields_of (S (length bs)) [] bs.

(** The share of the response's tokens that satisfy [p]. *)
Definition token_ratio (p : list Z → bool) (response : string) : float64 :=
  match tokenize response with
  | [] => f64_zero
  | tokens => f64_div (f64_of_Z (Z.of_nat (length (List.filter p tokens)))) (f64_of_Z (Z.of_nat (length tokens)))
  end.

Definition overlapRatio (response : string) (contextSet : gset (list Z)) : float64 :=
  token_ratio (λ t, bool_decide (t ∈ contextSet)) response.

Definition novelRatio (response : string) (contextSet : gset (list Z)) : float64 :=
  token_ratio (λ t, bool_decide (t ∉ contextSet)) response.

Definition containsAny (value : string) (signals : list string) : bool :=
  existsb (λ signal, contains signal (to_lower value)) signals.

Definition overlap_Check (c : OverlapChecker) (response context : string) : Verdict :=
  if bool_decide (trim_space (bytes_of_string context) = [])
  then {| vd_Passed := true; vd_Reason := "no context to ground against"; vd_Evidence := "" |}
  else match tokenize context with
       | [] => {| vd_Passed := true; vd_Reason := "no context tokens"; vd_Evidence := "" |}
       | contextTokens =>
           let contextSet := list_to_set contextTokens in
           if containsAny response (oc_Contrast c) && f64_geb (novelRatio response contextSet) (f64_const 3 10)
           then {| vd_Passed := false; vd_Reason := "response contradicts context"; vd_Evidence := "contrast+novel" |}
           else if f64_ltb (overlapRatio response contextSet) (oc_MinOverlap c) && (3 <? length (tokenize response))%nat
           then {| vd_Passed := false; vd_Reason := "response not grounded in context"; vd_Evidence := "low-overlap" |}
           else {| vd_Passed := true; vd_Reason := "grounded in context"; vd_Evidence := "overlap" |}
       end.

Definition ExternalFailOpen : string := "fail_open".
Definition ExternalFailClosed : string := "fail_closed".
Definition ExternalBypass : string := "bypass".
Definition ErrExternalUnavailable : error := ErrNew "external guardrail unavailable".

Record ExternalResult := { xr_Blocked : bool; xr_Degraded : bool; xr_Reason : string }.

(** [answer] is what the provider returned. *)
Definition EvaluateExternal (mode : string) (answer : result ExternalResult) : result ExternalResult :=
  if bool_decide (mode = ExternalBypass) then Ok {| xr_Blocked := false; xr_Degraded := true; xr_Reason := "bypassed" |}
  else match answer with
       | Ok r => Ok r
       | Err _ =>
           if bool_decide (mode = ExternalFailOpen)
           then Ok {| xr_Blocked := false; xr_Degraded := true; xr_Reason := "provider_unavailable" |}
           else Err ErrExternalUnavailable
       end.

(** ** gateway/guardrail/handler.go *)

Record SecurityEvent := {
  sev_ID : string; sev_TenantID : string; sev_ProjectID : string; sev_RequestID : string; sev_PolicyID : string;
  sev_RuleID : string; sev_Action : string; sev_ContentHash : string; sev_SnapshotVersion : Z; sev_OccurredAt : Z }.

Class SecurityEventStore (S : Type) := { security_Create : S → string → SecurityEvent → option error * S }.

Record JudgeResult := { jr_Passed : bool; jr_Reason : string; jr_Score : float64 }.

(** A judge may call a provider: it has a state of its own. *)
Class Judge (J : Type) := { judge_Verdict : J → string → string → result JudgeResult * J }.

Section Handler.
Context `{!Regexp} {K S J : Type} `{!EventSink K} `{!SecurityEventStore S} `{!Judge J}.
Context (wired : bool) (stamp : nat → string * Z).

(** *** The engine cache *)

Definition engine_limit : nat := 32.

(** The fingerprint of a policy, in hexadecimal. *)
Definition engine_digest (snapshot : TenantRuntimeSnapshot) (policy : GuardrailPolicy) : string :=
  let header := pretty (sn_Version snapshot) +:+ "|" +:+ pretty (gp_SecurityEpoch policy) +:+ "|" +:+
                pretty (Z.of_nat (length (gp_Rules policy))) in
  let fingerprint :=
    foldl (λ fp rule, sha256 (fp ++ bytes_of_string (gl_ID rule +:+ gl_Kind rule +:+ gl_Pattern rule +:+
                                                      gl_Action rule +:+ gl_Replacement rule))%list)
      (sha256 (bytes_of_string header)) (gp_Rules policy) in
  hex_encode fingerprint.

Definition engineCacheKey (snapshot : TenantRuntimeSnapshot) (policy : GuardrailPolicy) : string :=
  sn_TenantID snapshot +:+ ":" +:+ engine_digest snapshot policy.

Definition put_engine (items : gmap string Engine) (key : string) (e : Engine) : gmap string Engine :=
  if (engine_limit <=? size items)%nat then {[key := e]} else <[key := e]> items.

Definition policy_rules (policy : GuardrailPolicy) : list Rule :=
  map (λ r, {| ru_ID := gl_ID r; ru_Kind := gl_Kind r; ru_Pattern := gl_Pattern r; ru_Action := gl_Action r;
               ru_Replacement := gl_Replacement r |}) (gp_Rules policy).

Definition CompileEngine (items : gmap string Engine) (snapshot : TenantRuntimeSnapshot) (fallback : option Engine) :
    result Engine * gmap string Engine :=
  let policy := sn_guardrail snapshot in
  if bool_decide (gp_Mode policy ≠ "") then
    let key := engineCacheKey snapshot policy in
    match items !! key with
    | Some cached => (Ok cached, items)
    | None =>
        match New (sn_Version snapshot) (policy_rules policy) with
        | Err e => (Err e, items)
        | Ok engine => (Ok engine, put_engine items key engine)
        end
    end
  else match fallback with
       | None => (Err (ErrNew "guardrail engine is not configured"), items)
       | Some e => (Ok e, items)
       end.

(** *** The handler *)

Record GuardHandler := {
  gh_Engine : option Engine; gh_Output : bool; gh_Groundedness : option OverlapChecker; gh_Action : string }.

(** What a handler invocation changes: the events, and the judge. *)
Record guard_state := {
  gs_next : nat; gs_sink : option K; gs_security : option S; gs_judge : option J; gs_engines : gmap string Engine }.

Definition advance (st : guard_state) (sink : option K) (security : option S) : guard_state :=
  {| gs_next := (gs_next st + 1)%nat; gs_sink := sink; gs_security := security; gs_judge := gs_judge st;
     gs_engines := gs_engines st |}.

Definition set_engines (st : guard_state) (engines : gmap string Engine) : guard_state :=
  {| gs_next := gs_next st; gs_sink := gs_sink st; gs_security := gs_security st; gs_judge := gs_judge st;
     gs_engines := engines |}.

Definition set_judge (st : guard_state) (judge : J) : guard_state :=
  {| gs_next := gs_next st; gs_sink := gs_sink st; gs_security := gs_security st; gs_judge := Some judge;
     gs_engines := gs_engines st |}.

Definition match_event (c : RequestContext) (id : string) (now : Z) (m : Match) : DomainEvent :=
  {| ev_ID := id; ev_Kind := "guardrail.match"; ev_OccurredAt := now; ev_TenantID := TenantID c;
     ev_ProjectID := ProjectID c; ev_RequestID := rc_RequestID c;
     ev_Attributes := [("rule_id", ma_RuleID m); ("action", ma_Action m); ("content_hash", ma_ContentHash m)] |}.

Definition security_event (c : RequestContext) (id : string) (now : Z) (policy rule action hash : string) : SecurityEvent :=
  {| sev_ID := id; sev_TenantID := TenantID c; sev_ProjectID := ProjectID c; sev_RequestID := rc_RequestID c;
     sev_PolicyID := policy; sev_RuleID := rule; sev_Action := action; sev_ContentHash := hash;
     sev_SnapshotVersion := SnapshotVersion c; sev_OccurredAt := now |}.

Definition observed (st : guard_state) : bool :=
  wired && (bool_decide (is_Some (gs_sink st)) || bool_decide (is_Some (gs_security st))).

(** The events of one match: the sink's error is ignored, the store's is not. *)
Definition record_match (c : RequestContext) (m : Match) (st : guard_state) : option error * guard_state :=
  if negb (observed st) then (None, st)
  else
    let '(id, now) := stamp (gs_next st) in
    let sink := (λ k, (sink_Emit k (match_event c id now m)).2) <$> gs_sink st in
    match gs_security st with
    | None => (None, advance st sink None)
    | Some s =>
        let '(err, s) := security_Create s (TenantID c)
                           (security_event c id now "compiled" (ma_RuleID m) (ma_Action m) (ma_ContentHash m)) in
        (err, advance st sink (Some s))
    end.

Definition GUARDRAIL_BLOCKED (msg : string) : error := ErrKernel "GUARDRAIL_BLOCKED" msg false.
Definition OUTPUT_GUARDRAIL_BLOCKED (msg : string) : error := ErrKernel "OUTPUT_GUARDRAIL_BLOCKED" msg false.

Fixpoint handle_matches (c : RequestContext) (blocked : bool) (matches : list Match) (st : guard_state) :
    option error * guard_state :=
  match matches with
  | [] => (None, st)
  | m :: rest =>
      match record_match c m st with
      | (Some err, st) => (Some err, st)
      | (None, st) =>
          if blocked then (Some (GUARDRAIL_BLOCKED "content blocked by policy"), st) else handle_matches c blocked rest st
      end
  end.

Definition handleMatches (c : RequestContext) (r : EvalResult) (st : guard_state) : option error * guard_state :=
  handle_matches c (res_Blocked r) (res_Matches r) st.

(** Model-generated arguments: any match is refused with [refusal]. *)
Fixpoint guard_calls (e : Engine) (c : RequestContext) (refusal : error) (calls : list ToolCall) (st : guard_state) :
    option error * guard_state :=
  match calls with
  | [] => (None, st)
  | call :: rest =>
      let arguments := tcf_Arguments (tc_Function call) in
      if bool_decide (arguments = "") then guard_calls e c refusal rest st
      else
        let r := Evaluate e arguments in
        match res_Matches r with
        | [] => guard_calls e c refusal rest st
        | _ :: _ =>
            match handleMatches c r st with
            | (Some err, st) => (Some err, st)
            | (None, st) => (Some refusal, st)
            end
        end
  end.

(** One message: redacted in place, then its tool calls are scanned. *)
Definition guard_message (e : Engine) (c : RequestContext) (refusal : error) (m : Message) (st : guard_state) :
    option error * Message * guard_state :=
  let r := Evaluate e (msg_Content m) in
  let m := with_content m (res_Content r) in
  match handleMatches c r st with
  | (Some err, st) => (Some err, m, st)
  | (None, st) => let '(err, st) := guard_calls e c refusal (msg_ToolCalls m) st in (err, m, st)
  end.

Fixpoint guard_messages (e : Engine) (c : RequestContext) (refusal : error) (ms : list Message) (st : guard_state) :
    option error * list Message * guard_state :=
  match ms with
  | [] => (None, [], st)
  | m :: rest =>
      match guard_message e c refusal m st with
      | (Some err, m, st) => (Some err, m :: rest, st)
      | (None, m, st) => let '(err, rest, st) := guard_messages e c refusal rest st in (err, m :: rest, st)
      end
  end.

Definition untrusted : Provenance := {| pn_Source := "tool_result"; pn_Trusted := false |}.

(** *** The input stage *)

(** A tool result carried by the request. *)
Definition guard_tool (e : Engine) (c : RequestContext) (t : ToolPayload) (st : guard_state) :
    option error * ToolPayload * guard_state :=
  if bool_decide (tl_Result t = "") then (None, t, st)
  else
    let r := Evaluate e (tl_Result t) in
    let '(err, st) := handleMatches c r st in
    (err, {| tl_Name := tl_Name t; tl_Arguments := tl_Arguments t; tl_Result := res_Content r; tl_Provenance := untrusted |}, st).

(** An uploaded file. *)
Definition guard_file (e : Engine) (c : RequestContext) (f : FilePayload) (st : guard_state) :
    option error * FilePayload * guard_state :=
  if negb (bool_decide (fi_Operation f = "upload")) || bool_decide (fi_Data f = "") then (None, f, st)
  else
    let r := Evaluate e (fi_Data f) in
    let '(err, st) := handleMatches c r st in
    (err, {| fi_Operation := fi_Operation f; fi_ID := fi_ID f; fi_Purpose := fi_Purpose f; fi_Filename := fi_Filename f;
             fi_MediaType := fi_MediaType f; fi_Data := res_Content r; fi_Limit := fi_Limit f; fi_After := fi_After f |}, st).

(** A part of the request that may be absent. *)
Definition guard_opt {A} (guard : A → guard_state → option error * A * guard_state) (a : option A) (st : guard_state) :
    option error * option A * guard_state :=
  match a with
  | None => (None, None, st)
  | Some a => let '(err, a, st) := guard a st in (err, Some a, st)
  end.

Definition guard_input (e : Engine) (c : RequestContext) (u : UnifiedRequest) (st : guard_state) :
    option error * UnifiedRequest * guard_state :=
  let '(err, tool, st) := guard_opt (guard_tool e c) (ur_Tool u) st in
  let u := with_payloads u (ur_Chat u) (ur_File u) tool in
  match err with
  | Some _ => (err, u, st)
  | None =>
      let '(err, file, st) := guard_opt (guard_file e c) (ur_File u) st in
      let u := with_payloads u (ur_Chat u) file (ur_Tool u) in
      match err with
      | Some _ => (err, u, st)
      | None =>
          let refusal := GUARDRAIL_BLOCKED "tool call arguments blocked by policy" in
          let '(err, chat, st) :=
            guard_opt (λ chat st, let '(err, ms, st) := guard_messages e c refusal (chat_Messages chat) st in
                                  (err, with_messages chat ms, st)) (ur_Chat u) st in
          (err, with_payloads u chat (ur_File u) (ur_Tool u), st)
      end
  end.

(** *** The output stage *)

Fixpoint guard_choices (e : Engine) (c : RequestContext) (choices : list Choice) (st : guard_state) :
    option error * list Choice * guard_state :=
  match choices with
  | [] => (None, [], st)
  | ch :: rest =>
      let refusal := OUTPUT_GUARDRAIL_BLOCKED "tool call arguments blocked by policy" in
      let '(err, m, st) := guard_message e c refusal (ch_Message ch) st in
      let ch := {| ch_Index := ch_Index ch; ch_Message := m |} in
      match err with
      | Some _ => (err, ch :: rest, st)
      | None => let '(err, rest, st) := guard_choices e c rest st in (err, ch :: rest, st)
      end
  end.

Definition lines (contents : list string) : string := String.concat "" (map (λ s, s +:+ newline) contents).

(** Groundedness first, then the judge: the reason of the failed check. *)
Definition advanced_failure (h : GuardHandler) (combined contextText : string) (st : guard_state) : string * guard_state :=
  let failed :=
    match gh_Groundedness h with
    | Some checker =>
        let verdict := overlap_Check checker combined contextText in
        if vd_Passed verdict then "" else "groundedness:" +:+ vd_Reason verdict
    | None => ""
    end in
  match gs_judge st with
  | Some j =>
      if bool_decide (failed = "") then
        let '(verdict, j) := judge_Verdict j combined "output safety/quality" in
        (match verdict with
         | Ok r => if jr_Passed r then "" else "judge:" +:+ jr_Reason r
         | Err _ => ""
         end, set_judge st j)
      else (failed, st)
  | None => (failed, st)
  end.

Definition checkpointAdvanced (h : GuardHandler) (c : RequestContext) (r : UnifiedResponse) (st : guard_state) :
    option error * guard_state :=
  if bool_decide (gh_Groundedness h = None) && bool_decide (gs_judge st = None) then (None, st)
  else
    let combined := lines (map (λ ch, msg_Content (ch_Message ch)) (re_Choices r)) in
    let contextText := match rc_Request c ≫= ur_Chat with
                       | Some chat => lines (map msg_Content (chat_Messages chat))
                       | None => ""
                       end in
    let '(failed, st) := advanced_failure h combined contextText st in
    if bool_decide (failed = "") then (None, st)
    else if bool_decide (gh_Action h = "block")
    then (Some (OUTPUT_GUARDRAIL_BLOCKED "output failed advanced guardrail"), st)
    else if observed st then
      let '(id, now) := stamp (gs_next st) in
      (None, advance st (gs_sink st)
               ((λ s, (security_Create s (TenantID c)
                         (security_event c id now "advanced" failed (gh_Action h) (content_hash combined))).2) <$> gs_security st))
    else (None, st).

Definition guard_tool_result (e : Engine) (c : RequestContext) (t : ToolResult) (st : guard_state) :
    option error * ToolResult * guard_state :=
  let r := Evaluate e (tres_Content t) in
  let '(err, st) := handleMatches c r st in
  (err, {| tres_Name := tres_Name t; tres_Content := res_Content r; tres_Provenance := untrusted |}, st).

Definition guard_output (h : GuardHandler) (e : Engine) (c : RequestContext) (r : UnifiedResponse) (st : guard_state) :
    option error * UnifiedResponse * guard_state :=
  let '(err, tool, st) := guard_opt (guard_tool_result e c) (re_ToolResult r) st in
  let r := with_output r (re_Choices r) tool in
  match err with
  | Some _ => (err, r, st)
  | None =>
      let '(err, choices, st) := guard_choices e c (re_Choices r) st in
      let r := with_output r choices (re_ToolResult r) in
      match err with
      | Some _ => (err, r, st)
      | None => let '(err, st) := checkpointAdvanced h c r st in (err, r, st)
      end
  end.

(** [engineFor] and [Handle]; the directive is always [Continue]. *)
Definition engineFor (h : GuardHandler) (c : RequestContext) (st : guard_state) : result Engine * guard_state :=
  match rc_Snapshot c with
  | Some snapshot =>
      let '(engine, items) := CompileEngine (gs_engines st) snapshot (gh_Engine h) in (engine, set_engines st items)
  | None => (match gh_Engine h with None => Err (ErrNew "guardrail handler is not configured") | Some e => Ok e end, st)
  end.

Definition Handle (h : GuardHandler) (c : RequestContext) (st : guard_state) : option error * RequestContext * guard_state :=
  let '(engine, st) := engineFor h c st in
  match engine with
  | Err err => (Some err, c, st)
  | Ok e =>
      if gh_Output h then
        match rc_Response c with
        | None => (None, c, st)
        | Some r => let '(err, r, st) := guard_output h e c r st in (err, with_payload c (rc_Request c) (Some r), st)
        end
      else
        match rc_Request c with
        | None => (None, c, st)
        | Some u => let '(err, u, st) := guard_input e c u st in (err, with_payload c (Some u) (rc_Response c), st)
        end
  end.
End Handler.

(** ** guardrail/policy.go and sqlrepo/guardrailpolicy.go: publication *)

Definition ChangeTighten : string := "tighten".
Definition ChangeLoosen : string := "loosen".

Record Policy := {
  po_ID : string; po_TenantID : string; po_Version : Z; po_SecurityEpoch : Z; po_Rules : list Rule;
  po_ChangeType : string; po_PublishedAt : Z }.

(** The table guardrail_policies: primary key tenant and version. *)
Record policy_row := {
  pr_policy : Policy; pr_tenant : string; pr_version : Z; pr_change : string; pr_actor : string }.

Definition ErrScopeMismatch : error := ErrNew "tenant scope mismatch".
Definition ErrInvalidScope : error := ErrNew "invalid tenant scope".
Definition ErrNotFound : error := ErrNew "not found".
Definition unique_violation : error := ErrNew "duplicate key value violates unique constraint".

(** [db] is a failure of the database itself. *)
Definition policy_store_Create (rows : list policy_row) (db : option error) (scope : string) (policy : Policy)
    (change actor : string) : option error * list policy_row :=
  if bool_decide (scope = "") then (Some ErrInvalidScope, rows)
  else if bool_decide (po_TenantID policy ≠ scope) then (Some ErrScopeMismatch, rows)
  else match db with
       | Some err => (Some err, rows)
       | None =>
           if existsb (λ r, bool_decide (pr_tenant r = po_TenantID policy) && (pr_version r =? po_Version policy)) rows
           then (Some unique_violation, rows)
           else (None, (rows ++ [{| pr_policy := policy; pr_tenant := po_TenantID policy; pr_version := po_Version policy;
                                    pr_change := change; pr_actor := actor |}])%list)
       end.

(** [ORDER BY version DESC LIMIT 1]; the stored policy has no publication time. *)
Definition policy_store_GetActive (rows : list policy_row) (db : option error) (scope : string) : result Policy :=
  if bool_decide (scope = "") then Err ErrInvalidScope
  else match db with
       | Some err => Err err
       | None =>
           match foldl (λ best r,
                          if bool_decide (pr_tenant r = scope)
                          then match best with
                               | Some b => if pr_version b <? pr_version r then Some r else Some b
                               | None => Some r
                               end
                          else best) None rows with
           | None => Err ErrNotFound
           | Some r => Ok {| po_ID := po_ID (pr_policy r); po_TenantID := pr_tenant r; po_Version := pr_version r;
                             po_SecurityEpoch := po_SecurityEpoch (pr_policy r); po_Rules := po_Rules (pr_policy r);
                             po_ChangeType := pr_change r; po_PublishedAt := zero_time |}
           end
       end.

Record PolicyRegistry := { reg_active : gmap string Policy; reg_loaded : gset string; reg_store : option (list policy_row) }.

Definition NewPolicyRegistryWithStore (rows : list policy_row) : PolicyRegistry :=
  {| reg_active := ∅; reg_loaded := ∅; reg_store := Some rows |}.

Definition empty_policy : Policy :=
  {| po_ID := ""; po_TenantID := ""; po_Version := 0; po_SecurityEpoch := 0; po_Rules := []; po_ChangeType := "";
     po_PublishedAt := zero_time |}.

Definition current_policy (r : PolicyRegistry) (tenant : string) : Policy := default empty_policy (reg_active r !! tenant).

Section Publish.
Context `{!Regexp}.

(** Up to the store and the audit: the policy to commit and the version it was
    based on.  [audit] is the outcome of the recorder, if there is one. *)
Definition publish_begin (r : PolicyRegistry) (now : Z) (db audit : option error) (scope : string) (policy : Policy)
    (change actor : string) : result (Policy * Z) * PolicyRegistry :=
  if bool_decide (scope = "") then (Err ErrInvalidScope, r)
  else if bool_decide (po_TenantID policy ≠ scope) then (Err ErrScopeMismatch, r)
  else if negb (bool_decide (change = ChangeTighten)) && negb (bool_decide (change = ChangeLoosen))
  then (Err (ErrNew "invalid guardrail change type"), r)
  else match New (po_Version policy) (po_Rules policy) with
       | Err e => (Err e, r)
       | Ok _ =>
           let current := current_policy r scope in
           let base := po_Version current in
           let policy := {| po_ID := po_ID policy; po_TenantID := po_TenantID policy; po_Version := wrap64 (base + 1);
                            po_SecurityEpoch := wrap64 (po_SecurityEpoch current + 1); po_Rules := po_Rules policy;
                            po_ChangeType := po_ChangeType policy; po_PublishedAt := now |} in
           let '(err, store) :=
             match reg_store r with
             | Some rows => let '(err, rows) := policy_store_Create rows db scope policy change actor in (err, Some rows)
             | None => (None, None)
             end in
           let r := {| reg_active := reg_active r; reg_loaded := reg_loaded r; reg_store := store |} in
           match err, audit with
           | Some e, _ | None, Some e => (Err e, r)
           | None, None => (Ok (policy, base), r)
           end
       end.

(** The commit under the lock. *)
Definition publish_commit (r : PolicyRegistry) (scope : string) (policy : Policy) (base : Z) : result Policy * PolicyRegistry :=
  if negb (po_Version (current_policy r scope) =? base) then (Err (ErrNew "guardrail publish conflict: retry"), r)
  else (Ok policy, {| reg_active := <[scope := policy]> (reg_active r); reg_loaded := {[scope]} ∪ reg_loaded r;
                      reg_store := reg_store r |}).

Definition FastPublish (r : PolicyRegistry) (now : Z) (db audit : option error) (scope : string) (policy : Policy)
    (change actor : string) : result Policy * PolicyRegistry :=
  match publish_begin r now db audit scope policy change actor with
  | (Err e, r) => (Err e, r)
  | (Ok (policy, base), r) => publish_commit r scope policy base
  end.

Definition Active (r : PolicyRegistry) (db : option error) (scope : string) : (Policy * bool) * PolicyRegistry :=
  match reg_active r !! scope with
  | Some p => ((p, true), r)
  | None =>
      match reg_store r with
      | Some rows =>
          if bool_decide (scope ∉ reg_loaded r) then
            match policy_store_GetActive rows db scope with
            | Ok stored => ((stored, true),
                            {| reg_active := <[scope := stored]> (reg_active r); reg_loaded := {[scope]} ∪ reg_loaded r;
                               reg_store := reg_store r |})
            | Err _ => ((empty_policy, false), r)
            end
          else ((empty_policy, false), r)
      | None => ((empty_policy, false), r)
      end
  end.
End Publish.

(** ** What passes a guardrail is clean *)

Lemma length_sha_blocks fuel h bs : length h = 8%nat → length (sha_blocks fuel h bs) = 8%nat.
Proof.
  assert (∀ st kws, length st = 8%nat → length (foldl sha_round st kws) = 8%nat) as Hround.
  { intros st kws. revert st. induction kws as [|kw kws IH]; intros st Hst; simpl; [done|]. apply IH.
    do 9 (destruct st as [|? st]; [done|]). done. }
  revert h bs. induction fuel as [|fuel IH]; intros h bs Hh; simpl; [done|]. apply IH. unfold sha_block.
  rewrite length_zip_with, (Hround h) by done. lia.
Qed.

Lemma length_concat_map {B D : Type} (f : B → list D) n l : (∀ b, length (f b) = n) → length (concat (map f l)) = (n * length l)%nat.
Proof. intros Hf. induction l as [|b l IH]; simpl; [lia|]. rewrite length_app, Hf, IH. lia. Qed.

Lemma length_sha256 msg : length (sha256 msg) = 32%nat.
Proof. unfold sha256. rewrite (length_concat_map _ 4) by done. by rewrite length_sha_blocks. Qed.

Lemma str_length_of_list l : String.length (String.string_of_list_ascii l) = length l.
Proof. induction l as [|x l IH]; simpl; [done|]. by rewrite IH. Qed.

Lemma str_app_inj_len a a' b b' : a +:+ b = a' +:+ b' → String.length b = String.length b' → a = a' ∧ b = b'.
Proof.
  revert a'. induction a as [|x a IH]; intros [|y a']; rewrite ?str_cons_app; simpl.
  - done.
  - intros He Hl. apply (f_equal String.length) in He. simpl in He. rewrite !str_length_app in He. simpl in He. lia.
  - intros He Hl. apply (f_equal String.length) in He. simpl in He. rewrite !str_length_app in He. simpl in He. lia.
  - intros [= <- He] Hl. destruct (IH a' He Hl) as [-> ->]. done.
Qed.

Section Clean.
Context `{!Regexp} {K S J : Type} `{!EventSink K} `{!SecurityEventStore S} `{!Judge J}.
Context (wired : bool) (stamp : nat → string * Z).
Implicit Types (e : Engine) (c : RequestContext) (st : guard_state (K := K) (S := S) (J := J)).

Lemma blocked_matches rules hash content ms :
  res_Blocked (evaluate_rules rules hash content ms) = true → res_Matches (evaluate_rules rules hash content ms) ≠ [].
Proof.
  revert content ms. induction rules as [|r rules IH]; intros content ms; simpl; [done|].
  destruct (apply_rule r content) as [[] content']; [|apply IH].
  case_bool_decide; simpl; [|apply IH]. intros _. by destruct ms.
Qed.

(** Matching content is refused or, when no rule blocks it, redacted. *)
Lemma handleMatches_pass e c content st st' :
  handleMatches wired stamp c (Evaluate e content) st = (None, st') → res_Blocked (Evaluate e content) = false.
Proof.
  unfold handleMatches. destruct (res_Blocked (Evaluate e content)) eqn:Eb; [|done].
  pose proof (blocked_matches (eng_rules e) (content_hash content) content []) as Hm. fold (Evaluate e content) in Hm.
  specialize (Hm Eb). destruct (res_Matches (Evaluate e content)) as [|m rest]; [done|]. simpl.
  by destruct (record_match wired stamp c m st) as [[?|] ?].
Qed.

(** Arguments are clean: empty, or without any match. *)
Definition clean_call e (call : ToolCall) : Prop :=
  tcf_Arguments (tc_Function call) = "" ∨ res_Matches (Evaluate e (tcf_Arguments (tc_Function call))) = [].

Lemma guard_calls_clean e c refusal calls st st' :
  guard_calls wired stamp e c refusal calls st = (None, st') → Forall (clean_call e) calls.
Proof.
  revert st. induction calls as [|call calls IH]; intros st; simpl; [by constructor|].
  case_bool_decide as Ha.
  - intros Hg. constructor; [by left|by eapply IH].
  - destruct (res_Matches (Evaluate e (tcf_Arguments (tc_Function call)))) eqn:Em.
    + intros Hg. constructor; [by right|by eapply IH].
    + by destruct (handleMatches wired stamp c (Evaluate e (tcf_Arguments (tc_Function call))) st) as [[?|] ?].
Qed.

(** [m'] is the message that may go on in place of [m]. *)
Definition cleared e (m m' : Message) : Prop :=
  res_Blocked (Evaluate e (msg_Content m)) = false ∧
  m' = with_content m (res_Content (Evaluate e (msg_Content m))) ∧
  Forall (clean_call e) (msg_ToolCalls m).

Lemma guard_message_cleared e c refusal m m' st st' :
  guard_message wired stamp e c refusal m st = (None, m', st') → cleared e m m'.
Proof.
  unfold guard_message. destruct (handleMatches wired stamp c (Evaluate e (msg_Content m)) st) as [[?|] st1] eqn:Eh; [done|].
  destruct (guard_calls _ _ _ _ _ _ st1) as [err st2] eqn:Ec. intros [= -> <- <-].
  split_and!; [by eapply handleMatches_pass|done|by eapply guard_calls_clean].
Qed.

Lemma guard_messages_cleared e c refusal ms ms' st st' :
  guard_messages wired stamp e c refusal ms st = (None, ms', st') → Forall2 (cleared e) ms ms'.
Proof.
  revert ms' st. induction ms as [|m ms IH]; intros ms' st; simpl; [by intros [= <- _]|].
  destruct (guard_message wired stamp e c refusal m st) as [[[?|] m'] st1] eqn:Em; [done|].
  destruct (guard_messages wired stamp e c refusal ms st1) as [[err rest] st2] eqn:Er. intros [= -> <- <-].
  constructor; [by eapply guard_message_cleared|by eapply IH].
Qed.

Lemma guard_choices_cleared e c chs chs' st st' :
  guard_choices wired stamp e c chs st = (None, chs', st') →
  Forall2 (λ ch ch', cleared e (ch_Message ch) (ch_Message ch')) chs chs'.
Proof.
  revert chs' st. induction chs as [|ch chs IH]; intros chs' st; simpl; [by intros [= <- _]|].
  destruct (guard_message wired stamp e c _ (ch_Message ch) st) as [[[?|] m'] st1] eqn:Em; [done|].
  destruct (guard_choices wired stamp e c chs st1) as [[err rest] st2] eqn:Er. intros [= -> <- <-].
  constructor; [by eapply guard_message_cleared|by eapply IH].
Qed.

(** The text of a payload, by its kind. *)
Definition passes e (before after : option string) : Prop :=
  match before with
  | Some text => res_Blocked (Evaluate e text) = false ∧ after = Some (res_Content (Evaluate e text))
  | None => True
  end.

Definition tool_text (u : UnifiedRequest) : option string :=
  match ur_Tool u with Some t => if bool_decide (tl_Result t = "") then None else Some (tl_Result t) | None => None end.

Definition upload_text (u : UnifiedRequest) : option string :=
  match ur_File u with
  | Some f => if negb (bool_decide (fi_Operation f = "upload")) || bool_decide (fi_Data f = "") then None else Some (fi_Data f)
  | None => None
  end.

Lemma guard_input_clean e c u u' st st' :
  guard_input wired stamp e c u st = (None, u', st') →
  passes e (tool_text u) (tl_Result <$> ur_Tool u') ∧ passes e (upload_text u) (fi_Data <$> ur_File u') ∧
  match ur_Chat u with
  | Some chat => ∃ chat', ur_Chat u' = Some chat' ∧ Forall2 (cleared e) (chat_Messages chat) (chat_Messages chat')
  | None => True
  end.
Proof.
  unfold guard_input, passes, tool_text, upload_text.
  destruct (guard_opt _ (ur_Tool u) st) as [[[?|] tool] st1] eqn:Et; [done|]. simpl.
  destruct (guard_opt _ (ur_File u) st1) as [[[?|] file] st2] eqn:Ef; [done|]. simpl.
  destruct (guard_opt _ (ur_Chat u) st2) as [[err chat] st3] eqn:Ec. intros [= -> <- <-]. simpl. split_and!.
  - destruct (ur_Tool u) as [t|]; [|done]. simpl in Et. unfold guard_tool in Et.
    case_bool_decide; [done|].
    destruct (handleMatches wired stamp c _ st) as [[?|] ?] eqn:Eh; simplify_eq/=. split; [by eapply handleMatches_pass|done].
  - destruct (ur_File u) as [f|]; [|done]. simpl in Ef. unfold guard_file in Ef.
    destruct (_ || _); [done|].
    destruct (handleMatches wired stamp c _ st1) as [[?|] ?] eqn:Eh; simplify_eq/=. split; [by eapply handleMatches_pass|done].
  - destruct (ur_Chat u) as [ch|]; [|done]. simpl in Ec.
    destruct (guard_messages _ _ _ _ _ _ st2) as [[err ms] st4] eqn:Em. simplify_eq.
    eexists. split; [done|]. by eapply guard_messages_cleared.
Qed.

Lemma guard_output_clean h e c r r' st st' :
  guard_output wired stamp h e c r st = (None, r', st') →
  passes e (tres_Content <$> re_ToolResult r) (tres_Content <$> re_ToolResult r') ∧
  Forall2 (λ ch ch', cleared e (ch_Message ch) (ch_Message ch')) (re_Choices r) (re_Choices r').
Proof.
  unfold guard_output, passes.
  destruct (guard_opt _ (re_ToolResult r) st) as [[[?|] tool] st1] eqn:Et; [done|]. simpl.
  destruct (guard_choices _ _ _ _ (re_Choices r) st1) as [[[?|] choices] st2] eqn:Ec; [done|].
  destruct (checkpointAdvanced _ _ _ _ _ st2) as [err st3]. intros [= -> <- <-]. simpl. split.
  - destruct (re_ToolResult r) as [t|]; [|done]. simpl in *. unfold guard_tool_result in Et.
    destruct (handleMatches wired stamp c _ st) as [[?|] ?] eqn:Eh; simplify_eq/=. split; [by eapply handleMatches_pass|done].
  - by eapply guard_choices_cleared.
Qed.

(** *** The rules, read on their own *)

(** The rule's pattern occurs in the content: as a substring, or as the package regexp
    decides for the compiled pattern. *)
Definition rule_hits (rule : Rule) (content : string) : Prop :=
  if bool_decide (ru_Kind rule = "keyword") then ∃ a b, content = a +:+ ru_Pattern rule +:+ b
  else ∃ re, regex_Compile (ru_Pattern rule) = Ok re ∧ regex_MatchString re content = true.

(** What replaces the pattern. *)
Definition replacement (rule : Rule) : string := if bool_decide (ru_Replacement rule = "") then "[redacted]" else ru_Replacement rule.

Definition redacts (rule : Rule) (content content' : string) : Prop :=
  if bool_decide (ru_Kind rule = "keyword") then content' = replace_all (ru_Pattern rule) (replacement rule) content
  else ∃ re, regex_Compile (ru_Pattern rule) = Ok re ∧ content' = regex_ReplaceAllString re content (replacement rule).

(** [y] is what the rules, one after the other, leave of content [x] that none of them
    blocks. *)
Inductive filtered : list Rule → string → string → Prop :=
  | filtered_all x : filtered [] x x
  | filtered_miss rule rules x y : ¬ rule_hits rule x → filtered rules x y → filtered (rule :: rules) x y
  | filtered_redact rule rules x x' y :
      rule_hits rule x → ru_Action rule = "redact" → redacts rule x x' → filtered rules x' y → filtered (rule :: rules) x y.

Lemma compile_rule_ok rule cr :
  compile_rule rule = Ok cr →
  ru_ID (cr_rule cr) = ru_ID rule ∧ ru_Kind (cr_rule cr) = ru_Kind rule ∧ ru_Pattern (cr_rule cr) = ru_Pattern rule ∧
  ru_Action (cr_rule cr) = ru_Action rule ∧ ru_Replacement (cr_rule cr) = replacement rule ∧
  (ru_Action rule = "block" ∨ ru_Action rule = "redact") ∧
  (if bool_decide (ru_Kind rule = "keyword") then True else ∃ re, cr_regex cr = Some re ∧ regex_Compile (ru_Pattern rule) = Ok re).
Proof.
  unfold compile_rule. destruct (_ || _) eqn:E; [done|]. apply orb_false_iff in E as [_ E].
  apply andb_false_iff in E. rewrite !negb_false_iff, !bool_decide_eq_true in E.
  case_bool_decide as Hk; [done|]. case_bool_decide as Hr.
  - destruct (regex_Compile _) as [re|] eqn:Ere; [|done]. intros [= <-]. simpl. split_and!; try done. case_bool_decide as Hkw; [done|]. by exists re.
  - intros [= <-]. simpl. split_and!; try done. rewrite bool_decide_true; [done|]. unfold RuleKinds, regexKinds in *. set_solver.
Qed.

Lemma apply_rule_spec rule cr x :
  compile_rule rule = Ok cr →
  if (apply_rule cr x).1
  then rule_hits rule x ∧ (ru_Action rule = "redact" → redacts rule x (apply_rule cr x).2)
  else ¬ rule_hits rule x ∧ (apply_rule cr x).2 = x.
Proof.
  intros (_ & Hk & Hp & Ha & Hr & _ & Hre)%compile_rule_ok. unfold apply_rule, rule_hits, redacts. rewrite Hk, Hp, Ha, Hr.
  case_bool_decide as Hkw.
  - simpl. destruct (contains _ _) eqn:Ec; simpl; [split; [by apply contains_spec|]|split; [|done]].
    + intros ->. by rewrite bool_decide_true.
    + rewrite <- contains_spec. by rewrite Ec.
  - destruct Hre as (re & -> & Hc). simpl. destruct (regex_MatchString re x) eqn:Em; simpl; [split; [by exists re|]|split; [|done]].
    + intros ->. rewrite bool_decide_true by done. by exists re.
    + intros (re' & Hc' & Hm). rewrite Hc in Hc'. injection Hc' as <-. by rewrite Em in Hm.
Qed.

Lemma evaluated_filtered rules crs hash x ms :
  compile_rules rules = Ok crs → res_Blocked (evaluate_rules crs hash x ms) = false →
  filtered rules x (res_Content (evaluate_rules crs hash x ms)).
Proof.
  revert crs x ms. induction rules as [|rule rules IH]; intros crs x ms; simpl; [intros [= <-] _; constructor|].
  destruct (compile_rule rule) as [cr|] eqn:Ecr; [|done]. destruct (compile_rules rules) as [crs'|] eqn:Ecs; [|done].
  intros [= <-]. simpl. pose proof (apply_rule_spec rule cr x Ecr) as Hs.
  destruct (compile_rule_ok rule cr Ecr) as (_ & _ & _ & Ha & _ & Hact & _). destruct (apply_rule cr x) as [[|] x']; simpl in *.
  - rewrite Ha. case_bool_decide as Hb; [done|]. intros Hrest. destruct Hs as [Hh Hred], Hact as [Hact|Hact]; [done|].
    eapply filtered_redact; [done|done|by apply Hred|]. by apply IH.
  - destruct Hs as [Hm ->]. intros Hrest. apply filtered_miss; [done|]. by apply IH.
Qed.

Lemma evaluated_untouched rules crs hash x :
  compile_rules rules = Ok crs → res_Matches (evaluate_rules crs hash x []) = [] → Forall (λ rule, ¬ rule_hits rule x) rules.
Proof.
  assert (∀ crs x ms, ms ≠ [] → res_Matches (evaluate_rules crs hash x ms) ≠ []) as Hgrow.
  { clear. intros crs. induction crs as [|cr crs IH]; intros x ms Hms; simpl; [done|]. destruct (apply_rule cr x) as [[|] x']; [|by apply IH].
    case_bool_decide; simpl; [by destruct ms|]. apply IH. by destruct ms. }
  revert crs. induction rules as [|rule rules IH]; intros crs; simpl; [by constructor|].
  destruct (compile_rule rule) as [cr|] eqn:Ecr; [|done]. destruct (compile_rules rules) as [crs'|]; [|done]. intros [= <-]. simpl.
  pose proof (apply_rule_spec rule cr x Ecr) as Hs. destruct (apply_rule cr x) as [[|] x']; simpl in *.
  - case_bool_decide; simpl; [done|]. intros Hm. exfalso. by eapply Hgrow; [|exact Hm].
  - destruct Hs as [Hm ->]. intros Hrest. constructor; [done|]. by apply (IH crs').
Qed.

(** *** The cached engine is the one of the tenant's own policy *)

(** The cache of a process that has compiled the engines of [seen], in that order. *)
Definition engines_after (fallback : option Engine) (seen : list TenantRuntimeSnapshot) : gmap string Engine :=
  foldl (λ items s, (CompileEngine items s fallback).2) ∅ seen.

(** Policies of one tenant with the same fingerprint have the same rules, among [seen]
    and the one of [s]. *)
Definition digests_distinct (seen : list TenantRuntimeSnapshot) (s : TenantRuntimeSnapshot) : Prop :=
  ∀ s0, s0 ∈ seen → sn_TenantID s0 = sn_TenantID s →
    engine_digest s0 (sn_guardrail s0) = engine_digest s (sn_guardrail s) → gp_Rules (sn_guardrail s0) = gp_Rules (sn_guardrail s).

Lemma engine_digest_length s policy : String.length (engine_digest s policy) = 64%nat.
Proof.
  assert (∀ bs, length bs = 32%nat → String.length (hex_encode bs) = 64%nat) as Hhex.
  { intros bs Hl. unfold hex_encode. rewrite str_length_of_list. rewrite (length_concat_map _ 2) by done. by rewrite Hl. }
  unfold engine_digest. apply Hhex. destruct (gp_Rules policy) as [|r rs] using rev_ind; simpl; [apply length_sha256|].
  rewrite foldl_app. simpl. apply length_sha256.
Qed.

Lemma engineCacheKey_inj s1 s2 p1 p2 :
  engineCacheKey s1 p1 = engineCacheKey s2 p2 → sn_TenantID s1 = sn_TenantID s2 ∧ engine_digest s1 p1 = engine_digest s2 p2.
Proof.
  unfold engineCacheKey. intros He. apply str_app_inj_len in He as [Ht He]; [|by rewrite !str_length_app, !engine_digest_length].
  split; [done|]. by injection He.
Qed.

Lemma engines_after_spec fallback seen key e :
  engines_after fallback seen !! key = Some e →
  ∃ s, s ∈ seen ∧ key = engineCacheKey s (sn_guardrail s) ∧ compile_rules (policy_rules (sn_guardrail s)) = Ok (eng_rules e).
Proof.
  revert key e. induction seen as [|s seen IH] using rev_ind; intros key e; [done|]. unfold engines_after. rewrite foldl_app. simpl.
  fold (engines_after fallback seen). unfold CompileEngine.
  assert (engines_after fallback seen !! key = Some e → ∃ s0, s0 ∈ (seen ++ [s])%list ∧ key = engineCacheKey s0 (sn_guardrail s0) ∧
            compile_rules (policy_rules (sn_guardrail s0)) = Ok (eng_rules e)) as Hold.
  { intros (s0 & Hin & Hrest)%IH. exists s0. split; [by apply elem_of_app; left|done]. }
  case_bool_decide as Hmode; [|by destruct fallback]. destruct (engines_after fallback seen !! engineCacheKey s _) as [cached|] eqn:Ec; [done|].
  unfold New. destruct (compile_rules _) as [cs|] eqn:Ecs; [|done]. simpl. unfold put_engine.
  assert (∀ items : gmap string Engine, (items !! key = Some e → ∃ s0, s0 ∈ (seen ++ [s])%list ∧ key = engineCacheKey s0 (sn_guardrail s0) ∧
            compile_rules (policy_rules (sn_guardrail s0)) = Ok (eng_rules e)) →
          <[engineCacheKey s (sn_guardrail s) := {| eng_version := sn_Version s; eng_rules := cs |}]> items !! key = Some e →
          ∃ s0, s0 ∈ (seen ++ [s])%list ∧ key = engineCacheKey s0 (sn_guardrail s0) ∧
            compile_rules (policy_rules (sn_guardrail s0)) = Ok (eng_rules e)) as Hins.
  { intros items Hitems. rewrite lookup_insert. case_decide as Hk; [|done]. intros [= <-]. exists s.
    split; [apply elem_of_app; right; by left|done]. }
  destruct (_ <=? _)%nat; [apply (Hins ∅); by rewrite lookup_empty|by apply Hins].
Qed.

(** The rules that a stage has to apply to a request: those of the policy of its own
    snapshot, or those of the fixed engine if there is no policy. *)
Definition rules_for (h : GuardHandler) c (rules : list Rule) : Prop :=
  match rc_Snapshot c with
  | Some s => if bool_decide (gp_Mode (sn_guardrail s) ≠ "") then rules = policy_rules (sn_guardrail s)
              else ∃ e version, gh_Engine h = Some e ∧ New version rules = Ok e
  | None => ∃ e version, gh_Engine h = Some e ∧ New version rules = Ok e
  end.

Lemma engineFor_rules h c st rules seen e :
  gs_engines st = engines_after (gh_Engine h) seen → (∀ s, rc_Snapshot c = Some s → digests_distinct seen s) →
  rules_for h c rules → (engineFor h c st).1 = Ok e → compile_rules rules = Ok (eng_rules e).
Proof.
  intros Hst Hd Hr He.
  assert (∀ e' version, New version rules = Ok e' → compile_rules rules = Ok (eng_rules e')) as Hnew.
  { intros e' version. unfold New. destruct (compile_rules rules); [|done]. by intros [= <-]. }
  unfold engineFor, rules_for in *. destruct (rc_Snapshot c) as [s|].
  - unfold CompileEngine in He. rewrite Hst in He. case_bool_decide as Hmode.
    + subst rules. destruct (engines_after _ seen !! _) as [cached|] eqn:Ec; simpl in He.
      * injection He as ->. apply engines_after_spec in Ec as (s0 & Hin & Hk & Hc). apply engineCacheKey_inj in Hk as [Ht Hdig].
        unfold policy_rules in *. by rewrite <- (Hd s eq_refl s0 Hin).
      * unfold New in *. destruct (compile_rules _) as [cs|]; [|done]. simpl in He. by injection He as <-.
    + destruct Hr as (e' & version & Hh & Hn). rewrite Hh in He. simpl in He. injection He as <-. by eapply Hnew.
  - destruct Hr as (e' & version & Hh & Hn). rewrite Hh in He. simpl in He. injection He as <-. by eapply Hnew.
Qed.

(** *** The theorem *)

Definition passed (rules : list Rule) (before after : option string) : Prop :=
  match before with Some x => ∃ y, after = Some y ∧ filtered rules x y | None => True end.

(** [m'] is [m] with its content filtered, and no argument of a tool call hits a rule. *)
Definition passed_message (rules : list Rule) (m m' : Message) : Prop :=
  (∃ y, filtered rules (msg_Content m) y ∧ m' = with_content m y) ∧
  Forall (λ call, let arguments := tcf_Arguments (tc_Function call) in
                  arguments = "" ∨ Forall (λ rule, ¬ rule_hits rule arguments) rules) (msg_ToolCalls m).

Lemma passes_passed rules e before after : compile_rules rules = Ok (eng_rules e) → passes e before after → passed rules before after.
Proof.
  intros Hc. unfold passes, passed. destruct before as [x|]; [|done]. intros [Hb ->]. eexists. split; [done|]. by apply evaluated_filtered.
Qed.

Lemma cleared_passed rules e m m' : compile_rules rules = Ok (eng_rules e) → cleared e m m' → passed_message rules m m'.
Proof.
  intros Hc (Hb & -> & Hf). split; [eexists; split; [by apply evaluated_filtered|done]|]. eapply Forall_impl; [exact Hf|].
  intros call [Ha|Ha]; [by left|right]. by eapply evaluated_untouched.
Qed.

(** C14: Only clean content passes a guardrail stage.  Let the rules be those of the
    guardrail policy of the request's own snapshot, or of the handler's fixed engine if
    the snapshot has no policy, and the engine cache what the engines compiled so far
    left in it.  When the input stage lets a request through, each chat message, tool
    result and uploaded file was replaced by what the rules in their order leave of it -
    no rule with the action block hits it when its turn comes, and each that hits it is
    replaced - and no rule hits a non-empty tool-call argument; likewise for the choices
    and the tool result when the output stage lets a response through.  A keyword rule
    hits content in which the keyword occurs, any other rule content that its regular
    expression matches.  Assumed: policies of one tenant with the same fingerprint have
    the same rules ([fingerprint_is_ambiguous] shows two that differ). *)
Theorem guardrail_passes_only_clean h c st c' st' seen rules :
  gs_engines st = engines_after (gh_Engine h) seen → (∀ s, rc_Snapshot c = Some s → digests_distinct seen s) →
  rules_for h c rules → Handle wired stamp h c st = (None, c', st') →
  (gh_Output h = false → ∀ u, rc_Request c = Some u → ∃ u', rc_Request c' = Some u' ∧
     passed rules (tool_text u) (tl_Result <$> ur_Tool u') ∧ passed rules (upload_text u) (fi_Data <$> ur_File u') ∧
     match ur_Chat u with
     | Some chat => ∃ chat', ur_Chat u' = Some chat' ∧ Forall2 (passed_message rules) (chat_Messages chat) (chat_Messages chat')
     | None => True
     end) ∧
  (gh_Output h = true → ∀ r, rc_Response c = Some r → ∃ r', rc_Response c' = Some r' ∧
     passed rules (tres_Content <$> re_ToolResult r) (tres_Content <$> re_ToolResult r') ∧
     Forall2 (λ ch ch', passed_message rules (ch_Message ch) (ch_Message ch')) (re_Choices r) (re_Choices r')).
Proof.
  intros Hst Hd Hrules Hh. pose proof (engineFor_rules h c st rules seen) as Hc. unfold Handle in Hh.
  destruct (engineFor h c st) as [[e|err] st1]; [|done]. specialize (Hc e Hst Hd Hrules eq_refl).
  split; intros Ho x Hx; rewrite Ho, Hx in Hh.
  - destruct (guard_input wired stamp e c x st1) as [[err u'] st2] eqn:Eg. simplify_eq/=. exists u'. split; [done|].
    apply guard_input_clean in Eg as (H1 & H2 & H3). split_and!; [by eapply passes_passed..|].
    destruct (ur_Chat x) as [chat|]; [|done]. destruct H3 as (chat' & -> & Hf). exists chat'. split; [done|].
    eapply Forall2_impl; [exact Hf|]. intros m m'. by apply cleared_passed.
  - destruct (guard_output wired stamp h e c x st1) as [[err r'] st2] eqn:Eg. simplify_eq/=. exists r'. split; [done|].
    apply guard_output_clean in Eg as [H1 H2]. split; [by eapply passes_passed|].
    eapply Forall2_impl; [exact H2|]. intros m m'. by apply cleared_passed.
Qed.
End Clean.

(** ** Publication *)

Section Publication.
Context `{!Regexp}.

Record publish_op := {
  pu_now : Z; pu_db : option error; pu_audit : option error; pu_scope : string; pu_policy : Policy;
  pu_change : string; pu_actor : string }.

Definition publish_exec (r : PolicyRegistry) (op : publish_op) : PolicyRegistry :=
  (FastPublish r (pu_now op) (pu_db op) (pu_audit op) (pu_scope op) (pu_policy op) (pu_change op) (pu_actor op)).2.

Definition version_of (r : PolicyRegistry) (tenant : string) : Z := po_Version (current_policy r tenant).

Definition rows_of (r : PolicyRegistry) : list policy_row := default [] (reg_store r).

(** No stored version is more than one ahead of the active one. *)
Definition published_within (n : Z) (r : PolicyRegistry) : Prop :=
  is_Some (reg_store r) ∧
  ∀ t, 0 <= version_of r t <= n ∧ ∀ row, row ∈ rows_of r → pr_tenant row = t → pr_version row <= version_of r t + 1.

Lemma current_insert r t p loaded store t' :
  current_policy {| reg_active := <[t := p]> (reg_active r); reg_loaded := loaded; reg_store := store |} t' =
    if bool_decide (t' = t) then p else current_policy r t'.
Proof. unfold current_policy. simpl. rewrite lookup_insert. case_decide; case_bool_decide; naive_solver. Qed.

Lemma current_same r loaded store t :
  current_policy {| reg_active := reg_active r; reg_loaded := loaded; reg_store := store |} t = current_policy r t.
Proof. done. Qed.

Lemma create_spec rows db scope p change actor :
  let '(err, rows') := policy_store_Create rows db scope p change actor in
  match err with
  | Some _ => rows' = rows
  | None =>
      po_TenantID p = scope ∧ scope ≠ "" ∧
      (∀ row, row ∈ rows → pr_tenant row = scope → pr_version row ≠ po_Version p) ∧
      rows' = (rows ++ [{| pr_policy := p; pr_tenant := scope; pr_version := po_Version p; pr_change := change;
                           pr_actor := actor |}])%list
  end.
Proof.
  unfold policy_store_Create. case_bool_decide; [done|]. case_bool_decide as Ht; [done|].
  destruct db as [err|]; [done|]. destruct (existsb _ rows) eqn:Ex; [done|].
  assert (po_TenantID p = scope) as <- by (destruct (decide (po_TenantID p = scope)); [done|tauto]).
  split_and!; [done|done| |done]. intros row Hin Htn Hv. apply not_true_iff_false in Ex. apply Ex.
  apply existsb_exists. exists row. split; [by apply list_elem_of_In|]. rewrite Htn, Hv, bool_decide_true by done.
  by rewrite Z.eqb_refl.
Qed.

(** Every outcome of [FastPublish]. *)
Lemma FastPublish_spec r op :
  is_Some (reg_store r) →
  let '(res, r') := FastPublish r (pu_now op) (pu_db op) (pu_audit op) (pu_scope op) (pu_policy op) (pu_change op) (pu_actor op) in
  match res with
  | Err _ =>
      (∀ t, current_policy r' t = current_policy r t) ∧ is_Some (reg_store r') ∧
      (rows_of r' = rows_of r ∨
       ∃ row, rows_of r' = (rows_of r ++ [row])%list ∧ pr_version row = wrap64 (version_of r (pr_tenant row) + 1))
  | Ok p =>
      (∀ t, current_policy r' t = if bool_decide (t = pu_scope op) then p else current_policy r t) ∧
      is_Some (reg_store r') ∧ po_Version p = wrap64 (version_of r (pu_scope op) + 1) ∧
      po_ID p = po_ID (pu_policy op) ∧ po_TenantID p = pu_scope op ∧ po_Rules p = po_Rules (pu_policy op) ∧ pu_scope op ≠ "" ∧
      (∀ row, row ∈ rows_of r → pr_tenant row = pu_scope op → pr_version row ≠ po_Version p) ∧
      rows_of r' = (rows_of r ++ [{| pr_policy := p; pr_tenant := pu_scope op; pr_version := po_Version p;
                                     pr_change := pu_change op; pr_actor := pu_actor op |}])%list
  end.
Proof.
  intros [rows Hrows]. destruct op as [now db audit scope policy change actor]. unfold FastPublish, publish_begin. simpl.
  case_bool_decide; [by eauto|]. case_bool_decide as Ht; [by eauto|].
  destruct (_ && _); [by eauto|]. destruct (New _ _); [|by eauto]. rewrite Hrows.
  set (p := {| po_ID := po_ID policy; po_TenantID := po_TenantID policy; po_Version := _; po_SecurityEpoch := _;
               po_Rules := _; po_ChangeType := _; po_PublishedAt := _ |}).
  pose proof (create_spec rows db scope p change actor) as Hc.
  destruct (policy_store_Create rows db scope p change actor) as [[err|] rows'].
  - subst rows'. destruct audit; (split_and!; [done|by eexists|left; unfold rows_of; by rewrite Hrows]).
  - destruct Hc as (Hs & Hne & Hnew & ->). destruct audit as [err|].
    + split_and!; [done|by eexists|]. right. unfold rows_of. rewrite Hrows. simpl. eexists. split; [done|]. done.
    + unfold publish_commit. rewrite current_same, Z.eqb_refl. simpl. split_and!; try done.
      * intros t. apply (current_insert r).
      * unfold rows_of. by rewrite Hrows.
      * unfold rows_of. by rewrite Hrows.
Qed.

Lemma publish_within n r op :
  0 <= n < max_int64 → published_within n r → published_within (n + 1) (publish_exec r op).
Proof.
  intros Hn [Hsome Hv]. pose proof (FastPublish_spec r op Hsome) as Hs. unfold publish_exec.
  assert (∀ t, wrap64 (version_of r t + 1) = version_of r t + 1) as Hw.
  { intros t. apply wrap64_id. destruct (Hv t) as [? _]. unfold_ints. lia. }
  destruct (FastPublish r _ _ _ _ _ _ _) as [[p|err] r'].
  - destruct Hs as (Hcur & Hst & Hver & _ & _ & _ & _ & _ & Hrows). split; [done|]. intros t. unfold version_of. simpl.
    rewrite Hcur, Hrows. destruct (Hv t) as [Hb Hr]. rewrite Hw in Hver. case_bool_decide as Ht.
    + subst t. rewrite Hver. split; [lia|]. intros row [Hin|Hin]%elem_of_app Htn.
      * specialize (Hr row Hin Htn). lia.
      * apply list_elem_of_singleton in Hin. subst row. simpl. lia.
    + split; [unfold version_of in Hb; lia|]. intros row [Hin|Hin]%elem_of_app Htn; [by apply Hr|].
      apply list_elem_of_singleton in Hin. subst row. simpl in Htn. congruence.
  - destruct Hs as (Hcur & Hst & Hrows). split; [done|]. intros t. unfold version_of. simpl. rewrite Hcur.
    destruct (Hv t) as [Hb Hr]. unfold version_of in *. split; [lia|].
    destruct Hrows as [->|(row & -> & Hrow)]; [done|]. intros row' [Hin|Hin]%elem_of_app Htn; [by apply Hr|].
    apply list_elem_of_singleton in Hin. subst row' t. rewrite Hrow, Hw. unfold version_of. lia.
Qed.

Lemma publishes_within ops r n :
  0 <= n → n + Z.of_nat (length ops) < max_int64 → published_within n r →
  published_within (n + Z.of_nat (length ops)) (foldl publish_exec r ops).
Proof.
  revert r n. induction ops as [|op ops IH]; intros r n Hn Hl Hp; simpl; [by rewrite Z.add_0_r|].
  simpl in Hl. replace (n + Z.of_nat (S (length ops))) with ((n + 1) + Z.of_nat (length ops)) by lia.
  apply IH; [lia|lia|]. apply publish_within; [lia|done].
Qed.

(** The newest row of a tenant. *)
Definition newest (scope : string) (rows : list policy_row) : option policy_row :=
  foldl (λ best r,
           if bool_decide (pr_tenant r = scope)
           then match best with
                | Some b => if pr_version b <? pr_version r then Some r else Some b
                | None => Some r
                end
           else best) None rows.

Lemma newest_in scope rows b : newest scope rows = Some b → b ∈ rows ∧ pr_tenant b = scope.
Proof.
  unfold newest. induction rows as [|r rows IH] using rev_ind; [done|]. rewrite foldl_app. simpl.
  case_bool_decide; [|intros ?%IH; set_solver].
  destruct (foldl _ None rows) as [b'|] eqn:Ef; [|intros [= <-]; set_solver].
  destruct (pr_version b' <? pr_version r); [intros [= <-]; set_solver|]. intros [= <-].
  destruct IH as [Hin Ht]; [done|]. set_solver.
Qed.

Lemma newest_snoc scope rows r :
  pr_tenant r = scope → (∀ row, row ∈ rows → pr_tenant row = scope → pr_version row < pr_version r) →
  newest scope (rows ++ [r])%list = Some r.
Proof.
  intros Ht Hlt. pose proof (newest_in scope rows) as Hin. unfold newest in *. rewrite foldl_app. simpl.
  rewrite bool_decide_true by done. destruct (foldl _ None rows) as [b|]; [|done].
  destruct (Hin b eq_refl) as [Hb Hbt]. specialize (Hlt b Hb Hbt). destruct (Z.ltb_spec (pr_version b) (pr_version r)); [done|lia].
Qed.

(** A published policy survives a restart.  After any history of publications by any
    tenants, failures of the database and the audit included, a publication that
    succeeds is the one a restarted registry loads for that tenant: same id,
    version, security epoch and rules. *)
Theorem published_policy_survives_restart ops op p :
  Z.of_nat (length ops) < max_int64 - 1 →
  let r := foldl publish_exec (NewPolicyRegistryWithStore []) ops in
  let out := FastPublish r (pu_now op) (pu_db op) (pu_audit op) (pu_scope op) (pu_policy op) (pu_change op) (pu_actor op) in
  out.1 = Ok p →
  ∃ q, (Active (NewPolicyRegistryWithStore (rows_of out.2)) None (pu_scope op)).1 = (q, true) ∧
       po_ID q = po_ID p ∧ po_Version q = po_Version p ∧ po_SecurityEpoch q = po_SecurityEpoch p ∧ po_Rules q = po_Rules p.
Proof.
  intros Hl r out. assert (published_within 0 (NewPolicyRegistryWithStore [])) as H0.
  { split; [by eexists|]. intros t. unfold version_of, current_policy. simpl. split; [done|]. intros row Hin. set_solver. }
  apply (publishes_within ops) in H0; [|lia|lia]. fold r in H0. destruct H0 as [Hsome Hv].
  pose proof (FastPublish_spec r op Hsome) as Hs. fold out in Hs. destruct out as [res r'].
  simpl. intros ->. destruct Hs as (_ & _ & Hver & Hid & Htn & Hru & Hne & Hnew & Hrows).
  destruct (Hv (pu_scope op)) as [Hb Hr]. rewrite wrap64_id in Hver by (unfold_ints; lia).
  unfold Active. simpl. rewrite lookup_empty, bool_decide_true by set_solver.
  unfold policy_store_GetActive. rewrite bool_decide_false by done. fold (newest (pu_scope op) (rows_of r')).
  rewrite Hrows, newest_snoc; [by eexists|done|]. simpl. intros row Hin Ht.
  specialize (Hr row Hin Ht). specialize (Hnew row Hin Ht). lia.
Qed.

(** *** Two ways to lose the ability to publish *)

(** A restarted registry numbers from one again: while the stored policies are not
    loaded, every publication of the tenant collides with its first version. *)
Theorem publish_fails_after_restart rows op row e :
  row ∈ rows → pr_tenant row = pu_scope op → pr_version row = 1 →
  pu_scope op ≠ "" → po_TenantID (pu_policy op) = pu_scope op → pu_db op = None →
  pu_change op = ChangeTighten ∨ pu_change op = ChangeLoosen →
  New (po_Version (pu_policy op)) (po_Rules (pu_policy op)) = Ok e →
  FastPublish (NewPolicyRegistryWithStore rows) (pu_now op) (pu_db op) (pu_audit op) (pu_scope op) (pu_policy op)
    (pu_change op) (pu_actor op) = (Err unique_violation, NewPolicyRegistryWithStore rows).
Proof.
  intros Hin Ht Hv Hs Hp Hdb Hch Hn. unfold FastPublish, publish_begin. rewrite Hn, Hdb.
  rewrite !(bool_decide_false (pu_scope op = "")), (bool_decide_false (po_TenantID _ ≠ _)) by (done || tauto).
  assert (negb (bool_decide (pu_change op = ChangeTighten)) && negb (bool_decide (pu_change op = ChangeLoosen)) = false) as ->
    by (destruct Hch as [-> | ->]; done).
  simpl. unfold policy_store_Create. rewrite (bool_decide_false (pu_scope op = "")) by done. simpl.
  rewrite (bool_decide_false (po_TenantID _ ≠ _)) by tauto.
  assert (existsb (λ r, bool_decide (pr_tenant r = po_TenantID (pu_policy op)) && (pr_version r =? wrap64 (0 + 1))) rows = true) as Hex.
  { apply existsb_exists. exists row. split; [by apply list_elem_of_In|]. by rewrite bool_decide_true, Hv by congruence. }
  unfold current_policy. simpl. rewrite lookup_empty. simpl. rewrite Hex. by destruct (pu_audit op).
Qed.
End Publication.

(** ** Concrete instances *)

(** No regular expressions, no event stores, no judge. *)
Definition no_regexp : Regexp :=
  {| regex := unit; regex_Compile := λ _, Err (ErrNew "regexp: unsupported"); regex_MatchString := λ _ _, false;
     regex_ReplaceAllString := λ _ s _, s |}.

Definition no_sink : EventSink unit := {| sink_Emit := λ k _, (None, k) |}.
Definition no_security : SecurityEventStore unit := {| security_Create := λ s _ _, (None, s) |}.
Definition no_judge : Judge unit := {| judge_Verdict := λ j _ _, (Err (ErrNew "no judge"), j) |}.

Definition rule (id pattern action : string) : Rule :=
  {| ru_ID := id; ru_Kind := "keyword"; ru_Pattern := pattern; ru_Action := action; ru_Replacement := "" |}.

Definition draft (tenant : string) : Policy :=
  {| po_ID := "p"; po_TenantID := tenant; po_Version := 0; po_SecurityEpoch := 0; po_Rules := [rule "r" "secret" "block"];
     po_ChangeType := ChangeTighten; po_PublishedAt := 0 |}.

Definition publication (audit : option error) : publish_op :=
  {| pu_now := 0; pu_db := None; pu_audit := audit; pu_scope := "t"; pu_policy := draft "t"; pu_change := ChangeTighten;
     pu_actor := "admin" |}.

Definition published (version : Z) : Policy :=
  {| po_ID := "p"; po_TenantID := "t"; po_Version := version; po_SecurityEpoch := version;
     po_Rules := [rule "r" "secret" "block"]; po_ChangeType := ChangeTighten; po_PublishedAt := 0 |}.

Lemma published_policy_survives_restart_witness :
  ∃ q, (Active (NewPolicyRegistryWithStore (rows_of (FastPublish (H := no_regexp)
          (foldl (publish_exec (H := no_regexp)) (NewPolicyRegistryWithStore []) [publication None]) 0 None None "t" (draft "t")
          ChangeTighten "admin").2)) None "t").1 = (q, true) ∧
       po_ID q = "p" ∧ po_Version q = 2 ∧ po_SecurityEpoch q = 2 ∧ po_Rules q = [rule "r" "secret" "block"].
Proof.
  apply (published_policy_survives_restart (H := no_regexp) [publication None] (publication None) (published 2)).
  - vm_compute. reflexivity.
  - vm_compute. reflexivity.
Defined.

(** An audit failure leaves the stored version ahead of the active one, and the next
    publication, with a working audit, is refused by the primary key. *)
Theorem audit_failure_blocks_publication :
  let r := publish_exec (H := no_regexp) (NewPolicyRegistryWithStore []) (publication (Some (ErrNew "audit"))) in
  FastPublish (H := no_regexp) r 0 None None "t" (draft "t") ChangeTighten "admin" = (Err unique_violation, r).
Proof. vm_compute. reflexivity. Qed.

Definition greeting (content : string) : Message :=
  {| msg_Role := "user"; msg_Content := content; msg_ToolCallID := ""; msg_ToolCalls := []; msg_CacheControl := ""; msg_Parts := [] |}.

#[local] Existing Instances no_regexp no_sink no_security no_judge.

Definition example_engine : Engine :=
  {| eng_version := 1;
     eng_rules := [{| cr_rule := {| ru_ID := "b"; ru_Kind := "keyword"; ru_Pattern := "attack"; ru_Action := "block";
                                    ru_Replacement := "[redacted]" |}; cr_regex := None |};
                   {| cr_rule := {| ru_ID := "s"; ru_Kind := "keyword"; ru_Pattern := "secret"; ru_Action := "redact";
                                    ru_Replacement := "[redacted]" |}; cr_regex := None |}] |}.

Definition example_rules : list Rule := [rule "b" "attack" "block"; rule "s" "secret" "redact"].

Definition example_handler : GuardHandler :=
  {| gh_Engine := Some example_engine; gh_Output := false; gh_Groundedness := None; gh_Action := "" |}.

Definition chat_request (content : string) : UnifiedRequest :=
  with_payloads example_request ((λ chat, with_messages chat [greeting content]) <$> ur_Chat example_request) None None.

Definition guarded (content : string) : RequestContext :=
  incoming "r" (NewTenantSnapshot (example_data "priority")) (chat_request content).

Definition idle : guard_state (K := unit) (S := unit) (J := unit) :=
  {| gs_next := 0; gs_sink := Some tt; gs_security := None; gs_judge := None; gs_engines := ∅ |}.

Lemma guardrail_passes_only_clean_witness :
  ∃ u', rc_Request (Handle true (λ _, ("id", 0)) example_handler (guarded "my secret") idle).1.2 = Some u' ∧
    ∃ chat', ur_Chat u' = Some chat' ∧ Forall2 (passed_message example_rules) [greeting "my secret"] (chat_Messages chat').
Proof.
  destruct (guardrail_passes_only_clean true (λ _, ("id", 0)) example_handler (guarded "my secret") idle
              (Handle true (λ _, ("id", 0)) example_handler (guarded "my secret") idle).1.2
              (Handle true (λ _, ("id", 0)) example_handler (guarded "my secret") idle).2 [] example_rules) as [Hin _].
  - reflexivity.
  - intros s Hs s0 Hs0. by apply elem_of_nil in Hs0.
  - exists example_engine, 1. split; reflexivity.
  - vm_compute. reflexivity.
  - destruct (Hin eq_refl (chat_request "my secret") eq_refl) as (u' & Hu & _ & _ & Hchat). exists u'. split; [exact Hu|exact Hchat].
Defined.

(** The fingerprint runs the fields of a rule together: a redaction of p by the word
    block and a block of predact have one fingerprint, so that a snapshot with the one
    policy is guarded by the engine of the other, if that was compiled first. *)
Definition redact_p : GuardrailRule :=
  {| gl_ID := "r"; gl_Kind := "keyword"; gl_Pattern := "p"; gl_Action := "redact"; gl_Replacement := "block" |}.
Definition block_predact : GuardrailRule :=
  {| gl_ID := "r"; gl_Kind := "keyword"; gl_Pattern := "predact"; gl_Action := "block"; gl_Replacement := "" |}.
Definition policy_with (rule : GuardrailRule) : GuardrailPolicy :=
  {| gp_Mode := "enforce"; gp_SecurityEpoch := 1; gp_Rules := [rule]; gp_Judge := {| gj_Enabled := false; gj_Model := ""; gj_Action := "" |};
     gp_Groundedness := {| gg_Enabled := false; gg_MinOverlap := f64_zero |} |}.

Example fingerprint_is_ambiguous s :
  engineCacheKey s (policy_with redact_p) = engineCacheKey s (policy_with block_predact) ∧
  (∃ e e', New 1 (policy_rules (policy_with redact_p)) = Ok e ∧ New 1 (policy_rules (policy_with block_predact)) = Ok e' ∧
     res_Blocked (Evaluate e "predact") = false ∧ res_Blocked (Evaluate e' "predact") = true).
Proof. split; [reflexivity|]. eexists _, _. split_and!; reflexivity. Qed.

(** ** What a checkpoint leaves alone

    A handler rewrites the payload of the request or of the response and nothing else
    of the context; the judge is called by the output checkpoint only. *)

Section Frame.
Context `{!Regexp} {K S J : Type} `{!EventSink K} `{!SecurityEventStore S} `{!Judge J}.
Context (wired : bool) (stamp : nat → string * Z).
Implicit Types (st : guard_state (K := K) (S := S) (J := J)) (c : RequestContext).

Lemma handle_matches_judge c blocked ms st : gs_judge (handle_matches wired stamp c blocked ms st).2 = gs_judge st.
Proof.
  revert st. induction ms as [|m ms IH]; intros st; simpl; [done|].
  assert (gs_judge (record_match wired stamp c m st).2 = gs_judge st) as Hm.
  { unfold record_match. repeat case_match; done. }
  destruct (record_match wired stamp c m st) as [[err|] st']; simpl in *; [done|].
  destruct blocked; [done|]. by rewrite IH.
Qed.

Lemma guard_calls_judge e c refusal calls st : gs_judge (guard_calls wired stamp e c refusal calls st).2 = gs_judge st.
Proof.
  revert st. induction calls as [|call calls IH]; intros st; simpl; [done|].
  case_bool_decide; [apply IH|]. destruct (res_Matches _) as [|m ms] eqn:Em; [apply IH|].
  pose proof (handle_matches_judge c (res_Blocked (Evaluate e (tcf_Arguments (tc_Function call)))) (m :: ms) st) as Hm.
  unfold handleMatches. rewrite Em. by destruct (handle_matches _ _ _ _ _ _) as [[err|] st'].
Qed.

Lemma guard_message_judge e c refusal m st : gs_judge (guard_message wired stamp e c refusal m st).2 = gs_judge st.
Proof.
  unfold guard_message, handleMatches. set (r := Evaluate _ _).
  pose proof (handle_matches_judge c (res_Blocked r) (res_Matches r) st) as Hm.
  destruct (handle_matches _ _ _ _ _ _) as [[err|] st']; simpl in *; [done|].
  pose proof (guard_calls_judge e c refusal (msg_ToolCalls m) st') as Hc. simpl.
  destruct (guard_calls _ _ _ _ _ _ _) as [err st'']. simpl in *. congruence.
Qed.

Lemma guard_messages_judge e c refusal ms st : gs_judge (guard_messages wired stamp e c refusal ms st).2 = gs_judge st.
Proof.
  revert st. induction ms as [|m ms IH]; intros st; simpl; [done|].
  pose proof (guard_message_judge e c refusal m st) as Hm.
  destruct (guard_message _ _ _ _ _ _ _) as [[[err|] m'] st']; simpl in *; [done|]. specialize (IH st').
  destruct (guard_messages _ _ _ _ _ _ _) as [[err ms'] st'']. simpl in *. congruence.
Qed.

Lemma guard_choices_judge e c chs st : gs_judge (guard_choices wired stamp e c chs st).2 = gs_judge st.
Proof.
  revert st. induction chs as [|ch chs IH]; intros st; simpl; [done|].
  pose proof (guard_message_judge e c (OUTPUT_GUARDRAIL_BLOCKED "tool call arguments blocked by policy") (ch_Message ch) st) as Hm.
  destruct (guard_message _ _ _ _ _ _ _) as [[[err|] m'] st']; simpl in *; [done|]. specialize (IH st').
  destruct (guard_choices _ _ _ _ _ _) as [[err chs'] st'']. simpl in *. congruence.
Qed.

Lemma guard_opt_judge {B} (guard : B → guard_state → option error * B * guard_state) b st :
  (∀ b st, gs_judge (guard b st).2 = gs_judge st) → gs_judge (guard_opt guard b st).2 = gs_judge st.
Proof.
  intros Hg. unfold guard_opt. destruct b as [b|]; [|done]. specialize (Hg b st). by destruct (guard b st) as [[? ?] ?].
Qed.

Lemma evaluated_judge c r st {B} (b : B) :
  gs_judge (let '(err, st) := handleMatches wired stamp c r st in (err, b, st)).2 = gs_judge st.
Proof.
  unfold handleMatches. pose proof (handle_matches_judge c (res_Blocked r) (res_Matches r) st) as Hm.
  by destruct (handle_matches _ _ _ _ _ _).
Qed.

Lemma guard_input_judge e c u st : gs_judge (guard_input wired stamp e c u st).2 = gs_judge st.
Proof.
  unfold guard_input.
  pose proof (guard_opt_judge (guard_tool wired stamp e c) (ur_Tool u) st) as Ht.
  destruct (guard_opt (guard_tool _ _ _ _) _ _) as [[[err|] t] st1]; simpl in *;
    [apply Ht; intros; unfold guard_tool; case_bool_decide; [done|]; apply evaluated_judge|].
  rewrite <- Ht by (intros; unfold guard_tool; case_bool_decide; [done|]; apply evaluated_judge).
  pose proof (guard_opt_judge (guard_file wired stamp e c) (ur_File u) st1) as Hf.
  destruct (guard_opt (guard_file _ _ _ _) _ _) as [[[err|] f] st2]; simpl in *;
    [apply Hf; intros; unfold guard_file; destruct (_ || _); [done|]; apply evaluated_judge|].
  rewrite <- Hf by (intros; unfold guard_file; destruct (_ || _); [done|]; apply evaluated_judge).
  set (refusal := GUARDRAIL_BLOCKED _).
  set (guard := λ (chat : ChatPayload) (st : guard_state), _).
  pose proof (guard_opt_judge guard (ur_Chat u) st2) as Hc.
  destruct (guard_opt guard _ _) as [[err chat] st3]. simpl in *. apply Hc. intros chat' st'. unfold guard.
  pose proof (guard_messages_judge e c refusal (chat_Messages chat') st') as Hm.
  by destruct (guard_messages _ _ _ _ _ _ _) as [[? ?] ?].
Qed.

(** The judge after an output checkpoint: as before, or one verdict later. *)
Lemma checkpoint_judge (P : J → Prop) h c r st :
  (∀ j a b, P j → P (judge_Verdict j a b).2) → (∀ j, gs_judge st = Some j → P j) →
  ∀ j, gs_judge (checkpointAdvanced wired stamp h c r st).2 = Some j → P j.
Proof.
  intros HP Hst. unfold checkpointAdvanced. destruct (_ && _); [exact Hst|].
  set (combined := lines _). set (text := match _ with Some _ => _ | None => "" end).
  assert (∀ j, gs_judge (advanced_failure h combined text st).2 = Some j → P j) as Ha.
  { unfold advanced_failure. destruct (gs_judge st) as [j0|] eqn:Ej; [|simpl; by rewrite Ej].
    case_bool_decide; [|simpl; by rewrite Ej].
    specialize (HP j0 combined "output safety/quality" (Hst _ eq_refl)).
    destruct (judge_Verdict _ _ _) as [verdict j1]. simpl in *. by intros j [= <-]. }
  destruct (advanced_failure h combined text st) as [failed st']. simpl in *.
  repeat case_match; simplify_eq/=; done.
Qed.

Lemma guard_output_judge (P : J → Prop) h e c r st :
  (∀ j a b, P j → P (judge_Verdict j a b).2) → (∀ j, gs_judge st = Some j → P j) →
  ∀ j, gs_judge (guard_output wired stamp h e c r st).2 = Some j → P j.
Proof.
  intros HP Hst. unfold guard_output.
  pose proof (guard_opt_judge (guard_tool_result wired stamp e c) (re_ToolResult r) st) as Ht.
  destruct (guard_opt (guard_tool_result _ _ _ _) _ _) as [[err t] st1]. simpl in *.
  rewrite <- Ht in Hst by (intros; apply evaluated_judge). destruct err as [err|]; [exact Hst|].
  pose proof (guard_choices_judge e c (re_Choices r) st1) as Hc.
  destruct (guard_choices _ _ _ _ _ _) as [[err chs] st2]. simpl in *. rewrite <- Hc in Hst.
  destruct err as [err|]; [exact Hst|].
  pose proof (checkpoint_judge P h c (with_output (with_output r (re_Choices r) t) chs t) st2 HP Hst) as Hk.
  by destruct (checkpointAdvanced _ _ _ _ _ _) as [err st3].
Qed.

(** Everything but the payload is kept, and the judge only moves by its verdicts. *)
Lemma Handle_frame (P : J → Prop) h c st err c' st' :
  (∀ j a b, P j → P (judge_Verdict j a b).2) → (∀ j, gs_judge st = Some j → P j) →
  Handle wired stamp h c st = (err, c', st') →
  (∃ u r, c' = with_payload c u r ∧ (is_Some (rc_Request c) ↔ is_Some u) ∧ (is_Some (rc_Response c) ↔ is_Some r)) ∧
  ∀ j, gs_judge st' = Some j → P j.
Proof.
  intros HP Hst. unfold Handle, engineFor.
  set (found := match rc_Snapshot c with Some _ => _ | None => _ end).
  assert (gs_judge found.2 = gs_judge st) as Hf.
  { unfold found. destruct (rc_Snapshot c) as [s|]; [|done]. by destruct (CompileEngine _ _ _). }
  destruct found as [engine st1]. simpl in Hf. rewrite <- Hf in Hst.
  assert (c = with_payload c (rc_Request c) (rc_Response c)) as Hc by (by destruct c).
  destruct engine as [e|er]; [|intros [= <- <- <-]; split; [by eexists _, _|done]].
  destruct (gh_Output h).
  - destruct (rc_Response c) as [r|] eqn:Er; [|intros [= <- <- <-]; split; [by eexists _, _|done]].
    pose proof (guard_output_judge P h e c r st1 HP Hst) as Ho.
    destruct (guard_output _ _ _ _ _ _ _) as [[err1 r1] st2]. intros [= <- <- <-]. split; [|exact Ho].
    eexists _, _. split; [done|]. split; [done|]. split; by eexists.
  - destruct (rc_Request c) as [u|] eqn:Eu; [|intros [= <- <- <-]; split; [by eexists _, _|done]].
    pose proof (guard_input_judge e c u st1) as Hi.
    destruct (guard_input _ _ _ _ _ _) as [[err1 u1] st2]. intros [= <- <- <-]. simpl in Hi. rewrite Hi.
    split; [|exact Hst]. eexists _, _. split; [done|]. split; [split; by eexists|done].
Qed.
End Frame.
