(* ===== verification/StreamGuard.v ===== *)
(** * Streaming guardrails: internal/guardrail/stream.go, internal/gateway/guardrail/streamwire.go,
      internal/app/streamcollector.go

    A streamed response passes three layers: a rolling window over the raw text that
    cuts the stream on a blocking match, a buffer that releases at sentence and
    token boundaries with local redaction, and an asynchronous check of what was
    already released.  The collector tees what is released to the client and into
    the response that accounting sees.

    The goroutine of the third layer is split at its completion: [Submit] leaves a
    pending check, [shadow_complete] is the rest of its body, run whenever the
    provider answers.  The stop channel is closed exactly when [sh_stopped] is set. *)

From stdpp Require Import pretty.
From S2P Require Import Prelude GoFloat GoStd GoText Snapshot Accounting Pipeline Interaction Guardrail.

Open Scope string_scope.
Open Scope Z_scope.

(** ** guardrail/stream.go *)

Definition BlockError (msg : string) : error := ErrNew (if bool_decide (msg = "") then "stream blocked by guardrail" else msg).

Section Stream.
Context `{!Regexp}.

Record InlineStreamGuard := { ig_engine : Engine; ig_window : string; ig_windowBytes : Z }.

Definition NewInlineStreamGuard (engine : Engine) (windowBytes : Z) : InlineStreamGuard :=
  {| ig_engine := engine; ig_window := ""; ig_windowBytes := if windowBytes <=? 0 then 256 else windowBytes |}.

Definition inline_Evaluate (g : InlineStreamGuard) (chunk : string) : EvalResult * InlineStreamGuard :=
  let combined := ig_window g +:+ chunk in
  let window := if ig_windowBytes g <? Z.of_nat (String.length combined)
                then last_bytes (Z.to_nat (ig_windowBytes g)) combined else combined in
  (Evaluate (ig_engine g) combined,
   {| ig_engine := ig_engine g; ig_window := window; ig_windowBytes := ig_windowBytes g |}).

Record BufferedStreamGuard := { bg_engine : Engine; bg_buffer : string; bg_maxTokens : Z }.

Definition NewBufferedStreamGuard (engine : Engine) (maxTokens : Z) : BufferedStreamGuard :=
  {| bg_engine := engine; bg_buffer := ""; bg_maxTokens := if maxTokens <=? 0 then 64 else maxTokens |}.

Definition boundary : string := ".!?" +:+ newline.

Definition no_result : EvalResult := {| res_Content := ""; res_Blocked := false; res_Matches := [] |}.

Definition set_buffer (g : BufferedStreamGuard) (buffer : string) : BufferedStreamGuard :=
  {| bg_engine := bg_engine g; bg_buffer := buffer; bg_maxTokens := bg_maxTokens g |}.

Definition Push (g : BufferedStreamGuard) (chunk : string) : EvalResult * bool * BufferedStreamGuard :=
  let value := bg_buffer g +:+ chunk in
  if contains_any boundary chunk || (bg_maxTokens g <=? fields_count value)
  then (Evaluate (bg_engine g) value, true, set_buffer g "")
  else (no_result, false, set_buffer g value).

Definition Flush (g : BufferedStreamGuard) : EvalResult * BufferedStreamGuard :=
  (if bool_decide (bg_buffer g = "") then no_result else Evaluate (bg_engine g) (bg_buffer g), set_buffer g "").

Record ShadowGuard := { sh_failMode : string; sh_stopped : bool; sh_pending : list string }.

Definition NewShadowGuard (failMode : string) : ShadowGuard :=
  {| sh_failMode := if bool_decide (failMode = "") then ExternalFailOpen else failMode; sh_stopped := false; sh_pending := [] |}.

(** The released text waits for its verdict. *)
Definition Submit (g : ShadowGuard) (released : string) : ShadowGuard :=
  {| sh_failMode := sh_failMode g; sh_stopped := sh_stopped g; sh_pending := (sh_pending g ++ [released])%list |}.

(** The provider answers for the [i]-th pending text: is it a violation? *)
Definition shadow_complete (g : ShadowGuard) (i : nat) (answer : result ExternalResult) : bool * ShadowGuard :=
  let pending := delete i (sh_pending g) in
  let blocked := match EvaluateExternal (sh_failMode g) answer with
                 | Ok r => xr_Blocked r
                 | Err _ => bool_decide (sh_failMode g = ExternalFailClosed)
                 end in
  (blocked, {| sh_failMode := sh_failMode g; sh_stopped := sh_stopped g || blocked; sh_pending := pending |}).

Definition shadow_Stop (g : ShadowGuard) : ShadowGuard :=
  {| sh_failMode := sh_failMode g; sh_stopped := true; sh_pending := sh_pending g |}.

Definition shadow_Allow (g : ShadowGuard) : bool := negb (sh_stopped g).

(** ** gateway/guardrail/streamwire.go *)

Record StreamGuardConfig := {
  cfg_Engine : option Engine; cfg_WindowBytes : Z; cfg_BufferTokens : Z; cfg_External : bool; cfg_FailMode : string;
  cfg_Observed : bool;  (** a sink or a store, ids and a clock are wired *)
  cfg_TenantID : string; cfg_ProjectID : string; cfg_RequestID : string; cfg_SnapshotVersion : Z }.

Record StreamGuard := {
  sg_inline : InlineStreamGuard; sg_buffered : BufferedStreamGuard; sg_shadow : option ShadowGuard;
  sg_cfg : StreamGuardConfig; sg_stopped : bool;
  sg_events : list (string * string * list (string * string)) }.

Definition NewStreamGuard (cfg : StreamGuardConfig) : option StreamGuard :=
  match cfg_Engine cfg with
  | None => None
  | Some engine =>
      Some {| sg_inline := NewInlineStreamGuard engine (cfg_WindowBytes cfg);
              sg_buffered := NewBufferedStreamGuard engine (cfg_BufferTokens cfg);
              sg_shadow := if cfg_External cfg then Some (NewShadowGuard (cfg_FailMode cfg)) else None;
              sg_cfg := cfg; sg_stopped := false; sg_events := [] |}
  end.

(** The rule, the kind and the attributes of an event; ids and times are stamped
    by the sinks, whose errors are ignored. *)
Definition emit (g : StreamGuard) (ruleID kind : string) (attributes : list (string * string)) : StreamGuard :=
  if cfg_Observed (sg_cfg g) then
    {| sg_inline := sg_inline g; sg_buffered := sg_buffered g; sg_shadow := sg_shadow g; sg_cfg := sg_cfg g;
       sg_stopped := sg_stopped g; sg_events := (sg_events g ++ [(ruleID, kind, attributes)])%list |}
  else g.

Definition emitMatches (g : StreamGuard) (r : EvalResult) : StreamGuard :=
  foldl (λ g m, emit g (ma_RuleID m) "guardrail.match"
                  [("rule_id", ma_RuleID m); ("action", ma_Action m); ("content_hash", ma_ContentHash m)]) g (res_Matches r).

Definition reportRetroactive (g : StreamGuard) : StreamGuard :=
  emit g "" "guardrail.retroactive"
    [("action", "retroactive"); ("snapshot_version", pretty (cfg_SnapshotVersion (sg_cfg g)))].

Definition set_layers (g : StreamGuard) (inline : InlineStreamGuard) (buffered : BufferedStreamGuard)
    (shadow : option ShadowGuard) (stopped : bool) : StreamGuard :=
  {| sg_inline := inline; sg_buffered := buffered; sg_shadow := shadow; sg_cfg := sg_cfg g; sg_stopped := stopped;
     sg_events := sg_events g |}.

Definition submitReleased (g : StreamGuard) (released : string) : StreamGuard :=
  match sg_shadow g with
  | Some sh => if bool_decide (released = "") then g
               else set_layers g (sg_inline g) (sg_buffered g) (Some (Submit sh released)) (sg_stopped g)
  | None => g
  end.

Definition stop_now (g : StreamGuard) : StreamGuard := set_layers g (sg_inline g) (sg_buffered g) (sg_shadow g) true.

(** The second layer of [Write] and the release. *)
Definition write_buffered (g : StreamGuard) (delta : string) (final : bool) : result string * StreamGuard :=
  let '(r, release, buffered) := Push (sg_buffered g) delta in
  let g := set_layers g (sg_inline g) buffered (sg_shadow g) (sg_stopped g) in
  if final then
    let '(r, buffered) := Flush (sg_buffered g) in
    let g := set_layers g (sg_inline g) buffered (sg_shadow g) (sg_stopped g) in
    let g := emitMatches g r in
    let g := if bool_decide (res_Content r = "") then g else submitReleased g (res_Content r) in
    (Ok (res_Content r), g)
  else if negb release then (Ok "", g)
  else
    let g := emitMatches g r in
    (Ok (res_Content r), submitReleased g (res_Content r)).

Definition Write (g : StreamGuard) (delta : string) (final : bool) : result string * StreamGuard :=
  if sg_stopped g then (Err (BlockError "stream stopped"), g)
  else if match sg_shadow g with Some sh => negb (shadow_Allow sh) | None => false end
  then (Err (BlockError "stream cut by retroactive guardrail"), stop_now g)
  else if bool_decide (delta = "") then write_buffered g delta final
  else
    let '(r, inline) := inline_Evaluate (sg_inline g) delta in
    let g := set_layers g inline (sg_buffered g) (sg_shadow g) (sg_stopped g) in
    if res_Blocked r then (Err (BlockError "stream blocked by inline guardrail"), stop_now (emitMatches g r))
    else write_buffered g delta final.

Definition Stop (g : StreamGuard) : StreamGuard :=
  set_layers g (sg_inline g) (sg_buffered g) (shadow_Stop <$> sg_shadow g) true.

(** ** app/streamcollector.go *)

Record streamCollector := {
  sc_out : bool; sc_gr : option StreamGuard; sc_started : Z;
  sc_ttft : Z; sc_responseID : string; sc_model : string; sc_content : string; sc_stopReason : string;
  sc_usage : option UnifiedUsage; sc_final : bool; sc_delivered : list StreamEvent }.

Definition newStreamCollector (out : bool) (gr : option StreamGuard) (started : Z) : streamCollector :=
  {| sc_out := out; sc_gr := gr; sc_started := started; sc_ttft := 0; sc_responseID := ""; sc_model := "";
     sc_content := ""; sc_stopReason := ""; sc_usage := None; sc_final := false; sc_delivered := [] |}.

Definition rewrite_delta (e : StreamEvent) (delta : string) : StreamEvent :=
  {| se_ID := se_ID e; se_Model := se_Model e; se_Index := se_Index e; se_Delta := delta;
     se_ToolCallDeltas := se_ToolCallDeltas e; se_StopReason := se_StopReason e; se_Usage := se_Usage e;
     se_Final := se_Final e |}.

Definition or_keep (new old : string) : string := if bool_decide (new = "") then old else new.

(** The guard on one event: what may be delivered. *)
Definition police (gr : option StreamGuard) (e : StreamEvent) : result string * option StreamGuard :=
  match gr with
  | None => (Ok (se_Delta e), None)
  | Some g =>
      match Write g (se_Delta e) (se_Final e) with
      | (Err err, g) => (Err err, Some g)
      | (Ok delivered, g) => (Ok delivered, Some (if se_Final e then Stop g else g))
      end
  end.

(** [now] is when the chunk is forwarded, [written] the outcome of the client
    writer, which is called when there is something to forward. *)
Definition WriteChunk (c : streamCollector) (now : Z) (written : option error) (e : StreamEvent) :
    option error * streamCollector :=
  let '(delivered, gr) := police (sc_gr c) e in
  let text := match delivered with Ok d => d | Err _ => "" end in
  let forward :=
    sc_out c && (negb (bool_decide (text = "")) || negb (bool_decide (se_StopReason e = "")) || se_Final e ||
                 negb (bool_decide (se_ToolCallDeltas e = []))) in
  let first := negb (bool_decide (text = "")) || negb (bool_decide (se_ToolCallDeltas e = [])) in
  let collected content ttft delivered :=
    {| sc_out := sc_out c; sc_gr := gr; sc_started := sc_started c; sc_ttft := ttft;
       sc_responseID := or_keep (se_ID e) (sc_responseID c); sc_model := or_keep (se_Model e) (sc_model c);
       sc_content := content; sc_stopReason := or_keep (se_StopReason e) (sc_stopReason c);
       sc_usage := match se_Usage e with Some u => Some u | None => sc_usage c end;
       sc_final := sc_final c || se_Final e; sc_delivered := delivered |} in
  match delivered with
  | Err err => (Some err, collected (sc_content c) (sc_ttft c) (sc_delivered c))
  | Ok _ =>
      let content := sc_content c +:+ text in
      if forward then
        let ttft := if first && (sc_ttft c =? 0) && negb (sc_started c =? zero_time) then time_sub now (sc_started c) else sc_ttft c in
        (written, collected content ttft (sc_delivered c ++ [rewrite_delta e text])%list)
      else (None, collected content (sc_ttft c) (sc_delivered c))
  end.

Definition no_usage : UnifiedUsage :=
  {| us_InputTokens := 0; us_OutputTokens := 0; us_CacheReadTokens := 0; us_CacheWriteTokens := 0;
     us_CachedInputTokens := 0; us_ReasoningTokens := 0; us_AudioInputTokens := 0; us_AudioOutputTokens := 0;
     us_ImageInputUnits := 0; us_ImageOutputUnits := 0; us_ToolCalls := 0; us_Source := ""; us_Estimated := false;
     us_EstimationMethod := "" |}.

Definition Response (c : streamCollector) (now : Z) : UnifiedResponse :=
  {| re_ID := sc_responseID c; re_Model := sc_model c;
     re_StopReason := if bool_decide (sc_stopReason c = "") && sc_final c then "stop" else sc_stopReason c;
     re_Usage := default no_usage (sc_usage c); re_CreatedAt := now;
     re_Choices := [{| ch_Index := 0;
                       ch_Message := {| msg_Role := "assistant"; msg_Content := sc_content c; msg_ToolCallID := "";
                                        msg_ToolCalls := []; msg_CacheControl := ""; msg_Parts := [] |} |}];
     re_Embeddings := []; re_Rerank := []; re_Audio := None; re_Batch := None; re_File := None; re_RawContent := "";
     re_ToolResult := None |}.
End Stream.

(** ** The rolling window misses no keyword *)

Section Keywords.
Context `{!Regexp}.

(** Rules that cut the stream on a keyword. *)
Definition keyword_block (c : compiledRule) : Prop :=
  ru_Kind (cr_rule c) = "keyword" ∧ ru_Action (cr_rule c) = "block".

Definition mentions (rules : list compiledRule) (text : string) : bool :=
  existsb (λ c, contains (ru_Pattern (cr_rule c)) text) rules.

Lemma keyword_rule c text :
  keyword_block c → apply_rule c text = (contains (ru_Pattern (cr_rule c)) text, text).
Proof.
  intros [Hk Ha]. unfold apply_rule. rewrite Hk, Ha. rewrite bool_decide_true by done.
  rewrite bool_decide_false by done. by rewrite andb_false_r.
Qed.

Lemma evaluate_keywords rules hash text ms :
  Forall keyword_block rules →
  res_Blocked (evaluate_rules rules hash text ms) = mentions rules text ∧
  res_Content (evaluate_rules rules hash text ms) = text.
Proof.
  intros Hr. revert ms. induction Hr as [|c rules Hc Hr IH]; intros ms; [done|]. cbn [evaluate_rules mentions existsb].
  rewrite keyword_rule by done. destruct Hc as [_ Ha]. destruct (contains _ text); [|apply IH].
  rewrite bool_decide_true by done. done.
Qed.

Lemma mentions_spec rules text :
  mentions rules text = true ↔ ∃ c, c ∈ rules ∧ contains (ru_Pattern (cr_rule c)) text = true.
Proof. unfold mentions. rewrite existsb_exists. by setoid_rewrite list_elem_of_In. Qed.

(** A keyword that is new in [text +:+ delta] lies in the window and the delta. *)
Lemma window_suffices p a window delta w :
  (String.length p <= S w)%nat → (a = "" ∨ String.length window = w) →
  contains p (a +:+ window) = false →
  contains p ((a +:+ window) +:+ delta) = contains p (window +:+ delta).
Proof.
  intros Hp Hw Hno. apply eq_true_iff_eq. split.
  - intros (x & y & Hxy)%contains_spec. apply contains_spec.
    destruct (decide (String.length (x +:+ p) <= String.length (a +:+ window)))%nat as [Hle|Hgt].
    + exfalso. rewrite <- str_app_assoc in Hxy.
      destruct (str_app_cut (x +:+ p) y (a +:+ window) delta (eq_sym Hxy) Hle) as (m & Hm & _).
      apply not_true_iff_false in Hno. apply Hno, contains_spec. exists x, m. by rewrite Hm, str_app_assoc.
    + assert (String.length a <= String.length x)%nat as Hax.
      { rewrite !str_length_app in Hgt. destruct Hw as [-> | Hw]; [simpl; lia|]. lia. }
      rewrite str_app_assoc in Hxy. destruct (str_app_cut a (window +:+ delta) x (p +:+ y) Hxy Hax) as (m & _ & Hm).
      exists m, y. done.
  - intros Hc. rewrite str_app_assoc. by apply contains_app_r.
Qed.

(** What the guard has seen, delivered and kept after the text [seen]. *)
Record tracks (e : Engine) (w : nat) (seen delivered : string) (g : StreamGuard) : Prop := {
  tk_engine : ig_engine (sg_inline g) = e ∧ bg_engine (sg_buffered g) = e;
  tk_window : ∃ a, seen = a +:+ ig_window (sg_inline g) ∧ (a = "" ∨ String.length (ig_window (sg_inline g)) = w) ∧
                   (String.length (ig_window (sg_inline g)) <= w)%nat;
  tk_bytes : ig_windowBytes (sg_inline g) = Z.of_nat w;
  tk_clean : mentions (eng_rules e) seen = false;
  tk_buffer : delivered +:+ bg_buffer (sg_buffered g) = seen;
  tk_pending : fields_count (bg_buffer (sg_buffered g)) < bg_maxTokens (sg_buffered g) ∧ 0 < bg_maxTokens (sg_buffered g);
  tk_running : sg_stopped g = false ∧ sg_shadow g = None }.

Lemma emit_layers g rule kind attributes :
  sg_inline (emit g rule kind attributes) = sg_inline g ∧ sg_buffered (emit g rule kind attributes) = sg_buffered g ∧
  sg_shadow (emit g rule kind attributes) = sg_shadow g ∧ sg_stopped (emit g rule kind attributes) = sg_stopped g.
Proof. unfold emit. by destruct (cfg_Observed (sg_cfg g)). Qed.

Lemma emitMatches_layers g r :
  sg_inline (emitMatches g r) = sg_inline g ∧ sg_buffered (emitMatches g r) = sg_buffered g ∧
  sg_shadow (emitMatches g r) = sg_shadow g ∧ sg_stopped (emitMatches g r) = sg_stopped g.
Proof.
  unfold emitMatches. apply (foldl_invariant (λ g', sg_inline g' = sg_inline g ∧ sg_buffered g' = sg_buffered g ∧
    sg_shadow g' = sg_shadow g ∧ sg_stopped g' = sg_stopped g)); [|done].
  intros g' m (H1 & H2 & H3 & H4). destruct (emit_layers g' (ma_RuleID m) "guardrail.match"
    [("rule_id", ma_RuleID m); ("action", ma_Action m); ("content_hash", ma_ContentHash m)]) as (-> & -> & -> & ->). done.
Qed.

Lemma fields_empty : fields_count "" = 0.
Proof. done. Qed.

Lemma submitReleased_none g released : sg_shadow g = None → submitReleased g released = g.
Proof. intros Hs. unfold submitReleased. by rewrite Hs. Qed.

(** The second layer holds or releases text, and loses none before the end. *)
Lemma write_buffered_spec e g delta :
  Forall keyword_block (eng_rules e) → bg_engine (sg_buffered g) = e → sg_shadow g = None →
  0 < bg_maxTokens (sg_buffered g) →
  ∃ out, (write_buffered g delta false).1 = Ok out ∧
    let g' := (write_buffered g delta false).2 in
    out +:+ bg_buffer (sg_buffered g') = bg_buffer (sg_buffered g) +:+ delta ∧ sg_inline g' = sg_inline g ∧
    bg_engine (sg_buffered g') = e ∧ bg_maxTokens (sg_buffered g') = bg_maxTokens (sg_buffered g) ∧
    fields_count (bg_buffer (sg_buffered g')) < bg_maxTokens (sg_buffered g) ∧
    sg_stopped g' = sg_stopped g ∧ sg_shadow g' = None.
Proof.
  intros Hr He Hs Hm. unfold write_buffered, Push. rewrite He, Hs.
  destruct (contains_any boundary delta || _) eqn:Ec; simpl.
  - set (r := Evaluate e (bg_buffer (sg_buffered g) +:+ delta)).
    destruct (evaluate_keywords (eng_rules e) (content_hash (bg_buffer (sg_buffered g) +:+ delta))
                (bg_buffer (sg_buffered g) +:+ delta) [] Hr) as [_ Hcont].
    set (g1 := set_layers g _ _ _ _). destruct (emitMatches_layers g1 r) as (H1 & H2 & H3 & H4).
    rewrite submitReleased_none by (by rewrite H3). eexists. split; [done|]. rewrite H1, H2, H3, H4.
    assert (res_Content r = bg_buffer (sg_buffered g) +:+ delta) as Hc by exact Hcont. rewrite Hc.
    unfold g1. cbn [set_layers sg_inline sg_buffered sg_stopped sg_shadow set_buffer bg_buffer bg_engine bg_maxTokens].
    rewrite str_app_nil, fields_empty, He. done.
  - apply orb_false_iff in Ec as [_ Hf]. apply Z.leb_gt in Hf. eexists. split; [done|]. rewrite He. simpl. done.
Qed.

Lemma window_step w window chunk :
  let combined := window +:+ chunk in
  let next := if Z.of_nat w <? Z.of_nat (String.length combined) then last_bytes w combined else combined in
  ∃ b, combined = b +:+ next ∧ (b = "" ∨ String.length next = w) ∧ (String.length next <= w)%nat ∧
       (String.length window = w → String.length next = w).
Proof.
  intros combined. simpl. destruct (Z.ltb_spec (Z.of_nat w) (Z.of_nat (String.length combined))).
  - destruct (last_bytes_spec w combined) as (b & Hb & Hl); [lia|]. exists b. rewrite Hl. eauto.
  - exists "". unfold combined in *. rewrite str_length_app in *. split_and!; [done|by left|lia|lia].
Qed.

(** One write: the stream is cut exactly when the text seen so far mentions a keyword. *)
Lemma Write_step e w seen delivered delta g :
  Forall keyword_block (eng_rules e) →
  Forall (λ c, String.length (ru_Pattern (cr_rule c)) <= S w)%nat (eng_rules e) →
  tracks e w seen delivered g →
  if mentions (eng_rules e) (seen +:+ delta) then ∃ err, (Write g delta false).1 = Err err
  else ∃ out, (Write g delta false).1 = Ok out ∧ tracks e w (seen +:+ delta) (delivered +:+ out) (Write g delta false).2.
Proof.
  intros Hr Hlen [[Hei Heb] (a & Hseen & Ha & Hwl) Hbytes Hclean Hbuf [Hpend Hmax] [Hstop Hsh]].
  unfold Write. rewrite Hstop, Hsh. case_bool_decide as Hd.
  - subst delta. rewrite str_app_nil, Hclean.
    destruct (write_buffered_spec e g "" Hr Heb Hsh Hmax) as (out & Ho & Hb & Hi & He & Hmt & Hf & Hst & Hs).
    exists out. split; [done|]. split; rewrite ?Hi, ?Hmt, ?Hst; try done; [by eauto|].
    rewrite str_app_assoc, Hb, str_app_nil. done.
  - unfold inline_Evaluate. rewrite Hei, Hbytes, Nat2Z.id.
    set (combined := ig_window (sg_inline g) +:+ delta).
    assert (mentions (eng_rules e) (seen +:+ delta) = mentions (eng_rules e) combined) as Hmen.
    { apply eq_true_iff_eq. rewrite !mentions_spec, Hseen.
      assert (∀ c, c ∈ eng_rules e → contains (ru_Pattern (cr_rule c)) ((a +:+ ig_window (sg_inline g)) +:+ delta) =
                contains (ru_Pattern (cr_rule c)) combined) as Hc.
      { intros c Hc. apply (window_suffices _ _ _ _ w).
        - by apply (Forall_forall (λ c, String.length (ru_Pattern (cr_rule c)) <= S w)%nat (eng_rules e)).
        - tauto.
        - rewrite <- Hseen. apply not_true_is_false. intros Hct. apply not_true_iff_false in Hclean. apply Hclean.
          apply mentions_spec. eauto. }
      split; intros (c & Hin & Hcc); exists c; split; try done; by rewrite ?Hc in * by done. }
    destruct (evaluate_keywords (eng_rules e) (content_hash combined) combined [] Hr) as [Hbl _].
    fold (Evaluate e combined) in Hbl. cbn [fst snd]. rewrite Hbl, <- Hmen.
    destruct (mentions (eng_rules e) (seen +:+ delta)) eqn:Em; [by eexists|].
    set (g1 := set_layers g _ _ _ _).
    destruct (write_buffered_spec e g1 delta Hr Heb eq_refl Hmax) as (out & Ho & Hb & Hi & He & Hmt & Hf & Hst & Hs).
    exists out. split; [done|]. destruct (window_step w (ig_window (sg_inline g)) delta) as (b & Hcb & Hbw & Hbl' & Hfull).
    split.
    + by rewrite Hi.
    + rewrite Hi. exists (a +:+ b). cbn. fold combined. split_and!.
      * rewrite Hseen, !str_app_assoc. f_equal. exact Hcb.
      * destruct Hbw as [->|]; [|by right]. destruct Ha as [->|Ha]; [by left|].
        right. exact (Hfull Ha).
      * exact Hbl'.
    + by rewrite Hi.
    + exact Em.
    + rewrite str_app_assoc, Hb. cbn. by rewrite <- str_app_assoc, Hbuf.
    + rewrite Hmt. done.
    + rewrite Hst. done.
Qed.

(** The text deltas of a stream, until the guard cuts it. *)
Fixpoint feed (g : StreamGuard) (deltas : list string) : list string * option error * StreamGuard :=
  match deltas with
  | [] => ([], None, g)
  | d :: rest =>
      match Write g d false with
      | (Err err, g) => ([], Some err, g)
      | (Ok out, g) => let '(outs, err, g) := feed g rest in (out :: outs, err, g)
      end
  end.

Definition text (parts : list string) : string := String.concat "" parts.

Lemma text_cons d rest : text (d :: rest) = d +:+ text rest.
Proof. unfold text. destruct rest; simpl; [by rewrite str_app_nil|done]. Qed.

Lemma mentions_app_l rules s t : mentions rules s = true → mentions rules (s +:+ t) = true.
Proof. rewrite !mentions_spec. intros (c & Hc & Hm). exists c. split; [done|]. by apply contains_app_l. Qed.

Lemma feed_spec e w deltas g seen delivered :
  Forall keyword_block (eng_rules e) →
  Forall (λ c, String.length (ru_Pattern (cr_rule c)) <= S w)%nat (eng_rules e) →
  tracks e w seen delivered g →
  let '(outs, err, g') := feed g deltas in
  match err with
  | None => mentions (eng_rules e) (seen +:+ text deltas) = false ∧
            tracks e w (seen +:+ text deltas) (delivered +:+ text outs) g'
  | Some _ => mentions (eng_rules e) (seen +:+ text deltas) = true ∧
              ∃ shown rest kept, seen +:+ text deltas = shown +:+ rest ∧ mentions (eng_rules e) shown = false ∧
                                 shown = (delivered +:+ text outs) +:+ kept
  end.
Proof.
  intros Hr Hlen. revert g seen delivered. induction deltas as [|d deltas IH]; intros g seen delivered Ht.
  - simpl. rewrite !str_app_nil. split; [by destruct Ht|done].
  - cbn [feed]. pose proof (Write_step e w seen delivered d g Hr Hlen Ht) as Hw. rewrite text_cons, <- str_app_assoc.
    destruct (mentions (eng_rules e) (seen +:+ d)) eqn:Em.
    + destruct Hw as [err Hw]. destruct (Write g d false) as [r g1]. simpl in Hw. rewrite Hw.
      split; [by apply mentions_app_l|]. destruct Ht as [_ _ _ Hclean Hbuf _ _].
      exists seen, (d +:+ text deltas), (bg_buffer (sg_buffered g)). split_and!; [by rewrite str_app_assoc|done|].
      by rewrite str_app_nil.
    + destruct Hw as (out & Hw & Ht1). destruct (Write g d false) as [r g1]. simpl in Hw, Ht1. rewrite Hw.
      specialize (IH g1 (seen +:+ d) (delivered +:+ out) Ht1). destruct (feed g1 deltas) as [[outs [err|]] g2].
      * destruct IH as (? & shown & rest & kept & ? & ? & ->). split; [done|]. eexists _, rest, kept.
        split_and!; [done|done|]. by rewrite text_cons, <- (str_app_assoc delivered out).
      * destruct IH as (? & ?). split; [done|]. by rewrite text_cons, <- str_app_assoc.
Qed.

Lemma start_tracks e cfg g :
  cfg_Engine cfg = Some e → cfg_External cfg = false → NewStreamGuard cfg = Some g →
  Forall (λ c, ru_Pattern (cr_rule c) ≠ "") (eng_rules e) →
  tracks e (Z.to_nat (if cfg_WindowBytes cfg <=? 0 then 256 else cfg_WindowBytes cfg)) "" "" g.
Proof.
  unfold NewStreamGuard. intros He Hx Hg Hp. rewrite He, Hx in Hg. injection Hg as <-. split; simpl; try done.
  - exists "". split_and!; [done|by left|lia].
  - destruct (Z.leb_spec (cfg_WindowBytes cfg) 0); lia.
  - apply not_true_is_false. rewrite mentions_spec. intros (c & Hc & Hm). rewrite Forall_forall in Hp.
    specialize (Hp c Hc). destruct (ru_Pattern (cr_rule c)); [done|]. by simpl in Hm.
  - rewrite fields_empty. destruct (Z.leb_spec (cfg_BufferTokens cfg) 0); lia.
Qed.

Lemma final_flush e w seen delivered g :
  Forall keyword_block (eng_rules e) → tracks e w seen delivered g →
  ∃ out, (Write g "" true).1 = Ok out ∧ delivered +:+ out = seen.
Proof.
  intros Hr [[_ He] _ _ _ Hbuf [Hpend _] [Hstop Hsh]]. unfold Write. rewrite Hstop, Hsh. simpl.
  unfold write_buffered, Push. rewrite str_app_nil.
  assert (contains_any boundary "" || (bg_maxTokens (sg_buffered g) <=? fields_count (bg_buffer (sg_buffered g))) = false) as ->.
  { simpl. by apply Z.leb_gt. }
  unfold Flush. cbn [set_layers sg_buffered set_buffer bg_buffer bg_engine]. rewrite He.
  case_bool_decide as Hb; cbn [fst snd res_Content no_result].
  - eexists. split; [done|]. by rewrite <- Hbuf, Hb.
  - eexists. split; [done|].
    destruct (evaluate_keywords (eng_rules e) (content_hash (bg_buffer (sg_buffered g))) (bg_buffer (sg_buffered g)) [] Hr) as [_ Hc].
    fold (Evaluate e (bg_buffer (sg_buffered g))) in Hc. by rewrite Hc.
Qed.

(** C16: A streamed keyword is caught however the provider splits it.  With blocking
    keyword rules only, each at most one byte longer than the rolling window, and no
    external checker configured, a stream of non-final chunks is cut exactly when the
    text received so far contains a keyword; what was delivered is always a prefix of
    that text and contains none; and when nothing is cut, a final chunk that carries no
    text of its own delivers the rest of the text.  (Text in the final chunk itself may
    be lost: [final_chunk_text_lost].) *)
Theorem stream_cut_iff_keyword cfg e g deltas :
  cfg_Engine cfg = Some e → cfg_External cfg = false → NewStreamGuard cfg = Some g →
  Forall keyword_block (eng_rules e) →
  Forall (λ c, ru_Pattern (cr_rule c) ≠ "" ∧
               Z.of_nat (String.length (ru_Pattern (cr_rule c))) <=
                 1 + (if cfg_WindowBytes cfg <=? 0 then 256 else cfg_WindowBytes cfg)) (eng_rules e) →
  let '(outs, err, g') := feed g deltas in
  (is_Some err ↔ mentions (eng_rules e) (text deltas) = true) ∧
  (∃ rest, text deltas = text outs +:+ rest) ∧ mentions (eng_rules e) (text outs) = false ∧
  (err = None → ∃ out, (Write g' "" true).1 = Ok out ∧ text outs +:+ out = text deltas).
Proof.
  intros He Hx Hg Hr Hp. set (w := Z.to_nat (if cfg_WindowBytes cfg <=? 0 then 256 else cfg_WindowBytes cfg)).
  assert (tracks e w "" "" g) as Ht.
  { apply (start_tracks e cfg); try done. eapply Forall_impl; [done|]. naive_solver. }
  assert (Forall (λ c, String.length (ru_Pattern (cr_rule c)) <= S w)%nat (eng_rules e)) as Hlen.
  { eapply Forall_impl; [done|]. intros c [_ Hc]. unfold w. revert Hc.
    destruct (Z.leb_spec (cfg_WindowBytes cfg) 0); lia. }
  pose proof (feed_spec e w deltas g "" "" Hr Hlen Ht) as Hf. destruct (feed g deltas) as [[outs [err|]] g'].
  - rewrite !str_nil_app in Hf. destruct Hf as (Hm & shown & rest & kept & Hs & Hc & ->). split_and!; [by eauto| | |done].
    + exists (kept +:+ rest). by rewrite Hs, str_app_assoc.
    + apply not_true_is_false. intros Ho. apply not_true_iff_false in Hc. apply Hc. by apply mentions_app_l.
  - rewrite !str_nil_app in Hf. destruct Hf as [Hm Ht']. destruct (final_flush e w _ _ g' Hr Ht') as (out & Ho & Ho').
    split_and!.
    + rewrite Hm. split; [by intros [? ?]|done].
    + exists out. done.
    + apply not_true_is_false. intros Hin. apply not_true_iff_false in Hm. apply Hm. rewrite <- Ho'. by apply mentions_app_l.
    + intros _. by exists out.
Qed.
End Keywords.

(** ** Concrete instances *)

#[local] Existing Instances no_regexp.

Definition keyword_engine (pattern : string) : Engine :=
  {| eng_version := 1; eng_rules := [{| cr_rule := rule "k" pattern "block"; cr_regex := None |}] |}.

Definition stream_config (engine : Engine) (window : Z) : StreamGuardConfig :=
  {| cfg_Engine := Some engine; cfg_WindowBytes := window; cfg_BufferTokens := 0; cfg_External := false; cfg_FailMode := "";
     cfg_Observed := true; cfg_TenantID := "t"; cfg_ProjectID := "p"; cfg_RequestID := "r"; cfg_SnapshotVersion := 1 |}.

Definition stream_guard (engine : Engine) (window : Z) : StreamGuard :=
  {| sg_inline := NewInlineStreamGuard engine window; sg_buffered := NewBufferedStreamGuard engine 0; sg_shadow := None;
     sg_cfg := stream_config engine window; sg_stopped := false; sg_events := [] |}.

Lemma stream_cut_iff_keyword_witness :
  let '(outs, err, g') := feed (stream_guard (keyword_engine "secret") 8) ["ok. a se"; "cr"; "et b"] in
  (is_Some err ↔ mentions (eng_rules (keyword_engine "secret")) "ok. a secret b" = true) ∧
  (∃ rest, "ok. a secret b" = text outs +:+ rest) ∧ mentions (eng_rules (keyword_engine "secret")) (text outs) = false ∧
  (err = None → ∃ out, (Write g' "" true).1 = Ok out ∧ text outs +:+ out = "ok. a secret b").
Proof.
  apply (stream_cut_iff_keyword (stream_config (keyword_engine "secret") 8) (keyword_engine "secret")
           (stream_guard (keyword_engine "secret") 8) ["ok. a se"; "cr"; "et b"]).
  - reflexivity.
  - reflexivity.
  - reflexivity.
  - repeat constructor.
  - constructor; [|constructor]. split; [discriminate|vm_compute; discriminate].
Defined.

(** ** Where the layers leak *)

(** A last chunk that carries text with a sentence boundary is swallowed: the
    buffer releases into a result that the final branch replaces. *)
Theorem final_chunk_text_lost :
  (Write (stream_guard (keyword_engine "secret") 0) "The answer is 42." true).1 = Ok "".
Proof. vm_compute. reflexivity. Qed.

Definition long_keyword : string := String.concat "" (replicate 300 "a").

(** A blocking keyword longer than the rolling window is found by the second layer
    only, which releases the text all the same. *)
Theorem long_keyword_released :
  let '(outs, err, _) := feed (stream_guard (keyword_engine long_keyword) 0) (replicate 30 "aaaaaaaaaa" ++ ["."])%list in
  err = None ∧ contains long_keyword (text outs) = true.
Proof. vm_compute. done. Qed.

Definition tool_delta : StreamEvent :=
  {| se_ID := "r"; se_Model := "m"; se_Index := 0; se_Delta := "";
     se_ToolCallDeltas := [{| tcd_Index := 0; tcd_ID := "c"; tcd_Type := "function"; tcd_Name := "f"; tcd_Arguments := "secret" |}];
     se_StopReason := ""; se_Usage := None; se_Final := false |}.

(** Streamed tool-call arguments reach the client unchecked, and the assembled
    response that the output stage checks has no tool calls at all. *)
Theorem streamed_tool_calls_unchecked :
  let '(err, c) := WriteChunk (newStreamCollector true (Some (stream_guard (keyword_engine "secret") 0)) 0) 1 None tool_delta in
  err = None ∧ sc_delivered c = [tool_delta] ∧
  map (λ ch, msg_ToolCalls (ch_Message ch)) (re_Choices (Response c 2)) = [[]].
Proof. vm_compute. done. Qed.
