(* ===== verification/RoutingMetrics.v ===== *)
(** * Rolling routing metrics: internal/app/routingmetrics.go

    Per-deployment observations over a one-minute window, fed by the pipeline and read
    by the soft routing strategy and the health map.  Counters are unbounded. *)

From S2P Require Import Prelude GoFloat Snapshot Planner.

Open Scope string_scope.
Open Scope Z_scope.

Definition metricsWindow : Z := minute.

Record deploymentStats := {
  ds_latencyEWMA : float64; ds_costEWMA : float64; ds_cacheAffinity : float64;
  ds_success : Z; ds_failed : Z; ds_inflight : Z; ds_last : Z }.

Definition no_stats : deploymentStats :=
  {| ds_latencyEWMA := f64_zero; ds_costEWMA := f64_zero; ds_cacheAffinity := f64_zero;
     ds_success := 0; ds_failed := 0; ds_inflight := 0; ds_last := zero_time |}.

Abbreviation routingMetrics := (gmap string deploymentStats).

Definition newRoutingMetrics : routingMetrics := ∅.

Definition stateLocked (m : routingMetrics) (id : string) : deploymentStats := default no_stats (m !! id).

Definition begin (m : routingMetrics) (id : string) : routingMetrics :=
  let s := stateLocked m id in
  <[id := {| ds_latencyEWMA := ds_latencyEWMA s; ds_costEWMA := ds_costEWMA s; ds_cacheAffinity := ds_cacheAffinity s;
             ds_success := ds_success s; ds_failed := ds_failed s; ds_inflight := ds_inflight s + 1;
             ds_last := ds_last s |}]> m.

Definition alpha : float64 := f64_const 3 10.
Definition one_minus_alpha : float64 := f64_const 7 10.

(** The constant [1-alpha] is exact before it is rounded. *)
Definition ewma (sample previous : float64) : float64 :=
  f64_add (f64_mul alpha sample) (f64_mul one_minus_alpha previous).

Definition observe (m : routingMetrics) (now : Z) (id : string) (latencyMS cost cacheHitRatio : float64) (success : bool) :
    routingMetrics :=
  let s := stateLocked m id in
  let first := ds_success s + ds_failed s =? 0 in
  let smooth sample previous := if first then sample else ewma sample previous in
  <[id := {| ds_latencyEWMA := smooth latencyMS (ds_latencyEWMA s); ds_costEWMA := smooth cost (ds_costEWMA s);
             ds_cacheAffinity := smooth cacheHitRatio (ds_cacheAffinity s);
             ds_success := if success then ds_success s + 1 else ds_success s;
             ds_failed := if success then ds_failed s else ds_failed s + 1;
             ds_inflight := if 0 <? ds_inflight s then ds_inflight s - 1 else ds_inflight s;
             ds_last := now |}]> m.

Definition fresh (now : Z) (s : deploymentStats) : bool := time_sub now (ds_last s) <=? metricsWindow.

Definition load (s : deploymentStats) : float64 :=
  let total := ds_success s + ds_failed s in
  if 0 <? ds_inflight s then f64_one
  else if 0 <? total then f64_div (f64_of_Z (ds_failed s)) (f64_of_Z total) else f64_zero.

(** The routing input, and the table without the stale windows. *)
Definition snapshot (m : routingMetrics) (now : Z) : gmap string DeploymentMetrics * routingMetrics :=
  let kept := filter (λ p, fresh now p.2 = true) m in
  ((λ s, {| LatencyMS := ds_latencyEWMA s; MetricCost := ds_costEWMA s; Load := load s; CacheAffinity := ds_cacheAffinity s |}) <$> kept,
   kept).

Definition healthy (m : routingMetrics) (id : string) (now : Z) : bool :=
  match m !! id with
  | None => true
  | Some s =>
      if negb (fresh now s) then true
      else
        let total := ds_success s + ds_failed s in
        if total <? 3 then true
        else f64_leb (f64_div (f64_of_Z (ds_failed s)) (f64_of_Z total)) (f64_const 1 2)
  end.

Definition hasData (m : routingMetrics) (id : string) (now : Z) : bool :=
  match m !! id with None => false | Some s => fresh now s end.

(** A deployment whose only trace is a started request has no last observation, so
    the next routing snapshot forgets the request. *)
Lemma begin_forgotten m id now :
  m !! id = None → 0 <= now → (snapshot (begin m id) now).2 !! id = None.
Proof.
  intros Hm Hnow. simpl. apply map_lookup_filter_None. right. intros s Hs.
  unfold begin, stateLocked in Hs. rewrite Hm, lookup_insert_eq in Hs. simplify_eq/=. unfold fresh. cbn [ds_last].
  rewrite not_true_iff_false. apply Z.leb_gt. unfold metricsWindow, time_sub, zero_time, minute. unfold_ints. lia.
Qed.
