(* ===== verification/LiteWorld.v ===== *)
(** * The Lite pipeline's state: internal/app/pipeline.go, internal/app/lifecycle.go

    [litePipeline] wires every component of the gateway; its methods read and change
    them all.  [world] is the request being served together with those components:
    the clock is a function of the number of reads, and so is the id generator,
    which may fail.  The exact cache, the distributed ledger, the accounting
    repository, the event sink and the world behind the executor and the auxiliary
    provider calls are any types with the operations the components require.

    Also here: the pure decisions of the pipeline, which budget policy applies to a
    request, which capabilities it needs, how an error is reported. *)

From S2P Require Import Prelude GoFloat GoStd Circuit Coordination Budget Enforcer Rate Retry Snapshot CredentialPool.
From S2P Require Import Planner Executor Accounting Approval Pipeline Interaction Cache Metering FinOps Guardrail StreamGuard RoutingMetrics.

Open Scope string_scope.
Open Scope Z_scope.

(** ** lifecycle.go: the stream registry *)

Record StreamRegistry := { sr_streams : gset string; sr_draining : bool; sr_next : Z }.

Definition NewStreamRegistry : StreamRegistry := {| sr_streams := ∅; sr_draining := false; sr_next := 0 |}.

(** [id] is the identifier formed of the time and the counter. *)
Definition Register (r : StreamRegistry) (id : string) : option string * StreamRegistry :=
  if sr_draining r then (None, r)
  else (Some id, {| sr_streams := {[id]} ∪ sr_streams r; sr_draining := false; sr_next := wrap64 (sr_next r + 1) |}).

Definition Unregister (r : StreamRegistry) (id : string) : StreamRegistry :=
  {| sr_streams := sr_streams r ∖ {[id]}; sr_draining := sr_draining r; sr_next := sr_next r |}.

Definition Count (r : StreamRegistry) : Z := Z.of_nat (size (sr_streams r)).

Definition BeginDrain (r : StreamRegistry) : StreamRegistry :=
  {| sr_streams := sr_streams r; sr_draining := true; sr_next := sr_next r |}.

(** ** pipeline.go: decisions *)

Definition defaultLiteRatePolicy : Rate.Policy := {| RequestsPerMinute := 600; Burst := 600 |}.

Definition effectiveRatePolicy (configured : Rate.Policy) : Rate.Policy :=
  if RequestsPerMinute configured <=? 0 then defaultLiteRatePolicy else configured.

Definition requiredCapabilities (request : option UnifiedRequest) : list string :=
  match request with
  | None => []
  | Some u =>
      if HasImages u then ["vision"]
      else if bool_decide (ur_Kind u = RequestRerank) then ["rerank"]
      else if bool_decide (ur_Kind u = RequestEmbedding) then ["embedding"]
      else if bool_decide (ur_Kind u = RequestAudio) then
        match ur_Audio u with
        | Some a => if bool_decide (au_Operation a = AudioSpeech) then ["speech"] else ["audio"]
        | None => ["audio"]
        end
      else if bool_decide (ur_Kind u = RequestBatch) || bool_decide (ur_Kind u = RequestFile) then ["batch"]
      else []
  end.

Definition breakerConfigFromSnapshot {CS} (cc : CircuitConfig) : Circuit.Config CS :=
  if cc_MinSamples cc =? 0 then DefaultConfig
  else
    let def := DefaultConfig (S := CS) in
    let cooldown := wrap64 (cc_InitialCooldownMS cc * millisecond) in
    let cooldown := if cooldown <=? 0 then Cooldown def else cooldown in
    let maxCooldown := wrap64 (cc_MaxCooldownMS cc * millisecond) in
    {| MinSamples := cc_MinSamples cc;
       ErrorRate := if f64_leb (cc_ErrorRate cc) f64_zero then ErrorRate def else cc_ErrorRate cc;
       Cooldown := cooldown; CooldownFactor := cc_CooldownFactor cc;
       MaxCooldown := if maxCooldown <=? 0 then cooldown else maxCooldown; Store := None; Observer := false |}.

(** [errors.As] for a [*kernelerrors.Error]: the first one of the unwrap tree. *)
Fixpoint as_kernel (err : error) : option string :=
  match err with
  | ErrKernel code _ _ => Some code
  | ErrNew _ => None
  | ErrWrap _ inner => as_kernel inner
  | ErrJoin l r => match as_kernel l with Some code => Some code | None => as_kernel r end
  end.

Definition block_errors : list error :=
  BlockError <$> ["stream blocked by guardrail"; "stream stopped"; "stream cut by retroactive guardrail";
                  "stream blocked by inline guardrail"].

Definition DeadlineExceeded : error := Executor.DeadlineExceeded.
Definition Canceled : error := ErrNew "context canceled".

(** [upstream] is [errors.As] for a [*contracts.UpstreamError]: its code. *)
Definition outcomeForError (upstream : error → option string) (err : error) : string :=
  match as_kernel err with
  | Some code => code
  | None =>
      if existsb (errors_is err) block_errors then "GUARDRAIL_BLOCKED"
      else match upstream err with
           | Some code => if bool_decide (code ≠ "") then code else
               if errors_is err ErrNoEligibleDeployment then "NO_ELIGIBLE_DEPLOYMENT"
               else if errors_is err DeadlineExceeded || errors_is err Canceled then "TIMEOUT" else "ERROR"
           | None =>
               if errors_is err ErrNoEligibleDeployment then "NO_ELIGIBLE_DEPLOYMENT"
               else if errors_is err DeadlineExceeded || errors_is err Canceled then "TIMEOUT" else "ERROR"
           end
  end.

Definition routeEvidenceFromPlan (plan : option RoutePlan) : list RouteEvidence :=
  match plan with
  | None => []
  | Some p => map (λ item, {| re_DeploymentID := ev_DeploymentID item; re_Eligible := ev_Eligible item;
                              re_Exclusions := ev_Exclusions item |}) (pl_evidence p)
  end.

(** The attempts of the facts, the retries and the fallbacks. *)
Definition attemptsFromResult (result : option (list Executor.Attempt)) : list Accounting.Attempt * Z * Z :=
  match result with
  | None => ([], 0, 0)
  | Some attempts =>
      (map (λ a, {| a_DeploymentID := at_DeploymentID a; a_Outcome := at_Outcome a; a_Number := at_Number a;
                    a_Retryable := at_Retryable a |}) attempts,
       Z.of_nat (length (filter (λ a, 1 < at_Number a) attempts)),
       if (1 <? length attempts)%nat then Z.of_nat (length (filter (λ a, at_Number a = 1) attempts)) else 0)
  end.

Definition usageSource (source fallback : string) : string := if bool_decide (source = "") then fallback else source.

(** [t.Truncate(d)]: multiples of [d] since the zero time. *)
Definition truncate (t d : Z) : Z := t - (t - zero_time) mod d.

(** ** The budget policy of a request *)

Definition policy_matches (c : RequestContext) (item : BudgetPolicy) : bool :=
  (bool_decide (bp_TenantID item = "") || bool_decide (bp_TenantID item = TenantID c)) &&
  (bool_decide (bp_ProjectID item = "") || bool_decide (bp_ProjectID item = ProjectID c)) &&
  (bool_decide (bp_KeyID item = "") || bool_decide (bp_KeyID item = ak_PublicID (rc_Key c))).

Definition policy_duration (item : BudgetPolicy) : Z := wrap64 (bp_WindowHours item * hour).

Definition policy_score (item : BudgetPolicy) : Z :=
  (if bool_decide (bp_ProjectID item = "") then 0 else 1) + (if bool_decide (bp_KeyID item = "") then 0 else 2).

Definition windowed (item : BudgetPolicy) (now : Z) : Budget.Policy :=
  let duration := policy_duration item in
  let windowStart := truncate now duration in
  {| p_ID := bp_ID item; p_TenantID := bp_TenantID item; p_ProjectID := bp_ProjectID item; p_KeyID := bp_KeyID item;
     p_Mode := bp_Mode item; p_Consistency := bp_Consistency item; p_TokenLimit := f64_to_i64 (bp_TokenLimit item);
     p_WindowStart := windowStart; p_WindowEnd := time_add windowStart duration |}.

(** One iteration of the selection: the policy and its score so far. *)
Definition select_policy (c : RequestContext) (now : Z) (best : option (Budget.Policy * Z)) (item : BudgetPolicy) :
    option (Budget.Policy * Z) :=
  if negb (policy_matches c item) then best
  else if policy_duration item <=? 0 then best
  else match best with
       | Some (_, score) => if policy_score item <? score then best else Some (windowed item now, policy_score item)
       | None => Some (windowed item now, policy_score item)
       end.

Definition budgetPolicyFor (c : RequestContext) (now : Z) : option Budget.Policy :=
  match rc_Snapshot c with
  | None => None
  | Some snapshot => fst <$> foldl (select_policy c now) None (BudgetPolicies snapshot)
  end.

(** ** The world *)

Record LiveEvent := { lv_RequestID : string; lv_Outcome : string; lv_DeploymentID : string; lv_LatencyMS : Z }.

#[export] Instance enforcer_budget {L} `{!BudgetLedger L} : SettlementBudget (budgetEnforcer L) :=
  {| budget_Reconcile := Enforcer.Reconcile; budget_Release := Enforcer.Release |}.

Section World.
Context `{!Regexp} {L S X A R K : Type}.

Record world := {
  w_req : RequestContext;
  w_plan : option RoutePlan;
  w_attempts : option (list Executor.Attempt);
  w_tick : nat;
  w_id : nat;
  w_limiter : Rate.Limiter;
  w_meter : Rate.Meter;
  w_budget : budgetEnforcer L;
  w_store : S;
  w_vectors : MemorySemanticStore;
  w_approvals : Approval.Service;
  w_engines : gmap string Engine;
  w_planner : Planner;
  w_exec : X;
  w_aux : A;
  w_metrics : routingMetrics;
  w_repo : option R;
  w_sink : option K;
  w_live : list LiveEvent;
  w_streams : option StreamRegistry }.

Definition put_req (w : world) (x : RequestContext) : world :=
  Build_world x (w_plan w) (w_attempts w) (w_tick w) (w_id w) (w_limiter w) (w_meter w) (w_budget w) 
    (w_store w) (w_vectors w) (w_approvals w) (w_engines w) (w_planner w) (w_exec w) (w_aux w) (w_metrics w) 
    (w_repo w) (w_sink w) (w_live w) (w_streams w).
Definition put_plan (w : world) (x : option RoutePlan) : world :=
  Build_world (w_req w) x (w_attempts w) (w_tick w) (w_id w) (w_limiter w) (w_meter w) (w_budget w) 
    (w_store w) (w_vectors w) (w_approvals w) (w_engines w) (w_planner w) (w_exec w) (w_aux w) (w_metrics w) 
    (w_repo w) (w_sink w) (w_live w) (w_streams w).
Definition put_attempts (w : world) (x : option (list Executor.Attempt)) : world :=
  Build_world (w_req w) (w_plan w) x (w_tick w) (w_id w) (w_limiter w) (w_meter w) (w_budget w) (w_store w) 
    (w_vectors w) (w_approvals w) (w_engines w) (w_planner w) (w_exec w) (w_aux w) (w_metrics w) (w_repo w) 
    (w_sink w) (w_live w) (w_streams w).
Definition put_tick (w : world) (x : nat) : world :=
  Build_world (w_req w) (w_plan w) (w_attempts w) x (w_id w) (w_limiter w) (w_meter w) (w_budget w) 
    (w_store w) (w_vectors w) (w_approvals w) (w_engines w) (w_planner w) (w_exec w) (w_aux w) (w_metrics w) 
    (w_repo w) (w_sink w) (w_live w) (w_streams w).
Definition put_id (w : world) (x : nat) : world :=
  Build_world (w_req w) (w_plan w) (w_attempts w) (w_tick w) x (w_limiter w) (w_meter w) (w_budget w) 
    (w_store w) (w_vectors w) (w_approvals w) (w_engines w) (w_planner w) (w_exec w) (w_aux w) (w_metrics w) 
    (w_repo w) (w_sink w) (w_live w) (w_streams w).
Definition put_limiter (w : world) (x : Rate.Limiter) : world :=
  Build_world (w_req w) (w_plan w) (w_attempts w) (w_tick w) (w_id w) x (w_meter w) (w_budget w) (w_store w) 
    (w_vectors w) (w_approvals w) (w_engines w) (w_planner w) (w_exec w) (w_aux w) (w_metrics w) (w_repo w) 
    (w_sink w) (w_live w) (w_streams w).
Definition put_meter (w : world) (x : Rate.Meter) : world :=
  Build_world (w_req w) (w_plan w) (w_attempts w) (w_tick w) (w_id w) (w_limiter w) x (w_budget w) (w_store w) 
    (w_vectors w) (w_approvals w) (w_engines w) (w_planner w) (w_exec w) (w_aux w) (w_metrics w) (w_repo w) 
    (w_sink w) (w_live w) (w_streams w).
Definition put_budget (w : world) (x : budgetEnforcer L) : world :=
  Build_world (w_req w) (w_plan w) (w_attempts w) (w_tick w) (w_id w) (w_limiter w) (w_meter w) x (w_store w) 
    (w_vectors w) (w_approvals w) (w_engines w) (w_planner w) (w_exec w) (w_aux w) (w_metrics w) (w_repo w) 
    (w_sink w) (w_live w) (w_streams w).
Definition put_store (w : world) (x : S) : world :=
  Build_world (w_req w) (w_plan w) (w_attempts w) (w_tick w) (w_id w) (w_limiter w) (w_meter w) (w_budget w) x 
    (w_vectors w) (w_approvals w) (w_engines w) (w_planner w) (w_exec w) (w_aux w) (w_metrics w) (w_repo w) 
    (w_sink w) (w_live w) (w_streams w).
Definition put_vectors (w : world) (x : MemorySemanticStore) : world :=
  Build_world (w_req w) (w_plan w) (w_attempts w) (w_tick w) (w_id w) (w_limiter w) (w_meter w) (w_budget w) 
    (w_store w) x (w_approvals w) (w_engines w) (w_planner w) (w_exec w) (w_aux w) (w_metrics w) (w_repo w) 
    (w_sink w) (w_live w) (w_streams w).
Definition put_approvals (w : world) (x : Approval.Service) : world :=
  Build_world (w_req w) (w_plan w) (w_attempts w) (w_tick w) (w_id w) (w_limiter w) (w_meter w) (w_budget w) 
    (w_store w) (w_vectors w) x (w_engines w) (w_planner w) (w_exec w) (w_aux w) (w_metrics w) (w_repo w) 
    (w_sink w) (w_live w) (w_streams w).
Definition put_engines (w : world) (x : gmap string Engine) : world :=
  Build_world (w_req w) (w_plan w) (w_attempts w) (w_tick w) (w_id w) (w_limiter w) (w_meter w) (w_budget w) 
    (w_store w) (w_vectors w) (w_approvals w) x (w_planner w) (w_exec w) (w_aux w) (w_metrics w) (w_repo w) 
    (w_sink w) (w_live w) (w_streams w).
Definition put_planner (w : world) (x : Planner) : world :=
  Build_world (w_req w) (w_plan w) (w_attempts w) (w_tick w) (w_id w) (w_limiter w) (w_meter w) (w_budget w) 
    (w_store w) (w_vectors w) (w_approvals w) (w_engines w) x (w_exec w) (w_aux w) (w_metrics w) (w_repo w) 
    (w_sink w) (w_live w) (w_streams w).
Definition put_exec (w : world) (x : X) : world :=
  Build_world (w_req w) (w_plan w) (w_attempts w) (w_tick w) (w_id w) (w_limiter w) (w_meter w) (w_budget w) 
    (w_store w) (w_vectors w) (w_approvals w) (w_engines w) (w_planner w) x (w_aux w) (w_metrics w) (w_repo w) 
    (w_sink w) (w_live w) (w_streams w).
Definition put_aux (w : world) (x : A) : world :=
  Build_world (w_req w) (w_plan w) (w_attempts w) (w_tick w) (w_id w) (w_limiter w) (w_meter w) (w_budget w) 
    (w_store w) (w_vectors w) (w_approvals w) (w_engines w) (w_planner w) (w_exec w) x (w_metrics w) 
    (w_repo w) (w_sink w) (w_live w) (w_streams w).
Definition put_metrics (w : world) (x : routingMetrics) : world :=
  Build_world (w_req w) (w_plan w) (w_attempts w) (w_tick w) (w_id w) (w_limiter w) (w_meter w) (w_budget w) 
    (w_store w) (w_vectors w) (w_approvals w) (w_engines w) (w_planner w) (w_exec w) (w_aux w) x (w_repo w) 
    (w_sink w) (w_live w) (w_streams w).
Definition put_repo (w : world) (x : option R) : world :=
  Build_world (w_req w) (w_plan w) (w_attempts w) (w_tick w) (w_id w) (w_limiter w) (w_meter w) (w_budget w) 
    (w_store w) (w_vectors w) (w_approvals w) (w_engines w) (w_planner w) (w_exec w) (w_aux w) (w_metrics w) x 
    (w_sink w) (w_live w) (w_streams w).
Definition put_sink (w : world) (x : option K) : world :=
  Build_world (w_req w) (w_plan w) (w_attempts w) (w_tick w) (w_id w) (w_limiter w) (w_meter w) (w_budget w) 
    (w_store w) (w_vectors w) (w_approvals w) (w_engines w) (w_planner w) (w_exec w) (w_aux w) (w_metrics w) 
    (w_repo w) x (w_live w) (w_streams w).
Definition put_live (w : world) (x : list LiveEvent) : world :=
  Build_world (w_req w) (w_plan w) (w_attempts w) (w_tick w) (w_id w) (w_limiter w) (w_meter w) (w_budget w) 
    (w_store w) (w_vectors w) (w_approvals w) (w_engines w) (w_planner w) (w_exec w) (w_aux w) (w_metrics w) 
    (w_repo w) (w_sink w) x (w_streams w).
Definition put_streams (w : world) (x : option StreamRegistry) : world :=
  Build_world (w_req w) (w_plan w) (w_attempts w) (w_tick w) (w_id w) (w_limiter w) (w_meter w) (w_budget w) 
    (w_store w) (w_vectors w) (w_approvals w) (w_engines w) (w_planner w) (w_exec w) (w_aux w) (w_metrics w) 
    (w_repo w) (w_sink w) (w_live w) x.
End World.
Arguments world {_} L S X A R K.

(** ** The most specific budget policy applies *)

Definition applicable (c : RequestContext) (item : BudgetPolicy) : bool :=
  policy_matches c item && (0 <? policy_duration item).

Lemma select_policy_spec c now items :
  match foldl (select_policy c now) None items with
  | None => Forall (λ item, applicable c item = false) items
  | Some (p, score) =>
      ∃ item, item ∈ items ∧ applicable c item = true ∧ p = windowed item now ∧ score = policy_score item ∧
        Forall (λ other, applicable c other = true → policy_score other <= score) items
  end.
Proof.
  induction items as [|item items IH] using rev_ind; simpl; [by constructor|]. rewrite foldl_app. simpl.
  set (best := foldl _ None items) in *. unfold select_policy.
  assert (∀ b, (b = best ∧ applicable c item = false) →
    match b with
    | None => Forall (λ item, applicable c item = false) (items ++ [item])%list
    | Some (p, score) =>
        ∃ item', item' ∈ (items ++ [item])%list ∧ applicable c item' = true ∧ p = windowed item' now ∧
          score = policy_score item' ∧ Forall (λ other, applicable c other = true → policy_score other <= score) (items ++ [item])%list
    end) as Hskip.
  { intros b [-> Hna]. destruct best as [[p score]|].
    - destruct IH as (it & Hin & Ha & Hp & Hs & Hall). exists it. split_and!; [set_solver|done|done|done|].
      apply Forall_app. split; [done|]. constructor; [congruence|constructor].
    - apply Forall_app. split; [done|]. by constructor. }
  unfold applicable in Hskip at 1. destruct (policy_matches c item) eqn:Em; simpl; [|by apply Hskip].
  destruct (Z.leb_spec (policy_duration item) 0) as [Hd|Hd].
  { apply Hskip. split; [done|]. simpl. apply Z.ltb_ge. lia. }
  assert (applicable c item = true) as Ha by (unfold applicable; rewrite Em; simpl; by apply Z.ltb_lt).
  destruct best as [[p score]|].
  - destruct IH as (it & Hin & Hai & Hp & Hs & Hall). destruct (Z.ltb_spec (policy_score item) score).
    + exists it. split_and!; [set_solver|done|done|done|]. apply Forall_app. split; [done|]. constructor; [lia|constructor].
    + exists item. split_and!; [set_solver|done|done|done|]. apply Forall_app. split.
      * eapply Forall_impl; [done|]. simpl. intros other Ho Hoa. specialize (Ho Hoa). lia.
      * constructor; [lia|constructor].
  - exists item. split_and!; [set_solver|done|done|done|]. apply Forall_app. split.
    + eapply Forall_impl; [done|]. simpl. congruence.
    + constructor; [lia|constructor].
Qed.

Lemma truncate_window now d : 0 < d → truncate now d <= now < truncate now d + d.
Proof. intros Hd. unfold truncate. pose proof (Z.mod_pos_bound (now - zero_time) d). lia. Qed.

(** The most specific budget policy governs a request.  The selected policy is one
    of the tenant's that matches the request's tenant, project and key, no other
    matching policy is more specific (a key outranks a project), and its current
    window contains the present; there is none only when no policy matches. *)
Theorem most_specific_budget_applies c snapshot now :
  rc_Snapshot c = Some snapshot →
  match budgetPolicyFor c now with
  | Some p =>
      ∃ item, item ∈ BudgetPolicies snapshot ∧ applicable c item = true ∧ p_ID p = bp_ID item ∧ p_Mode p = bp_Mode item ∧
        p_WindowStart p <= now < p_WindowEnd p ∧ p_WindowEnd p - p_WindowStart p = policy_duration item ∧
        ∀ other, other ∈ BudgetPolicies snapshot → applicable c other = true → policy_score other <= policy_score item
  | None => ∀ item, item ∈ BudgetPolicies snapshot → applicable c item = false
  end.
Proof.
  intros Hs. unfold budgetPolicyFor. rewrite Hs. pose proof (select_policy_spec c now (BudgetPolicies snapshot)) as Hsp.
  destruct (foldl _ None (BudgetPolicies snapshot)) as [[p score]|]; simpl.
  - destruct Hsp as (item & Hin & Ha & -> & -> & Hall). exists item. rewrite Forall_forall in Hall.
    assert (0 < policy_duration item) as Hd by (unfold applicable in Ha; apply andb_true_iff in Ha as [_ Ha]; by apply Z.ltb_lt).
    pose proof (truncate_window now (policy_duration item) Hd). unfold windowed, time_add. simpl.
    split_and!; try done; lia.
  - by rewrite Forall_forall in Hsp.
Qed.

Definition example_budget (id project key : string) : BudgetPolicy :=
  {| bp_ID := id; bp_TenantID := "t"; bp_ProjectID := project; bp_KeyID := key; bp_WindowHours := 24;
     bp_TokenLimit := f64_of_Z 1000; bp_Mode := "hard"; bp_Consistency := "" |}.

Definition budgeted : RequestContext :=
  incoming "r" (NewTenantSnapshot (example_tenant "priority" no_cache
    [example_budget "a-key" "" "pub"; example_budget "b-project" "proj" ""; example_budget "c-other" "elsewhere" "pub"])) example_request.

Lemma most_specific_budget_applies_witness :
  match budgetPolicyFor budgeted hour with
  | Some p =>
      p_ID p = "a-key" ∧
      ∃ item, item ∈ BudgetPolicies (NewTenantSnapshot (example_tenant "priority" no_cache
          [example_budget "a-key" "" "pub"; example_budget "b-project" "proj" ""; example_budget "c-other" "elsewhere" "pub"])) ∧
        p_ID p = bp_ID item ∧ p_WindowStart p <= hour < p_WindowEnd p
  | None => False
  end.
Proof.
  pose proof (most_specific_budget_applies budgeted _ hour eq_refl) as Hm.
  destruct (budgetPolicyFor budgeted hour) as [p|] eqn:Ep; [|vm_compute in Ep; discriminate].
  split; [vm_compute in Ep; injection Ep as <-; reflexivity|].
  destruct Hm as (item & Hin & _ & Hid & _ & Hw & _). exists item. split; [exact Hin|]. split; [exact Hid|exact Hw].
Defined.

(** ** A quiet gateway for the witnesses: one second between clock readings, ids
    [id0], [id1], ..., nothing stored yet. *)

Definition ticking (n : nat) : Z := hour + Z.of_nat n * second.
Definition numbered (n : nat) : result string := Ok ("id" +:+ itoa (Z.of_nat n)).

#[local] Existing Instance no_regexp.

Definition quiet_world {X A} (x : X) (a : A) (c : RequestContext) :
    world MemoryBudgetLedger MemoryStore X A unit unit :=
  {| w_req := c; w_plan := None; w_attempts := None; w_tick := 0; w_id := 0; w_limiter := Rate.New 0;
     w_meter := NewMeter None; w_budget := newBudgetEnforcer (Budget.New 0); w_store := NewMemoryStore 10;
     w_vectors := NewMemorySemanticStoreWithConfig 10 0; w_approvals := {| sv_store := ∅; sv_events := None |};
     w_engines := ∅; w_planner := {| pn_roundRobin := ∅ |}; w_exec := x; w_aux := a; w_metrics := newRoutingMetrics;
     w_repo := Some tt; w_sink := None; w_live := []; w_streams := None |}.
