(* ===== verification/LiteUsage.v ===== *)
(** * Reservations and usage records: internal/app/pipeline.go

    How a request reserves budget before it runs and how it is accounted for after
    it: [reserveBudget], [recordUsage] and the finalize methods of [litePipeline],
    the admission and finalization of tool calls, and the records of auxiliary
    provider calls.  Process metrics are not modelled. *)

From S2P Require Import Prelude GoFloat GoStd Circuit Coordination Budget Enforcer Rate Snapshot Planner Executor.
From S2P Require Import Accounting Approval Pipeline Interaction Cache Metering FinOps Guardrail StreamGuard RoutingMetrics LiteWorld.

Open Scope string_scope.
Open Scope Z_scope.

Record usageFacts := {
  uf_logicalModel : string; uf_deploymentID : string; uf_outcome : string; uf_usageSource : string;
  uf_inputTokens : Z; uf_outputTokens : Z; uf_retries : Z; uf_fallbacks : Z; uf_latency : Z; uf_agentID : string;
  uf_attempts : list Accounting.Attempt; uf_routeEvidence : list RouteEvidence; uf_settle : bool;
  uf_providerCost : option float64; uf_providerCurrency : string }.

Definition RATE_LIMITED : error := ErrKernel "RATE_LIMITED" "rate limit exceeded" true.
Definition TPM_LIMITED : error := ErrKernel "TPM_LIMITED" "token rate limit exceeded" true.
Definition BUDGET_EXCEEDED : error := ErrKernel "BUDGET_EXCEEDED" "token budget exceeded" false.

Definition milliseconds (d : Z) : Z := Z.quot d millisecond.

Definition targetName (request : option UnifiedRequest) (fallback : string) : string :=
  match request with
  | None => fallback
  | Some u =>
      if bool_decide (ur_Model u ≠ "") then ur_Model u
      else match ur_Tool u with
           | Some t => if bool_decide (tl_Name t ≠ "") then tl_Name t else fallback
           | None => fallback
           end
  end.

(** The usage fields of the facts come from the request's usage, if there is one. *)
Definition usage_field {T} (c : RequestContext) (f : UnifiedUsage → T) (none : T) : T :=
  match rc_Usage c with Some u => f u | None => none end.

(** The immutable facts of a request. *)
Definition facts_of (c : RequestContext) (usageID : string) (now : Z) (u : usageFacts) : Facts :=
  {| f_UsageEventID := usageID; f_RequestID := rc_RequestID c; f_ParentRequestID := "";
     f_TenantID := TenantID c; f_ProjectID := ProjectID c; f_KeyID := ak_ID (rc_Key c);
     f_LogicalModel := uf_logicalModel u; f_DeploymentID := uf_deploymentID u; f_Outcome := uf_outcome u;
     f_UsageSource := uf_usageSource u; f_GuardrailStatus := "";
     f_InputTokens := uf_inputTokens u; f_OutputTokens := uf_outputTokens u;
     f_CacheReadTokens := usage_field c us_CacheReadTokens 0; f_CacheWriteTokens := usage_field c us_CacheWriteTokens 0;
     f_CachedInputTokens := usage_field c us_CachedInputTokens 0; f_ReasoningTokens := usage_field c us_ReasoningTokens 0;
     f_ToolCalls := usage_field c us_ToolCalls 0;
     f_RetryCount := uf_retries u; f_FallbackCount := uf_fallbacks u; f_LatencyMS := milliseconds (uf_latency u);
     f_SnapshotVersion := SnapshotVersion c;
     f_SecurityEpoch := match rc_Snapshot c with Some s => sn_SecurityEpoch s | None => 0 end;
     f_ProviderCost := uf_providerCost u;
     f_ProviderCurrency := match uf_providerCost u with Some _ => uf_providerCurrency u | None => "" end;
     f_ReceivedAt := rc_ReceivedAt c; f_CompletedAt := now; f_Attempts := uf_attempts u;
     f_RouteEvidence := uf_routeEvidence u; f_BudgetPolicyID := rc_BudgetPolicyID c; f_ReservationID := rc_ReservationID c;
     f_ActualTokens := if uf_settle u && bool_decide (rc_ReservationID c ≠ "")
                       then Some (wrap64 (uf_inputTokens u + uf_outputTokens u)) else None;
     f_UserID := ""; f_OrgUnitID := ""; f_OrgPathSnapshot := ""; f_CostCenterID := ""; f_AttributionTrust := "";
     f_SessionID := ""; f_TaskID := ""; f_RootTaskID := ""; f_ParentTaskID := ""; f_AgentID := uf_agentID u;
     f_AgentVersion := ""; f_AgentEndpointID := ""; f_Estimated := usage_field c us_Estimated false;
     f_EstimationMethod := usage_field c us_EstimationMethod "" |}.

Section Usage.
Context `{!Regexp} `{!JSONCodec} {L S X A R K : Type}.
Context `{!BudgetLedger L} `{!CacheStore S} `{!Repository R} `{!EventSink K}.
Context (clk : nat → Z) (ids : nat → result string) (tokenizer : option Registry) (upstream : error → option string).
Context (ratePolicy : Rate.Policy).
Implicit Types (w : world L S X A R K) (c : RequestContext).

Definition now_of w : Z := clk (w_tick w).

Definition tick (n : nat) w : world L S X A R K := put_tick w (w_tick w + n)%nat.

Definition new_id w : result string * world L S X A R K := (ids (w_id w), put_id w (w_id w + 1)%nat).

(** ** Admission *)

(** The budget leg shared by requests and auxiliary calls: reserve [estimate]
    tokens under a fresh id. *)
Definition reserve_for w (policy : Budget.Policy) (estimate : Z) : result Reservation * world L S X A R K :=
  match new_id w with
  | (Err err, w) => (Err err, w)
  | (Ok id, w) =>
      let '(reserved, b) := Enforcer.Reserve (w_budget w) (λ n, clk (w_tick w + n)%nat) policy id estimate in
      (reserved, tick 3 (put_budget w b))
  end.

Definition reserveBudget w : option error * world L S X A R K :=
  let c := w_req w in
  match rc_Snapshot c, rc_Request c with
  | Some _, Some _ =>
      if bool_decide (rc_ReservationID c ≠ "") then (None, w)
      else
        let now := now_of w in
        let w := tick 1 w in
        match budgetPolicyFor c now with
        | None => (None, w)
        | Some policy =>
            match reserve_for w policy (estimateTokensWith (rc_Request c) tokenizer) with
            | (Err err, w) =>
                (Some (if errors_is err ErrExceeded || errors_is err ErrSliceOvershoot then BUDGET_EXCEEDED else err), w)
            | (Ok r, w) => (None, put_req w (set_budget c (r_PolicyID r) (r_ID r) (r_EstimatedTokens r) (r_Warning r)))
            end
        end
  | _, _ => (None, w)
  end.

Definition allow_rpm w : bool * world L S X A R K :=
  let c := w_req w in
  let '(decision, limiter) := Rate.Allow (w_limiter w) (now_of w) (TenantID c) (ProjectID c) (effectiveRatePolicy ratePolicy) in
  (Allowed decision, tick 1 (put_limiter w limiter)).

Definition admitTool w : option error * world L S X A R K :=
  let '(allowed, w) := allow_rpm w in
  if negb allowed then (Some RATE_LIMITED, w) else reserveBudget w.

Definition reserveAuxiliary w (estimated : Z) : result (string * string * Z) * world L S X A R K :=
  match rc_Snapshot (w_req w) with
  | None => (Ok ("", "", 0), w)
  | Some _ =>
      let now := now_of w in
      let w := tick 1 w in
      match budgetPolicyFor (w_req w) now with
      | None => (Ok ("", "", 0), w)
      | Some policy =>
          match reserve_for w policy (if estimated <=? 0 then 1 else estimated) with
          | (Err err, w) => (Err err, w)
          | (Ok r, w) => (Ok (r_PolicyID r, r_ID r, r_EstimatedTokens r), w)
          end
      end
  end.

(** ** Usage records *)

Definition finalizer_timeout : Z := 5 * second.

(** Run the finalizer on the facts, with the sink or without. *)
Definition run_finalizer w (sink : option K) (facts : Facts) : option error * option K * world L S X A R K :=
  match NewFinalizer finalizer_timeout (w_repo w) (Some (w_budget w)) sink facts with
  | Err err => (Some err, sink, w)
  | Ok f =>
      let '((_, err), f) := Finalize f in
      (err, fz_sink f, put_budget (put_repo w (Some (fz_repository f))) (default (w_budget w) (fz_budget f)))
  end.

Definition recordUsage w (u : usageFacts) : option error * world L S X A R K :=
  match new_id w with
  | (Err err, w) => (Some err, w)
  | (Ok usageID, w) =>
      let c := w_req w in
      let facts := facts_of c usageID (now_of w) u in
      let w := tick 1 w in
      let '(err, sink, w) := run_finalizer w (w_sink w) facts in
      let w := put_sink w sink in
      match err with
      | Some err => (Some err, w)
      | None => (None, put_live w (w_live w ++ [{| lv_RequestID := rc_RequestID c; lv_Outcome := f_Outcome facts;
                                                   lv_DeploymentID := f_DeploymentID facts;
                                                   lv_LatencyMS := f_LatencyMS facts |}])%list)
      end
  end.

Definition selected_deployment c : option Deployment :=
  rc_Snapshot c ≫= λ s, snapshot_deployment s (rc_SelectedDeploymentID c).

(** The reference cost of a completed request. *)
Definition request_cost c (input output : Z) : option float64 :=
  match selected_deployment c with
  | None => None
  | Some d =>
      match PriceCached LiteReferencePriceVersion (d_UpstreamModel d) "USD" input output
              (usage_field c us_CacheReadTokens 0) (usage_field c us_CacheWriteTokens 0) with
      | Ok cost => Some cost
      | Err _ => None
      end
  end.

Definition request_model c : string := match rc_Request c with Some u => ur_Model u | None => "" end.

(** The write-back of [finalize], when the tenant's policy keeps entries. *)
Definition write_back w : option error * world L S X A R K :=
  let c := w_req w in
  match rc_Snapshot c with
  | None => (None, w)
  | Some s =>
      let ttl := cp_TTLSeconds (sn_cache s) in
      if 0 <? ttl then
        let '(err, store) := WriteBack (w_store w) (now_of w) c (wrap64 (ttl * second)) in
        (err, tick 1 (put_store w store))
      else (None, w)
  end.

Definition finalize w : option error * world L S X A R K :=
  let c := w_req w in
  let '(attempts, retries, fallbacks) := attemptsFromResult (w_attempts w) in
  let input := usage_field c us_InputTokens 0 in
  let output := usage_field c us_OutputTokens 0 in
  let cost := request_cost c input output in
  let facts :=
    {| uf_logicalModel := request_model c; uf_deploymentID := rc_SelectedDeploymentID c; uf_outcome := "success";
       uf_usageSource := usageSource (rc_Source c) "playground"; uf_inputTokens := input; uf_outputTokens := output;
       uf_retries := retries; uf_fallbacks := fallbacks; uf_latency := rc_Latency c; uf_agentID := "";
       uf_attempts := attempts; uf_routeEvidence := routeEvidenceFromPlan (w_plan w); uf_settle := true;
       uf_providerCost := cost; uf_providerCurrency := "USD" |} in
  let w := match cost with Some _ => put_req w (set_outcome c (rc_Err c) cost) | None => w end in
  match recordUsage w facts with
  | (Some err, w) => (Some err, w)
  | (None, w) => write_back w
  end.

Definition finalizeFailure w (cause : error) : option error * world L S X A R K :=
  let c := w_req w in
  let '(attempts, _, _) := attemptsFromResult (w_attempts w) in
  recordUsage w
    {| uf_logicalModel := request_model c; uf_deploymentID := rc_SelectedDeploymentID c;
       uf_outcome := outcomeForError upstream cause; uf_usageSource := usageSource (rc_Source c) "playground";
       uf_inputTokens := 0; uf_outputTokens := 0; uf_retries := 0; uf_fallbacks := 0; uf_latency := rc_Latency c;
       uf_agentID := ""; uf_attempts := attempts; uf_routeEvidence := routeEvidenceFromPlan (w_plan w); uf_settle := false;
       uf_providerCost := None; uf_providerCurrency := "" |}.

Definition finalizeTool w (targetID : string) (response : option UnifiedResponse) (cause : option error) :
    option error * world L S X A R K :=
  let c := w_req w in
  let now := now_of w in
  let w := tick 1 w in
  let source := match rc_Interaction c with
                | Some i => if bool_decide (ic_Protocol i ≠ "") then ic_Protocol i else rc_Source c
                | None => rc_Source c
                end in
  recordUsage w
    {| uf_logicalModel := targetName (rc_Request c) targetID; uf_deploymentID := targetID;
       uf_outcome := match cause with Some err => outcomeForError upstream err | None => "success" end;
       uf_usageSource := usageSource source "gateway";
       uf_inputTokens := match response with Some r => us_InputTokens (re_Usage r) | None => 0 end;
       uf_outputTokens := match response with Some r => us_OutputTokens (re_Usage r) | None => 0 end;
       uf_retries := 0; uf_fallbacks := 0; uf_latency := time_sub now (rc_ReceivedAt c);
       uf_agentID := match rc_Interaction c with
                     | Some i => if bool_decide (pref_Type (ic_Caller i) = "agent") then pref_ID (ic_Caller i) else ""
                     | None => ""
                     end;
       uf_attempts := []; uf_routeEvidence := []; uf_settle := match cause with None => true | Some _ => false end;
       uf_providerCost := None; uf_providerCurrency := "" |}.
End Usage.

(** ** Settlement

    A reservation is settled when the manager holds no open reservation of that
    id for the policy: it is final, or its window is gone. *)

Definition settled {L} (e : budgetEnforcer L) (policyID reservationID : string) : Prop :=
  ∀ p w r, ledgerFor (e_manager e) policyID reservationID = Some (p, w, r) → rv_final r = true.

Section Settlement.
Context {L : Type} `{!BudgetLedger L}.
Implicit Types (e : budgetEnforcer L).

Lemma manager_settles m pid rid actual :
  (manager_settle m pid rid actual).1 = None →
  ∀ p w r, ledgerFor (manager_settle m pid rid actual).2 pid rid = Some (p, w, r) → rv_final r = true.
Proof.
  intros Hok p w r Hl. destruct (ledgerFor m pid rid) as [[[p0 w0] r0]|] eqn:E0.
  - destruct (settled_final _ _ _ _ _ _ _ E0 Hok) as (p'&w'&r'&Hl'&Hf). congruence.
  - destruct actual; simpl in *; [unfold Budget.Reconcile in *|unfold Budget.Release in *];
      repeat case_match; simplify_eq/=.
Qed.

Lemma manager_syncSlice e pid : e_manager (syncSlice e pid) = e_manager e.
Proof. unfold syncSlice. repeat case_match; done. Qed.

Lemma Release_settles e pid rid : settled (Enforcer.Release e pid rid).2 pid rid.
Proof.
  assert ((manager_settle (e_manager e) pid rid None).1 = None) as Hok.
  { simpl. unfold Budget.Release. repeat case_match; done. }
  pose proof (manager_settles _ _ _ _ Hok) as Hs. simpl in *. unfold settled, Enforcer.Release.
  destruct (Budget.Release _ _ _) as [[err|] m]; [done|]. simpl. rewrite manager_syncSlice.
  repeat case_match; done.
Qed.

Lemma Reconcile_settles e pid rid n :
  (Enforcer.Reconcile e pid rid n).1 = None → settled (Enforcer.Reconcile e pid rid n).2 pid rid.
Proof.
  pose proof (manager_settles (e_manager e) pid rid (Some n)) as Hs. simpl in *. unfold settled, Enforcer.Reconcile.
  destruct (Budget.Reconcile _ _ _ _) as [[err|] m]; [done|]. simpl. rewrite manager_syncSlice.
  intros _. specialize (Hs eq_refl). repeat case_match; done.
Qed.

(** Whatever the repository and the sink do, the finalizer leaves the reservation
    of its facts settled. *)
Lemma enforcer_finalize_settles {R K} `{!Repository R} `{!EventSink K} (f : Finalizer R (budgetEnforcer L) K) e :
  fz_budget f = Some e → f_ReservationID (fz_facts f) ≠ "" →
  ∃ e', fz_budget (finalize_once f) = Some e' ∧
    settled e' (f_BudgetPolicyID (fz_facts f)) (f_ReservationID (fz_facts f)).
Proof.
  intros Hb Hr. unfold finalize_once. destruct (repo_Finalize _ _) as [[created [err|]] repo]; simpl.
  - rewrite Hb. simpl. rewrite bool_decide_true by done. simpl. eexists. split; [done|]. apply Release_settles.
  - rewrite Hb. unfold settle_reservation. rewrite bool_decide_true by done.
    set (step := match f_ActualTokens (fz_facts f) with Some _ => _ | None => _ end).
    assert (step.1 = None → settled step.2 (f_BudgetPolicyID (fz_facts f)) (f_ReservationID (fz_facts f))) as Hs.
    { unfold step. destruct (f_ActualTokens _) as [n|]; [apply Reconcile_settles|intros _; apply Release_settles]. }
    destruct step as [[err|] e1]; simpl in *.
    + rewrite bool_decide_true by done. simpl. eexists. split; [done|]. apply Release_settles.
    + destruct (match fz_sink f with Some _ => _ | None => _ end) as [telemetry sink]. simpl.
      rewrite bool_decide_true by done. simpl. eauto.
Qed.
End Settlement.

Section Recorded.
Context `{!Regexp} {L S X A R K : Type} `{!BudgetLedger L} `{!Repository R} `{!EventSink K}.
Context (clk : nat → Z) (ids : nat → result string).
Implicit Types (w : world L S X A R K).

Lemma run_finalizer_settles w sink facts :
  is_Some (w_repo w) → f_ReservationID facts ≠ "" →
  settled (w_budget (run_finalizer w sink facts).2) (f_BudgetPolicyID facts) (f_ReservationID facts).
Proof.
  intros [r Hr] Hid. unfold run_finalizer. rewrite Hr. simpl.
  set (f := {| fz_repository := r |}).
  destruct (enforcer_finalize_settles f (w_budget w) eq_refl Hid) as (e'&He&Hs). simpl. by rewrite He.
Qed.

Lemma run_finalizer_req w sink facts : w_req (run_finalizer w sink facts).2 = w_req w.
Proof. unfold run_finalizer. by destruct (NewFinalizer _ _ _ _ _). Qed.

(** A recorded request holds no open reservation. *)
Lemma recordUsage_settles w u :
  is_ok (ids (w_id w)) = true → is_Some (w_repo w) → rc_ReservationID (w_req w) ≠ "" →
  settled (w_budget (recordUsage clk ids w u).2) (rc_BudgetPolicyID (w_req w)) (rc_ReservationID (w_req w)).
Proof.
  intros Hid Hr Hne. unfold recordUsage, new_id. destruct (ids (w_id w)) as [id|]; [|done]. simpl.
  set (w1 := tick 1 _). set (facts := facts_of _ _ _ _).
  change (w_sink w1) with (w_sink w). pose proof (run_finalizer_settles w1 (w_sink w) facts Hr Hne) as Hs.
  destruct (run_finalizer w1 (w_sink w) facts) as [[[err|] sink] w2]; exact Hs.
Qed.

Lemma recordUsage_req w u : w_req (recordUsage clk ids w u).2 = w_req w.
Proof.
  unfold recordUsage, new_id. destruct (ids (w_id w)) as [id|]; [|done]. simpl.
  pose proof (run_finalizer_req (tick 1 (put_id w (w_id w + 1)%nat)) (w_sink w)
                (facts_of (w_req w) id (now_of clk (put_id w (w_id w + 1)%nat)) u)) as Hq.
  simpl in *. destruct (run_finalizer _ _ _) as [[[err|] sink] w2]; exact Hq.
Qed.
End Recorded.
