(* ===== verification/LiteAux.v ===== *)
(** * Auxiliary provider calls: internal/app/semanticembedder.go, internal/app/outputjudge.go

    Two stages of the pipeline call a provider on their own behalf: the semantic
    cache embeds the request, the output guardrail asks a judge model.  Both reserve
    budget for the call, pick a deployment of the tenant's snapshot, call it and
    record the usage ([recordAuxiliaryUsage] of pipeline.go).

    The provider is a parameter ([invoke], on the auxiliary state of the world), as
    are the credential resolver and the JSON decoding of a verdict.  [ranged] is the
    order in which the deployments of the snapshot, a Go map, happen to be listed. *)

From S2P Require Import Prelude GoFloat GoStd Circuit Coordination Budget Enforcer Rate Snapshot Planner Executor.
From S2P Require Import Accounting Approval Pipeline Interaction Cache Metering FinOps Guardrail StreamGuard RoutingMetrics LiteWorld LiteUsage.

Open Scope string_scope.
Open Scope Z_scope.

(** ** The deployment of an auxiliary call *)

Definition hasCapability (capabilities : list string) (want : string) : bool := bool_decide (want ∈ capabilities).

(** The loop of [capabilityDeployment], with the fallback found so far. *)
Fixpoint pick_deployment (model preferred : string) (fallback : option Deployment) (ds : list Deployment) :
    option Deployment :=
  match ds with
  | [] => fallback
  | d :: rest =>
      if bool_decide (d_Status d ≠ "enabled") then pick_deployment model preferred fallback rest
      else if bool_decide (d_UpstreamModel d = model) && hasCapability (d_Capabilities d) preferred then Some d
      else pick_deployment model preferred
             (match fallback with
              | None => if bool_decide (d_UpstreamModel d = model) then Some d else None
              | Some _ => fallback
              end) rest
  end.

Definition capabilityDeployment (ranged : list Deployment → list Deployment) (snapshot : TenantRuntimeSnapshot)
    (model preferred : string) : option Deployment :=
  pick_deployment model preferred None (ranged (map_to_list (sn_deployments snapshot)).*2).

Definition embeddingDeployment (ranged : list Deployment → list Deployment) (snapshot : TenantRuntimeSnapshot)
    (model : string) : option Deployment := capabilityDeployment ranged snapshot model "embedding".

(** ** The verdict of a judge *)

(** [trimmed[strings.Index(trimmed, "{"):]], when there is one. *)
Definition from_brace (bs : list Z) : list Z :=
  match list_find (λ b, b = 123) bs with Some (i, _) => drop i bs | None => bs end.

(** [trimmed[:strings.LastIndex(trimmed, "}")+1]], when there is one. *)
Definition to_brace (bs : list Z) : list Z :=
  match list_find (λ b, b = 125) (reverse bs) with Some (i, _) => take (length bs - i) bs | None => bs end.

Definition unparsable : JudgeResult :=
  {| jr_Passed := true; jr_Reason := "judge verdict unparsable; fail open"; jr_Score := f64_zero |}.

Definition parseJudgeVerdict (unmarshal : list Z → option JudgeResult) (content : string) : JudgeResult :=
  default unparsable (unmarshal (to_brace (from_brace (trim_space (bytes_of_string content))))).

Definition skipped_judge : JudgeResult :=
  {| jr_Passed := true; jr_Reason := "judge skipped: budget limit"; jr_Score := f64_one |}.

Definition quoted (s : string) : string :=
  let quote := String (Ascii.ascii_of_nat 34) "" in quote +:+ s +:+ quote.

Definition judgeSystemPrompt : string :=
  String.concat newline
    ["You are a strict output-quality judge for an AI gateway.";
     "Evaluate the model's response against the rubric below.";
     "Respond with ONLY a JSON object, no prose, in this exact shape:";
     "{" +:+ quoted "passed" +:+ ": true or false, " +:+ quoted "reason" +:+ ": " +:+ quoted "short reason" +:+ ", " +:+
       quoted "score" +:+ ": 0.0 to 1.0}";
     "Set passed=false if the response violates the rubric, is unsafe, or is clearly wrong."].

(** ** The requests sent *)

Definition plain_message (role content : string) : Message :=
  {| msg_Role := role; msg_Content := content; msg_ToolCallID := ""; msg_ToolCalls := []; msg_CacheControl := "";
     msg_Parts := [] |}.

Definition auxiliary_request (kind model : string) (chat : option ChatPayload) (embedding : option EmbeddingPayload) :
    UnifiedRequest :=
  {| ur_Kind := kind; ur_Model := model; ur_Stream := false; ur_Metadata := ∅; ur_SessionID := ""; ur_TaskID := "";
     ur_RootTaskID := ""; ur_ParentTaskID := ""; ur_Chat := chat; ur_Responses := None; ur_Embedding := embedding;
     ur_Rerank := None; ur_Audio := None; ur_Batch := None; ur_File := None; ur_Tool := None; ur_Parameters := ∅ |}.

Definition embedding_request (model input : string) : UnifiedRequest :=
  auxiliary_request RequestEmbedding model None (Some {| emb_Inputs := [input] |}).

Definition judge_request (model response rubric : string) : UnifiedRequest :=
  auxiliary_request RequestChat model
    (Some {| chat_Messages := [plain_message "system" judgeSystemPrompt;
                               plain_message "user" ("Rubric:" +:+ newline +:+ rubric +:+ newline +:+ newline +:+
                                                     "Response:" +:+ newline +:+ response)];
             chat_MaxOutputTokens := None; chat_Temperature := Some f64_zero; chat_TopP := None; chat_Stop := [];
             chat_Tools := []; chat_ToolChoice := ""; chat_ResponseFormat := "" |}) None.

(** The estimate of an auxiliary call: [(n + 3) / 4]. *)
Definition quarter (n : Z) : Z := Z.quot (wrap64 (n + 3)) 4.

Section Aux.
Context `{!Regexp} {L S X A R K : Type} `{!BudgetLedger L} `{!Repository R} `{!EventSink K}.
Context (clk : nat → Z) (ids : nat → result string) (ranged : list Deployment → list Deployment).
Context (resolve : TenantRuntimeSnapshot → Deployment → string → bool).
Context (invoke : A → Deployment → UnifiedRequest → result (option UnifiedResponse) * A).
Context (unmarshal : list Z → option JudgeResult).
Implicit Types (w : world L S X A R K) (c : RequestContext).

(** ** recordAuxiliaryUsage *)

Definition auxiliary_cost c (deploymentID : string) (usage : UnifiedUsage) : option float64 :=
  match rc_Snapshot c ≫= λ s, snapshot_deployment s deploymentID with
  | None => None
  | Some d =>
      match PriceCached LiteReferencePriceVersion (d_UpstreamModel d) "USD" (us_InputTokens usage) (us_OutputTokens usage) 0 0 with
      | Ok cost => Some cost
      | Err _ => None
      end
  end.

Definition auxiliary_facts c (id kind model deploymentID : string) (usage : UnifiedUsage) (latency now : Z)
    (policyID reservationID : string) (callErr : option error) : Facts :=
  let cost := auxiliary_cost c deploymentID usage in
  {| f_UsageEventID := id; f_RequestID := id; f_ParentRequestID := rc_RequestID c;
     f_TenantID := TenantID c; f_ProjectID := ProjectID c; f_KeyID := ak_ID (rc_Key c);
     f_LogicalModel := model; f_DeploymentID := deploymentID;
     f_Outcome := match callErr with None => "success" | Some _ => "error" end;
     f_UsageSource := "auxiliary_" +:+ kind; f_GuardrailStatus := "";
     f_InputTokens := us_InputTokens usage; f_OutputTokens := us_OutputTokens usage;
     f_CacheReadTokens := 0; f_CacheWriteTokens := 0; f_CachedInputTokens := 0; f_ReasoningTokens := 0; f_ToolCalls := 0;
     f_RetryCount := 0; f_FallbackCount := 0; f_LatencyMS := milliseconds latency; f_SnapshotVersion := SnapshotVersion c;
     f_SecurityEpoch := match rc_Snapshot c with Some s => sn_SecurityEpoch s | None => 0 end;
     f_ProviderCost := cost; f_ProviderCurrency := match cost with Some _ => "USD" | None => "" end;
     f_ReceivedAt := time_add now (wrap64 (- latency)); f_CompletedAt := now; f_Attempts := []; f_RouteEvidence := [];
     f_BudgetPolicyID := policyID; f_ReservationID := reservationID;
     f_ActualTokens := match callErr with None => Some (TotalTokens usage) | Some _ => None end;
     f_UserID := ""; f_OrgUnitID := ""; f_OrgPathSnapshot := ""; f_CostCenterID := ""; f_AttributionTrust := "";
     f_SessionID := ""; f_TaskID := ""; f_RootTaskID := ""; f_ParentTaskID := ""; f_AgentID := "";
     f_AgentVersion := ""; f_AgentEndpointID := ""; f_Estimated := false; f_EstimationMethod := "" |}.

Definition release_if_held w (policyID reservationID : string) : world L S X A R K :=
  if bool_decide (reservationID = "") then w else put_budget w (Enforcer.Release (w_budget w) policyID reservationID).2.

Definition recordAuxiliaryUsage w (kind model deploymentID : string) (usage : UnifiedUsage) (latency : Z)
    (policyID reservationID : string) (callErr : option error) : world L S X A R K :=
  let c := w_req w in
  match rc_Snapshot c, rc_Request c with
  | Some _, Some _ =>
      match new_id ids w with
      | (Err _, w) => release_if_held w policyID reservationID
      | (Ok id, w) =>
          let facts := auxiliary_facts c id kind model deploymentID usage latency (now_of clk w) policyID reservationID callErr in
          let w := tick 1 w in
          match NewFinalizer finalizer_timeout (w_repo w) (Some (w_budget w)) (None : option K) facts with
          | Err _ => release_if_held w policyID reservationID
          | Ok f =>
              let '(_, f) := Finalize f in
              put_budget (put_repo w (Some (fz_repository f))) (default (w_budget w) (fz_budget f))
          end
      end
  | _, _ => w
  end.

(** ** snapshotEmbedder *)

(** The vector, the deployment called ([""] for none), its usage, the error. *)
Definition embedFor w (snapshot : TenantRuntimeSnapshot) (model input : string) :
    (list float64 * string * UnifiedUsage * option error) * world L S X A R K :=
  match embeddingDeployment ranged snapshot model with
  | None => (([], "", no_usage, None), w)
  | Some d =>
      if negb (resolve snapshot d (d_CredentialID d)) then (([], "", no_usage, None), w)
      else
        let '(answer, aux) := invoke (w_aux w) d (embedding_request model input) in
        let w := put_aux w aux in
        match answer with
        | Err err => (([], d_ID d, no_usage, Some err), w)
        | Ok (Some r) =>
            match re_Embeddings r with
            | vector :: _ => ((vector, d_ID d, re_Usage r, None), w)
            | [] => (([], d_ID d, no_usage, Some (ErrNew "upstream returned no embeddings")), w)
            end
        | Ok None => (([], d_ID d, no_usage, Some (ErrNew "upstream returned no embeddings")), w)
        end
  end.

Definition Embed (snapshot : TenantRuntimeSnapshot) (model : string) w (input : string) :
    result (list float64) * world L S X A R K :=
  match reserveAuxiliary clk ids w (quarter (len input)) with
  | (Err _, w) => (Ok [], w)
  | (Ok (policyID, reservationID, _), w) =>
      let started := now_of clk w in
      let '((vector, deploymentID, usage, err), w) := embedFor (tick 1 w) snapshot model input in
      let w :=
        if bool_decide (deploymentID = "") then w
        else recordAuxiliaryUsage (tick 1 w) "embedding" model deploymentID usage (time_sub (now_of clk w) started)
               policyID reservationID err in
      (match err with Some err => Err err | None => Ok vector end, w)
  end.

(** ** snapshotJudge *)

Definition no_choices : error := ErrNew "judge model returned no choices".

Definition Verdict (snapshot : TenantRuntimeSnapshot) (model : string) w (response rubric : string) :
    result JudgeResult * world L S X A R K :=
  match reserveAuxiliary clk ids w (quarter (wrap64 (len response + len rubric))) with
  | (Err _, w) => (Ok skipped_judge, w)
  | (Ok (policyID, reservationID, _), w) =>
      let started := now_of clk w in
      let w := tick 1 w in
      match capabilityDeployment ranged snapshot model "chat" with
      | None => (Err (ErrNew ("no deployment for judge model " +:+ quoted model)), w)
      | Some d =>
          if negb (resolve snapshot d (d_CredentialID d))
          then (Err (ErrNew ("no credential for judge deployment " +:+ d_ID d)), w)
          else
            let '(answer, aux) := invoke (w_aux w) d (judge_request model response rubric) in
            let w := put_aux w aux in
            let recorded usage err :=
              recordAuxiliaryUsage (tick 1 w) "judge" model (d_ID d) usage (time_sub (now_of clk w) started)
                policyID reservationID err in
            match answer with
            | Err err => (Err err, recorded no_usage (Some err))
            | Ok None => (Err no_choices, recorded no_usage (Some no_choices))
            | Ok (Some r) =>
                match re_Choices r with
                | [] => (Err no_choices, recorded no_usage (Some no_choices))
                | choice :: _ => (Ok (parseJudgeVerdict unmarshal (msg_Content (ch_Message choice))),
                                  recorded (re_Usage r) None)
                end
            end
      end
  end.
End Aux.

(** ** Auxiliary reservations *)

Section AuxSettled.
Context `{!Regexp} {L S X A R K : Type} `{!BudgetLedger L} `{!Repository R} `{!EventSink K}.
Context (clk : nat → Z) (ids : nat → result string) (ranged : list Deployment → list Deployment).
Context (resolve : TenantRuntimeSnapshot → Deployment → string → bool).
Context (invoke : A → Deployment → UnifiedRequest → result (option UnifiedResponse) * A).
Context (unmarshal : list Z → option JudgeResult).
Implicit Types (w : world L S X A R K).

Lemma release_if_held_settles w pid rid :
  rid ≠ "" → settled (w_budget (release_if_held w pid rid)) pid rid.
Proof. intros Hr. unfold release_if_held. rewrite bool_decide_false by done. apply Release_settles. Qed.

(** Recording a call settles its reservation, on every path. *)
Lemma recordAux_settles w kind model dep usage latency pid rid err :
  is_Some (rc_Snapshot (w_req w)) → is_Some (rc_Request (w_req w)) → rid ≠ "" →
  settled (w_budget (recordAuxiliaryUsage clk ids w kind model dep usage latency pid rid err)) pid rid.
Proof.
  intros [s Hs] [u Hu] Hr. unfold recordAuxiliaryUsage, new_id. rewrite Hs, Hu.
  destruct (ids (w_id w)) as [id|e]; [|by apply release_if_held_settles].
  set (facts := auxiliary_facts _ _ _ _ _ _ _ _ _ _ _).
  destruct (NewFinalizer _ _ _ _ _) as [f|e] eqn:Hf; [|by apply release_if_held_settles].
  unfold NewFinalizer in Hf. destruct (w_repo _) as [r|]; simplify_eq/=.
  set (f := {| fz_repository := r |}).
  destruct (enforcer_finalize_settles f (w_budget w) eq_refl Hr) as (e'&He&Hset). simpl. by rewrite He.
Qed.

(** The frame of an auxiliary reservation. *)
Lemma reserveAuxiliary_req w n r w' :
  reserveAuxiliary clk ids w n = (r, w') → w_req w' = w_req w.
Proof.
  unfold reserveAuxiliary, reserve_for, new_id. intros H1. repeat case_match; simplify_eq/=; done.
Qed.

(** An embedding or judge call that reaches a deployment never leaves its own
    reservation open.  Whatever the provider answers (an error, no body, no
    vectors, no choices), whether or not an event id can be drawn and whether or
    not the accounting repository accepts the record, the budget reserved for the
    call is settled when it returns. *)
Theorem auxiliary_call_settles w snapshot model text1 text2 est pid rid w1 d :
  is_Some (rc_Snapshot (w_req w)) → is_Some (rc_Request (w_req w)) → rid ≠ "" → d_ID d ≠ "" →
  resolve snapshot d (d_CredentialID d) = true →
  (reserveAuxiliary clk ids w (quarter (len text1)) = (Ok (pid, rid, est), w1) →
   embeddingDeployment ranged snapshot model = Some d →
   settled (w_budget (Embed clk ids ranged resolve invoke snapshot model w text1).2) pid rid) ∧
  (reserveAuxiliary clk ids w (quarter (wrap64 (len text1 + len text2))) = (Ok (pid, rid, est), w1) →
   capabilityDeployment ranged snapshot model "chat" = Some d →
   settled (w_budget (Verdict clk ids ranged resolve invoke unmarshal snapshot model w text1 text2).2) pid rid).
Proof.
  intros Hs Hu Hr Hd Hres. split; intros Hq Hdep; pose proof (reserveAuxiliary_req _ _ _ _ Hq) as Hreq.
  - unfold Embed, embedFor. rewrite Hq, Hdep, Hres. simpl.
    destruct (invoke _ _ _) as [[[r|]|err] a]; simpl; [destruct (re_Embeddings r); simpl| |];
      rewrite bool_decide_false by done; apply recordAux_settles; simpl; by rewrite ?Hreq.
  - unfold Verdict. rewrite Hq, Hdep, Hres. simpl.
    destruct (invoke _ _ _) as [[[r|]|err] a]; simpl; [destruct (re_Choices r); simpl| |];
      apply recordAux_settles; simpl; by rewrite ?Hreq.
Qed.
End AuxSettled.

(** ** Concrete calls *)

#[local] Existing Instances no_regexp no_sink.
#[local] Instance ready_repository : Repository unit := {| repo_Finalize := λ s _, ((true, None), s) |}.

(** A tenant with one budget of 1000 tokens, and a provider that knows one vector. *)
Definition metered_tenant : TenantRuntimeSnapshot :=
  NewTenantSnapshot (example_tenant "priority" no_cache [example_budget "b" "" ""]).

Definition any_credential (_ : TenantRuntimeSnapshot) (_ : Deployment) (_ : string) : bool := true.
Definition failing_provider (a : unit) (_ : Deployment) (_ : UnifiedRequest) : result (option UnifiedResponse) * unit :=
  (Err (ErrNew "connection refused"), a).

Definition waiting : world MemoryBudgetLedger MemoryStore unit unit unit unit :=
  quiet_world tt tt (incoming "r" metered_tenant example_request).

Lemma auxiliary_call_settles_witness :
  settled (w_budget (Embed ticking numbered (λ ds, ds) any_credential failing_provider metered_tenant "m" waiting "hello").2)
    "b" "id0".
Proof.
  refine (proj1 (auxiliary_call_settles ticking numbered (λ ds, ds) any_credential failing_provider (λ _, None)
            waiting metered_tenant "m" "hello" "" 2 "b" "id0"
            (reserveAuxiliary ticking numbered waiting (quarter (len "hello"))).2
            (default (example_deployment "" "") (embeddingDeployment (λ ds, ds) metered_tenant "m")) _ _ _ _ _) _ _);
    [by eexists|by eexists|done|vm_compute; discriminate|reflexivity|vm_compute; reflexivity|vm_compute; reflexivity].
Defined.

(** A call that finds no deployment for its model returns without recording: the
    tokens it reserved stay reserved, and nothing holds the reservation any more. *)
Theorem unroutable_auxiliary_call_leaks :
  let after := (Embed ticking numbered (λ ds, ds) any_credential failing_provider metered_tenant "missing" waiting "hello").2 in
  let judged := (Verdict ticking numbered (λ ds, ds) any_credential failing_provider (λ _, None) metered_tenant "missing"
                   waiting "hello" "rubric").2 in
  Budget.Usage (e_manager (w_budget waiting)) "b" = (0, 0) ∧
  Budget.Usage (e_manager (w_budget after)) "b" = (2, 0) ∧ ¬ settled (w_budget after) "b" "id0" ∧
  Budget.Usage (e_manager (w_budget judged)) "b" = (3, 0) ∧ ¬ settled (w_budget judged) "b" "id0".
Proof.
  split_and!; [vm_compute; reflexivity|vm_compute; reflexivity| |vm_compute; reflexivity|].
  all: intros Hs; unfold settled in Hs.
  all: match type of Hs with context [ledgerFor ?m ?p ?r] =>
         destruct (ledgerFor m p r) as [[[pl wd] rv]|] eqn:E; [specialize (Hs _ _ _ eq_refl)|];
         vm_compute in E; simplify_eq end.
Qed.
