(* ===== verification/Lite.v ===== *)
(** * The Lite pipeline: internal/app/pipeline.go

    [Run] builds the seven handlers of a request and hands them to the fixed runner
    of [Pipeline.v].  Each handler is a function on the [world] of [LiteWorld.v]; the
    route plan and the attempts, local variables that [Run]'s closures share, are
    fields of it.

    [parts] are the fields of [litePipeline] that a request does not change: the
    clock, the id generator, the policies, the optional collaborators, and the
    executor's collaborators as the environment of [Executor.v].  The executor's
    state [X] contains the circuit breaker ([p_breaker]).  [breaker.Open] creates a
    missing entry as closed, which no later decision can tell from its absence, so
    the readings of it below keep the breaker as it is.

    A round-robin counter past 2^63 makes the planner panic; the panic is reported as
    an error of the resolution stage here. *)

From S2P Require Import Prelude GoFloat GoStd Circuit Coordination Budget Enforcer Rate Retry Snapshot CredentialPool.
From S2P Require Import Planner Executor Accounting Approval Pipeline Interaction Cache Metering FinOps Guardrail StreamGuard.
From S2P Require Import RoutingMetrics LiteWorld LiteUsage LiteAux.

Open Scope string_scope.
Open Scope Z_scope.

Section Lite.
Context `{!Regexp} `{!JSONCodec} {L S X A R K CS : Type}.
Context `{!BudgetLedger L} `{!CacheStore S} `{!Repository R} `{!EventSink K} `{!CircuitStore CS}.

Record parts := {
  p_clk : nat → Z;
  p_ids : nat → result string;
  p_stamp : nat → string * Z;  (** ids and times of guardrail events *)
  p_tokenizer : option Registry;
  p_upstream : error → option string;
  p_ratePolicy : Rate.Policy;
  p_policy : Retry.Policy;
  p_env : UnifiedRequest → Env (option UnifiedResponse) X;
  p_stream : UnifiedRequest → Env unit (X * streamCollector);
  p_breaker : X → Breaker CS;
  p_set_breaker : X → Breaker CS → X;
  p_inflight : option (X → string → Z);
  p_probe : option (A → string → string → string → bool * A);
  p_ranged : list Deployment → list Deployment;
  p_ranged_vectors : list semanticEntry → list semanticEntry;
  p_resolve : TenantRuntimeSnapshot → Deployment → string → bool;
  p_invoke : A → Deployment → UnifiedRequest → result (option UnifiedResponse) * A;
  p_unmarshal : list Z → option JudgeResult;
  p_guardrails : option Engine;
  p_external : bool;
  p_externalFailMode : string;
  p_contextGuard : option Guard;
  p_contextStrict : bool;
  p_semantic : bool;  (** the vector store and the embedder are configured *)
  p_judge : bool;
  p_approvals : bool;
  p_approval_db : option error * option error }.

Context (p : parts).
Implicit Types (w : world L S X A R K) (c : RequestContext).

Definition continue {W} (err : option error) (w : W) : (Z * option error) * W := ((Continue, err), w).

(** ** Stages 1 and 2 *)

Definition admission w : (Z * option error) * world L S X A R K := continue None w.

(** The judge of a request: the auxiliary call of [LiteAux.v] on the world. *)
Definition bound_judge (snapshot : TenantRuntimeSnapshot) (model : string) : Judge (world L S X A R K) :=
  {| judge_Verdict := Verdict (p_clk p) (p_ids p) (p_ranged p) (p_resolve p) (p_invoke p) (p_unmarshal p) snapshot model |}.

Definition groundednessFor (policy : GuardrailPolicy) : option OverlapChecker :=
  if gg_Enabled (gp_Groundedness policy) then Some (NewOverlapChecker (gg_MinOverlap (gp_Groundedness policy))) else None.

Definition judgeFor (policy : GuardrailPolicy) : bool := gj_Enabled (gp_Judge policy) && p_judge p.

(** A guardrail stage: the handler with the pipeline's sink, ids and clock and no
    security store.  [judged] hands the world to the judge. *)
Definition guard_stage (h : GuardHandler) (judged : bool) (model : string) w : (Z * option error) * world L S X A R K :=
  match rc_Snapshot (w_req w) with
  | None => continue None w
  | Some snapshot =>
      let st := {| gs_next := w_id w; gs_sink := w_sink w; gs_security := None;
                   gs_judge := if judged then Some w else None; gs_engines := w_engines w |} in
      let '(err, c, st) := Guardrail.Handle (SecurityEventStore0 := no_security) (Judge0 := bound_judge snapshot model)
                             true (p_stamp p) h (w_req w) st in
      let w := default w (gs_judge st) in
      let w := put_sink (put_id w (Nat.max (gs_next st) (w_id w))) (gs_sink st) in
      continue err (put_req (put_engines w (gs_engines st)) c)
  end.

Definition inputGuardrail w : (Z * option error) * world L S X A R K :=
  guard_stage {| gh_Engine := p_guardrails p; gh_Output := false; gh_Groundedness := None; gh_Action := "" |} false "" w.

(** ** Stage 3 *)

Definition approval_call c (i : Context) : Call :=
  {| ca_Snapshot := rc_Snapshot c; ca_TenantID := TenantID c; ca_ProjectID := ProjectID c; ca_Kind := ic_Kind i;
     ca_Caller := pref_ID (ic_Caller i); ca_Target := rref_ID (ic_Target i) |}.

Definition check_approval w : option error * world L S X A R K :=
  match rc_Interaction (w_req w) with
  | Some i =>
      if p_approvals p then
        let '(err, service) := Approval.Handle (w_approvals w) (now_of (p_clk p) w) (p_approval_db p).1 (p_approval_db p).2
                                 (approval_call (w_req w) i) in
        (err, tick 1 (put_approvals w service))
      else (None, w)
  | None => (None, w)
  end.

(** The token meter, on the estimate. *)
Definition reserve_tpm w : bool * world L S X A R K :=
  let c := w_req w in
  let estimate := estimateTokensWith (rc_Request c) (p_tokenizer p) in
  let '((decision, _), meter) := Rate.Reserve (w_meter w) (now_of (p_clk p) w) (TenantID c) (ProjectID c) estimate in
  let w := tick 1 (put_meter w meter) in
  if t_Allowed decision then (true, put_req w (set_tpm c estimate)) else (false, w).

Definition exact_lookup w : Z * world L S X A R K :=
  let '(directive, c, store) := Cache.Handle (w_store w) (now_of (p_clk p) w) (w_req w) in
  (directive, tick 1 (put_store (put_req w c) store)).

Definition semantic_lookup (snapshot : TenantRuntimeSnapshot) w : Z * world L S X A R K :=
  let policy := cp_Semantic (sn_cache snapshot) in
  let embed := Embed (p_clk p) (p_ids p) (p_ranged p) (p_resolve p) (p_invoke p) snapshot (sc_Model policy) in
  let h := {| sh_Threshold := sc_Threshold policy; sh_SecurityBlocked := None |} in
  let '(directive, c, vectors, store, w) :=
    semantic_Handle embed (p_ranged_vectors p) h (w_vectors w) (w_store w) w (now_of (p_clk p) w) (w_req w) in
  (directive, tick 1 (put_req (put_store (put_vectors w vectors) store) c)).

Definition cache_lookup w : Z * world L S X A R K :=
  match rc_Snapshot (w_req w) with
  | None => (Continue, w)
  | Some snapshot =>
      let '(directive, w) := exact_lookup w in
      if negb (directive =? Continue) then (directive, w)
      else if sc_Enabled (cp_Semantic (sn_cache snapshot)) && p_semantic p then semantic_lookup snapshot w
      else (directive, w)
  end.

Definition preflight w : (Z * option error) * world L S X A R K :=
  match check_approval w with
  | (Some err, w) => continue (Some err) w
  | (None, w) =>
      let '(allowed, w) := allow_rpm (p_clk p) (p_ratePolicy p) w in
      if negb allowed then continue (Some RATE_LIMITED) w
      else
        let '(allowed, w) := reserve_tpm w in
        if negb allowed then continue (Some TPM_LIMITED) w
        else
          match reserveBudget (p_clk p) (p_ids p) (p_tokenizer p) w with
          | (Some err, w) => continue (Some err) w
          | (None, w) =>
              if match rc_Request (w_req w) with Some u => ur_Stream u | None => false end then continue None w
              else let '(directive, w) := cache_lookup w in ((directive, None), w)
          end
  end.
(** ** Stage 4 *)

Definition circuit_clock w : nat → Z := λ n, p_clk p (w_tick w + n)%nat.

(** [p.circuit.Open]. *)
Definition circuit_open (x : X) (clock : nat → Z) (deploymentID credentialID : string) : bool :=
  (Circuit.Open (p_breaker p x) clock deploymentID credentialID).1.

(** A cold deployment is judged by a probe of its provider. *)
Definition probe_health (snapshot : TenantRuntimeSnapshot) (d : Deployment) (a : A) : bool * A :=
  match p_probe p with
  | Some probe =>
      if bool_decide (d_Status d = "enabled") then
        match snapshot_provider snapshot (d_ProviderID d) with
        | None => (true, a)
        | Some provider =>
            match snapshot_credential snapshot (d_CredentialID d) with
            | None => (false, a)
            | Some credential =>
                if bool_decide (cr_Status credential ≠ "enabled") then (false, a)
                else probe a (pv_Type provider) (pv_Endpoint provider) (cr_SecretRef credential)
            end
        end
      else (true, a)
  | None => (true, a)
  end.

Definition deployment_health w (snapshot : TenantRuntimeSnapshot) (now : Z) (st : gmap string bool * A) (d : Deployment) :
    gmap string bool * A :=
  let '(health, a) := st in
  if circuit_open (w_exec w) (circuit_clock w) (d_ID d) (d_CredentialID d) then (<[d_ID d := false]> health, a)
  else if hasData (w_metrics w) (d_ID d) now then (<[d_ID d := healthy (w_metrics w) (d_ID d) now]> health, a)
  else let '(ok, a) := probe_health snapshot d a in (<[d_ID d := ok]> health, a).

Definition routeHealth w (snapshot : TenantRuntimeSnapshot) : gmap string bool * world L S X A R K :=
  let deployments := p_ranged p (map_to_list (sn_deployments snapshot)).*2 in
  let '(health, a) := foldl (deployment_health w snapshot (now_of (p_clk p) w)) (∅, w_aux w) deployments in
  (health, tick 1 (put_aux w a)).

Definition route_input c (snapshot : TenantRuntimeSnapshot) (u : UnifiedRequest) (health : gmap string bool)
    (metrics : gmap string DeploymentMetrics) (open : string → string → bool) : Input :=
  {| in_Snapshot := Some snapshot; in_Key := rc_Key c; in_LogicalModel := ur_Model u; in_ProjectID := ProjectID c;
     in_RequestID := rc_RequestID c; in_RoutingKey := ""; in_RequiredCapabilities := requiredCapabilities (Some u);
     in_RequiresTools := match ur_Chat u with Some chat => negb (bool_decide (chat_Tools chat = [])) | None => false end;
     in_ContextTokens := estimateContextTokensWith (Some u) (p_tokenizer p); in_Health := health;
     in_Circuit := Some open; in_Metrics := metrics |}.

Definition CONTEXT_EXCEEDED : error := ErrKernel "CONTEXT_EXCEEDED" "request exceeds the model context window" false.
Definition PLANNER_PANIC : error := ErrNew "runtime error: index out of range".

Definition select_deployment c (id : string) : RequestContext :=
  set_result c (rc_Response c) (rc_Usage c) id (rc_Latency c) (rc_TTFT c).

(** The strict context guard on the selected deployment. *)
Definition context_check (snapshot : TenantRuntimeSnapshot) (u : UnifiedRequest) (selected : string) : option error :=
  match p_contextGuard p with
  | Some g =>
      if p_contextStrict p && negb (bool_decide (selected = "")) then
        match snapshot_deployment snapshot selected with
        | Some d => match (Check g (Some u) (d_UpstreamModel d) (d_ContextWindow d)).2 with
                    | Some _ => Some CONTEXT_EXCEEDED
                    | None => None
                    end
        | None => None
        end
      else None
  | None => None
  end.

Definition resolution w : (Z * option error) * world L S X A R K :=
  let c := w_req w in
  match rc_Snapshot c, rc_Request c with
  | Some snapshot, Some u =>
      let '(health, w) := routeHealth w snapshot in
      let '(metrics, table) := RoutingMetrics.snapshot (w_metrics w) (now_of (p_clk p) w) in
      let w := tick 1 (put_metrics w table) in
      let input := route_input c snapshot u health metrics (circuit_open (w_exec w) (circuit_clock w)) in
      match Plan (w_planner w) input with
      | (None, planner) => continue (Some PLANNER_PANIC) (put_planner w planner)
      | (Some (plan, Some err), planner) => continue (Some err) (put_plan (put_planner w planner) plan)
      | (Some (plan, None), planner) =>
          let w := put_plan (put_planner w planner) plan in
          let selected := match plan with Some plan => pl_selected plan | None => "" end in
          continue (context_check snapshot u selected) (put_req w (select_deployment c selected))
      end
  | _, _ => continue None w
  end.

(** ** Stage 5 *)

Definition streamGuardFor w : option StreamGuard * world L S X A R K :=
  let c := w_req w in
  match rc_Snapshot c with
  | None => (None, w)
  | Some snapshot =>
      let '(engine, items) := CompileEngine (w_engines w) snapshot (p_guardrails p) in
      let w := put_engines w items in
      match engine with
      | Err _ => (None, w)
      | Ok e =>
          if negb (HasRules (Some e)) then (None, w)
          else (NewStreamGuard
                  {| cfg_Engine := Some e; cfg_WindowBytes := 0; cfg_BufferTokens := 0; cfg_External := p_external p;
                     cfg_FailMode := p_externalFailMode p;
                     cfg_Observed := match w_sink w with Some _ => true | None => false end;
                     cfg_TenantID := TenantID c; cfg_ProjectID := ProjectID c; cfg_RequestID := rc_RequestID c;
                     cfg_SnapshotVersion := SnapshotVersion c |}, w)
      end
  end.

(** The in-flight count of a credential, when a counter is configured. *)
Definition inflightObserver (tenantID deploymentID : string) (x : X) : option (string → Z) :=
  (λ get credentialID, get x (inflightScope tenantID deploymentID credentialID)) <$> p_inflight p.

(** The credential picker of a deployment. *)
Definition picker_for c (snapshot : TenantRuntimeSnapshot) (clock : nat → Z) (x : X) (d : Deployment) : option Picker :=
  let state :=
    {| ss_snapshot := snapshot; ss_cost := None; ss_quota := None; ss_deploymentID := d_ID d;
       ss_inflight := inflightObserver (TenantID c) (d_ID d) x;
       ss_circuitOpen := Some (circuit_open x clock) |} in
  match FromSnapshot snapshot d (Some (snapshot_state state)) with
  | Err _ => None
  | Ok pool => match NewPicker pool (rc_RequestID c) with Some (Ok picker) => Some picker | _ => None end
  end.

(** The end of the stage: latency, first token, and the in-flight mark of the
    deployment that answered. *)
Definition executed (started : Z) w (response : option UnifiedResponse) (usage : option UnifiedUsage)
    (deployment : string) (ttft : Z) : world L S X A R K :=
  let c := set_result (w_req w) response usage deployment (time_sub (now_of (p_clk p) w) started) ttft in
  let w := tick 1 (put_req w c) in
  if bool_decide (deployment = "") then w else put_metrics w (begin (w_metrics w) deployment).

Definition execution_failed (started : Z) w (ttft : Z) (err : error) : (Z * option error) * world L S X A R K :=
  let c := w_req w in
  continue (Some err)
    (tick 1 (put_req w (set_result c (rc_Response c) (rc_Usage c) (rc_SelectedDeploymentID c)
                          (time_sub (now_of (p_clk p) w) started) ttft))).

Definition execute_stream (started : Z) (snapshot : TenantRuntimeSnapshot) (u : UnifiedRequest) (plan : RoutePlan) w :
    (Z * option error) * world L S X A R K :=
  let '(gr, w) := streamGuardFor w in
  let collector := newStreamCollector true gr started in
  let '((attempts, o), (x, collector)) :=
    ExecuteStream (p_stream p u) (p_policy p) snapshot plan (w_exec w, collector) in
  let w := put_exec w x in
  match o_err o with
  | Some err => execution_failed started w (sc_ttft collector) err
  | None =>
      let w := put_attempts w (Some attempts) in
      let selected := match last attempts with Some a => at_DeploymentID a | None => rc_SelectedDeploymentID (w_req w) end in
      let response := StreamGuard.Response collector (now_of (p_clk p) w) in
      continue None (executed started (tick 1 w) (Some response) (Some (re_Usage response)) selected (sc_ttft collector))
  end.

Definition execute_pool (started : Z) (snapshot : TenantRuntimeSnapshot) (u : UnifiedRequest) (plan : RoutePlan) w :
    (Z * option error) * world L S X A R K :=
  let c := w_req w in
  let '((attempts, o), x) :=
    ExecuteWithPool (p_env p u) (p_policy p) snapshot (picker_for c snapshot (circuit_clock w)) plan (w_exec w) in
  let w := put_attempts (put_exec w x) (Some attempts) in
  match o_err o with
  | Some err => execution_failed started w (rc_TTFT c) err
  | None =>
      let response := default None (o_response o) in
      let usage := match response with Some r => Some (re_Usage r) | None => rc_Usage c end in
      continue None (executed started w response usage (o_deployment o) 0)
  end.

(** The runner reaches this stage only after a plan was made. *)
Definition executionStage (started : Z) w : (Z * option error) * world L S X A R K :=
  let c := w_req w in
  match rc_Snapshot c, rc_Request c, w_plan w with
  | Some snapshot, Some u, Some plan =>
      if ur_Stream u && rc_StreamWriter c then execute_stream started snapshot u plan w
      else execute_pool started snapshot u plan w
  | _, _, _ => continue (Some (ErrNew "invalid memory address or nil pointer dereference")) w
  end.

(** ** Stage 6 *)

Definition outputGuardrail w : (Z * option error) * world L S X A R K :=
  match rc_Snapshot (w_req w) with
  | None => continue None w
  | Some snapshot =>
      let policy := sn_guardrail snapshot in
      let advanced := gj_Enabled (gp_Judge policy) || gg_Enabled (gp_Groundedness policy) in
      guard_stage {| gh_Engine := p_guardrails p; gh_Output := true;
                     gh_Groundedness := if advanced then groundednessFor policy else None;
                     gh_Action := if advanced then gj_Action (gp_Judge policy) else "" |}
        (advanced && judgeFor policy) (gj_Model (gp_Judge policy)) w
  end.

(** ** Stage 7 *)

Definition reconcileTPM w : world L S X A R K :=
  let c := w_req w in
  tick 1 (put_meter w (Rate.Reconcile (w_meter w) (now_of (p_clk p) w) (TenantID c) (ProjectID c) (rc_TPMEstimated c)
                         (match rc_Usage c with Some u => TotalTokens u | None => 0 end))).

(** The share of the input that the provider's prompt cache served. *)
Definition cache_hit_ratio c (success : bool) : float64 :=
  match rc_Usage c with
  | Some u =>
      let total := wrap64 (us_InputTokens u + us_CacheReadTokens u) in
      if success && (0 <? total) then f64_div (f64_of_Z (us_CacheReadTokens u)) (f64_of_Z total) else f64_zero
  | None => f64_zero
  end.

Definition recordRoutingMetrics w (success : bool) : world L S X A R K :=
  let c := w_req w in
  if bool_decide (rc_SelectedDeploymentID c = "") then w
  else tick 1 (put_metrics w (observe (w_metrics w) (now_of (p_clk p) w) (rc_SelectedDeploymentID c)
                                (f64_of_Z (milliseconds (rc_Latency c))) (default f64_zero (rc_ProviderCost c))
                                (cache_hit_ratio c success) success)).

Definition file_event c (u : UnifiedRequest) (f : FilePayload) (id : string) (now : Z) : DomainEvent :=
  let operation := if bool_decide (fi_Operation f = "") then "content" else fi_Operation f in
  let stored := match rc_Response c with Some r => match re_File r with Some x => fr_ID x | None => "" end | None => "" end in
  {| ev_ID := id; ev_Kind := "file.access"; ev_OccurredAt := now; ev_TenantID := TenantID c; ev_ProjectID := ProjectID c;
     ev_RequestID := rc_RequestID c;
     ev_Attributes := [("operation", operation);
                       ("file_id", if bool_decide (operation = "upload") && negb (bool_decide (stored = ""))
                                   then stored else fi_ID f);
                       ("logical_model", ur_Model u); ("deployment_id", rc_SelectedDeploymentID c); ("outcome", "success")] |}.

Definition emitFileAccessEvent w : world L S X A R K :=
  let c := w_req w in
  match w_sink w, rc_Request c with
  | Some sink, Some u =>
      match ur_File u with
      | Some f =>
          if bool_decide (ur_Kind u = RequestFile) then
            match new_id (p_ids p) w with
            | (Err _, w) => w
            | (Ok id, w) => tick 1 (put_sink w (Some (sink_Emit sink (file_event c u f id (now_of (p_clk p) w))).2))
            end
          else w
      | None => w
      end
  | _, _ => w
  end.

Definition accountingStage w : (Z * option error) * world L S X A R K :=
  match rc_Err (w_req w) with
  | Some cause =>
      match finalizeFailure (p_clk p) (p_ids p) (p_upstream p) w cause with
      | (Some err, w) => continue (Some err) w
      | (None, w) => continue None (recordRoutingMetrics (reconcileTPM w) false)
      end
  | None =>
      match rc_Response (w_req w) with
      | None => continue None (reconcileTPM w)
      | Some _ =>
          match finalize (p_clk p) (p_ids p) w with
          | (Some err, w) => continue (Some err) w
          | (None, w) => continue None (recordRoutingMetrics (reconcileTPM (emitFileAccessEvent w)) true)
          end
      end
  end.

(** ** Run *)

Definition DRAINING : error := ErrKernel "DRAINING" "server is draining" true.

Definition handlers (started : Z) : Handlers (world L S X A R K) := λ stage,
  Some match stage with
       | Admission => admission
       | InputGuardrail => inputGuardrail
       | PolicyCostPreflight => preflight
       | Resolution => resolution
       | ExecutionResilience => executionStage started
       | OutputStreamGuardrail => outputGuardrail
       | AccountingTelemetry => accountingStage
       end.

Definition capture_err (err : option error) w : world L S X A R K :=
  put_req w (set_outcome (w_req w) err (rc_ProviderCost (w_req w))).

(** The tenant's circuit parameters are put into the shared breaker. *)
Definition configure (snapshot : TenantRuntimeSnapshot) w : world L S X A R K :=
  put_exec w (p_set_breaker p (w_exec w)
    (Circuit.SetConfig (p_breaker p (w_exec w)) (breakerConfigFromSnapshot (sn_circuit snapshot)))).

Definition serve (snapshot : TenantRuntimeSnapshot) w : option error * world L S X A R K :=
  let w := configure snapshot w in
  let started := now_of (p_clk p) w in
  match NewRunner (handlers started) with
  | Err err => (Some err, w)
  | Ok runner => Pipeline.Run capture_err runner (put_attempts (put_plan (tick 1 w) None) None)
  end.

(** [stream] is the identifier the registry would form. *)
Definition Run (stream : string) w : option error * world L S X A R K :=
  let c := w_req w in
  match rc_Request c, rc_Snapshot c with
  | Some u, Some snapshot =>
      match w_streams w with
      | Some registry =>
          if ur_Stream u && rc_StreamWriter c then
            match Register registry stream with
            | (None, _) => (Some DRAINING, w)
            | (Some id, registry) =>
                let '(err, w) := serve snapshot (put_streams w (Some registry)) in
                (err, put_streams w ((λ r, Unregister r id) <$> w_streams w))
            end
          else serve snapshot w
      | None => serve snapshot w
      end
  | _, _ => (Some (ErrNew "lite pipeline requires a complete request context"), w)
  end.
End Lite.
