(* ===== verification/LiteSafety.v ===== *)
(** * What the Lite pipeline guarantees: internal/app/pipeline.go

    The theorems about [Lite.Run], the composition of every component for one
    request: what has happened when a provider was called, what a refused request
    costs, and that no request leaves its budget reservation open. *)

From S2P Require Import Prelude GoFloat GoStd Circuit Coordination Budget Enforcer Rate Retry Snapshot CredentialPool.
From S2P Require Import Planner Executor Accounting Approval Pipeline Interaction Cache Metering FinOps Guardrail StreamGuard.
From S2P Require Import RoutingMetrics LiteWorld LiteUsage LiteAux Lite.

Open Scope string_scope.
Open Scope Z_scope.

Section Safety.
Context `{!Regexp} `{!JSONCodec} {L S X A R K CS : Type}.
Context `{!BudgetLedger L} `{!CacheStore S} `{!Repository R} `{!EventSink K} `{!CircuitStore CS}.
Context (p : parts (X := X) (A := A) (CS := CS)).
Implicit Types (w : world L S X A R K) (c : RequestContext).

(** ** Steps that leave routing and execution alone *)

(** No provider of the route plan was called and nothing was planned; the accounting
    repository stays configured. *)
Record calm w w' : Prop := {
  calm_exec : w_exec w' = w_exec w;
  calm_planner : w_planner w' = w_planner w;
  calm_plan : w_plan w' = w_plan w;
  calm_attempts : w_attempts w' = w_attempts w;
  calm_repo : is_Some (w_repo w) → is_Some (w_repo w') }.

#[local] Instance calm_preorder : PreOrder calm.
Proof.
  split; [done|]. intros w1 w2 w3 [] []. split; try congruence. by auto.
Qed.

Ltac calm_done := split; simpl; done || by eauto.

Lemma calm_finalizer w sink facts : calm w (run_finalizer w sink facts).2.
Proof. unfold run_finalizer. destruct (NewFinalizer _ _ _ _ _); calm_done. Qed.

Lemma calm_record w u : calm w (recordUsage (p_clk p) (p_ids p) w u).2.
Proof.
  unfold recordUsage, new_id. destruct (p_ids p (w_id w)) as [id|]; [|calm_done]. simpl.
  set (w1 := tick 1 _). assert (calm w w1) as H1 by calm_done. change (w_sink w1) with (w_sink w).
  pose proof (calm_finalizer w1 (w_sink w) (facts_of (w_req w) id (now_of (p_clk p) (put_id w (w_id w + 1)%nat)) u)) as H2.
  destruct (run_finalizer _ _ _) as [[[err|] sink] w2]; (etransitivity; [exact H1|]); (etransitivity; [exact H2|]); calm_done.
Qed.

Lemma calm_reserveAuxiliary w n : calm w (reserveAuxiliary (p_clk p) (p_ids p) w n).2.
Proof. unfold reserveAuxiliary, reserve_for, new_id. repeat case_match; simplify_eq/=; calm_done. Qed.

Lemma calm_recordAux w kind model dep usage latency pid rid err :
  calm w (recordAuxiliaryUsage (p_clk p) (p_ids p) w kind model dep usage latency pid rid err).
Proof.
  unfold recordAuxiliaryUsage, new_id, release_if_held. repeat case_match; simplify_eq/=; calm_done.
Qed.

Lemma calm_embed snapshot model w input :
  calm w (Embed (p_clk p) (p_ids p) (p_ranged p) (p_resolve p) (p_invoke p) snapshot model w input).2.
Proof.
  unfold Embed. pose proof (calm_reserveAuxiliary w (quarter (len input))) as H1.
  destruct (reserveAuxiliary _ _ _ _) as [[[[pid rid] est]|err] w1]; [|exact H1]. simpl in H1.
  assert (calm w1 (embedFor (p_ranged p) (p_resolve p) (p_invoke p) (tick 1 w1) snapshot model input).2) as H2.
  { unfold embedFor. repeat case_match; simplify_eq/=; calm_done. }
  destruct (embedFor _ _ _ _ _ _ _) as [[[[v dep] usage] err] w2]. simpl in *.
  etransitivity; [exact H1|]. etransitivity; [exact H2|]. case_bool_decide; [done|].
  etransitivity; [|apply calm_recordAux]. calm_done.
Qed.

Lemma calm_verdict snapshot model w a b :
  calm w (Verdict (p_clk p) (p_ids p) (p_ranged p) (p_resolve p) (p_invoke p) (p_unmarshal p) snapshot model w a b).2.
Proof.
  unfold Verdict. pose proof (calm_reserveAuxiliary w (quarter (wrap64 (len a + len b)))) as H1.
  destruct (reserveAuxiliary _ _ _ _) as [[[[pid rid] est]|err] w1]; [|exact H1]. simpl in H1.
  etransitivity; [exact H1|]. destruct (capabilityDeployment _ _ _ _) as [d|]; [|calm_done].
  destruct (negb _); [calm_done|]. destruct (p_invoke p _ _ _) as [[[r|]|err] aux]; simpl;
    [destruct (re_Choices r)| |]; (etransitivity; [|apply calm_recordAux]); calm_done.
Qed.

(** ** Stages *)

Lemma calm_guard_stage h judged model w : calm w (guard_stage p h judged model w).2.
Proof.
  unfold guard_stage. destruct (rc_Snapshot (w_req w)) as [s|]; [|done]. simpl.
  destruct (Guardrail.Handle _ _ _ _ _) as [[err c] st] eqn:Eh.
  eapply (Handle_frame _ _ (calm w)) in Eh.
  - destruct Eh as [_ Hj]. destruct (gs_judge st) as [w1|]; simpl; [|calm_done].
    etransitivity; [by apply Hj|]. calm_done.
  - intros w1 a b Hw1. etransitivity; [exact Hw1|]. apply calm_verdict.
  - intros w1. simpl. by destruct judged; intros [= <-].
Qed.

Lemma calm_check_approval w : calm w (check_approval p w).2.
Proof. unfold check_approval. repeat case_match; simplify_eq/=; calm_done. Qed.

Lemma calm_allow_rpm w : calm w (allow_rpm (p_clk p) (p_ratePolicy p) w).2.
Proof. unfold allow_rpm. repeat case_match; simplify_eq/=; calm_done. Qed.

Lemma calm_reserve_tpm w : calm w (reserve_tpm p w).2.
Proof. unfold reserve_tpm. repeat case_match; simplify_eq/=; calm_done. Qed.

Lemma calm_reserveBudget w : calm w (reserveBudget (p_clk p) (p_ids p) (p_tokenizer p) w).2.
Proof. unfold reserveBudget, reserve_for, new_id. repeat case_match; simplify_eq/=; calm_done. Qed.

Lemma semantic_Handle_state {E} (P : E → Prop) embed ranged h vectors (s : S) (em : E) now c :
  (∀ e x, P e → P (embed e x).2) → P em → P (semantic_Handle embed ranged h vectors s em now c).2.
Proof.
  intros He Hem. unfold semantic_Handle. repeat (case_match; simplify_eq/=); try done;
    match goal with H : embed em ?x = _ |- _ => specialize (He em x Hem); rewrite H in He; exact He end.
Qed.

Lemma calm_cache_lookup w : calm w (cache_lookup p w).2.
Proof.
  unfold cache_lookup. destruct (rc_Snapshot (w_req w)) as [s|]; [|done].
  assert (calm w (exact_lookup p w).2) as H1 by (unfold exact_lookup; repeat case_match; calm_done).
  destruct (exact_lookup p w) as [directive w1]. simpl in H1. destruct (negb _); [exact H1|].
  destruct (_ && _); [|exact H1]. etransitivity; [exact H1|]. unfold semantic_lookup.
  match goal with |- context [semantic_Handle ?e ?r ?h ?v ?st ?em ?n ?c] =>
    pose proof (semantic_Handle_state (calm w1) e r h v st em n c) as H2;
    destruct (semantic_Handle e r h v st em n c) as [[[[d c'] v'] s'] w2] end.
  simpl in *. etransitivity; [apply H2; [|done]|calm_done].
  intros w3 x Hw3. etransitivity; [exact Hw3|]. apply calm_embed.
Qed.

(** What the preflight stage agreed to when it lets a request go on. *)
Definition admitted w w' : Prop :=
  ∃ w1 w2 w3 w4,
    check_approval p w = (None, w1) ∧ allow_rpm (p_clk p) (p_ratePolicy p) w1 = (true, w2) ∧
    reserve_tpm p w2 = (true, w3) ∧ reserveBudget (p_clk p) (p_ids p) (p_tokenizer p) w3 = (None, w4) ∧
    (w' = w4 ∨ cache_lookup p w4 = (Continue, w')).

Lemma calm_preflight w : calm w (preflight p w).2.
Proof.
  unfold preflight.
  pose proof (calm_check_approval w) as H1. destruct (check_approval p w) as [[err|] w1]; [exact H1|].
  pose proof (calm_allow_rpm w1) as H2. destruct (allow_rpm _ _ w1) as [[|] w2]; simpl in *; [|by etransitivity].
  pose proof (calm_reserve_tpm w2) as H3. destruct (reserve_tpm p w2) as [[|] w3]; simpl in *;
    [|by do 2 (etransitivity; [eassumption|])].
  pose proof (calm_reserveBudget w3) as H4. destruct (reserveBudget _ _ _ w3) as [[err|] w4]; simpl in *;
    [by do 3 (etransitivity; [eassumption|])|].
  assert (calm w w4) as H5 by (by do 3 (etransitivity; [eassumption|])).
  destruct (match rc_Request _ with Some _ => _ | None => _ end); [exact H5|].
  pose proof (calm_cache_lookup w4) as H6. destruct (cache_lookup p w4) as [directive w5].
  simpl in *. by etransitivity.
Qed.

Lemma preflight_admits w w' : preflight p w = ((Continue, None), w') → admitted w w'.
Proof.
  unfold preflight, admitted, continue. intros Hp.
  destruct (check_approval p w) as [[err|] w1] eqn:E1; [done|].
  destruct (allow_rpm _ _ w1) as [[|] w2] eqn:E2; simpl in Hp; [|done].
  destruct (reserve_tpm p w2) as [[|] w3] eqn:E3; simpl in Hp; [|done].
  destruct (reserveBudget _ _ _ w3) as [[err|] w4] eqn:E4; [done|].
  exists w1, w2, w3, w4. split_and!; try done.
  destruct (match rc_Request _ with Some _ => _ | None => _ end); [by simplify_eq; left|].
  destruct (cache_lookup p w4) as [directive w5] eqn:E5. simplify_eq. by right.
Qed.

Lemma calm_finalizeFailure w cause : calm w (finalizeFailure (p_clk p) (p_ids p) (p_upstream p) w cause).2.
Proof. unfold finalizeFailure. destruct (attemptsFromResult _) as [[? ?] ?]. apply calm_record. Qed.

Lemma calm_finalize w : calm w (finalize (p_clk p) (p_ids p) w).2.
Proof.
  unfold finalize. destruct (attemptsFromResult _) as [[? ?] ?].
  set (u := Build_usageFacts _ _ _ _ _ _ _ _ _ _ _ _ _ _ _).
  set (w1 := match request_cost _ _ _ with Some _ => _ | None => _ end).
  assert (calm w w1) as H1 by (unfold w1; case_match; calm_done).
  pose proof (calm_record w1 u) as H2. destruct (recordUsage _ _ w1 u) as [[err|] w2]; simpl in *; [by etransitivity|].
  do 2 (etransitivity; [eassumption|]). unfold write_back. repeat case_match; simplify_eq/=; calm_done.
Qed.

Lemma calm_accounting w : calm w (accountingStage p w).2.
Proof.
  unfold accountingStage. destruct (rc_Err (w_req w)) as [cause|].
  - pose proof (calm_finalizeFailure w cause) as H1. destruct (finalizeFailure _ _ _ _ _) as [[err|] w1]; [exact H1|].
    simpl in *. etransitivity; [exact H1|]. unfold recordRoutingMetrics. case_bool_decide; calm_done.
  - destruct (rc_Response (w_req w)); [|calm_done].
    pose proof (calm_finalize w) as H1. destruct (finalize _ _ _) as [[err|] w1]; [exact H1|].
    simpl in *. etransitivity; [exact H1|]. unfold recordRoutingMetrics, emitFileAccessEvent, new_id.
    repeat (case_match; simplify_eq/=); calm_done.
Qed.

(** Resolution and execution keep the repository. *)
Lemma repo_resolution w : w_repo (resolution p w).2 = w_repo w.
Proof. unfold resolution, routeHealth. repeat (case_match; simplify_eq/=); done. Qed.

Lemma exec_resolution w : w_exec (resolution p w).2 = w_exec w.
Proof. unfold resolution, routeHealth. repeat (case_match; simplify_eq/=); done. Qed.

Lemma repo_executed started w response usage deployment ttft :
  w_repo (executed p started w response usage deployment ttft) = w_repo w.
Proof. unfold executed. by case_bool_decide. Qed.

Lemma repo_execution started w : w_repo (executionStage p started w).2 = w_repo w.
Proof.
  unfold executionStage, execute_stream, execute_pool, streamGuardFor, execution_failed, continue.
  repeat (case_match; simplify_eq/=); rewrite ?repo_executed; done.
Qed.

(** ** The walk of a request *)

Definition runner (started : Z) : Runner (world L S X A R K) :=
  {| r_handlers := λ stage, default no_op (handlers p started stage) |}.

Lemma NewRunner_lite started : NewRunner (handlers p started) = Ok (runner started).
Proof. reflexivity. Qed.

Lemma guard_stage_directive h judged model w : (guard_stage p h judged model w).1.1 = Continue.
Proof. unfold guard_stage, continue. repeat case_match; done. Qed.

Lemma resolution_directive w : (resolution p w).1.1 = Continue.
Proof. unfold resolution, continue. repeat case_match; done. Qed.

(** The stages after preflight. *)
Definition routed (started : Z) w : option error * world L S X A R K :=
  and_then (runStage (runner started) Resolution w) (λ w, runStage (runner started) ExecutionResilience w).

Lemma runStage_state started stage w :
  (runStage (runner started) stage w).2 = (r_handlers (runner started) stage w).2.
Proof. unfold runStage. by destruct (r_handlers _ _ _) as [[d [err|]] w']. Qed.

Lemma routed_cases started w err w' :
  routed started w = (err, w') →
  (is_Some (w_repo w) → is_Some (w_repo w')) ∧
  (w_exec w' = w_exec w ∨
   ∃ w1 plan, resolution p w = ((Continue, None), w1) ∧ w_plan w1 = Some plan ∧ w_exec w1 = w_exec w ∧
     w_exec w' = w_exec (executionStage p started w1).2).
Proof.
  unfold routed, and_then. pose proof (runStage_state started Resolution w) as Hs. simpl in Hs.
  pose proof (repo_resolution w) as Hr. pose proof (exec_resolution w) as He. pose proof (resolution_directive w) as Hd.
  destruct (runStage (runner started) Resolution w) as [[e|] w1] eqn:E1; simpl in Hs; intros Hrun; simplify_eq.
  - split; [by rewrite Hr|by left].
  - pose proof (runStage_state started ExecutionResilience (resolution p w).2) as Hx. simpl in Hx.
    rewrite Hrun in Hx. simpl in Hx. rewrite Hx, repo_execution, Hr. split; [done|].
    unfold runStage in E1. simpl in E1. destruct (resolution p w) as [[d [e|]] w2]; simpl in *; [done|]. subst d.
    destruct (w_plan w2) as [plan|] eqn:Ep; [right; by exists w2, plan|left].
    unfold executionStage. rewrite Ep. by repeat case_match.
Qed.

(** A walk either calls nothing, or was admitted and routed first. *)
Lemma stages_cases started w err w' :
  stages (runner started) w = (err, w') →
  (is_Some (w_repo w) → is_Some (w_repo w')) ∧
  (calm w w' ∨
   ∃ w1 w2, inputGuardrail p w = ((Continue, None), w1) ∧ preflight p w1 = ((Continue, None), w2) ∧
     (w_exec w' = w_exec w ∨
      ∃ w3 plan, resolution p w2 = ((Continue, None), w3) ∧ w_plan w3 = Some plan ∧ w_exec w3 = w_exec w ∧
        w_exec w' = w_exec (executionStage p started w3).2)).
Proof.
  unfold stages. unfold runStage at 1. simpl.
  pose proof (calm_guard_stage {| gh_Engine := p_guardrails p; gh_Output := false; gh_Groundedness := None; gh_Action := "" |}
                false "" w) as H1.
  pose proof (guard_stage_directive {| gh_Engine := p_guardrails p; gh_Output := false; gh_Groundedness := None; gh_Action := "" |}
                false "" w) as Hd1.
  fold (inputGuardrail p w) in H1, Hd1. unfold runStage at 1. simpl.
  destruct (inputGuardrail p w) as [[d1 [e1|]] w1]; simpl in *; [intros [= <- <-]; split; [apply H1|by left]|].
  subst d1. simpl. pose proof (calm_preflight w1) as H2.
  destruct (preflight p w1) as [[d2 [e2|]] w2] eqn:E2; simpl in *;
    assert (calm w w2) as H12 by (by etransitivity); [intros [= <- <-]; split; [apply H12|by left]|].
  destruct (negb (d2 =? Continue) && _); [intros [= <- <-]; split; [apply H12|by left]|].
  destruct (Z.eqb_spec d2 Continue) as [->|Hd2]; fold (routed started w2); intros Hrun.
  - destruct (routed started w2) as [e3 w3] eqn:E3. destruct (routed_cases _ _ _ _ E3) as [Hr3 Hx3].
    assert (calm w3 w' ∨ w' = w3) as H4.
    { unfold and_then in Hrun. destruct e3 as [e3|]; simplify_eq; [by right|left].
      pose proof (runStage_state started OutputStreamGuardrail w3) as Hs. simpl in Hs. rewrite Hrun in Hs.
      simpl in Hs. rewrite Hs. unfold outputGuardrail. destruct (rc_Snapshot _); [apply calm_guard_stage|done]. }
    assert (w_exec w' = w_exec w3) as Hx4 by (by destruct H4 as [[ ]| ->]). split.
    + intros Hr. apply H12, Hr3 in Hr. destruct H4 as [H4| ->]; [by apply H4|done].
    + right. exists w1, w2. split; [done|]. split; [done|]. rewrite Hx4. destruct H12. destruct Hx3 as [Hx3|(wr&plan&Hx3&Hp&Hxr&Hxe)].
      * left. congruence.
      * right. exists wr, plan. split_and!; congruence.
  - simpl in Hrun.
    assert (calm w2 w') as H4.
    { pose proof (runStage_state started OutputStreamGuardrail w2) as Hs. simpl in Hs. rewrite Hrun in Hs.
      simpl in Hs. rewrite Hs. unfold outputGuardrail. destruct (rc_Snapshot _); [apply calm_guard_stage|done]. }
    assert (calm w w') as H5 by (by etransitivity). split; [apply H5|by left].
Qed.

(** ** Settlement of the request's own reservation *)

Definition reservation_of c : string * string := (rc_BudgetPolicyID c, rc_ReservationID c).

Definition settled_for w : Prop := settled (w_budget w) (rc_BudgetPolicyID (w_req w)) (rc_ReservationID (w_req w)).

(** The steps after the usage record touch neither the budget nor the request. *)
Lemma settled_same w w' : w_budget w' = w_budget w → w_req w' = w_req w → settled_for w → settled_for w'.
Proof. unfold settled_for. by intros -> ->. Qed.

Lemma accounting_req w :
  reservation_of (w_req (accountingStage p w).2) = reservation_of (w_req w) ∧
  rc_Response (w_req (accountingStage p w).2) = rc_Response (w_req w).
Proof.
  unfold accountingStage. destruct (rc_Err (w_req w)) as [cause|].
  - unfold finalizeFailure. destruct (attemptsFromResult _) as [[? ?] ?]. set (u := Build_usageFacts _ _ _ _ _ _ _ _ _ _ _ _ _ _ _).
    pose proof (recordUsage_req (p_clk p) (p_ids p) w u) as Hq. destruct (recordUsage _ _ _ _) as [[err|] w1]; simpl in *;
      [by rewrite Hq|]. unfold recordRoutingMetrics. case_bool_decide; simpl; by rewrite Hq.
  - destruct (rc_Response (w_req w)) as [r|] eqn:Er; [|done]. unfold finalize. destruct (attemptsFromResult _) as [[? ?] ?].
    set (u := Build_usageFacts _ _ _ _ _ _ _ _ _ _ _ _ _ _ _).
    set (w1 := match request_cost _ _ _ with Some _ => _ | None => _ end).
    assert (reservation_of (w_req w1) = reservation_of (w_req w) ∧ rc_Response (w_req w1) = Some r) as H1
      by (unfold w1; case_match; done).
    pose proof (recordUsage_req (p_clk p) (p_ids p) w1 u) as Hq. destruct (recordUsage _ _ _ _) as [[err|] w2]; simpl in *;
      [by rewrite Hq|].
    assert (w_req (write_back (p_clk p) w2).2 = w_req w2) as Hb by (unfold write_back; repeat case_match; done).
    destruct (write_back _ _) as [[err|] w3]; simpl in *; [by rewrite Hb, Hq|].
    unfold recordRoutingMetrics, emitFileAccessEvent, new_id.
    repeat (case_match; simplify_eq/=); by rewrite Hb, Hq.
Qed.

Lemma accounting_settles w :
  (∀ n, is_ok (p_ids p n) = true) → is_Some (w_repo w) → rc_ReservationID (w_req w) ≠ "" →
  is_Some (rc_Err (w_req w)) ∨ is_Some (rc_Response (w_req w)) → settled_for (accountingStage p w).2.
Proof.
  intros Hids Hrepo Hne Hend. unfold accountingStage. destruct (rc_Err (w_req w)) as [cause|].
  - unfold finalizeFailure. destruct (attemptsFromResult _) as [[? ?] ?]. set (u := Build_usageFacts _ _ _ _ _ _ _ _ _ _ _ _ _ _ _).
    assert (settled_for (recordUsage (p_clk p) (p_ids p) w u).2) as Hs.
    { unfold settled_for. rewrite recordUsage_req. by apply recordUsage_settles. }
    destruct (recordUsage _ _ _ _) as [[err|] w1]; simpl in *; [done|].
    eapply settled_same; [| |exact Hs]; unfold recordRoutingMetrics; by case_bool_decide.
  - destruct Hend as [[? ?]|[r Hr]]; [done|]. rewrite Hr. unfold finalize. destruct (attemptsFromResult _) as [[? ?] ?].
    set (u := Build_usageFacts _ _ _ _ _ _ _ _ _ _ _ _ _ _ _).
    set (w1 := match request_cost _ _ _ with Some _ => _ | None => _ end).
    assert (settled_for (recordUsage (p_clk p) (p_ids p) w1 u).2) as Hs.
    { unfold settled_for. rewrite recordUsage_req. apply recordUsage_settles; [done| |]; unfold w1; case_match; done. }
    destruct (recordUsage _ _ _ _) as [[err|] w2]; simpl in *; [done|].
    assert (settled_for (write_back (p_clk p) w2).2) as Hb
      by (eapply settled_same; [| |exact Hs]; unfold write_back; repeat case_match; done).
    destruct (write_back _ _) as [[err|] w3]; simpl in *; [done|].
    eapply settled_same; [| |exact Hb]; unfold recordRoutingMetrics, emitFileAccessEvent, new_id;
      repeat (case_match; simplify_eq/=); done.
Qed.

(** Nothing of what requests compete for was spent: rate, tokens, budget, cache space. *)
Record thrifty w w' : Prop := {
  thrifty_limiter : w_limiter w' = w_limiter w;
  thrifty_meter : w_meter w' = w_meter w;
  thrifty_budget : w_budget w' = w_budget w;
  thrifty_store : w_store w' = w_store w;
  thrifty_vectors : w_vectors w' = w_vectors w }.

#[local] Instance thrifty_preorder : PreOrder thrifty.
Proof. split; [done|]. intros w1 w2 w3 [] []. split; congruence. Qed.

(** The world the stages of a run start in: the tenant's circuit parameters are in the
    breaker, the start time was read, and there is no plan and no attempt yet.  A
    stream is entered into the registry first. *)
Definition entered (s : TenantRuntimeSnapshot) w : world L S X A R K :=
  put_attempts (put_plan (tick 1 (configure p s w)) None) None.

Definition registered (stream : string) w w0 : Prop :=
  w0 = w ∨ ∃ registry registry' id,
    w_streams w = Some registry ∧ Register registry stream = (Some id, registry') ∧ w0 = put_streams w (Some registry').

(** [Run] past its guards. *)
Lemma Run_serves stream w err w' :
  Run p stream w = (err, w') →
  (w' = w ∧ is_Some err) ∨ ∃ s u w0 w1, rc_Snapshot (w_req w) = Some s ∧ rc_Request (w_req w) = Some u ∧
    calm (put_plan (put_attempts (configure p s w) None) None) w0 ∧ w_req w0 = w_req w ∧ thrifty w w0 ∧
    w_approvals w0 = w_approvals w ∧
    Pipeline.Run capture_err (runner (now_of (p_clk p) (configure p s w))) w0 = (err, w1) ∧
    w_req w' = w_req w1 ∧ thrifty w1 w' ∧ calm w1 w' ∧ ∃ wr, registered stream w wr ∧ w0 = entered s wr.
Proof.
  unfold Run, serve. destruct (rc_Request (w_req w)) as [u|]; [|intros [= <- <-]; left; by eauto].
  destruct (rc_Snapshot (w_req w)) as [s|]; [|intros [= <- <-]; left; by eauto].
  rewrite !NewRunner_lite. set (start := λ w, put_attempts (put_plan (tick 1 w) None) None).
  assert (∀ w1, Pipeline.Run capture_err (runner (now_of (p_clk p) (configure p s w))) (start (configure p s w)) = (err, w1) →
    w' = w1 → (w' = w ∧ is_Some err) ∨ ∃ s0 u0 w0 w2, Some s = Some s0 ∧ Some u = Some u0 ∧
    calm (put_plan (put_attempts (configure p s0 w) None) None) w0 ∧ w_req w0 = w_req w ∧ thrifty w w0 ∧
    w_approvals w0 = w_approvals w ∧
    Pipeline.Run capture_err (runner (now_of (p_clk p) (configure p s0 w))) w0 = (err, w2) ∧
    w_req w' = w_req w2 ∧ thrifty w2 w' ∧ calm w2 w' ∧ ∃ wr, registered stream w wr ∧ w0 = entered s0 wr) as Hplain.
  { intros w1 Hrun ->. right. exists s, u, (start (configure p s w)), w1. split_and!; try done.
    exists w. split; [by left|done]. }
  destruct (w_streams w) as [registry|] eqn:Estreams; [|by intros Hrun; eapply Hplain].
  destruct (ur_Stream u && rc_StreamWriter (w_req w)); [|by intros Hrun; eapply Hplain].
  destruct (Register registry stream) as [[id|] registry'] eqn:Ereg; [|intros [= <- <-]; left; by eauto].
  set (w0 := start (configure p s (put_streams w (Some registry')))).
  rewrite NewRunner_lite. match goal with |- context [Pipeline.Run ?cap ?r ?w1] => change (Pipeline.Run cap r w1) with
    (Pipeline.Run capture_err (runner (now_of (p_clk p) (configure p s w))) w0) end.
  destruct (Pipeline.Run _ _ w0) as [e w1] eqn:Erun. intros [= -> <-]. right.
  exists s, u, w0, w1. split_and!; try done.
  exists (put_streams w (Some registry')). split; [right; by eexists _, _, id|done].
Qed.

(** C3: no request leaves its budget reservation open.  On a gateway whose id generator
    works and whose accounting repository is configured, a request that comes in
    without a reservation and ends with an error or a response - refused by any
    stage, served from a cache, completed, or failed at every provider, with the
    repository, the event sink and the auxiliary calls failing or not - leaves the
    reservation it was given, if any, settled. *)
Theorem run_settles_reservation stream w err w' :
  (∀ n, is_ok (p_ids p n) = true) → is_Some (w_repo w) → rc_ReservationID (w_req w) = "" →
  Run p stream w = (err, w') → is_Some err ∨ is_Some (rc_Response (w_req w')) →
  rc_ReservationID (w_req w') ≠ "" → settled_for w'.
Proof.
  intros Hids Hrepo Hnone Hrun Hend Hheld.
  destruct (Run_serves _ _ _ _ Hrun) as [[-> Herr]|(s&u&w0&w1&_&_&Hc&_&_&_&Hp&Hreq&Hb&_)]; [done|].
  apply (settled_same w1); [apply Hb|done|]. rewrite Hreq in Hend, Hheld. clear Hreq Hb Hrun.
  unfold Pipeline.Run in Hp. destruct (stages _ _) as [e2 w2] eqn:E2.
  pose proof (stages_cases _ _ _ _ E2) as [Hr2 _]. simpl in Hp.
  set (wa := capture_err e2 w2) in *.
  destruct (accounting_req wa) as [Hq1 Hq2]. pose proof (accounting_settles wa Hids) as Hs.
  destruct (accountingStage p wa) as [[d ea] w3] eqn:Ea. simpl in *. simplify_eq.
  apply Hs.
  - apply Hr2, Hc. done.
  - congruence.
  - destruct e2 as [e2|]; [left; by eexists|right]. rewrite <- Hq2. destruct Hend as [Hend|Hend]; [|done].
    unfold accountingStage in Ea. simpl in Ea. change (rc_Response (w_req wa)) with (rc_Response (w_req w2)) in Hq2.
    destruct (rc_Response (w_req w2)) as [r|] eqn:Er; [rewrite Hq2; by eexists|].
    unfold continue in Ea. simplify_eq. by destruct Hend.
Qed.

(** ** Refused requests *)

(** A checkpoint without a judge spends nothing and keeps the rest of the context. *)
Lemma guard_stage_thrifty h model w :
  let w' := (guard_stage p h false model w).2 in
  thrifty w w' ∧ w_approvals w' = w_approvals w ∧ ∃ u r, w_req w' = with_payload (w_req w) u r.
Proof.
  unfold guard_stage. destruct (rc_Snapshot (w_req w)) as [s|] eqn:Es; simpl.
  - destruct (Guardrail.Handle _ _ _ _ _) as [[err c] st] eqn:Eh.
    apply (Handle_frame _ _ (λ _, False)) in Eh; [|done|done]. destruct Eh as [(u&r&->&_&_) Hj].
    destruct (gs_judge st) as [w1|]; [by destruct (Hj w1)|]. simpl. split; [done|]. split; [done|by eexists _, _].
  - split; [done|]. split; [done|]. exists (rc_Request (w_req w)), (rc_Response (w_req w)). by destruct (w_req w).
Qed.

(** ** What a provider call presupposes *)

(** The action of an interaction waits for a human decision. *)
Definition needs_approval (s : TenantRuntimeSnapshot) c (i : Context) : Prop :=
  let target := rref_ID (ic_Target i) in
  ic_Kind i = "approval" ∨
  (ic_Kind i = "tool" ∧ ∃ policy, snapshot_toolPolicy s (ProjectID c) target = Some policy ∧ tp_RequireApproval policy = true) ∨
  (ic_Kind i = "agent" ∧ ∃ agent, snapshot_agent s target = Some agent ∧ ag_RequireApproval agent = true).

(** The tenant's approval table holds the caller's approved request for the target. *)
Definition approved_in (t : table) c (i : Context) : Prop :=
  ∃ id q, t !! id = Some q ∧ q_TenantID q = TenantID c ∧ q_Target q = rref_ID (ic_Target i) ∧
    q_Requester q = pref_ID (ic_Caller i) ∧ q_Status q = StatusApproved ∧
    (q_DualApproval q = true → (2 <= length (q_ApprovedBy q))%nat).

(** What a scope has used of the running minute. *)
Definition used_now (m : Meter) (tenantID projectID : string) (now : Z) : Z :=
  match m_scopes m !! scope_key tenantID projectID with
  | Some b => if sameMinute (tb_window b) now then tb_used b else 0
  | None => 0
  end.

(** What the checks agree to about the request context [c], on the state [w] at the
    [n]-th reading of the clock: the action is approved if it must be, ... *)
Definition approval_clear (s : TenantRuntimeSnapshot) w c : Prop :=
  ∀ i, p_approvals p = true → rc_Interaction c = Some i → needs_approval s c i → approved_in (sv_store (w_approvals w)) c i.

(** ... the request limiter has a token for its project, ... *)
Definition rate_clear w c (n : nat) : Prop :=
  Allowed (Rate.Allow (w_limiter w) (p_clk p n) (TenantID c) (ProjectID c) (effectiveRatePolicy (p_ratePolicy p))).1 = true.

(** ... the estimate fits into the token limit of the running minute, if there is one, ... *)
Definition tokens_clear w c (n : nat) : Prop :=
  let estimate := estimateTokensWith (rc_Request c) (p_tokenizer p) in
  let limit := meter_limit (w_meter w) (TenantID c) (ProjectID c) in
  limit <= 0 ∨ estimate <= 0 ∨ wrap64 (used_now (w_meter w) (TenantID c) (ProjectID c) (p_clk p n) + estimate) <= limit.

(** ... and the budget policy that applies, if any, accepts a reservation of the
    estimate, unless the request already holds one. *)
Definition budget_clear w c (n : nat) : Prop :=
  rc_ReservationID c ≠ "" ∨
  ∀ policy, budgetPolicyFor c (p_clk p n) = Some policy →
    ∃ id r, (Enforcer.Reserve (w_budget w) (λ k, p_clk p (n + 1 + k)%nat) policy id
               (estimateTokensWith (rc_Request c) (p_tokenizer p))).1 = Ok r ∧ r_PolicyID r = p_ID policy.

(** The state [w] that a request finds has room for it, [c] being the request as the
    input guardrail rewrote it. *)
Record cleared (s : TenantRuntimeSnapshot) w c : Prop := {
  cleared_approval : approval_clear s w c;
  cleared_rate : ∃ n, (w_tick w < n <= w_tick w + 2)%nat ∧ rate_clear w c n;
  cleared_tokens : ∃ n, (w_tick w < n <= w_tick w + 3)%nat ∧ tokens_clear w c n;
  cleared_budget : ∃ n, (w_tick w < n <= w_tick w + 4)%nat ∧ budget_clear w c n }.

Lemma requiresApproval_spec s c i :
  rc_Snapshot c = Some s → needs_approval s c i → requiresApproval (approval_call c i) = true.
Proof.
  intros Hs Hn. unfold requiresApproval, approval_call. simpl. rewrite Hs.
  destruct Hn as [->|[(-> & q & -> & ->)|(-> & a & -> & ->)]]; done.
Qed.

Lemma Handle_approves svc now dbFind dbCreate (c : Call) :
  requiresApproval c = true → (Approval.Handle svc now dbFind dbCreate c).1 = None →
  ∃ id q, sv_store svc !! id = Some q ∧ q_TenantID q = ca_TenantID c ∧ q_Target q = ca_Target c ∧
    q_Requester q = ca_Caller c ∧ q_Status q = StatusApproved ∧
    (q_DualApproval q = true → (2 <= length (q_ApprovedBy q))%nat).
Proof.
  intros Hr. unfold Approval.Handle, gate_check, Find. rewrite Hr. simpl. case_bool_decide; [done|].
  destruct (store_Find _ _ _ _ _) as [q|err] eqn:Ef; simpl.
  - apply store_Find_spec in Ef as (id & Hq & Ht & Hg & Hc). intros Hpass. exists id, q. split_and!; try done;
      repeat case_bool_decide; try done. intros Hd. rewrite Hd in Hpass. simpl in Hpass. case_match eqn:El; [done|lia].
  - destruct (errors_is err Approval.ErrNotFound); simpl; [|done]. by destruct (Create _ _ _ _ _) as [[?|?] ?].
Qed.

Lemma meter_room m now tenantID projectID estimate :
  t_Allowed (Rate.Reserve m now tenantID projectID estimate).1.1 = true →
  meter_limit m tenantID projectID <= 0 ∨ estimate <= 0 ∨
  wrap64 (used_now m tenantID projectID now + estimate) <= meter_limit m tenantID projectID.
Proof.
  unfold Rate.Reserve, used_now. destruct (Z.leb_spec (meter_limit m tenantID projectID) 0); [auto|].
  destruct (Z.leb_spec estimate 0); [auto|]. simpl.
  destruct (m_scopes m !! _) as [b|]; [destruct (sameMinute _ _)|]; simpl; case_match eqn:El; try done; intros _; lia.
Qed.

Lemma Enforcer_Reserve_policy (b : budgetEnforcer L) clk policy id estimate r :
  (Enforcer.Reserve b clk policy id estimate).1 = Ok r → r_PolicyID r = p_ID policy.
Proof.
  unfold Enforcer.Reserve, Budget.Reserve. repeat (case_match; simplify_eq/=); naive_solver.
Qed.

Lemma check_approval_clear s w w' : rc_Snapshot (w_req w) = Some s → check_approval p w = (None, w') → approval_clear s w (w_req w).
Proof.
  intros Hs Ha i Hp Hi Hn. unfold check_approval in Ha. rewrite Hi, Hp in Ha.
  pose proof (Handle_approves (w_approvals w) (now_of (p_clk p) w) (p_approval_db p).1 (p_approval_db p).2
                (approval_call (w_req w) i)) as Hh.
  destruct (Approval.Handle _ _ _ _ _) as [e svc]. simplify_eq/=. by apply Hh; [eapply requiresApproval_spec|].
Qed.

Lemma allow_rpm_clear w w' :
  allow_rpm (p_clk p) (p_ratePolicy p) w = (true, w') →
  rate_clear w (w_req w) (w_tick w) ∧ w_tick w' = (w_tick w + 1)%nat ∧ w_req w' = w_req w ∧ w_meter w' = w_meter w ∧
  w_budget w' = w_budget w ∧ w_approvals w' = w_approvals w.
Proof. unfold allow_rpm, rate_clear, now_of. destruct (Rate.Allow _ _ _ _ _) as [d l]. intros [= <- <-]. by split_and!. Qed.

Lemma reserve_tpm_clear w w' :
  reserve_tpm p w = (true, w') →
  tokens_clear w (w_req w) (w_tick w) ∧ w_tick w' = (w_tick w + 1)%nat ∧ w_budget w' = w_budget w ∧
  ∃ n, w_req w' = set_tpm (w_req w) n.
Proof.
  unfold reserve_tpm, tokens_clear, now_of. pose proof (meter_room (w_meter w) (p_clk p (w_tick w)) (TenantID (w_req w)) (ProjectID (w_req w))
    (estimateTokensWith (rc_Request (w_req w)) (p_tokenizer p))) as Hroom.
  destruct (Rate.Reserve _ _ _ _ _) as [[d ?] m]. simpl in *. destruct (t_Allowed d); [|done]. intros [= <-].
  split_and!; [by apply Hroom|done|done|by eexists].
Qed.

Lemma reserveBudget_clear s w w' :
  rc_Snapshot (w_req w) = Some s → is_Some (rc_Request (w_req w)) →
  reserveBudget (p_clk p) (p_ids p) (p_tokenizer p) w = (None, w') → budget_clear w (w_req w) (w_tick w).
Proof.
  intros Hs [u Hu]. unfold reserveBudget, budget_clear. rewrite Hs, Hu. case_bool_decide as Hres; [by left|]. intros Hb. right. intros policy Hpol.
  unfold now_of in Hb. rewrite Hpol in Hb. unfold reserve_for, new_id in Hb. destruct (p_ids p _) as [id|]; [|by simplify_eq].
  simpl in Hb. exists id. destruct (Enforcer.Reserve _ _ _ _ _) as [[r|er] b] eqn:Er; [|by simplify_eq].
  exists r. split; [done|]. eapply Enforcer_Reserve_policy. by rewrite Er.
Qed.

(** The stages of the preflight read the state the request found. *)
Lemma admitted_cleared s w w1 w2 :
  thrifty w w1 → w_approvals w1 = w_approvals w → w_tick w1 = (w_tick w + 1)%nat → rc_Snapshot (w_req w1) = Some s →
  is_Some (rc_Request (w_req w1)) → admitted w1 w2 → cleared s w (w_req w1).
Proof.
  intros Ht Happ Htick Hs Hu (wa & wr & wt & wb & Ha & Hr & Hm & Hb & _).
  assert (∃ k, (k <= 1)%nat ∧ w_tick wa = (w_tick w + 1 + k)%nat ∧ thrifty w wa ∧ w_req wa = w_req w1) as (k & Hk & Hta & Hwa & Hqa).
  { unfold check_approval in Ha. destruct (rc_Interaction _); [destruct (p_approvals p)|];
      [destruct (Approval.Handle _ _ _ _ _)| |]; simplify_eq/=; rewrite ?Htick; [exists 1%nat|exists 0%nat..];
      (split; [lia|]); (split; [lia|]); (split; [by split; apply Ht|done]). }
  apply allow_rpm_clear in Hr as (Hr & Htr & Hqr & Hmr & Hbr & _).
  apply reserve_tpm_clear in Hm as (Hm & Htt & Hbt & n & Hqt).
  apply (reserveBudget_clear s) in Hb; [|by rewrite Hqt, Hqr, Hqa|by rewrite Hqt, Hqr, Hqa].
  split.
  - intros i. unfold approved_in. rewrite <- Happ. by apply (check_approval_clear s w1 wa).
  - exists (w_tick wa). split; [lia|]. unfold rate_clear in *. by rewrite Hqa, (thrifty_limiter _ _ Hwa) in Hr.
  - exists (w_tick wr). split; [lia|]. unfold tokens_clear in *. by rewrite Hmr, (thrifty_meter _ _ Hwa), Hqr, Hqa in Hm.
  - exists (w_tick wt). split; [lia|]. unfold budget_clear in *. by rewrite Hbt, Hbr, (thrifty_budget _ _ Hwa), Hqt, Hqr, Hqa in Hb.
Qed.

(** The stages before the planner keep who is calling and under which configuration. *)
Definition same_caller c c' : Prop :=
  rc_Snapshot c' = rc_Snapshot c ∧ rc_Interaction c' = rc_Interaction c ∧ rc_Key c' = rc_Key c.

#[local] Instance same_caller_preorder : PreOrder same_caller.
Proof. split; [done|]. intros c1 c2 c3 (?&?&?) (?&?&?). split_and!; congruence. Qed.

Lemma same_caller_admitted w w' : admitted w w' → same_caller (w_req w) (w_req w').
Proof.
  intros (w1 & w2 & w3 & w4 & H1 & H2 & H3 & H4 & H5).
  assert (same_caller (w_req w) (w_req w4)) as H6.
  { unfold check_approval, allow_rpm, reserve_tpm, reserveBudget, reserve_for, new_id in *.
    repeat (case_match; simplify_eq/=); done. }
  destruct H5 as [->|H5]; [done|]. etransitivity; [exact H6|]. clear H1 H2 H3 H4 H6.
  unfold cache_lookup in H5. destruct (rc_Snapshot (w_req w4)) as [s|] eqn:Es; [|by simplify_eq].
  destruct (exact_lookup p w4) as [directive w5] eqn:E5.
  assert (same_caller (w_req w4) (w_req w5)) as H7.
  { unfold exact_lookup, Cache.Handle in E5. repeat (case_match; simplify_eq/=); done. }
  etransitivity; [exact H7|]. destruct (negb _); [by simplify_eq|]. destruct (_ && _); [|by simplify_eq].
  unfold semantic_lookup, semantic_Handle in H5. repeat (case_match; simplify_eq/=); done.
Qed.

Lemma guard_stage_keeps h model w :
  let w' := (guard_stage p h false model w).2 in
  w_tick w' = w_tick w ∧ same_caller (w_req w) (w_req w') ∧ (is_Some (rc_Request (w_req w)) → is_Some (rc_Request (w_req w'))).
Proof.
  unfold guard_stage. destruct (rc_Snapshot (w_req w)) as [s|] eqn:Es; simpl; [|done].
  destruct (Guardrail.Handle _ _ _ _ _) as [[err c] st] eqn:Eh.
  apply (Handle_frame _ _ (λ _, False)) in Eh; [|done|done]. destruct Eh as [(u&r&->&Hu&_) Hj].
  destruct (gs_judge st) as [w1|]; [by destruct (Hj w1)|]. simpl. split; [done|]. split; [done|]. by rewrite Hu.
Qed.

(** The plan that the resolution stage made was made by the planner as the request
    found it, for the caller's snapshot, key and project. *)
Lemma resolution_plans s w w' plan :
  rc_Snapshot (w_req w) = Some s → w_plan w = None → resolution p w = ((Continue, None), w') → w_plan w' = Some plan →
  ∃ input, (Plan (w_planner w) input).1 = Some (Some plan, None) ∧ in_Snapshot input = Some s ∧
    in_Key input = rc_Key (w_req w) ∧ in_ProjectID input = ProjectID (w_req w).
Proof.
  intros Hs Hnone. unfold resolution. rewrite Hs. destruct (rc_Request (w_req w)) as [u|];
    [|intros [= <-]; by rewrite Hnone].
  unfold routeHealth. destruct (foldl _ _ _) as [health a]. destruct (RoutingMetrics.snapshot _ _) as [metrics tbl].
  simpl. match goal with |- context [Plan _ ?i] => set (input := i) end.
  destruct (Plan (w_planner w) input) as [[[pl [e|]]|] planner] eqn:Ep; intros Hr Hpl; try done.
  unfold continue in Hr. destruct (context_check _ _ _); [done|]. simplify_eq/=. exists input. by rewrite Ep.
Qed.

(** C2: a provider is called only for admitted requests.  If the state behind the
    executor is not what it was (other than the circuit parameters that every run
    installs), then the run, in exactly the world it entered, passed the input
    guardrail, the preflight and the planner, and the state is what executing that
    plan left.  Of the state the request found: its tenant's approval table holds an
    approved request of that caller for that target (with two approvers if two are
    needed) if the action needs approval and approvals are configured; the request
    limiter allows its project; the tokens its project used in the running minute
    and its estimate are within the limit, if there is one; the budget policy selected
    for it, if any, accepts a reservation of its estimate, unless the request already
    holds one; and the planner planned for the caller's own snapshot, key and project. *)
Theorem provider_calls_are_admitted stream w err w' s :
  rc_Snapshot (w_req w) = Some s → Run p stream w = (err, w') →
  w_exec w' ≠ w_exec w → w_exec w' ≠ w_exec (configure p s w) →
  ∃ w0 w1 w2 w3 plan, registered stream w w0 ∧ inputGuardrail p (entered s w0) = ((Continue, None), w1) ∧
    admitted w1 w2 ∧ resolution p w2 = ((Continue, None), w3) ∧ w_plan w3 = Some plan ∧
    w_exec w' = w_exec (executionStage p (now_of (p_clk p) w) w3).2 ∧
    cleared s w (w_req w1) ∧ same_caller (w_req w) (w_req w1) ∧
    ∃ input, (Plan (w_planner w) input).1 = Some (Some plan, None) ∧ in_Snapshot input = Some s ∧
      in_Key input = rc_Key (w_req w) ∧ in_ProjectID input = ProjectID (w_req w).
Proof.
  intros Hs Hrun Hx Hx'.
  destruct (Run_serves _ _ _ _ Hrun) as [[-> Herr]|(s'&u&w0&w1&Hs'&Hu&Hc&Hq&Ht&Happ&Hp&_&_&Hc1&wr&Hreg&He)]; [done|].
  rewrite Hs in Hs'. injection Hs' as <-. unfold Pipeline.Run in Hp. destruct (stages _ _) as [e2 w2] eqn:E2.
  destruct (stages_cases _ _ _ _ E2) as [_ Hcases]. simpl in Hp. pose proof (calm_accounting (capture_err e2 w2)) as Ha.
  destruct (accountingStage p (capture_err e2 w2)) as [[d ea] w3]. injection Hp as _ <-.
  assert (w_exec w' = w_exec w2) as Hxw by (etransitivity; [apply Hc1|apply Ha]).
  destruct Hcases as [Hcalm|(wi&wp&Hi&Hpre&[Hsame|(wres&plan&Hr&Hpl&_&Hxe)])].
  - destruct Hx'. rewrite Hxw. etransitivity; [apply Hcalm|apply Hc].
  - destruct Hx'. rewrite Hxw, Hsame. apply Hc.
  - pose proof (preflight_admits _ _ Hpre) as Hadm.
    destruct (guard_stage_thrifty {| gh_Engine := p_guardrails p; gh_Output := false; gh_Groundedness := None; gh_Action := "" |}
                "" w0) as (Hg1 & Hg2 & _).
    pose proof (calm_guard_stage {| gh_Engine := p_guardrails p; gh_Output := false; gh_Groundedness := None; gh_Action := "" |}
                false "" w0) as Hg3.
    destruct (guard_stage_keeps {| gh_Engine := p_guardrails p; gh_Output := false; gh_Groundedness := None; gh_Action := "" |}
                "" w0) as (Hg4 & Hg5 & Hg6).
    fold (inputGuardrail p w0) in Hg1, Hg2, Hg3, Hg4, Hg5, Hg6. rewrite Hi in Hg1, Hg2, Hg3, Hg4, Hg5, Hg6. simpl in *.
    rewrite Hq in Hg5, Hg6. pose proof (same_caller_admitted _ _ Hadm) as Hsc.
    pose proof (calm_preflight wi) as Hg7. rewrite Hpre in Hg7. simpl in Hg7.
    exists wr, wi, wp, wres, plan. rewrite <- He. split_and!; try done.
    + by rewrite Hxw, Hxe.
    + eapply admitted_cleared; [by etransitivity| | | | |exact Hadm].
      * congruence.
      * rewrite Hg4, He. by destruct Hreg as [->|(?&?&?&_&_&->)].
      * by destruct Hg5 as [-> _].
      * apply Hg6. rewrite Hu. by eexists.
    + destruct Hsc as (Hsc1&Hsc2&Hsc3), Hg5 as (Hs1&Hs2&Hs3).
      destruct (resolution_plans s wp wres plan) as (input & Hin & Hin1 & Hin2 & Hin3); [congruence| |done|done|].
      * rewrite (calm_plan _ _ Hg7), (calm_plan _ _ Hg3). by rewrite He.
      * exists input. rewrite (calm_planner _ _ Hg7), (calm_planner _ _ Hg3), (calm_planner _ _ Hc) in Hin. simpl in Hin.
        split_and!; [done|done|congruence|]. rewrite Hin3. unfold ProjectID. by rewrite Hsc2, Hs2.
Qed.

(** A request that holds nothing yet. *)
Definition fresh c : Prop :=
  rc_ReservationID c = "" ∧ rc_TPMEstimated c = 0 ∧ rc_Usage c = None ∧ rc_SelectedDeploymentID c = "".

Lemma run_finalizer_thrifty w sink facts : f_ReservationID facts = "" → thrifty w (run_finalizer w sink facts).2.
Proof.
  intros Hr. unfold run_finalizer, NewFinalizer. destruct (w_repo w) as [r|]; [|done]. simpl.
  assert (∀ f : Finalizer R (budgetEnforcer L) K, fz_facts f = facts → fz_budget f = Some (w_budget w) →
    fz_budget (finalize_once f) = Some (w_budget w)) as Hb.
  { intros f Hf Hfb. unfold finalize_once, settle_reservation, deferred_release. rewrite Hfb, Hf, Hr.
    rewrite bool_decide_false by (by intros []). repeat (case_match; simplify_eq/=); done. }
  split; try done. simpl. by rewrite Hb.
Qed.

Lemma recordUsage_thrifty w u : rc_ReservationID (w_req w) = "" → thrifty w (recordUsage (p_clk p) (p_ids p) w u).2.
Proof.
  intros Hr. unfold recordUsage, new_id. destruct (p_ids p (w_id w)) as [id|]; [|done]. simpl.
  set (w1 := tick 1 _). set (facts := facts_of _ _ _ _). change (w_sink w1) with (w_sink w).
  pose proof (run_finalizer_thrifty w1 (w_sink w) facts Hr) as Ht.
  destruct (run_finalizer w1 _ facts) as [[[err|] sink] w2]; by split; apply Ht.
Qed.

Lemma failed_accounting_thrifty w : is_Some (rc_Err (w_req w)) → fresh (w_req w) → thrifty w (accountingStage p w).2.
Proof.
  intros [cause Hc] (Hr&Ht&Hu&Hd). unfold accountingStage. rewrite Hc. unfold finalizeFailure.
  destruct (attemptsFromResult _) as [[? ?] ?]. set (u := Build_usageFacts _ _ _ _ _ _ _ _ _ _ _ _ _ _ _).
  pose proof (recordUsage_thrifty w u Hr) as Hth. pose proof (recordUsage_req (p_clk p) (p_ids p) w u) as Hq.
  destruct (recordUsage _ _ w u) as [[err|] w1]; simpl in *; [done|]. unfold recordRoutingMetrics. simpl.
  rewrite Hq, Hd. simpl. etransitivity; [exact Hth|]. split; simpl; try done. by rewrite Hq, Ht, Hu.
Qed.

(** A walk whose input checkpoint or approval refuses it. *)
Lemma refused_stages started w i err w' :
  p_approvals p = true → rc_Interaction (w_req w) = Some i → fresh (w_req w) →
  (∀ now, is_Some (Approval.Handle (w_approvals w) now (p_approval_db p).1 (p_approval_db p).2
                     (approval_call (w_req w) i)).1) →
  stages (runner started) w = (err, w') → is_Some err ∧ thrifty w w' ∧ calm w w' ∧ fresh (w_req w').
Proof.
  intros Ha Hi Hf Hrefused. unfold stages. unfold runStage at 1. simpl.
  destruct (guard_stage_thrifty {| gh_Engine := p_guardrails p; gh_Output := false; gh_Groundedness := None; gh_Action := "" |}
              "" w) as (H1 & H1a & u & r & H1r).
  pose proof (calm_guard_stage {| gh_Engine := p_guardrails p; gh_Output := false; gh_Groundedness := None; gh_Action := "" |}
                false "" w) as H1c.
  fold (inputGuardrail p w) in H1, H1a, H1r, H1c. unfold runStage at 1. simpl.
  pose proof (guard_stage_directive {| gh_Engine := p_guardrails p; gh_Output := false; gh_Groundedness := None; gh_Action := "" |}
                false "" w) as Hd1. fold (inputGuardrail p w) in Hd1.
  destruct (inputGuardrail p w) as [[d1 [e1|]] w1]; simpl in *; [intros [= <- <-]; rewrite H1r; by eauto|].
  subst d1. simpl. unfold preflight, check_approval. rewrite H1r. simpl. rewrite Hi, Ha, H1a.
  specialize (Hrefused (now_of (p_clk p) w1)).
  change (approval_call (with_payload (w_req w) u r) i) with (approval_call (w_req w) i).
  destruct (Approval.Handle _ _ _ _ _) as [[e|] svc]; simpl in *; [|by destruct Hrefused].
  intros [= <- <-]. split; [by eexists|]. split; [by split; apply H1|]. split; [by split; apply H1c|]. simpl. by rewrite H1r.
Qed.

(** C4: an action that is not approved costs its tenant nothing.  When the approval
    checkpoint refuses the action of a fresh request, whatever else is configured,
    the run reports an error and leaves the request rate, the token rate, the
    budget, both caches and the planner as they were; the executor has seen nothing
    but the tenant's circuit parameters. *)
Theorem unapproved_action_spends_nothing stream w i err w' :
  p_approvals p = true → rc_Interaction (w_req w) = Some i → fresh (w_req w) →
  (∀ now, is_Some (Approval.Handle (w_approvals w) now (p_approval_db p).1 (p_approval_db p).2
                     (approval_call (w_req w) i)).1) →
  Run p stream w = (err, w') →
  is_Some err ∧ thrifty w w' ∧ w_planner w' = w_planner w ∧
  (w_exec w' = w_exec w ∨ ∃ s, rc_Snapshot (w_req w) = Some s ∧ w_exec w' = w_exec (configure p s w)).
Proof.
  intros Ha Hi Hf Hrefused Hrun. destruct (Run_serves _ _ _ _ Hrun) as [[-> Herr]|(s&u&w0&w1&Hs&_&Hc&Hq&Ht&Happ&Hp&_&Ht1&Hc1&_)].
  - split; [done|]. split; [done|]. split; [done|by left].
  - unfold Pipeline.Run in Hp. destruct (stages _ _) as [e2 w2] eqn:E2.
    destruct (refused_stages _ w0 i _ _ Ha ltac:(by rewrite Hq) ltac:(by rewrite Hq)
                ltac:(intros now; rewrite Hq, Happ; apply Hrefused) E2) as ([e He]&Ht2&Hc2&Hf2). subst e2. simpl in Hp.
    pose proof (failed_accounting_thrifty (capture_err (Some e) w2) ltac:(by eexists) Hf2) as Ht3.
    pose proof (calm_accounting (capture_err (Some e) w2)) as Hc3.
    destruct (accountingStage p (capture_err (Some e) w2)) as [[d ea] w3]. simplify_eq.
    assert (calm w2 w') as Hc4 by (etransitivity; [|exact Hc1]; by split; apply Hc3).
    assert (thrifty w2 w') as Ht4 by (etransitivity; [|exact Ht1]; by split; apply Ht3).
    split; [by destruct ea; eexists|]. split; [by do 2 (etransitivity; [eassumption|])|].
    assert (calm w0 w') as Hc5 by (by etransitivity). destruct Hc, Hc5. simpl in *. split; [congruence|].
    right. exists s. split; congruence.
Qed.
End Safety.

(** ** A laboratory gateway *)

#[local] Existing Instances no_regexp no_sink ready_repository.

(** A provider that always answers; the number counts the calls. *)
Definition answering (_ : UnifiedRequest) : Env (option UnifiedResponse) (Breaker Circuit.MemoryStore * nat) :=
  {| env_resolve := λ _ _, true; env_resolveCredential := Some (λ _ _ _, true);
     env_allow := Some (λ x d c, let '(ok, b) := Circuit.Allow x.1 ticking d c in (ok, (b, x.2)));
     env_record := λ x d c ok, (Circuit.RecordOutcome x.1 ticking d c ok, x.2);
     env_acquire := None; env_release := λ x _ _, x; env_incr := None; env_decr := λ x _, x;
     env_call := λ x _ _, (inl (Some (plain_response "answer")), (x.1, S x.2));
     env_sleep := λ x _, (None, x); env_jitter := λ x, (0, x) |}.

Definition streaming (_ : UnifiedRequest) : Env unit ((Breaker Circuit.MemoryStore * nat) * streamCollector) :=
  {| env_resolve := λ _ _, true; env_resolveCredential := None; env_allow := None; env_record := λ x _ _ _, x;
     env_acquire := None; env_release := λ x _ _, x; env_incr := None; env_decr := λ x _, x;
     env_call := λ x _ _, (inl tt, x); env_sleep := λ x _, (None, x); env_jitter := λ x, (0, x) |}.

Definition lab : parts (X := Breaker Circuit.MemoryStore * nat) (A := unit) (CS := Circuit.MemoryStore) :=
  {| p_clk := ticking; p_ids := numbered; p_stamp := λ n, ("event", ticking n); p_tokenizer := None;
     p_upstream := λ _, None; p_ratePolicy := {| RequestsPerMinute := 0; Burst := 0 |}; p_policy := DefaultPolicy;
     p_env := answering; p_stream := streaming; p_breaker := fst; p_set_breaker := λ x b, (b, x.2); p_inflight := None;
     p_probe := None; p_ranged := λ ds, ds; p_ranged_vectors := λ vs, vs; p_resolve := any_credential;
     p_invoke := failing_provider; p_unmarshal := λ _, None;
     p_guardrails := Some {| eng_version := 1; eng_rules := [] |}; p_external := false; p_externalFailMode := "";
     p_contextGuard := None; p_contextStrict := false; p_semantic := false; p_judge := false; p_approvals := true;
     p_approval_db := (None, None) |}.

Definition lab_world (c : RequestContext) :
    world MemoryBudgetLedger Cache.MemoryStore (Breaker Circuit.MemoryStore * nat) unit unit unit :=
  quiet_world (Circuit.New Circuit.DefaultConfig, 0%nat) tt c.

Definition chat_context : RequestContext := incoming "r" metered_tenant example_request.

(** The request is answered by one call, and its 7 tokens are charged to the budget. *)
Example lab_serves :
  let '(err, w) := Run lab "" (lab_world chat_context) in
  err = None ∧ rc_Response (w_req w) = Some (plain_response "answer") ∧ (w_exec w).2 = 1%nat ∧
  Budget.Usage (e_manager (w_budget w)) "b" = (0, 7).
Proof. vm_compute. auto. Qed.

Lemma run_settles_reservation_witness :
  rc_ReservationID (w_req (Run lab "" (lab_world chat_context)).2) = "id0" ∧
  settled_for (Run lab "" (lab_world chat_context)).2.
Proof.
  split; [vm_compute; reflexivity|].
  apply (run_settles_reservation lab "" (lab_world chat_context) (Run lab "" (lab_world chat_context)).1).
  - reflexivity.
  - by eexists.
  - reflexivity.
  - apply surjective_pairing.
  - right. vm_compute. by eexists.
  - vm_compute. discriminate.
Defined.

Lemma provider_calls_are_admitted_witness :
  ∃ w0 w1 w2 w3 plan, registered "" (lab_world chat_context) w0 ∧
    inputGuardrail lab (entered lab metered_tenant w0) = ((Continue, None), w1) ∧
    admitted lab w1 w2 ∧ resolution lab w2 = ((Continue, None), w3) ∧ w_plan w3 = Some plan ∧
    cleared lab metered_tenant (lab_world chat_context) (w_req w1).
Proof.
  destruct (provider_calls_are_admitted lab "" (lab_world chat_context) (Run lab "" (lab_world chat_context)).1
           (Run lab "" (lab_world chat_context)).2 metered_tenant) as (w0&w1&w2&w3&plan&H1&H2&H3&H4&H5&_&H6&_).
  - reflexivity.
  - apply surjective_pairing.
  - vm_compute. discriminate.
  - vm_compute. discriminate.
  - exists w0, w1, w2, w3, plan. auto 10.
Defined.

(** An approval request of a caller nobody has approved yet. *)
Definition gated_interaction : Context :=
  {| ic_Kind := "approval"; ic_Protocol := ""; ic_TenantID := "t"; ic_ProjectID := "proj"; ic_SessionID := "";
     ic_TaskID := ""; ic_RootTaskID := ""; ic_ParentTaskID := ""; ic_ParentRequestID := ""; ic_TrustBoundary := "";
     ic_Direction := ""; ic_Federation := None; ic_Caller := {| pref_Type := "agent"; pref_ID := "bot" |};
     ic_Target := {| rref_Type := "tool"; rref_ID := "deploy" |} |}.

Definition gated_context : RequestContext :=
  let c := chat_context in
  {| rc_RequestID := rc_RequestID c; rc_ReceivedAt := rc_ReceivedAt c; rc_Snapshot := rc_Snapshot c;
     rc_Interaction := Some gated_interaction; rc_Request := rc_Request c; rc_Response := None; rc_Usage := None;
     rc_Source := ""; rc_Key := rc_Key c; rc_SelectedDeploymentID := ""; rc_ProviderCost := None; rc_Latency := 0;
     rc_TTFT := 0; rc_Err := None; rc_CacheHit := false; rc_CachePending := false; rc_CacheKey := "";
     rc_StreamWriter := false; rc_BudgetPolicyID := ""; rc_ReservationID := ""; rc_BudgetEstimated := 0;
     rc_BudgetSoftWarning := false; rc_TPMEstimated := 0 |}.

Lemma unapproved_action_spends_nothing_witness :
  let '(err, w) := Run lab "" (lab_world gated_context) in
  is_Some err ∧ thrifty (lab_world gated_context) w ∧ w_planner w = w_planner (lab_world gated_context).
Proof.
  pose proof (unapproved_action_spends_nothing lab "" (lab_world gated_context) gated_interaction
                (Run lab "" (lab_world gated_context)).1 (Run lab "" (lab_world gated_context)).2) as H.
  destruct (Run lab "" (lab_world gated_context)) as [err w].
  destruct H as (He & Ht & Hp & _); [reflexivity|reflexivity|vm_compute; auto| |reflexivity|].
  - intros now. vm_compute. eexists. reflexivity.
  - split; [exact He|]. split; [exact Ht|exact Hp].
Defined.

(** ** Where the guarantees end *)

(** A provider that answers without a body. *)
Definition bodiless (u : UnifiedRequest) : Env (option UnifiedResponse) (Breaker Circuit.MemoryStore * nat) :=
  {| env_resolve := env_resolve (answering u); env_resolveCredential := env_resolveCredential (answering u);
     env_allow := env_allow (answering u); env_record := env_record (answering u); env_acquire := None;
     env_release := λ x _ _, x; env_incr := None; env_decr := λ x _, x;
     env_call := λ x _ _, (inl None, (x.1, S x.2)); env_sleep := λ x _, (None, x); env_jitter := λ x, (0, x) |}.

Definition bodiless_lab : parts (X := Breaker Circuit.MemoryStore * nat) (A := unit) (CS := Circuit.MemoryStore) :=
  {| p_clk := ticking; p_ids := numbered; p_stamp := λ n, ("event", ticking n); p_tokenizer := None;
     p_upstream := λ _, None; p_ratePolicy := {| RequestsPerMinute := 0; Burst := 0 |}; p_policy := DefaultPolicy;
     p_env := bodiless; p_stream := streaming; p_breaker := fst; p_set_breaker := λ x b, (b, x.2); p_inflight := None;
     p_probe := None; p_ranged := λ ds, ds; p_ranged_vectors := λ vs, vs; p_resolve := any_credential;
     p_invoke := failing_provider; p_unmarshal := λ _, None;
     p_guardrails := Some {| eng_version := 1; eng_rules := [] |}; p_external := false; p_externalFailMode := "";
     p_contextGuard := None; p_contextStrict := false; p_semantic := false; p_judge := false; p_approvals := true;
     p_approval_db := (None, None) |}.

(** A successful call whose response has no body ends the run without error and
    without a usage record: the tokens reserved for it stay reserved. *)
Theorem bodiless_answer_leaks :
  let '(err, w) := Run bodiless_lab "" (lab_world chat_context) in
  err = None ∧ rc_Response (w_req w) = None ∧ rc_ReservationID (w_req w) = "id0" ∧ w_live w = [] ∧
  ∃ reserved, 0 < reserved ∧ Budget.Usage (e_manager (w_budget w)) "b" = (reserved, 0).
Proof. vm_compute. split_and!; try reflexivity. eexists. split; [|reflexivity]. reflexivity. Qed.

(** The breaker is shared and takes the parameters of the tenant that called last:
    after a request of a tenant with a cooldown of one second, a circuit that another
    tenant's traffic opened for that tenant's ten minutes is not open any more. *)
Definition circuit_tenant (cooldownMS : Z) : CircuitConfig :=
  {| cc_MinSamples := 1; cc_ErrorRate := f64_const 1 2; cc_InitialCooldownMS := cooldownMS; cc_MaxCooldownMS := cooldownMS;
     cc_CooldownFactor := f64_one |}.

Theorem breaker_config_crosses_tenants :
  let cautious := Circuit.SetConfig (Circuit.New Circuit.DefaultConfig)
                    (breakerConfigFromSnapshot (CS := Circuit.MemoryStore) (circuit_tenant 600000)) in
  let tripped := Circuit.RecordOutcome cautious (λ _, hour) "d1" "cr" false in
  let later := λ _ : nat, hour + 2 * second in
  (Circuit.Open tripped later "d1" "cr").1 = true ∧
  (Circuit.Open (Circuit.SetConfig tripped (breakerConfigFromSnapshot (circuit_tenant 1000))) later "d1" "cr").1 = false.
Proof. vm_compute. auto. Qed.
