(* ===== verification/ApiKey.v ===== *)
(** * Virtual keys: tokens, storage and lifecycle

    internal/identity/apikey (token.go, hmac.go, model.go, service.go), the SQL
    repository of platform/storage/sqlrepo/apikey.go and the key pepper of
    identity/pepper.go with sqlrepo/pepper.go.

    The database is its tables and the list of faults that are still to come: every
    statement takes the next of them, and one that is there makes the statement fail
    with no effect.  The random source, the identifier generator, the envelope cipher,
    the secret provider and the JSON of the allowlist columns are the interfaces the
    package takes them as. *)

From S2P Require Import Prelude GoStd GoNet Snapshot.

Open Scope string_scope.
Open Scope Z_scope.

(** ** Tokens *)

Definition Prefix : string := "sk-lia-v1".
Definition tenantRefBytes : nat := 16.
Definition publicIDBytes : nat := 8.
Definition secretBytes : nat := 24.
Definition legacyPublicID : nat := 16.
Definition legacySecret : nat := 32.

Record Token := { tk_TenantRef : string; tk_PublicID : string; tk_Secret : string }.

Definition underscore : Ascii.ascii := Ascii.ascii_of_nat 95.

Definition token_String (t : Token) : string :=
  Prefix +:+ String underscore (tk_TenantRef t +:+ String underscore (tk_PublicID t +:+ String underscore (tk_Secret t))).

(** [strings.Split(s, c)] for a one-byte separator. *)
Fixpoint split_string (c : Ascii.ascii) (s : string) : list string :=
  match s with
  | EmptyString => [""]
  | String x s =>
      if Ascii.eqb x c then "" :: split_string c s
      else match split_string c s with
           | part :: parts => String x part :: parts
           | [] => [String x ""]
           end
  end.

(** [hex.DecodeString]. *)
Fixpoint hex_decode (s : string) : option (list Z) :=
  match s with
  | EmptyString => Some []
  | String a (String b rest) =>
      match hexadecimal (Z.of_N (Ascii.N_of_ascii a)), hexadecimal (Z.of_N (Ascii.N_of_ascii b)) with
      | Some x, Some y => (λ bs, 16 * x + y :: bs) <$> hex_decode rest
      | _, _ => None
      end
  | String _ EmptyString => None
  end.

Definition validHex (value : string) (bytes : nat) : bool :=
  match hex_decode value with Some decoded => (length decoded =? bytes)%nat | None => false end.

Definition errInvalidKey : error := ErrNew "invalid virtual key".

Definition Parse (value : string) : result Token :=
  match split_string underscore value with
  | [p0; p1; p2; p3] =>
      if bool_decide (p0 ≠ Prefix) || negb (validHex p1 tenantRefBytes) then Err errInvalidKey
      else if (negb (validHex p2 publicIDBytes) || negb (validHex p3 secretBytes)) &&
              (negb (validHex p2 legacyPublicID) || negb (validHex p3 legacySecret)) then Err errInvalidKey
      else Ok {| tk_TenantRef := p1; tk_PublicID := p2; tk_Secret := p3 |}
  | _ => Err errInvalidKey
  end.

(** ** Digests *)

(** [hmac.New(sha256.New, key)] over one message. *)
Definition hmac_key (key : list Z) : list Z :=
  let key := if (64 <? length key)%nat then sha256 key else key in
  (key ++ replicate (64 - length key) 0)%list.

Definition hmac_sha256 (key msg : list Z) : list Z :=
  let key := hmac_key key in
  sha256 (map (Z.lxor 92) key ++ sha256 (map (Z.lxor 54) key ++ msg))%list.

(** RFC 4231, test case 2. *)
Example hmac_vector :
  hex_encode (hmac_sha256 (bytes_of_string "Jefe") (bytes_of_string "what do ya want for nothing?")) =
  "5bdcc146bf60754e6a042426089575c75a003f089d2739839dec58b964ec3843".
Proof. vm_compute. reflexivity. Qed.

Definition dot : Ascii.ascii := Ascii.ascii_of_nat 46.

Definition Digest (pepper : list Z) (token : Token) : list Z :=
  hmac_sha256 pepper
    (bytes_of_string (tk_TenantRef token +:+ String dot (tk_PublicID token +:+ String dot (tk_Secret token)))).

(** [hmac.Equal] compares lengths and contents. *)
Definition Verify (pepper : list Z) (token : Token) (expected : list Z) : bool :=
  bool_decide (Digest pepper token = expected).

Definition Fingerprint (token : Token) : string :=
  hex_encode (take 16 (sha256 (bytes_of_string (token_String token)))).

(** ** Generation *)

(** [io.ReadFull] on the entropy source. *)
Class Reader (R : Type) := { ReadFull : R → nat → result (list Z) * R }.

Definition byte (b : Z) : Prop := 0 <= b < 256.

Class ReaderLaws (R : Type) `{!Reader R} := {
  ReadFull_fills : ∀ r n bs r', ReadFull r n = (Ok bs, r') → length bs = n ∧ Forall byte bs }.

Section Generator.
Context {R : Type} `{!Reader R}.

Definition randomHex (g : R) (size : nat) : result string * R :=
  match ReadFull g size with
  | (Ok value, g) => (Ok (hex_encode value), g)
  | (Err err, g) => (Err (ErrWrap "generate virtual key entropy" err), g)
  end.

Definition NewTenantRef (g : R) : result string * R := randomHex g 16.

Definition NewKey (g : R) (tenantRef : string) : result Token * R :=
  if negb (validHex tenantRef tenantRefBytes) then (Err (ErrNew "invalid tenant_ref"), g)
  else
    match randomHex g publicIDBytes with
    | (Err err, g) => (Err err, g)
    | (Ok publicID, g) =>
        match randomHex g secretBytes with
        | (Err err, g) => (Err err, g)
        | (Ok secret, g) => (Ok {| tk_TenantRef := tenantRef; tk_PublicID := publicID; tk_Secret := secret |}, g)
        end
    end.

End Generator.

(** ** Lemmas on tokens *)

Lemma split_string_app c a b :
  c ∉ String.list_ascii_of_string a → split_string c (a +:+ String c b) = a :: split_string c b.
Proof.
  induction a as [|x a IH]; intros Ha.
  - rewrite str_nil_app. simpl. by rewrite Ascii.eqb_refl.
  - rewrite str_cons_app. simpl in *. destruct (Ascii.eqb_spec x c); [set_solver|]. by rewrite IH by set_solver.
Qed.

Lemma split_string_absent c a : c ∉ String.list_ascii_of_string a → split_string c a = [a].
Proof.
  induction a as [|x a IH]; intros Ha; simpl in *; [done|].
  destruct (Ascii.eqb_spec x c); [set_solver|]. by rewrite IH by set_solver.
Qed.

(** The sixteen digits decode to their values and none of them is a separator. *)
Lemma hex_digits n :
  0 <= n < 16 →
  hexadecimal (Z.of_N (Ascii.N_of_ascii (hex_digit n))) = Some n ∧ hex_digit n ≠ underscore.
Proof.
  intros Hn.
  assert (n ∈ seqZ 0 16) as Hin by (apply elem_of_seqZ; lia).
  vm_compute in Hin.
  repeat (apply elem_of_cons in Hin as [->|Hin]; [by split|]). by apply elem_of_nil in Hin.
Qed.

Lemma hex_encode_cons b bs :
  hex_encode (b :: bs) = String (hex_digit (b / 16)) (String (hex_digit (b mod 16)) (hex_encode bs)).
Proof. done. Qed.

Lemma nibbles b : byte b → 0 <= b / 16 < 16 ∧ 0 <= b mod 16 < 16 ∧ 16 * (b / 16) + b mod 16 = b.
Proof. unfold byte. intros. pose proof (Z.div_mod b 16). pose proof (Z.mod_pos_bound b 16). lia. Qed.

Lemma hex_decode_encode bs : Forall byte bs → hex_decode (hex_encode bs) = Some bs.
Proof.
  induction 1 as [|b bs Hb _ IH]; [done|]. rewrite hex_encode_cons. cbn [hex_decode].
  destruct (nibbles b Hb) as (Hh & Hl & Hv).
  destruct (hex_digits _ Hh) as [-> _], (hex_digits _ Hl) as [-> _]. rewrite IH. simpl. by rewrite Hv.
Qed.

Lemma validHex_encode bs : Forall byte bs → validHex (hex_encode bs) (length bs) = true.
Proof. intros Hb. unfold validHex. rewrite hex_decode_encode by done. apply Nat.eqb_refl. Qed.

(** Text that decodes holds no separator. *)
Lemma hex_plain s : is_Some (hex_decode s) → underscore ∉ String.list_ascii_of_string s.
Proof.
  assert (∀ n t, (String.length t <= n)%nat → is_Some (hex_decode t) → underscore ∉ String.list_ascii_of_string t) as Hn.
  { induction n as [|n IH]; intros t Hl Ht.
    - destruct t; simpl in *; [set_solver|lia].
    - destruct t as [|a [|b t]]; simpl in *; [set_solver|by destruct Ht|].
      destruct (hexadecimal _) eqn:Ha in Ht; [|by destruct Ht].
      destruct (hexadecimal _) eqn:Hb in Ht; [|by destruct Ht].
      destruct (hex_decode t) eqn:Hd; [|by destruct Ht].
      assert (underscore ≠ a) by (intros <-; vm_compute in Ha; done).
      assert (underscore ≠ b) by (intros <-; vm_compute in Hb; done).
      assert (underscore ∉ String.list_ascii_of_string t) by (apply IH; [lia|by rewrite Hd]).
      set_solver. }
  by apply (Hn (String.length s)).
Qed.

Lemma validHex_plain s n : validHex s n = true → underscore ∉ String.list_ascii_of_string s.
Proof. intros Hv. apply hex_plain. unfold validHex in Hv. by destruct (hex_decode s); [eexists|]. Qed.

Definition well_formed (t : Token) : bool :=
  validHex (tk_TenantRef t) tenantRefBytes &&
  (validHex (tk_PublicID t) publicIDBytes && validHex (tk_Secret t) secretBytes ||
   validHex (tk_PublicID t) legacyPublicID && validHex (tk_Secret t) legacySecret).

Lemma split_token t :
  well_formed t = true →
  split_string underscore (token_String t) = [Prefix; tk_TenantRef t; tk_PublicID t; tk_Secret t].
Proof.
  unfold well_formed. intros Hw. unfold token_String.
  assert (underscore ∉ String.list_ascii_of_string Prefix) by (vm_compute; set_solver).
  apply andb_prop in Hw as [Hr Hw]. apply validHex_plain in Hr.
  assert (underscore ∉ String.list_ascii_of_string (tk_PublicID t) ∧ underscore ∉ String.list_ascii_of_string (tk_Secret t)) as [Hp Hs].
  { apply orb_prop in Hw as [Hw|Hw]; apply andb_prop in Hw as [Hp Hs]; split; eauto using validHex_plain. }
  by rewrite !split_string_app, split_string_absent by done.
Qed.

Lemma Parse_String t : well_formed t = true → Parse (token_String t) = Ok t.
Proof.
  intros Hw. unfold Parse. rewrite split_token by done. unfold well_formed in Hw.
  rewrite bool_decide_eq_false_2 by auto. destruct t as [r p s]. simpl in *.
  destruct (validHex r _), (validHex p publicIDBytes), (validHex s secretBytes), (validHex p legacyPublicID),
    (validHex s legacySecret); done.
Qed.

Lemma split_string_join c s : ∃ p ps, split_string c s = p :: ps ∧ s = foldl (λ a b, a +:+ String c b) p ps.
Proof.
  induction s as [|x s (p & ps & He & Hs)]; [by exists "", []|]. simpl. rewrite He.
  assert (∀ a b l, foldl (λ a b, a +:+ String c b) (a +:+ b) l = a +:+ foldl (λ a b, a +:+ String c b) b l) as Hf.
  { intros a b l. revert b. induction l as [|y l IH]; intros b; [done|]. simpl. by rewrite str_app_assoc, IH. }
  destruct (Ascii.eqb_spec x c) as [->|Hx].
  - exists "", (p :: ps). split; [done|]. simpl.
    change ("" +:+ String c p) with (String c "" +:+ p). rewrite Hf, <- Hs. done.
  - exists (String x p), ps. split; [done|]. change (String x p) with (String x "" +:+ p). rewrite Hf, <- Hs. done.
Qed.

(** Parsing is exact: the accepted texts are the printed forms of the well-formed
    tokens, in their compact and in their legacy layout. *)
Lemma Parse_spec value t : Parse value = Ok t ↔ well_formed t = true ∧ value = token_String t.
Proof.
  split; [|intros [Hw ->]; by apply Parse_String].
  unfold Parse. destruct (split_string_join underscore value) as (p & ps & He & Hv). rewrite He.
  destruct ps as [|p1 [|p2 [|p3 [|]]]]; try done.
  case_bool_decide as Hp; [done|]. subst p. cbn [orb]. unfold well_formed, token_String.
  destruct (validHex p1 _) eqn:H1; [|done]. simpl.
  destruct (validHex p2 publicIDBytes) eqn:H2, (validHex p3 secretBytes) eqn:H3, (validHex p2 legacyPublicID) eqn:H4,
    (validHex p3 legacySecret) eqn:H5; simpl; intros [= <-]; simpl; rewrite ?H1, ?H2, ?H3, ?H4, ?H5;
    (split; [done|]); rewrite Hv; simpl; by rewrite ?str_app_assoc.
Qed.

Section Generated.
Context {R : Type} `{!Reader R} `{!ReaderLaws R}.

Lemma randomHex_valid g n s g' : randomHex g n = (Ok s, g') → validHex s n = true.
Proof.
  unfold randomHex. destruct (ReadFull g n) as [[bs|] ?] eqn:Hr; [|done]. intros [= <- <-].
  destruct (ReadFull_fills _ _ _ _ Hr) as [<- Hb]. by apply validHex_encode.
Qed.

Lemma NewKey_well_formed g ref t g' : NewKey g ref = (Ok t, g') → well_formed t = true ∧ tk_TenantRef t = ref.
Proof.
  unfold NewKey. destruct (validHex ref _) eqn:Hr; [|done]. simpl.
  destruct (randomHex g publicIDBytes) as [[p|] g1] eqn:Hp; [|done].
  destruct (randomHex g1 secretBytes) as [[s|] g2] eqn:Hs; [|done]. intros [= <- <-].
  apply randomHex_valid in Hp, Hs. unfold well_formed. simpl. by rewrite Hr, Hp, Hs.
Qed.
End Generated.

(** ** Identifiers and the envelope cipher *)

(** [binary] bits of [New]: version 4, variant 10. *)
Definition uuid_bytes (value : list Z) : list Z :=
  <[8%nat := Z.lor (Z.land (nth 8 value 0) 63) 128]> (<[6%nat := Z.lor (Z.land (nth 6 value 0) 15) 64]> value).

Definition id_New {R} `{!Reader R} (g : R) : result string * R :=
  match ReadFull g 16 with
  | (Err err, g) => (Err (ErrWrap "generate identifier" err), g)
  | (Ok value, g) =>
      let part a b := hex_encode (take (b - a) (drop a (uuid_bytes value))) in
      (Ok (String.concat "-" [part 0 4; part 4 6; part 6 8; part 8 10; part 10 16]%nat), g)
  end.

(** [cipher.AEAD] of a master key, with Go's 12-byte nonces. *)
Class AEAD := { Seal : list Z → list Z → list Z; Open_ : list Z → list Z → result (list Z) }.
Class AEADLaws `{!AEAD} := { Open_Seal : ∀ nonce plaintext, Open_ nonce (Seal nonce plaintext) = Ok plaintext }.

Definition NonceSize : nat := 12.

Definition Encrypt {R} `{!Reader R} `{!AEAD} (g : R) (plaintext : list Z) : result (list Z) * R :=
  match ReadFull g NonceSize with
  | (Err err, g) => (Err (ErrWrap "generate nonce" err), g)
  | (Ok nonce, g) => (Ok (nonce ++ Seal nonce plaintext)%list, g)
  end.

Definition Decrypt `{!AEAD} (data : list Z) : result (list Z) :=
  if (length data <? NonceSize)%nat then Err (ErrNew "ciphertext too short")
  else match Open_ (take NonceSize data) (drop NonceSize data) with
       | Ok plaintext => Ok plaintext
       | Err err => Err (ErrWrap "decrypt secret" err)
       end.

(** ** Records and tables *)

Record KeyRecord := {
  rec_ID : string; rec_PublicID : string; rec_TenantID : string; rec_ProjectID : string; rec_Name : string;
  rec_HMACDigest : list Z; rec_PepperVersion : Z; rec_Fingerprint : string; rec_ApplicationID : string;
  rec_AgentID : string; rec_ServiceAccountID : string; rec_Status : string; rec_ExpiresAt : option Z;
  rec_ModelAllowlist : list string; rec_IPAllowlist : list string; rec_CreatedAt : Z; rec_KeyCiphertext : list Z }.

Record PepperVersion := { pep_Version : Z; pep_Ref : string; pep_Status : string }.

(** A row of api_keys: the empty strings and the empty ciphertext are NULL, the
    allowlists are JSON text. *)
Record KeyRow := {
  kr_ID : string; kr_PublicID : string; kr_TenantID : string; kr_ProjectID : string; kr_Name : string;
  kr_HMACDigest : list Z; kr_PepperVersion : Z; kr_Fingerprint : string; kr_ApplicationID : option string;
  kr_AgentID : option string; kr_ServiceAccountID : option string; kr_Status : string; kr_ExpiresAt : option Z;
  kr_ModelAllowlist : option string; kr_IPAllowlist : option string; kr_CreatedAt : Z;
  kr_KeyCiphertext : option (list Z) }.

Record DB := {
  db_keys : list KeyRow;
  db_projects : gset (string * string);
  db_peppers : list PepperVersion;
  db_pepperSecrets : gmap Z (list Z);
  db_faults : list (option error) }.

Definition with_keys (db : DB) (keys : list KeyRow) : DB :=
  {| db_keys := keys; db_projects := db_projects db; db_peppers := db_peppers db;
     db_pepperSecrets := db_pepperSecrets db; db_faults := db_faults db |}.

Definition with_peppers (db : DB) (peppers : list PepperVersion) (stored : gmap Z (list Z)) : DB :=
  {| db_keys := db_keys db; db_projects := db_projects db; db_peppers := peppers; db_pepperSecrets := stored;
     db_faults := db_faults db |}.

Definition with_faults (db : DB) (faults : list (option error)) : DB :=
  {| db_keys := db_keys db; db_projects := db_projects db; db_peppers := db_peppers db;
     db_pepperSecrets := db_pepperSecrets db; db_faults := faults |}.

(** One statement: it fails without effect, or it runs. *)
Definition statement {A} (db : DB) (run : DB → result A * DB) : result A * DB :=
  match db_faults db with
  | Some err :: rest => (Err err, with_faults db rest)
  | None :: rest => run (with_faults db rest)
  | [] => run db
  end.

(** ** The repository *)

Definition ErrInvalidScope : error := ErrNew "invalid tenant scope".
Definition ErrScopeMismatch : error := ErrNew "resource is outside tenant scope".
Definition ErrNotFound : error := ErrNew "tenant resource not found".

Definition nullString (value : string) : option string := if bool_decide (value = "") then None else Some value.
Definition nullBytes (value : list Z) : option (list Z) := match value with [] => None | _ => Some value end.

(** encoding/json on [[]string]: well-formed UTF-8 text reads back as it was. *)
Class StringsJSON := { Marshal : list string → string; Unmarshal : string → result (list string) }.
Class StringsJSONLaws `{!StringsJSON} := { Unmarshal_Marshal : ∀ l, Forall utf8 l → Unmarshal (Marshal l) = Ok l }.

Section Repository.
Context `{!StringsJSON}.

(** The newest active pepper: [ORDER BY version DESC LIMIT 1]. *)
Definition newer (a b : PepperVersion) : PepperVersion := if pep_Version a <? pep_Version b then b else a.

Definition ActivePepper (db : DB) : result PepperVersion * DB :=
  statement db (λ db,
    (match filter (λ p, pep_Status p = "active") (db_peppers db) with
     | p :: ps => Ok (foldl newer p ps)
     | [] => Err (ErrNew "no active key pepper")
     end, db)).

Definition by_version (a b : PepperVersion) : Prop := pep_Version a <= pep_Version b.
#[export] Instance by_version_dec : RelDecision by_version.
Proof. intros a b. unfold by_version. apply _. Defined.

Definition ListRuntimePeppers (db : DB) : result (list PepperVersion) * DB :=
  statement db (λ db,
    (Ok (merge_sort by_version (filter (λ p, pep_Status p = "active" ∨ pep_Status p = "retiring") (db_peppers db))), db)).

Definition row_of (key : KeyRecord) : KeyRow :=
  {| kr_ID := rec_ID key; kr_PublicID := rec_PublicID key; kr_TenantID := rec_TenantID key;
     kr_ProjectID := rec_ProjectID key; kr_Name := rec_Name key; kr_HMACDigest := rec_HMACDigest key;
     kr_PepperVersion := rec_PepperVersion key; kr_Fingerprint := rec_Fingerprint key;
     kr_ApplicationID := nullString (rec_ApplicationID key); kr_AgentID := nullString (rec_AgentID key);
     kr_ServiceAccountID := nullString (rec_ServiceAccountID key); kr_Status := rec_Status key;
     kr_ExpiresAt := rec_ExpiresAt key; kr_ModelAllowlist := Some (Marshal (rec_ModelAllowlist key));
     kr_IPAllowlist := Some (Marshal (rec_IPAllowlist key)); kr_CreatedAt := rec_CreatedAt key;
     kr_KeyCiphertext := nullBytes (rec_KeyCiphertext key) |}.

(** The table's constraints: the primary key and UNIQUE(tenant_id, public_id). *)
Definition row_conflict (row other : KeyRow) : bool :=
  bool_decide (kr_ID row = kr_ID other) ||
  bool_decide (kr_TenantID row = kr_TenantID other ∧ kr_PublicID row = kr_PublicID other).

Definition insert_key (row : KeyRow) (db : DB) : result unit * DB :=
  if existsb (row_conflict row) (db_keys db) then (Err (ErrNew "constraint failed"), db)
  else (Ok tt, with_keys db (db_keys db ++ [row])%list).

Definition repo_Create (db : DB) (scope : string) (key : KeyRecord) : result unit * DB :=
  if bool_decide (scope = "") then (Err ErrInvalidScope, db)
  else if bool_decide (rec_TenantID key ≠ scope) then (Err ErrScopeMismatch, db)
  else
    match statement db (λ db, (Ok (bool_decide ((scope, rec_ProjectID key) ∈ db_projects db)), db)) with
    | (Err err, db) => (Err err, db)
    | (Ok false, db) => (Err ErrScopeMismatch, db)
    | (Ok true, db) =>
        match statement db (insert_key (row_of key)) with
        | (Err err, db) => (Err (ErrWrap "create API key" err), db)
        | (Ok _, db) => (Ok tt, db)
        end
    end.

Definition set_revoked (row : KeyRow) : KeyRow :=
  {| kr_ID := kr_ID row; kr_PublicID := kr_PublicID row; kr_TenantID := kr_TenantID row;
     kr_ProjectID := kr_ProjectID row; kr_Name := kr_Name row; kr_HMACDigest := kr_HMACDigest row;
     kr_PepperVersion := kr_PepperVersion row; kr_Fingerprint := kr_Fingerprint row;
     kr_ApplicationID := kr_ApplicationID row; kr_AgentID := kr_AgentID row;
     kr_ServiceAccountID := kr_ServiceAccountID row; kr_Status := "revoked"; kr_ExpiresAt := kr_ExpiresAt row;
     kr_ModelAllowlist := kr_ModelAllowlist row; kr_IPAllowlist := kr_IPAllowlist row;
     kr_CreatedAt := kr_CreatedAt row; kr_KeyCiphertext := kr_KeyCiphertext row |}.

Definition revocable (scope id : string) (row : KeyRow) : bool :=
  bool_decide (kr_TenantID row = scope ∧ kr_ID row = id ∧ kr_Status row = "active").

Definition repo_Revoke (db : DB) (scope id : string) : result unit * DB :=
  if bool_decide (scope = "") then (Err ErrInvalidScope, db)
  else
    match statement db (λ db,
      (Ok (length (filter (revocable scope id) (db_keys db))),
       with_keys db (map (λ row, if revocable scope id row then set_revoked row else row) (db_keys db)))) with
    | (Err err, db) => (Err (ErrWrap "revoke API key" err), db)
    | (Ok count, db) => (if (count =? 1)%nat then Ok tt else Err ErrScopeMismatch, db)
    end.

(** [scanKeyRow]; [ListActive] reads the same columns without the ciphertext. *)
Definition decode_list (what : string) (column : option string) : result (list string) :=
  match column with
  | None => Ok []
  | Some text => match Unmarshal text with Ok l => Ok l | Err err => Err (ErrWrap what err) end
  end.

Definition scanKeyRow (row : KeyRow) (ciphertext : option (list Z)) : result KeyRecord :=
  match decode_list "decode model allowlist" (kr_ModelAllowlist row) with
  | Err err => Err err
  | Ok models =>
      match decode_list "decode IP allowlist" (kr_IPAllowlist row) with
      | Err err => Err err
      | Ok ips =>
          Ok {| rec_ID := kr_ID row; rec_PublicID := kr_PublicID row; rec_TenantID := kr_TenantID row;
                rec_ProjectID := kr_ProjectID row; rec_Name := kr_Name row; rec_HMACDigest := kr_HMACDigest row;
                rec_PepperVersion := kr_PepperVersion row; rec_Fingerprint := kr_Fingerprint row;
                rec_ApplicationID := default "" (kr_ApplicationID row); rec_AgentID := default "" (kr_AgentID row);
                rec_ServiceAccountID := default "" (kr_ServiceAccountID row); rec_Status := kr_Status row;
                rec_ExpiresAt := kr_ExpiresAt row; rec_ModelAllowlist := models; rec_IPAllowlist := ips;
                rec_CreatedAt := kr_CreatedAt row; rec_KeyCiphertext := default [] ciphertext |}
      end
  end.

Fixpoint scan_all (scan : KeyRow → result KeyRecord) (rows : list KeyRow) : result (list KeyRecord) :=
  match rows with
  | [] => Ok []
  | row :: rows =>
      match scan row with
      | Err err => Err err
      | Ok item => match scan_all scan rows with Err err => Err err | Ok items => Ok (item :: items) end
      end
  end.

Definition ListActive (db : DB) (scope : string) : result (list KeyRecord) * DB :=
  if bool_decide (scope = "") then (Err ErrInvalidScope, db)
  else statement db (λ db,
    (scan_all (λ row, scanKeyRow row None)
       (filter (λ row, kr_TenantID row = scope ∧ kr_Status row = "active") (db_keys db)), db)).

Definition by_created (a b : KeyRow) : Prop := kr_CreatedAt a <= kr_CreatedAt b.
#[export] Instance by_created_dec : RelDecision by_created.
Proof. intros a b. unfold by_created. apply _. Defined.

Definition repo_List (db : DB) (scope : string) : result (list KeyRecord) * DB :=
  if bool_decide (scope = "") then (Err ErrInvalidScope, db)
  else statement db (λ db,
    (scan_all (λ row, scanKeyRow row (kr_KeyCiphertext row))
       (merge_sort by_created (filter (λ row, kr_TenantID row = scope) (db_keys db))), db)).

Definition repo_Get (db : DB) (scope id : string) : result KeyRecord * DB :=
  if bool_decide (scope = "") then (Err ErrInvalidScope, db)
  else statement db (λ db,
    (match filter (λ row, kr_TenantID row = scope ∧ kr_ID row = id) (db_keys db) with
     | row :: _ => scanKeyRow row (kr_KeyCiphertext row)
     | [] => Err ErrNotFound
     end, db)).

End Repository.

(** ** The service *)

Record CreateInput := {
  in_TenantRef : string; in_ProjectID : string; in_Name : string; in_ApplicationID : string; in_AgentID : string;
  in_ServiceAccountID : string; in_ExpiresAt : option Z; in_ModelAllowlist : list string; in_IPAllowlist : list string }.

Record CreateResult := { cr_Key : string; cr_Record : KeyRecord }.

(** [net.ParseIP] or [net.ParseCIDR] accepts the entry. *)
Definition allowlist_entry (entry : string) : bool :=
  match ParseIP entry with
  | Some _ => true
  | None => match ParseCIDR entry with Some _ => true | None => false end
  end.

Definition bindings (input : CreateInput) : nat :=
  length (filter (λ value, value ≠ "") [in_ApplicationID input; in_AgentID input; in_ServiceAccountID input]).

Definition expired (expiry : option Z) (now : Z) : bool :=
  match expiry with Some at_ => at_ <=? now | None => false end.

Section Service.
Context `{!StringsJSON} `{!AEAD} {R : Type} `{!Reader R}.

(** What the service reads and writes, and the provider that resolves the pepper. *)
Record World := { w_db : DB; w_rng : R }.
Context (Resolve : string → result (list Z)).

Definition Create (w : World) (now : Z) (scope : string) (input : CreateInput) : result CreateResult * World :=
  if bool_decide (scope = "") then (Err ErrInvalidScope, w)
  else if bool_decide (in_ProjectID input = "" ∨ in_Name input = "") then (Err (ErrNew "project and key name are required"), w)
  else if (1 <? bindings input)%nat then (Err (ErrNew "API key can bind only one principal"), w)
  else if negb (forallb allowlist_entry (in_IPAllowlist input)) then (Err (ErrNew "invalid IP allowlist entry"), w)
  else
    match ActivePepper (w_db w) with
    | (Err err, db) => (Err err, {| w_db := db; w_rng := w_rng w |})
    | (Ok pepperVersion, db) =>
        let w := {| w_db := db; w_rng := w_rng w |} in
        match Resolve (pep_Ref pepperVersion) with
        | Err err => (Err (ErrWrap "resolve key pepper" err), w)
        | Ok pepper =>
            match NewKey (w_rng w) (in_TenantRef input) with
            | (Err err, g) => (Err err, {| w_db := db; w_rng := g |})
            | (Ok token, g) =>
                match id_New g with
                | (Err err, g) => (Err err, {| w_db := db; w_rng := g |})
                | (Ok id, g) =>
                    if expired (in_ExpiresAt input) now then (Err (ErrNew "key expiry must be in the future"), {| w_db := db; w_rng := g |})
                    else
                      match Encrypt g (bytes_of_string (token_String token)) with
                      | (Err err, g) => (Err (ErrWrap "persist virtual key" err), {| w_db := db; w_rng := g |})
                      | (Ok keyCiphertext, g) =>
                          let record :=
                            {| rec_ID := id; rec_PublicID := tk_PublicID token; rec_TenantID := scope;
                               rec_ProjectID := in_ProjectID input; rec_Name := in_Name input;
                               rec_HMACDigest := Digest pepper token; rec_PepperVersion := pep_Version pepperVersion;
                               rec_Fingerprint := Fingerprint token; rec_ApplicationID := in_ApplicationID input;
                               rec_AgentID := in_AgentID input; rec_ServiceAccountID := in_ServiceAccountID input;
                               rec_Status := "active"; rec_ExpiresAt := in_ExpiresAt input;
                               rec_ModelAllowlist := in_ModelAllowlist input; rec_IPAllowlist := in_IPAllowlist input;
                               rec_CreatedAt := now; rec_KeyCiphertext := keyCiphertext |} in
                          match repo_Create db scope record with
                          | (Err err, db) => (Err err, {| w_db := db; w_rng := g |})
                          | (Ok _, db) => (Ok {| cr_Key := token_String token; cr_Record := record |}, {| w_db := db; w_rng := g |})
                          end
                      end
                end
            end
        end
    end.

Definition Revoke (w : World) (scope id : string) : result unit * World :=
  if bool_decide (id = "") then (Err (ErrNew "key id is required"), w)
  else let '(r, db) := repo_Revoke (w_db w) scope id in (r, {| w_db := db; w_rng := w_rng w |}).

Definition List_ (w : World) (scope : string) : result (list KeyRecord) * World :=
  if bool_decide (scope = "") then (Err ErrInvalidScope, w)
  else let '(r, db) := repo_List (w_db w) scope in (r, {| w_db := db; w_rng := w_rng w |}).

Definition string_of_bytes (bs : list Z) : string :=
  String.string_of_list_ascii (map (λ b, Ascii.ascii_of_N (Z.to_N b)) bs).

Definition Reveal (w : World) (scope id : string) : result string * World :=
  if bool_decide (id = "") then (Err (ErrNew "key id is required"), w)
  else
    let '(r, db) := repo_Get (w_db w) scope id in
    (match r with
     | Err err => Err err
     | Ok record =>
         match rec_KeyCiphertext record with
         | [] => Err (ErrNew "key material was not stored for this key")
         | ciphertext => match Decrypt ciphertext with
                         | Err err => Err (ErrWrap "reveal virtual key" err)
                         | Ok plaintext => Ok (string_of_bytes plaintext)
                         end
         end
     end, {| w_db := db; w_rng := w_rng w |}).

End Service.
Arguments World : clear implicits.

(** ** The key pepper *)

Record Pepper := { pp_Version : Z; pp_Ref : string; pp_secret : list Z }.

Definition pepper_Resolve (p : Pepper) (ref : string) : result (list Z) :=
  if bool_decide (ref ≠ pp_Ref p) then Err (ErrNew "unknown secret reference") else Ok (pp_secret p).

Definition ErrPepperNotPersisted : error := ErrNew "key pepper not persisted".

Definition LoadCiphertext (db : DB) (version : Z) : result (list Z) * DB :=
  statement db (λ db,
    (match db_pepperSecrets db !! version with Some c => Ok c | None => Err ErrPepperNotPersisted end, db)).

(** ON CONFLICT(version) DO NOTHING. *)
Definition SaveCiphertext (db : DB) (version : Z) (ciphertext : list Z) : result unit * DB :=
  statement db (λ db,
    (Ok tt, match db_pepperSecrets db !! version with
            | Some _ => db
            | None => with_peppers db (db_peppers db) (<[version := ciphertext]> (db_pepperSecrets db))
            end)).

(** ON CONFLICT(version) DO UPDATE SET status = 'active': the reference stays. *)
Definition MarkActive (db : DB) (version : Z) (ref : string) : result unit * DB :=
  statement db (λ db,
    (Ok tt, with_peppers db
       (if existsb (λ p, pep_Version p =? version) (db_peppers db)
        then map (λ p, if pep_Version p =? version
                       then {| pep_Version := pep_Version p; pep_Ref := pep_Ref p; pep_Status := "active" |} else p) (db_peppers db)
        else (db_peppers db ++ [{| pep_Version := version; pep_Ref := ref; pep_Status := "active" |}])%list)
       (db_pepperSecrets db))).

Section EnsurePepper.
Context `{!AEAD} {R : Type} `{!Reader R}.

(** The part after the secret is known. *)
Definition activate_pepper (w : World R) (version : Z) (ref : string) (secret : list Z) : result Pepper * World R :=
  match MarkActive (w_db w) version ref with
  | (Err err, db) => (Err err, {| w_db := db; w_rng := w_rng w |})
  | (Ok _, db) => (Ok {| pp_Version := version; pp_Ref := ref; pp_secret := secret |}, {| w_db := db; w_rng := w_rng w |})
  end.

(** A fresh secret, after the load found none. *)
Definition generate_pepper (w : World R) (version : Z) (ref : string) : result Pepper * World R :=
  match ReadFull (w_rng w) 32 with
  | (Err err, g) => (Err (ErrWrap "generate local key pepper" err), {| w_db := w_db w; w_rng := g |})
  | (Ok secret, g) =>
      match Encrypt g secret with
      | (Err err, g) => (Err (ErrWrap "encrypt local key pepper" err), {| w_db := w_db w; w_rng := g |})
      | (Ok ciphertext, g) =>
          match SaveCiphertext (w_db w) version ciphertext with
          | (Err err, db) => (Err (ErrWrap "store local key pepper" err), {| w_db := db; w_rng := g |})
          | (Ok _, db) => activate_pepper {| w_db := db; w_rng := g |} version ref secret
          end
      end
  end.

Definition EnsurePepper (w : World R) (version : Z) (ref : string) : result Pepper * World R :=
  match LoadCiphertext (w_db w) version with
  | (Ok stored, db) =>
      let w := {| w_db := db; w_rng := w_rng w |} in
      match Decrypt stored with
      | Err err => (Err (ErrWrap "decrypt stored key pepper" err), w)
      | Ok plain => activate_pepper w version ref plain
      end
  | (Err err, db) =>
      let w := {| w_db := db; w_rng := w_rng w |} in
      if negb (errors_is err ErrPepperNotPersisted) then (Err (ErrWrap "load key pepper" err), w)
      else generate_pepper w version ref
  end.

End EnsurePepper.

(** ** Lemmas on the repository *)

Lemma statement_calm {A} db (run : DB → result A * DB) : db_faults db = [] → statement db run = run db.
Proof. unfold statement. by intros ->. Qed.

(** A statement that reads leaves the tables. *)
Definition same_tables (db db' : DB) : Prop :=
  db_keys db' = db_keys db ∧ db_projects db' = db_projects db ∧ db_peppers db' = db_peppers db ∧
  db_pepperSecrets db' = db_pepperSecrets db ∧ (db_faults db = [] → db_faults db' = []).

#[export] Instance same_tables_refl : Reflexive same_tables.
Proof. intros db. by repeat split. Qed.
#[export] Instance same_tables_trans : Transitive same_tables.
Proof. intros a b c (?&?&?&?&?) (?&?&?&?&?). repeat split; try congruence. auto. Qed.

Lemma statement_reads {A} db (f : DB → result A) r db' :
  statement db (λ db, (f db, db)) = (r, db') → same_tables db db' ∧ (is_ok r = true → r = f db' ).
Proof.
  unfold statement. destruct (db_faults db) as [|[e|] rest] eqn:Hf; intros [= <- <-];
    (split; [repeat split; simpl; rewrite ?Hf; done|done]).
Qed.

Lemma bytes_string s : string_of_bytes (bytes_of_string s) = s.
Proof.
  unfold string_of_bytes, bytes_of_string. rewrite map_map. induction s as [|c s IH]; [done|]. simpl.
  rewrite N2Z.id, Ascii.ascii_N_embedding. simpl in IH. by rewrite IH.
Qed.

Section RepositoryLemmas.
Context `{!StringsJSON} `{!StringsJSONLaws}.

Definition readable (key : KeyRecord) : Prop :=
  Forall utf8 (rec_ModelAllowlist key) ∧ Forall utf8 (rec_IPAllowlist key).

Definition without_ciphertext (key : KeyRecord) : KeyRecord :=
  {| rec_ID := rec_ID key; rec_PublicID := rec_PublicID key; rec_TenantID := rec_TenantID key;
     rec_ProjectID := rec_ProjectID key; rec_Name := rec_Name key; rec_HMACDigest := rec_HMACDigest key;
     rec_PepperVersion := rec_PepperVersion key; rec_Fingerprint := rec_Fingerprint key;
     rec_ApplicationID := rec_ApplicationID key; rec_AgentID := rec_AgentID key;
     rec_ServiceAccountID := rec_ServiceAccountID key; rec_Status := rec_Status key;
     rec_ExpiresAt := rec_ExpiresAt key; rec_ModelAllowlist := rec_ModelAllowlist key;
     rec_IPAllowlist := rec_IPAllowlist key; rec_CreatedAt := rec_CreatedAt key; rec_KeyCiphertext := [] |}.

Lemma null_default s : default "" (nullString s) = s.
Proof. unfold nullString. by case_bool_decide. Qed.

Lemma scan_row key :
  readable key →
  scanKeyRow (row_of key) None = Ok (without_ciphertext key) ∧
  scanKeyRow (row_of key) (kr_KeyCiphertext (row_of key)) = Ok key.
Proof.
  intros [Hm Hi]. unfold scanKeyRow. simpl. rewrite !Unmarshal_Marshal, !null_default by done.
  split; [done|]. destruct key as [? ? ? ? ? ? ? ? ? ? ? ? ? ? ? ? []]; done.
Qed.

(** Creation appends one row and touches nothing else. *)
Lemma repo_Create_ok db scope key db' :
  repo_Create db scope key = (Ok tt, db') →
  scope ≠ "" ∧ rec_TenantID key = scope ∧ (scope, rec_ProjectID key) ∈ db_projects db ∧
  db_keys db' = (db_keys db ++ [row_of key])%list ∧
  Forall (λ other, row_conflict (row_of key) other = false) (db_keys db) ∧
  db_projects db' = db_projects db ∧ db_peppers db' = db_peppers db ∧
  db_pepperSecrets db' = db_pepperSecrets db ∧ (db_faults db = [] → db_faults db' = []).
Proof.
  unfold repo_Create. case_bool_decide; [done|]. case_bool_decide as Ht; [done|].
  destruct (statement db _) as [[ [] |] db1] eqn:Hs; try done.
  apply statement_reads in Hs as [(Hk & Hp & Hv & Hc & Hf) He]. specialize (He eq_refl).
  injection He as He. symmetry in He. rewrite bool_decide_eq_true in He. rewrite Hp in He.
  unfold statement. destruct (db_faults db1) as [|[e|] rest] eqn:Hf1; [| done |];
    unfold insert_key; simpl; rewrite Hk;
    (destruct (existsb _ _) eqn:Hx; [done|]); intros [= <-]; simpl; rewrite ?Hk, ?Hp, ?Hv, ?Hc;
    (repeat split; try done; try set_solver);
    try (apply Forall_forall; intros o Ho; destruct (row_conflict _ o) eqn:Hr; [|done];
      apply not_true_iff_false in Hx; destruct Hx; apply existsb_exists; exists o; by rewrite <- list_elem_of_In);
    intros Hd; specialize (Hf Hd); congruence.
Qed.

End RepositoryLemmas.

(** ** What the service guarantees *)

Lemma ActivePepper_ok db pv db' :
  ActivePepper db = (Ok pv, db') → same_tables db db' ∧ pv ∈ db_peppers db ∧ pep_Status pv = "active".
Proof.
  intros Hs. apply statement_reads in Hs as [Ht He]. split; [done|]. specialize (He eq_refl).
  destruct Ht as (_ & _ & Hp & _). rewrite Hp in He.
  assert (∀ p ps, foldl newer p ps ∈ p :: ps) as Hin.
  { intros p ps. revert p. induction ps as [|q ps IH]; intros p; simpl; [set_solver|].
    specialize (IH (newer p q)). unfold newer in *. destruct (_ <? _); set_solver. }
  destruct (filter _ (db_peppers db)) as [|p ps] eqn:Hf; [done|]. injection He as ->.
  specialize (Hin p ps). rewrite <- Hf in Hin. apply list_elem_of_filter in Hin. naive_solver.
Qed.

Lemma filter_none {A} (P : A → Prop) `{!∀ x, Decision (P x)} l : Forall (λ x, ¬ P x) l → filter P l = [].
Proof. induction 1; [done|]. by rewrite filter_cons_False. Qed.

Lemma id_New_ok {R} `{!Reader R} (g g' : R) id : id_New g = (Ok id, g') → id ≠ "".
Proof.
  unfold id_New. destruct (ReadFull g 16) as [[value|] ?]; [|done]. intros [= <- <-].
  cbv [String.concat]. by destruct (hex_encode _).
Qed.

Section ServiceLemmas.
Context `{!StringsJSON} `{!StringsJSONLaws} `{!AEAD} `{!AEADLaws} {R : Type} `{!Reader R} `{!ReaderLaws R}.
Context (Resolve : string → result (list Z)).
Implicit Types (w : World R).

Lemma Decrypt_Encrypt (g : R) plaintext data g' : Encrypt g plaintext = (Ok data, g') → Decrypt data = Ok plaintext ∧ data ≠ [].
Proof.
  unfold Encrypt. destruct (ReadFull g NonceSize) as [[nonce|] ?] eqn:Hr; [|done]. intros [= <- <-].
  destruct (ReadFull_fills _ _ _ _ Hr) as [Hl _]. unfold Decrypt.
  rewrite length_app, Hl. rewrite (proj2 (Nat.ltb_ge _ _)) by lia.
  rewrite <- Hl, take_app_length, drop_app_length, Open_Seal. split; [done|]. by destruct nonce.
Qed.

(** The record of a created key. *)
Record created (w : World R) (now : Z) (scope : string) (input : CreateInput) (r : CreateResult) (w' : World R)
    (cre_token : Token) (cre_pepper : PepperVersion) (cre_secret : list Z) (cre_db : DB) : Prop := {
  cre_wf : well_formed cre_token = true;
  cre_ref : tk_TenantRef cre_token = in_TenantRef input;
  cre_key : cr_Key r = token_String cre_token;
  cre_active : cre_pepper ∈ db_peppers (w_db w) ∧ pep_Status cre_pepper = "active";
  cre_resolved : Resolve (pep_Ref cre_pepper) = Ok cre_secret;
  cre_digest : rec_HMACDigest (cr_Record r) = Digest cre_secret cre_token;
  cre_version : rec_PepperVersion (cr_Record r) = pep_Version cre_pepper;
  cre_public : rec_PublicID (cr_Record r) = tk_PublicID cre_token;
  cre_bound : rec_TenantID (cr_Record r) = scope ∧ rec_ProjectID (cr_Record r) = in_ProjectID input ∧
              rec_ApplicationID (cr_Record r) = in_ApplicationID input ∧ rec_AgentID (cr_Record r) = in_AgentID input ∧
              rec_ServiceAccountID (cr_Record r) = in_ServiceAccountID input ∧
              rec_ExpiresAt (cr_Record r) = in_ExpiresAt input ∧ rec_ModelAllowlist (cr_Record r) = in_ModelAllowlist input ∧
              rec_IPAllowlist (cr_Record r) = in_IPAllowlist input ∧ rec_Status (cr_Record r) = "active";
  cre_cipher : Decrypt (rec_KeyCiphertext (cr_Record r)) = Ok (bytes_of_string (token_String cre_token)) ∧
               rec_KeyCiphertext (cr_Record r) ≠ [];
  cre_id : rec_ID (cr_Record r) ≠ "";
  cre_fresh : expired (in_ExpiresAt input) now = false;
  cre_tables : same_tables (w_db w) cre_db;
  cre_stored : repo_Create cre_db scope (cr_Record r) = (Ok tt, w_db w') }.

Lemma issue_ok w now scope input r w' :
  Create Resolve w now scope input = (Ok r, w') →
  ∃ token pepper secret db, created w now scope input r w' token pepper secret db.
Proof.
  unfold Create. case_bool_decide; [done|]. case_bool_decide; [done|]. do 2 (case_match; [done|]).
  destruct (ActivePepper (w_db w)) as [[pv|] db] eqn:Hp; [|done]. apply ActivePepper_ok in Hp as (Ht & Hin & Ha).
  destruct (Resolve _) as [pepper|] eqn:Hr; [|done]. simpl.
  destruct (NewKey _ _) as [[token|] g1] eqn:Hk; [|done]. apply NewKey_well_formed in Hk as [Hw Href].
  destruct (id_New g1) as [[id|] g2] eqn:Hid; [|done]. apply id_New_ok in Hid. destruct (expired _ _) eqn:Hx; [done|].
  destruct (Encrypt g2 _) as [[ct|] g3] eqn:Hc; [|done]. apply Decrypt_Encrypt in Hc as [Hd Hn].
  destruct (repo_Create _ _ _) as [[ [] |] db'] eqn:Hs; [|done]. intros [= <- <-].
  exists token, pv, pepper, db. split; done.
Qed.

Lemma own_row db scope key db' :
  repo_Create db scope key = (Ok tt, db') → readable key →
  filter (λ row, kr_TenantID row = scope ∧ kr_ID row = rec_ID key) (db_keys db') = [row_of key].
Proof.
  intros (_ & Hs & _ & -> & Hc & _)%repo_Create_ok Hr. rewrite filter_app.
  rewrite (filter_none _ (db_keys db)); [|].
  - rewrite filter_cons_True by (by split). done.
  - eapply Forall_impl; [apply Hc|]. intros o Ho [_ Hid]. unfold row_conflict in Ho. simpl in Ho.
    apply orb_false_elim in Ho as [Ho _]. by rewrite bool_decide_eq_false in Ho.
Qed.

(** A key can be revealed.  When [Create] returns a key whose allowlists are
    well-formed UTF-8, [Reveal] on the record it stored decrypts to that very key, as
    long as the database does not fail. *)
Theorem reveal_returns_created_key w now scope input r w' :
  Create Resolve w now scope input = (Ok r, w') → Forall utf8 (in_ModelAllowlist input) → Forall utf8 (in_IPAllowlist input) →
  db_faults (w_db w) = [] →
  (Reveal w' scope (rec_ID (cr_Record r))).1 = Ok (cr_Key r).
Proof.
  intros (token & pv & secret & db & Hc)%issue_ok Hm Hi Hf. destruct Hc.
  destruct cre_bound0 as (Ht & _ & _ & _ & _ & _ & Hmr & Hir & _).
  assert (readable (cr_Record r)) as Hr by (split; congruence).
  pose proof (own_row _ _ _ _ cre_stored0 Hr) as Ho.
  apply repo_Create_ok in cre_stored0 as (Hs & _ & _ & _ & _ & _ & _ & _ & Hcalm).
  destruct cre_tables0 as (_ & _ & _ & _ & Hf'). specialize (Hcalm (Hf' Hf)).
  unfold Reveal. rewrite bool_decide_eq_false_2 by done. unfold repo_Get. rewrite bool_decide_eq_false_2 by done.
  rewrite statement_calm, Ho by done. cbn [fst snd]. rewrite (proj2 (scan_row _ Hr)).
  destruct cre_cipher0 as [Hd Hn]. destruct (rec_KeyCiphertext _) as [|b bs] eqn:Hk; [done|].
  rewrite Hd, bytes_string. congruence.
Qed.

End ServiceLemmas.

(** ** The pepper across restarts *)

Section PepperLemmas.
Context `{!AEAD} `{!AEADLaws} {R : Type} `{!Reader R} `{!ReaderLaws R}.
Implicit Types (w : World R).

(** The stored ciphertext of a version is that of this pepper. *)
Definition persisted (db : DB) (p : Pepper) : Prop :=
  ∃ c, db_pepperSecrets db !! pp_Version p = Some c ∧ Decrypt c = Ok (pp_secret p).

Lemma statement_ok {A} db (run : DB → result A * DB) a db' :
  statement db run = (Ok a, db') →
  ∃ db0, run db0 = (Ok a, db') ∧ same_tables db db0.
Proof.
  unfold statement. destruct (db_faults db) as [|[e|] rest] eqn:Hf; [| done |]; intros Hr.
  - exists db. by split.
  - exists (with_faults db rest). split; [done|]. repeat split; simpl; rewrite ?Hf; done.
Qed.

Lemma activate_pepper_ok w version ref secret p w' :
  activate_pepper w version ref secret = (Ok p, w') →
  p = {| pp_Version := version; pp_Ref := ref; pp_secret := secret |} ∧
  db_pepperSecrets (w_db w') = db_pepperSecrets (w_db w).
Proof.
  unfold activate_pepper. destruct (MarkActive _ _ _) as [[ [] |] db] eqn:Hm; [|done]. intros [= <- <-].
  apply statement_ok in Hm as (db0 & [= <-] & (_ & _ & _ & Hs & _)). by split.
Qed.

Lemma LoadCiphertext_reads db version r db' :
  LoadCiphertext db version = (r, db') → same_tables db db' ∧ (∀ c, r = Ok c → db_pepperSecrets db !! version = Some c) ∧
  (∀ err, r = Err err → db_faults db = [] → db_pepperSecrets db !! version = None).
Proof.
  unfold LoadCiphertext, statement. destruct (db_faults db) as [|[e|] rest] eqn:Hf; intros [= <- <-];
    (split; [repeat split; simpl; rewrite ?Hf; done|]); simpl; destruct (_ !! _); naive_solver.
Qed.

Lemma generate_pepper_ok w version ref p w' :
  db_pepperSecrets (w_db w) !! version = None →
  generate_pepper w version ref = (Ok p, w') → pp_Version p = version ∧ pp_Ref p = ref ∧ persisted (w_db w') p.
Proof.
  unfold generate_pepper. intros Hn. destruct (ReadFull _ 32) as [[secret|] g1]; [|done].
  destruct (Encrypt g1 secret) as [[c|] g2] eqn:He; [|done]. apply Decrypt_Encrypt in He as [Hd _].
  destruct (SaveCiphertext _ _ _) as [[ [] |] db] eqn:Hs; [|done]. intros [-> Hp]%activate_pepper_ok.
  apply statement_ok in Hs as (db0 & [= <-] & (_ & _ & _ & Hs & _)). rewrite Hs, Hn in Hp.
  split; [done|]. split; [done|]. exists c. simpl in *. by rewrite Hp, lookup_insert_eq.
Qed.

Lemma EnsurePepper_persists w version ref p w' :
  db_faults (w_db w) = [] → EnsurePepper w version ref = (Ok p, w') →
  pp_Version p = version ∧ pp_Ref p = ref ∧ persisted (w_db w') p.
Proof.
  unfold EnsurePepper. intros Hf. destruct (LoadCiphertext _ _) as [r db] eqn:Hl.
  apply LoadCiphertext_reads in Hl as ((_ & _ & _ & Hs & _) & Hok & Hno). destruct r as [stored|err].
  - destruct (Decrypt stored) as [plain|] eqn:Hd; [|done]. intros [-> Hp]%activate_pepper_ok.
    split; [done|]. split; [done|]. exists stored. simpl in *. by rewrite Hp, Hs, (Hok stored).
  - destruct (errors_is _ _) eqn:He; [|done]. simpl. intros Hg.
    apply generate_pepper_ok in Hg; [done|]. simpl. rewrite Hs. eauto.
Qed.

(** Virtual keys survive a restart.  Once [EnsurePepper] has returned a pepper,
    every later start on a database that still holds the row of its version, with
    none of its statements failing, returns a pepper with the same secret, so the
    digests of the stored keys still verify. *)
Theorem pepper_survives_restart w w1 w2 version ref p :
  db_faults (w_db w) = [] → EnsurePepper w version ref = (Ok p, w1) →
  db_pepperSecrets (w_db w2) !! version = db_pepperSecrets (w_db w1) !! version → db_faults (w_db w2) = [] →
  (EnsurePepper w2 version ref).1 = Ok p.
Proof.
  intros Hf (Hv & Hr & c & Hc & Hd)%EnsurePepper_persists Hsame Hf2; [|done].
  unfold EnsurePepper, LoadCiphertext. rewrite statement_calm, Hsame by done. rewrite Hv in Hc. rewrite Hc, Hd.
  unfold activate_pepper, MarkActive. rewrite statement_calm by done. simpl. destruct p. simpl in *. by subst.
Qed.

End PepperLemmas.

(** ** Concrete instances *)

(** A random source that counts, an envelope that is transparent, and the JSON of
    lists of plain words. *)
#[local] Instance counting_reader : Reader Z := {
  ReadFull r n := (Ok (replicate n (r mod 256)), r + 1) }.

#[local] Instance counting_reader_laws : ReaderLaws Z.
Proof.
  split. intros r n bs r' [= <- <-]. rewrite length_replicate. split; [done|].
  apply Forall_replicate. unfold byte. pose proof (Z.mod_pos_bound r 256). lia.
Qed.

#[local] Instance clear_aead : AEAD := { Seal _ p := p; Open_ _ c := Ok c }.
#[local] Instance clear_aead_laws : AEADLaws.
Proof. by split. Qed.

Fixpoint bits (p : positive) : string :=
  match p with
  | xH => ""
  | xO p => String (Ascii.ascii_of_nat 48) (bits p)
  | xI p => String (Ascii.ascii_of_nat 49) (bits p)
  end.

Fixpoint of_bits (s : string) : positive :=
  match s with
  | EmptyString => xH
  | String c s => if Ascii.eqb c (Ascii.ascii_of_nat 49) then xI (of_bits s) else xO (of_bits s)
  end.

Lemma of_bits_bits p : of_bits (bits p) = p.
Proof. induction p as [p IH|p IH|]; simpl; by rewrite ?IH. Qed.

#[local] Instance bits_json : StringsJSON := {
  Marshal l := bits (encode l);
  Unmarshal s := match decode (of_bits s) with Some l => Ok l | None => Err (ErrNew "invalid character") end }.

#[local] Instance bits_json_laws : StringsJSONLaws.
Proof. split. intros l _. simpl. by rewrite of_bits_bits, decode_encode. Qed.

Definition empty_db : DB :=
  {| db_keys := []; db_projects := {[ ("t", "proj") ]}; db_peppers := []; db_pepperSecrets := ∅; db_faults := [] |}.

Definition boot (g : Z) : World Z := {| w_db := empty_db; w_rng := g |}.

Lemma pepper_survives_restart_witness :
  (EnsurePepper (EnsurePepper (boot 7) 1 "local").2 1 "local").1 =
  Ok {| pp_Version := 1; pp_Ref := "local"; pp_secret := replicate 32 7 |}.
Proof.
  apply (pepper_survives_restart (boot 7) (EnsurePepper (boot 7) 1 "local").2 _ 1 "local"); vm_compute; reflexivity.
Defined.

(** Two instances that boot on an empty database at once can disagree: the one that
    loaded before the other stored its pepper generates its own, its insert does
    nothing (ON CONFLICT DO NOTHING), and it keeps the secret it drew.  The keys it
    issues are digested under a pepper that no later start will load. *)
Example concurrent_boot_diverges :
  let loaded := LoadCiphertext empty_db 1 in
  let first := EnsurePepper (boot 7) 1 "local" in
  let second := generate_pepper {| w_db := w_db first.2; w_rng := 99 |} 1 "local" in
  loaded.1 = Err ErrPepperNotPersisted ∧
  second.1 = Ok {| pp_Version := 1; pp_Ref := "local"; pp_secret := replicate 32 99 |} ∧
  (EnsurePepper second.2 1 "local").1 = Ok {| pp_Version := 1; pp_Ref := "local"; pp_secret := replicate 32 7 |}.
Proof. vm_compute. by split_and!. Qed.

Definition example_ref : string := "000102030405060708090a0b0c0d0e0f".

Definition example_input : CreateInput :=
  {| in_TenantRef := example_ref; in_ProjectID := "proj"; in_Name := "ci"; in_ApplicationID := ""; in_AgentID := "bot";
     in_ServiceAccountID := ""; in_ExpiresAt := Some 2000; in_ModelAllowlist := ["gpt"];
     in_IPAllowlist := ["10.0.0.0/8"; "::1"] |}.

Definition booted : World Z := (EnsurePepper (boot 7) 1 "local").2.
Definition local_secret (ref : string) : result (list Z) := Ok (replicate 32 7).

Lemma reveal_returns_created_key_witness :
  match Create local_secret booted 1000 "t" example_input with
  | (Ok r, w) => (Reveal w "t" (rec_ID (cr_Record r))).1 = Ok (cr_Key r)
  | (Err _, _) => False
  end.
Proof.
  destruct (Create local_secret booted 1000 "t" example_input) as [[r|e] w] eqn:Hc; [|vm_compute in Hc; discriminate].
  apply (reveal_returns_created_key local_secret booted 1000 "t" example_input); [done| | |vm_compute; reflexivity];
    repeat constructor.
Defined.
