(* ===== verification/Egress.v ===== *)
(** * Outbound addresses

    platform/egress/egress.go: the address policy of outbound connections, its checks
    of URLs, redirects and resolved addresses, and the cap on response bodies.  The
    resolver and the network are functions; a dial leaves the addresses it tried.
    [url.Parse] is a parameter: which malformed hosts it refuses changes between the
    releases of Go, and nothing here depends on it. *)

From S2P Require Import Prelude GoStd GoNet.

Open Scope string_scope.
Open Scope Z_scope.

(** ** URLs *)

(** The parts of [*url.URL] the program reads; [url_User] is [User != nil]. *)
Record URL := { url_Scheme : string; url_User : bool; url_Host : string; url_Opaque : string; url_Path : string }.

Class URLParser := { url_Parse : string → result URL }.

Fixpoint last_index (c : Ascii.ascii) (s : string) : option nat :=
  match s with
  | EmptyString => None
  | String x s => match last_index c s with
                  | Some n => Some (S n)
                  | None => if Ascii.eqb x c then Some O else None
                  end
  end.

Definition is_digit (c : Ascii.ascii) : bool := within 48 57 (Z.of_N (Ascii.N_of_ascii c)).

(** [validOptionalPort]: empty, or a colon and digits. *)
Definition validOptionalPort (port : string) : bool :=
  match port with
  | EmptyString => true
  | String c rest => Ascii.eqb c (Ascii.ascii_of_nat 58) && forallb is_digit (String.list_ascii_of_string rest)
  end.

(** [u.Hostname()]: without the port and without the brackets. *)
Definition Hostname (u : URL) : string :=
  let host := url_Host u in
  let host := match last_index (Ascii.ascii_of_nat 58) host with
              | Some i => if validOptionalPort (String.substring i (String.length host - i) host)
                          then String.substring 0 i host else host
              | None => host
              end in
  match last_index (Ascii.ascii_of_nat 93) host with
  | Some i => if String.prefix "[" host && (S i =? String.length host)%nat
              then String.substring 1 (String.length host - 2) host else host
  | None => host
  end.

Example hostnames :
  map (λ h, Hostname {| url_Scheme := "http"; url_User := false; url_Host := h; url_Opaque := ""; url_Path := "" |})
    ["example.com:8080"; "[::1]:443"; "[fe80::1]"; "10.0.0.1"; "a:"] =
  ["example.com"; "::1"; "fe80::1"; "10.0.0.1"; "a"].
Proof. vm_compute. reflexivity. Qed.

(** ** The policy *)

Record Policy := {
  DisableProxy : bool; AllowLoopback : bool; AllowCIDRs : list IPNet; MaxRedirects : Z; MaxResponseBytes : Z }.

Definition LitePolicy : Policy :=
  {| DisableProxy := false; AllowLoopback := true; AllowCIDRs := []; MaxRedirects := 0;
     MaxResponseBytes := Z.shiftl 16 20 |}.

Definition with_allowed (p : Policy) (allowed : list IPNet) : Policy :=
  {| DisableProxy := DisableProxy p; AllowLoopback := AllowLoopback p; AllowCIDRs := allowed;
     MaxRedirects := MaxRedirects p; MaxResponseBytes := MaxResponseBytes p |}.

Definition trimmed (s : string) : string :=
  String.string_of_list_ascii (map (λ b, Ascii.ascii_of_N (Z.to_N b)) (trim_space (bytes_of_string s))).

Fixpoint allow_all (p : Policy) (cidrs : list string) : result Policy :=
  match cidrs with
  | [] => Ok p
  | value :: cidrs =>
      match ParseCIDR (trimmed value) with
      | None => Err (ErrNew "egress: invalid allowed cidr")
      | Some network => allow_all (with_allowed p (AllowCIDRs p ++ [network])%list) cidrs
      end
  end.

Definition LitePolicyWithAllowedCIDRs (cidrs : list string) : result Policy := allow_all LitePolicy cidrs.

(** [mustParseCIDRs]: the process panics on a bad entry, and there is none. *)
Definition mustParseCIDRs (values : list string) : list IPNet := omap ParseCIDR values.

Definition denied_texts : list string :=
  ["10.0.0.0/8"; "172.16.0.0/12"; "192.168.0.0/16"; "100.64.0.0/10"; "169.254.0.0/16"; "127.0.0.0/8"; "::1/128";
   "fc00::/7"; "fe80::/10"; "::/128"].

Definition deniedCIDRs : list IPNet := Eval vm_compute in mustParseCIDRs denied_texts.

Example denied_parse : mustParseCIDRs denied_texts = deniedCIDRs ∧ length deniedCIDRs = length denied_texts.
Proof. vm_compute. by split. Qed.

Definition allowIP (p : Policy) (ip : list Z) : bool :=
  if AllowLoopback p && IsLoopback ip then true
  else if existsb (λ network, Contains network ip) (AllowCIDRs p) then true
  else negb (existsb (λ network, Contains network ip) deniedCIDRs).

Section Targets.
Context `{!URLParser}.

Definition ValidateTarget (rawURL : string) (p : Policy) : option error :=
  match url_Parse rawURL with
  | Err err => Some (ErrWrap "egress: invalid url" err)
  | Ok u =>
      if bool_decide (url_Scheme u ≠ "http") && bool_decide (url_Scheme u ≠ "https") then Some (ErrNew "egress: scheme is not allowed")
      else
        let host := Hostname u in
        if bool_decide (host = "") then Some (ErrNew "egress: url has no host")
        else match ParseIP host with
             | Some ip => if negb (allowIP p ip) then Some (ErrNew "egress: address is not allowed") else None
             | None => None
             end
  end.

(** [via] has one request for every hop so far; [target] is [req.URL.String()]. *)
Definition CheckRedirect (p : Policy) (target : string) (via : list string) : option error :=
  if MaxRedirects p <? Z.of_nat (length via) then Some (ErrNew "egress: too many redirects")
  else ValidateTarget target p.

End Targets.

(** ** Dialing *)

Section Dial.
Context {Conn : Type}.

(** The resolver's answer for a host and the outcome of connecting to an address. *)
Context (LookupIPAddr : string → result (list (list Z))) (SplitHostPort : string → result (string * string)).
Context (connect : string → list Z → string → result Conn).

(** The loop over the resolved addresses: its result and the addresses it dialed. *)
Fixpoint dial_addresses (p : Policy) (network port : string) (lastErr : option error) (ips : list (list Z)) :
    result Conn * list (list Z) :=
  match ips with
  | [] => (Err (default (ErrNew "egress: host has no resolved addresses") lastErr), [])
  | ip :: ips =>
      if negb (allowIP p ip) then (Err (ErrNew "egress: address for host is not allowed"), [])
      else match connect network ip port with
           | Ok conn => (Ok conn, [ip])
           | Err err => let '(r, dialed) := dial_addresses p network port (Some err) ips in (r, ip :: dialed)
           end
  end.

Definition DialContext (p : Policy) (network addr : string) : result Conn * list (list Z) :=
  if negb (bool_decide (network ∈ ["tcp"; "tcp4"; "tcp6"])) then (Err (ErrNew "egress: unsupported network"), [])
  else match SplitHostPort addr with
       | Err err => (Err err, [])
       | Ok (host, port) =>
           match LookupIPAddr host with
           | Err err => (Err err, [])
           | Ok ips => dial_addresses p network port None ips
           end
       end.

End Dial.

(** ** Response bodies *)

(** [RoundTrip] wraps the body of an answer that has one in [io.LimitReader]: reading
    it to the end gives its first [limit] bytes. *)
Definition RoundTrip (limit : Z) (response : result (option (list Z))) : result (option (list Z)) :=
  match response with
  | Ok (Some body) => Ok (Some (take (Z.to_nat limit) body))
  | _ => response
  end.

Definition client_body (p : Policy) (response : result (option (list Z))) : result (option (list Z)) :=
  if 0 <? MaxResponseBytes p then RoundTrip (MaxResponseBytes p) response else response.

(** ** The denied ranges, read off the octets *)

Definition octet_value (b : Z) : Prop := 0 <= b < 256.

(** What the list means for an IPv4 address. *)
Definition internal4 (a b : Z) : bool :=
  (a =? 10) || ((a =? 172) && within 16 31 b) || ((a =? 192) && (b =? 168)) || ((a =? 100) && within 64 127 b) ||
  ((a =? 169) && (b =? 254)) || (a =? 127).

(** And for an IPv6 address that is not a mapped IPv4 one. *)
Definition internal6 (ip : list Z) : bool :=
  bool_decide (ip = (replicate 15 0 ++ [1])%list) || bool_decide (ip = replicate 16 0) ||
  match ip with
  | a :: b :: _ => within 252 253 a || ((a =? 254) && within 128 191 b)
  | _ => false
  end.

Definition internal (ip : list Z) : bool :=
  match To4 ip with
  | Some (a :: b :: _) => internal4 a b
  | Some _ => false
  | None => internal6 ip
  end.

(** The addresses a resolver returns. *)
Definition address (ip : list Z) : Prop := (length ip = 4%nat ∨ length ip = 16%nat) ∧ Forall octet_value ip.

Lemma octet_check (P : Z → bool) b : forallb P (seqZ 0 256) = true → octet_value b → P b = true.
Proof.
  intros HP Hb. rewrite forallb_forall in HP. apply HP. rewrite <- list_elem_of_In, elem_of_seqZ. unfold octet_value in Hb. lia.
Qed.

Lemma octet_agree (P Q : Z → bool) b :
  forallb (λ b, Bool.eqb (P b) (Q b)) (seqZ 0 256) = true → octet_value b → P b = Q b.
Proof. intros HP Hb. apply Bool.eqb_prop. by apply (octet_check (λ b, Bool.eqb (P b) (Q b))). Qed.

Lemma mask_spent n : n <= 0 → mask_byte n = 0.
Proof. intros Hn. unfold mask_byte. by replace (Z.max 0 (Z.min 8 n)) with 0 by lia. Qed.

Lemma bool_decide_cons (x y : Z) (l k : list Z) : bool_decide (x :: l = y :: k) = (x =? y) && bool_decide (l = k).
Proof. destruct (Z.eqb_spec x y) as [->|]; repeat case_bool_decide; simplify_eq; done. Qed.

Definition masked (n m x : Z) : bool := Z.land n m =? Z.land x m.

Lemma contains4 n1 n2 bits ip a b c d :
  bits <= 16 → To4 ip = Some [a; b; c; d] →
  Contains {| net_number := [n1; n2; 0; 0]; net_bits := bits |} ip =
  masked n1 (mask_byte bits) a && masked n2 (mask_byte (bits - 8)) b.
Proof.
  intros Hb Hip. unfold Contains, masked. simpl. rewrite Hip. cbn [length Nat.eqb andb mask_bytes].
  rewrite !bool_decide_cons. rewrite (mask_spent (bits - 8 - 8)), (mask_spent (bits - 8 - 8 - 8)) by lia.
  rewrite !Z.land_0_r, !Z.eqb_refl. simpl. by rewrite !andb_true_r.
Qed.

Lemma contains_other n bits ip a b c d :
  length n = 16%nat → To4 n = None → To4 ip = Some [a; b; c; d] →
  Contains {| net_number := n; net_bits := bits |} ip = false.
Proof. intros Hl Hn Hip. unfold Contains. simpl. by rewrite Hn, Hip, Hl. Qed.

Lemma denied4 ip a b c d :
  octet_value a → octet_value b → To4 ip = Some [a; b; c; d] →
  existsb (λ network, Contains network ip) deniedCIDRs = internal4 a b.
Proof.
  intros Ha Hb Hip. unfold deniedCIDRs. cbn [existsb].
  do 6 (erewrite contains4; [|lia|exact Hip]). do 4 (erewrite contains_other; [|done|done|exact Hip]).
  unfold internal4. rewrite !orb_false_r.
  assert (∀ (P Q R S : Z → bool),
    forallb (λ x, Bool.eqb (P x) (Q x)) (seqZ 0 256) = true → forallb (λ x, Bool.eqb (R x) (S x)) (seqZ 0 256) = true →
    P a && R b = Q a && S b) as Hag.
  { intros P Q R S HP HR. f_equal; by apply octet_agree. }
  rewrite <- !orb_assoc. f_equal; [|f_equal; [|f_equal; [|f_equal; [|f_equal]]]].
  - rewrite <- (andb_true_r (a =? 10)). by apply (Hag _ (λ a, a =? 10) _ (λ _, true)).
  - by apply (Hag _ (λ a, a =? 172) _ (within 16 31)).
  - by apply (Hag _ (λ a, a =? 192) _ (λ b, b =? 168)).
  - by apply (Hag _ (λ a, a =? 100) _ (within 64 127)).
  - by apply (Hag _ (λ a, a =? 169) _ (λ b, b =? 254)).
  - rewrite <- (andb_true_r (a =? 127)). by apply (Hag _ (λ a, a =? 127) _ (λ _, true)).
Qed.

Lemma mask_full n l : Forall octet_value l → 8 * Z.of_nat (length l) <= n → mask_bytes n l = l.
Proof.
  intros Hl. revert n. induction Hl as [|b l Hb Hl IH]; intros n Hn; [done|]. cbn [mask_bytes length] in *.
  rewrite IH by lia. f_equal. unfold mask_byte. replace (Z.max 0 (Z.min 8 n)) with 8 by lia.
  apply Z.eqb_eq. by apply (octet_check (λ b, Z.land b (Z.land (Z.lnot (Z.shiftr 255 8)) 255) =? b)).
Qed.

Lemma mask_zero n l : n <= 0 → mask_bytes n l = replicate (length l) 0.
Proof.
  revert n. induction l as [|b l IH]; intros n Hn; [done|]. simpl. by rewrite mask_spent, Z.land_0_r, IH by lia.
Qed.

Lemma contains_short number bits ip :
  length number = 4%nat → length ip = 16%nat → To4 ip = None → Contains {| net_number := number; net_bits := bits |} ip = false.
Proof.
  intros Hn Hl Hip. unfold Contains. simpl. rewrite Hip, Hl. unfold To4. rewrite Hn. simpl. by rewrite Hn.
Qed.

Lemma contains_long number bits ip :
  length number = 16%nat → To4 number = None → length ip = 16%nat → To4 ip = None →
  Contains {| net_number := number; net_bits := bits |} ip = bool_decide (mask_bytes bits number = mask_bytes bits ip).
Proof. intros Hn H4 Hl Hip. unfold Contains. simpl. by rewrite H4, Hip, Hn, Hl. Qed.

Lemma head_masked n1 n2 bits a b l :
  bits <= 16 → length l = 14%nat →
  bool_decide (mask_bytes bits (n1 :: n2 :: replicate 14 0) = mask_bytes bits (a :: b :: l)) =
  masked n1 (mask_byte bits) a && masked n2 (mask_byte (bits - 8)) b.
Proof.
  intros Hb Hl. cbn [mask_bytes]. rewrite !bool_decide_cons, !mask_zero, length_replicate, Hl by lia.
  rewrite bool_decide_eq_true_2 by done. by rewrite andb_true_r.
Qed.

Lemma denied6 ip :
  length ip = 16%nat → Forall octet_value ip → To4 ip = None →
  existsb (λ network, Contains network ip) deniedCIDRs = internal6 ip.
Proof.
  intros Hl Ho Hip. unfold deniedCIDRs. cbn [existsb].
  do 6 (rewrite contains_short by done). do 4 (rewrite contains_long by done).
  rewrite !(mask_full 128 ip) by (done || lia).
  destruct ip as [|a [|b ip]]; [done..|]. inversion_clear Ho as [|?? Ha Ho']. inversion_clear Ho' as [|?? Hb _].
  injection Hl as Hl.
  change [252; 0; 0; 0; 0; 0; 0; 0; 0; 0; 0; 0; 0; 0; 0; 0] with (252 :: 0 :: replicate 14 0).
  change [254; 128; 0; 0; 0; 0; 0; 0; 0; 0; 0; 0; 0; 0; 0; 0] with (254 :: 128 :: replicate 14 0).
  rewrite !head_masked by (done || lia). cbn [orb]. unfold internal6.
  rewrite (octet_agree (masked 252 (mask_byte 7)) (within 252 253) a) by done.
  rewrite (octet_agree (masked 0 (mask_byte (7 - 8))) (λ _, true) b) by done.
  rewrite (octet_agree (masked 254 (mask_byte 10)) (λ a, a =? 254) a) by done.
  rewrite (octet_agree (masked 128 (mask_byte (10 - 8))) (within 128 191) b) by done.
  rewrite andb_true_r, orb_false_r.
  rewrite (bool_decide_ext (mask_bytes 128 [0; 0; 0; 0; 0; 0; 0; 0; 0; 0; 0; 0; 0; 0; 0; 1] = a :: b :: ip)
    (a :: b :: ip = (replicate 15 0 ++ [1])%list)) by (split; intros Heq; symmetry; exact Heq).
  rewrite (bool_decide_ext (mask_bytes 128 [0; 0; 0; 0; 0; 0; 0; 0; 0; 0; 0; 0; 0; 0; 0; 0] = a :: b :: ip)
    (a :: b :: ip = replicate 16 0)) by (split; intros Heq; symmetry; exact Heq).
  destruct (bool_decide _), (bool_decide _), (within _ _ a), (a =? 254), (within _ _ b); done.
Qed.

Lemma To4_shape ip ip4 :
  address ip → To4 ip = Some ip4 → ∃ a b c d, ip4 = [a; b; c; d] ∧ octet_value a ∧ octet_value b.
Proof.
  unfold To4. intros [Hl Ho] Hip.
  assert (length ip4 = 4%nat ∧ Forall octet_value ip4) as [H4 Ho4].
  { destruct (length ip =? 4)%nat eqn:He; [apply Nat.eqb_eq in He; by simplify_eq|].
    destruct (length ip =? 16)%nat eqn:Hs; [|done]. simpl in Hip. case_bool_decide; simplify_eq.
    apply Nat.eqb_eq in Hs. rewrite length_drop, Hs. split; [done|]. by apply Forall_drop. }
  destruct ip4 as [|a [|b [|c [|d [|]]]]]; try done. inversion_clear Ho4 as [|?? Ha Hr]. inversion_clear Hr. naive_solver.
Qed.

(** The list of CIDR blocks denies exactly the internal addresses. *)
Lemma denied_exact ip : address ip → existsb (λ network, Contains network ip) deniedCIDRs = internal ip.
Proof.
  intros Ha. unfold internal. destruct (To4 ip) as [ip4|] eqn:Hip.
  - destruct (To4_shape ip ip4 Ha Hip) as (a & b & c & d & -> & Hoa & Hob). by eapply denied4.
  - destruct Ha as [[Hl|Hl] Ho]; [|by apply denied6]. unfold To4 in Hip. by rewrite Hl in Hip.
Qed.

(** What the policy lets through. *)
Definition permitted (p : Policy) (ip : list Z) : Prop :=
  AllowLoopback p = true ∧ IsLoopback ip = true ∨ (∃ network, network ∈ AllowCIDRs p ∧ Contains network ip = true) ∨
  internal ip = false.

Lemma allowIP_spec p ip : address ip → allowIP p ip = true ↔ permitted p ip.
Proof.
  intros Ha. unfold allowIP, permitted. rewrite denied_exact by done.
  assert (existsb (λ network, Contains network ip) (AllowCIDRs p) = true ↔
    ∃ network, network ∈ AllowCIDRs p ∧ Contains network ip = true) as <-.
  { rewrite existsb_exists. by setoid_rewrite list_elem_of_In. }
  destruct (AllowLoopback p), (IsLoopback ip), (existsb _ _), (internal ip); simpl; naive_solver.
Qed.

Lemma dial_addresses_spec {Conn} (connect : string → list Z → string → result Conn) p network port lastErr ips r dialed :
  dial_addresses connect p network port lastErr ips = (r, dialed) →
  dialed ⊆ ips ∧ Forall (λ ip, allowIP p ip = true) dialed ∧
  (∀ conn, r = Ok conn → ∃ ip, last dialed = Some ip ∧ connect network ip port = Ok conn).
Proof.
  revert lastErr r dialed. induction ips as [|ip ips IH]; intros lastErr r dialed; simpl; [by intros [= <- <-]|].
  destruct (allowIP p ip) eqn:Hip; simpl; [|intros [= <- <-]; split_and!; [set_solver|by constructor|done]].
  destruct (connect network ip port) as [conn|err] eqn:Hc.
  - intros [= <- <-]. split; [set_solver|]. split; [by constructor|]. intros ? [= <-]. by exists ip.
  - destruct (dial_addresses _ _ _ _ _ ips) as [r' dialed'] eqn:Hd. intros [= <- <-].
    destruct (IH _ _ _ Hd) as (Hs & Hf & Hl). split; [set_solver|]. split; [by constructor|].
    intros conn He. destruct (Hl conn He) as (ip' & Hlast & ?). exists ip'. split; [|done].
    destruct dialed'; [done|]. by rewrite last_cons_cons.
Qed.

(** Outbound connections stay outside.  Whatever the resolver answers, every
    address a dial tries is permitted: a loopback address under a policy that allows
    them, an address of an allowed network, or one that is in none of the internal
    ranges (private, carrier NAT, link-local with the metadata service, unique-local,
    unspecified IPv6), read off its octets, mapped IPv4 addresses included; and an
    established connection is to one of them. *)
Theorem dialed_addresses_are_permitted {Conn} lookup split (connect : string → list Z → string → result Conn)
    p network addr r dialed :
  (∀ host ips, lookup host = Ok ips → Forall address ips) →
  DialContext lookup split connect p network addr = (r, dialed) →
  Forall (permitted p) dialed ∧
  (∀ conn, r = Ok conn → ∃ ip host port, last dialed = Some ip ∧ split addr = Ok (host, port) ∧ connect network ip port = Ok conn).
Proof.
  intros Hlook. unfold DialContext. destruct (bool_decide _); simpl; [|by intros [= <- <-]].
  destruct (split addr) as [[host port]|]; [|by intros [= <- <-]].
  destruct (lookup host) as [ips|] eqn:Hr; [|by intros [= <- <-]]. specialize (Hlook _ _ Hr).
  intros (Hs & Hf & Hl)%dial_addresses_spec. split; [|naive_solver].
  rewrite Forall_forall in Hlook, Hf |- *. intros ip Hin. apply allowIP_spec; auto.
Qed.

(** ** Concrete runs *)

Definition resolver (host : string) : result (list (list Z)) :=
  if bool_decide (host = "api.example.com") then Ok [[93; 184; 216; 34]; [10; 0; 0; 1]] else Err (ErrNew "no such host").

Definition split_host_port (addr : string) : result (string * string) :=
  match break_at (Ascii.ascii_of_nat 58) addr with Some p => Ok p | None => Err (ErrNew "missing port in address") end.

Definition reachable (good : list Z) (network : string) (ip : list Z) (port : string) : result (list Z) :=
  if bool_decide (ip = good) then Ok ip else Err (ErrNew "connection refused").

Lemma dialed_addresses_are_permitted_witness :
  Forall (permitted LitePolicy) [[93; 184; 216; 34]].
Proof.
  apply (dialed_addresses_are_permitted resolver split_host_port (reachable [93; 184; 216; 34]) LitePolicy "tcp" "api.example.com:443"
    (Ok [93; 184; 216; 34]) [[93; 184; 216; 34]]); [|vm_compute; reflexivity].
  intros host ips. unfold resolver. case_bool_decide; [|discriminate]. intros [= <-].
  repeat (constructor; simpl); unfold octet_value; lia.
Defined.

(** The doc comment of [DialContext] says that every resolved address is verified
    before connecting.  The loop verifies one, connects to it, and only then looks at
    the next: a host that resolves to a public and to an internal address is dialed. *)
Example later_addresses_unverified :
  DialContext resolver split_host_port (reachable [93; 184; 216; 34]) LitePolicy "tcp" "api.example.com:443" =
  (Ok [93; 184; 216; 34], [[93; 184; 216; 34]]) ∧ allowIP LitePolicy [10; 0; 0; 1] = false.
Proof. vm_compute. by split. Qed.

(** The unspecified IPv6 address is denied and the unspecified IPv4 address is not,
    although connecting to either reaches the local host; no policy setting denies it. *)
Example unspecified_ipv4_allowed p :
  allowIP p [0; 0; 0; 0] = true ∧
  allowIP {| DisableProxy := false; AllowLoopback := false; AllowCIDRs := []; MaxRedirects := 0; MaxResponseBytes := 0 |}
    (replicate 16 0) = false.
Proof.
  split; [|vm_compute; reflexivity]. apply allowIP_spec.
  - split; [by left|]. repeat constructor; unfold octet_value; lia.
  - right; right. vm_compute. reflexivity.
Qed.

(** The cap on a body is silent: a longer answer reads as a complete, shorter one. *)
Example oversized_body_truncated : RoundTrip 3 (Ok (Some [1; 2; 3; 4; 5])) = Ok (Some [1; 2; 3]).
Proof. reflexivity. Qed.
