(* ===== verification/Config.v ===== *)
(** * Configuration documents

    controlplane/config: the document (types.go), the capability vocabulary
    (capabilities.go), validation (validator.go) and compilation into the runtime
    snapshot (compiler.go).  The document's cache, spool, circuit, pool-member and
    guardrail-rule records have the fields of the compiled ones and reuse them.
    [url.Parse] is the parameter of Egress.v. *)

From stdpp Require Import pretty.
From S2P Require Import Prelude GoFloat GoStd GoText GoNet Snapshot ApiKey Egress.

Open Scope string_scope.
Open Scope Z_scope.

(** ** The document *)

Definition SchemaV1 : string := "v1".
Definition MaxFileMappingRetentionDays : Z := 3650.

Record TenantPolicyDefaults := { tpd_AllowedDataRegions : list string; tpd_ResidencyEnforcement : string }.
Record SystemConfig := { sys_TenantDefaults : TenantPolicyDefaults; sys_FileMappingRetentionDays : Z }.

Record TenantResource := {
  tn_ID : string; tn_PublicRef : string; tn_Status : string; tn_SecurityEpoch : Z;
  tn_AllowedDataRegions : list string; tn_ResidencyEnforcement : string }.
Record Project := {
  cpj_ID : string; cpj_TenantID : string; cpj_Status : string; cpj_AllowedDataRegions : list string;
  cpj_ResidencyEnforcement : string; cpj_RequireApproval : bool }.
Record Provider := {
  cpv_ID : string; cpv_TenantID : string; cpv_OwnerScope : string; cpv_Type : string; cpv_Endpoint : string;
  cpv_Status : string }.
Record Credential := {
  ccr_ID : string; ccr_ProviderID : string; ccr_TenantID : string; ccr_OwnerScope : string; ccr_SecretRef : string;
  ccr_Status : string }.
Record Deployment := {
  cd_ID : string; cd_TenantID : string; cd_ProviderID : string; cd_CredentialID : string; cd_PoolID : string;
  cd_UpstreamModel : string; cd_DataRegion : string; cd_Capabilities : list string; cd_ContextWindow : Z;
  cd_Priority : Z; cd_LeaseCapacity : Z; cd_LeaseTTLMS : Z; cd_Status : string }.
Record RoutePolicy := {
  crp_ID : string; crp_TenantID : string; crp_ProjectID : string; crp_Strategy : string;
  crp_DeploymentIDs : list string; crp_Weights : gmap string Z; crp_ScoreWeights : gmap string float64;
  crp_Version : Z }.
Record LogicalModel := { clm_ID : string; clm_TenantID : string; clm_Alias : string; clm_RoutePolicyID : string }.
Record BudgetPolicy := {
  cbp_ID : string; cbp_TenantID : string; cbp_ProjectID : string; cbp_KeyID : string; cbp_WindowHours : Z;
  cbp_TokenLimit : float64; cbp_Mode : string; cbp_Consistency : string }.
Record CredentialPool := {
  cpl_ID : string; cpl_TenantID : string; cpl_ProviderID : string; cpl_Strategy : string;
  cpl_Members : list PoolMember }.
Record DriftMetadata := { cdm_GraceMS : Z; cdm_Strict : bool; cdm_SecurityEpoch : Z }.
Record MCPServer := { cms_ID : string; cms_TenantID : string; cms_URL : string; cms_Status : string }.
Record Tool := {
  ctl_ID : string; ctl_TenantID : string; ctl_ServerID : string; ctl_Name : string; ctl_DataClassification : string;
  ctl_Endpoint : string; ctl_Status : string; ctl_Schema : list Z; ctl_CapabilityTags : list string }.
Record ToolPolicy := {
  ctp_ToolID : string; ctp_TenantID : string; ctp_ProjectID : string; ctp_AllowedAgentIDs : list string;
  ctp_Allowed : bool; ctp_RequireApproval : bool }.
Record Agent := {
  cag_ID : string; cag_TenantID : string; cag_ProjectID : string; cag_Name : string; cag_Status : string;
  cag_CurrentVersion : string; cag_Capabilities : list string; cag_RequireApproval : bool; cag_ApprovalMode : string }.
Record AgentEndpoint := {
  cae_ID : string; cae_TenantID : string; cae_AgentID : string; cae_Version : string; cae_URL : string;
  cae_Protocol : string; cae_AuthScheme : string; cae_SecretRef : string; cae_Headers : gmap string string;
  cae_DataClassification : string; cae_Capabilities : list string }.
Record FederatedAgent := {
  cfa_ID : string; cfa_TenantID : string; cfa_Name : string; cfa_ExternalSubject : string;
  cfa_TrustBoundary : string; cfa_Status : string }.
Record FederationRelationship := {
  cfr_ID : string; cfr_TenantID : string; cfr_ExternalAgentID : string; cfr_Status : string;
  cfr_AssuranceLevel : string; cfr_HasVerifiedAnchor : bool; cfr_Direction : string; cfr_ProjectGrants : list string;
  cfr_CapabilityGrants : list string; cfr_BoundaryStatus : string; cfr_ProcessingRegions : list string;
  cfr_ApprovedVersion : string }.
Record GuardrailPolicy := {
  cgp_Mode : string; cgp_Rules : list GuardrailRule; cgp_Judge : GuardrailJudge;
  cgp_Groundedness : GuardrailGroundedness }.

Record TenantConfig := {
  doc_SchemaVersion : string; doc_Tenant : TenantResource; doc_Projects : list Project; doc_Providers : list Provider;
  doc_Credentials : list Credential; doc_Deployments : list Deployment; doc_RoutePolicies : list RoutePolicy;
  doc_LogicalModels : list LogicalModel; doc_BudgetPolicies : list BudgetPolicy;
  doc_CredentialPools : list CredentialPool; doc_Circuit : CircuitConfig; doc_Drift : DriftMetadata;
  doc_AccountingSpool : SpoolPolicy; doc_Cache : CachePolicy; doc_MCPServers : list MCPServer; doc_Tools : list Tool;
  doc_ToolPolicies : list ToolPolicy; doc_Agents : list Agent; doc_AgentEndpoints : list AgentEndpoint;
  doc_FederatedAgents : list FederatedAgent; doc_FederationRelationships : list FederationRelationship;
  doc_Guardrail : GuardrailPolicy }.

Definition with_tenant (d : TenantConfig) (t : TenantResource) : TenantConfig :=
  {| doc_SchemaVersion := doc_SchemaVersion d; doc_Tenant := t; doc_Projects := doc_Projects d;
     doc_Providers := doc_Providers d; doc_Credentials := doc_Credentials d; doc_Deployments := doc_Deployments d;
     doc_RoutePolicies := doc_RoutePolicies d; doc_LogicalModels := doc_LogicalModels d;
     doc_BudgetPolicies := doc_BudgetPolicies d; doc_CredentialPools := doc_CredentialPools d;
     doc_Circuit := doc_Circuit d; doc_Drift := doc_Drift d; doc_AccountingSpool := doc_AccountingSpool d;
     doc_Cache := doc_Cache d; doc_MCPServers := doc_MCPServers d; doc_Tools := doc_Tools d;
     doc_ToolPolicies := doc_ToolPolicies d; doc_Agents := doc_Agents d; doc_AgentEndpoints := doc_AgentEndpoints d;
     doc_FederatedAgents := doc_FederatedAgents d; doc_FederationRelationships := doc_FederationRelationships d;
     doc_Guardrail := doc_Guardrail d |}.

(** ** Capabilities *)

Definition CapabilityVocabulary : list string :=
  ["chat"; "vision"; "reasoning"; "tools"; "embedding"; "rerank"; "audio"; "speech"].

Definition capabilityAliases : gmap string string := list_to_map
  [("embeddings", "embedding"); ("embed", "embedding"); ("multimodal", "vision"); ("vision-language", "vision");
   ("vlm", "vision"); ("image", "vision"); ("function_calling", "tools"); ("function-calling", "tools");
   ("tool_calling", "tools"); ("tool-calling", "tools"); ("stt", "audio"); ("transcription", "audio");
   ("translation", "audio"); ("asr", "audio"); ("tts", "speech"); ("text-to-speech", "speech");
   ("speech-synthesis", "speech")].

Definition NormalizeCapability (raw : string) : string :=
  let value := to_lower (trimmed raw) in
  default value (capabilityAliases !! value).

(** The loop of [CanonicalCapabilities]: [seen] holds the values kept so far. *)
Fixpoint canonical_from (seen : list string) (values : list string) : list string :=
  match values with
  | [] => []
  | raw :: values =>
      let value := NormalizeCapability raw in
      if bool_decide (value = "") || bool_decide (value ∈ seen) then canonical_from seen values
      else value :: canonical_from (value :: seen) values
  end.

Definition CanonicalCapabilities (values : list string) : list string := canonical_from [] values.

Definition KnownCapability (value : string) : bool := bool_decide (value ∈ CapabilityVocabulary).

Definition HasCapability (values : list string) (want : string) : bool :=
  let want := NormalizeCapability want in
  existsb (λ value, bool_decide (NormalizeCapability value = want)) values.

Definition InferCapabilities (model : string) : list string :=
  let lower := to_lower (trimmed model) in
  let has p := contains p lower in
  if bool_decide (lower = "") then ["chat"]
  else if has "whisper" || has "-asr" || has "transcrib" then ["audio"]
  else if has "tts" || has "speech" then ["speech"]
  else if has "rerank" then ["rerank"]
  else if has "embed" || has "bge-" || has "text-embedding" then ["embedding"]
  else
    (["chat"] ++
     (if has "vision" || has "gpt-4o" || has "gpt-4.1" || has "gpt-5" || has "claude-3" || has "claude-4" ||
         has "gemini" || has "omni" then ["vision"] else []) ++
     (if has "o1" || has "o3" || has "o4" || has "reason" || has "deepseek-r" then ["reasoning"] else []))%list.

(** ** Defaults *)

Definition with_policy (t : TenantResource) (regions : list string) (residency : string) : TenantResource :=
  {| tn_ID := tn_ID t; tn_PublicRef := tn_PublicRef t; tn_Status := tn_Status t;
     tn_SecurityEpoch := tn_SecurityEpoch t; tn_AllowedDataRegions := regions; tn_ResidencyEnforcement := residency |}.

Definition ApplySystemDefaults (system : SystemConfig) (document : TenantConfig) : TenantConfig :=
  let t := doc_Tenant document in
  let d := sys_TenantDefaults system in
  with_tenant document (with_policy t
    (match tn_AllowedDataRegions t with [] => tpd_AllowedDataRegions d | regions => regions end)
    (if bool_decide (tn_ResidencyEnforcement t = "") then tpd_ResidencyEnforcement d else tn_ResidencyEnforcement t)).

Definition inheritTenantProjectPolicy (tenant : TenantResource) (project : Project) : Project :=
  {| cpj_ID := cpj_ID project; cpj_TenantID := cpj_TenantID project; cpj_Status := cpj_Status project;
     cpj_AllowedDataRegions :=
       match cpj_AllowedDataRegions project with [] => tn_AllowedDataRegions tenant | regions => regions end;
     cpj_ResidencyEnforcement :=
       if bool_decide (cpj_ResidencyEnforcement project = "") then tn_ResidencyEnforcement tenant
       else cpj_ResidencyEnforcement project;
     cpj_RequireApproval := cpj_RequireApproval project |}.

(** ** Diagnostics *)

Inductive Severity := SeverityError | SeverityWarning.
#[export] Instance Severity_eq_dec : EqDecision Severity.
Proof. solve_decision. Defined.

Record Diagnostic := {
  dg_Severity : Severity; dg_Code : string; dg_Path : string; dg_MessageKey : string; dg_Params : gmap string string }.

Definition diagnostic (severity : Severity) (code path : string) (params : gmap string string) : Diagnostic :=
  {| dg_Severity := severity; dg_Code := code; dg_Path := path; dg_MessageKey := "config.validation." +:+ code;
     dg_Params := params |}.

(** [add]: an error diagnostic, when its condition holds. *)
Definition add_with (condition : bool) (code path : string) (params : gmap string string) : list Diagnostic :=
  if condition then [diagnostic SeverityError code path params] else [].
Definition add (condition : bool) (code path : string) : list Diagnostic := add_with condition code path ∅.
Definition warn (condition : bool) (code path : string) : list Diagnostic :=
  if condition then [diagnostic SeverityWarning code path ∅] else [].

Definition HasErrors (diagnostics : list Diagnostic) : bool :=
  existsb (λ item, bool_decide (dg_Severity item = SeverityError)) diagnostics.

(** "%s/%d". *)
Definition at_index (path : string) (i : nat) : string := path +:+ "/" +:+ pretty (N.of_nat i).

(** ** Vocabularies *)

Definition routeStrategies : list string := ["priority"; "weighted"; "round_robin"; "soft"].
Definition poolStrategies : list string := ["round_robin"; "weighted"; "least_inflight"; "quota_aware"].
Definition budgetModes : list string := ["hard"; "soft"].
Definition budgetConsistency : list string := ["regional"; "global_soft"; "global_hard"].
Definition federationRelationshipDirections : list string := [""; "outbound"; "inbound"; "bidirectional"].
Definition agentApprovalModes : list string := [""; "inherit_project"; "always"; "never"].
Definition federationBoundaryStatuses : list string := [""; "unknown"; "declared"; "contractually_bound"].
Definition endpointAuthSchemes : list string := [""; "bearer"; "x-api-key"].

Definition among (value : string) (values : list string) : bool := bool_decide (value ∈ values).
Definition same (a b : string) : bool := bool_decide (a = b).

(** ** Loops *)

(** [for i, item := range items]. *)
Fixpoint each {A} (check : nat → A → list Diagnostic) (i : nat) (items : list A) : list Diagnostic :=
  match items with
  | [] => []
  | item :: items => (check i item ++ each check (S i) items)%list
  end.

(** The same with a map of what was seen, which reports a repeated identifier first. *)
Fixpoint each_unique {A B} (id : A → string) (value : A → B) (path : string) (check : nat → A → list Diagnostic)
    (i : nat) (seen : gmap string B) (items : list A) : list Diagnostic :=
  match items with
  | [] => []
  | item :: items =>
      (add_with (bool_decide (is_Some (seen !! id item))) "duplicate_resource_id" (at_index path i +:+ "/id") {["id" := id item]} ++
       check i item ++ each_unique id value path check (S i) (<[id item := value item]> seen) items)%list
  end.

(** The map a loop leaves. *)
Definition collect {A B} (id : A → string) (value : A → B) (items : list A) : gmap string B :=
  foldl (λ m item, <[id item := value item]> m) ∅ items.

Definition known {B} (m : gmap string B) (id : string) : bool := bool_decide (is_Some (m !! id)).

Section Validator.
Context `{!URLParser}.

Definition validSecretRef (value : string) : bool :=
  match url_Parse value with
  | Ok u => negb (same (url_Scheme u) "") && negb (url_User u) &&
            (negb (same (url_Host u) "") || negb (same (url_Opaque u) "") || negb (same (url_Path u) ""))
  | Err _ => false
  end.

Definition check_project (tenant : string) (i : nat) (item : Project) : list Diagnostic :=
  add (negb (same (cpj_TenantID item) tenant)) "tenant_scope_mismatch" (at_index "/projects" i +:+ "/tenant_id").

Definition check_provider (tenant : string) (i : nat) (item : Provider) : list Diagnostic :=
  add (negb (same (cpv_OwnerScope item) "SYSTEM_SHARED" && same (cpv_TenantID item) "" ||
             same (cpv_OwnerScope item) "TENANT_PRIVATE" && same (cpv_TenantID item) tenant))
    "provider_scope_invalid" (at_index "/providers" i +:+ "/owner_scope").

Definition check_credential (providers : gmap string Provider) (i : nat) (item : Credential) : list Diagnostic :=
  let path := at_index "/credentials" i in
  (match providers !! ccr_ProviderID item with
   | None => add true "provider_reference_missing" (path +:+ "/provider_id")
   | Some provider => add (negb (same (ccr_OwnerScope item) (cpv_OwnerScope provider)) ||
                           negb (same (ccr_TenantID item) (cpv_TenantID provider)))
                        "credential_scope_invalid" (path +:+ "/owner_scope")
   end ++
   add (negb (validSecretRef (ccr_SecretRef item))) "secret_ref_invalid" (path +:+ "/secret_ref"))%list.

Definition check_deployment (tenant : string) (providers : gmap string Provider) (credentials : gmap string Credential)
    (i : nat) (item : Deployment) : list Diagnostic :=
  let path := at_index "/deployments" i in
  (add (negb (same (cd_TenantID item) tenant)) "tenant_scope_mismatch" (path +:+ "/tenant_id") ++
   add (negb (known providers (cd_ProviderID item))) "provider_reference_missing" (path +:+ "/provider_id") ++
   add (match credentials !! cd_CredentialID item with
        | Some credential => negb (same (ccr_ProviderID credential) (cd_ProviderID item))
        | None => true
        end) "credential_reference_invalid" (path +:+ "/credential_id"))%list.

(** One candidate of a route policy. *)
Definition check_candidate (projects : gmap string Project) (deployments : gmap string Deployment) (route : RoutePolicy)
    (path : string) (candidateIndex : nat) (id : string) : list Diagnostic :=
  let path := at_index (path +:+ "/deployment_ids") candidateIndex in
  match deployments !! id with
  | None => add true "deployment_reference_missing" path
  | Some deployment =>
      add (match projects !! crp_ProjectID route with
           | Some project => same (cpj_ResidencyEnforcement project) "strict" &&
                             negb (among (cd_DataRegion deployment) (cpj_AllowedDataRegions project))
           | None => false
           end) "data_residency_violation" path
  end.

Definition eligible (deployments : gmap string Deployment) (id : string) : bool :=
  match deployments !! id with Some deployment => same (cd_Status deployment) "enabled" | None => false end.

Definition check_route (tenant : string) (projects : gmap string Project) (deployments : gmap string Deployment)
    (i : nat) (item : RoutePolicy) : list Diagnostic :=
  let path := at_index "/route_policies" i in
  (add (negb (same (crp_TenantID item) tenant)) "tenant_scope_mismatch" (path +:+ "/tenant_id") ++
   add (negb (same (crp_ProjectID item) "") && negb (known projects (crp_ProjectID item))) "project_reference_missing" (path +:+ "/project_id") ++
   add (negb (among (crp_Strategy item) routeStrategies)) "route_strategy_invalid" (path +:+ "/strategy") ++
   each (check_candidate projects deployments item path) 0 (crp_DeploymentIDs item) ++
   add (negb (existsb (eligible deployments) (crp_DeploymentIDs item))) "route_has_no_eligible_deployment" (path +:+ "/deployment_ids"))%list.

(** Logical models are unique by identifier and by alias. *)
Fixpoint check_models (tenant : string) (routes : gmap string RoutePolicy) (i : nat) (ids aliases : gset string)
    (items : list LogicalModel) : list Diagnostic :=
  match items with
  | [] => []
  | item :: items =>
      let path := at_index "/logical_models" i in
      (add_with (bool_decide (clm_ID item ∈ ids ∨ clm_Alias item ∈ aliases)) "duplicate_resource_id" (path +:+ "/id") {["id" := clm_ID item]} ++
       add (negb (same (clm_TenantID item) tenant)) "tenant_scope_mismatch" (path +:+ "/tenant_id") ++
       add (negb (known routes (clm_RoutePolicyID item))) "route_reference_missing" (path +:+ "/route_policy_id") ++
       check_models tenant routes (S i) ({[clm_ID item]} ∪ ids) ({[clm_Alias item]} ∪ aliases) items)%list
  end.

Definition check_budget (tenant : string) (projects : gmap string Project) (i : nat) (item : BudgetPolicy) : list Diagnostic :=
  let path := at_index "/budget_policies" i in
  (add (negb (same (cbp_TenantID item) tenant)) "tenant_scope_mismatch" (path +:+ "/tenant_id") ++
   add ((cbp_WindowHours item <=? 0) || f64_ltb (cbp_TokenLimit item) f64_zero || negb (among (cbp_Mode item) budgetModes))
     "budget_policy_invalid" path ++
   add (negb (same (cbp_Consistency item) "") && negb (among (cbp_Consistency item) budgetConsistency))
     "budget_consistency_invalid" (path +:+ "/consistency") ++
   add (negb (same (cbp_ProjectID item) "") && negb (known projects (cbp_ProjectID item))) "project_reference_missing" (path +:+ "/project_id"))%list.

Definition validateSpoolPolicy (policy : SpoolPolicy) : list Diagnostic :=
  let w := sp_WarnThreshold policy in let c := sp_CriticalThreshold policy in let h := sp_HardThreshold policy in
  if same (sp_Mode policy) "" then []
  else if negb (among (sp_Mode policy) budgetModes) then add true "spool_policy_invalid" "/accounting_spool/mode"
  else if f64_ltb w f64_zero || f64_ltb c f64_zero || f64_ltb h f64_zero || (sp_QuotaBytes policy <? 0)
  then add true "spool_policy_invalid" "/accounting_spool"
  else (add (f64_gtb w f64_zero && f64_gtb c f64_zero && f64_gtb w c) "spool_threshold_order" "/accounting_spool" ++
        add (f64_gtb c f64_zero && f64_gtb h f64_zero && f64_gtb c h) "spool_threshold_order" "/accounting_spool")%list.

Definition validateCachePolicy (policy : CachePolicy) : list Diagnostic :=
  let s := cp_Semantic policy in
  (add (cp_Enabled policy && ((cp_TTLSeconds policy <? 0) || (cp_NamespaceVersion policy <? 0) || f64_ltb (cp_MaxTemperature policy) f64_zero))
     "cache_policy_invalid" "/cache" ++
   add (sc_Enabled s && (negb (cp_Enabled policy) || same (sc_Model s) "" || f64_ltb (sc_Threshold s) f64_zero || f64_gtb (sc_Threshold s) f64_one))
     "cache_policy_invalid" "/cache/semantic")%list.

Definition validateGuardrailPolicy (policy : GuardrailPolicy) : list Diagnostic :=
  let j := cgp_Judge policy in let g := cgp_Groundedness policy in
  (add (gj_Enabled j && (same (gj_Model j) "" || negb (among (gj_Action j) [""; "block"; "mark"])))
     "guardrail_policy_invalid" "/guardrail/judge" ++
   add (gg_Enabled g && (f64_leb (gg_MinOverlap g) f64_zero || f64_gtb (gg_MinOverlap g) f64_one))
     "guardrail_policy_invalid" "/guardrail/groundedness")%list.

Definition check_server (tenant : string) (i : nat) (item : MCPServer) : list Diagnostic :=
  let path := at_index "/mcp_servers" i in
  (add (negb (same (cms_TenantID item) tenant)) "tenant_scope_mismatch" (path +:+ "/tenant_id") ++
   add (same (cms_ID item) "" || same (cms_URL item) "") "mcp_server_invalid" path)%list.

Definition check_tool (tenant : string) (servers : gset string) (i : nat) (item : Tool) : list Diagnostic :=
  let path := at_index "/tools" i in
  (add (negb (same (ctl_TenantID item) tenant)) "tenant_scope_mismatch" (path +:+ "/tenant_id") ++
   add (same (ctl_ID item) "" || same (ctl_Name item) "" || negb (bool_decide (ctl_ServerID item ∈ servers))) "tool_invalid" path)%list.

Definition check_tool_policy (tenant : string) (tools : gset string) (projects : gmap string Project) (i : nat)
    (item : ToolPolicy) : list Diagnostic :=
  let path := at_index "/tool_policies" i in
  (add (negb (same (ctp_TenantID item) tenant)) "tenant_scope_mismatch" (path +:+ "/tenant_id") ++
   add (negb (bool_decide (ctp_ToolID item ∈ tools))) "tool_reference_missing" (path +:+ "/tool_id") ++
   add (negb (known projects (ctp_ProjectID item))) "project_reference_missing" (path +:+ "/project_id"))%list.

Definition check_agent (tenant : string) (projects : gmap string Project) (i : nat) (item : Agent) : list Diagnostic :=
  let path := at_index "/agents" i in
  (add (negb (same (cag_TenantID item) tenant)) "tenant_scope_mismatch" (path +:+ "/tenant_id") ++
   add (same (cag_ID item) "" || same (cag_Name item) "") "agent_invalid" path ++
   add (negb (known projects (cag_ProjectID item))) "project_reference_missing" (path +:+ "/project_id") ++
   add (negb (among (cag_ApprovalMode item) agentApprovalModes)) "agent_approval_mode_invalid" (path +:+ "/approval_mode"))%list.

Definition endpoint_url (url : string) : bool :=
  match url_Parse url with
  | Ok u => among (url_Scheme u) ["http"; "https"] && negb (same (url_Host u) "")
  | Err _ => false
  end.

Definition validateAgentEndpoint (tenant : string) (i : nat) (item : AgentEndpoint) : list Diagnostic :=
  let path := at_index "/agent_endpoints" i in
  let secret := negb (same (cae_SecretRef item) "") in
  (add (negb (same (cae_TenantID item) tenant)) "tenant_scope_mismatch" (path +:+ "/tenant_id") ++
   add (same (cae_ID item) "" || same (cae_AgentID item) "" || same (cae_URL item) "" || same (cae_Protocol item) "") "agent_endpoint_invalid" path ++
   add (negb (endpoint_url (cae_URL item))) "agent_endpoint_url_invalid" (path +:+ "/url") ++
   add (secret && negb (validSecretRef (cae_SecretRef item))) "secret_ref_invalid" (path +:+ "/secret_ref") ++
   add (negb (among (cae_AuthScheme item) endpointAuthSchemes)) "agent_endpoint_auth_invalid" (path +:+ "/auth_scheme") ++
   add (secret && same (cae_AuthScheme item) "") "agent_endpoint_auth_invalid" (path +:+ "/auth_scheme") ++
   add (negb (same (cae_AuthScheme item) "") && negb secret) "agent_endpoint_auth_invalid" (path +:+ "/secret_ref"))%list.

Definition validateFederationRelationship (i : nat) (item : FederationRelationship) : list Diagnostic :=
  let path := at_index "/federation_relationships" i in
  (warn (negb (among (cfr_Direction item) federationRelationshipDirections)) "federation_direction_invalid" (path +:+ "/direction") ++
   warn (negb (among (cfr_BoundaryStatus item) federationBoundaryStatuses)) "federation_boundary_status_invalid" (path +:+ "/boundary_status"))%list.

Definition check_member (provider : option Provider) (credentials : gmap string Credential) (path : string) (i : nat)
    (member : PoolMember) : list Diagnostic :=
  let path := at_index (path +:+ "/members") i in
  match credentials !! pm_CredentialID member with
  | None => add true "credential_reference_missing" path
  | Some credential =>
      (add (match provider with Some provider => negb (same (ccr_ProviderID credential) (cpv_ID provider)) | None => false end)
         "pool_member_provider_mismatch" path ++
       add (pm_Weight member <? 0) "pool_member_weight_invalid" path)%list
  end.

Definition check_pool (tenant : string) (providers : gmap string Provider) (credentials : gmap string Credential)
    (i : nat) (item : CredentialPool) : list Diagnostic :=
  let path := at_index "/credential_pools" i in
  (add (negb (same (cpl_TenantID item) tenant)) "tenant_scope_mismatch" (path +:+ "/tenant_id") ++
   add (negb (among (cpl_Strategy item) poolStrategies)) "pool_strategy_invalid" (path +:+ "/strategy") ++
   add (negb (known providers (cpl_ProviderID item))) "provider_reference_missing" (path +:+ "/provider_id") ++
   each (check_member (providers !! cpl_ProviderID item) credentials path) 0 (cpl_Members item) ++
   add (match cpl_Members item with [] => true | _ => false end) "pool_has_no_members" (path +:+ "/members"))%list.

Definition poolByID (d : TenantConfig) (id : string) : option CredentialPool :=
  snd <$> list_find (λ pool, cpl_ID pool = id) (doc_CredentialPools d).

Definition check_deployment_pool (document : TenantConfig) (i : nat) (item : Deployment) : list Diagnostic :=
  let path := at_index "/deployments" i +:+ "/pool_id" in
  if same (cd_PoolID item) "" then []
  else match poolByID document (cd_PoolID item) with
       | None => add true "pool_reference_missing" path
       | Some pool =>
           (add (negb (same (cpl_TenantID pool) (tn_ID (doc_Tenant document)))) "tenant_scope_mismatch" path ++
            add (negb (same (cpl_ProviderID pool) (cd_ProviderID item))) "deployment_pool_provider_mismatch" path)%list
       end.

Definition circuit_invalid (c : CircuitConfig) : bool :=
  (0 <? cc_MinSamples c) &&
  ((cc_MinSamples c <? 1) || f64_leb (cc_ErrorRate c) f64_zero || f64_gtb (cc_ErrorRate c) f64_one ||
   (cc_InitialCooldownMS c <=? 0) || (cc_MaxCooldownMS c <? cc_InitialCooldownMS c)).

(** [ValidateWithSystemDefaults], after the defaults are applied. *)
Definition diagnose (d : TenantConfig) : list Diagnostic :=
  let tenant := tn_ID (doc_Tenant d) in
  let projects := collect cpj_ID (inheritTenantProjectPolicy (doc_Tenant d)) (doc_Projects d) in
  let providers := collect cpv_ID id (doc_Providers d) in
  let credentials := collect ccr_ID id (doc_Credentials d) in
  let deployments := collect cd_ID id (doc_Deployments d) in
  let routes := collect crp_ID id (doc_RoutePolicies d) in
  let servers : gset string := list_to_set (map cms_ID (doc_MCPServers d)) in
  let tools : gset string := list_to_set (map ctl_ID (doc_Tools d)) in
  (add_with (negb (same (doc_SchemaVersion d) SchemaV1)) "unsupported_schema" "/schema_version" {["supported" := SchemaV1]} ++
   add (same tenant "" || same (tn_PublicRef (doc_Tenant d)) "") "tenant_required" "/tenant" ++
   each_unique cpj_ID (inheritTenantProjectPolicy (doc_Tenant d)) "/projects" (check_project tenant) 0 ∅ (doc_Projects d) ++
   each_unique cpv_ID id "/providers" (check_provider tenant) 0 ∅ (doc_Providers d) ++
   each_unique ccr_ID id "/credentials" (check_credential providers) 0 ∅ (doc_Credentials d) ++
   each_unique cd_ID id "/deployments" (check_deployment tenant providers credentials) 0 ∅ (doc_Deployments d) ++
   each_unique crp_ID id "/route_policies" (check_route tenant projects deployments) 0 ∅ (doc_RoutePolicies d) ++
   check_models tenant routes 0 ∅ ∅ (doc_LogicalModels d) ++
   warn (match doc_LogicalModels d with [] => true | _ => false end) "no_logical_models" "/logical_models" ++
   each_unique cbp_ID id "/budget_policies" (check_budget tenant projects) 0 ∅ (doc_BudgetPolicies d) ++
   validateSpoolPolicy (doc_AccountingSpool d) ++ validateCachePolicy (doc_Cache d) ++
   validateGuardrailPolicy (doc_Guardrail d) ++
   each (check_server tenant) 0 (doc_MCPServers d) ++
   each (check_tool tenant servers) 0 (doc_Tools d) ++
   each (check_tool_policy tenant tools projects) 0 (doc_ToolPolicies d) ++
   each (check_agent tenant projects) 0 (doc_Agents d) ++
   each (validateAgentEndpoint tenant) 0 (doc_AgentEndpoints d) ++
   each validateFederationRelationship 0 (doc_FederationRelationships d) ++
   each_unique cpl_ID id "/credential_pools" (check_pool tenant providers credentials) 0 ∅ (doc_CredentialPools d) ++
   each (check_deployment_pool d) 0 (doc_Deployments d) ++
   add (circuit_invalid (doc_Circuit d)) "circuit_config_invalid" "/circuit" ++
   add (cdm_GraceMS (doc_Drift d) <? 0) "drift_config_invalid" "/drift/grace_ms")%list.

Definition ValidateWithSystemDefaults (system : SystemConfig) (document : TenantConfig) : list Diagnostic :=
  diagnose (ApplySystemDefaults system document).

Definition no_system : SystemConfig :=
  {| sys_TenantDefaults := {| tpd_AllowedDataRegions := []; tpd_ResidencyEnforcement := "" |};
     sys_FileMappingRetentionDays := 0 |}.

Definition Validate (document : TenantConfig) : list Diagnostic := ValidateWithSystemDefaults no_system document.

Definition ValidateForTenantWithSystemDefaults (system : SystemConfig) (document : TenantConfig) (tenantID : string) :
    list Diagnostic :=
  (ValidateWithSystemDefaults system document ++
   add (negb (same (tn_ID (doc_Tenant document)) tenantID)) "tenant_scope_mismatch" "/tenant/id")%list.

Definition ValidateForTenant (document : TenantConfig) (tenantID : string) : list Diagnostic :=
  ValidateForTenantWithSystemDefaults no_system document tenantID.

End Validator.

(** ** Compilation *)

Definition CompileGlobal (version publishedAt : Z) : GlobalRuntime :=
  NewGlobalRuntime version publishedAt ∅ {| DrainTimeoutMS := 0; StreamDrainTimeoutMS := 0; ForceShutdownTimeoutMS := 0 |}
    {| TTLMS := 0; StaleGraceMS := 0; RotationOverlapMS := 0 |}.

Definition CompileGlobalWithPeppers (version publishedAt : Z) (peppers : list PepperVersion) : GlobalRuntime :=
  NewGlobalRuntime version publishedAt
    (foldl (λ refs item, <[pep_Version item := pep_Ref item]> refs) ∅ peppers)
    {| DrainTimeoutMS := 0; StreamDrainTimeoutMS := 0; ForceShutdownTimeoutMS := 0 |}
    {| TTLMS := 0; StaleGraceMS := 0; RotationOverlapMS := 0 |}.

(** [ms / 1000] on non-negative [ms]. *)
Definition leaseTTLSeconds (ms : Z) : Z := if ms <=? 0 then 60 else if ms <? 1000 then 1 else ms / 1000.

Definition effectiveAgentRequireApproval (projects : gmap string Project) (agent : Agent) : bool :=
  if same (cag_ApprovalMode agent) "inherit_project" then
    match projects !! cag_ProjectID agent with Some project => cpj_RequireApproval project | None => false end
  else if same (cag_ApprovalMode agent) "always" then true
  else if same (cag_ApprovalMode agent) "never" then false
  else cag_RequireApproval agent.

Definition compile_project (p : Project) : Snapshot.Project :=
  {| pj_ID := cpj_ID p; pj_Status := cpj_Status p; pj_AllowedDataRegions := cpj_AllowedDataRegions p;
     pj_ResidencyEnforcement := cpj_ResidencyEnforcement p |}.
Definition compile_provider (p : Provider) : Snapshot.Provider :=
  {| pv_ID := cpv_ID p; pv_OwnerScope := cpv_OwnerScope p; pv_Type := cpv_Type p; pv_Endpoint := cpv_Endpoint p;
     pv_Status := cpv_Status p |}.
Definition compile_credential (c : Credential) : Snapshot.Credential :=
  {| cr_ID := ccr_ID c; cr_ProviderID := ccr_ProviderID c; cr_OwnerScope := ccr_OwnerScope c;
     cr_SecretRef := ccr_SecretRef c; cr_Status := ccr_Status c |}.
Definition compile_deployment (d : Deployment) : Snapshot.Deployment :=
  {| d_ID := cd_ID d; d_ProviderID := cd_ProviderID d; d_CredentialID := cd_CredentialID d;
     d_UpstreamModel := cd_UpstreamModel d; d_DataRegion := cd_DataRegion d; d_Status := cd_Status d;
     d_PoolID := cd_PoolID d; d_Capabilities := CanonicalCapabilities (cd_Capabilities d);
     d_ContextWindow := cd_ContextWindow d; d_Priority := cd_Priority d |}.
Definition compile_lease (d : Deployment) : option LeaseConfig :=
  if 0 <? cd_LeaseCapacity d
  then Some {| le_DeploymentID := cd_ID d; le_Capacity := cd_LeaseCapacity d; le_TTLSeconds := leaseTTLSeconds (cd_LeaseTTLMS d) |}
  else None.
Definition compile_budget (b : BudgetPolicy) : Snapshot.BudgetPolicy :=
  {| bp_ID := cbp_ID b; bp_TenantID := cbp_TenantID b; bp_ProjectID := cbp_ProjectID b; bp_KeyID := cbp_KeyID b;
     bp_WindowHours := cbp_WindowHours b; bp_TokenLimit := cbp_TokenLimit b; bp_Mode := cbp_Mode b;
     bp_Consistency := cbp_Consistency b |}.
Definition compile_pool (p : CredentialPool) : Snapshot.CredentialPool :=
  {| pl_ID := cpl_ID p; pl_ProviderID := cpl_ProviderID p; pl_TenantID := cpl_TenantID p; pl_Strategy := cpl_Strategy p;
     pl_Members := cpl_Members p |}.
Definition compile_server (s : MCPServer) : Snapshot.MCPServer :=
  {| ms_ID := cms_ID s; ms_URL := cms_URL s; ms_Status := cms_Status s |}.
Definition compile_tool (t : Tool) : Snapshot.Tool :=
  {| tl_ID := ctl_ID t; tl_ServerID := ctl_ServerID t; tl_Name := ctl_Name t;
     tl_DataClassification := ctl_DataClassification t; tl_Endpoint := ctl_Endpoint t; tl_Status := ctl_Status t;
     tl_Schema := ctl_Schema t; tl_CapabilityTags := ctl_CapabilityTags t |}.
Definition compile_tool_policy (t : ToolPolicy) : Snapshot.ToolPolicy :=
  {| tp_ToolID := ctp_ToolID t; tp_ProjectID := ctp_ProjectID t; tp_AllowedAgentIDs := ctp_AllowedAgentIDs t;
     tp_Allowed := ctp_Allowed t; tp_RequireApproval := ctp_RequireApproval t |}.
Definition compile_agent (projects : gmap string Project) (a : Agent) : Snapshot.Agent :=
  {| ag_ID := cag_ID a; ag_ProjectID := cag_ProjectID a; ag_Name := cag_Name a; ag_Status := cag_Status a;
     ag_CurrentVersion := cag_CurrentVersion a; ag_Capabilities := cag_Capabilities a;
     ag_RequireApproval := effectiveAgentRequireApproval projects a |}.
Definition compile_endpoint (e : AgentEndpoint) : Snapshot.AgentEndpoint :=
  {| ae_ID := cae_ID e; ae_AgentID := cae_AgentID e; ae_Version := cae_Version e; ae_URL := cae_URL e;
     ae_Protocol := cae_Protocol e; ae_AuthScheme := cae_AuthScheme e; ae_SecretRef := cae_SecretRef e;
     ae_Headers := cae_Headers e; ae_DataClassification := cae_DataClassification e;
     ae_Capabilities := cae_Capabilities e |}.
Definition compile_federated (f : FederatedAgent) : Snapshot.FederatedAgent :=
  {| fa_ID := cfa_ID f; fa_Name := cfa_Name f; fa_ExternalSubject := cfa_ExternalSubject f; fa_Status := cfa_Status f;
     fa_TrustBoundary := cfa_TrustBoundary f |}.
Definition compile_relationship (f : FederationRelationship) : Snapshot.FederationRelationship :=
  {| fr_ID := cfr_ID f; fr_ExternalAgentID := cfr_ExternalAgentID f; fr_Status := cfr_Status f;
     fr_AssuranceLevel := cfr_AssuranceLevel f; fr_HasVerifiedAnchor := cfr_HasVerifiedAnchor f;
     fr_Direction := cfr_Direction f; fr_ProjectGrants := cfr_ProjectGrants f;
     fr_CapabilityGrants := cfr_CapabilityGrants f; fr_BoundaryStatus := cfr_BoundaryStatus f;
     fr_ProcessingRegions := cfr_ProcessingRegions f; fr_ApprovedVersion := cfr_ApprovedVersion f |}.
Definition compile_route (r : RoutePolicy) : Snapshot.RoutePolicy :=
  {| rp_ID := crp_ID r; rp_ProjectID := crp_ProjectID r; rp_Strategy := crp_Strategy r;
     rp_DeploymentIDs := crp_DeploymentIDs r; rp_Weights := crp_Weights r; rp_ScoreWeights := crp_ScoreWeights r;
     rp_Version := crp_Version r |}.
Definition compile_model (l : LogicalModel) : Snapshot.LogicalModel :=
  {| lm_ID := clm_ID l; lm_Alias := clm_Alias l; lm_RoutePolicyID := clm_RoutePolicyID l |}.
Definition compile_guardrail (t : TenantResource) (g : GuardrailPolicy) : Snapshot.GuardrailPolicy :=
  {| gp_Mode := cgp_Mode g; gp_SecurityEpoch := tn_SecurityEpoch t; gp_Rules := cgp_Rules g; gp_Judge := cgp_Judge g;
     gp_Groundedness := cgp_Groundedness g |}.
Definition compile_key (k : KeyRecord) : APIKey :=
  {| ak_ID := rec_ID k; ak_PublicID := rec_PublicID k; ak_ProjectID := rec_ProjectID k;
     ak_ApplicationID := rec_ApplicationID k; ak_AgentID := rec_AgentID k; ak_ServiceAccountID := rec_ServiceAccountID k;
     ak_Status := rec_Status k; ak_HMACDigest := rec_HMACDigest k; ak_PepperVersion := rec_PepperVersion k;
     ak_ExpiresAt := rec_ExpiresAt k; ak_ModelAllowlist := rec_ModelAllowlist k; ak_IPAllowlist := rec_IPAllowlist k |}.

(** Every key belongs to the document's tenant and to one of its projects. *)
Fixpoint check_keys (d : TenantConfig) (keys : list KeyRecord) : option error :=
  match keys with
  | [] => None
  | item :: keys =>
      if negb (same (rec_TenantID item) (tn_ID (doc_Tenant d))) then Some (ErrNew "API key tenant scope mismatch")
      else if negb (existsb (λ p, same (cpj_ID p) (rec_ProjectID item)) (doc_Projects d))
      then Some (ErrNew "API key project scope mismatch")
      else check_keys d keys
  end.

Definition snapshot_data (d : TenantConfig) (version publishedAt : Z) (keys : list KeyRecord) : TenantSnapshotData :=
  let t := doc_Tenant d in
  let inherited := map (inheritTenantProjectPolicy t) (doc_Projects d) in
  let projects := collect cpj_ID id inherited in
  {| td_TenantID := tn_ID t; td_TenantRef := tn_PublicRef t; td_Status := tn_Status t; td_Version := version;
     td_SecurityEpoch := tn_SecurityEpoch t; td_PublishedAt := publishedAt;
     td_Projects := map compile_project inherited;
     td_Providers := map compile_provider (doc_Providers d);
     td_Credentials := map compile_credential (doc_Credentials d);
     td_Deployments := map compile_deployment (doc_Deployments d);
     td_RoutePolicies := map compile_route (doc_RoutePolicies d);
     td_LogicalModels := map compile_model (doc_LogicalModels d);
     td_APIKeys := map compile_key keys;
     td_BudgetPolicies := map compile_budget (doc_BudgetPolicies d);
     td_CredentialPools := map compile_pool (doc_CredentialPools d);
     td_Leases := omap compile_lease (doc_Deployments d);
     td_Circuit := doc_Circuit d;
     td_Drift := {| dm_Version := 0; dm_GraceMS := cdm_GraceMS (doc_Drift d); dm_Strict := cdm_Strict (doc_Drift d);
                    dm_SecurityEpoch := tn_SecurityEpoch t |};
     td_Spool := doc_AccountingSpool d; td_Cache := doc_Cache d;
     td_MCPServers := map compile_server (doc_MCPServers d);
     td_Tools := map compile_tool (doc_Tools d);
     td_ToolPolicies := map compile_tool_policy (doc_ToolPolicies d);
     td_Agents := map (compile_agent projects) (doc_Agents d);
     td_AgentEndpoints := map compile_endpoint (doc_AgentEndpoints d);
     td_FederatedAgents := map compile_federated (doc_FederatedAgents d);
     td_FederationRelationships := map compile_relationship (doc_FederationRelationships d);
     td_Guardrail := compile_guardrail t (doc_Guardrail d) |}.

Section Compiler.
Context `{!URLParser}.

Definition CompileWithSystemDefaultsAndAPIKeys (system : SystemConfig) (document : TenantConfig)
    (version publishedAt : Z) (keys : list KeyRecord) : result TenantRuntimeSnapshot :=
  let document := ApplySystemDefaults system document in
  if HasErrors (Validate document) then Err (ErrNew "config validation failed")
  else match check_keys document keys with
       | Some err => Err err
       | None => Ok (NewTenantSnapshot (snapshot_data document version publishedAt keys))
       end.

Definition CompileWithAPIKeys := CompileWithSystemDefaultsAndAPIKeys no_system.
Definition CompileWithSystemDefaults (system : SystemConfig) (document : TenantConfig) (version publishedAt : Z) :=
  CompileWithSystemDefaultsAndAPIKeys system document version publishedAt [].
Definition Compile (document : TenantConfig) (version publishedAt : Z) := CompileWithAPIKeys document version publishedAt [].

End Compiler.

(** ** Lemmas on diagnostics *)

(** Applying the empty defaults changes nothing, so validating a document that has its
    defaults validates the document itself. *)
Lemma no_system_defaults d : ApplySystemDefaults no_system d = d.
Proof.
  destruct d as [? [? ? ? ? regions residency] ? ? ? ? ? ? ? ? ? ? ? ? ? ? ? ? ? ? ? ?].
  unfold ApplySystemDefaults, with_tenant, with_policy. simpl. repeat f_equal; [by destruct regions|].
  by case_bool_decide.
Qed.

Lemma HasErrors_app a b : HasErrors (a ++ b) = false ↔ HasErrors a = false ∧ HasErrors b = false.
Proof. unfold HasErrors. rewrite existsb_app. apply orb_false_iff. Qed.

Lemma HasErrors_add c code path params : HasErrors (add_with c code path params) = false ↔ c = false.
Proof. destruct c; vm_compute; naive_solver. Qed.

Lemma same_spec a b : same a b = true ↔ a = b.
Proof. unfold same. apply bool_decide_eq_true. Qed.

Lemma same_refl a : same a a = true.
Proof. by apply same_spec. Qed.

Lemma same_spec_false a b : same a b = false ↔ a ≠ b.
Proof. unfold same. apply bool_decide_eq_false. Qed.

Lemma known_spec {B} (m : gmap string B) k : known m k = true ↔ is_Some (m !! k).
Proof. unfold known. apply bool_decide_eq_true. Qed.

Lemma each_ok {A} (check : nat → A → list Diagnostic) i items x :
  HasErrors (each check i items) = false → x ∈ items → ∃ j, HasErrors (check j x) = false.
Proof.
  revert i. induction items as [|y items IH]; intros i He Hx; [by apply elem_of_nil in Hx|].
  simpl in He. apply HasErrors_app in He as [Hy He]. apply elem_of_cons in Hx as [->|Hx]; eauto.
Qed.

Lemma each_unique_ok {A B} (id : A → string) (value : A → B) path check i seen items :
  HasErrors (each_unique id value path check i seen items) = false →
  (∀ x, x ∈ items → ∃ j, HasErrors (check j x) = false) ∧ NoDup (id <$> items) ∧
  (∀ x, x ∈ items → seen !! id x = None).
Proof.
  revert i seen. induction items as [|y items IH]; intros i seen; simpl.
  - intros _. split; [set_solver|]. split; [constructor|set_solver].
  - intros [Hd [Hy He]%HasErrors_app]%HasErrors_app. apply HasErrors_add in Hd. apply bool_decide_eq_false in Hd.
    destruct (IH _ _ He) as (Hc & Hn & Hs). split_and!.
    + intros x [->|Hx]%elem_of_cons; eauto.
    + constructor; [|done]. intros (x & Hid & Hx)%list_elem_of_fmap. specialize (Hs x Hx).
      rewrite <- Hid, lookup_insert_eq in Hs. done.
    + intros x [->|Hx]%elem_of_cons; [by apply eq_None_not_Some|]. specialize (Hs x Hx).
      rewrite lookup_insert in Hs. by case_decide.
Qed.

Lemma collect_snoc {A B} (id : A → string) (value : A → B) l x :
  collect id value (l ++ [x]) = <[id x := value x]> (collect id value l).
Proof. unfold collect. by rewrite foldl_app. Qed.

Lemma collect_map {A B C} (id : A → string) (value : A → B) (f : B → C) l :
  collect id (λ x, f (value x)) l = f <$> collect id value l.
Proof.
  induction l as [|x l IH] using rev_ind; [symmetry; apply (fmap_empty (M := gmap string))|]. by rewrite !collect_snoc, IH, fmap_insert.
Qed.

Lemma collect_lookup {A B} (id : A → string) (value : A → B) l k y :
  collect id value l !! k = Some y → ∃ x, x ∈ l ∧ id x = k ∧ value x = y.
Proof.
  induction l as [|x l IH] using rev_ind; [done|]. rewrite collect_snoc, lookup_insert. case_decide; set_solver.
Qed.

Lemma collect_in {A B} (id : A → string) (value : A → B) l x : x ∈ l → is_Some (collect id value l !! id x).
Proof.
  induction l as [|y l IH] using rev_ind; [by intros ?%elem_of_nil|].
  rewrite collect_snoc, lookup_insert. case_decide; [done|]. set_solver.
Qed.

Lemma collect_unique {A B} (id : A → string) (value : A → B) l x :
  NoDup (id <$> l) → x ∈ l → collect id value l !! id x = Some (value x).
Proof.
  intros Hn Hx. destruct (collect_in id value l x Hx) as [y Hy]. rewrite Hy.
  destruct (collect_lookup _ _ _ _ _ Hy) as (x' & Hx' & Hid & <-). f_equal. f_equal.
  apply list_elem_of_lookup in Hx as [i Hi], Hx' as [j Hj].
  assert (i = j) as -> by (eapply NoDup_lookup; [exact Hn|rewrite list_lookup_fmap, Hi; done|rewrite list_lookup_fmap, Hj; simpl; congruence]).
  congruence.
Qed.

Lemma index_map {A T} (key : T → string) (f : A → T) (l : list A) :
  index_by key (map f l) = collect (λ x, key (f x)) f l.
Proof.
  induction l as [|x l IH] using rev_ind; [done|]. rewrite map_app. cbn [map]. by rewrite index_by_snoc, collect_snoc, IH.
Qed.

(** ** What a compiled snapshot guarantees *)

(** Every reference between the resources of a snapshot resolves, and resolves within
    one provider; every route can route; strict residency holds. *)
Record coherent (s : TenantRuntimeSnapshot) : Prop := {
  coh_model : ∀ alias model, sn_logicalModels s !! alias = Some model →
    is_Some (sn_routePolicies s !! lm_RoutePolicyID model);
  coh_route : ∀ id route, sn_routePolicies s !! id = Some route →
    rp_Strategy route ∈ routeStrategies ∧
    (rp_ProjectID route ≠ "" → is_Some (sn_projects s !! rp_ProjectID route)) ∧
    (∀ dep, dep ∈ rp_DeploymentIDs route → is_Some (sn_deployments s !! dep)) ∧
    (∃ dep d, dep ∈ rp_DeploymentIDs route ∧ sn_deployments s !! dep = Some d ∧ d_Status d = "enabled");
  coh_residency : ∀ id route project dep d, sn_routePolicies s !! id = Some route →
    sn_projects s !! rp_ProjectID route = Some project → pj_ResidencyEnforcement project = "strict" →
    dep ∈ rp_DeploymentIDs route → sn_deployments s !! dep = Some d → d_DataRegion d ∈ pj_AllowedDataRegions project;
  coh_deployment : ∀ id d, sn_deployments s !! id = Some d →
    is_Some (sn_providers s !! d_ProviderID d) ∧
    (∃ c, sn_credentials s !! d_CredentialID d = Some c ∧ cr_ProviderID c = d_ProviderID d) ∧
    (d_PoolID d ≠ "" → ∃ pool, sn_credentialPools s !! d_PoolID d = Some pool ∧ pl_ProviderID pool = d_ProviderID d);
  coh_pool : ∀ id pool, sn_credentialPools s !! id = Some pool →
    pl_Members pool ≠ [] ∧
    ∀ member, member ∈ pl_Members pool → 0 <= pm_Weight member ∧
      ∃ c, sn_credentials s !! pm_CredentialID member = Some c ∧ cr_ProviderID c = pl_ProviderID pool;
  coh_key : ∀ id key, sn_apiKeys s !! id = Some key → is_Some (sn_projects s !! ak_ProjectID key) }.

Section Coherence.
Context `{!URLParser}.
Implicit Types (d : TenantConfig).

Local Ltac no_errors :=
  repeat match goal with
         | H : HasErrors (_ ++ _) = false |- _ => apply HasErrors_app in H as [? ?]
         | H : HasErrors (add _ _ _) = false |- _ => apply HasErrors_add in H
         | H : HasErrors (add_with _ _ _ _) = false |- _ => apply HasErrors_add in H
         | H : negb _ = false |- _ => apply negb_false_iff in H
         | H : same _ _ = true |- _ => apply same_spec in H
         | H : known _ _ = true |- _ => apply known_spec in H
         | H : among _ _ = true |- _ => apply bool_decide_eq_true in H
         end.

(** The maps the validator builds. *)
Definition projects_of d : gmap string Project :=
  collect cpj_ID (inheritTenantProjectPolicy (doc_Tenant d)) (doc_Projects d).
Definition providers_of d : gmap string Provider := collect cpv_ID id (doc_Providers d).
Definition credentials_of d : gmap string Credential := collect ccr_ID id (doc_Credentials d).
Definition deployments_of d : gmap string Deployment := collect cd_ID id (doc_Deployments d).
Definition routes_of d : gmap string RoutePolicy := collect crp_ID id (doc_RoutePolicies d).
Definition pools_of d : gmap string CredentialPool := collect cpl_ID id (doc_CredentialPools d).

(** What a document without errors satisfies, resource by resource. *)
Record accepted d : Prop := {
  acc_credential : ∀ c, c ∈ doc_Credentials d → is_Some (providers_of d !! ccr_ProviderID c);
  acc_deployment : ∀ x, x ∈ doc_Deployments d →
    is_Some (providers_of d !! cd_ProviderID x) ∧
    ∃ c, credentials_of d !! cd_CredentialID x = Some c ∧ ccr_ProviderID c = cd_ProviderID x;
  acc_pooled : ∀ x, x ∈ doc_Deployments d → cd_PoolID x ≠ "" →
    ∃ pool, poolByID d (cd_PoolID x) = Some pool ∧ cpl_ProviderID pool = cd_ProviderID x;
  acc_route : ∀ r, r ∈ doc_RoutePolicies d →
    crp_Strategy r ∈ routeStrategies ∧ (crp_ProjectID r ≠ "" → is_Some (projects_of d !! crp_ProjectID r)) ∧
    (∀ id, id ∈ crp_DeploymentIDs r → ∃ x, deployments_of d !! id = Some x ∧
       ∀ p, projects_of d !! crp_ProjectID r = Some p → cpj_ResidencyEnforcement p = "strict" →
         cd_DataRegion x ∈ cpj_AllowedDataRegions p) ∧
    (∃ id x, id ∈ crp_DeploymentIDs r ∧ deployments_of d !! id = Some x ∧ cd_Status x = "enabled");
  acc_model : ∀ m, m ∈ doc_LogicalModels d → is_Some (routes_of d !! clm_RoutePolicyID m);
  acc_pool : ∀ p, p ∈ doc_CredentialPools d → cpl_Members p ≠ [] ∧
    ∀ m, m ∈ cpl_Members p → 0 <= pm_Weight m ∧
      ∃ c, credentials_of d !! pm_CredentialID m = Some c ∧ ccr_ProviderID c = cpl_ProviderID p;
  acc_pools : NoDup (cpl_ID <$> doc_CredentialPools d) }.

Lemma check_candidate_ok projects deployments route path i id :
  HasErrors (check_candidate projects deployments route path i id) = false →
  ∃ x, deployments !! id = Some x ∧
    ∀ p, projects !! crp_ProjectID route = Some p → cpj_ResidencyEnforcement p = "strict" →
      cd_DataRegion x ∈ cpj_AllowedDataRegions p.
Proof.
  unfold check_candidate. destruct (deployments !! id) as [x|]; [|done]. intros He. exists x. split; [done|].
  intros p Hp Hs. rewrite Hp in He. no_errors. rewrite (proj2 (same_spec _ _) Hs) in He. simpl in He. by no_errors.
Qed.

Lemma check_route_ok tenant projects deployments i r :
  HasErrors (check_route tenant projects deployments i r) = false →
  crp_Strategy r ∈ routeStrategies ∧ (crp_ProjectID r ≠ "" → is_Some (projects !! crp_ProjectID r)) ∧
  (∀ id, id ∈ crp_DeploymentIDs r → ∃ x, deployments !! id = Some x ∧
     ∀ p, projects !! crp_ProjectID r = Some p → cpj_ResidencyEnforcement p = "strict" →
       cd_DataRegion x ∈ cpj_AllowedDataRegions p) ∧
  (∃ id x, id ∈ crp_DeploymentIDs r ∧ deployments !! id = Some x ∧ cd_Status x = "enabled").
Proof.
  unfold check_route. rewrite !HasErrors_app. intros (Ht & Hp & Hs & Hc & He). no_errors. split_and!; [done| | |].
  - intros Hne. apply andb_false_iff in Hp as [Hp|Hp]; by no_errors.
  - intros id Hid. destruct (each_ok _ _ _ _ Hc Hid) as [j Hj]. by apply check_candidate_ok in Hj.
  - apply existsb_exists in He as (id & Hin & Hel). rewrite <- list_elem_of_In in Hin. unfold eligible in Hel.
    destruct (deployments !! id) as [x|] eqn:Hx; [|done]. apply same_spec in Hel. eauto 10.
Qed.

Lemma check_models_ok tenant routes i ids aliases items m :
  HasErrors (check_models tenant routes i ids aliases items) = false → m ∈ items →
  is_Some (routes !! clm_RoutePolicyID m).
Proof.
  revert i ids aliases. induction items as [|x items IH]; intros i ids aliases He Hm; [by apply elem_of_nil in Hm|].
  simpl in He. no_errors. apply elem_of_cons in Hm as [->|Hm]; eauto.
Qed.

Lemma check_pool_ok tenant providers credentials i p :
  (∀ k v, providers !! k = Some v → cpv_ID v = k) →
  HasErrors (check_pool tenant providers credentials i p) = false →
  cpl_Members p ≠ [] ∧ ∀ m, m ∈ cpl_Members p → 0 <= pm_Weight m ∧
    ∃ c, credentials !! pm_CredentialID m = Some c ∧ ccr_ProviderID c = cpl_ProviderID p.
Proof.
  unfold check_pool. rewrite !HasErrors_app. intros Hid (Ht & Hs & Hp & Hc & He). no_errors. split; [by destruct (cpl_Members p)|].
  intros m Hm. destruct (each_ok _ _ _ _ Hc Hm) as [j Hj]. unfold check_member in Hj.
  destruct (credentials !! pm_CredentialID m) as [c|]; [|done]. destruct Hp as [v Hv]. rewrite Hv in Hj.
  apply HasErrors_app in Hj as [Hv' Hw]. no_errors. apply Z.ltb_ge in Hw. split; [lia|]. exists c. split; [done|].
  rewrite Hv'. by apply Hid.
Qed.

Lemma check_deployment_ok tenant providers credentials i x :
  HasErrors (check_deployment tenant providers credentials i x) = false →
  is_Some (providers !! cd_ProviderID x) ∧ ∃ c, credentials !! cd_CredentialID x = Some c ∧ ccr_ProviderID c = cd_ProviderID x.
Proof.
  unfold check_deployment. rewrite !HasErrors_app. intros (Ht & Hp & Hc). no_errors. split; [done|].
  destruct (credentials !! cd_CredentialID x) as [c|]; [|done]. no_errors. eauto.
Qed.

Lemma check_deployment_pool_ok d i x :
  HasErrors (check_deployment_pool d i x) = false → cd_PoolID x ≠ "" →
  ∃ pool, poolByID d (cd_PoolID x) = Some pool ∧ cpl_ProviderID pool = cd_ProviderID x.
Proof.
  unfold check_deployment_pool. intros He Hp. destruct (same _ _) eqn:Hs in He; [by apply same_spec in Hs|].
  destruct (poolByID d _) as [pool|]; [|done]. apply HasErrors_app in He as [_ He]. no_errors. eauto.
Qed.

Lemma diagnose_accepted d : HasErrors (diagnose d) = false → accepted d.
Proof.
  unfold diagnose. rewrite !HasErrors_app.
  intros (_ & _ & _ & _ & Hcr & Hd & Hr & Hm & _ & _ & _ & _ & _ & _ & _ & _ & _ & _ & _ & Hpl & Hdp & _ & _).
  apply each_unique_ok in Hcr as (Hcr & _), Hd as (Hd & _), Hr as (Hr & _), Hpl as (Hpl & Hnd & _).
  split; [| | | | | |done].
  - intros c Hc. destruct (Hcr c Hc) as [j Hj]. apply HasErrors_app in Hj as [Hj _].
    fold (providers_of d) in Hj. by destruct (providers_of d !! ccr_ProviderID c).
  - intros x Hx. destruct (Hd x Hx) as [j Hj]. by apply check_deployment_ok in Hj.
  - intros x Hx Hne. destruct (each_ok _ _ _ _ Hdp Hx) as [j Hj]. by apply (check_deployment_pool_ok _ j).
  - intros r Hin. destruct (Hr r Hin) as [j Hj]. by apply check_route_ok in Hj.
  - intros m Hin. by eapply check_models_ok.
  - intros p Hin. destruct (Hpl p Hin) as [j Hj]. apply check_pool_ok in Hj; [done|].
    intros k v (x & _ & <- & <-)%collect_lookup. done.
Qed.

(** The snapshot's indexes are the validator's maps, compiled. *)
Lemma snapshot_maps d version at_ keys :
  let s := NewTenantSnapshot (snapshot_data d version at_ keys) in
  sn_projects s = compile_project <$> projects_of d ∧ sn_providers s = compile_provider <$> providers_of d ∧
  sn_credentials s = compile_credential <$> credentials_of d ∧ sn_deployments s = compile_deployment <$> deployments_of d ∧
  sn_routePolicies s = compile_route <$> routes_of d ∧ sn_credentialPools s = compile_pool <$> pools_of d.
Proof.
  simpl. rewrite map_map, !index_map.
  unfold projects_of, providers_of, credentials_of, deployments_of, routes_of, pools_of.
  rewrite <- !collect_map. done.
Qed.

Lemma poolByID_lookup d id pool :
  NoDup (cpl_ID <$> doc_CredentialPools d) → poolByID d id = Some pool → pools_of d !! id = Some pool.
Proof.
  unfold poolByID. intros Hn (q & Hq & ->)%fmap_Some. destruct q as [i p].
  apply list_find_Some in Hq as (Hi & <- & _). simpl. apply (collect_unique cpl_ID Datatypes.id); [done|].
  by eapply list_elem_of_lookup_2.
Qed.

Lemma check_keys_ok d keys k :
  check_keys d keys = None → k ∈ keys → is_Some (projects_of d !! rec_ProjectID k).
Proof.
  induction keys as [|x keys IH]; intros He Hk; [by apply elem_of_nil in Hk|]. simpl in He.
  destruct (same _ _); [|done]. simpl in He. destruct (existsb _ _) eqn:Hx; [|done]. simpl in He.
  apply elem_of_cons in Hk as [->|Hk]; [|by apply IH]. apply existsb_exists in Hx as (p & Hp & Hs).
  apply same_spec in Hs. rewrite <- Hs. rewrite <- list_elem_of_In in Hp. by apply collect_in.
Qed.

Lemma accepted_coherent d version at_ keys :
  accepted d → check_keys d keys = None → coherent (NewTenantSnapshot (snapshot_data d version at_ keys)).
Proof.
  intros [Hcr Hd Hpd Hr Hm Hp Hnd] Hk.
  destruct (snapshot_maps d version at_ keys) as (Epj & Epv & Ecr & Ed & Er & Epl).
  split; rewrite ?Epj, ?Epv, ?Ecr, ?Ed, ?Er, ?Epl; clear Epj Epv Ecr Ed Er Epl.
  - intros alias model [Hin _]%index_by_lookup. apply list_elem_of_fmap in Hin as (m & -> & Hin).
    rewrite lookup_fmap, fmap_is_Some. by apply Hm.
  - intros id route Hl. rewrite lookup_fmap in Hl. apply fmap_Some in Hl as (r & (x & Hin & _ & <-)%collect_lookup & ->).
    destruct (Hr x Hin) as (Hs & Hpj & Hdeps & (dep & y & Hy & Hl & He)). split_and!; [done| | |].
    + intros Hne. rewrite lookup_fmap, fmap_is_Some. by apply Hpj.
    + intros dep' Hdep. rewrite lookup_fmap, fmap_is_Some. destruct (Hdeps dep' Hdep) as (z & Hz & _). by eexists.
    + exists dep, (compile_deployment y). rewrite lookup_fmap, Hl. done.
  - intros id route project dep x Hl. rewrite lookup_fmap in Hl.
    apply fmap_Some in Hl as (r & (r' & Hin & _ & <-)%collect_lookup & ->).
    rewrite !lookup_fmap. intros (p & Hpl & ->)%fmap_Some Hs Hdep (y & Hy & ->)%fmap_Some.
    destruct (Hr r' Hin) as (_ & _ & Hdeps & _). destruct (Hdeps dep Hdep) as (z & Hz & Hres).
    rewrite Hz in Hy. injection Hy as ->. by apply Hres.
  - intros id x Hl. rewrite lookup_fmap in Hl. apply fmap_Some in Hl as (y & (y' & Hin & _ & <-)%collect_lookup & ->).
    destruct (Hd y' Hin) as (Hpv & c & Hc & Hcp). split_and!.
    + rewrite lookup_fmap, fmap_is_Some. done.
    + exists (compile_credential c). split; [|done]. rewrite lookup_fmap. by apply fmap_Some_2.
    + intros Hne. destruct (Hpd y' Hin Hne) as (pool & Hpool & Hpp). exists (compile_pool pool).
      split; [|done]. rewrite lookup_fmap. by apply fmap_Some_2, poolByID_lookup.
  - intros id pool Hl. rewrite lookup_fmap in Hl. apply fmap_Some in Hl as (p & (p' & Hin & _ & <-)%collect_lookup & ->).
    destruct (Hp p' Hin) as [Hne Hmem]. split; [done|]. intros m Hm'. destruct (Hmem m Hm') as (Hw & c & Hc & Hcp).
    split; [done|]. exists (compile_credential c). by rewrite lookup_fmap, Hc.
  - intros id key [Hin _]%index_by_lookup. apply list_elem_of_fmap in Hin as (k & -> & Hin).
    rewrite lookup_fmap, fmap_is_Some. by eapply check_keys_ok.
Qed.

Lemma compiled_coherent system document version at_ keys s :
  CompileWithSystemDefaultsAndAPIKeys system document version at_ keys = Ok s → coherent s.
Proof.
  unfold CompileWithSystemDefaultsAndAPIKeys. destruct (HasErrors _) eqn:He; [done|].
  destruct (check_keys _ keys) eqn:Hk; [done|]. intros [= <-].
  apply accepted_coherent; [|done]. apply diagnose_accepted.
  revert He. unfold Validate, ValidateWithSystemDefaults. by rewrite no_system_defaults.
Qed.

(** C9: Published configuration is coherent.  Every snapshot the compiler produces is
    closed: logical models lead to route policies, these to existing deployments of
    which one at least is enabled, deployments to their provider, to a credential of
    that provider and to a pool of it, pools to credentials of their provider with
    non-negative weights, and keys to projects; the strategies are known ones and a
    project with strict residency routes only to its regions. *)
Theorem compiled_snapshot_is_coherent system document version at_ keys s :
  CompileWithSystemDefaultsAndAPIKeys system document version at_ keys = Ok s → coherent s.
Proof. apply compiled_coherent. Qed.

End Coherence.

(** ** Capabilities *)

#[local] Opaque NormalizeCapability.

Lemma canonical_spec seen values v :
  v ∈ canonical_from seen values ↔ v ≠ "" ∧ v ∉ seen ∧ ∃ raw, raw ∈ values ∧ NormalizeCapability raw = v.
Proof.
  revert seen. induction values as [|raw values IH]; intros seen; cbn [canonical_from].
  { split; [by intros ?%elem_of_nil|]. by intros (_ & _ & ? & ?%elem_of_nil & _). }
  assert ((∃ x, x ∈ raw :: values ∧ NormalizeCapability x = v) ↔
    v = NormalizeCapability raw ∨ ∃ x, x ∈ values ∧ NormalizeCapability x = v) as ->.
  { split; [intros (x & [->|Hx]%elem_of_cons & <-); eauto|].
    intros [-> | (x & Hx & <-)]; eexists; (split; [|reflexivity]); apply elem_of_cons; auto. }
  specialize (IH seen) as IHs. specialize (IH (NormalizeCapability raw :: seen)). rewrite not_elem_of_cons in IH.
  revert IH IHs. generalize (NormalizeCapability raw). intros r. generalize (∃ x, x ∈ values ∧ NormalizeCapability x = v).
  intros P IH IHs. destruct (bool_decide_reflect (r = "")), (bool_decide_reflect (r ∈ seen)); cbn [orb];
    rewrite ?elem_of_cons, ?IH, ?IHs; destruct (decide (v = r)); subst; tauto.
Qed.

Lemma canonical_NoDup seen values : NoDup (canonical_from seen values).
Proof.
  revert seen. induction values as [|raw values IH]; intros seen; cbn [canonical_from]; [constructor|].
  destruct (_ || _); [done|]. constructor; [|done]. rewrite canonical_spec, not_elem_of_cons. naive_solver.
Qed.

(** The compiled list answers every question about a capability the way
    [HasCapability] answers it on the document's list, and lists each one once. *)
Theorem canonical_capabilities_exact values want :
  NoDup (CanonicalCapabilities values) ∧
  (NormalizeCapability want ≠ "" →
   HasCapability values want = bool_decide (NormalizeCapability want ∈ CanonicalCapabilities values)).
Proof.
  split; [apply canonical_NoDup|]. intros Hne. apply Bool.eq_iff_eq_true. unfold HasCapability, CanonicalCapabilities.
  rewrite bool_decide_eq_true, canonical_spec, existsb_exists.
  setoid_rewrite <- list_elem_of_In. setoid_rewrite bool_decide_eq_true. split; [|naive_solver].
  intros (raw & Hin & He). split; [done|]. split; [apply not_elem_of_nil|]. eauto.
Qed.

#[local] Transparent NormalizeCapability.

Example capability_aliases :
  CanonicalCapabilities ["Chat "; "vlm"; ""; "IMAGE"; "function-calling"; "chat"] = ["chat"; "vision"; "tools"] ∧
  InferCapabilities "gpt-4o-mini" = ["chat"; "vision"] ∧ InferCapabilities "bge-large" = ["embedding"] ∧
  InferCapabilities "o3-pro" = ["chat"; "reasoning"].
Proof. vm_compute. done. Qed.

(** ** A document for the witnesses *)

(** URLs of the form scheme://host. *)
#[local] Instance plain_urls : URLParser := {
  url_Parse s := match break_at (Ascii.ascii_of_nat 58) s with
                 | Some (scheme, rest) =>
                     Ok {| url_Scheme := scheme; url_User := false; url_Host := String.substring 2 (String.length rest) rest;
                           url_Opaque := ""; url_Path := "" |}
                 | None => Ok {| url_Scheme := ""; url_User := false; url_Host := ""; url_Opaque := ""; url_Path := s |}
                 end }.

Definition example_document (ref region : string) : TenantConfig :=
  {| doc_SchemaVersion := "v1";
     doc_Tenant := {| tn_ID := "t"; tn_PublicRef := ref; tn_Status := "active"; tn_SecurityEpoch := 1;
                      tn_AllowedDataRegions := ["eu"]; tn_ResidencyEnforcement := "strict" |};
     doc_Projects := [{| cpj_ID := "proj"; cpj_TenantID := "t"; cpj_Status := "active"; cpj_AllowedDataRegions := [];
                         cpj_ResidencyEnforcement := ""; cpj_RequireApproval := false |}];
     doc_Providers := [{| cpv_ID := "pv"; cpv_TenantID := "t"; cpv_OwnerScope := "TENANT_PRIVATE"; cpv_Type := "openai";
                          cpv_Endpoint := "https://api.example.com"; cpv_Status := "enabled" |}];
     doc_Credentials := [{| ccr_ID := "cr"; ccr_ProviderID := "pv"; ccr_TenantID := "t"; ccr_OwnerScope := "TENANT_PRIVATE";
                            ccr_SecretRef := "vault://cr"; ccr_Status := "enabled" |}];
     doc_Deployments := [{| cd_ID := "d1"; cd_TenantID := "t"; cd_ProviderID := "pv"; cd_CredentialID := "cr";
                            cd_PoolID := "pl"; cd_UpstreamModel := "m"; cd_DataRegion := region;
                            cd_Capabilities := ["Chat"]; cd_ContextWindow := 8000; cd_Priority := 1;
                            cd_LeaseCapacity := 2; cd_LeaseTTLMS := 1500; cd_Status := "enabled" |}];
     doc_RoutePolicies := [{| crp_ID := "rp"; crp_TenantID := "t"; crp_ProjectID := "proj"; crp_Strategy := "priority";
                              crp_DeploymentIDs := ["d1"]; crp_Weights := ∅; crp_ScoreWeights := ∅; crp_Version := 1 |}];
     doc_LogicalModels := [{| clm_ID := "lm"; clm_TenantID := "t"; clm_Alias := "gpt"; clm_RoutePolicyID := "rp" |}];
     doc_BudgetPolicies := [];
     doc_CredentialPools := [{| cpl_ID := "pl"; cpl_TenantID := "t"; cpl_ProviderID := "pv"; cpl_Strategy := "round_robin";
                                cpl_Members := [{| pm_CredentialID := "cr"; pm_Weight := 1 |}] |}];
     doc_Circuit := {| cc_MinSamples := 0; cc_ErrorRate := f64_zero; cc_InitialCooldownMS := 0; cc_MaxCooldownMS := 0;
                       cc_CooldownFactor := f64_zero |};
     doc_Drift := {| cdm_GraceMS := 0; cdm_Strict := false; cdm_SecurityEpoch := 0 |};
     doc_AccountingSpool := {| sp_Mode := ""; sp_WarnThreshold := f64_zero; sp_CriticalThreshold := f64_zero;
                               sp_HardThreshold := f64_zero; sp_QuotaBytes := 0 |};
     doc_Cache := no_cache; doc_MCPServers := []; doc_Tools := []; doc_ToolPolicies := []; doc_Agents := [];
     doc_AgentEndpoints := []; doc_FederatedAgents := []; doc_FederationRelationships := [];
     doc_Guardrail := {| cgp_Mode := "enforce"; cgp_Rules := [];
                         cgp_Judge := {| gj_Enabled := true; gj_Model := "gpt"; gj_Action := "block" |};
                         cgp_Groundedness := {| gg_Enabled := false; gg_MinOverlap := f64_zero |} |} |}.

(** The inherited strict residency refuses the same document with a foreign region. *)
Example foreign_region_refused :
  map dg_Code (Validate (example_document "acme" "us")) = ["data_residency_violation"] ∧
  map dg_Path (Validate (example_document "acme" "us")) = ["/route_policies/0/deployment_ids/0"] ∧
  Validate (example_document "acme" "eu") = [].
Proof. vm_compute. done. Qed.

Lemma compiled_snapshot_is_coherent_witness :
  match Compile (example_document "acme" "eu") 3 1000 with
  | Ok s => coherent s ∧ sn_Version s = 3
  | Err _ => False
  end.
Proof.
  destruct (Compile (example_document "acme" "eu") 3 1000) as [s|e] eqn:Hc; [|vm_compute in Hc; discriminate].
  split.
  - apply (compiled_snapshot_is_coherent no_system (example_document "acme" "eu") 3 1000 []). exact Hc.
  - vm_compute in Hc. injection Hc as <-. reflexivity.
Defined.
