(* ===== verification/ConfigService.v ===== *)
(** * Publishing configuration

    controlplane/config/service.go and drift.go over the tables of
    platform/storage/sqlrepo/config.go and systemconfig.go: drafts, the version
    history, publication, rollback, reconciliation and the guardrail overlay.

    The world is the database with its faults (as in ApiKey.v), the configuration
    tables, the active registry and the random source.  A transaction that does not
    commit leaves the tables as they were.  The snapshots handed to the last-known-good
    and bundle hooks, whose errors the service ignores, are a log.  The JSON of a
    document is an interface, and so is what a time column keeps of a time. *)

From S2P Require Import Prelude GoFloat GoStd Snapshot ApiKey Egress Config.

Open Scope string_scope.
Open Scope Z_scope.

(** ** Rows *)

Class DocumentJSON := {
  marshal_document : TenantConfig → result string; unmarshal_document : string → result TenantConfig;
  marshal_system : SystemConfig → result string; unmarshal_system : string → result SystemConfig }.

(** What a TIMESTAMPTZ column gives back of a time that was written to it: PostgreSQL
    keeps microseconds, SQLite keeps what the driver wrote. *)
Class TimeColumn := { column_time : Z → Z }.

Definition postgres_time : TimeColumn := {| column_time t := t - t mod 1000 |}.
Definition sqlite_time : TimeColumn := {| column_time t := t |}.

Record DraftRow := {
  dr_ID : string; dr_TenantID : string; dr_BaseVersion : Z; dr_Revision : Z; dr_Status : string; dr_Changes : string;
  dr_CreatedBy : string; dr_UpdatedBy : string; dr_CreatedAt : Z; dr_UpdatedAt : Z }.

Record VersionRow := {
  vr_ID : string; vr_TenantID : string; vr_Version : Z; vr_SourceDraftID : option string; vr_Compiled : string;
  vr_PublishedBy : string; vr_PublishedAt : Z }.

Record AuditRow := {
  au_ID : string; au_TenantID : string; au_ActorID : string; au_Action : string; au_ResourceID : string;
  au_Version : Z; au_OccurredAt : Z }.

Record Tables := {
  tb_drafts : list DraftRow; tb_versions : list VersionRow; tb_audit : list AuditRow; tb_system : option string }.

Record Draft := {
  df_ID : string; df_TenantID : string; df_BaseVersion : Z; df_Revision : Z; df_Status : string; df_Config : TenantConfig;
  df_CreatedBy : string; df_UpdatedBy : string; df_CreatedAt : Z; df_UpdatedAt : Z }.

Record Version := {
  ve_ID : string; ve_TenantID : string; ve_Version : Z; ve_SourceDraftID : string; ve_Config : TenantConfig;
  ve_PublishedBy : string; ve_PublishedAt : Z }.

Definition ErrDraftNotFound : error := ErrNew "config draft not found".
Definition ErrVersionNotFound : error := ErrNew "config version not found".
Definition ErrRevisionConflict : error := ErrNew "config draft revision conflict".
Definition ErrNoPublishedVersion : error := ErrNew "no published config version to base a draft on".

(** ** The world and its statements *)

Record CWorld (R : Type) := {
  cw_db : DB; cw_tables : Tables; cw_registry : ActiveRegistry; cw_rng : R; cw_delivered : list TenantRuntimeSnapshot }.
Arguments cw_db {R}. Arguments cw_tables {R}. Arguments cw_registry {R}. Arguments cw_rng {R}.
Arguments cw_delivered {R}.

Section Service.
Context {R : Type} `{!Reader R} `{!DocumentJSON} `{!TimeColumn} `{!StringsJSON} `{!URLParser}.
Implicit Types (w : CWorld R).

Definition set_db w (db : DB) : CWorld R :=
  {| cw_db := db; cw_tables := cw_tables w; cw_registry := cw_registry w; cw_rng := cw_rng w;
     cw_delivered := cw_delivered w |}.
Definition set_tables w (t : Tables) : CWorld R :=
  {| cw_db := cw_db w; cw_tables := t; cw_registry := cw_registry w; cw_rng := cw_rng w;
     cw_delivered := cw_delivered w |}.
Definition set_rng w (g : R) : CWorld R :=
  {| cw_db := cw_db w; cw_tables := cw_tables w; cw_registry := cw_registry w; cw_rng := g;
     cw_delivered := cw_delivered w |}.

(** The next statement's fault, if there is one. *)
Definition next_fault w : option error * CWorld R :=
  match db_faults (cw_db w) with
  | [] => (None, w)
  | f :: rest => (f, set_db w (with_faults (cw_db w) rest))
  end.

(** A query, and a statement that changes the tables. *)
Definition query {A} w (read : Tables → result A) : result A * CWorld R :=
  match next_fault w with
  | (Some err, w) => (Err err, w)
  | (None, w) => (read (cw_tables w), w)
  end.

Definition execute {A} w (run : Tables → result A * Tables) : result A * CWorld R :=
  match next_fault w with
  | (Some err, w) => (Err err, w)
  | (None, w) => let '(r, t) := run (cw_tables w) in (r, set_tables w t)
  end.

(** [BeginTx], the statements, [Commit]; [defer tx.Rollback()] on every other path. *)
Definition transaction {A} w (body : CWorld R → result A * CWorld R) : result A * CWorld R :=
  match next_fault w with
  | (Some err, w) => (Err err, w)
  | (None, w) =>
      let before := cw_tables w in
      match body w with
      | (Err err, w) => (Err err, set_tables w before)
      | (Ok a, w) => match next_fault w with
                     | (Some err, w) => (Err err, set_tables w before)
                     | (None, w) => (Ok a, w)
                     end
      end
  end.

(** Sequencing of fallible effects. *)
Definition bind {A B} (r : result A * CWorld R) (k : A → CWorld R → result B * CWorld R) : result B * CWorld R :=
  match r with (Ok a, w) => k a w | (Err err, w) => (Err err, w) end.
Notation "'do' x ⇐ r ; w ; k" := (bind r (λ x w, k)) (at level 200, x name, w name, r at level 100, k at level 200).

Definition wrap_error {A} (msg : string) (r : result A * CWorld R) : result A * CWorld R :=
  match r with (Err err, w) => (Err (ErrWrap msg err), w) | ok => ok end.

Definition valid_scope {B} (scope : string) w (k : CWorld R → result B * CWorld R) : result B * CWorld R :=
  if same scope "" then (Err ErrInvalidScope, w) else k w.

Definition new_id w : result string * CWorld R := let '(r, g) := id_New (cw_rng w) in (r, set_rng w g).

Definition list_keys w (scope : string) : result (list KeyRecord) * CWorld R :=
  let '(r, db) := ListActive (cw_db w) scope in (r, set_db w db).

(** ** The repository *)

Definition draft_of (row : DraftRow) (document : TenantConfig) : Draft :=
  {| df_ID := dr_ID row; df_TenantID := dr_TenantID row; df_BaseVersion := dr_BaseVersion row;
     df_Revision := dr_Revision row; df_Status := dr_Status row; df_Config := document;
     df_CreatedBy := dr_CreatedBy row; df_UpdatedBy := dr_UpdatedBy row; df_CreatedAt := column_time (dr_CreatedAt row);
     df_UpdatedAt := column_time (dr_UpdatedAt row) |}.

Definition decode_draft (msg : string) (row : DraftRow) : result Draft :=
  match unmarshal_document (dr_Changes row) with Ok document => Ok (draft_of row document) | Err err => Err (ErrWrap msg err) end.

Definition decodeVersion (row : VersionRow) : result Version :=
  match unmarshal_document (vr_Compiled row) with
  | Ok document =>
      Ok {| ve_ID := vr_ID row; ve_TenantID := vr_TenantID row; ve_Version := vr_Version row;
            ve_SourceDraftID := default "" (vr_SourceDraftID row); ve_Config := document;
            ve_PublishedBy := vr_PublishedBy row; ve_PublishedAt := vr_PublishedAt row |}
  | Err err => Err err
  end.

(** The row as a later query scans it; the rows of the tables hold what was written. *)
Definition scanned (row : VersionRow) : VersionRow :=
  {| vr_ID := vr_ID row; vr_TenantID := vr_TenantID row; vr_Version := vr_Version row; vr_SourceDraftID := vr_SourceDraftID row;
     vr_Compiled := vr_Compiled row; vr_PublishedBy := vr_PublishedBy row; vr_PublishedAt := column_time (vr_PublishedAt row) |}.

Definition readVersion (row : VersionRow) : result Version := decodeVersion (scanned row).

Fixpoint decode_all {X Y} (decode : X → result Y) (rows : list X) : result (list Y) :=
  match rows with
  | [] => Ok []
  | row :: rows =>
      match decode row with
      | Err err => Err err
      | Ok item => match decode_all decode rows with Err err => Err err | Ok items => Ok (item :: items) end
      end
  end.

Definition with_drafts (t : Tables) (drafts : list DraftRow) : Tables :=
  {| tb_drafts := drafts; tb_versions := tb_versions t; tb_audit := tb_audit t; tb_system := tb_system t |}.
Definition with_versions (t : Tables) (versions : list VersionRow) : Tables :=
  {| tb_drafts := tb_drafts t; tb_versions := versions; tb_audit := tb_audit t; tb_system := tb_system t |}.
Definition with_audit (t : Tables) (audit : list AuditRow) : Tables :=
  {| tb_drafts := tb_drafts t; tb_versions := tb_versions t; tb_audit := audit; tb_system := tb_system t |}.

Definition constraint : error := ErrNew "constraint failed".

Definition insert_draft (row : DraftRow) (t : Tables) : result unit * Tables :=
  if existsb (λ r, same (dr_ID r) (dr_ID row)) (tb_drafts t) then (Err constraint, t)
  else (Ok tt, with_drafts t (tb_drafts t ++ [row])%list).

Definition repo_CreateDraft w (scope : string) (draft : Draft) : result unit * CWorld R :=
  valid_scope scope w (λ w,
    if negb (same (df_TenantID draft) scope) then (Err ErrScopeMismatch, w)
    else match marshal_document (df_Config draft) with
         | Err err => (Err (ErrWrap "encode config draft" err), w)
         | Ok data =>
             wrap_error "create config draft" (execute w (insert_draft
               {| dr_ID := df_ID draft; dr_TenantID := df_TenantID draft; dr_BaseVersion := df_BaseVersion draft;
                  dr_Revision := df_Revision draft; dr_Status := df_Status draft; dr_Changes := data;
                  dr_CreatedBy := df_CreatedBy draft; dr_UpdatedBy := df_UpdatedBy draft;
                  dr_CreatedAt := df_CreatedAt draft; dr_UpdatedAt := df_UpdatedAt draft |}))
         end).

Definition draft_is (scope id : string) (row : DraftRow) : bool := same (dr_TenantID row) scope && same (dr_ID row) id.

Definition select_draft (scope id : string) (t : Tables) : option DraftRow :=
  snd <$> list_find (λ row, draft_is scope id row) (tb_drafts t).

Definition GetDraft w (scope id : string) : result Draft * CWorld R :=
  valid_scope scope w (λ w,
    do found ⇐ wrap_error "get config draft" (query w (λ t, Ok (select_draft scope id t))); w;
    (match found with
     | None => Err ErrDraftNotFound
     | Some row => decode_draft "decode config draft" row
     end, w)).

Definition newest_first (a b : DraftRow) : Prop := column_time (dr_UpdatedAt b) <= column_time (dr_UpdatedAt a).
#[export] Instance newest_first_dec : RelDecision newest_first.
Proof. intros a b. unfold newest_first. apply _. Defined.

Definition ListDrafts w (scope : string) : result (list Draft) * CWorld R :=
  valid_scope scope w (λ w,
    query w (λ t, decode_all (λ row, decode_draft ("decode config draft " +:+ dr_ID row) row)
                    (merge_sort newest_first (filter (λ row, dr_TenantID row = scope) (tb_drafts t))))).

(** The condition of the UPDATE statements: the draft, its revision, still editing. *)
Definition claimable (scope id : string) (revision : Z) (row : DraftRow) : bool :=
  draft_is scope id row && (dr_Revision row =? revision) && same (dr_Status row) "editing".

Definition edit_row (data actor : string) (now : Z) (row : DraftRow) : DraftRow :=
  {| dr_ID := dr_ID row; dr_TenantID := dr_TenantID row; dr_BaseVersion := dr_BaseVersion row;
     dr_Revision := dr_Revision row + 1; dr_Status := dr_Status row; dr_Changes := data;
     dr_CreatedBy := dr_CreatedBy row; dr_UpdatedBy := actor; dr_CreatedAt := dr_CreatedAt row; dr_UpdatedAt := now |}.

Definition claim_row (actor : string) (now : Z) (row : DraftRow) : DraftRow :=
  {| dr_ID := dr_ID row; dr_TenantID := dr_TenantID row; dr_BaseVersion := dr_BaseVersion row;
     dr_Revision := dr_Revision row; dr_Status := "published"; dr_Changes := dr_Changes row;
     dr_CreatedBy := dr_CreatedBy row; dr_UpdatedBy := actor; dr_CreatedAt := dr_CreatedAt row; dr_UpdatedAt := now |}.

(** UPDATE config_drafts ... WHERE: the number of rows and the new table. *)
Definition update_drafts (condition : DraftRow → bool) (change : DraftRow → DraftRow) (t : Tables) : result nat * Tables :=
  (Ok (length (filter condition (tb_drafts t))),
   with_drafts t (map (λ row, if condition row then change row else row) (tb_drafts t))).

Definition UpdateDraft w (scope id : string) (expectedRevision : Z) (document : TenantConfig) (actorID : string) (now : Z) :
    result Draft * CWorld R :=
  valid_scope scope w (λ w,
    match marshal_document document with
    | Err err => (Err (ErrWrap "encode config draft" err), w)
    | Ok data =>
        do rows ⇐ wrap_error "update config draft"
          (execute w (update_drafts (claimable scope id expectedRevision) (edit_row data actorID now))); w;
        if negb (rows =? 1)%nat then (Err ErrRevisionConflict, w) else GetDraft w scope id
    end).

Definition version_is (scope : string) (version : Z) (row : VersionRow) : bool :=
  same (vr_TenantID row) scope && (vr_Version row =? version).

Definition select_version (scope : string) (version : Z) (t : Tables) : option VersionRow :=
  snd <$> list_find (λ row, version_is scope version row) (tb_versions t).

Definition GetVersion w (scope : string) (version : Z) : result Version * CWorld R :=
  valid_scope scope w (λ w,
    do found ⇐ query w (λ t, Ok (select_version scope version t)); w;
    (match found with None => Err ErrVersionNotFound | Some row => readVersion row end, w)).

(** COALESCE(MAX(version), 0) of a tenant. *)
Definition history (scope : string) (t : Tables) : list VersionRow :=
  filter (λ row, vr_TenantID row = scope) (tb_versions t).

Definition max_version (rows : list VersionRow) : Z :=
  match rows with
  | [] => 0
  | row :: rows => foldl (λ m r, Z.max m (vr_Version r)) (vr_Version row) rows
  end.

(** The INSERT with the table's constraints. *)
Definition insert_version (row : VersionRow) (t : Tables) : result unit * Tables :=
  if existsb (λ r, same (vr_ID r) (vr_ID row) || version_is (vr_TenantID row) (vr_Version row) r) (tb_versions t)
  then (Err constraint, t)
  else (Ok tt, with_versions t (tb_versions t ++ [row])%list).

Definition insertConfigAudit (row : AuditRow) (t : Tables) : result unit * Tables :=
  if existsb (λ r, same (au_ID r) (au_ID row)) (tb_audit t) then (Err constraint, t)
  else (Ok tt, with_audit t (tb_audit t ++ [row])%list).

Record PublishRecord := {
  pr_DraftID : string; pr_VersionID : string; pr_AuditID : string; pr_ActorID : string; pr_ExpectedRevision : Z;
  pr_PublishedAt : Z }.

Definition publish_audit (scope : string) (record : PublishRecord) (version : Z) : AuditRow :=
  {| au_ID := pr_AuditID record; au_TenantID := scope; au_ActorID := pr_ActorID record; au_Action := "config.publish";
     au_ResourceID := pr_VersionID record; au_Version := version; au_OccurredAt := pr_PublishedAt record |}.

(** The transaction: claim the draft, number its text, store it with its audit row. *)
Definition publish_tx (scope : string) (record : PublishRecord) w : result VersionRow * CWorld R :=
  do rows ⇐ wrap_error "claim config draft"
    (execute w (update_drafts (claimable scope (pr_DraftID record) (pr_ExpectedRevision record))
                              (claim_row (pr_ActorID record) (pr_PublishedAt record)))); w;
  if negb (rows =? 1)%nat then (Err ErrRevisionConflict, w)
  else
    do text ⇐ query w (λ t, match select_draft scope (pr_DraftID record) t with
                            | Some row => Ok (dr_Changes row)
                            | None => Err (ErrNew "sql: no rows in result set")
                            end); w;
    do next ⇐ query w (λ t, Ok (max_version (history scope t) + 1)); w;
    let row := {| vr_ID := pr_VersionID record; vr_TenantID := scope; vr_Version := next;
                  vr_SourceDraftID := Some (pr_DraftID record); vr_Compiled := text;
                  vr_PublishedBy := pr_ActorID record; vr_PublishedAt := pr_PublishedAt record |} in
    do _u ⇐ wrap_error "create config version" (execute w (insert_version row)); w;
    do _u ⇐ wrap_error "write config audit" (execute w (insertConfigAudit (publish_audit scope record next))); w;
    (Ok row, w).

Definition PublishDraft w (scope : string) (record : PublishRecord) : result Version * CWorld R :=
  valid_scope scope w (λ w, do row ⇐ transaction w (publish_tx scope record); w; (decodeVersion row, w)).

Record RollbackRecord := {
  rb_SourceVersion : Z; rb_VersionID : string; rb_AuditID : string; rb_ActorID : string; rb_PublishedAt : Z }.

Definition rollback_audit (scope : string) (record : RollbackRecord) : AuditRow :=
  {| au_ID := rb_AuditID record; au_TenantID := scope; au_ActorID := rb_ActorID record; au_Action := "config.rollback";
     au_ResourceID := rb_VersionID record; au_Version := rb_SourceVersion record; au_OccurredAt := rb_PublishedAt record |}.

Definition rollback_tx (scope : string) (record : RollbackRecord) w : result VersionRow * CWorld R :=
  do source ⇐ query w (λ t, match select_version scope (rb_SourceVersion record) t with
                            | Some row => Ok (vr_Compiled row)
                            | None => Err ErrVersionNotFound
                            end); w;
  do next ⇐ query w (λ t, Ok (max_version (history scope t) + 1)); w;
  let row := {| vr_ID := rb_VersionID record; vr_TenantID := scope; vr_Version := next; vr_SourceDraftID := None;
                vr_Compiled := source; vr_PublishedBy := rb_ActorID record; vr_PublishedAt := rb_PublishedAt record |} in
  do _u ⇐ execute w (insert_version row); w;
  do _u ⇐ wrap_error "write config audit" (execute w (insertConfigAudit (rollback_audit scope record))); w;
  (Ok row, w).

Definition RollbackVersion w (scope : string) (record : RollbackRecord) : result Version * CWorld R :=
  valid_scope scope w (λ w, do row ⇐ transaction w (rollback_tx scope record); w; (decodeVersion row, w)).

Definition Audit w (scope : string) (row : AuditRow) : result unit * CWorld R :=
  valid_scope scope w (λ w, wrap_error "write config audit" (execute w (insertConfigAudit row))).

Definition ascending (a b : VersionRow) : Prop := vr_Version a <= vr_Version b.
#[export] Instance ascending_dec : RelDecision ascending.
Proof. intros a b. unfold ascending. apply _. Defined.

Definition ListVersions w (scope : string) : result (list Version) * CWorld R :=
  valid_scope scope w (λ w, query w (λ t, decode_all readVersion (merge_sort ascending (history scope t)))).

(** The rows whose version is the greatest of their tenant, by tenant. *)
Definition latest_rows (t : Tables) : list VersionRow :=
  filter (λ row, vr_Version row = max_version (history (vr_TenantID row) t)) (tb_versions t).

Definition by_tenant (a b : VersionRow) : Prop :=
  str_less (vr_TenantID a) (vr_TenantID b) = true ∨ (vr_TenantID a = vr_TenantID b ∧ vr_Version a <= vr_Version b).
#[export] Instance by_tenant_dec : RelDecision by_tenant.
Proof. intros a b. unfold by_tenant. apply _. Defined.

Definition ListLatestVersions w : result (list Version) * CWorld R :=
  query w (λ t, decode_all readVersion (merge_sort by_tenant (latest_rows t))).

Definition GetSystemConfig w : result SystemConfig * CWorld R :=
  do found ⇐ wrap_error "read system config" (query w (λ t, Ok (tb_system t))); w;
  (match found with
   | None => Ok no_system
   | Some text => match unmarshal_system text with Ok c => Ok c | Err err => Err (ErrWrap "decode system config" err) end
   end, w).

Definition repo_SetSystemConfig w (document : SystemConfig) : result SystemConfig * CWorld R :=
  match marshal_system document with
  | Err err => (Err (ErrWrap "encode system config" err), w)
  | Ok data =>
      do _u ⇐ wrap_error "write system config" (execute w (λ t,
        (Ok tt, {| tb_drafts := tb_drafts t; tb_versions := tb_versions t; tb_audit := tb_audit t; tb_system := Some data |}))); w;
      (Ok document, w)
  end.

(** ** The service *)

Definition failed : error := ErrNew "config validation failed".

Definition activate w (snapshot : TenantRuntimeSnapshot) : CWorld R :=
  {| cw_db := cw_db w; cw_tables := cw_tables w;
     cw_registry := ActivateTenant (cw_registry w) (sn_TenantRef snapshot) (Some snapshot);
     cw_rng := cw_rng w; cw_delivered := (cw_delivered w ++ [snapshot])%list |}.

Definition compile_into {A} w (a : A) (system : SystemConfig) (document : TenantConfig) (version at_ : Z)
    (keys : list KeyRecord) : result A * CWorld R :=
  match CompileWithSystemDefaultsAndAPIKeys system document version at_ keys with
  | Err err => (Err err, w)
  | Ok snapshot => (Ok a, activate w snapshot)
  end.

(** The compilation whose snapshot is thrown away. *)
Definition dry_run w (system : SystemConfig) (document : TenantConfig) (now : Z) (keys : list KeyRecord) :
    result unit * CWorld R :=
  match CompileWithSystemDefaultsAndAPIKeys system document 0 now keys with Err err => (Err err, w) | Ok _ => (Ok tt, w) end.

Definition validated {A} w (system : SystemConfig) (document : TenantConfig) (scope : string)
    (k : CWorld R → result A * CWorld R) : result A * CWorld R :=
  if HasErrors (ValidateForTenantWithSystemDefaults system document scope) then (Err failed, w) else k w.

(** [now] is the service's clock reading.  The diagnostics that Publish also returns are
    those of [ValidateForTenantWithSystemDefaults] on the draft. *)
Definition Publish w (now : Z) (scope draftID : string) (expectedRevision : Z) (actorID : string) :
    result Version * CWorld R :=
  do draft ⇐ GetDraft w scope draftID; w;
  do system ⇐ GetSystemConfig w; w;
  validated w system (df_Config draft) scope (λ w,
    do keys ⇐ list_keys w scope; w;
    do _u ⇐ dry_run w system (df_Config draft) now keys; w;
    do versionID ⇐ new_id w; w;
    do auditID ⇐ new_id w; w;
    do version ⇐ PublishDraft w scope
      {| pr_DraftID := draftID; pr_VersionID := versionID; pr_AuditID := auditID; pr_ActorID := actorID;
         pr_ExpectedRevision := expectedRevision; pr_PublishedAt := now |}; w;
    compile_into w version system (ve_Config version) (ve_Version version) (ve_PublishedAt version) keys).

Definition Rollback w (now : Z) (scope : string) (sourceVersion : Z) (actorID : string) : result Version * CWorld R :=
  do source ⇐ GetVersion w scope sourceVersion; w;
  do system ⇐ GetSystemConfig w; w;
  validated w system (ve_Config source) scope (λ w,
    do keys ⇐ list_keys w scope; w;
    do _u ⇐ dry_run w system (ve_Config source) now keys; w;
    do versionID ⇐ new_id w; w;
    do auditID ⇐ new_id w; w;
    do version ⇐ RollbackVersion w scope
      {| rb_SourceVersion := sourceVersion; rb_VersionID := versionID; rb_AuditID := auditID; rb_ActorID := actorID;
         rb_PublishedAt := now |}; w;
    compile_into w version system (ve_Config version) (ve_Version version) (ve_PublishedAt version) keys).

Definition Reconcile w (now : Z) (scope : string) (sourceVersion : Z) (actorID : string) : result Version * CWorld R :=
  do source ⇐ GetVersion w scope sourceVersion; w;
  do system ⇐ GetSystemConfig w; w;
  validated w system (ve_Config source) scope (λ w,
    do keys ⇐ list_keys w scope; w;
    do _u ⇐ compile_into w tt system (ve_Config source) (ve_Version source) now keys; w;
    do auditID ⇐ new_id w; w;
    do _u ⇐ Audit w scope {| au_ID := auditID; au_TenantID := scope; au_ActorID := actorID; au_Action := "config.reconcile";
                             au_ResourceID := ve_ID source; au_Version := ve_Version source; au_OccurredAt := now |}; w;
    (Ok source, w)).

Definition with_guardrail (d : TenantConfig) (g : GuardrailPolicy) : TenantConfig :=
  {| doc_SchemaVersion := doc_SchemaVersion d; doc_Tenant := doc_Tenant d; doc_Projects := doc_Projects d;
     doc_Providers := doc_Providers d; doc_Credentials := doc_Credentials d; doc_Deployments := doc_Deployments d;
     doc_RoutePolicies := doc_RoutePolicies d; doc_LogicalModels := doc_LogicalModels d;
     doc_BudgetPolicies := doc_BudgetPolicies d; doc_CredentialPools := doc_CredentialPools d;
     doc_Circuit := doc_Circuit d; doc_Drift := doc_Drift d; doc_AccountingSpool := doc_AccountingSpool d;
     doc_Cache := doc_Cache d; doc_MCPServers := doc_MCPServers d; doc_Tools := doc_Tools d;
     doc_ToolPolicies := doc_ToolPolicies d; doc_Agents := doc_Agents d; doc_AgentEndpoints := doc_AgentEndpoints d;
     doc_FederatedAgents := doc_FederatedAgents d; doc_FederationRelationships := doc_FederationRelationships d;
     doc_Guardrail := g |}.

(** The overlaid policy has the mode and the rules of the fast-published one. *)
Definition overlaid (document : TenantConfig) (overlay : option Snapshot.GuardrailPolicy) : TenantConfig :=
  match overlay with
  | None => document
  | Some policy => with_guardrail document
      {| cgp_Mode := gp_Mode policy; cgp_Rules := gp_Rules policy;
         cgp_Judge := {| gj_Enabled := false; gj_Model := ""; gj_Action := "" |};
         cgp_Groundedness := {| gg_Enabled := false; gg_MinOverlap := f64_zero |} |}
  end.

Definition compileAndActivate w (scope : string) (version : Version) (overlay : option Snapshot.GuardrailPolicy) :
    result unit * CWorld R :=
  valid_scope scope w (λ w,
    let document := overlaid (ve_Config version) overlay in
    do system ⇐ wrap_error "load system config" (GetSystemConfig w); w;
    validated w system document scope (λ w,
      do keys ⇐ wrap_error "list api keys" (list_keys w scope); w;
      wrap_error "compile" (compile_into w tt system document (ve_Version version) (ve_PublishedAt version) keys))).

(** The loop of [ReconcileAll]: how many tenants were activated and the tenants that
    failed. *)
Fixpoint reconcile_each (loader : string → option Snapshot.GuardrailPolicy) (versions : list Version) w :
    nat * list string * CWorld R :=
  match versions with
  | [] => (O, [], w)
  | version :: versions =>
      let scope := ve_TenantID version in
      match compileAndActivate w scope version (loader scope) with
      | (Err _, w) => let '(n, failures, w) := reconcile_each loader versions w in (n, scope :: failures, w)
      | (Ok _, w) => let '(n, failures, w) := reconcile_each loader versions w in (S n, failures, w)
      end
  end.

Definition ReconcileAll (loader : string → option Snapshot.GuardrailPolicy) w : (nat * option error) * CWorld R :=
  match ListLatestVersions w with
  | (Err err, w) => ((O, Some err), w)
  | (Ok versions, w) =>
      let '(n, failures, w) := reconcile_each loader versions w in
      ((n, match failures with [] => None | _ => Some (ErrNew "reconcile") end), w)
  end.

Definition OverlayGuardrail w (scope : string) (policy : Snapshot.GuardrailPolicy) : result unit * CWorld R :=
  do versions ⇐ ListVersions w scope; w;
  match last versions with
  | None => (Err ErrNoPublishedVersion, w)
  | Some version => compileAndActivate w scope version (Some policy)
  end.

Definition CreateDraft w (now : Z) (scope actorID : string) : result Draft * CWorld R :=
  do versions ⇐ ListVersions w scope; w;
  match last versions with
  | None => (Err ErrNoPublishedVersion, w)
  | Some latest =>
      do draftID ⇐ new_id w; w;
      let draft := {| df_ID := draftID; df_TenantID := scope; df_BaseVersion := ve_Version latest; df_Revision := 1;
                      df_Status := "editing"; df_Config := ve_Config latest; df_CreatedBy := actorID;
                      df_UpdatedBy := actorID; df_CreatedAt := now; df_UpdatedAt := now |} in
      do _u ⇐ repo_CreateDraft w scope draft; w;
      (Ok draft, w)
  end.

Inductive RebaseOutcome := Rebased (revision : Z) | Conflict (revision : Z).

(** [now] is the database's clock. *)
Definition Rebase w (now : Z) (scope draftID actorID : string) : result RebaseOutcome * CWorld R :=
  do draft ⇐ GetDraft w scope draftID; w;
  do versions ⇐ ListVersions w scope; w;
  match last versions with
  | None => (Ok (Rebased (df_Revision draft)), w)
  | Some latest =>
      if ve_Version latest =? df_BaseVersion draft then (Ok (Rebased (df_Revision draft)), w)
      else
        match GetSystemConfig w with
        | (Err _, w) => (Ok (Conflict (df_Revision draft)), w)
        | (Ok system, w) =>
            if HasErrors (ValidateForTenantWithSystemDefaults system (df_Config draft) scope)
            then (Ok (Conflict (df_Revision draft)), w)
            else match UpdateDraft w scope draftID (df_Revision draft) (df_Config draft) actorID now with
                 | (Err _, w) => (Ok (Conflict (df_Revision draft)), w)
                 | (Ok updated, w) => (Ok (Rebased (df_Revision updated)), w)
                 end
        end
  end.

Definition ValidateSystemConfig (document : SystemConfig) : option error :=
  if (sys_FileMappingRetentionDays document <? 0) || (MaxFileMappingRetentionDays <? sys_FileMappingRetentionDays document)
  then Some (ErrNew "file_mapping_retention_days out of range")
  else if among (tpd_ResidencyEnforcement (sys_TenantDefaults document)) [""; "advisory"; "strict"] then None
  else Some (ErrNew "invalid residency_enforcement").

(** The event it emits is redacted telemetry and left out. *)
Definition SetSystemConfig (loader : string → option Snapshot.GuardrailPolicy) w (document : SystemConfig) :
    result SystemConfig * CWorld R :=
  match ValidateSystemConfig document with
  | Some err => (Err err, w)
  | None =>
      do _u ⇐ repo_SetSystemConfig w document; w;
      (Ok document, (ReconcileAll loader w).2)
  end.

End Service.

(** ** Drift *)

Inductive DriftLevel := DriftNone | DriftWarn | DriftCritical.
#[export] Instance DriftLevel_eq_dec : EqDecision DriftLevel.
Proof. solve_decision. Defined.

Record DriftReport := {
  drp_Level : DriftLevel; drp_LiveVersion : Z; drp_PublishedVersion : Z; drp_VersionAgeMS : Z; drp_GraceMS : Z;
  drp_BeyondGrace : bool; drp_EpochStale : bool; drp_Strict : bool; drp_HasSnapshot : bool; drp_Reasons : list string }.

(** [d.Milliseconds()] truncates towards zero. *)
Definition milliseconds (d : Z) : Z := Z.quot d millisecond.

Definition DetectDrift (snapshot : option TenantRuntimeSnapshot) (publishedVersion : Z) (drift : Snapshot.DriftMetadata) (now : Z) :
    DriftReport :=
  match snapshot with
  | None =>
      {| drp_Level := DriftCritical; drp_LiveVersion := 0; drp_PublishedVersion := publishedVersion; drp_VersionAgeMS := 0;
         drp_GraceMS := dm_GraceMS drift; drp_BeyondGrace := false; drp_EpochStale := false;
         drp_Strict := dm_Strict drift; drp_HasSnapshot := false; drp_Reasons := ["no_active_snapshot"] |}
  | Some s =>
      let age := milliseconds (time_sub now (sn_PublishedAt s)) in
      let mismatch := negb (sn_Version s =? publishedVersion) in
      let beyond := (0 <? dm_GraceMS drift) && (dm_GraceMS drift <? age) in
      let stale := dm_Strict drift && (sn_SecurityEpoch s <? dm_SecurityEpoch drift) in
      let reasons := ((if mismatch then ["version_mismatch"] else []) ++ (if beyond then ["beyond_grace"] else []) ++
                      (if stale then ["security_epoch_stale"] else []))%list in
      {| drp_Level := if stale then DriftCritical else if beyond then DriftCritical
                      else match reasons with [] => DriftNone | _ => DriftWarn end;
         drp_LiveVersion := sn_Version s; drp_PublishedVersion := publishedVersion; drp_VersionAgeMS := age;
         drp_GraceMS := dm_GraceMS drift; drp_BeyondGrace := beyond; drp_EpochStale := stale;
         drp_Strict := dm_Strict drift; drp_HasSnapshot := true; drp_Reasons := reasons |}
  end.

Definition IsReady (r : DriftReport) : bool :=
  if negb (drp_HasSnapshot r) then false
  else if drp_BeyondGrace r then false
  else if drp_Strict r && drp_EpochStale r then false
  else bool_decide (drp_Level r = DriftNone ∨ drp_Level r = DriftWarn).

(** ** The version history *)

(** Every tenant's versions are numbered 1, 2, 3, ... in the order of publication. *)
Definition numbered (t : Tables) : Prop :=
  ∀ scope, vr_Version <$> history scope t = seqZ 1 (Z.of_nat (length (history scope t))).

(** Later tables: published versions stay as they are, and so does every draft that is
    no longer edited. *)
Definition later (t t' : Tables) : Prop :=
  numbered t → numbered t' ∧ tb_versions t `prefix_of` tb_versions t' ∧
  ∀ i row, tb_drafts t !! i = Some row → dr_Status row ≠ "editing" → tb_drafts t' !! i = Some row.

#[export] Instance later_refl : Reflexive later.
Proof. intros t Ht. split_and!; [done|done|auto]. Qed.
#[export] Instance later_trans : Transitive later.
Proof.
  intros a b c Hab Hbc Ha. destruct (Hab Ha) as (Hb & Hp & Hd). destruct (Hbc Hb) as (Hc & Hp' & Hd').
  split_and!; [done|by etrans|]. eauto.
Qed.

Lemma foldl_max (rows : list VersionRow) m n :
  foldl (λ m r, Z.max m (vr_Version r)) m rows = n ↔
  (m = n ∨ ∃ r, r ∈ rows ∧ vr_Version r = n) ∧ m <= n ∧ ∀ r, r ∈ rows → vr_Version r <= n.
Proof.
  revert m. induction rows as [|row rows IH]; intros m; simpl.
  - split; [intros ->; split_and!; [by left|lia|]; by intros ? ?%elem_of_nil|].
    intros ([Hm|(r & Hr & _)] & _); [done|by apply elem_of_nil in Hr].
  - rewrite IH. setoid_rewrite elem_of_cons. split.
    + intros ([He|(r & Hr & He)] & Hle & Hall).
      * split_and!; [|lia|intros r [->|Hr]; [lia|auto]].
        destruct (Z.max_spec m (vr_Version row)) as [[_ Hm]|[_ Hm]]; [right; exists row; split; [auto|lia]|left; lia].
      * split_and!; [right; eauto|lia|]. intros r' [->|Hr']; [lia|auto].
    + intros (Hex & Hle & Hall). pose proof (Hall row (or_introl eq_refl)).
      split_and!; [|lia|auto]. destruct Hex as [->|(r & [->|Hr] & <-)]; [left; lia|left; lia|right; eauto].
Qed.

Lemma max_version_numbered rows :
  vr_Version <$> rows = seqZ 1 (Z.of_nat (length rows)) → max_version rows = Z.of_nat (length rows).
Proof.
  intros Hn. destruct rows as [|row rows]; [done|]. unfold max_version.
  assert (∀ r, r ∈ row :: rows → vr_Version r <= Z.of_nat (length (row :: rows))) as Hr.
  { intros r Hr. assert (vr_Version r ∈ seqZ 1 (Z.of_nat (length (row :: rows)))) as He%elem_of_seqZ; [|lia].
    rewrite <- Hn. apply list_elem_of_fmap. eauto. }
  assert (Z.of_nat (length (row :: rows)) ∈ vr_Version <$> row :: rows) as (r & He & Hin)%list_elem_of_fmap.
  { rewrite Hn. apply elem_of_seqZ. simpl. lia. }
  apply foldl_max. split_and!; [|apply Hr, list_elem_of_here|intros x Hx; apply Hr; by apply list_elem_of_further].
  apply elem_of_cons in Hin as [->|Hin]; [by left|right; eauto].
Qed.

Section History.
Context {R : Type} `{!Reader R} `{!DocumentJSON} `{!TimeColumn} `{!StringsJSON} `{!URLParser}.
Implicit Types (w : CWorld R).

(** An operation that only moves the tables forward. *)
Definition forward {A} (r : result A * CWorld R) w : Prop := later (cw_tables w) (cw_tables r.2).

Lemma next_fault_frame w f w' : next_fault w = (f, w') → cw_tables w' = cw_tables w ∧ cw_registry w' = cw_registry w.
Proof. unfold next_fault. destruct (db_faults _); intros [= <- <-]; done. Qed.

Lemma forward_query {A} w (read : Tables → result A) : forward (query w read) w.
Proof.
  unfold forward, query. destruct (next_fault w) as [[e|] w'] eqn:Hf; apply next_fault_frame in Hf as [Ht _];
    simpl; by rewrite Ht.
Qed.

Lemma forward_execute {A} w (run : Tables → result A * Tables) :
  (∀ t, later t (run t).2) → forward (execute w run) w.
Proof.
  intros Hr. unfold forward, execute. destruct (next_fault w) as [[e|] w'] eqn:Hf; apply next_fault_frame in Hf as [Ht _];
    simpl; [by rewrite Ht|]. specialize (Hr (cw_tables w')). destruct (run _). by rewrite <- Ht.
Qed.

Lemma forward_bind {A B} w (r : result A * CWorld R) (k : A → CWorld R → result B * CWorld R) :
  forward r w → (∀ a w', forward (k a w') w') → forward (bind r k) w.
Proof. destruct r as [[a|e] w']; intros Hr Hk; [|done]. unfold forward in *. etrans; [exact Hr|apply Hk]. Qed.

Lemma forward_wrap {A} w msg (r : result A * CWorld R) : forward r w → forward (wrap_error msg r) w.
Proof. by destruct r as [[a|e] w']. Qed.

Lemma forward_scope {A} w scope (k : CWorld R → result A * CWorld R) :
  (∀ w', forward (k w') w') → forward (valid_scope scope w k) w.
Proof. unfold valid_scope. intros Hk. destruct (same _ _); [done|auto]. Qed.

Lemma forward_validated {A} w system document scope (k : CWorld R → result A * CWorld R) :
  (∀ w', forward (k w') w') → forward (validated w system document scope k) w.
Proof. unfold validated. intros Hk. destruct (HasErrors _); [done|auto]. Qed.

Lemma forward_new_id w : forward (new_id w) w.
Proof. unfold forward, new_id. by destruct (id_New _). Qed.

Lemma forward_keys w scope : forward (list_keys w scope) w.
Proof. unfold forward, list_keys. by destruct (ListActive _ _). Qed.

Lemma forward_compile {A} w (a : A) system document version at_ keys :
  forward (compile_into w a system document version at_ keys) w.
Proof. unfold forward, compile_into. by destruct (CompileWithSystemDefaultsAndAPIKeys _ _ _ _ _). Qed.

Lemma forward_dry_run w system document now keys : forward (dry_run w system document now keys) w.
Proof. unfold forward, dry_run. by destruct (CompileWithSystemDefaultsAndAPIKeys _ _ _ _ _). Qed.

(** A transaction moves the tables forward when its body does, to its commit. *)
Lemma forward_transaction {A} w (body : CWorld R → result A * CWorld R) :
  (∀ w' a w'', cw_tables w' = cw_tables w → body w' = (Ok a, w'') → later (cw_tables w') (cw_tables w'')) →
  forward (transaction w body) w.
Proof.
  intros Hb. unfold forward, transaction. destruct (next_fault w) as [[e|] w1] eqn:Hf;
    apply next_fault_frame in Hf as [Ht _]; simpl; [by rewrite Ht|].
  specialize (Hb w1). destruct (body w1) as [[a|e] w2]; simpl; [|by rewrite Ht].
  destruct (next_fault w2) as [[e|] w3] eqn:Hf; apply next_fault_frame in Hf as [Ht' _]; simpl; [by rewrite Ht|].
  rewrite Ht', <- Ht. by apply (Hb a).
Qed.

Lemma query_ok {A} w (read : Tables → result A) a w' :
  query w read = (Ok a, w') → read (cw_tables w) = Ok a ∧ cw_tables w' = cw_tables w ∧ cw_registry w' = cw_registry w.
Proof.
  unfold query. destruct (next_fault w) as [[e|] w1] eqn:Hf; [done|]. apply next_fault_frame in Hf as [Ht Hg].
  intros [= Hr <-]. by rewrite <- Ht.
Qed.

Lemma execute_ok {A} w (run : Tables → result A * Tables) a w' :
  execute w run = (Ok a, w') → run (cw_tables w) = (Ok a, cw_tables w') ∧ cw_registry w' = cw_registry w.
Proof.
  unfold execute. destruct (next_fault w) as [[e|] w1] eqn:Hf; [done|]. apply next_fault_frame in Hf as [Ht Hg].
  rewrite Ht. destruct (run _) as [r t]. intros [= -> <-]. by split.
Qed.

Lemma bind_ok {A B} (r : result A * CWorld R) (k : A → CWorld R → result B * CWorld R) b w' :
  bind r k = (Ok b, w') → ∃ a w1, r = (Ok a, w1) ∧ k a w1 = (Ok b, w').
Proof. destruct r as [[a|e] w1]; [|done]. simpl. eauto. Qed.

Lemma wrap_ok {A} msg (r : result A * CWorld R) a w' : wrap_error msg r = (Ok a, w') → r = (Ok a, w').
Proof. by destruct r as [[?|?] ?]. Qed.

(** ** What each statement does to the tables *)

Lemma later_drafts t drafts :
  (∀ i row, tb_drafts t !! i = Some row → dr_Status row ≠ "editing" → drafts !! i = Some row) →
  later t (with_drafts t drafts).
Proof. intros Hd Ht. split_and!; [exact Ht|done|exact Hd]. Qed.

Lemma later_update condition change t :
  (∀ row, condition row = true → dr_Status row = "editing") → later t (update_drafts condition change t).2.
Proof.
  intros Hc. apply later_drafts. intros i row Hi Hs. rewrite list_lookup_fmap, Hi. simpl.
  destruct (condition row) eqn:Hcr; [|done]. by apply Hc in Hcr.
Qed.

Lemma claimable_editing scope id revision row : claimable scope id revision row = true → dr_Status row = "editing".
Proof. unfold claimable. intros [_ Hs]%andb_prop. by apply same_spec. Qed.

Lemma later_insert_draft row t : later t (insert_draft row t).2.
Proof.
  unfold insert_draft. destruct (existsb _ _); [done|]. apply later_drafts. intros i r Hi _. by apply lookup_app_l_Some.
Qed.

Lemma later_audit row t : later t (insertConfigAudit row t).2.
Proof. unfold insertConfigAudit. destruct (existsb _ _); [done|]. intros Ht. split_and!; [exact Ht|done|auto]. Qed.

Lemma history_snoc scope t row :
  history scope (with_versions t (tb_versions t ++ [row])) =
  (history scope t ++ (if decide (vr_TenantID row = scope) then [row] else []))%list.
Proof. unfold history. simpl. by rewrite filter_app, filter_cons, filter_nil. Qed.

Lemma later_insert_version row t :
  vr_Version row = max_version (history (vr_TenantID row) t) + 1 → later t (insert_version row t).2.
Proof.
  intros Hv. unfold insert_version. destruct (existsb _ _); [done|]. intros Ht. split_and!.
  - intros scope. simpl. rewrite history_snoc. case_decide as Hs; [|rewrite app_nil_r; apply Ht].
    rewrite fmap_app, length_app, Ht. simpl. rewrite Nat2Z.inj_add. simpl. rewrite seqZ_app by lia. f_equal.
    rewrite Hv, Hs, max_version_numbered by apply Ht. change (Z.of_nat 1) with 1.
    rewrite seqZ_cons, seqZ_nil by lia. f_equal. lia.
  - by exists [row].
  - auto.
Qed.

(** ** The operations move forward *)

Create HintDb config.

Local Hint Resolve forward_query forward_execute forward_bind forward_wrap forward_scope forward_validated
  forward_new_id forward_keys forward_compile forward_dry_run later_update claimable_editing later_insert_draft
  later_audit : config.
Local Hint Extern 1 (forward (if ?b then _ else _) _) => destruct b : config.
Local Hint Extern 1 (forward (match ?x with _ => _ end) _) => destruct x : config.
Local Hint Extern 0 (forward (_, ?w) ?w) => unfold forward; reflexivity : config.

Lemma forward_GetDraft w scope id : forward (GetDraft w scope id) w.
Proof. unfold GetDraft. eauto 8 with config. Qed.

Lemma forward_GetVersion w scope version : forward (GetVersion w scope version) w.
Proof. unfold GetVersion. eauto 8 with config. Qed.

Lemma forward_ListVersions w scope : forward (ListVersions w scope) w.
Proof. unfold ListVersions. eauto with config. Qed.

Lemma forward_GetSystemConfig w : forward (GetSystemConfig w) w.
Proof. unfold GetSystemConfig. eauto 8 with config. Qed.

Local Hint Resolve forward_GetDraft forward_GetVersion forward_ListVersions forward_GetSystemConfig : config.

Lemma forward_UpdateDraft w scope id revision document actor now :
  forward (UpdateDraft w scope id revision document actor now) w.
Proof. unfold UpdateDraft. eauto 12 with config. Qed.

Lemma forward_repo_CreateDraft w scope draft : forward (repo_CreateDraft w scope draft) w.
Proof. unfold repo_CreateDraft. eauto 12 with config. Qed.

Lemma forward_Audit w scope row : forward (Audit w scope row) w.
Proof. unfold Audit. eauto 12 with config. Qed.

(** The bodies of the two transactions that add a version, and their effect. *)
Definition new_version (row : VersionRow) (audit : AuditRow) (t t' : Tables) : Prop :=
  ∃ t1, vr_Version row = max_version (history (vr_TenantID row) t) + 1 ∧
    insert_version row t = (Ok tt, t1) ∧ insertConfigAudit audit t1 = (Ok tt, t').

Lemma later_new_version row audit t t' : new_version row audit t t' → later t t'.
Proof.
  intros (t1 & Hv & Hi & Ha). pose proof (later_insert_version row t Hv) as Hl. pose proof (later_audit audit t1) as Hl'.
  rewrite Hi in Hl. rewrite Ha in Hl'. by etrans.
Qed.

Lemma transaction_ok {A} w (body : CWorld R → result A * CWorld R) a w' :
  transaction w body = (Ok a, w') →
  ∃ w1 w2, cw_tables w1 = cw_tables w ∧ cw_registry w1 = cw_registry w ∧ body w1 = (Ok a, w2) ∧
    cw_tables w' = cw_tables w2 ∧ cw_registry w' = cw_registry w2.
Proof.
  unfold transaction. destruct (next_fault w) as [[e|] w1] eqn:Hf; [done|]. apply next_fault_frame in Hf as [Ht Hg].
  destruct (body w1) as [[b|e] w2] eqn:Hb; [|done].
  destruct (next_fault w2) as [[e|] w3] eqn:Hf; [done|]. apply next_fault_frame in Hf as [Ht' Hg'].
  intros [= <- <-]. by exists w1, w2.
Qed.

Lemma select_claimed scope id revision actor now t :
  dr_Changes <$> select_draft scope id (update_drafts (claimable scope id revision) (claim_row actor now) t).2 =
  dr_Changes <$> select_draft scope id t.
Proof.
  unfold select_draft. simpl. induction (tb_drafts t) as [|row rows IH]; [done|]. simpl.
  assert (∀ r, draft_is scope id (if claimable scope id revision r then claim_row actor now r else r) = draft_is scope id r) as Hd.
  { intros r. by destruct (claimable scope id revision r). }
  specialize (Hd row). destruct (decide (draft_is scope id (if claimable _ _ _ row then _ else row))) as [Hx|Hx],
    (decide (draft_is scope id row)) as [Hy|Hy]; try (rewrite Hd in Hx; done).
  - by destruct (claimable scope id revision row).
  - revert IH. destruct (list_find _ _) as [[]|], (list_find _ _) as [[]|]; done.
Qed.

(** A committed publication claimed the draft and stored its text under the next number. *)
Lemma publish_tx_ok scope record w row w' :
  publish_tx scope record w = (Ok row, w') →
  ∃ t1, vr_TenantID row = scope ∧ vr_PublishedAt row = pr_PublishedAt record ∧
    update_drafts (claimable scope (pr_DraftID record) (pr_ExpectedRevision record))
      (claim_row (pr_ActorID record) (pr_PublishedAt record)) (cw_tables w) = (Ok 1%nat, t1) ∧
    new_version row (publish_audit scope record (vr_Version row)) t1 (cw_tables w') ∧
    dr_Changes <$> select_draft scope (pr_DraftID record) (cw_tables w) = Some (vr_Compiled row) ∧
    cw_registry w' = cw_registry w.
Proof.
  intros Hb.
  apply bind_ok in Hb as (rows & wa & (Hu & Hga)%wrap_ok%execute_ok & Hb).
  destruct (Nat.eqb_spec rows 1) as [->|]; [|done].
  apply bind_ok in Hb as (text & wb & (Hsel & Htb & Hgb)%query_ok & Hb).
  apply bind_ok in Hb as (next & wc & (Hn & Htc & Hgc)%query_ok & Hb).
  apply bind_ok in Hb as ([] & wd & (Hi & Hgd)%wrap_ok%execute_ok & Hb).
  apply bind_ok in Hb as ([] & we & (Ha & Hge)%wrap_ok%execute_ok & Hb).
  injection Hn as Hn. injection Hb as <- <-. exists (cw_tables wa). simpl.
  rewrite Htb in Hn, Htc. rewrite Htc in Hi. split_and!; try done.
  - exists (cw_tables wd). split_and!; [by rewrite <- Hn|exact Hi|exact Ha].
  - rewrite <- (select_claimed scope (pr_DraftID record) (pr_ExpectedRevision record) (pr_ActorID record) (pr_PublishedAt record)).
    rewrite Hu. simpl. destruct (select_draft _ _ (cw_tables wa)); [|done]. injection Hsel as <-. done.
  - congruence.
Qed.

Lemma rollback_tx_ok scope record w row w' :
  rollback_tx scope record w = (Ok row, w') →
  vr_TenantID row = scope ∧ vr_PublishedAt row = rb_PublishedAt record ∧
  new_version row (rollback_audit scope record) (cw_tables w) (cw_tables w') ∧
  vr_Compiled <$> select_version scope (rb_SourceVersion record) (cw_tables w) = Some (vr_Compiled row) ∧
  cw_registry w' = cw_registry w.
Proof.
  intros Hb.
  apply bind_ok in Hb as (text & wb & (Hsel & Htb & Hgb)%query_ok & Hb).
  apply bind_ok in Hb as (next & wc & (Hn & Htc & Hgc)%query_ok & Hb).
  apply bind_ok in Hb as ([] & wd & (Hi & Hgd)%execute_ok & Hb).
  apply bind_ok in Hb as ([] & we & (Ha & Hge)%wrap_ok%execute_ok & Hb).
  injection Hn as Hn. injection Hb as <- <-. simpl. rewrite Htb in Hn, Htc. rewrite Htc in Hi. split_and!; try done.
  - exists (cw_tables wd). split_and!; [by rewrite <- Hn|exact Hi|exact Ha].
  - destruct (select_version _ _ (cw_tables w)); [|done]. injection Hsel as <-. done.
  - congruence.
Qed.

Lemma forward_PublishDraft w scope record : forward (PublishDraft w scope record) w.
Proof.
  apply forward_scope. intros w1. apply forward_bind; [|eauto with config]. apply forward_transaction.
  intros w2 row w3 _ (t1 & _ & _ & Hu & Hn & _)%publish_tx_ok. etrans; [|by eapply later_new_version].
  pose proof (later_update (claimable scope (pr_DraftID record) (pr_ExpectedRevision record))
    (claim_row (pr_ActorID record) (pr_PublishedAt record)) (cw_tables w2)) as Hl.
  rewrite Hu in Hl. apply Hl, claimable_editing.
Qed.

Lemma forward_RollbackVersion w scope record : forward (RollbackVersion w scope record) w.
Proof.
  apply forward_scope. intros w1. apply forward_bind; [|eauto with config]. apply forward_transaction.
  intros w2 row w3 _ (_ & _ & Hn & _)%rollback_tx_ok. by eapply later_new_version.
Qed.

Local Hint Resolve forward_UpdateDraft forward_repo_CreateDraft forward_Audit forward_PublishDraft
  forward_RollbackVersion : config.

Lemma forward_compileAndActivate w scope version overlay : forward (compileAndActivate w scope version overlay) w.
Proof. unfold compileAndActivate. eauto 20 with config. Qed.

Lemma reconcile_each_later loader versions w :
  later (cw_tables w) (cw_tables (reconcile_each loader versions w).2).
Proof.
  revert w. induction versions as [|version versions IH]; intros w; simpl; [done|].
  pose proof (forward_compileAndActivate w (ve_TenantID version) version (loader (ve_TenantID version))) as Hc.
  unfold forward in Hc. destruct (compileAndActivate _ _ _ _) as [[u|e] w1]; simpl in *; specialize (IH w1);
    destruct (reconcile_each loader versions w1) as [[n failures] w2]; simpl in *; by etrans.
Qed.

Lemma ReconcileAll_later loader w : later (cw_tables w) (cw_tables (ReconcileAll loader w).2).
Proof.
  unfold ReconcileAll, ListLatestVersions.
  pose proof (forward_query w (λ t, decode_all readVersion (merge_sort by_tenant (latest_rows t)))) as Hq.
  unfold forward in Hq. destruct (query _ _) as [[versions|e] w1]; simpl in *; [|done].
  pose proof (reconcile_each_later loader versions w1) as Hr. destruct (reconcile_each _ _ _) as [[n failures] w2].
  simpl in *. by etrans.
Qed.

(** ** Histories of operations *)

Inductive config_op :=
| op_publish (now : Z) (scope draftID : string) (revision : Z) (actor : string)
| op_rollback (now : Z) (scope : string) (source : Z) (actor : string)
| op_reconcile (now : Z) (scope : string) (source : Z) (actor : string)
| op_reconcile_all (loader : string → option Snapshot.GuardrailPolicy)
| op_overlay (scope : string) (policy : Snapshot.GuardrailPolicy)
| op_create_draft (now : Z) (scope actor : string)
| op_update_draft (now : Z) (scope id : string) (revision : Z) (document : TenantConfig) (actor : string)
| op_rebase (now : Z) (scope draftID actor : string)
| op_system (loader : string → option Snapshot.GuardrailPolicy) (document : SystemConfig)
| op_faults (faults : list (option error)).

(** The last one is the environment deciding which statements will fail. *)
Definition exec (w : CWorld R) (op : config_op) : CWorld R :=
  match op with
  | op_publish now scope draftID revision actor => (Publish w now scope draftID revision actor).2
  | op_rollback now scope source actor => (Rollback w now scope source actor).2
  | op_reconcile now scope source actor => (Reconcile w now scope source actor).2
  | op_reconcile_all loader => (ReconcileAll loader w).2
  | op_overlay scope policy => (OverlayGuardrail w scope policy).2
  | op_create_draft now scope actor => (CreateDraft w now scope actor).2
  | op_update_draft now scope id revision document actor => (UpdateDraft w scope id revision document actor now).2
  | op_rebase now scope draftID actor => (Rebase w now scope draftID actor).2
  | op_system loader document => (SetSystemConfig loader w document).2
  | op_faults faults => set_db w (with_faults (cw_db w) faults)
  end.

Lemma forward_SetSystemConfig loader w document : forward (SetSystemConfig loader w document) w.
Proof.
  unfold SetSystemConfig, repo_SetSystemConfig. destruct (ValidateSystemConfig document); [done|].
  apply forward_bind.
  - destruct (marshal_system document); [|done]. apply forward_bind; [|done]. apply forward_wrap, forward_execute.
    intros t Ht. split_and!; [exact Ht|done|auto].
  - intros _u w1. unfold forward. simpl. apply ReconcileAll_later.
Qed.

Lemma forward_Rebase w now scope draftID actor : forward (Rebase w now scope draftID actor) w.
Proof.
  unfold Rebase. apply forward_bind; [eauto with config|]. intros draft w1. apply forward_bind; [eauto with config|].
  intros versions w2. destruct (last versions); [|eauto with config]. destruct (_ =? _); [eauto with config|].
  pose proof (forward_GetSystemConfig w2) as Hs. destruct (GetSystemConfig w2) as [[system|e] w3]; [|done].
  destruct (HasErrors _); [done|].
  pose proof (forward_UpdateDraft w3 scope draftID (df_Revision draft) (df_Config draft) actor now) as Hu.
  unfold forward in *. destruct (UpdateDraft _ _ _ _ _ _ _) as [[d|e] w4]; simpl in *; by etrans.
Qed.

Lemma exec_later w op : later (cw_tables w) (cw_tables (exec w op)).
Proof.
  destruct op; simpl.
  - change (forward (Publish w now scope draftID revision actor) w). unfold Publish. eauto 30 with config.
  - change (forward (Rollback w now scope source actor) w). unfold Rollback. eauto 30 with config.
  - change (forward (Reconcile w now scope source actor) w). unfold Reconcile. eauto 30 with config.
  - apply ReconcileAll_later.
  - change (forward (OverlayGuardrail w scope policy) w). unfold OverlayGuardrail.
    apply forward_bind; [eauto with config|]. intros versions w1. destruct (last versions); [|done].
    apply forward_compileAndActivate.
  - change (forward (CreateDraft w now scope actor) w). unfold CreateDraft.
    apply forward_bind; [eauto with config|]. intros versions w1. destruct (last versions); [|done]. eauto 20 with config.
  - apply forward_UpdateDraft.
  - apply forward_Rebase.
  - apply forward_SetSystemConfig.
  - done.
Qed.

(** C31: The version history is append-only.  From empty tables on, whatever the
    service does and whichever statements fail, every tenant's published versions are
    numbered 1, 2, 3, ... without a gap, a published version never changes or
    disappears, and a draft that was published never changes again. *)
Theorem version_history_append_only (w : CWorld R) ops ops' :
  tb_versions (cw_tables w) = [] →
  let t := cw_tables (foldl exec w ops) in
  let t' := cw_tables (foldl exec w (ops ++ ops')) in
  numbered t' ∧ tb_versions t `prefix_of` tb_versions t' ∧
  ∀ i row, tb_drafts t !! i = Some row → dr_Status row ≠ "editing" → tb_drafts t' !! i = Some row.
Proof.
  intros Hw t t'.
  assert (∀ l v, later (cw_tables v) (cw_tables (foldl exec v l))) as Hl.
  { intros l. induction l as [|op l IH]; intros v; [done|]. simpl. etrans; [apply exec_later|apply IH]. }
  assert (numbered (cw_tables w)) as Hn by (intros scope; unfold history; by rewrite Hw).
  destruct (Hl ops w Hn) as (Ht & _). subst t t'. rewrite foldl_app. by apply Hl.
Qed.
End History.

(** ** The registry *)

Section Activation.
Context {R : Type} `{!Reader R} `{!DocumentJSON} `{!TimeColumn} `{!StringsJSON} `{!URLParser}.
Implicit Types (w : CWorld R).

(** The key table is only read: its rows and the rest of the database stay. *)
Definition same_rows (db db' : DB) : Prop := db_keys db' = db_keys db ∧ db_peppers db' = db_peppers db.

(** An operation that leaves the registry and the key table alone. *)
Definition quiet {A} (r : result A * CWorld R) w : Prop :=
  cw_registry r.2 = cw_registry w ∧ same_rows (cw_db w) (cw_db r.2).

Lemma quiet_refl {A} (r : result A) w : quiet (r, w) w.
Proof. by repeat split. Qed.

Lemma quiet_trans {A B} (r : result A * CWorld R) (s : result B * CWorld R) w : quiet r w → quiet s r.2 → quiet s w.
Proof. unfold quiet, same_rows. intros (? & ? & ?) (? & ? & ?). split_and!; congruence. Qed.

Lemma quiet_fault w f w' : next_fault w = (f, w') → cw_registry w' = cw_registry w ∧ same_rows (cw_db w) (cw_db w').
Proof. unfold next_fault. destruct (db_faults _); intros [= <- <-]; by repeat split. Qed.

Lemma quiet_query {A} w (read : Tables → result A) : quiet (query w read) w.
Proof. unfold quiet, query. destruct (next_fault w) as [[e|] w'] eqn:Hf; by apply quiet_fault in Hf. Qed.

Lemma quiet_execute {A} w (run : Tables → result A * Tables) : quiet (execute w run) w.
Proof.
  unfold quiet, execute. destruct (next_fault w) as [[e|] w'] eqn:Hf; apply quiet_fault in Hf; [done|].
  by destruct (run _).
Qed.

Lemma quiet_bind {A B} w (r : result A * CWorld R) (k : A → CWorld R → result B * CWorld R) :
  quiet r w → (∀ a w', quiet (k a w') w') → quiet (bind r k) w.
Proof. destruct r as [[a|e] w']; intros Hr Hk; [|done]. eapply quiet_trans; [exact Hr|apply Hk]. Qed.

Lemma quiet_wrap {A} w msg (r : result A * CWorld R) : quiet r w → quiet (wrap_error msg r) w.
Proof. by destruct r as [[a|e] w']. Qed.

Lemma quiet_scope {A} w scope (k : CWorld R → result A * CWorld R) :
  (∀ w', quiet (k w') w') → quiet (valid_scope scope w k) w.
Proof. unfold valid_scope. intros Hk. destruct (same _ _); [apply quiet_refl|auto]. Qed.

Lemma quiet_transaction {A} w (body : CWorld R → result A * CWorld R) :
  (∀ w', quiet (body w') w') → quiet (transaction w body) w.
Proof.
  intros Hb. unfold transaction. destruct (next_fault w) as [[e|] w1] eqn:Hf; apply quiet_fault in Hf as [Hg Hd]; [by split|].
  specialize (Hb w1). unfold quiet, same_rows in *. destruct (body w1) as [[a|e] w2]; simpl in *; [|naive_solver congruence].
  destruct (next_fault w2) as [[e|] w3] eqn:Hf; apply quiet_fault in Hf as [Hg' Hd']; unfold same_rows in *; simpl;
    naive_solver congruence.
Qed.

Lemma quiet_new_id w : quiet (new_id w) w.
Proof. unfold quiet, new_id. by destruct (id_New _). Qed.

Lemma quiet_keys w scope : quiet (list_keys w scope) w.
Proof.
  unfold quiet, list_keys, ListActive. case_bool_decide; [done|].
  destruct (statement _ _) as [r db] eqn:Hs. apply statement_reads in Hs as [(Hk & _ & Hp & _) _]. by repeat split.
Qed.

Local Hint Resolve quiet_refl quiet_query quiet_execute quiet_bind quiet_wrap quiet_scope quiet_transaction quiet_new_id
  quiet_keys : config.
Local Hint Extern 1 (quiet (if ?b then _ else _) _) => destruct b : config.
Local Hint Extern 1 (quiet (match ?x with _ => _ end) _) => destruct x : config.

Lemma quiet_GetDraft w scope id : quiet (GetDraft w scope id) w.
Proof. unfold GetDraft. eauto 10 with config. Qed.

Lemma quiet_GetVersion w scope version : quiet (GetVersion w scope version) w.
Proof. unfold GetVersion. eauto 10 with config. Qed.

Lemma quiet_GetSystemConfig w : quiet (GetSystemConfig w) w.
Proof. unfold GetSystemConfig. eauto 10 with config. Qed.

Lemma quiet_dry_run w system document now keys : quiet (dry_run w system document now keys) w.
Proof. unfold dry_run. eauto with config. Qed.

Lemma quiet_publish_tx scope record w : quiet (publish_tx scope record w) w.
Proof. unfold publish_tx. eauto 20 with config. Qed.

Lemma quiet_PublishDraft w scope record : quiet (PublishDraft w scope record) w.
Proof. unfold PublishDraft. apply quiet_scope. intros w1. apply quiet_bind; [apply quiet_transaction, quiet_publish_tx|eauto with config]. Qed.

(** The fate of a chain of effects: it stops at the first error, or goes on. *)
Definition outcome {A} w (r : result A * CWorld R) (ok : A → CWorld R → Prop) : Prop :=
  match r with (Err _, w') => cw_registry w' = cw_registry w | (Ok a, w') => ok a w' end.

Lemma outcome_bind {A B} w w0 (r : result A * CWorld R) (k : A → CWorld R → result B * CWorld R) ok :
  cw_registry w0 = cw_registry w → quiet r w0 →
  (∀ a w', r = (Ok a, w') → cw_registry w' = cw_registry w → same_rows (cw_db w0) (cw_db w') → outcome w (k a w') ok) →
  outcome w (bind r k) ok.
Proof.
  intros Hw (Hg & Hd) Hk. destruct r as [[a|e] w']; simpl in *; [|congruence]. apply Hk; [done|congruence|done].
Qed.

Lemma GetDraft_ok w scope id draft w' :
  GetDraft w scope id = (Ok draft, w') →
  scope ≠ "" ∧ cw_tables w' = cw_tables w ∧
  ∃ text, dr_Changes <$> select_draft scope id (cw_tables w) = Some text ∧ unmarshal_document text = Ok (df_Config draft).
Proof.
  unfold GetDraft, valid_scope. destruct (same scope "") eqn:Hs; [done|].
  intros (found & w1 & (Hq & Ht & _)%wrap_ok%query_ok & Hd)%bind_ok. injection Hd as Hd ->.
  split; [intros ->; by rewrite (proj2 (same_spec _ _)) in Hs|]. split; [done|].
  injection Hq as Hq. destruct found as [row|]; [|done]. unfold decode_draft in Hd. exists (dr_Changes row). rewrite Hq. split; [done|].
  destruct (unmarshal_document _); [|done]. by injection Hd as <-.
Qed.

Lemma PublishDraft_ok w scope record v w' :
  PublishDraft w scope record = (Ok v, w') →
  ve_PublishedAt v = pr_PublishedAt record ∧
  ∃ row, dr_Changes <$> select_draft scope (pr_DraftID record) (cw_tables w) = Some (vr_Compiled row) ∧
    unmarshal_document (vr_Compiled row) = Ok (ve_Config v) ∧ vr_TenantID row = scope ∧ decodeVersion row = Ok v ∧
    vr_Version row = max_version (history scope (cw_tables w)) + 1 ∧
    tb_versions (cw_tables w') = (tb_versions (cw_tables w) ++ [row])%list ∧ tb_system (cw_tables w') = tb_system (cw_tables w).
Proof.
  unfold PublishDraft, valid_scope. destruct (same scope ""); [done|].
  intros (row & w1 & (w2 & w3 & Ht & _ & Hb & Hw & _)%transaction_ok & Hd)%bind_ok. injection Hd as Hd <-.
  apply publish_tx_ok in Hb as (t1 & Hs & Hp & Hu & (t2 & Hv & Hi & Ha) & Htext & _). rewrite Ht in Hu, Htext.
  injection Hu as _ <-. rewrite Hw.
  assert (ve_PublishedAt v = vr_PublishedAt row ∧ unmarshal_document (vr_Compiled row) = Ok (ve_Config v)) as [Hat Hdoc].
  { unfold decodeVersion in Hd. destruct (unmarshal_document _); [|done]. by injection Hd as <-. }
  split; [congruence|]. exists row. split_and!; [done|done|done|done| | |].
  - rewrite Hv, Hs. done.
  - unfold insertConfigAudit in Ha. destruct (existsb _ (tb_audit t2)); [done|]. injection Ha as <-. simpl.
    unfold insert_version in Hi. destruct (existsb _ _); [done|]. by injection Hi as <-.
  - unfold insertConfigAudit in Ha. destruct (existsb _ (tb_audit t2)); [done|]. injection Ha as <-. simpl.
    unfold insert_version in Hi. destruct (existsb _ _); [done|]. by injection Hi as <-.
Qed.

Lemma validated_tenant system document scope :
  HasErrors (ValidateForTenantWithSystemDefaults system document scope) = false → tn_ID (doc_Tenant document) = scope.
Proof.
  unfold ValidateForTenantWithSystemDefaults. intros [_ He]%HasErrors_app. apply HasErrors_add in He.
  apply negb_false_iff in He. by apply same_spec.
Qed.

Lemma compiled_fields system document version at_ keys s :
  CompileWithSystemDefaultsAndAPIKeys system document version at_ keys = Ok s →
  sn_TenantID s = tn_ID (doc_Tenant document) ∧ sn_TenantRef s = tn_PublicRef (doc_Tenant document) ∧
  sn_Status s = tn_Status (doc_Tenant document) ∧ sn_Version s = version ∧ sn_PublishedAt s = at_ ∧
  sn_apiKeys s = index_by ak_PublicID (map compile_key keys).
Proof.
  unfold CompileWithSystemDefaultsAndAPIKeys. destruct (HasErrors _); [done|]. destruct (check_keys _ _); [done|].
  by intros [= <-].
Qed.

Lemma compiled_snapshot system document version at_ keys s :
  CompileWithSystemDefaultsAndAPIKeys system document version at_ keys = Ok s →
  s = NewTenantSnapshot (snapshot_data (ApplySystemDefaults system document) version at_ keys).
Proof. unfold CompileWithSystemDefaultsAndAPIKeys. destruct (HasErrors _); [done|]. destruct (check_keys _ _); [done|]. by intros [= <-]. Qed.

(** Whether a document compiles does not depend on the time. *)
Lemma compiled_later system document version at_ at' keys s :
  CompileWithSystemDefaultsAndAPIKeys system document version at_ keys = Ok s →
  CompileWithSystemDefaultsAndAPIKeys system document version at' keys =
    Ok (NewTenantSnapshot (snapshot_data (ApplySystemDefaults system document) version at' keys)).
Proof. unfold CompileWithSystemDefaultsAndAPIKeys. destruct (HasErrors _); [done|]. by destruct (check_keys _ _). Qed.

(** What a successful publication of version [v] has done: the system defaults and the
    keys it read, the row it stored, the snapshot it compiled and activated. *)
Record publication w (now : Z) (scope draftID : string) (v : Version) w' (w1 w2 : CWorld R) (system : SystemConfig)
    (keys : list KeyRecord) (row : VersionRow) (s : TenantRuntimeSnapshot) : Prop := {
  pub_scope : scope ≠ "";
  pub_text : dr_Changes <$> select_draft scope draftID (cw_tables w) = Some (vr_Compiled row);
  pub_system : GetSystemConfig w1 = (Ok system, w2) ∧ cw_tables w1 = cw_tables w ∧ same_rows (cw_db w) (cw_db w1);
  pub_keys : (ListActive (cw_db w2) scope).1 = Ok keys ∧ same_rows (cw_db w) (cw_db w2);
  pub_valid : HasErrors (ValidateForTenantWithSystemDefaults system (ve_Config v) scope) = false;
  pub_row : vr_TenantID row = scope ∧ decodeVersion row = Ok v ∧
    vr_Version row = max_version (history scope (cw_tables w)) + 1 ∧ ve_PublishedAt v = now;
  pub_tables : tb_versions (cw_tables w') = (tb_versions (cw_tables w) ++ [row])%list ∧
    tb_system (cw_tables w') = tb_system (cw_tables w);
  pub_snapshot : CompileWithSystemDefaultsAndAPIKeys system (ve_Config v) (ve_Version v) (ve_PublishedAt v) keys = Ok s;
  pub_registry : cw_registry w' = ActivateTenant (cw_registry w) (sn_TenantRef s) (Some s) }.

Lemma reads_tables w scope :
  cw_tables (GetSystemConfig w).2 = cw_tables w ∧ cw_tables (list_keys w scope).2 = cw_tables w ∧
  cw_tables (new_id w).2 = cw_tables w.
Proof.
  split_and!; unfold GetSystemConfig, list_keys, new_id, query.
  - destruct (next_fault w) as [[e|] w1] eqn:Hf; by apply next_fault_frame in Hf as [Ht _].
  - by destruct (ListActive _ _).
  - by destruct (id_New _).
Qed.

Lemma dry_run_same w system document now keys : (dry_run w system document now keys).2 = w.
Proof. unfold dry_run. by destruct (CompileWithSystemDefaultsAndAPIKeys _ _ _ _ _). Qed.

Lemma Publish_cases w now scope draftID revision actor :
  outcome w (Publish w now scope draftID revision actor)
    (λ v w', ∃ w1 w2 system keys row s, publication w now scope draftID v w' w1 w2 system keys row s).
Proof.
  unfold Publish. eapply outcome_bind; [done|apply quiet_GetDraft|]. intros draft w1 Hd Hg1 Hr1.
  eapply outcome_bind; [done|apply quiet_GetSystemConfig|]. intros system w2 Hs Hg2 Hr2.
  unfold validated. destruct (HasErrors _) eqn:Hval; [done|].
  eapply outcome_bind; [done|apply quiet_keys|]. intros keys w3 Hk Hg3 Hr3.
  eapply outcome_bind; [done|apply quiet_dry_run|]. intros _u w4 Hdry Hg4 Hr4.
  eapply outcome_bind; [done|apply quiet_new_id|]. intros versionID w5 Hid Hg5 Hr5.
  eapply outcome_bind; [done|apply quiet_new_id|]. intros auditID w6 Hid' Hg6 Hr6.
  eapply outcome_bind; [done|apply quiet_PublishDraft|]. intros v w7 Hp Hg7 Hr7.
  apply GetDraft_ok in Hd as (Hscope & Ht1 & text & Htext & Hdoc).
  destruct (reads_tables w1 scope) as [Ht2 _], (reads_tables w2 scope) as (_ & Ht3 & _),
    (reads_tables w4 scope) as (_ & _ & Ht5), (reads_tables w5 scope) as (_ & _ & Ht6).
  pose proof (dry_run_same w3 system (df_Config draft) now keys) as Ht4.
  rewrite Hs in Ht2. rewrite Hk in Ht3. rewrite Hdry in Ht4. rewrite Hid in Ht5. rewrite Hid' in Ht6. simpl in *. subst w4.
  apply PublishDraft_ok in Hp as (Hat & row & Htext' & Hdoc' & Hrs & Hrd & Hrv & Hrt & Hry). simpl in Hat, Htext'.
  assert (cw_tables w6 = cw_tables w) as Ht by congruence. rewrite Ht in Hrv, Hrt, Hry, Htext'.
  assert (ve_Config v = df_Config draft) as Hsame by congruence.
  unfold compile_into. destruct (CompileWithSystemDefaultsAndAPIKeys _ _ _ _ _) as [s|e] eqn:Hc; [|done]. simpl.
  assert (same_rows (cw_db w) (cw_db w2)) as Hrows by (destruct Hr1, Hr2; split; congruence).
  exists w1, w2, system, keys, row, s. split; simpl; try done; [|by rewrite Hsame|by rewrite Hg7].
  split; [|done]. unfold list_keys in Hk. destruct (ListActive _ _). simpl. by injection Hk as ->.
Qed.

(** The system defaults as the tables have them. *)
Definition system_of (t : Tables) : result SystemConfig :=
  match tb_system t with
  | None => Ok no_system
  | Some text => match unmarshal_system text with Ok c => Ok c | Err err => Err (ErrWrap "decode system config" err) end
  end.

Lemma GetSystemConfig_ok w system w' : GetSystemConfig w = (Ok system, w') → system_of (cw_tables w) = Ok system.
Proof.
  unfold GetSystemConfig. intros (found & w1 & (Hq & _)%wrap_ok%query_ok & Hs)%bind_ok. unfold system_of.
  injection Hq as ->. by injection Hs as ->.
Qed.

(** C10: A publication activates what it stored, or nothing.  When [Publish] succeeds, the
    draft's text was appended to the tenant's history, as its only change, under the
    number that follows the tenant's last one; the version returned has the document that
    text decodes to; and the registry slot of the document's tenant reference holds the
    snapshot compiled from exactly that document, the stored system defaults, that
    number, the time of the publication and the keys that are active for the tenant: a
    coherent snapshot of the scope's own tenant.  When it fails, for whatever reason, the
    running configuration of every tenant is the one before. *)
Theorem publish_activates_or_leaves w now scope draftID revision actor :
  match Publish w now scope draftID revision actor with
  | (Err _, w') => cw_registry w' = cw_registry w
  | (Ok v, w') =>
      ∃ row system keys db,
        dr_Changes <$> select_draft scope draftID (cw_tables w) = Some (vr_Compiled row) ∧
        unmarshal_document (vr_Compiled row) = Ok (ve_Config v) ∧
        tb_versions (cw_tables w') = (tb_versions (cw_tables w) ++ [row])%list ∧ vr_TenantID row = scope ∧
        vr_Version row = max_version (history scope (cw_tables w)) + 1 ∧ ve_Version v = vr_Version row ∧
        system_of (cw_tables w) = Ok system ∧ (ListActive db scope).1 = Ok keys ∧ same_rows (cw_db w) db ∧
        let s := NewTenantSnapshot (snapshot_data (ApplySystemDefaults system (ve_Config v)) (ve_Version v) now keys) in
        cw_registry w' = ActivateTenant (cw_registry w) (tn_PublicRef (doc_Tenant (ve_Config v))) (Some s) ∧ coherent s ∧
        sn_TenantID s = scope ∧ sn_apiKeys s = index_by ak_PublicID (map compile_key keys)
  end.
Proof.
  pose proof (Publish_cases w now scope draftID revision actor) as Hc. unfold outcome in Hc.
  destruct (Publish _ _ _ _ _ _) as [[v|e] w']; [|done].
  destruct Hc as (w1 & w2 & system & keys & row & s & [_ Htext (Hs & Ht1 & _) (Hk & Hrows) Hval Hrow [Ht _] Hsn Hreg]).
  exists row, system, keys, (cw_db w2). apply validated_tenant in Hval. pose proof (compiled_coherent _ _ _ _ _ _ Hsn) as Hcoh.
  apply compiled_fields in Hsn as Hf. destruct Hf as (Hti & Htr & _ & _ & _ & Hks). destruct Hrow as (Hrs & Hrd & Hrv & Hat).
  apply compiled_snapshot in Hsn as Hs'. rewrite Hat in Hs'.
  assert (ve_Version v = vr_Version row ∧ unmarshal_document (vr_Compiled row) = Ok (ve_Config v)) as [Hv Hdoc].
  { unfold decodeVersion in Hrd. destruct (unmarshal_document _); [|done]. by injection Hrd as <-. }
  apply GetSystemConfig_ok in Hs. rewrite Ht1 in Hs. cbv zeta. rewrite <- Hs'. split_and!; try done; congruence.
Qed.

(** ** Restart *)

Lemma next_fault_calm w : db_faults (cw_db w) = [] → next_fault w = (None, w).
Proof. unfold next_fault. by intros ->. Qed.

Lemma GetSystemConfig_calm w : db_faults (cw_db w) = [] → GetSystemConfig w = (system_of (cw_tables w), w).
Proof. intros Hf. unfold GetSystemConfig, query. by rewrite next_fault_calm. Qed.

Lemma ListActive_calm db scope : db_faults db = [] → (ListActive db scope).2 = db.
Proof. intros Hf. unfold ListActive. case_bool_decide; [done|]. by rewrite statement_calm. Qed.

Lemma list_keys_calm w scope : db_faults (cw_db w) = [] → list_keys w scope = ((ListActive (cw_db w) scope).1, w).
Proof.
  intros Hf. unfold list_keys. pose proof (ListActive_calm (cw_db w) scope Hf) as Hd. destruct (ListActive _ _) as [r db].
  simpl in *. subst db. by destruct w.
Qed.

(** What reconciliation makes of a stored version. *)
Definition restored (t : Tables) (db : DB) (overlay : option Snapshot.GuardrailPolicy) (v : Version) :
    option TenantRuntimeSnapshot :=
  if same (ve_TenantID v) "" then None
  else match system_of t, (ListActive db (ve_TenantID v)).1 with
       | Ok system, Ok keys =>
           if HasErrors (ValidateForTenantWithSystemDefaults system (overlaid (ve_Config v) overlay) (ve_TenantID v)) then None
           else match CompileWithSystemDefaultsAndAPIKeys system (overlaid (ve_Config v) overlay) (ve_Version v) (ve_PublishedAt v) keys with
                | Ok s => Some s
                | Err _ => None
                end
       | _, _ => None
       end.

Lemma compileAndActivate_calm w v overlay :
  db_faults (cw_db w) = [] →
  match restored (cw_tables w) (cw_db w) overlay v with
  | Some s => compileAndActivate w (ve_TenantID v) v overlay = (Ok tt, activate w s)
  | None => ∃ e, compileAndActivate w (ve_TenantID v) v overlay = (Err e, w)
  end.
Proof.
  intros Hf. unfold restored, compileAndActivate, valid_scope. destruct (same _ _); [by eexists|].
  rewrite GetSystemConfig_calm by done. destruct (system_of _) as [system|e]; simpl; [|by eexists].
  unfold validated. destruct (ListActive _ _).1 as [keys|e] eqn:Hk.
  - destruct (HasErrors _); [by eexists|]. rewrite list_keys_calm, Hk by done. simpl. unfold compile_into.
    destruct (CompileWithSystemDefaultsAndAPIKeys _ _ _ _ _); simpl; [done|by eexists].
  - destruct (HasErrors _); [by eexists|]. rewrite list_keys_calm, Hk by done. by eexists.
Qed.

Definition activate_all (r : ActiveRegistry) (snapshots : list TenantRuntimeSnapshot) : ActiveRegistry :=
  foldl (λ r s, ActivateTenant r (sn_TenantRef s) (Some s)) r snapshots.

Lemma reconcile_each_calm loader versions w :
  db_faults (cw_db w) = [] →
  let snapshots := omap (λ v, restored (cw_tables w) (cw_db w) (loader (ve_TenantID v)) v) versions in
  (reconcile_each loader versions w).1.1 = length snapshots ∧
  cw_registry (reconcile_each loader versions w).2 = activate_all (cw_registry w) snapshots.
Proof.
  revert w. induction versions as [|v versions IH]; intros w Hf; simpl; [done|].
  pose proof (compileAndActivate_calm w v (loader (ve_TenantID v)) Hf) as Hc.
  destruct (restored _ _ _ v) as [s|].
  - rewrite Hc. destruct (IH (activate w s) Hf) as [Hn Hr]. simpl in *.
    destruct (reconcile_each loader versions (activate w s)) as [[n failures] w2]. simpl in *. by rewrite Hn.
  - destruct Hc as [e ->]. destruct (IH w Hf) as [Hn Hr]. simpl in *.
    by destruct (reconcile_each loader versions w) as [[n failures] w2].
Qed.

Lemma Tenant_activate_all r snapshots s :
  s ∈ snapshots → (∀ s', s' ∈ snapshots → sn_TenantRef s' = sn_TenantRef s → s' = s) →
  Tenant (activate_all r snapshots) (sn_TenantRef s) = Some s.
Proof.
  induction snapshots as [|x snapshots IH] using rev_ind; intros Hin Hu; [by apply elem_of_nil in Hin|].
  unfold activate_all. rewrite foldl_app. simpl. rewrite Tenant_activate. case_decide as Hx.
  - f_equal. apply Hu; set_solver.
  - apply IH; [set_solver|]. intros s' Hs'. apply Hu. set_solver.
Qed.

Lemma max_version_bound rows r : r ∈ rows → vr_Version r <= max_version rows.
Proof.
  destruct rows as [|row rows]; [by intros ?%elem_of_nil|]. unfold max_version.
  destruct (proj1 (foldl_max rows (vr_Version row) _) eq_refl) as (_ & Hle & Hall).
  intros [->|Hr]%elem_of_cons; auto.
Qed.

Lemma max_version_snoc rows row : vr_Version row = max_version rows + 1 → max_version (rows ++ [row])%list = vr_Version row.
Proof.
  destruct rows as [|r rows]; [done|]. unfold max_version. simpl. rewrite foldl_app. simpl. lia.
Qed.

(** After a publication the stored row is the tenant's only latest one. *)
Lemma latest_rows_snoc t row :
  vr_Version row = max_version (history (vr_TenantID row) t) + 1 →
  let t' := with_versions t (tb_versions t ++ [row])%list in
  row ∈ latest_rows t' ∧ ∀ r, r ∈ latest_rows t' → vr_TenantID r = vr_TenantID row → r = row.
Proof.
  intros Hv t'. assert (max_version (history (vr_TenantID row) t') = vr_Version row) as Hm.
  { subst t'. rewrite history_snoc, decide_True by done. by apply max_version_snoc. }
  split.
  - apply list_elem_of_filter. split; [done|]. apply elem_of_app. right. by apply list_elem_of_singleton.
  - intros r [Hr [Hin|Hin%list_elem_of_singleton]%elem_of_app]%list_elem_of_filter Hs; [|done]. rewrite Hs, Hm in Hr.
    assert (vr_Version r <= max_version (history (vr_TenantID row) t)); [|lia].
    apply max_version_bound, list_elem_of_filter. done.
Qed.

Lemma latest_rows_versions t t' : tb_versions t = tb_versions t' → latest_rows t = latest_rows t'.
Proof. unfold latest_rows, history. by intros ->. Qed.

Lemma decode_all_elem {X Y} (decode : X → result Y) rows :
  (∀ row, row ∈ rows → ∃ y, decode row = Ok y) →
  ∃ items, decode_all decode rows = Ok items ∧ ∀ y, y ∈ items ↔ ∃ row, row ∈ rows ∧ decode row = Ok y.
Proof.
  induction rows as [|row rows IH]; intros Hd.
  - exists []. split; [done|]. intros y. split; [by intros ?%elem_of_nil|by intros (r & ?%elem_of_nil & _)].
  - destruct (Hd row) as [y Hy]; [by left|]. destruct IH as (items & Hi & Hall); [intros r Hr; apply Hd; by right|].
    exists (y :: items). simpl. rewrite Hy, Hi. split; [done|]. intros z. rewrite elem_of_cons, Hall.
    setoid_rewrite elem_of_cons. split.
    + intros [->|(r & Hr & Hz)]; eauto.
    + intros (r & [->|Hr] & Hz); [left; congruence|right; eauto].
Qed.

Lemma ReconcileAll_calm loader w versions :
  db_faults (cw_db w) = [] →
  decode_all readVersion (merge_sort by_tenant (latest_rows (cw_tables w))) = Ok versions →
  cw_registry (ReconcileAll loader w).2 =
    activate_all (cw_registry w) (omap (λ v, restored (cw_tables w) (cw_db w) (loader (ve_TenantID v)) v) versions).
Proof.
  intros Hf Hd. unfold ReconcileAll, ListLatestVersions, query. rewrite next_fault_calm, Hd by done.
  destruct (reconcile_each_calm loader versions w Hf) as [_ Hr].
  by destruct (reconcile_each loader versions w) as [[n failures] w'].
Qed.

Lemma ListActive_again db db' scope keys :
  (ListActive db scope).1 = Ok keys → same_rows db db' → db_faults db' = [] → (ListActive db' scope).1 = Ok keys.
Proof.
  intros Hl [Hk _] Hf. unfold ListActive in *. case_bool_decide; [done|]. rewrite statement_calm by done. simpl.
  rewrite Hk. unfold statement in Hl. by destruct (db_faults db) as [|[e|] rest].
Qed.

Lemma restored_ref t db overlay v s :
  restored t db overlay v = Some s → sn_TenantRef s = tn_PublicRef (doc_Tenant (ve_Config v)).
Proof.
  unfold restored. destruct (same _ _); [done|]. destruct (system_of t); [|done]. destruct (ListActive _ _).1; [|done].
  destruct (HasErrors _); [done|]. destruct (CompileWithSystemDefaultsAndAPIKeys _ _ _ _ _) eqn:Hc; [|done].
  intros [= <-]. apply compiled_fields in Hc as (_ & Hr & _). rewrite Hr. by destruct overlay.
Qed.

Lemma restored_published w now scope draftID v w' w1 w2 system keys row s t db v' :
  publication w now scope draftID v w' w1 w2 system keys row s → readVersion row = Ok v' →
  tb_system t = tb_system (cw_tables w) → same_rows (cw_db w) db → db_faults db = [] →
  restored t db None v' =
    Some (NewTenantSnapshot (snapshot_data (ApplySystemDefaults system (ve_Config v)) (ve_Version v) (column_time now) keys)).
Proof.
  intros [Hscope _ (Hsys & Ht1 & _) [Hk Hrows] Hval (Hrs & Hrd & _ & Hat) _ Hsn _] Hread Ht Hdb Hf.
  assert (ve_TenantID v' = scope ∧ ve_Config v' = ve_Config v ∧ ve_Version v' = ve_Version v ∧ ve_PublishedAt v' = column_time now)
    as (Hv & Hc & Hn & Hp).
  { unfold readVersion, decodeVersion in Hrd, Hread. simpl in Hread. destruct (unmarshal_document _); [|done].
    injection Hrd as <-. injection Hread as <-. simpl in *. by rewrite Hat. }
  unfold restored. rewrite Hv. destruct (same scope "") eqn:He; [by apply same_spec in He|].
  apply GetSystemConfig_ok in Hsys. unfold system_of in *. rewrite Ht, <- Ht1, Hsys.
  rewrite (ListActive_again _ db _ _ Hk); [|destruct Hrows, Hdb; split; congruence|done].
  simpl. rewrite Hc, Hval, Hn, Hp. by rewrite (compiled_later _ _ _ _ _ _ _ Hsn).
Qed.

(** C32: A restart restores what was published.  After a successful publication, a
    process that starts with an empty registry on the stored tables, with a database
    that answers, and reconciles every tenant without overlays runs the snapshot that
    the publication activated - compiled from the same document, defaults, keys and
    number - but for its publication time, which is what the published_at column gives
    back of it (on PostgreSQL, the microsecond); provided that every tenant's latest
    version can be decoded and that no other tenant's latest document has the same
    public reference. *)
Theorem restart_restores_published w now scope draftID revision actor v (w' booted : CWorld R) :
  Publish w now scope draftID revision actor = (Ok v, w') →
  cw_tables booted = cw_tables w' → same_rows (cw_db w) (cw_db booted) → db_faults (cw_db booted) = [] →
  (∀ row, row ∈ latest_rows (cw_tables w') → ∃ v', readVersion row = Ok v' ∧
    (tn_PublicRef (doc_Tenant (ve_Config v')) = tn_PublicRef (doc_Tenant (ve_Config v)) → vr_TenantID row = scope)) →
  let ref := tn_PublicRef (doc_Tenant (ve_Config v)) in
  ∃ system keys,
    let snapshot at_ := NewTenantSnapshot (snapshot_data (ApplySystemDefaults system (ve_Config v)) (ve_Version v) at_ keys) in
    Tenant (cw_registry w') ref = Some (snapshot now) ∧
    Tenant (cw_registry (ReconcileAll (λ _, None) booted).2) ref = Some (snapshot (column_time now)).
Proof.
  intros Hp Ht Hdb Hf Hdec ref. pose proof (Publish_cases w now scope draftID revision actor) as Hc. rewrite Hp in Hc.
  destruct Hc as (w1 & w2 & system & keys & row & s & Hpub). exists system, keys.
  set (s' := NewTenantSnapshot (snapshot_data (ApplySystemDefaults system (ve_Config v)) (ve_Version v) (column_time now) keys)).
  pose proof Hpub as [_ _ _ _ _ (Hrs & Hrd & Hrv & Hat) [Htv Hsys] Hsn Hreg].
  rewrite <- Hrs in Hrv. destruct (latest_rows_snoc (cw_tables w) row Hrv) as [Hlast Honly].
  rewrite <- (latest_rows_versions (cw_tables w') (with_versions _ _)) in Hlast, Honly by done.
  destruct (Hdec row Hlast) as (v' & Hread & _).
  assert (restored (cw_tables booted) (cw_db booted) None v' = Some s') as Hres.
  { eapply restored_published; [done|done| |done|done]. by rewrite Ht. }
  pose proof (restored_ref _ _ _ _ _ Hres) as Href.
  assert (ve_Config v' = ve_Config v) as Hcfg.
  { unfold readVersion, decodeVersion in Hrd, Hread. simpl in Hread. destruct (unmarshal_document _); [|done].
    injection Hrd as <-. by injection Hread as <-. }
  rewrite Hcfg in Href. fold ref in Href. apply compiled_fields in Hsn as Hfields. destruct Hfields as (_ & Hsr & _).
  apply compiled_snapshot in Hsn. rewrite Hat in Hsn. simpl. rewrite <- Hsn.
  split; [rewrite Hreg, Hsr, Tenant_activate; by rewrite decide_True|]. rewrite <- Ht in *.
  destruct (decode_all_elem readVersion (merge_sort by_tenant (latest_rows (cw_tables booted)))) as (versions & Hd & Hel).
  { intros r Hr. rewrite merge_sort_Permutation in Hr. destruct (Hdec r Hr) as (y & Hy & _). eauto. }
  rewrite (ReconcileAll_calm _ _ versions) by done. fold s'. rewrite <- Href. apply Tenant_activate_all.
  - apply list_elem_of_omap. exists v'. split; [|done]. apply Hel. exists row. by rewrite merge_sort_Permutation.
  - intros s1 (v1 & (r & Hr & Hrd')%Hel & Hs')%list_elem_of_omap He. rewrite merge_sort_Permutation in Hr.
    destruct (Hdec r Hr) as (v'' & Hd'' & Hown). assert (v'' = v1) as -> by congruence.
    apply restored_ref in Hs' as Hr'. assert (r = row) as -> by (apply Honly; [done|]; rewrite Hrs; apply Hown; unfold ref in Href; congruence).
    congruence.
Qed.

(** ** Reconciliation of one tenant *)

(** An operation that keeps the keys, the published versions and the global runtime. *)
Definition steady {A} (r : result A * CWorld R) w : Prop :=
  same_rows (cw_db w) (cw_db r.2) ∧ tb_versions (cw_tables r.2) = tb_versions (cw_tables w) ∧
  ar_global (cw_registry r.2) = ar_global (cw_registry w).

Lemma steady_refl {A} (r : result A) w : steady (r, w) w.
Proof. by repeat split. Qed.

Lemma steady_bind {A B} w (r : result A * CWorld R) (k : A → CWorld R → result B * CWorld R) :
  steady r w → (∀ a w', steady (k a w') w') → steady (bind r k) w.
Proof.
  destruct r as [[a|e] w']; intros Hr Hk; [|done]. specialize (Hk a w'). unfold steady, same_rows in *. simpl in *.
  destruct Hr as ((? & ?) & ? & ?), Hk as ((? & ?) & ? & ?). split_and!; congruence.
Qed.

Lemma steady_quiet {A} w (r : result A * CWorld R) : quiet r w → cw_tables r.2 = cw_tables w → steady r w.
Proof. intros [Hg Hd] Ht. unfold steady. by rewrite Ht, Hg. Qed.

Lemma steady_query {A} w (read : Tables → result A) : steady (query w read) w.
Proof.
  apply steady_quiet; [apply quiet_query|]. unfold query.
  destruct (next_fault w) as [[e|] w1] eqn:Hf; by apply next_fault_frame in Hf as [Ht _].
Qed.

Lemma steady_GetVersion w scope version : steady (GetVersion w scope version) w.
Proof.
  unfold GetVersion, valid_scope. destruct (same _ _); [apply steady_refl|].
  apply steady_bind; [apply steady_query|intros; apply steady_refl].
Qed.

Lemma steady_Audit w scope row : steady (Audit w scope row) w.
Proof.
  unfold Audit, valid_scope. destruct (same _ _); [apply steady_refl|].
  assert (steady (execute w (insertConfigAudit row)) w) as Hs; [|by destruct (execute _ _) as [[u|e] w1]].
  unfold execute. destruct (next_fault w) as [[e|] w1] eqn:Hf; apply quiet_fault in Hf as Hq; apply next_fault_frame in Hf as [Ht _];
    destruct Hq as [Hg Hd]; unfold steady; simpl; [by rewrite Ht, Hg|].
  unfold insertConfigAudit. destruct (existsb _ _); simpl; by rewrite Hg, Ht.
Qed.

Lemma steady_Reconcile w now scope version actor : steady (Reconcile w now scope version actor) w.
Proof.
  unfold Reconcile. apply steady_bind; [apply steady_GetVersion|]. intros source w1.
  apply steady_bind; [apply steady_quiet; [apply quiet_GetSystemConfig|apply (reads_tables w1 scope)]|]. intros system w2.
  unfold validated. destruct (HasErrors _); [apply steady_refl|].
  apply steady_bind; [apply steady_quiet; [apply quiet_keys|apply (reads_tables w2 scope)]|]. intros keys w3.
  apply steady_bind.
  { unfold compile_into. destruct (CompileWithSystemDefaultsAndAPIKeys _ _ _ _ _); by repeat split. }
  intros _u w4. apply steady_bind; [apply steady_quiet; [apply quiet_new_id|apply (reads_tables w4 scope)]|].
  intros auditID w5. apply steady_bind; [apply steady_Audit|intros; apply steady_refl].
Qed.

Lemma GetVersion_ok w scope version v w' :
  GetVersion w scope version = (Ok v, w') →
  ∃ row, select_version scope version (cw_tables w) = Some row ∧ readVersion row = Ok v.
Proof.
  unfold GetVersion, valid_scope. destruct (same scope ""); [done|].
  intros (found & w1 & (Hq & _)%query_ok & Hd)%bind_ok. injection Hq as Hq. injection Hd as Hd _.
  destruct found as [row|]; [by exists row|done].
Qed.

Lemma Audit_registry w scope row : cw_registry (Audit w scope row).2 = cw_registry w.
Proof.
  assert (quiet (Audit w scope row) w) as [Hg _]; [|done].
  unfold Audit. apply quiet_scope. intros w1. apply quiet_wrap, quiet_execute.
Qed.

(** A reconciliation that succeeds runs the stored version with the keys that are
    active now. *)
Lemma Reconcile_ok w now scope version actor source w' :
  Reconcile w now scope version actor = (Ok source, w') →
  ∃ row s system keys db,
    select_version scope version (cw_tables w) = Some row ∧ readVersion row = Ok source ∧
    HasErrors (ValidateForTenantWithSystemDefaults system (ve_Config source) scope) = false ∧
    CompileWithSystemDefaultsAndAPIKeys system (ve_Config source) (ve_Version source) now keys = Ok s ∧
    (ListActive db scope).1 = Ok keys ∧ same_rows (cw_db w) db ∧
    cw_registry w' = ActivateTenant (cw_registry w) (sn_TenantRef s) (Some s).
Proof.
  unfold Reconcile. intros (v & w1 & Hv & Hrest)%bind_ok.
  apply bind_ok in Hrest as (system & w2 & Hs & Hrest). unfold validated in Hrest. destruct (HasErrors _) eqn:Hval; [done|].
  apply bind_ok in Hrest as (keys & w3 & Hk & Hrest). apply bind_ok in Hrest as (u & w4 & Hc & Hrest).
  apply bind_ok in Hrest as (auditID & w5 & Hid & Hrest). apply bind_ok in Hrest as (u' & w6 & Ha & Hrest).
  injection Hrest as -> ->.
  pose proof (steady_GetVersion w scope version) as [Hr1 _]. pose proof (quiet_GetSystemConfig w1) as [Hg2 Hr2].
  pose proof (quiet_keys w2 scope) as [Hg3 Hr3]. pose proof (quiet_new_id w4) as [Hg5 _].
  pose proof (Audit_registry w5 scope) as Hg6.
  assert (cw_registry w1 = cw_registry w) as Hg1.
  { unfold GetVersion, valid_scope in Hv. destruct (same scope ""); [done|].
    apply bind_ok in Hv as (found & wq & (_ & _ & Hq)%query_ok & Hd). by injection Hd as _ <-. }
  rewrite Hv in Hr1. rewrite Hs in Hg2, Hr2. rewrite Hk in Hg3, Hr3. rewrite Hid in Hg5. simpl in *.
  apply GetVersion_ok in Hv as (row & Hrow & Hdec). unfold compile_into in Hc.
  destruct (CompileWithSystemDefaultsAndAPIKeys _ _ _ _ _) as [s|e] eqn:Hcomp; [|done]. injection Hc as Hc <-.
  exists row, s, system, keys, (cw_db w2). split_and!; try done.
  - unfold list_keys in Hk. destruct (ListActive _ _). by injection Hk as ->.
  - destruct Hr1, Hr2. split; congruence.
  - specialize (Hg6 {| au_ID := auditID; au_TenantID := scope; au_ActorID := actor; au_Action := "config.reconcile";
      au_ResourceID := ve_ID source; au_Version := ve_Version source; au_OccurredAt := now |}). rewrite Ha in Hg6. simpl in *.
    rewrite Hg6, Hg5. simpl. congruence.
Qed.
End Activation.

(** ** Concrete histories *)

(** The documents of the examples by name: a reference, for the full document of
    tenant t, a name of the form u/ref for the bare document of tenant u. *)
Definition bare_document (tenant ref : string) : TenantConfig :=
  {| doc_SchemaVersion := "v1";
     doc_Tenant := {| tn_ID := tenant; tn_PublicRef := ref; tn_Status := "active"; tn_SecurityEpoch := 1;
                      tn_AllowedDataRegions := []; tn_ResidencyEnforcement := "" |};
     doc_Projects := []; doc_Providers := []; doc_Credentials := []; doc_Deployments := []; doc_RoutePolicies := [];
     doc_LogicalModels := []; doc_BudgetPolicies := []; doc_CredentialPools := [];
     doc_Circuit := doc_Circuit (example_document ref "eu"); doc_Drift := doc_Drift (example_document ref "eu");
     doc_AccountingSpool := doc_AccountingSpool (example_document ref "eu"); doc_Cache := no_cache; doc_MCPServers := [];
     doc_Tools := []; doc_ToolPolicies := []; doc_Agents := []; doc_AgentEndpoints := []; doc_FederatedAgents := [];
     doc_FederationRelationships := [];
     doc_Guardrail := {| cgp_Mode := ""; cgp_Rules := []; cgp_Judge := {| gj_Enabled := false; gj_Model := ""; gj_Action := "" |};
                         cgp_Groundedness := {| gg_Enabled := false; gg_MinOverlap := f64_zero |} |} |}.

#[local] Instance named_documents : DocumentJSON := {
  marshal_document d :=
    Ok (if same (tn_ID (doc_Tenant d)) "t" then tn_PublicRef (doc_Tenant d)
        else "u/" +:+ tn_PublicRef (doc_Tenant d));
  unmarshal_document s :=
    if same s "" then Err (ErrNew "unexpected end of JSON input")
    else if String.prefix "u/" s then Ok (bare_document "u" (String.substring 2 (String.length s) s))
    else Ok (example_document s "eu");
  marshal_system _ := Ok ""; unmarshal_system _ := Ok no_system }.

#[local] Existing Instances counting_reader bits_json plain_urls postgres_time.

Definition example_draft (id tenant text : string) : DraftRow :=
  {| dr_ID := id; dr_TenantID := tenant; dr_BaseVersion := 0; dr_Revision := 1; dr_Status := "editing"; dr_Changes := text;
     dr_CreatedBy := "ops"; dr_UpdatedBy := "ops"; dr_CreatedAt := 0; dr_UpdatedAt := 0 |}.

Definition example_world (drafts : list DraftRow) : CWorld Z :=
  {| cw_db := empty_db; cw_tables := {| tb_drafts := drafts; tb_versions := []; tb_audit := []; tb_system := None |};
     cw_registry := {| ar_global := None; ar_tenants := ∅ |}; cw_rng := 1; cw_delivered := [] |}.

Definition two_drafts : CWorld Z := example_world [example_draft "d1" "t" "acme"; example_draft "d2" "u" "u/acme"].

Lemma version_history_append_only_witness :
  let ops := [op_publish 5 "t" "d1" 1 "ops"] in
  let ops' := [op_publish 6 "t" "d1" 1 "ops"; op_faults [None; Some (ErrNew "down")]; op_rollback 7 "t" 1 "ops";
               op_rollback 8 "t" 1 "ops"] in
  map vr_Version (tb_versions (cw_tables (foldl exec two_drafts (ops ++ ops')))) = [1; 2] ∧
  numbered (cw_tables (foldl exec two_drafts (ops ++ ops'))).
Proof.
  intros ops ops'. split; [vm_compute; reflexivity|].
  apply (version_history_append_only two_drafts ops ops'). reflexivity.
Defined.

Definition published_once : CWorld Z := (Publish two_drafts 5 "t" "d1" 1 "ops").2.

(** A new process on the stored tables. *)
Definition reboot (w : CWorld Z) : CWorld Z :=
  {| cw_db := cw_db w; cw_tables := cw_tables w; cw_registry := {| ar_global := None; ar_tenants := ∅ |}; cw_rng := cw_rng w; cw_delivered := [] |}.

Lemma restart_restores_published_witness :
  match Publish two_drafts 5432 "t" "d1" 1 "ops" with
  | (Ok v, w') => ∃ s, Tenant (cw_registry (ReconcileAll (λ _, None) (reboot w')).2) "acme" = Some s ∧ sn_PublishedAt s = 5000
  | (Err _, _) => False
  end.
Proof.
  destruct (Publish two_drafts 5432 "t" "d1" 1 "ops") as [[v|e] w'] eqn:Hp; [|vm_compute in Hp; discriminate].
  assert (tn_PublicRef (doc_Tenant (ve_Config v)) = "acme") as Hr.
  { apply (f_equal fst) in Hp. vm_compute in Hp. by injection Hp as <-. }
  assert (w' = (Publish two_drafts 5432 "t" "d1" 1 "ops").2) as Hw by (by rewrite Hp).
  destruct (restart_restores_published two_drafts 5432 "t" "d1" 1 "ops" v w' (reboot w'))
    as (system & keys & _ & Hs); [exact Hp|done|by rewrite Hw|by rewrite Hw| |].
  - rewrite Hw. vm_compute. intros row Hrow. apply list_elem_of_singleton in Hrow as ->. eexists. split; reflexivity.
  - rewrite Hr in Hs. eexists. split; [exact Hs|reflexivity].
Defined.

(** ** Edges of the service *)

Definition observe_policy : Snapshot.GuardrailPolicy :=
  {| gp_Mode := "observe"; gp_SecurityEpoch := 1; gp_Rules := []; gp_Judge := {| gj_Enabled := true; gj_Model := "gpt"; gj_Action := "block" |};
     gp_Groundedness := {| gg_Enabled := false; gg_MinOverlap := f64_zero |} |}.

Definition running_mode (w : CWorld Z) (ref : string) : option (string * bool) :=
  (λ s, (gp_Mode (sn_guardrail s), gj_Enabled (gp_Judge (sn_guardrail s)))) <$> Tenant (cw_registry w) ref.

(** A guardrail policy that was fast-published replaces the running one, without the
    model judge of either; the next publication runs the document's own policy again,
    and a restart, which loads the overlays, runs the overlay again. *)
Example publication_and_restart_disagree :
  let w := (OverlayGuardrail published_once "t" observe_policy).2 in
  let again := (Rollback w 9 "t" 1 "ops").2 in
  running_mode published_once "acme" = Some ("enforce", true) ∧ running_mode w "acme" = Some ("observe", false) ∧
  running_mode again "acme" = Some ("enforce", true) ∧
  running_mode (ReconcileAll (λ _, Some observe_policy) (reboot again)).2 "acme" = Some ("observe", false).
Proof. vm_compute. done. Qed.

(** A tenant's document can name another tenant's public reference: the validator does
    not look at it, and publication replaces that tenant's running snapshot. *)
Example publication_takes_over_a_reference :
  (sn_TenantID <$> Tenant (cw_registry published_once) "acme") = Some "t" ∧
  (sn_TenantID <$> Tenant (cw_registry (Publish published_once 6 "u" "d2" 1 "mallory").2) "acme") = Some "u".
Proof. vm_compute. done. Qed.

(** A tenant that changes its reference keeps running under the old one too. *)
Example renamed_tenant_keeps_old_slot :
  let w := example_world [example_draft "d1" "t" "acme"; example_draft "d2" "t" "acme-corp"] in
  let w := (Publish (Publish w 5 "t" "d1" 1 "ops").2 6 "t" "d2" 1 "ops").2 in
  (sn_Version <$> Tenant (cw_registry w) "acme") = Some 1 ∧ (sn_Version <$> Tenant (cw_registry w) "acme-corp") = Some 2 ∧
  (sn_Version <$> Tenant (cw_registry (ReconcileAll (λ _, None) (reboot w)).2) "acme") = None.
Proof. vm_compute. done. Qed.

(** A rebase that reports success leaves the draft's base version where it was, so the
    next rebase has the same work to do. *)
Example rebase_keeps_the_base :
  let w := (CreateDraft published_once 6 "t" "ops") in
  match w with
  | (Ok draft, w) =>
      let w := (Rollback w 7 "t" 1 "ops").2 in
      let '(r, w) := Rebase w 8 "t" (df_ID draft) "ops" in
      r = Ok (Rebased 2) ∧ (dr_BaseVersion <$> select_draft "t" (df_ID draft) (cw_tables w)) = Some 1 ∧
      (Rebase w 9 "t" (df_ID draft) "ops").1 = Ok (Rebased 3)
  | _ => False
  end.
Proof. vm_compute. done. Qed.

(** One stored version that cannot be decoded keeps every tenant from being restored. *)
Example undecodable_version_blocks_every_tenant :
  let bad := {| vr_ID := "x"; vr_TenantID := "u"; vr_Version := 1; vr_SourceDraftID := None; vr_Compiled := "";
                vr_PublishedBy := "ops"; vr_PublishedAt := 1 |} in
  let w := set_tables (reboot published_once) (with_versions (cw_tables published_once) (tb_versions (cw_tables published_once) ++ [bad])%list) in
  (ReconcileAll (λ _, None) w).1.1 = O ∧ Tenant (cw_registry (ReconcileAll (λ _, None) w).2) "acme" = None ∧
  is_Some (Tenant (cw_registry (ReconcileAll (λ _, None) (reboot published_once)).2) "acme").
Proof. vm_compute. split_and!; [done|done|by eexists]. Qed.

(** The age of a snapshot that runs exactly the published version counts against the
    grace: a tenant that has not published for longer than it is not ready. *)
Example settled_tenant_not_ready :
  let drift := {| dm_Version := 1; dm_GraceMS := 1000; dm_Strict := false; dm_SecurityEpoch := 0 |} in
  let report := DetectDrift (Tenant (cw_registry published_once) "acme") 1 drift (5 + 1001 * millisecond) in
  drp_LiveVersion report = drp_PublishedVersion report ∧ drp_Level report = DriftCritical ∧ IsReady report = false.
Proof. vm_compute. done. Qed.
