(* ===== verification/Delivery.v ===== *)
(** * Delivery of configuration to data planes

    platform/bundle: the signed bundle (bundle.go), its wire form and signer
    (delivery.go), preparation and activation (prepare.go), the hub, its endpoint and
    its client (transport.go), and app/bundlesync.go, which pulls bundles into a
    gateway's registry.

    encoding/json writes the exported fields of a struct: [exported] is what it sees of
    a compiled snapshot.  The JSON text itself and Ed25519 are interfaces, and the
    network is a function from URL and token to an answer. *)

From stdpp Require Import pretty.
From S2P Require Import Prelude GoFloat GoStd Snapshot ApiKey Egress Config ConfigService.

Open Scope string_scope.
Open Scope Z_scope.

(** ** The bundle *)

Record RuntimeBundle := {
  bn_SchemaVersion : string; bn_TenantID : string; bn_TenantRef : string; bn_ConfigVersion : Z; bn_SecurityEpoch : Z;
  bn_SystemRuntimeVersion : Z; bn_PublishedAt : Z; bn_PayloadChecksum : string; bn_Signature : list Z;
  bn_Snapshot : option TenantRuntimeSnapshot }.

(** The exported fields of [TenantRuntimeSnapshot]. *)
Record ExportedSnapshot := {
  ex_TenantID : string; ex_TenantRef : string; ex_Status : string; ex_Version : Z; ex_SecurityEpoch : Z;
  ex_PublishedAt : Z }.

Definition exported (s : TenantRuntimeSnapshot) : ExportedSnapshot :=
  {| ex_TenantID := sn_TenantID s; ex_TenantRef := sn_TenantRef s; ex_Status := sn_Status s;
     ex_Version := sn_Version s; ex_SecurityEpoch := sn_SecurityEpoch s; ex_PublishedAt := sn_PublishedAt s |}.

(** The local struct of [Payload]. *)
Record payloadWire := {
  pw_SchemaVersion : string; pw_TenantID : string; pw_TenantRef : string; pw_ConfigVersion : Z; pw_SecurityEpoch : Z;
  pw_SystemRuntimeVersion : Z; pw_PublishedAt : Z; pw_Snapshot : option ExportedSnapshot }.

Record wireBundle := {
  wb_SchemaVersion : string; wb_TenantID : string; wb_TenantRef : string; wb_ConfigVersion : Z; wb_SecurityEpoch : Z;
  wb_SystemRuntimeVersion : Z; wb_PublishedAt : Z; wb_PayloadChecksum : string; wb_Signature : list Z;
  wb_SnapshotData : TenantSnapshotData }.

(** The hub: the latest signed bundle of each tenant reference. *)
Notation Hub := (gmap string wireBundle).

Class BundleJSON := {
  marshal_payload : payloadWire → result string;
  marshal_wire : wireBundle → result string; unmarshal_wire : string → result wireBundle;
  marshal_refs : list string → string; unmarshal_refs : string → result (list string) }.

(** [ed_keypair k]: the second half of the private key [k] is the public key of the first. *)
Class Ed25519 := {
  ed_keypair : list Z → Prop; ed_Sign : list Z → list Z → list Z; ed_Verify : list Z → list Z → list Z → bool }.
Class Ed25519Laws `{!Ed25519} := {
  ed_Sign_length : ∀ k message, length (ed_Sign k message) = 64%nat;
  ed_Verify_Sign : ∀ k message, ed_keypair k → ed_Verify (drop 32 k) message (ed_Sign k message) = true }.

Section Bundle.
Context `{!BundleJSON} `{!Ed25519}.

Definition payload_of (b : RuntimeBundle) : payloadWire :=
  {| pw_SchemaVersion := bn_SchemaVersion b; pw_TenantID := bn_TenantID b; pw_TenantRef := bn_TenantRef b;
     pw_ConfigVersion := bn_ConfigVersion b; pw_SecurityEpoch := bn_SecurityEpoch b;
     pw_SystemRuntimeVersion := bn_SystemRuntimeVersion b; pw_PublishedAt := bn_PublishedAt b;
     pw_Snapshot := exported <$> bn_Snapshot b |}.

Definition Payload (b : RuntimeBundle) : result string := marshal_payload (payload_of b).

Definition Checksum (b : RuntimeBundle) : result string :=
  match Payload b with
  | Err err => Err err
  | Ok payload => Ok (hex_encode (sha256 (bytes_of_string payload)))
  end.

Definition with_signature (b : RuntimeBundle) (checksum : string) (signature : list Z) : RuntimeBundle :=
  {| bn_SchemaVersion := bn_SchemaVersion b; bn_TenantID := bn_TenantID b; bn_TenantRef := bn_TenantRef b;
     bn_ConfigVersion := bn_ConfigVersion b; bn_SecurityEpoch := bn_SecurityEpoch b;
     bn_SystemRuntimeVersion := bn_SystemRuntimeVersion b; bn_PublishedAt := bn_PublishedAt b;
     bn_PayloadChecksum := checksum; bn_Signature := signature; bn_Snapshot := bn_Snapshot b |}.

(** [Sign] on the bundle. *)
Definition bundle_Sign (b : RuntimeBundle) (privateKey : list Z) : result RuntimeBundle :=
  match Checksum b with
  | Err err => Err err
  | Ok checksum => Ok (with_signature b checksum (ed_Sign privateKey (bytes_of_string checksum)))
  end.

Definition bundle_Verify (b : RuntimeBundle) (publicKey : list Z) : option error :=
  match bn_Signature b with
  | [] => Some (ErrNew "bundle is not signed")
  | _ :: _ =>
      match Checksum b with
      | Err err => Some err
      | Ok checksum =>
          if negb (same checksum (bn_PayloadChecksum b)) then Some (ErrNew "bundle payload checksum mismatch")
          else if negb (ed_Verify publicKey (bytes_of_string checksum) (bn_Signature b))
          then Some (ErrNew "bundle signature verification failed")
          else None
      end
  end.

(** [bytes.Equal] on the payloads; a payload that cannot be encoded reads as empty. *)
Definition EqualPayload (a b : RuntimeBundle) : bool :=
  let text (r : result string) := match r with Ok payload => payload | Err _ => "" end in
  same (text (Payload a)) (text (Payload b)).

(** ** The wire *)

(** The fields of a bundle with a snapshot's source data. *)
Definition wire_of (b : RuntimeBundle) (s : TenantRuntimeSnapshot) : wireBundle :=
  {| wb_SchemaVersion := bn_SchemaVersion b; wb_TenantID := bn_TenantID b; wb_TenantRef := bn_TenantRef b;
     wb_ConfigVersion := bn_ConfigVersion b; wb_SecurityEpoch := bn_SecurityEpoch b;
     wb_SystemRuntimeVersion := bn_SystemRuntimeVersion b; wb_PublishedAt := bn_PublishedAt b;
     wb_PayloadChecksum := bn_PayloadChecksum b; wb_Signature := bn_Signature b; wb_SnapshotData := sn_sourceData s |}.

Definition of_wire (w : wireBundle) : RuntimeBundle :=
  {| bn_SchemaVersion := wb_SchemaVersion w; bn_TenantID := wb_TenantID w; bn_TenantRef := wb_TenantRef w;
     bn_ConfigVersion := wb_ConfigVersion w; bn_SecurityEpoch := wb_SecurityEpoch w;
     bn_SystemRuntimeVersion := wb_SystemRuntimeVersion w; bn_PublishedAt := wb_PublishedAt w;
     bn_PayloadChecksum := wb_PayloadChecksum w; bn_Signature := wb_Signature w;
     bn_Snapshot := Some (NewTenantSnapshot (wb_SnapshotData w)) |}.

Definition Encode (b : RuntimeBundle) : result string :=
  match bn_Snapshot b with
  | None => Err (ErrNew "bundle has no snapshot to encode")
  | Some s => marshal_wire (wire_of b s)
  end.

Definition Decode (data : string) : result RuntimeBundle :=
  match unmarshal_wire data with
  | Err err => Err err
  | Ok w => if same (td_TenantRef (wb_SnapshotData w)) "" || (wb_ConfigVersion w =? 0)
            then Err (ErrNew "incomplete wire bundle") else Ok (of_wire w)
  end.

(** ** The signer *)

Record Signer := { sg_privateKey : list Z; sg_schema : string; sg_systemVersion : Z }.

(** [privateKey.Public()] is the second half of the key. *)
Definition PublicKey (s : Signer) : list Z := drop 32 (sg_privateKey s).
Definition PublicKeyHex (s : Signer) : string := hex_encode (PublicKey s).

Definition unsigned (s : Signer) (snapshot : TenantRuntimeSnapshot) : RuntimeBundle :=
  {| bn_SchemaVersion := if same (sg_schema s) "" then "v1" else sg_schema s; bn_TenantID := sn_TenantID snapshot;
     bn_TenantRef := sn_TenantRef snapshot; bn_ConfigVersion := sn_Version snapshot;
     bn_SecurityEpoch := sn_SecurityEpoch snapshot; bn_SystemRuntimeVersion := sg_systemVersion s;
     bn_PublishedAt := sn_PublishedAt snapshot; bn_PayloadChecksum := ""; bn_Signature := [];
     bn_Snapshot := Some snapshot |}.

(** [Sign] on the signer. *)
Definition signer_Sign (s : Signer) (snapshot : TenantRuntimeSnapshot) : result RuntimeBundle :=
  bundle_Sign (unsigned s snapshot) (sg_privateKey s).

Definition VerifyPublicKey (hexKey : string) : result (list Z) :=
  if same hexKey "" then Err (ErrNew "bundle public key is required")
  else match hex_decode hexKey with
       | None => Err (ErrNew "encoding/hex")
       | Some decoded => if (length decoded =? 32)%nat then Ok decoded else Err (ErrNew "invalid bundle public key length")
       end.

Definition NewSignerFromHex (privateKeyHex schema : string) (systemVersion : Z) : result Signer :=
  if same privateKeyHex "" then Err (ErrNew "bundle signing key is required")
  else match hex_decode privateKeyHex with
       | None => Err (ErrNew "encoding/hex")
       | Some decoded =>
           if (length decoded =? 64)%nat
           then Ok {| sg_privateKey := decoded; sg_schema := schema; sg_systemVersion := systemVersion |}
           else Err (ErrNew "invalid bundle signing key length")
       end.

(** ** Preparation and activation *)

(** [Prepare]'s Result: an acknowledgement, or the reason against it. *)
Definition Prepare (b : RuntimeBundle) (publicKey : list Z) (validator : option (RuntimeBundle → option error)) :
    option error :=
  if same (bn_SchemaVersion b) "" || same (bn_TenantID b) "" || same (bn_TenantRef b) ""
  then Some (ErrNew "incomplete bundle metadata")
  else match bundle_Verify b publicKey with
       | Some err => Some err
       | None => match validator with Some validate => validate b | None => None end
       end.

Definition Activate (b : RuntimeBundle) (acked : bool) : option error :=
  if negb acked then Some (ErrNew "cannot activate a bundle that was not ACKed")
  else match bn_Snapshot b with None => Some (ErrNew "bundle has no compiled snapshot") | Some _ => None end.

(** ** The hub and its endpoint *)

Definition hub_Publish (h : Hub) (snapshot : TenantRuntimeSnapshot) (signed : RuntimeBundle) : Hub :=
  <[sn_TenantRef snapshot := wire_of signed snapshot]> h.

Definition Latest (h : Hub) (tenantRef : string) : option RuntimeBundle := of_wire <$> h !! tenantRef.

(** The hook that app/lite.go installs in the configuration service. *)
Definition deliver (s : Signer) (h : Hub) (snapshot : TenantRuntimeSnapshot) : Hub :=
  match signer_Sign s snapshot with
  | Err _ => h
  | Ok signed => hub_Publish h snapshot signed
  end.

Record response := { rs_Status : Z; rs_Body : string }.

Record Handler := { hd_hub : Hub; hd_token : string }.

Definition authorized_token (h : Handler) (provided : string) : bool := negb (same (hd_token h) "") && same provided (hd_token h).

(** [order] is the iteration order over the hub. *)
Definition ServeHTTP (h : Handler) (order : list string) (provided tenantRef : string) : response :=
  if negb (authorized_token h provided) then {| rs_Status := 401; rs_Body := "UNAUTHORIZED" |}
  else if same tenantRef "" then {| rs_Status := 200; rs_Body := marshal_refs order |}
  else match Latest (hd_hub h) tenantRef with
       | None => {| rs_Status := 404; rs_Body := "NOT_FOUND" |}
       | Some b => match Encode b with
                   | Err _ => {| rs_Status := 500; rs_Body := "INTERNAL_ERROR" |}
                   | Ok data => {| rs_Status := 200; rs_Body := data |}
                   end
       end.

(** ** The client and the syncer *)

Record Client := { cl_baseURL : string; cl_token : string }.

(** The network: what a GET with a token answers. *)
Definition Network := string → string → result response.

Definition bundles_url (c : Client) : string := cl_baseURL c +:+ "/api/runtime/bundles".
Definition bundle_url (c : Client) (tenantRef : string) : string := cl_baseURL c +:+ "/api/runtime/bundles/" +:+ tenantRef.

Definition get (Do : Network) (c : Client) (url : string) : result string :=
  match Do url (cl_token c) with
  | Err err => Err err
  | Ok answer => if rs_Status answer =? 200 then Ok (rs_Body answer) else Err (ErrNew "control plane returned status")
  end.

Definition ListTenantRefs (Do : Network) (c : Client) : result (list string) :=
  match get Do c (bundles_url c) with Err err => Err err | Ok body => unmarshal_refs body end.

Definition Fetch (Do : Network) (c : Client) (tenantRef : string) : result RuntimeBundle :=
  match get Do c (bundle_url c tenantRef) with
  | Err err => Err err
  | Ok body =>
      match unmarshal_wire body with
      | Err err => Err err
      | Ok w => if same (wb_TenantRef w) "" || (wb_ConfigVersion w =? 0)
                then Err (ErrNew "control plane returned an incomplete bundle") else Ok (of_wire w)
      end
  end.

Definition validateForTenant (b : RuntimeBundle) : option error :=
  match bn_Snapshot b with None => Some (ErrNew "bundle has no compiled snapshot") | Some _ => None end.

Definition pullTenant (Do : Network) (c : Client) (publicKey : list Z) (r : ActiveRegistry) (ref : string) :
    option error * ActiveRegistry :=
  match Fetch Do c ref with
  | Err err => (Some err, r)
  | Ok pulled =>
      match Prepare pulled publicKey (Some validateForTenant) with
      | Some _ => (None, r)
      | None => match Activate pulled true with
                | Some err => (Some err, r)
                | None => (None, ActivateTenant r ref (bn_Snapshot pulled))
                end
      end
  end.

Fixpoint pull_each (Do : Network) (c : Client) (publicKey : list Z) (r : ActiveRegistry) (firstErr : option error)
    (refs : list string) : option error * ActiveRegistry :=
  match refs with
  | [] => (firstErr, r)
  | ref :: refs =>
      let '(err, r) := pullTenant Do c publicKey r ref in
      pull_each Do c publicKey r (match firstErr with None => err | Some _ => firstErr end) refs
  end.

(** A syncer without a public key does nothing. *)
Definition syncOnce (Do : Network) (c : Client) (publicKey : option (list Z)) (r : ActiveRegistry) :
    option error * ActiveRegistry :=
  match publicKey with
  | None => (None, r)
  | Some publicKey =>
      match ListTenantRefs Do c with
      | Err err => (Some err, r)
      | Ok refs => pull_each Do c publicKey r None refs
      end
  end.

(** [run]: the cold start and one sync per tick; a failed sync keeps the registry. *)
Definition sync_ticks (c : Client) (publicKey : option (list Z)) (r : ActiveRegistry) (ticks : list Network) : ActiveRegistry :=
  foldl (λ r Do, (syncOnce Do c publicKey r).2) r ticks.

End Bundle.

(** ** What the configuration service delivers

    Every operation of the service extends the log of delivered snapshots and activates
    exactly those, in that order; each was built by [NewTenantSnapshot]. *)

Definition built (s : TenantRuntimeSnapshot) : Prop := s = NewTenantSnapshot (sn_sourceData s).

Section Delivered.
Context {R : Type} `{!Reader R} `{!DocumentJSON} `{!TimeColumn} `{!StringsJSON} `{!URLParser}.
Implicit Types (w : CWorld R).

Definition grows w w' : Prop :=
  ∃ ss, Forall built ss ∧ cw_delivered w' = (cw_delivered w ++ ss)%list ∧
        cw_registry w' = activate_all (cw_registry w) ss.

#[local] Instance grows_preorder : PreOrder grows.
Proof.
  split.
  - intros w. exists []. rewrite app_nil_r. by split_and!.
  - intros w1 w2 w3 (ss & Hb & Hd & Hr) (ss' & Hb' & Hd' & Hr'). exists (ss ++ ss')%list. split_and!.
    + by apply Forall_app.
    + by rewrite Hd', Hd, app_assoc.
    + rewrite Hr', Hr. unfold activate_all. by rewrite foldl_app.
Qed.

Definition growing {A} (r : result A * CWorld R) w : Prop := grows w r.2.

(** An effect that leaves registry and log alone. *)
Lemma grows_same w w' : cw_registry w' = cw_registry w → cw_delivered w' = cw_delivered w → grows w w'.
Proof. intros Hr Hd. exists []. rewrite app_nil_r. split_and!; [constructor|done|done]. Qed.

Lemma growing_refl {A} (r : result A) w : growing (r, w) w.
Proof. unfold growing. reflexivity. Qed.

Lemma growing_fault w f w' : next_fault w = (f, w') → grows w w'.
Proof. unfold next_fault. destruct (db_faults (cw_db w)); intros [= <- <-]; by apply grows_same. Qed.

Lemma growing_query {A} w (read : Tables → result A) : growing (query w read) w.
Proof. unfold growing, query. destruct (next_fault w) as [[e|] w'] eqn:E; by apply growing_fault in E. Qed.

Lemma growing_execute {A} w (run : Tables → result A * Tables) : growing (execute w run) w.
Proof.
  unfold growing, execute. destruct (next_fault w) as [[e|] w'] eqn:E; apply growing_fault in E; [done|].
  destruct (run (cw_tables w')). simpl. etrans; [exact E|]. by apply grows_same.
Qed.

Lemma growing_bind {A B} w (r : result A * CWorld R) (k : A → CWorld R → result B * CWorld R) :
  growing r w → (∀ a w, growing (k a w) w) → growing (bind r k) w.
Proof. unfold growing. destruct r as [[a|e] w1]; simpl; intros Hr Hk; [|done]. etrans; [exact Hr|apply Hk]. Qed.

Lemma growing_wrap {A} w msg (r : result A * CWorld R) : growing r w → growing (wrap_error msg r) w.
Proof. by destruct r as [[a|e] w1]. Qed.

Lemma growing_scope {A} w scope (k : CWorld R → result A * CWorld R) :
  (∀ w, growing (k w) w) → growing (valid_scope scope w k) w.
Proof. intros Hk. unfold valid_scope. destruct (same scope ""); [apply growing_refl|auto]. Qed.

Lemma growing_validated {A} w system document scope (k : CWorld R → result A * CWorld R) :
  (∀ w, growing (k w) w) → growing (validated w system document scope k) w.
Proof. intros Hk. unfold validated. destruct (HasErrors _); [apply growing_refl|auto]. Qed.

Lemma growing_transaction {A} w (body : CWorld R → result A * CWorld R) :
  (∀ w, growing (body w) w) → growing (transaction w body) w.
Proof.
  intros Hb. unfold growing, transaction. destruct (next_fault w) as [[e|] w1] eqn:E; apply growing_fault in E; [done|].
  specialize (Hb w1). unfold growing in Hb. destruct (body w1) as [[a|e] w2]; simpl in *.
  - destruct (next_fault w2) as [[e|] w3] eqn:E'; apply growing_fault in E'; simpl; repeat (etrans; [eassumption|]);
      by apply grows_same.
  - repeat (etrans; [eassumption|]). by apply grows_same.
Qed.

Lemma growing_new_id w : growing (new_id w) w.
Proof. unfold growing, new_id. destruct (id_New (cw_rng w)). by apply grows_same. Qed.

Lemma growing_keys w scope : growing (list_keys w scope) w.
Proof. unfold growing, list_keys. destruct (ListActive (cw_db w) scope). by apply grows_same. Qed.

Lemma growing_dry_run w system document now keys : growing (dry_run w system document now keys) w.
Proof. unfold growing. by rewrite dry_run_same. Qed.

Lemma compiled_built system document version at_ keys s :
  CompileWithSystemDefaultsAndAPIKeys system document version at_ keys = Ok s → built s.
Proof.
  unfold CompileWithSystemDefaultsAndAPIKeys. destruct (HasErrors _); [done|]. destruct (check_keys _ _); [done|].
  by intros [= <-].
Qed.

Lemma growing_compile {A} w (a : A) system document version at_ keys :
  growing (compile_into w a system document version at_ keys) w.
Proof.
  unfold growing, compile_into. destruct (CompileWithSystemDefaultsAndAPIKeys _ _ _ _ _) as [s|] eqn:E; [|done].
  exists [s]. split_and!; [by constructor; [eapply compiled_built|]|done|done].
Qed.

Create HintDb delivery.
Local Hint Resolve growing_refl growing_query growing_execute growing_bind growing_wrap growing_scope growing_validated
  growing_transaction growing_new_id growing_keys growing_dry_run growing_compile : delivery.
Local Hint Extern 1 (growing (if ?b then _ else _) _) => destruct b : delivery.
Local Hint Extern 1 (growing (match ?x with _ => _ end) _) => destruct x : delivery.

Lemma growing_ListVersions w scope : growing (ListVersions w scope) w.
Proof. unfold ListVersions. auto with delivery. Qed.

Lemma growing_GetSystemConfig w : growing (GetSystemConfig w) w.
Proof. unfold GetSystemConfig. auto 10 with delivery. Qed.

Lemma growing_GetDraft w scope id : growing (GetDraft w scope id) w.
Proof. unfold GetDraft. auto 10 with delivery. Qed.

Lemma growing_GetVersion w scope version : growing (GetVersion w scope version) w.
Proof. unfold GetVersion. auto 10 with delivery. Qed.

Local Hint Resolve growing_ListVersions growing_GetSystemConfig growing_GetDraft growing_GetVersion : delivery.

Lemma growing_UpdateDraft w scope id revision document actor now :
  growing (UpdateDraft w scope id revision document actor now) w.
Proof. unfold UpdateDraft. auto 15 with delivery. Qed.

Lemma growing_PublishDraft w scope record : growing (PublishDraft w scope record) w.
Proof. unfold PublishDraft, publish_tx. auto 25 with delivery. Qed.

Lemma growing_RollbackVersion w scope record : growing (RollbackVersion w scope record) w.
Proof. unfold RollbackVersion, rollback_tx. auto 25 with delivery. Qed.

Lemma growing_compileAndActivate w scope version overlay : growing (compileAndActivate w scope version overlay) w.
Proof. unfold compileAndActivate. auto 20 with delivery. Qed.

Local Hint Resolve growing_UpdateDraft growing_PublishDraft growing_RollbackVersion growing_compileAndActivate : delivery.

Lemma growing_Publish w now scope draftID revision actor : growing (Publish w now scope draftID revision actor) w.
Proof. unfold Publish. auto 30 with delivery. Qed.

Lemma growing_Rollback w now scope source actor : growing (Rollback w now scope source actor) w.
Proof. unfold Rollback. auto 30 with delivery. Qed.

Lemma growing_Reconcile w now scope source actor : growing (Reconcile w now scope source actor) w.
Proof. unfold Reconcile, Audit. auto 30 with delivery. Qed.

Lemma growing_Overlay w scope policy : growing (OverlayGuardrail w scope policy) w.
Proof. unfold OverlayGuardrail. auto 20 with delivery. Qed.

Lemma growing_CreateDraft w now scope actor : growing (CreateDraft w now scope actor) w.
Proof. unfold CreateDraft, repo_CreateDraft. auto 30 with delivery. Qed.

Lemma reconcile_each_grows loader versions w : grows w (reconcile_each loader versions w).2.
Proof.
  revert w. induction versions as [|v versions IH]; intros w; simpl; [done|].
  pose proof (growing_compileAndActivate w (ve_TenantID v) v (loader (ve_TenantID v))) as Hc. unfold growing in Hc.
  destruct (compileAndActivate _ _ _ _) as [[u|e] w1]; simpl in *; specialize (IH w1);
    destruct (reconcile_each loader versions w1) as [[n failures] w2]; simpl in *; by etrans.
Qed.

Lemma ReconcileAll_grows loader w : grows w (ReconcileAll loader w).2.
Proof.
  unfold ReconcileAll. pose proof (growing_query w (λ t, decode_all readVersion (merge_sort by_tenant (latest_rows t)))) as Hq.
  unfold growing in Hq. unfold ListLatestVersions. destruct (query _ _) as [[versions|e] w1]; simpl in *; [|done].
  pose proof (reconcile_each_grows loader versions w1) as Hr. destruct (reconcile_each _ _ _) as [[n failures] w2].
  simpl in *. by etrans.
Qed.

Lemma growing_System loader w document : growing (SetSystemConfig loader w document) w.
Proof.
  unfold SetSystemConfig, repo_SetSystemConfig. destruct (ValidateSystemConfig document); [apply growing_refl|].
  apply growing_bind; [auto 10 with delivery|]. intros _u w1. unfold growing. simpl. apply ReconcileAll_grows.
Qed.

Lemma growing_Rebase w now scope draftID actor : growing (Rebase w now scope draftID actor) w.
Proof.
  unfold Rebase. apply growing_bind; [auto with delivery|]. intros draft w1. apply growing_bind; [auto with delivery|].
  intros versions w2. destruct (last versions); [|apply growing_refl]. destruct (_ =? _); [apply growing_refl|].
  pose proof (growing_GetSystemConfig w2) as Hs. destruct (GetSystemConfig w2) as [[system|e] w3]; [|done].
  destruct (HasErrors _); [done|].
  pose proof (growing_UpdateDraft w3 scope draftID (df_Revision draft) (df_Config draft) actor now) as Hu.
  unfold growing in *. destruct (UpdateDraft _ _ _ _ _ _ _) as [[d|e] w4]; simpl in *; by etrans.
Qed.

Lemma exec_grows w op : grows w (exec w op).
Proof.
  destruct op; simpl; [apply growing_Publish|apply growing_Rollback|apply growing_Reconcile|apply ReconcileAll_grows
    |apply growing_Overlay|apply growing_CreateDraft|apply growing_UpdateDraft|apply growing_Rebase|apply growing_System
    |by apply grows_same].
Qed.

Lemma run_grows w ops : grows w (foldl exec w ops).
Proof. revert w. induction ops as [|op ops IH]; intros w; simpl; [done|]. etrans; [apply exec_grows|apply IH]. Qed.

End Delivered.

(** ** Only verified bundles are activated *)

Section Sync.
Context `{!BundleJSON} `{!Ed25519}.

(** A bundle whose identity is complete and whose checksum is the one of its payload
    and is signed. *)
Definition verified (publicKey : list Z) (b : RuntimeBundle) : Prop :=
  ∃ checksum, bn_SchemaVersion b ≠ "" ∧ bn_TenantID b ≠ "" ∧ bn_TenantRef b ≠ "" ∧ bn_ConfigVersion b ≠ 0 ∧
    Checksum b = Ok checksum ∧ bn_PayloadChecksum b = checksum ∧ bn_Signature b ≠ [] ∧
    ed_Verify publicKey (bytes_of_string checksum) (bn_Signature b) = true.

Lemma Prepare_spec b publicKey :
  bn_Snapshot b ≠ None → bn_ConfigVersion b ≠ 0 →
  Prepare b publicKey (Some validateForTenant) = None ↔ verified publicKey b.
Proof.
  intros Hs Hv. unfold Prepare, bundle_Verify, validateForTenant, verified. split.
  - destruct (same (bn_SchemaVersion b) "") eqn:E1, (same (bn_TenantID b) "") eqn:E2, (same (bn_TenantRef b) "") eqn:E3;
      simpl; try done. apply same_spec_false in E1, E2, E3.
    destruct (bn_Signature b) as [|z signature]; [done|]. destruct (Checksum b) as [checksum|]; [|done].
    destruct (same checksum _) eqn:E4; [|done]. apply same_spec in E4 as <-. simpl. destruct (ed_Verify _ _ _) eqn:E5; [|done].
    intros _. by exists checksum.
  - intros (checksum & Hc & Ht & Hr & _ & Hk & Hp & Hg & He).
    apply same_spec_false in Hc, Ht, Hr. rewrite Hc, Ht, Hr. simpl. destruct (bn_Signature b) as [|z signature]; [done|].
    rewrite Hk, Hp. rewrite same_refl. simpl. rewrite He. simpl. by destruct (bn_Snapshot b).
Qed.

(** The bundle that the control plane answered for a reference. *)
Definition answered (Do : Network) (c : Client) (ref : string) (b : RuntimeBundle) : Prop :=
  ∃ body wire, Do (bundle_url c ref) (cl_token c) = Ok {| rs_Status := 200; rs_Body := body |} ∧
    unmarshal_wire body = Ok wire ∧ b = of_wire wire.

(** The effect of one pull. *)
Lemma pullTenant_cases Do c publicKey r ref :
  (pullTenant Do c publicKey r ref).2 = r ∨
  ∃ b s, answered Do c ref b ∧ verified publicKey b ∧ bn_Snapshot b = Some s ∧
    (pullTenant Do c publicKey r ref).2 = ActivateTenant r ref (Some s).
Proof.
  unfold pullTenant, Fetch, get. destruct (Do _ _) as [[status body]|] eqn:Hd; [|by left]. simpl.
  destruct (Z.eqb_spec status 200) as [->|]; [|by left]. destruct (unmarshal_wire body) as [w|] eqn:Hu; [|by left].
  destruct (same _ _ || (wb_ConfigVersion w =? 0)) eqn:E; [by left|]. apply orb_false_iff in E as [_ Hv%Z.eqb_neq].
  destruct (Prepare _ _ _) eqn:Hp; [by left|]. apply Prepare_spec in Hp; [|done|done]. right. eexists _, _. split; [by exists body, w|done].
Qed.

Lemma Tenant_pull_each Do c publicKey r first refs ref :
  Tenant (pull_each Do c publicKey r first refs).2 ref = Tenant r ref ∨
  ∃ b s, ref ∈ refs ∧ answered Do c ref b ∧ verified publicKey b ∧ bn_Snapshot b = Some s ∧
    Tenant (pull_each Do c publicKey r first refs).2 ref = Some s.
Proof.
  revert r first. induction refs as [|x refs IH]; intros r first; simpl; [by left|].
  pose proof (pullTenant_cases Do c publicKey r x) as Hp. destruct (pullTenant Do c publicKey r x) as [err r1]; simpl in *.
  destruct (IH r1 (match first with None => err | Some _ => first end)) as [IH1|(b & s & Hin & IH1)];
    [|right; exists b, s; split; [by right|done]].
  destruct Hp as [->|(b & s & Ha & Hb & Hs & ->)]; [by left|]. rewrite Tenant_activate in IH1. case_decide as Hx; [|by left].
  subst x. right. exists b, s. split; [by left|done].
Qed.

(** C37: a gateway activates only bundles whose signature verifies.  Whatever the network
    answers, tick after tick, a slot of the gateway's registry is the one it had, or in
    some tick the control plane listed the slot's reference and answered the pull of it
    with a bundle that has a complete identity and a number, whose checksum is that of
    its payload, and whose checksum bears a signature that the trusted public key
    verifies; and the slot holds the snapshot of that bundle.  Without a key nothing
    changes.  The payload, and so the signature, covers the bundle's identity and the
    snapshot's tenant, reference, status, number, epoch and time; it does not cover the
    snapshot's contents, nor that the bundle is the one of the reference asked for
    ([tampered_contents_run], [bundle_of_another_tenant_runs]). *)
Theorem gateway_runs_only_signed c publicKey r ticks ref :
  Tenant (sync_ticks c publicKey r ticks) ref = Tenant r ref ∨
  ∃ key Do refs b s, publicKey = Some key ∧ Do ∈ ticks ∧ ListTenantRefs Do c = Ok refs ∧ ref ∈ refs ∧
    answered Do c ref b ∧ verified key b ∧ bn_Snapshot b = Some s ∧
    Tenant (sync_ticks c publicKey r ticks) ref = Some s.
Proof.
  unfold sync_ticks. revert r. induction ticks as [|Do ticks IH]; intros r; simpl; [by left|].
  destruct (IH (syncOnce Do c publicKey r).2) as [Hs|(key & Do' & refs & b & s & Hk & Hin & Hrest)];
    [|right; exists key, Do', refs, b, s; split; [done|]; split; [by right|done]].
  rewrite Hs. clear IH Hs. unfold syncOnce.
  destruct publicKey as [key|]; [|by left]. destruct (ListTenantRefs Do c) as [refs|] eqn:Hl; [|by left].
  destruct (Tenant_pull_each Do c key r None refs ref) as [?|(b & s & ? & ? & ? & ? & ?)]; [by left|right].
  exists key, Do, refs, b, s. split_and!; try done. by left.
Qed.

(** ** A gateway follows its control plane *)

Context `{!Ed25519Laws}.

(** A snapshot that a signer can deliver: its identity is complete and JSON carries it. *)
Definition deliverable (g : Signer) (s : TenantRuntimeSnapshot) : Prop :=
  sn_TenantID s ≠ "" ∧ sn_TenantRef s ≠ "" ∧ sn_Version s ≠ 0 ∧
  ∃ signed text, signer_Sign g s = Ok signed ∧ marshal_wire (wire_of signed s) = Ok text ∧
                 unmarshal_wire text = Ok (wire_of signed s).

Definition delivered_to (g : Signer) (ss : list TenantRuntimeSnapshot) : Hub := foldl (deliver g) ∅ ss.

Definition latest_of (ref : string) (ss : list TenantRuntimeSnapshot) : option TenantRuntimeSnapshot :=
  last (filter (λ s, sn_TenantRef s = ref) ss).

Lemma latest_of_snoc ref ss s :
  latest_of ref (ss ++ [s])%list = if decide (sn_TenantRef s = ref) then Some s else latest_of ref ss.
Proof.
  unfold latest_of. rewrite filter_app, filter_cons, filter_nil. case_decide.
  - by rewrite last_snoc.
  - by rewrite app_nil_r.
Qed.

Lemma latest_of_elem ref ss s : latest_of ref ss = Some s → s ∈ ss ∧ sn_TenantRef s = ref.
Proof. intros Hl%last_Some_elem_of. by apply list_elem_of_filter in Hl as [? ?]. Qed.

Lemma delivered_to_lookup g ss ref :
  Forall (deliverable g) ss →
  delivered_to g ss !! ref = match latest_of ref ss with
                             | Some s => match signer_Sign g s with Ok signed => Some (wire_of signed s) | Err _ => None end
                             | None => None
                             end.
Proof.
  induction ss as [|s ss IH] using rev_ind; intros Hd; [done|]. apply Forall_app in Hd as [Hd Hs].
  unfold delivered_to. rewrite foldl_app. simpl. fold (delivered_to g ss). rewrite latest_of_snoc.
  apply Forall_singleton in Hs as (_ & _ & _ & signed & text & Hg & _). unfold deliver at 1. rewrite Hg. unfold hub_Publish.
  case_decide as Hr; [by subst; rewrite lookup_insert_eq, Hg|]. rewrite lookup_insert_ne by done. by apply IH.
Qed.

(** What a signer signs verifies under its public key. *)
Lemma signed_verified g s signed :
  ed_keypair (sg_privateKey g) → built s → deliverable g s → signer_Sign g s = Ok signed →
  verified (PublicKey g) (of_wire (wire_of signed s)) ∧ bn_TenantRef signed = sn_TenantRef s ∧ bn_ConfigVersion signed = sn_Version s.
Proof.
  intros Hk Hb (Ht & Hr & Hv & _) Hs. unfold signer_Sign, bundle_Sign in Hs.
  destruct (Checksum (unsigned g s)) as [checksum|] eqn:Hc; [|done]. injection Hs as <-. split; [|done].
  exists checksum. simpl. split_and!; try done.
  - destruct (same (sg_schema g) "") eqn:E; [done|]. by apply same_spec_false in E.
  - unfold Checksum, Payload, payload_of in *. simpl in *. by rewrite <- Hb.
  - intros He. pose proof (ed_Sign_length (sg_privateKey g) (bytes_of_string checksum)) as Hl. by rewrite He in Hl.
  - by apply ed_Verify_Sign.
Qed.

(** The answers of an endpoint that serves the hub to the client. *)
Record serves (Do : Network) (c : Client) (hub : Hub) (order : list string) : Prop := {
  sv_token : cl_token c ≠ "";
  sv_order : ∀ ref, ref ∈ order ↔ is_Some (hub !! ref);
  sv_list : Do (bundles_url c) (cl_token c) = Ok (ServeHTTP {| hd_hub := hub; hd_token := cl_token c |} order (cl_token c) "");
  sv_refs : unmarshal_refs (marshal_refs order) = Ok order;
  sv_bundle : ∀ ref, ref ∈ order →
    Do (bundle_url c ref) (cl_token c) = Ok (ServeHTTP {| hd_hub := hub; hd_token := cl_token c |} order (cl_token c) ref) }.

Lemma authorized_client (c : Client) hub : cl_token c ≠ "" → authorized_token {| hd_hub := hub; hd_token := cl_token c |} (cl_token c) = true.
Proof. intros Ht. unfold authorized_token. simpl. apply same_spec_false in Ht. by rewrite Ht, same_refl. Qed.

Lemma pullTenant_served g ss Do c order r ref s :
  ed_keypair (sg_privateKey g) → Forall built ss → Forall (deliverable g) ss → serves Do c (delivered_to g ss) order →
  latest_of ref ss = Some s → ref ∈ order →
  pullTenant Do c (PublicKey g) r ref = (None, ActivateTenant r ref (Some s)).
Proof.
  intros Hk Hb Hd Hsv Hl Ho. destruct (latest_of_elem _ _ _ Hl) as [Hin Hr].
  rewrite Forall_forall in Hb. pose proof (Hb _ Hin) as Hbs.
  assert (deliverable g s) as Hds by (by rewrite Forall_forall in Hd; apply Hd).
  pose proof Hds as (Ht & Href & Hv & signed & text & Hg & Hm & Hu).
  destruct (signed_verified g s signed Hk Hbs Hds Hg) as (Hver & Hsr & Hsc).
  unfold pullTenant, Fetch, get. rewrite (sv_bundle _ _ _ _ Hsv) by done. unfold ServeHTTP.
  rewrite authorized_client by apply (sv_token _ _ _ _ Hsv). cbn [negb rs_Status rs_Body hd_hub].
  assert (same ref "" = false) as -> by (apply same_spec_false; congruence).
  unfold Latest. rewrite delivered_to_lookup, Hl, Hg by done. cbn [fmap option_fmap option_map].
  unfold Encode. cbn [of_wire bn_Snapshot]. replace (wire_of (of_wire (wire_of signed s)) _) with (wire_of signed s).
  2:{ unfold wire_of, of_wire. simpl. by destruct signed. }
  rewrite Hm. cbn [rs_Status rs_Body]. rewrite Z.eqb_refl, Hu. simpl (wb_TenantRef _). simpl (wb_ConfigVersion _).
  rewrite Hsr, Hsc. assert (same (sn_TenantRef s) "" = false) as -> by by apply same_spec_false.
  apply Z.eqb_neq in Hv as ->. cbn [orb].
  assert (Prepare (of_wire (wire_of signed s)) (PublicKey g) (Some validateForTenant) = None) as ->.
  { apply Prepare_spec; [done| |done]. simpl. rewrite Hsc. by destruct Hds as (_ & _ & ? & _). }
  simpl. by rewrite <- Hbs.
Qed.

Lemma pull_each_served g ss Do c order r refs ref :
  ed_keypair (sg_privateKey g) → Forall built ss → Forall (deliverable g) ss → serves Do c (delivered_to g ss) order →
  (∀ x, x ∈ refs → x ∈ order) →
  (pull_each Do c (PublicKey g) r None refs).1 = None ∧
  Tenant (pull_each Do c (PublicKey g) r None refs).2 ref = if decide (ref ∈ refs) then latest_of ref ss else Tenant r ref.
Proof.
  intros Hk Hb Hd Hsv. revert r. induction refs as [|x refs IH]; intros r Hin; [done|]. simpl.
  assert (x ∈ order) as Hx by set_solver.
  assert (is_Some (latest_of x ss)) as [s Hs].
  { apply (sv_order _ _ _ _ Hsv) in Hx. rewrite delivered_to_lookup in Hx by done. by destruct (latest_of x ss); [|destruct Hx]. }
  rewrite (pullTenant_served g ss Do c order r x s) by done.
  destruct (IH (ActivateTenant r x (Some s))) as [He Ht]; [set_solver|]. split; [done|]. rewrite Ht, Tenant_activate.
  destruct (decide (ref ∈ x :: refs)) as [Ho|Ho]; rewrite elem_of_cons in Ho;
    destruct (decide (ref ∈ refs)) as [Hr|Hr], (decide (x = ref)) as [Hn|Hn]; subst; try done; intuition congruence.
Qed.

Lemma syncOnce_served g ss Do c order r :
  ed_keypair (sg_privateKey g) → Forall built ss → Forall (deliverable g) ss → serves Do c (delivered_to g ss) order →
  (syncOnce Do c (Some (PublicKey g)) r).1 = None ∧
  ∀ ref, Tenant (syncOnce Do c (Some (PublicKey g)) r).2 ref =
         match latest_of ref ss with Some s => Some s | None => Tenant r ref end.
Proof.
  intros Hk Hb Hd Hsv. unfold syncOnce, ListTenantRefs, get. rewrite (sv_list _ _ _ _ Hsv). unfold ServeHTTP.
  rewrite authorized_client by apply (sv_token _ _ _ _ Hsv). cbn [negb rs_Status rs_Body]. rewrite Z.eqb_refl.
  rewrite same_refl. cbn [rs_Body]. rewrite (sv_refs _ _ _ _ Hsv). split.
  - by apply (pull_each_served g ss Do c order r order "").
  - intros ref. destruct (pull_each_served g ss Do c order r order ref) as [_ ->]; [done..|].
    pose proof (delivered_to_lookup g ss ref Hd) as Hl. case_decide as Hin.
    + apply (sv_order _ _ _ _ Hsv) in Hin. rewrite Hl in Hin. by destruct (latest_of ref ss); [|destruct Hin].
    + destruct (latest_of ref ss) as [s|] eqn:El; [|done]. exfalso. apply Hin, (sv_order _ _ _ _ Hsv). rewrite Hl.
      destruct (latest_of_elem _ _ _ El) as [Hs _]. rewrite Forall_forall in Hd. destruct (Hd _ Hs) as (_ & _ & _ & b & t & -> & _).
      by eexists.
Qed.

Lemma Tenant_activate_all_latest r ss ref :
  Tenant (activate_all r ss) ref = match latest_of ref ss with Some s => Some s | None => Tenant r ref end.
Proof.
  induction ss as [|s ss IH] using rev_ind; [done|]. unfold activate_all. rewrite foldl_app. simpl.
  rewrite latest_of_snoc, Tenant_activate. by case_decide.
Qed.

(** C36: a gateway follows its control plane.  A control plane boots with an empty
    registry and performs any operations on its configuration, whichever statements
    fail; its snapshots are signed into the hub as they are activated.  When a gateway
    with the matching public key then syncs against the hub's endpoint, it runs, for
    every reference that the control plane runs, the same snapshot, provided that the
    snapshots have an identity and JSON carries them; its other slots stay as they
    were, and the sync reports no error. *)
Theorem gateway_follows_control_plane {R} `{!Reader R} `{!DocumentJSON} `{!TimeColumn} `{!StringsJSON} `{!URLParser}
    (w : CWorld R) ops g Do c order r :
  cw_delivered w = [] → (∀ ref, Tenant (cw_registry w) ref = None) → ed_keypair (sg_privateKey g) →
  let w' := foldl exec w ops in
  Forall (deliverable g) (cw_delivered w') → serves Do c (delivered_to g (cw_delivered w')) order →
  (syncOnce Do c (Some (PublicKey g)) r).1 = None ∧
  ∀ ref, Tenant (syncOnce Do c (Some (PublicKey g)) r).2 ref =
         match Tenant (cw_registry w') ref with Some s => Some s | None => Tenant r ref end.
Proof.
  intros Hd Hr Hk w' Hdel Hsv. destruct (run_grows w ops) as (ss & Hb & Hds & Hreg). fold w' in Hds, Hreg.
  rewrite Hd in Hds. simpl in Hds. rewrite Hds in *.
  destruct (syncOnce_served g ss Do c order r Hk Hb Hdel Hsv) as [He Ht]. split; [done|]. intros ref.
  rewrite Ht, Hreg, Tenant_activate_all_latest, Hr. by destruct (latest_of ref ss).
Qed.

(** The signature covers the exported fields of the snapshot and nothing else of it:
    not its keys, providers, routes or policies. *)
Definition with_contents (b : RuntimeBundle) (s : TenantRuntimeSnapshot) : RuntimeBundle :=
  {| bn_SchemaVersion := bn_SchemaVersion b; bn_TenantID := bn_TenantID b; bn_TenantRef := bn_TenantRef b;
     bn_ConfigVersion := bn_ConfigVersion b; bn_SecurityEpoch := bn_SecurityEpoch b;
     bn_SystemRuntimeVersion := bn_SystemRuntimeVersion b; bn_PublishedAt := bn_PublishedAt b;
     bn_PayloadChecksum := bn_PayloadChecksum b; bn_Signature := bn_Signature b; bn_Snapshot := Some s |}.

Lemma signature_ignores_contents b s s' publicKey :
  bn_Snapshot b = Some s → exported s' = exported s → bundle_Verify (with_contents b s') publicKey = bundle_Verify b publicKey.
Proof.
  intros Hs He. unfold bundle_Verify, Checksum, Payload, payload_of. simpl. by rewrite Hs, He.
Qed.

End Sync.

(** ** Examples *)

Definition payload_text (p : payloadWire) : string :=
  pw_SchemaVersion p +:+ "|" +:+ pw_TenantID p +:+ "|" +:+ pw_TenantRef p +:+ "|" +:+ pretty (pw_ConfigVersion p).

(** A text of one bundle, and one key pair. *)
Definition one_bundle (w : option wireBundle) : BundleJSON :=
  {| marshal_payload := λ p, Ok (payload_text p);
     marshal_wire := λ _, Ok "{}";
     unmarshal_wire := λ text, match w with
                               | Some w => if same text "{}" then Ok w else Err (ErrNew "json")
                               | None => Err (ErrNew "json")
                               end;
     marshal_refs := λ refs, String.concat "," refs;
     unmarshal_refs := λ text, Ok [text] |}.

#[local] Instance padded_ed25519 : Ed25519 := {
  ed_keypair := λ k, True; ed_Sign := λ k message, resize 64 0 (drop 32 k ++ message)%list;
  ed_Verify := λ public message signature, bool_decide (signature = resize 64 0 (public ++ message)%list) }.
#[local] Instance padded_ed25519_laws : Ed25519Laws.
Proof. split; [intros; apply length_resize|intros k message _; by apply bool_decide_eq_true]. Qed.
#[local] Existing Instances counting_reader counting_reader_laws bits_json plain_urls named_documents postgres_time.

Definition example_signer : Signer := {| sg_privateKey := replicate 64 7; sg_schema := ""; sg_systemVersion := 1 |}.
Definition example_ops : list config_op := [op_publish 5 "t" "d1" 1 "ops"].
Definition example_snapshot : TenantRuntimeSnapshot :=
  NewTenantSnapshot (snapshot_data (ApplySystemDefaults no_system (example_document "acme" "eu")) 1 5 []).
Definition signed_example : RuntimeBundle :=
  let b := unsigned example_signer example_snapshot in
  match Checksum (H := one_bundle None) b with
  | Ok checksum => with_signature b checksum (ed_Sign (sg_privateKey example_signer) (bytes_of_string checksum))
  | Err _ => b
  end.
Definition example_wire : wireBundle := wire_of signed_example example_snapshot.
#[local] Instance example_json : BundleJSON := one_bundle (Some example_wire).
Definition example_client : Client := {| cl_baseURL := "https://control"; cl_token := "shared" |}.
Definition example_hub : Hub := <["acme" := example_wire]> ∅.

(** A network that serves a hub of one tenant at every bundle URL. *)
Definition network (hub : Hub) : Network := λ url token,
  Ok (ServeHTTP {| hd_hub := hub; hd_token := "shared" |} ["acme"] token
        (if same url "https://control/api/runtime/bundles" then "" else "acme")).
Definition empty_registry : ActiveRegistry := {| ar_global := None; ar_tenants := ∅ |}.

Lemma example_delivered : cw_delivered (foldl exec two_drafts example_ops) = [example_snapshot].
Proof. vm_compute. reflexivity. Qed.

Lemma example_serves : serves (network example_hub) example_client example_hub ["acme"].
Proof.
  split; try done.
  - intros ref. unfold example_hub. rewrite list_elem_of_singleton, lookup_insert_is_Some, lookup_empty.
    split; [by left|]. intros [?|[_ [? ?]]]; done.
  - intros ref ->%list_elem_of_singleton. reflexivity.
Qed.

Lemma example_signs : signer_Sign example_signer example_snapshot = Ok signed_example.
Proof. vm_compute. reflexivity. Qed.

Lemma example_delivered_to : delivered_to example_signer [example_snapshot] = example_hub.
Proof.
  unfold delivered_to. change (deliver example_signer ∅ example_snapshot = example_hub). unfold deliver.
  rewrite example_signs. unfold hub_Publish, example_hub, example_wire.
  assert (sn_TenantRef example_snapshot = "acme") as -> by (vm_compute; reflexivity). done.
Qed.

Lemma example_deliverable : deliverable example_signer example_snapshot.
Proof.
  split_and!; [done|done|done|]. exists signed_example, "{}". split_and!; [exact example_signs|done|done].
Qed.

Lemma gateway_follows_control_plane_witness :
  (syncOnce (network example_hub) example_client (Some (PublicKey example_signer)) empty_registry).1 = None ∧
  ∀ ref, Tenant (syncOnce (network example_hub) example_client (Some (PublicKey example_signer)) empty_registry).2 ref =
         match Tenant (cw_registry (foldl exec two_drafts example_ops)) ref with Some s => Some s | None => None end.
Proof.
  apply (gateway_follows_control_plane two_drafts example_ops example_signer (network example_hub) example_client ["acme"] empty_registry).
  - reflexivity.
  - reflexivity.
  - exact I.
  - rewrite example_delivered. apply Forall_singleton, example_deliverable.
  - rewrite example_delivered, example_delivered_to. exact example_serves.
Defined.

(** A bundle's contents can be replaced on the way: here the document is exchanged for
    one without models, routes and projects, the signature still verifies, and the
    gateway runs the replacement. *)
Definition foreign_data : TenantSnapshotData :=
  snapshot_data (ApplySystemDefaults no_system (bare_document "t" "acme")) 1 5 [].

Example tampered_contents_run :
  let forged := of_wire (wire_of signed_example (NewTenantSnapshot foreign_data)) in
  bundle_Verify forged (PublicKey example_signer) = None ∧
  (let json := one_bundle (Some (wire_of signed_example (NewTenantSnapshot foreign_data))) in
   let r := (syncOnce (H := json) (network example_hub) example_client (Some (PublicKey example_signer)) empty_registry).2 in
   (sn_logicalModels <$> Tenant r "acme") = Some ∅ ∧ sn_logicalModels example_snapshot ≠ ∅).
Proof. vm_compute. split_and!; [done|done|discriminate]. Qed.

(** The syncer does not compare the bundle with the reference it asked for: an endpoint
    that answers with another tenant's bundle has that tenant's configuration run. *)
Example bundle_of_another_tenant_runs :
  let r := (pullTenant (network example_hub) example_client (PublicKey example_signer) empty_registry "globex").2 in
  (sn_TenantID <$> Tenant r "globex") = Some "t" ∧ (sn_TenantRef <$> Tenant r "globex") = Some "acme".
Proof. vm_compute. done. Qed.

(** Nor with the version it runs: an old bundle replaces a newer configuration. *)
Example older_bundle_replaces_newer :
  let newer := NewTenantSnapshot (snapshot_data (example_document "acme" "eu") 9 50 []) in
  let r := ActivateTenant empty_registry "acme" (Some newer) in
  (sn_Version <$> Tenant (pullTenant (network example_hub) example_client (PublicKey example_signer) r "acme").2 "acme") = Some 1.
Proof. vm_compute. done. Qed.
