(* ===== verification/LastKnownGood.v ===== *)
(** * The last known good configuration

    platform/lkg/lkg.go: the active and the previous bundle of each tenant on disk, with
    its atomic replacement; app/lkgboot.go: the check of a stored bundle; and the parts
    of app/lite.go that store every activation and boot what the database could not
    restore.

    A path is the list of its cleaned elements below an absolute directory.  Each call to
    the operating system takes its fate from a script: it works, fails, or the process
    stops there; a write that fails or stops has written a prefix.  Renames are atomic
    and keep their order across a stop, and no path is both a file and a directory.  The
    JSON text of a bundle is an interface. *)

From S2P Require Import Prelude GoFloat GoStd GoText Snapshot ApiKey Egress Config ConfigService Delivery.

Open Scope string_scope.
Open Scope Z_scope.

Record Bundle := {
  lb_SchemaVersion : string; lb_TenantID : string; lb_TenantRef : string; lb_ConfigVersion : Z; lb_SecurityEpoch : Z;
  lb_PayloadChecksum : string; lb_Signature : list Z; lb_SnapshotData : option TenantSnapshotData }.

Class StoredJSON := { marshal_stored : Bundle → result string; unmarshal_stored : string → result Bundle }.

(** ** Paths *)

Notation path := (list string).

Definition slash : Ascii.ascii := Ascii.ascii_of_nat 47.

(** The elements between slashes. *)
Fixpoint elements (current : string) (text : string) : list string :=
  match text with
  | EmptyString => [current]
  | String c text => if Ascii.eqb c slash then current :: elements "" text else elements (current +:+ String c "") text
  end.

(** One element of filepath.Clean's walk. *)
Definition clean_step (at_ : path) (element : string) : path :=
  if same element "" || same element "." then at_
  else if same element ".." then removelast at_
  else (at_ ++ [element])%list.

Record Store := { lk_dir : path }.

Definition tenant_dir (s : Store) (tenantRef : string) : path := foldl clean_step (lk_dir s) (elements "" tenantRef).

(** filepath.Join(s.dir, tenantRef, name). *)
Definition file_path (s : Store) (tenantRef name : string) : path :=
  foldl clean_step (lk_dir s) (elements "" tenantRef ++ [name])%list.

(** ** The disk *)

Inductive fate := Works | Fails (written : nat) | Stops (written : nat).

Record Disk := { dk_files : gmap path string; dk_dirs : list path; dk_script : list fate }.

Inductive outcome (A : Type) := Done (a : A) | Failed (err : error) | Halted.
Arguments Done {A} a. Arguments Failed {A} err. Arguments Halted {A}.

Definition with_files (d : Disk) (files : gmap path string) : Disk :=
  {| dk_files := files; dk_dirs := dk_dirs d; dk_script := dk_script d |}.

Definition next_fate (d : Disk) : fate * Disk :=
  match dk_script d with
  | [] => (Works, d)
  | f :: rest => (f, {| dk_files := dk_files d; dk_dirs := dk_dirs d; dk_script := rest |})
  end.

(** A call that works as a whole or not at all. *)
Definition call {A} (d : Disk) (run : Disk → outcome A * Disk) : outcome A * Disk :=
  match next_fate d with
  | (Works, d) => run d
  | (Fails _, d) => (Failed (ErrNew "i/o"), d)
  | (Stops _, d) => (Halted, d)
  end.

Definition andthen {A B : Type} (r : outcome A * Disk) (k : A → Disk → outcome B * Disk) : outcome B * Disk :=
  match r with
  | (Done a, d) => k a d
  | (Failed err, d) => (Failed err, d)
  | (Halted, d) => (Halted, d)
  end.
Notation "'os' x ⇐ r ; d ; k" := (andthen r (λ x d, k)) (at level 200, x name, d name, r at level 100, k at level 200).

(** A call whose error is dropped. *)
Definition ignoring {A} (r : outcome unit * Disk) (k : Disk → outcome A * Disk) : outcome A * Disk :=
  match r with (Halted, d) => (Halted, d) | (_, d) => k d end.

Definition MkdirAll (d : Disk) (p : path) : outcome unit * Disk :=
  call d (λ d, (Done tt, {| dk_files := dk_files d; dk_dirs := if bool_decide (p ∈ dk_dirs d) then dk_dirs d else (dk_dirs d ++ [p])%list;
                            dk_script := dk_script d |})).

Definition Stat (d : Disk) (p : path) : outcome unit * Disk :=
  call d (λ d, (match dk_files d !! p with Some _ => Done tt | None => Failed (ErrNew "not exist") end, d)).

Definition Rename (d : Disk) (from to : path) : outcome unit * Disk :=
  call d (λ d, match dk_files d !! from with
               | Some content => (Done tt, with_files d (<[to := content]> (delete from (dk_files d))))
               | None => (Failed (ErrNew "not exist"), d)
               end).

(** O_CREATE|O_WRONLY|O_TRUNC. *)
Definition OpenTruncated (d : Disk) (p : path) : outcome unit * Disk :=
  call d (λ d, (Done tt, with_files d (<[p := ""]> (dk_files d)))).

Definition Write (d : Disk) (p : path) (data : string) : outcome unit * Disk :=
  match next_fate d with
  | (Works, d) => (Done tt, with_files d (<[p := data]> (dk_files d)))
  | (Fails n, d) => (Failed (ErrNew "i/o"), with_files d (<[p := String.substring 0 n data]> (dk_files d)))
  | (Stops n, d) => (Halted, with_files d (<[p := String.substring 0 n data]> (dk_files d)))
  end.

(** [Sync] and [Close]. *)
Definition settle (d : Disk) : outcome unit * Disk := call d (λ d, (Done tt, d)).

(** ** The store *)

Section Store.
Context `{!StoredJSON}.

Definition active_path (s : Store) (ref : string) : path := file_path s ref "active.bundle".
Definition previous_path (s : Store) (ref : string) : path := file_path s ref "previous.bundle".
Definition temp_path (s : Store) (ref : string) : path := file_path s ref "active.bundle.tmp".

(** [temp] is the path with ".tmp" appended; closing after a failed step is dropped. *)
Definition writeAtomic (d : Disk) (temp p : path) (data : string) : outcome unit * Disk :=
  os _u ⇐ OpenTruncated d temp; d;
  os _u ⇐ Write d temp data; d;
  os _u ⇐ settle d; d;
  os _u ⇐ settle d; d;
  Rename d temp p.

(** The rotation: the rename is skipped when there is no active bundle, and its error
    is dropped. *)
Definition rotate (d : Disk) (active previous : path) (k : Disk → outcome unit * Disk) : outcome unit * Disk :=
  match Stat d active with
  | (Halted, d) => (Halted, d)
  | (Failed _, d) => k d
  | (Done _, d) => ignoring (Rename d active previous) k
  end.

Definition Save (s : Store) (d : Disk) (tenantRef : string) (bundle : Bundle) : outcome unit * Disk :=
  match marshal_stored bundle with
  | Err err => (Failed err, d)
  | Ok data =>
      os _u ⇐ MkdirAll d (tenant_dir s tenantRef); d;
      rotate d (active_path s tenantRef) (previous_path s tenantRef)
        (λ d, writeAtomic d (temp_path s tenantRef) (active_path s tenantRef) data)
  end.

Definition read (files : gmap path string) (p : path) : result Bundle :=
  match files !! p with
  | None => Err (ErrNew "not exist")
  | Some data =>
      match unmarshal_stored data with
      | Err err => Err err
      | Ok b => if same (lb_TenantRef b) "" || (lb_ConfigVersion b =? 0) then Err (ErrNew "invalid LKG bundle") else Ok b
      end
  end.

Definition LoadActive (s : Store) (files : gmap path string) (tenantRef : string) : result Bundle :=
  match read files (active_path s tenantRef) with
  | Ok b => Ok b
  | Err err => match read files (previous_path s tenantRef) with
               | Ok b => Ok b
               | Err _ => Err (ErrWrap "active and previous bundles unreadable" err)
               end
  end.

Definition read_verified (verifier : Bundle → option error) (files : gmap path string) (p : path) : result Bundle :=
  match read files p with
  | Err err => Err err
  | Ok b => match verifier b with Some err => Err err | None => Ok b end
  end.

Definition LoadVerified (s : Store) (files : gmap path string) (tenantRef : string) (verifier : Bundle → option error) :
    result Bundle :=
  match read_verified verifier files (active_path s tenantRef) with
  | Ok b => Ok b
  | Err err => match read_verified verifier files (previous_path s tenantRef) with
               | Ok b => Ok b
               | Err _ => Err (ErrWrap "active and previous bundles failed verification" err)
               end
  end.

Definition Ready (s : Store) (files : gmap path string) (tenantRef : string) : bool :=
  match LoadActive s files tenantRef with Ok _ => true | Err _ => false end.

Definition by_name (a b : string) : Prop := str_less a b = true ∨ a = b.
#[local] Instance by_name_dec : RelDecision by_name.
Proof. intros a b. unfold by_name. apply _. Defined.

(** os.ReadDir: the directories right below the store's, by name. *)
Definition TenantRefs (s : Store) (d : Disk) : list string :=
  merge_sort by_name
    (omap (λ p, match last p with
                | Some name => if bool_decide (p = (lk_dir s ++ [name])%list) then Some name else None
                | None => None
                end) (dk_dirs d)).

(** ** app/lkgboot.go and app/lite.go *)

Definition lkgSchemaVersion : string := "v1".

Definition verifyLKGBundle (b : Bundle) : option error :=
  if negb (same (lb_SchemaVersion b) lkgSchemaVersion) then Some (ErrNew "unsupported LKG schema version")
  else if same (lb_TenantRef b) "" || same (lb_TenantID b) "" || (lb_ConfigVersion b =? 0)
  then Some (ErrNew "incomplete LKG bundle")
  else match lb_SnapshotData b with
       | None => Some (ErrNew "LKG bundle has no snapshot data")
       | Some data =>
           if negb (same (td_TenantRef data) (lb_TenantRef b)) || negb (same (td_TenantID data) (lb_TenantID b))
           then Some (ErrNew "LKG bundle tenant mismatch")
           else if negb (td_Version data =? lb_ConfigVersion b) then Some (ErrNew "LKG bundle version mismatch")
           else None
       end.

(** The bundle that an activation stores, and the hook that stores it. *)
Definition bundle_of (snapshot : TenantRuntimeSnapshot) : Bundle :=
  let data := sn_sourceData snapshot in
  {| lb_SchemaVersion := lkgSchemaVersion; lb_TenantID := td_TenantID data; lb_TenantRef := td_TenantRef data;
     lb_ConfigVersion := td_Version data; lb_SecurityEpoch := td_SecurityEpoch data; lb_PayloadChecksum := "";
     lb_Signature := []; lb_SnapshotData := Some data |}.

Definition store_activation (s : Store) (d : Disk) (snapshot : TenantRuntimeSnapshot) : Disk :=
  (Save s d (sn_TenantRef snapshot) (bundle_of snapshot)).2.

(** The fallback boot: one tenant, and the loop over the stored references. *)
Definition boot_tenant (s : Store) (files : gmap path string) (r : ActiveRegistry) (ref : string) : ActiveRegistry :=
  match Tenant r ref with
  | Some _ => r
  | None =>
      match LoadVerified s files ref verifyLKGBundle with
      | Err _ => r
      | Ok b => match lb_SnapshotData b with
                | None => r
                | Some data => let snapshot := NewTenantSnapshot data in
                               ActivateTenant r (sn_TenantRef snapshot) (Some snapshot)
                end
      end
  end.

Definition boot_fallback (s : Store) (d : Disk) (r : ActiveRegistry) : ActiveRegistry :=
  foldl (boot_tenant s (dk_files d)) r (TenantRefs s d).

End Store.

(** ** Interrupted saves *)

Lemma file_path_spec s ref name :
  negb (same name "" || same name "." || same name "..") = true → file_path s ref name = (tenant_dir s ref ++ [name])%list.
Proof.
  intros Hn. unfold file_path. rewrite foldl_app. simpl. unfold clean_step.
  destruct (same name ""), (same name "."), (same name ".."); try done.
Qed.

Lemma snoc_ne (p : path) a b : a ≠ b → (p ++ [a])%list ≠ (p ++ [b])%list.
Proof. by intros Hn [= ?]%app_inv_head. Qed.

Lemma paths_differ s ref :
  active_path s ref ≠ previous_path s ref ∧ active_path s ref ≠ temp_path s ref ∧ previous_path s ref ≠ temp_path s ref.
Proof.
  unfold active_path, previous_path, temp_path. rewrite !file_path_spec by done. split_and!; by apply snoc_ne.
Qed.

Section Interrupted.
Context `{!StoredJSON} (s : Store) (ref : string) (verifier : Bundle → option error).

(** A bundle that the disk's text carries and that the check accepts. *)
Definition storable (b : Bundle) : Prop :=
  ∃ data, marshal_stored b = Ok data ∧ unmarshal_stored data = Ok b ∧ lb_TenantRef b ≠ "" ∧ lb_ConfigVersion b ≠ 0 ∧
          verifier b = None.

(** Where a boot finds the bundle: it is active, or it is the previous one and nothing
    is active. *)
Definition holds (files : gmap path string) (b : Bundle) : Prop :=
  read_verified verifier files (active_path s ref) = Ok b ∨
  (files !! active_path s ref = None ∧ read_verified verifier files (previous_path s ref) = Ok b).

Lemma read_ext files files' p : files' !! p = files !! p → read_verified verifier files' p = read_verified verifier files p.
Proof. intros Hf. unfold read_verified, read. by rewrite Hf. Qed.

Lemma holds_ext files files' b :
  files' !! active_path s ref = files !! active_path s ref → files' !! previous_path s ref = files !! previous_path s ref →
  holds files b → holds files' b.
Proof.
  intros Ha Hp [Hx|[H1 H2]].
  - left. by rewrite (read_ext files).
  - right. rewrite Ha. split; [done|]. by rewrite (read_ext files).
Qed.

Lemma holds_temp files data b : holds files b → holds (<[temp_path s ref := data]> files) b.
Proof. destruct (paths_differ s ref) as (_ & ? & ?). apply holds_ext; by rewrite lookup_insert_ne. Qed.

Lemma holds_Load files b : holds files b → LoadVerified s files ref verifier = Ok b.
Proof.
  intros [Hx|[H1 H2]]; unfold LoadVerified; [by rewrite Hx|].
  unfold read_verified at 1, read. by rewrite H1, H2.
Qed.

Lemma stored_holds files b data :
  storable b → marshal_stored b = Ok data → files !! active_path s ref = Some data → holds files b.
Proof.
  intros (data' & Hm & Hu & Hr & Hv & Hc) Hm' Hf. left. unfold read_verified, read. rewrite Hf.
  assert (data' = data) as -> by congruence. rewrite Hu. apply same_spec_false in Hr as ->. apply Z.eqb_neq in Hv as ->.
  simpl. by rewrite Hc.
Qed.

(** A step that does not finish keeps what a boot finds. *)
Definition keeping {A : Type} (b : Bundle) (fine : A → gmap path string → Prop) (r : outcome A * Disk) : Prop :=
  match r with (Done a, d) => fine a (dk_files d) | (_, d) => holds (dk_files d) b end.

Lemma keeping_call {A : Type} (b : Bundle) (fine : A → gmap path string → Prop) (d : Disk) (run : Disk → outcome A * Disk) :
  holds (dk_files d) b → (∀ d', dk_files d' = dk_files d → keeping b fine (run d')) → keeping b fine (call d run).
Proof.
  intros Hb Hr. unfold call, next_fate. destruct (dk_script d) as [|[] rest]; simpl; [by apply Hr|by apply Hr|done|done].
Qed.

Lemma keeping_andthen {A B : Type} (b : Bundle) (fine : A → gmap path string → Prop) (fine' : B → gmap path string → Prop) (r : outcome A * Disk) (k : A → Disk → outcome B * Disk) :
  keeping b fine r → (∀ a d, fine a (dk_files d) → keeping b fine' (k a d)) → keeping b fine' (andthen r k).
Proof. destruct r as [[a|e|] d]; simpl; auto. Qed.

Lemma writeAtomic_holds d b new data :
  storable new → marshal_stored new = Ok data → holds (dk_files d) b →
  keeping b (λ _ files, holds files new) (writeAtomic d (temp_path s ref) (active_path s ref) data).
Proof.
  intros Hs Hm Hb. unfold writeAtomic.
  set (inner := λ (_ : unit) files, holds files b ∧ files !! temp_path s ref = Some data).
  apply (keeping_andthen b (λ _ files, holds files b)).
  { apply keeping_call; [done|]. intros d' Hd. simpl. rewrite Hd. by apply holds_temp. }
  intros _ d1 H1. apply (keeping_andthen b inner).
  { unfold Write, next_fate. destruct (dk_script d1) as [|[] rest]; simpl; try (by apply holds_temp);
      (split; [by apply holds_temp|by rewrite lookup_insert_eq]). }
  intros u2 d2 H2. apply (keeping_andthen b inner).
  { apply keeping_call; [apply H2|]. intros d' Hd. unfold keeping, inner. by rewrite Hd. }
  intros u3 d3 H3. apply (keeping_andthen b inner).
  { apply keeping_call; [apply H3|]. intros d' Hd. unfold keeping, inner. by rewrite Hd. }
  intros u4 d4 [H4 Ht]. apply keeping_call; [done|]. intros d' Hd. rewrite Hd, Ht. simpl.
  eapply stored_holds; [done|done|]. by rewrite lookup_insert_eq.
Qed.

Lemma holds_rotated files content b :
  files !! active_path s ref = Some content → holds files b →
  holds (<[previous_path s ref := content]> (delete (active_path s ref) files)) b.
Proof.
  intros Hc [Hx|[Hx _]]; [|congruence]. destruct (paths_differ s ref) as (? & _ & _). right. split.
  - rewrite lookup_insert_ne by done. apply lookup_delete_eq.
  - rewrite <- Hx. unfold read_verified, read. by rewrite lookup_insert_eq, Hc.
Qed.

Lemma Save_holds d b new :
  storable new → holds (dk_files d) b → keeping b (λ _ files, holds files new) (Save s d ref new).
Proof.
  intros Hs Hb. unfold Save. destruct (marshal_stored new) as [data|] eqn:Hm; [|done].
  apply (keeping_andthen b (λ _ files, holds files b)).
  { apply keeping_call; [done|]. intros d' Hd. simpl. by rewrite Hd. }
  intros _ d1 H1. unfold rotate, Stat, call, next_fate.
  destruct (dk_script d1) as [|[] rest]; simpl; try done; try (by apply writeAtomic_holds);
    (destruct (dk_files d1 !! active_path s ref) as [content|] eqn:Hc; [|by apply writeAtomic_holds]);
    unfold Rename, call, next_fate; simpl.
  - destruct (dk_script d1) as [|[] rest']; simpl; try done; try (by apply writeAtomic_holds);
      rewrite Hc; apply writeAtomic_holds; try done; by apply holds_rotated.
  - destruct rest as [|[] rest']; simpl; try done; try (by apply writeAtomic_holds);
      rewrite Hc; apply writeAtomic_holds; try done; by apply holds_rotated.
Qed.

(** A completed save is what a boot finds, whatever was on the disk before. *)
Lemma call_done {A : Type} (d : Disk) (run : Disk → outcome A * Disk) a d' :
  call d run = (Done a, d') → ∃ d1, dk_files d1 = dk_files d ∧ run d1 = (Done a, d').
Proof.
  unfold call, next_fate. destruct (dk_script d) as [|[] rest]; try discriminate; intros Hr; (eexists; split; [|exact Hr]); done.
Qed.

Lemma andthen_done {A B : Type} (r : outcome A * Disk) (k : A → Disk → outcome B * Disk) b d' :
  andthen r k = (Done b, d') → ∃ a d1, r = (Done a, d1) ∧ k a d1 = (Done b, d').
Proof. destruct r as [[a|e|] d1]; try discriminate. intros Hk. by exists a, d1. Qed.

Lemma Write_done (d : Disk) p data u d' : Write d p data = (Done u, d') → dk_files d' = <[p := data]> (dk_files d).
Proof. unfold Write, next_fate. destruct (dk_script d) as [|[] rest]; try discriminate; by intros [= <- <-]. Qed.

Lemma writeAtomic_done d d' new data :
  storable new → marshal_stored new = Ok data →
  writeAtomic d (temp_path s ref) (active_path s ref) data = (Done tt, d') → holds (dk_files d') new.
Proof.
  intros Hs Hm. unfold writeAtomic. intros (u1 & d1 & _ & (u2 & d2 & Hw & (u3 & d3 & H3 & (u4 & d4 & H4 & H5)
    %andthen_done)%andthen_done)%andthen_done)%andthen_done.
  apply Write_done in Hw. apply call_done in H3 as (e3 & F3 & [= _ <-]), H4 as (e4 & F4 & [= _ <-]), H5 as (e5 & F5 & H5).
  rewrite F5, F4, F3, Hw, lookup_insert_eq in H5. injection H5 as <-. simpl.
  eapply stored_holds; [done|done|]. by rewrite lookup_insert_eq.
Qed.

Lemma Save_done d d' new : storable new → Save s d ref new = (Done tt, d') → holds (dk_files d') new.
Proof.
  intros Hs. unfold Save. destruct (marshal_stored new) as [data|] eqn:Hm; [|done].
  destruct (MkdirAll d _) as [[a|e|] d1]; simpl; try discriminate. unfold rotate.
  destruct (Stat d1 _) as [[u|e|] d2]; try discriminate; [|by apply writeAtomic_done].
  unfold ignoring. destruct (Rename d2 _ _) as [[v|e|] d3]; try discriminate; by apply writeAtomic_done.
Qed.

(** Saves one after the other, each with its own interruptions. *)
Definition with_script (d : Disk) (script : list fate) : Disk :=
  {| dk_files := dk_files d; dk_dirs := dk_dirs d; dk_script := script |}.

Definition save_next (acc : list (outcome unit) * Disk) (save : Bundle * list fate) : list (outcome unit) * Disk :=
  let '(r, d) := Save s (with_script acc.2 save.2) ref save.1 in ((acc.1 ++ [r])%list, d).

Definition save_all (d : Disk) (saves : list (Bundle * list fate)) : list (outcome unit) * Disk := foldl save_next ([], d) saves.

Lemma save_all_length d saves : length (save_all d saves).1 = length saves.
Proof.
  induction saves as [|x saves IH] using rev_ind; [done|]. unfold save_all. rewrite foldl_app. simpl. fold (save_all d saves).
  unfold save_next. destruct (Save _ _ _ _). simpl. rewrite !length_app, IH. done.
Qed.

Lemma save_all_holds d saves i0 :
  Forall (λ x, storable x.1) saves → (save_all d saves).1 !! i0 = Some (Done tt) →
  ∃ j b, (saves.*1) !! j = Some b ∧ holds (dk_files (save_all d saves).2) b ∧
         ∀ i, (save_all d saves).1 !! i = Some (Done tt) → (i <= j)%nat.
Proof.
  revert i0. induction saves as [|[new script] saves IH] using rev_ind; intros i0 Hs Hi; [done|].
  apply Forall_app in Hs as [Hs Hn]. rewrite Forall_singleton in Hn. simpl in Hn.
  pose proof (save_all_length d saves) as Hl.
  unfold save_all in *. rewrite foldl_app in *. simpl in *. fold (save_all d saves) in *. unfold save_next in *. simpl in *.
  set (d1 := with_script (save_all d saves).2 script) in *.
  pose proof (Save_holds d1) as Hk. pose proof (Save_done d1) as Hd.
  destruct (Save s d1 ref new) as [r d2] eqn:E. simpl in *. rewrite fmap_app. simpl.
  assert (r = Done tt ∨ r ≠ Done tt) as [->|Hr] by (destruct r as [[]| |]; [by left|by right|by right]).
  { exists (length saves), new. split_and!; [|exact (Hd _ new Hn E)|].
    - rewrite lookup_app_r; rewrite length_fmap; [|done]. by rewrite Nat.sub_diag.
    - intros i Hlt%lookup_lt_Some. rewrite length_app in Hlt. simpl in Hlt. lia. }
  assert (∀ i, ((save_all d saves).1 ++ [r])%list !! i = Some (Done tt) → (save_all d saves).1 !! i = Some (Done tt)) as Hold.
  { intros i [?|[_ Hx]]%lookup_app_Some; [done|]. destruct (i - _)%nat; [by injection Hx|done]. }
  destruct (IH i0 Hs (Hold _ Hi)) as (j & b & Hj & Hh & Hm). exists j, b. split_and!.
  - by apply lookup_app_l_Some.
  - specialize (Hk b new Hn Hh). rewrite E in Hk. destruct r as [[]|e|]; [done|done|done].
  - intros i Hx. by apply Hm, Hold.
Qed.

End Interrupted.

(** C39: the last known good bundle survives.  Bundles of a tenant are saved one after
    the other on whatever disk; every save may fail or stop in the middle at any call to
    the operating system, a write included.  Once one save has completed, a boot always
    finds a bundle that passes the check, and it is never older than the last one whose
    save completed. *)
Theorem last_known_good_survives `{!StoredJSON} s ref verifier d saves i0 :
  Forall (λ x, storable verifier x.1) saves → (save_all s ref d saves).1 !! i0 = Some (Done tt) →
  ∃ j b, (saves.*1) !! j = Some b ∧ LoadVerified s (dk_files (save_all s ref d saves).2) ref verifier = Ok b ∧
         ∀ i, (save_all s ref d saves).1 !! i = Some (Done tt) → (i <= j)%nat.
Proof.
  intros Hs Hi. destruct (save_all_holds s ref verifier d saves i0 Hs Hi) as (j & b & Hj & Hh & Hm).
  exists j, b. split_and!; [done|by apply holds_Load|done].
Qed.

(** ** The fallback boot *)

(** A reference that is one element of a path. *)
Definition plain (ref : string) : Prop :=
  elements "" ref = [ref] ∧ negb (same ref "" || same ref "." || same ref "..") = true.

Lemma tenant_dir_plain s ref : plain ref → tenant_dir s ref = (lk_dir s ++ [ref])%list.
Proof.
  intros [He Hn]. unfold tenant_dir. rewrite He. simpl. unfold clean_step.
  destruct (same ref ""), (same ref "."), (same ref ".."); try done.
Qed.

Section Boot.
Context `{!StoredJSON} (s : Store).

(** An uninterrupted save. *)
Lemma Save_works d ref b data :
  dk_script d = [] → marshal_stored b = Ok data →
  let d' := (Save s d ref b).2 in
  dk_script d' = [] ∧ dk_files d' !! active_path s ref = Some data ∧
  (∀ p, p ∉ [active_path s ref; previous_path s ref; temp_path s ref] → dk_files d' !! p = dk_files d !! p) ∧
  ∀ p, p ∈ dk_dirs d' ↔ p = tenant_dir s ref ∨ p ∈ dk_dirs d.
Proof.
  destruct d as [files dirs script]. simpl. intros -> Hm. unfold Save. rewrite Hm. unfold MkdirAll, call. simpl.
  assert (∀ p, p ∈ (if bool_decide (tenant_dir s ref ∈ dirs) then dirs else (dirs ++ [tenant_dir s ref])%list) ↔
               p = tenant_dir s ref ∨ p ∈ dirs) as Hdirs.
  { intros p. case_bool_decide as Hin; [|rewrite elem_of_app, list_elem_of_singleton; tauto]. split; [tauto|]. by intros [->|]. }
  unfold rotate, Stat, Rename, call. simpl. destruct (files !! active_path s ref) as [old|] eqn:Ho; simpl;
    unfold writeAtomic, OpenTruncated, Write, settle, Rename, call; simpl; rewrite lookup_insert_eq; simpl;
    (split_and!; [done|by rewrite lookup_insert_eq| |exact Hdirs]); intros p Hp; rewrite !not_elem_of_cons in Hp;
    destruct Hp as (Ha & Hpr & Ht & _); rewrite lookup_insert_ne, lookup_delete_ne, !lookup_insert_ne by congruence; [|done].
  by rewrite lookup_delete_ne by congruence.
Qed.

(** The disk after the activations of a log. *)
Record on_disk (ss : list TenantRuntimeSnapshot) (d : Disk) : Prop := {
  od_script : dk_script d = [];
  od_active : ∀ ref sn, latest_of ref ss = Some sn →
    ∃ data, marshal_stored (bundle_of sn) = Ok data ∧ dk_files d !! active_path s ref = Some data;
  od_dirs : ∀ p, p ∈ dk_dirs d ↔ ∃ ref, is_Some (latest_of ref ss) ∧ p = (lk_dir s ++ [ref])%list }.

Definition keepable (sn : TenantRuntimeSnapshot) : Prop :=
  plain (sn_TenantRef sn) ∧ storable verifyLKGBundle (bundle_of sn).

Lemma active_path_apart ref ref' name :
  plain ref → plain ref' → ref ≠ ref' → negb (same name "" || same name "." || same name "..") = true →
  active_path s ref ≠ file_path s ref' name.
Proof.
  intros Hp Hp' Hn Hname. unfold active_path. rewrite !file_path_spec, !tenant_dir_plain by done.
  rewrite <- !app_assoc. intros [= ? _]%app_inv_head. done.
Qed.

Lemma stored_on_disk d ss :
  dk_script d = [] → dk_dirs d = [] → Forall keepable ss → on_disk ss (foldl (store_activation s) d ss).
Proof.
  intros Hs Hd. induction ss as [|sn ss IH] using rev_ind; intros Hk.
  - split; [done|done|]. intros p. simpl. rewrite Hd. split; [by intros ?%elem_of_nil|]. intros (ref & [x Hx] & _). done.
  - apply Forall_app in Hk as [Hk Hn]. rewrite Forall_singleton in Hn. destruct Hn as [Hpl (data & Hm & _)].
    destruct (IH Hk) as [Is Ia Id]. rewrite foldl_app. simpl. set (d1 := foldl (store_activation s) d ss) in *.
    unfold store_activation. destruct (Save_works d1 (sn_TenantRef sn) _ data Is Hm) as (Js & Ja & Jf & Jd).
    split; [done| |].
    + intros ref sn'. rewrite latest_of_snoc. case_decide as Hr; [intros [= <-]; subst; by exists data|]. intros Hl.
      destruct (Ia _ _ Hl) as (data' & Hm' & Hf). exists data'. split; [done|]. rewrite Jf; [done|].
      destruct (latest_of_elem _ _ _ Hl) as [Hin Href]. rewrite Forall_forall in Hk. destruct (Hk _ Hin) as [Hpl' _]. rewrite Href in Hpl'.
      rewrite !not_elem_of_cons. split_and!; [apply active_path_apart..|apply not_elem_of_nil]; done.
    + intros p. rewrite Jd, Id, tenant_dir_plain by done. setoid_rewrite latest_of_snoc. split.
      * intros [->|(ref & Hl & ->)].
        -- exists (sn_TenantRef sn). by rewrite decide_True.
        -- exists ref. split; [by case_decide|done].
      * intros (ref & Hl & ->). case_decide as Hr; [left; by subst|right]. by exists ref.
Qed.

Lemma TenantRefs_elem ss d ref : on_disk ss d → ref ∈ TenantRefs s d ↔ is_Some (latest_of ref ss).
Proof.
  intros Ho. unfold TenantRefs. rewrite merge_sort_Permutation, list_elem_of_omap. split.
  - intros (p & Hp & Hn). apply (od_dirs _ _ Ho) in Hp as (ref' & Hl & ->). rewrite last_snoc in Hn.
    rewrite bool_decide_eq_true_2 in Hn by done. by injection Hn as ->.
  - intros Hl. exists (lk_dir s ++ [ref])%list. split; [apply (od_dirs _ _ Ho); by exists ref|].
    by rewrite last_snoc, bool_decide_eq_true_2.
Qed.

Lemma boot_each files ss r refs ref :
  (∀ x, x ∈ refs → ∃ sn, latest_of x ss = Some sn ∧ built sn ∧ LoadVerified s files x verifyLKGBundle = Ok (bundle_of sn)) →
  Tenant (foldl (boot_tenant s files) r refs) ref =
  match Tenant r ref with Some x => Some x | None => if decide (ref ∈ refs) then latest_of ref ss else None end.
Proof.
  revert r. induction refs as [|x refs IH]; intros r Hl; [|simpl foldl].
  - cbn [foldl]. destruct (Tenant r ref); [done|]. destruct (decide (ref ∈ [])) as [Hin|]; [by apply not_elem_of_nil in Hin|done].
  - rewrite IH by (intros y Hy; apply Hl; by right). destruct (Hl x) as (sn & Hx & Hb & Hv); [by left|].
    destruct (latest_of_elem _ _ _ Hx) as [_ Href]. unfold boot_tenant. destruct (Tenant r x) as [y|] eqn:Hy.
    + destruct (Tenant r ref) eqn:Hr; [done|]. assert (ref ≠ x) by congruence.
      destruct (decide (ref ∈ refs)), (decide (ref ∈ x :: refs)) as [Hi|Hi]; rewrite elem_of_cons in Hi; tauto.
    + rewrite Hv. cbn [bundle_of lb_SnapshotData]. unfold built in Hb. rewrite <- Hb. rewrite Tenant_activate. subst x.
      destruct (decide (sn_TenantRef sn = ref)) as [Hn|Hn].
      * subst ref. rewrite Hy, decide_True by (by left). by rewrite Hx.
      * destruct (Tenant r ref); [done|].
        destruct (decide (ref ∈ refs)), (decide (ref ∈ sn_TenantRef sn :: refs)) as [Hi|Hi]; rewrite elem_of_cons in Hi; try done;
          exfalso; intuition congruence.
Qed.

Lemma boot_restores d ss r ref :
  dk_script d = [] → dk_dirs d = [] → Forall built ss → Forall keepable ss →
  Tenant (boot_fallback s (foldl (store_activation s) d ss) r) ref =
  match Tenant r ref with Some x => Some x | None => latest_of ref ss end.
Proof.
  intros Hs Hd Hb Hk. pose proof (stored_on_disk d ss Hs Hd Hk) as Ho. unfold boot_fallback. rewrite (boot_each _ ss).
  - destruct (Tenant r ref); [done|]. case_decide as Hin; [done|]. destruct (latest_of ref ss) eqn:El; [|done].
    exfalso. apply Hin, (TenantRefs_elem ss); [done|]. rewrite El. by eexists.
  - intros x Hx. apply (TenantRefs_elem ss) in Hx as [sn Hsn]; [|done]. exists sn.
    destruct (latest_of_elem _ _ _ Hsn) as [Hin _]. rewrite Forall_forall in Hb, Hk. split_and!; [done|by apply Hb|].
    destruct (od_active _ _ Ho _ _ Hsn) as (data & Hm & Hf). destruct (Hk _ Hin) as [_ Hst].
    apply holds_Load. by eapply stored_holds.
Qed.

End Boot.

(** C40: the fallback boot restores what ran.  A control plane boots with an empty
    registry, performs any operations on its configuration, and stores each activation;
    its references are single path elements and its snapshots have an identity that JSON
    carries.  A process that later starts without them, the database lost, runs for
    every reference the snapshot that the control plane ran last; a slot that the
    process had already filled from the database is never overridden. *)
Theorem fallback_boot_restores {R} `{!StoredJSON} `{!Reader R} `{!DocumentJSON} `{!TimeColumn} `{!StringsJSON} `{!URLParser}
    (w : CWorld R) ops s d r :
  cw_delivered w = [] → (∀ ref, Tenant (cw_registry w) ref = None) → dk_script d = [] → dk_dirs d = [] →
  let w' := foldl exec w ops in
  Forall keepable (cw_delivered w') →
  ∀ ref, Tenant (boot_fallback s (foldl (store_activation s) d (cw_delivered w')) r) ref =
         match Tenant r ref with Some x => Some x | None => Tenant (cw_registry w') ref end.
Proof.
  intros Hd Hr Hs Hdir w' Hk ref. destruct (run_grows w ops) as (ss & Hb & Hds & Hreg). fold w' in Hds, Hreg.
  rewrite Hd in Hds. simpl in Hds. rewrite Hds in *. rewrite boot_restores by done.
  rewrite Hreg, Tenant_activate_all_latest, Hr. by destruct (Tenant r ref), (latest_of ref ss).
Qed.

(** ** Examples *)

Definition example_version (ref : string) (version : Z) : TenantRuntimeSnapshot :=
  NewTenantSnapshot (snapshot_data (ApplySystemDefaults no_system (example_document ref "eu")) version 5 []).

(** The text of a bundle is its reference and, from the second version on, a mark. *)
#[local] Instance marked_bundles : StoredJSON := {
  marshal_stored b := Ok ((if lb_ConfigVersion b =? 1 then "1" else "2") +:+ lb_TenantRef b);
  unmarshal_stored text :=
    match text with
    | String c ref => if Ascii.eqb c (Ascii.ascii_of_nat 49) then Ok (bundle_of (example_version ref 1))
                      else if Ascii.eqb c (Ascii.ascii_of_nat 50) then Ok (bundle_of (example_version ref 2))
                      else Err (ErrNew "json")
    | EmptyString => Err (ErrNew "json")
    end }.
#[local] Existing Instances counting_reader counting_reader_laws bits_json plain_urls named_documents postgres_time.

Definition example_store : Store := {| lk_dir := ["data"; "liteaig-lkg"] |}.
Definition empty_disk : Disk := {| dk_files := ∅; dk_dirs := []; dk_script := [] |}.
Definition first_bundle : Bundle := bundle_of (example_version "acme" 1).
Definition second_bundle : Bundle := bundle_of (example_version "acme" 2).

(** The second save stops in the middle of writing, after the rotation. *)
Definition interrupted : list (Bundle * list fate) :=
  [(first_bundle, []); (second_bundle, [Works; Works; Works; Works; Stops 1])].

Lemma storable_versions version : version = 1 ∨ version = 2 → storable verifyLKGBundle (bundle_of (example_version "acme" version)).
Proof. intros [->| ->]; (eexists; split_and!; [reflexivity|reflexivity|done|done|reflexivity]). Qed.

Lemma last_known_good_survives_witness :
  (save_all example_store "acme" empty_disk interrupted).1 = [Done tt; Halted] ∧
  ∃ j b, (interrupted.*1) !! j = Some b ∧
    LoadVerified example_store (dk_files (save_all example_store "acme" empty_disk interrupted).2) "acme" verifyLKGBundle = Ok b ∧
    ∀ i, (save_all example_store "acme" empty_disk interrupted).1 !! i = Some (Done tt) → (i <= j)%nat.
Proof.
  split; [vm_compute; reflexivity|].
  apply (last_known_good_survives example_store "acme" verifyLKGBundle empty_disk interrupted 0).
  - repeat constructor; simpl; apply storable_versions; auto.
  - vm_compute. reflexivity.
Defined.

Lemma example_keepable : keepable (example_version "acme" 1).
Proof. split; [by split|]. apply storable_versions. auto. Qed.

Definition rebooted : ActiveRegistry :=
  boot_fallback example_store
    (foldl (store_activation example_store) empty_disk (cw_delivered (foldl exec two_drafts example_ops))) empty_registry.

Lemma fallback_boot_restores_witness :
  Tenant rebooted "acme" =
    match Tenant empty_registry "acme" with Some x => Some x | None => Tenant (cw_registry (foldl exec two_drafts example_ops)) "acme" end.
Proof.
  apply (fallback_boot_restores two_drafts example_ops example_store empty_disk empty_registry); try reflexivity.
  rewrite example_delivered. apply Forall_singleton. exact example_keepable.
Defined.

(** A reference is not checked to be one element of a path: a tenant whose reference
    climbs into another tenant's directory replaces that tenant's stored bundle. *)
Example reference_reaches_another_tenant :
  let d := foldl (store_activation example_store) empty_disk [example_version "acme" 1; example_version "x/../acme" 2] in
  let r := boot_fallback example_store d empty_registry in
  Tenant r "acme" = None ∧ (sn_Version <$> Tenant r "x/../acme") = Some 2.
Proof. vm_compute. done. Qed.

(** The check does not compare a bundle with the directory it is in: a bundle of acme
    that lies in the directory of a tenant that is not running replaces the healthy
    configuration of acme. *)
Example foreign_bundle_overrides :
  let d := (Save example_store empty_disk "globex" first_bundle).2 in
  let r := ActivateTenant empty_registry "acme" (Some (example_version "acme" 2)) in
  (sn_Version <$> Tenant (boot_fallback example_store d r) "acme") = Some 1.
Proof. vm_compute. done. Qed.

(** The rotation does not look at what it rotates: when the active file is damaged and
    the previous one good, a save that stops before its last rename leaves neither. *)
Example damaged_active_displaces_good_previous :
  let damaged := <[active_path example_store "acme" := "?"]> (<[previous_path example_store "acme" := "1acme"]> ∅) in
  let d := {| dk_files := damaged; dk_dirs := []; dk_script := [Works; Works; Works; Stops 0] |} in
  is_ok (LoadVerified example_store damaged "acme" verifyLKGBundle) = true ∧
  is_ok (LoadVerified example_store (dk_files (Save example_store d "acme" second_bundle).2) "acme" verifyLKGBundle) = false.
Proof. vm_compute. done. Qed.
