(* ===== verification/Secrets.v ===== *)
(** * Secret providers

    platform/secrets/secrets.go and composite.go: the static, the environment and the
    composite provider, and the cache that keeps serving resolved material while the
    provider behind it is down.

    The clock reading of a call and what the wrapped provider answers when it is asked
    are arguments of [caching_Resolve]; the calls of [onOutage] are a log. *)

From S2P Require Import Prelude GoStd.

Open Scope string_scope.
Open Scope Z_scope.
Open Scope go_scope.

(** ** Providers *)

Definition Provider : Type := string → result (list Z).

Definition errSecretNotFound : error := ErrNew "secret not found".

Definition memory_Resolve (values : gmap string (list Z)) : Provider := λ ref,
  match values !! ref with Some value => Ok value | None => Err errSecretNotFound end.

Definition env_prefix : string := "secret://env/".

Definition env_Resolve (environ : gmap string string) : Provider := λ ref,
  if String.prefix env_prefix ref then
    let name := String.substring (String.length env_prefix) (String.length ref - String.length env_prefix) ref in
    if bool_decide (name = "") then Err errSecretNotFound
    else match environ !! name with Some value => Ok (bytes_of_string value) | None => Err errSecretNotFound end
  else Err errSecretNotFound.

Definition NewCompositeProvider (providers : list (option Provider)) : list Provider := omap id providers.

Fixpoint composite_from (lastErr : option error) (providers : list Provider) (ref : string) : result (list Z) :=
  match providers with
  | [] => Err (default errSecretNotFound lastErr)
  | provider :: providers =>
      match provider ref with
      | Ok value => Ok value
      | Err err => composite_from (Some err) providers ref
      end
  end.

Definition composite_Resolve (providers : list Provider) : Provider := composite_from None providers.

(** The first provider's answer stands; without one the rest decides. *)
Lemma composite_first provider providers ref value :
  provider ref = Ok value → composite_Resolve (provider :: providers) ref = Ok value.
Proof. unfold composite_Resolve. simpl. by intros ->. Qed.

Lemma composite_from_ok last providers ref value :
  composite_from last providers ref = Ok value →
  ∃ before provider after, providers = (before ++ provider :: after)%list ∧ provider ref = Ok value ∧
    Forall (λ p, is_ok (p ref) = false) before.
Proof.
  revert last. induction providers as [|p providers IH]; intros last; simpl; [done|].
  destruct (p ref) as [v|e] eqn:Hp.
  - intros [= ->]. exists [], p, providers. by split_and!.
  - intros (before & q & after & -> & Hq & Hb)%IH. exists (p :: before), q, after. split_and!; [done|done|].
    constructor; [by rewrite Hp|done].
Qed.

(** ** The cache *)

Record CacheConfig := { sc_TTL : Z; sc_StaleGrace : Z; sc_RotationOverlap : Z }.

Definition WithDefaults (c : CacheConfig) : CacheConfig :=
  {| sc_TTL := if sc_TTL c <=? 0 then 5 * 60 * second else sc_TTL c;
     sc_StaleGrace := if sc_StaleGrace c <=? 0 then 60 * second else sc_StaleGrace c;
     sc_RotationOverlap := sc_RotationOverlap c |}.

Definition ValidateCacheConfig (c : CacheConfig) : option error :=
  if (sc_TTL c <? 0) || (sc_StaleGrace c <? 0) || (sc_RotationOverlap c <? 0)
  then Some (ErrNew "secret cache durations must be non-negative") else None.

Record cacheEntry := { se_value : list Z; se_fetchedAt : Z; se_degraded : bool }.

Record CachingProvider := {
  cp_config : CacheConfig; cp_cache : gmap string cacheEntry; cp_outages : list (string * bool) }.

Definition NewCachingProvider (config : CacheConfig) : result CachingProvider :=
  match ValidateCacheConfig config with
  | Some err => Err err
  | None => Ok {| cp_config := WithDefaults config; cp_cache := ∅; cp_outages := [] |}
  end.

Definition set_entry (c : CachingProvider) (ref : string) (e : cacheEntry) : CachingProvider :=
  {| cp_config := cp_config c; cp_cache := <[ref := e]> (cp_cache c); cp_outages := cp_outages c |}.
Definition report (c : CachingProvider) (ref : string) (degraded : bool) : CachingProvider :=
  {| cp_config := cp_config c; cp_cache := cp_cache c; cp_outages := (cp_outages c ++ [(ref, degraded)])%list |}.

(** An entry fetched no longer than [limit] ago. *)
Definition within (now limit : Z) (e : cacheEntry) : bool := time_sub now (se_fetchedAt e) <=? limit.

Definition caching_Resolve (c : CachingProvider) (now : Z) (ref : string) (answer : result (list Z)) :
    result (list Z) * CachingProvider :=
  let entry := cp_cache c !! ref in
  let usable limit := match entry with Some e => if within now limit e then Some e else None | None => None end in
  match usable (sc_TTL (cp_config c)) with
  | Some e => (Ok (se_value e), c)
  | None =>
      match answer with
      | Ok value => (Ok value, set_entry c ref {| se_value := value; se_fetchedAt := now; se_degraded := false |})
      | Err err =>
          match usable (sc_TTL (cp_config c) +! sc_StaleGrace (cp_config c)) with
          | Some e =>
              (Ok (se_value e),
               report (set_entry c ref {| se_value := se_value e; se_fetchedAt := se_fetchedAt e; se_degraded := true |}) ref true)
          | None => (Err err, report c ref false)
          end
      end
  end.

Definition Degraded (c : CachingProvider) (ref : string) : bool :=
  match cp_cache c !! ref with Some e => se_degraded e | None => false end.
Definition CacheSize (c : CachingProvider) : nat := size (cp_cache c).

(** ** Histories of calls *)

Record call := { cl_now : Z; cl_ref : string; cl_answer : result (list Z) }.

Definition after (c : CachingProvider) (calls : list call) : CachingProvider :=
  foldl (λ c x, (caching_Resolve c (cl_now x) (cl_ref x) (cl_answer x)).2) c calls.

Lemma resolve_config c now ref answer : cp_config (caching_Resolve c now ref answer).2 = cp_config c.
Proof. unfold caching_Resolve. destruct (cp_cache c !! ref); repeat case_match; done. Qed.

Lemma after_config c calls : cp_config (after c calls) = cp_config c.
Proof. revert c. induction calls as [|x calls IH]; intros c; [done|]. simpl. rewrite IH. apply resolve_config. Qed.

(** What a call does to an entry: nothing, a fresh answer, or a mark. *)
Lemma resolve_entry c now ref answer ref' e :
  cp_cache (caching_Resolve c now ref answer).2 !! ref' = Some e →
  (∃ e0, cp_cache c !! ref' = Some e0 ∧ se_value e = se_value e0 ∧ se_fetchedAt e = se_fetchedAt e0) ∨
  (ref' = ref ∧ answer = Ok (se_value e) ∧ se_fetchedAt e = now).
Proof.
  unfold caching_Resolve. destruct (cp_cache c !! ref) as [e0|] eqn:He; [destruct (within _ (sc_TTL _) _); [by eauto|]|];
    (destruct answer as [value|err]; [|try (destruct (within _ _ _))]); simpl; try by eauto.
  all: rewrite lookup_insert; case_decide as Hr; [intros [= <-]; subst ref'; simpl; eauto|eauto].
Qed.

(** An entry stays while the provider fails for its reference. *)
Lemma resolve_keeps c now ref answer ref' e :
  cp_cache c !! ref' = Some e → (ref = ref' → is_ok answer = false) →
  ∃ e', cp_cache (caching_Resolve c now ref answer).2 !! ref' = Some e' ∧ se_value e' = se_value e ∧
    se_fetchedAt e' = se_fetchedAt e.
Proof.
  intros He Ha. unfold caching_Resolve. destruct (cp_cache c !! ref) as [e0|] eqn:He0; [destruct (within _ (sc_TTL _) _); [by eauto|]|];
    (destruct answer as [value|err]; [|try (destruct (within _ _ _))]); simpl; try by eauto.
  all: rewrite lookup_insert; case_decide as Hr; [subst ref'; simplify_eq|by eauto]; try by (specialize (Ha eq_refl)).
  all: by eexists.
Qed.

Section Bounded.
Context (config : CacheConfig) (Hpositive : 0 < sc_TTL config ∧ 0 < sc_StaleGrace config)
        (Hsum : sc_TTL config + sc_StaleGrace config <= max_int64).

Lemma stale_limit : sc_TTL config +! sc_StaleGrace config = sc_TTL config + sc_StaleGrace config.
Proof. apply wrap64_id. unfold in_int64, min_int64, max_int64 in *. lia. Qed.

(** The material of the cache is what the provider answered. *)
Lemma after_origin c calls ref e :
  cp_cache c = ∅ → cp_cache (after c calls) !! ref = Some e →
  {| cl_now := se_fetchedAt e; cl_ref := ref; cl_answer := Ok (se_value e) |} ∈ calls.
Proof.
  intros Hc. revert e. induction calls as [|x calls IH] using rev_ind; intros e; [simpl; rewrite Hc, lookup_empty; done|].
  unfold after. rewrite foldl_app. simpl. fold (after c calls).
  intros [(e0 & He0 & Hv & Ht)|(Hr & Ha & Ht)]%resolve_entry; apply elem_of_app.
  - left. rewrite Hv, Ht. by apply IH.
  - right. apply list_elem_of_singleton. destruct x. simpl in *. by subst.
Qed.

Lemma after_keeps c calls ref e :
  cp_cache c !! ref = Some e → (∀ x, x ∈ calls → cl_ref x = ref → is_ok (cl_answer x) = false) →
  ∃ e', cp_cache (after c calls) !! ref = Some e' ∧ se_value e' = se_value e ∧ se_fetchedAt e' = se_fetchedAt e.
Proof.
  revert c e. induction calls as [|x calls IH]; intros c e He Hx; [by eauto|].
  destruct (resolve_keeps c (cl_now x) (cl_ref x) (cl_answer x) ref e He) as (e1 & He1 & Hv & Ht).
  { apply Hx. by left. }
  destruct (IH _ e1 He1) as (e' & He' & Hv' & Ht'); [intros y Hy; apply Hx; by right|].
  exists e'. split_and!; [done| |]; congruence.
Qed.

(** The secret cache bridges an outage, and no more.  Whatever calls came before,
    material that [Resolve] returns was answered by the provider for that very
    reference, now or at most TTL + StaleGrace ago; and while the provider fails for a
    reference whose material was fetched at some time, [Resolve] serves exactly that
    material up to TTL + StaleGrace after it and the provider's error from then on. *)
Theorem secret_cache_bridges_outage c calls :
  cp_config c = config → cp_cache c = ∅ →
  (∀ now ref answer value,
     (caching_Resolve (after c calls) now ref answer).1 = Ok value →
     answer = Ok value ∨
     ∃ t, {| cl_now := t; cl_ref := ref; cl_answer := Ok value |} ∈ calls ∧
       time_sub now t <= sc_TTL config + sc_StaleGrace config) ∧
  (∀ ref e outage now err,
     cp_cache (after c calls) !! ref = Some e →
     (∀ x, x ∈ outage → cl_ref x = ref → is_ok (cl_answer x) = false) →
     (caching_Resolve (after (after c calls) outage) now ref (Err err)).1 =
       if time_sub now (se_fetchedAt e) <=? sc_TTL config + sc_StaleGrace config then Ok (se_value e) else Err err).
Proof.
  intros Hcfg Hempty. pose proof stale_limit as Hl. split.
  - intros now ref answer value. unfold caching_Resolve. rewrite after_config, Hcfg, Hl.
    destruct (cp_cache (after c calls) !! ref) as [e|] eqn:He; [|destruct answer; simpl; [by left|done]].
    apply after_origin in He; [|done]. unfold within. destruct (Z.leb_spec (time_sub now (se_fetchedAt e)) (sc_TTL config)).
    + intros [= <-]. right. eexists. split; [exact He|]. lia.
    + destruct answer as [v|err]; simpl; [by left|].
      destruct (Z.leb_spec (time_sub now (se_fetchedAt e)) (sc_TTL config + sc_StaleGrace config)); [|done].
      intros [= <-]. right. eexists. by split.
  - intros ref e outage now err He Ho. destruct (after_keeps _ outage _ _ He Ho) as (e' & He' & Hv & Ht).
    unfold caching_Resolve. rewrite He', !after_config, Hcfg, Hl. unfold within. rewrite Ht.
    destruct (Z.leb_spec (time_sub now (se_fetchedAt e)) (sc_TTL config)).
    + rewrite (proj2 (Z.leb_le _ _)) by lia. simpl. by rewrite Hv.
    + destruct (_ <=? _); simpl; by rewrite ?Hv.
Qed.
End Bounded.

(** ** A concrete history *)

Definition minutes (n : Z) : Z := n * 60 * second.

Definition default_cache : CachingProvider :=
  {| cp_config := WithDefaults {| sc_TTL := 0; sc_StaleGrace := 0; sc_RotationOverlap := 0 |}; cp_cache := ∅; cp_outages := [] |}.

Definition fetched : list call := [{| cl_now := 0; cl_ref := "k"; cl_answer := Ok [1; 2] |}].
Definition down (now : Z) : call := {| cl_now := now; cl_ref := "k"; cl_answer := Err (ErrNew "down") |}.

Lemma secret_cache_bridges_outage_witness :
  (caching_Resolve (after (after default_cache fetched) [down (minutes 5 + 1)]) (minutes 6) "k" (Err (ErrNew "down"))).1 = Ok [1; 2] ∧
  (caching_Resolve (after (after default_cache fetched) [down (minutes 5 + 1)]) (minutes 6 + 1) "k" (Err (ErrNew "down"))).1 =
    Err (ErrNew "down").
Proof.
  destruct (secret_cache_bridges_outage (cp_config default_cache)) with (c := default_cache) (calls := fetched) as [_ Hout];
    [vm_compute; by split|vm_compute; discriminate|reflexivity|reflexivity|].
  split; (rewrite (Hout "k" {| se_value := [1; 2]; se_fetchedAt := 0; se_degraded := false |});
    [vm_compute; reflexivity|vm_compute; reflexivity|by intros x ->%list_elem_of_singleton]).
Defined.

(** After the grace the reference still reads as served stale, although the last
    resolution failed. *)
Example degraded_outlives_the_grace :
  let c := after (after default_cache fetched) [down (minutes 5 + 1); down (minutes 6 + 1)] in
  Degraded c "k" = true ∧ cp_outages c = [("k", true); ("k", false)].
Proof. vm_compute. done. Qed.
