(* ===== verification/Admission.v ===== *)
(** * Authentication and admission

    access/auth/apikey.go, gateway/admission/admission.go, and the key operations of
    app/lite.go that refresh the running tenant: from the bearer token of a request to
    the request context of the pipeline, and from the console's create and revoke to
    what the gateway accepts.

    The world is that of ConfigService.v.  The order in which [sync.Map.Range] visits
    the tenant slots is an argument of [TenantByID]; so are the clock readings, and
    whether the request was still alive after the wait before a retry. *)

From S2P Require Import Prelude GoFloat GoStd GoNet Snapshot Interaction ApiKey Egress Config ConfigService Secrets.

Open Scope string_scope.
Open Scope Z_scope.

(** ** access/auth *)

Definition ErrUnauthorized : error := ErrNew "invalid credentials".

Record RequestScope := { rq_TenantID : string; rq_ProjectID : string; rq_RemoteIP : string }.

Record Principal := {
  pr_Type : string; pr_TenantID : string; pr_ProjectID : string; pr_APIKeyID : string; pr_ApplicationID : string;
  pr_AgentID : string; pr_ServiceAccountID : string; pr_AuthMethod : string; pr_AttributionTrust : string;
  pr_TrustBoundary : string; pr_FederationRelationshipID : string; pr_ExternalSubject : string }.

Record AuthResult := { at_Principal : Principal; at_Snapshot : TenantRuntimeSnapshot; at_Key : APIKey }.

Definition admits_ip (ip : list Z) (entry : string) : bool :=
  match ParseIP entry with Some candidate => ip_equal candidate ip | None => false end ||
  match ParseCIDR entry with Some network => Contains network ip | None => false end.

Definition allowedIP (value : string) (allowlist : list string) : bool :=
  match allowlist with
  | [] => true
  | _ => match ParseIP value with None => false | Some ip => existsb (admits_ip ip) allowlist end
  end.

Definition principal_type (key : APIKey) : string :=
  if negb (same (ak_AgentID key) "") then "agent"
  else if negb (same (ak_ApplicationID key) "") then "application"
  else if negb (same (ak_ServiceAccountID key) "") then "service_account"
  else "api_key".

Definition principal (snapshot : TenantRuntimeSnapshot) (key : APIKey) : Principal :=
  {| pr_Type := principal_type key; pr_TenantID := sn_TenantID snapshot; pr_ProjectID := ak_ProjectID key;
     pr_APIKeyID := ak_ID key; pr_ApplicationID := ak_ApplicationID key; pr_AgentID := ak_AgentID key;
     pr_ServiceAccountID := ak_ServiceAccountID key; pr_AuthMethod := "api_key"; pr_AttributionTrust := "key_bound";
     pr_TrustBoundary := ""; pr_FederationRelationshipID := ""; pr_ExternalSubject := "" |}.

(** The digest of a token whose key is unknown is computed for its time only. *)
Definition Authenticate (r : ActiveRegistry) (Resolve : Provider) (now : Z) (raw : string) (requested : RequestScope) :
    result AuthResult :=
  match Parse raw with
  | Err _ => Err ErrUnauthorized
  | Ok token =>
      match Tenant r (tk_TenantRef token) with
      | None => Err ErrUnauthorized
      | Some snapshot =>
          if negb (same (sn_Status snapshot) "active") then Err ErrUnauthorized
          else match snapshot_apiKey snapshot (tk_PublicID token), ar_global r with
          | None, _ | _, None => Err ErrUnauthorized
          | Some key, Some global =>
              match PepperRef global (ak_PepperVersion key) with
              | None => Err ErrUnauthorized
              | Some pepperRef =>
                  match Resolve pepperRef with
                  | Err _ => Err ErrUnauthorized
                  | Ok pepper =>
                      if negb (Verify pepper token (ak_HMACDigest key)) || negb (same (ak_Status key) "active")
                      then Err ErrUnauthorized
                      else if expired (ak_ExpiresAt key) now then Err ErrUnauthorized
                      else if negb (same (rq_TenantID requested) "") && negb (same (rq_TenantID requested) (sn_TenantID snapshot))
                      then Err ErrUnauthorized
                      else if negb (same (rq_ProjectID requested) "") && negb (same (rq_ProjectID requested) (ak_ProjectID key))
                      then Err ErrUnauthorized
                      else if negb (allowedIP (rq_RemoteIP requested) (ak_IPAllowlist key)) then Err ErrUnauthorized
                      else Ok {| at_Principal := principal snapshot key; at_Snapshot := snapshot; at_Key := key |}
                  end
              end
          end
      end
  end.

(** ** gateway/admission *)

Record Input := {
  in_Token : string; in_RemoteIP : string; in_RequestedTenantID : string; in_RequestedProjectID : string;
  in_Protocol : string; in_BodyBytes : Z; in_Request : option UnifiedRequest }.

Definition modelAllowed (values : list string) (model : string) : bool :=
  match values with [] => true | _ => existsb (λ value, same value model) values end.

Definition principalID (p : Principal) : string :=
  if same (pr_Type p) "agent" then pr_AgentID p
  else if same (pr_Type p) "application" then pr_ApplicationID p
  else if same (pr_Type p) "service_account" then pr_ServiceAccountID p
  else pr_APIKeyID p.

Definition model_interaction (p : Principal) (protocol : string) (request : UnifiedRequest) : Context :=
  {| ic_Kind := "model"; ic_Protocol := protocol; ic_TenantID := pr_TenantID p; ic_ProjectID := pr_ProjectID p;
     ic_SessionID := ur_SessionID request; ic_TaskID := ur_TaskID request; ic_RootTaskID := ur_RootTaskID request;
     ic_ParentTaskID := ur_ParentTaskID request; ic_ParentRequestID := ""; ic_TrustBoundary := ""; ic_Direction := "";
     ic_Federation := None; ic_Caller := {| pref_Type := pr_Type p; pref_ID := principalID p |};
     ic_Target := {| rref_Type := "logical_model"; rref_ID := ur_Model request |} |}.

(** The fields Admit leaves at their zero values are written out. *)
Definition admitted (requestID : string) (receivedAt : Z) (a : AuthResult) (protocol : string) (request : UnifiedRequest) :
    RequestContext :=
  {| rc_RequestID := requestID; rc_ReceivedAt := receivedAt; rc_Snapshot := Some (at_Snapshot a);
     rc_Interaction := Some (model_interaction (at_Principal a) protocol request); rc_Request := Some request;
     rc_Response := None; rc_Usage := None; rc_Source := ""; rc_Key := at_Key a; rc_SelectedDeploymentID := "";
     rc_ProviderCost := None; rc_Latency := 0; rc_TTFT := 0; rc_Err := None; rc_CacheHit := false; rc_CachePending := false;
     rc_CacheKey := ""; rc_StreamWriter := false; rc_BudgetPolicyID := ""; rc_ReservationID := "";
     rc_BudgetEstimated := 0; rc_BudgetSoftWarning := false; rc_TPMEstimated := 0 |}.

(** [authenticate] is the authenticator, [received] the clock after it. *)
Definition Admit {R} `{!Reader R} (maxBodyBytes : Z) (authenticate : string → RequestScope → result AuthResult)
    (received : Z) (g : R) (input : Input) : result RequestContext * R :=
  let '(id, g) := id_New g in
  (match id with
   | Err err => Err err
   | Ok requestID =>
       if (in_BodyBytes input <? 0) || (maxBodyBytes <? in_BodyBytes input)
       then Err (ErrKernel "REQUEST_TOO_LARGE" "request body exceeds configured limit" false)
       else match in_Request input with
       | None => Err (ErrKernel "INVALID_REQUEST" "model request is required" false)
       | Some request =>
           if same (ur_Model request) "" then Err (ErrKernel "INVALID_REQUEST" "model request is required" false)
           else match authenticate (in_Token input)
                        {| rq_TenantID := in_RequestedTenantID input; rq_ProjectID := in_RequestedProjectID input;
                           rq_RemoteIP := in_RemoteIP input |} with
                | Err _ => Err (ErrKernel "UNAUTHORIZED" "invalid credentials" false)
                | Ok a =>
                    if negb (modelAllowed (ak_ModelAllowlist (at_Key a)) (ur_Model request))
                    then Err (ErrKernel "MODEL_FORBIDDEN" "model is not allowed" false)
                    else Ok (admitted requestID received a (in_Protocol input) request)
                end
       end
   end, g).

(** ** Keys from the console *)

Definition TenantByID (order : list string) (r : ActiveRegistry) (tenantID : string) : option TenantRuntimeSnapshot :=
  head (omap (λ ref, match Tenant r ref with
                     | Some snapshot => if same (sn_TenantID snapshot) tenantID then Some snapshot else None
                     | None => None
                     end) order).

Section Keys.
Context {R : Type} `{!Reader R} `{!DocumentJSON} `{!TimeColumn} `{!StringsJSON} `{!URLParser} `{!AEAD}.
Context (Resolve : Provider).
Implicit Types (w : CWorld R).

(** The attempts of [refreshTenantRuntime]: attempt [i] reads the clock [clock i] and,
    from the second on, waits first. *)
Fixpoint refresh_attempts (clock : nat → Z) (alive : nat → bool) (budget i : nat) (lastErr : option error) w
    (scope : string) (version : Z) (actorID : string) : option error * CWorld R :=
  match budget with
  | O => (lastErr, w)
  | S budget =>
      if negb (i =? 0)%nat && negb (alive i) then (Some (ErrNew "context canceled"), w)
      else match Reconcile w (clock i) scope version actorID with
           | (Ok _, w) => (None, w)
           | (Err err, w) => refresh_attempts clock alive budget (S i) (Some err) w scope version actorID
           end
  end.

Definition refreshTenantRuntime (clock : nat → Z) (alive : nat → bool) (order : list string) w (scope actorID : string) :
    option error * CWorld R :=
  match TenantByID order (cw_registry w) scope with
  | None => (None, w)
  | Some snapshot =>
      if sn_Version snapshot =? 0 then (None, w)
      else refresh_attempts clock alive 3 0 None w scope (sn_Version snapshot) actorID
  end.

(** The operator sees it wrapped with the text of the reconciliation's error. *)
Definition ErrRuntimeRefreshFailed : error := ErrNew "runtime refresh failed".

Definition key_world w : World R := {| w_db := cw_db w; w_rng := cw_rng w |}.
Definition after_keys w (k : World R) : CWorld R := set_rng (set_db w (w_db k)) (w_rng k).

Definition with_ref (input : CreateInput) (ref : string) : CreateInput :=
  {| in_TenantRef := ref; in_ProjectID := in_ProjectID input; in_Name := in_Name input;
     in_ApplicationID := in_ApplicationID input; in_AgentID := in_AgentID input;
     in_ServiceAccountID := in_ServiceAccountID input; in_ExpiresAt := in_ExpiresAt input;
     in_ModelAllowlist := in_ModelAllowlist input; in_IPAllowlist := in_IPAllowlist input |}.

(** The reference of the key: the one of the request or the running tenant's. *)
Definition key_ref (order : list string) w (scope : string) (input : CreateInput) : result string :=
  if same (in_TenantRef input) "" then
    match TenantByID order (cw_registry w) scope with
    | None => Err ErrNotFound
    | Some snapshot => if same (sn_TenantRef snapshot) "" then Err ErrNotFound else Ok (sn_TenantRef snapshot)
    end
  else Ok (in_TenantRef input).

Definition CreateKey (clock : nat → Z) (alive : nat → bool) (order order' : list string) w (now : Z) (scope : string)
    (input : CreateInput) (actorID : string) : result CreateResult * CWorld R :=
  match key_ref order w scope input with
  | Err err => (Err err, w)
  | Ok ref =>
      let '(r, k) := Create Resolve (key_world w) now scope (with_ref input ref) in
      let w := after_keys w k in
      match r with
      | Err err => (Err err, w)
      | Ok created =>
          match refreshTenantRuntime clock alive order' w scope actorID with
          | (Some _, w) => (Err (ErrWrap "" ErrRuntimeRefreshFailed), w)
          | (None, w) => (Ok created, w)
          end
      end
  end.

Definition RevokeKey (clock : nat → Z) (alive : nat → bool) (order : list string) w (scope id actorID : string) :
    option error * CWorld R :=
  let '(r, k) := Revoke (key_world w) scope id in
  let w := after_keys w k in
  match r with
  | Err err => (Some err, w)
  | Ok _ =>
      match refreshTenantRuntime clock alive order w scope actorID with
      | (Some _, w) => (Some (ErrWrap "" ErrRuntimeRefreshFailed), w)
      | (None, w) => (None, w)
      end
  end.
End Keys.

(** ** Who is let in *)

(** The abstract requirement on a request with the bearer text [raw]: its token names a
    running tenant and one of its keys, was issued under the key's pepper, and the key
    is active, unexpired and valid for the scope and the address of the request. *)
Record authorized (r : ActiveRegistry) (Resolve : Provider) (now : Z) (raw : string) (q : RequestScope)
    (s : TenantRuntimeSnapshot) (key : APIKey) (token : Token) (g : GlobalRuntime) (ref : string) (pepper : list Z) : Prop := {
  ok_token : raw = token_String token ∧ well_formed token = true;
  ok_tenant : Tenant r (tk_TenantRef token) = Some s ∧ sn_Status s = "active";
  ok_key : sn_apiKeys s !! tk_PublicID token = Some key ∧ ak_Status key = "active";
  ok_pepper : ar_global r = Some g ∧ gr_pepperRefs g !! ak_PepperVersion key = Some ref ∧ Resolve ref = Ok pepper;
  ok_digest : Digest pepper token = ak_HMACDigest key;
  ok_expiry : ∀ at_, ak_ExpiresAt key = Some at_ → now < at_;
  ok_scope : (rq_TenantID q = "" ∨ rq_TenantID q = sn_TenantID s) ∧ (rq_ProjectID q = "" ∨ rq_ProjectID q = ak_ProjectID key);
  ok_address : allowedIP (rq_RemoteIP q) (ak_IPAllowlist key) = true }.

Lemma expired_spec expiry now : expired expiry now = false ↔ ∀ at_, expiry = Some at_ → now < at_.
Proof.
  destruct expiry as [at_|]; simpl; [|naive_solver]. rewrite Z.leb_gt. naive_solver.
Qed.

Lemma requested_spec a b : negb (same a "") && negb (same a b) = false ↔ a = "" ∨ a = b.
Proof.
  rewrite andb_false_iff, !negb_false_iff, !same_spec. done.
Qed.

Lemma Authenticate_iff r Resolve now raw q a :
  Authenticate r Resolve now raw q = Ok a ↔
  ∃ s key token g ref pepper,
    authorized r Resolve now raw q s key token g ref pepper ∧
    a = {| at_Principal := principal s key; at_Snapshot := s; at_Key := key |}.
Proof.
  split.
  - unfold Authenticate. destruct (Parse raw) as [token|] eqn:Hp; [|done]. apply Parse_spec in Hp as [Hw Hraw].
    destruct (Tenant _ _) as [s|] eqn:Ht; [|done]. destruct (same (sn_Status s) "active") eqn:Hs; [|done].
    destruct (snapshot_apiKey _ _) as [key|] eqn:Hk; [|done]. destruct (ar_global r) as [g|] eqn:Hg; [|done].
    destruct (PepperRef _ _) as [ref|] eqn:Hr; [|done]. destruct (Resolve ref) as [pepper|] eqn:Hpep; [|done]. simpl.
    destruct (Verify _ _ _) eqn:Hv; [|done]. destruct (same (ak_Status key) "active") eqn:Hks; [|done]. simpl.
    destruct (expired _ _) eqn:Hx; [done|]. destruct (negb _ && negb _) eqn:Hqt; [done|].
    destruct (negb (same (rq_ProjectID q) "") && _) eqn:Hqp; [done|]. destruct (allowedIP _ _) eqn:Hip; [|done]. simpl.
    intros [= <-]. exists s, key, token, g, ref, pepper. split; [|done].
    apply same_spec in Hs, Hks. pose proof (proj1 (expired_spec _ _) Hx) as Hlive. apply requested_spec in Hqt, Hqp. apply bool_decide_eq_true in Hv.
    by split.
  - intros (s & key & token & g & ref & pepper & [[-> Hw] [Ht Hs] [Hk Hks] (Hg & Hr & Hpep) Hd Hx [Hqt Hqp] Hip] & ->).
    unfold Authenticate. rewrite (Parse_String token Hw), Ht, Hs, same_refl. unfold snapshot_apiKey, PepperRef, Verify. simpl.
    rewrite Hk, Hg, Hr, Hpep, Hks, same_refl, bool_decide_eq_true_2 by done. simpl.
    rewrite (proj2 (expired_spec _ _) Hx), (proj2 (requested_spec _ _) Hqt), (proj2 (requested_spec _ _) Hqp), Hip. done.
Qed.

(** C7: Authentication is exact.  [Authenticate] lets a request in precisely when the
    requirement holds, with the tenant, the project and the principal of the key and
    never those the request names; every refusal is the same error, so it does not
    tell which check failed. *)
Theorem authentication_exact r Resolve now raw q :
  (∀ a, Authenticate r Resolve now raw q = Ok a ↔
     ∃ s key token g ref pepper,
       authorized r Resolve now raw q s key token g ref pepper ∧
       a = {| at_Principal := principal s key; at_Snapshot := s; at_Key := key |}) ∧
  (∀ e, Authenticate r Resolve now raw q = Err e → e = ErrUnauthorized).
Proof.
  split; [apply Authenticate_iff|]. intros e. unfold Authenticate. repeat case_match; congruence.
Qed.

Lemma modelAllowed_spec values model : modelAllowed values model = true ↔ values = [] ∨ model ∈ values.
Proof.
  destruct values as [|v vs]; [naive_solver|]. unfold modelAllowed. rewrite existsb_exists. split.
  - intros (x & Hx%list_elem_of_In & ->%same_spec). by right.
  - intros [?|Hm]; [done|]. exists model. split; [by apply list_elem_of_In|apply same_refl].
Qed.

(** C8: An admitted request is bound to its key.  When [Admit] lets a request in, the
    context runs in the tenant and the project of an authorized key, whatever the
    request named, under the snapshot the key was found in; its model is one the key
    may use, its body within the limit, and its caller the principal of the key. *)
Theorem admitted_request_is_key_bound {R} `{!Reader R} maxBodyBytes r Resolve now received (g g' : R) input c :
  Admit maxBodyBytes (Authenticate r Resolve now) received g input = (Ok c, g') →
  ∃ s key token gl ref pepper request,
    authorized r Resolve now (in_Token input)
      {| rq_TenantID := in_RequestedTenantID input; rq_ProjectID := in_RequestedProjectID input; rq_RemoteIP := in_RemoteIP input |}
      s key token gl ref pepper ∧
    0 <= in_BodyBytes input <= maxBodyBytes ∧ in_Request input = Some request ∧ rc_Request c = Some request ∧
    (ak_ModelAllowlist key = [] ∨ ur_Model request ∈ ak_ModelAllowlist key) ∧
    rc_Snapshot c = Some s ∧ rc_Key c = key ∧ TenantID c = sn_TenantID s ∧ ProjectID c = ak_ProjectID key ∧
    (in_RequestedTenantID input = "" ∨ in_RequestedTenantID input = TenantID c) ∧
    (in_RequestedProjectID input = "" ∨ in_RequestedProjectID input = ProjectID c) ∧
    ic_Caller <$> rc_Interaction c = Some {| pref_Type := principal_type key; pref_ID := principalID (principal s key) |}.
Proof.
  unfold Admit. destruct (id_New g) as [[requestID|] g1]; [|done].
  destruct ((in_BodyBytes input <? 0) || (maxBodyBytes <? in_BodyBytes input)) eqn:Hb; [done|].
  apply orb_false_elim in Hb as [Hlo%Z.ltb_ge Hhi%Z.ltb_ge].
  destruct (in_Request input) as [request|]; [|done]. destruct (same (ur_Model request) ""); [done|].
  destruct (Authenticate _ _ _ _ _) as [a|e] eqn:Ha; [|done].
  destruct (modelAllowed _ _) eqn:Hm; [|done]. simpl. intros [= <- <-].
  apply Authenticate_iff in Ha as (s & key & token & gl & ref & pepper & Hauth & ->).
  apply modelAllowed_spec in Hm. exists s, key, token, gl, ref, pepper, request. pose proof (ok_scope _ _ _ _ _ _ _ _ _ _ _ Hauth).
  simpl in *. split_and!; naive_solver.
Qed.

(** ** The life of a key *)

Lemma index_by_unique {T} (key : T → string) l x :
  x ∈ l → (∀ y, y ∈ l → key y = key x → y = x) → index_by key l !! key x = Some x.
Proof.
  induction l as [|z l IH] using rev_ind; intros Hx Hu; [by apply elem_of_nil in Hx|].
  rewrite index_by_snoc, lookup_insert. case_decide as Hz.
  - f_equal. apply Hu; [set_solver|done].
  - apply IH; [|intros y Hy; apply Hu; set_solver]. apply elem_of_app in Hx as [Hx|Hx%list_elem_of_singleton]; [done|]. by subst x.
Qed.

Lemma scan_all_elem scan rows keys :
  scan_all scan rows = Ok keys → ∀ k, k ∈ keys ↔ ∃ row, row ∈ rows ∧ scan row = Ok k.
Proof.
  revert keys. induction rows as [|row rows IH]; intros keys; simpl.
  - intros [= <-] k. split; [by intros ?%elem_of_nil|by intros (r & ?%elem_of_nil & _)].
  - destruct (scan row) as [item|] eqn:Hs; [|done]. destruct (scan_all _ _) as [items|] eqn:Hr; [|done].
    intros [= <-] k. rewrite elem_of_cons, (IH items) by done. setoid_rewrite elem_of_cons. split.
    + intros [->|(r & Hin & Hk)]; eauto.
    + intros (r & [->|Hin] & Hk); [left; congruence|right; eauto].
Qed.

Section Lifecycle.
Context {R : Type} `{!Reader R} `{!DocumentJSON} `{!TimeColumn} `{!StringsJSON} `{!URLParser} `{!AEAD}.
Implicit Types (w : CWorld R).

Lemma ListActive_elem db scope keys :
  (ListActive db scope).1 = Ok keys →
  ∀ k, k ∈ keys ↔ ∃ row, row ∈ db_keys db ∧ kr_TenantID row = scope ∧ kr_Status row = "active" ∧ scanKeyRow row None = Ok k.
Proof.
  unfold ListActive. case_bool_decide; [done|]. unfold statement. intros Hs k.
  assert (scan_all (λ row, scanKeyRow row None) (filter (λ row, kr_TenantID row = scope ∧ kr_Status row = "active") (db_keys db)) = Ok keys) as Hk.
  { by destruct (db_faults db) as [|[e|] rest]. }
  rewrite (scan_all_elem _ _ _ Hk). setoid_rewrite list_elem_of_filter. naive_solver.
Qed.

Lemma scanKeyRow_fields row k :
  scanKeyRow row None = Ok k → rec_PublicID k = kr_PublicID row ∧ rec_ID k = kr_ID row ∧ rec_TenantID k = kr_TenantID row.
Proof. unfold scanKeyRow. do 2 (case_match; [|done]). by intros [= <-]. Qed.

(** A refresh that reports success ended in a reconciliation of the same rows. *)
Lemma refresh_attempts_ok clock alive budget i last w scope version actor w' :
  refresh_attempts clock alive budget i last w scope version actor = (None, w') → (budget = O → is_Some last) →
  ∃ wk now source, same_rows (cw_db w) (cw_db wk) ∧ tb_versions (cw_tables wk) = tb_versions (cw_tables w) ∧
    ar_global (cw_registry wk) = ar_global (cw_registry w) ∧ Reconcile wk now scope version actor = (Ok source, w').
Proof.
  revert i last w. induction budget as [|budget IH]; intros i last w Hr Hlast; simpl in Hr.
  - injection Hr as -> ->. destruct (Hlast eq_refl) as [? [=]].
  - destruct (negb (i =? 0)%nat && _); [done|].
    pose proof (steady_Reconcile w (clock i) scope version actor) as ((Hk & Hp) & Hv & Hg).
    destruct (Reconcile _ _ _ _ _) as [[source|e] w1] eqn:Hrec; simpl in *.
    + injection Hr as ->. exists w, (clock i), source. by repeat split.
    + destruct (IH _ _ _ Hr) as (wk & now & source & (Hk' & Hp') & Hv' & Hg' & Hrec'); [eauto|].
      exists wk, now, source. unfold same_rows. split_and!; congruence.
Qed.

(** What the refresh leaves in the tenant's slot. *)
Lemma refresh_ok clock alive order w scope actor w' s row document :
  refreshTenantRuntime clock alive order w scope actor = (None, w') →
  TenantByID order (cw_registry w) scope = Some s → sn_Version s ≠ 0 →
  select_version scope (sn_Version s) (cw_tables w) = Some row → unmarshal_document (vr_Compiled row) = Ok document →
  ∃ s' db keys, Tenant (cw_registry w') (tn_PublicRef (doc_Tenant document)) = Some s' ∧
    ar_global (cw_registry w') = ar_global (cw_registry w) ∧ sn_TenantID s' = scope ∧
    sn_Status s' = tn_Status (doc_Tenant document) ∧ sn_apiKeys s' = index_by ak_PublicID (map compile_key keys) ∧
    (ListActive db scope).1 = Ok keys ∧ same_rows (cw_db w) db.
Proof.
  intros Hr Hs Hv Hrow Hdoc. unfold refreshTenantRuntime in Hr. rewrite Hs in Hr.
  destruct (Z.eqb_spec (sn_Version s) 0); [done|].
  apply refresh_attempts_ok in Hr as (wk & now & source & (Hk & Hp) & Htv & Hg & Hrec); [|done].
  apply Reconcile_ok in Hrec as (row' & s' & system & keys & db & Hrow' & Hdec & Hval & Hc & Hkeys & (Hk' & Hp') & Hreg).
  assert (row' = row) as -> by (unfold select_version in *; rewrite Htv in Hrow'; congruence).
  assert (ve_Config source = document) as Hcfg.
  { unfold readVersion, decodeVersion in Hdec. simpl in Hdec. rewrite Hdoc in Hdec. by injection Hdec as <-. }
  apply validated_tenant in Hval. apply compiled_fields in Hc as (Ht & Href & Hst & _ & _ & Hapi). rewrite Hcfg in *.
  exists s', db, keys. rewrite Hreg, Tenant_activate, Href, decide_True by done. unfold same_rows. simpl.
  split_and!; congruence.
Qed.
End Lifecycle.

Section KeyTheorems.
Context {R : Type} `{!Reader R} `{!ReaderLaws R} `{!DocumentJSON} `{!TimeColumn} `{!StringsJSON} `{!StringsJSONLaws} `{!URLParser}.
Context `{!AEAD} `{!AEADLaws}.
Context (Resolve GatewayResolve : Provider) (Hresolve : ∀ ref value, Resolve ref = Ok value → GatewayResolve ref = Ok value).
Implicit Types (w : CWorld R).

(** The version that the refresh recompiles, and its document. *)
Definition running_document w (order : list string) (scope : string) (document : TenantConfig) : Prop :=
  ∃ s row, TenantByID order (cw_registry w) scope = Some s ∧ sn_Version s ≠ 0 ∧
    select_version scope (sn_Version s) (cw_tables w) = Some row ∧ unmarshal_document (vr_Compiled row) = Ok document.

(** A key that was issued works.  When the console's [CreateKey] succeeds for a
    tenant whose running document is active and has the key's reference, and the active
    peppers of the database are those of the global runtime, the gateway lets in the
    token it returned, from then until the key's expiry and from every address of its
    allowlist, as the tenant, the project and the principal it was created for. *)
Theorem created_key_authenticates clock alive order order' w now scope input actor r w' ref document g t q :
  CreateKey Resolve clock alive order order' w now scope input actor = (Ok r, w') →
  key_ref order w scope input = Ok ref → running_document w order' scope document →
  tn_PublicRef (doc_Tenant document) = ref → tn_Status (doc_Tenant document) = "active" →
  ar_global (cw_registry w) = Some g →
  (∀ p, p ∈ db_peppers (cw_db w) → pep_Status p = "active" → PepperRef g (pep_Version p) = Some (pep_Ref p)) →
  Forall utf8 (in_ModelAllowlist input) → Forall utf8 (in_IPAllowlist input) →
  expired (in_ExpiresAt input) t = false → allowedIP (rq_RemoteIP q) (in_IPAllowlist input) = true →
  (rq_TenantID q = "" ∨ rq_TenantID q = scope) → (rq_ProjectID q = "" ∨ rq_ProjectID q = in_ProjectID input) →
  ∃ a, Authenticate (cw_registry w') GatewayResolve t (cr_Key r) q = Ok a ∧
    at_Key a = compile_key (cr_Record r) ∧ pr_TenantID (at_Principal a) = scope ∧
    pr_ProjectID (at_Principal a) = in_ProjectID input ∧ pr_AgentID (at_Principal a) = in_AgentID input ∧
    pr_ApplicationID (at_Principal a) = in_ApplicationID input ∧
    pr_ServiceAccountID (at_Principal a) = in_ServiceAccountID input.
Proof.
  intros Hc Href (s & row & Hs & Hv & Hrow & Hdoc) Hpub Hact Hg Hpep Hm Hip Hx Hallow Hqt Hqp.
  unfold CreateKey in Hc. rewrite Href in Hc.
  destruct (Create _ _ _ _ _) as [[r'|e] k] eqn:Hcr; [|done].
  destruct (refreshTenantRuntime _ _ _ _ _ _) as [[e|] w1] eqn:Hrf; [done|]. injection Hc as -> ->.
  destruct (refresh_ok _ _ _ _ _ _ _ _ _ _ Hrf Hs Hv Hrow Hdoc)
    as (s' & db & keys & Hslot & Hglob & Htid & Hstat & Hapi & Hlist & (Hrows & _)). simpl in Hglob, Hrows.
  apply issue_ok in Hcr as (token & pv & secret & db0 & [Hwf Htr Hkey [Hpin Hpact] Hres Hdig Hpver Hpid
    (Hbt & Hbp & Hba & Hbg & Hbs & Hbx & Hbm & Hbi & Hbst) _ _ _ Htabs Hsto]). simpl in *.
  assert (readable (cr_Record r)) as Hread by (split; congruence).
  destruct (repo_Create_ok _ _ _ _ Hsto) as (_ & _ & _ & Hkeys & Hconf & _).
  pose proof (proj1 (scan_row _ Hread)) as Hscan.
  assert (sn_apiKeys s' !! tk_PublicID token = Some (compile_key (cr_Record r))) as Hlook.
  { rewrite Hapi, <- Hpid. change (rec_PublicID (cr_Record r)) with (ak_PublicID (compile_key (cr_Record r))).
    change (compile_key (cr_Record r)) with (compile_key (without_ciphertext (cr_Record r))).
    apply index_by_unique.
    - apply list_elem_of_fmap. exists (without_ciphertext (cr_Record r)). split; [done|].
      apply (ListActive_elem _ _ _ Hlist). exists (row_of (cr_Record r)).
      rewrite Hrows, Hkeys. split_and!; [apply elem_of_app; right; by apply list_elem_of_singleton|done|done|done].
    - intros y (k' & -> & Hk')%list_elem_of_fmap Hpids. apply (ListActive_elem _ _ _ Hlist) in Hk' as (row' & Hin & Ht' & _ & Hsc).
      rewrite Hrows, Hkeys in Hin. apply elem_of_app in Hin as [Hin|Hin%list_elem_of_singleton]; [|by subst row'; congruence].
      rewrite Forall_forall in Hconf. specialize (Hconf _ Hin). unfold row_conflict in Hconf.
      apply orb_false_elim in Hconf as [_ Hconf]. rewrite bool_decide_eq_false in Hconf. exfalso. apply Hconf. simpl.
      apply scanKeyRow_fields in Hsc as (Hp' & _). simpl in Hpids. split; congruence. }
  eexists. split.
  - apply Authenticate_iff. exists s', (compile_key (cr_Record r)), token, g, (pep_Ref pv), secret. split; [|reflexivity].
    split; simpl; rewrite ?Hbx, ?Hbp, ?Htid, ?Hbi; try done.
    + by rewrite Htr, <- Hpub, Hslot, Hstat.
    + split_and!; [congruence| |auto]. rewrite Hpver. by apply Hpep.
    + by apply expired_spec.
  - simpl. by split_and!.
Qed.

(** One row per key of a tenant, as the table's constraint has it. *)
Definition unique_keys (rows : list KeyRow) : Prop := NoDup ((λ row, (kr_TenantID row, kr_PublicID row)) <$> rows).

Lemma set_revoked_public rows scope id :
  (λ row, (kr_TenantID row, kr_PublicID row)) <$> map (λ row, if revocable scope id row then set_revoked row else row) rows =
  (λ row, (kr_TenantID row, kr_PublicID row)) <$> rows.
Proof. rewrite <- list_fmap_compose. apply list_fmap_ext. intros i x _. simpl. by destruct (revocable scope id x). Qed.

(** The service keeps the constraint. *)
Lemma unique_created w now scope input r k :
  Create Resolve (key_world w) now scope input = (Ok r, k) → unique_keys (db_keys (cw_db w)) → unique_keys (db_keys (w_db k)).
Proof.
  intros (token & pv & secret & db0 & [_ _ _ _ _ _ _ _ _ _ _ _ (Hk0 & _) Hsto])%issue_ok Hu. simpl in Hk0.
  apply repo_Create_ok in Hsto as (_ & _ & _ & -> & Hconf & _). rewrite Hk0 in *.
  unfold unique_keys. rewrite fmap_app. apply NoDup_app. split_and!; [done| |apply NoDup_singleton].
  intros p (row & -> & Hrow)%list_elem_of_fmap Hp%list_elem_of_singleton.
  rewrite Forall_forall in Hconf. specialize (Hconf _ Hrow). unfold row_conflict in Hconf.
  apply orb_false_elim in Hconf as [_ Hconf]. rewrite bool_decide_eq_false in Hconf. apply Hconf.
  simpl in *. injection Hp as ? ?. by split.
Qed.

Lemma Revoke_ok (k : World R) scope id k' :
  Revoke k scope id = (Ok tt, k') →
  db_keys (w_db k') = map (λ row, if revocable scope id row then set_revoked row else row) (db_keys (w_db k)).
Proof.
  unfold Revoke, repo_Revoke. case_bool_decide; [done|]. case_bool_decide; [done|]. unfold statement.
  destruct (db_faults (w_db k)) as [|[e|] rest]; simpl; [| done |]; destruct (_ =? 1)%nat; try done; by intros [= <-].
Qed.

(** C33: A key that was revoked is refused.  Let the tenant run a published version of its
    document, and the key table hold no two keys of a tenant with the same public id (as
    the table's constraint has it).  When the console's [RevokeKey] then succeeds, no
    token that names the revoked key under the reference that this running document
    gives its tenant is let in any more, whatever its secret, its time and its address.
    (Under an earlier reference of the tenant a key may survive:
    [revoked_key_survives_a_rename].) *)
Theorem revoked_key_refused clock alive order w scope id actor w' document row raw token t q :
  RevokeKey clock alive order w scope id actor = (None, w') →
  running_document w order scope document → unique_keys (db_keys (cw_db w)) →
  row ∈ db_keys (cw_db w) → kr_TenantID row = scope → kr_ID row = id →
  Parse raw = Ok token → tk_TenantRef token = tn_PublicRef (doc_Tenant document) → tk_PublicID token = kr_PublicID row →
  Authenticate (cw_registry w') GatewayResolve t raw q = Err ErrUnauthorized.
Proof.
  intros Hr (s & vrow & Hs & Hv & Hvrow & Hdoc) Hu Hrow Hscope Hid Hp Href Hpid.
  unfold RevokeKey in Hr. destruct (Revoke _ _ _) as [[ [] |e] k] eqn:Hrev; [|done].
  destruct (refreshTenantRuntime _ _ _ _ _ _) as [[e|] w1] eqn:Hrf; [done|]. injection Hr as ->.
  destruct (refresh_ok _ _ _ _ _ _ _ _ _ _ Hrf Hs Hv Hvrow Hdoc)
    as (s' & db & keys & Hslot & _ & _ & _ & Hapi & Hlist & (Hrows & _)). simpl in Hrows.
  apply Revoke_ok in Hrev. simpl in Hrev. unfold Authenticate. rewrite Hp, Href, Hslot, Hpid.
  destruct (negb _); [done|]. unfold snapshot_apiKey.
  destruct (sn_apiKeys s' !! kr_PublicID row) as [key|] eqn:Hk; [exfalso|done].
  rewrite Hapi in Hk. apply index_by_lookup in Hk as [(k0 & -> & Hk0)%list_elem_of_fmap Hpk].
  apply (ListActive_elem _ _ _ Hlist) in Hk0 as (row' & Hin & Ht' & Hact & Hsc).
  apply scanKeyRow_fields in Hsc as (Hp0 & _). simpl in Hpk. rewrite Hrows, Hrev in Hin.
  apply list_elem_of_fmap in Hin as (row0 & -> & Hin). 
  assert (kr_TenantID row0 = scope ∧ kr_PublicID row0 = kr_PublicID row) as [Ht0 Hp1].
  { destruct (revocable scope id row0); simpl in *; split; congruence. }
  assert (row0 = row) as ->.
  { apply list_elem_of_lookup in Hin as [i Hi], Hrow as [j Hj]. unfold unique_keys in Hu. rewrite NoDup_alt in Hu.
    assert (i = j) as ->; [|congruence].
    apply (Hu i j (scope, kr_PublicID row)); rewrite list_lookup_fmap; [rewrite Hi|rewrite Hj]; simpl; congruence. }
  destruct (revocable scope id row) eqn:Hrv; [done|]. unfold revocable in Hrv. rewrite bool_decide_eq_false in Hrv. by apply Hrv.
Qed.
End KeyTheorems.

(** ** A tenant, a key and its requests *)

#[local] Existing Instances counting_reader counting_reader_laws clear_aead clear_aead_laws bits_json bits_json_laws plain_urls
  named_documents postgres_time.

Definition local_global : GlobalRuntime :=
  CompileGlobalWithPeppers 1 0 [{| pep_Version := 1; pep_Ref := "local"; pep_Status := "active" |}].

Definition console : CWorld Z :=
  {| cw_db := w_db booted; cw_tables := cw_tables (example_world [example_draft "d1" "t" example_ref]);
     cw_registry := {| ar_global := Some local_global; ar_tenants := ∅ |}; cw_rng := 1; cw_delivered := [] |}.

(** The tenant is published, and a key is created for it at 1000 that expires at 2000. *)
Definition serving : CWorld Z := (Publish console 5 "t" "d1" 1 "ops").2.
Definition steady_clock (attempt : nat) : Z := 1000.
Definition always (attempt : nat) : bool := true.
Definition console_input : CreateInput := with_ref example_input "".
Definition issued : result CreateResult * CWorld Z :=
  CreateKey local_secret steady_clock always [example_ref] [example_ref] serving 1000 "t" console_input "ops".

Definition from (ip : string) : RequestScope := {| rq_TenantID := ""; rq_ProjectID := ""; rq_RemoteIP := ip |}.

Lemma serving_document : running_document serving [example_ref] "t" (example_document example_ref "eu").
Proof. eexists _, _. split; [vm_compute; reflexivity|]. split; [vm_compute; discriminate|]. split; vm_compute; reflexivity. Qed.

Lemma created_key_authenticates_witness :
  match issued with
  | (Ok r, w) => ∃ a, Authenticate (cw_registry w) (composite_Resolve [local_secret]) 1999 (cr_Key r) (from "10.9.8.7") = Ok a ∧
                   pr_AgentID (at_Principal a) = "bot"
  | (Err _, _) => False
  end.
Proof.
  destruct issued as [[r|e] w] eqn:Hi; [|vm_compute in Hi; discriminate].
  destruct (created_key_authenticates local_secret (composite_Resolve [local_secret])
    (λ ref value H, composite_first local_secret [] ref value H)
    steady_clock always [example_ref] [example_ref] serving 1000 "t" console_input "ops" r w example_ref
    (example_document example_ref "eu") local_global 1999 (from "10.9.8.7")) as (a & Ha & _ & _ & _ & Hb & _);
    [exact Hi|vm_compute; reflexivity|exact serving_document|reflexivity|reflexivity|vm_compute; reflexivity| | | |
     reflexivity|vm_compute; reflexivity|by left|by left|].
  - vm_compute. intros p Hp _. apply list_elem_of_singleton in Hp as ->. reflexivity.
  - repeat constructor.
  - repeat constructor.
  - exists a. by split.
Defined.

Definition key_id (r : result CreateResult) : string := match r with Ok created => rec_ID (cr_Record created) | Err _ => "" end.
Definition key_text (r : result CreateResult) : string := match r with Ok created => cr_Key created | Err _ => "" end.
Definition revoked : option error * CWorld Z := RevokeKey steady_clock always [example_ref] issued.2 "t" (key_id issued.1) "ops".

Definition issued_token : Token :=
  {| tk_TenantRef := example_ref; tk_PublicID := "0303030303030303"; tk_Secret := "040404040404040404040404040404040404040404040404" |}.

Lemma issued_document : running_document issued.2 [example_ref] "t" (example_document example_ref "eu").
Proof. eexists _, _. split; [vm_compute; reflexivity|]. split; [vm_compute; discriminate|]. split; vm_compute; reflexivity. Qed.

Lemma issued_row :
  ∃ row, db_keys (cw_db issued.2) = [row] ∧ kr_TenantID row = "t" ∧ kr_ID row = key_id issued.1 ∧
    tk_PublicID issued_token = kr_PublicID row.
Proof. eexists. split; [vm_compute; reflexivity|]. split; [reflexivity|]. split; [vm_compute; reflexivity|reflexivity]. Qed.

Lemma revoked_key_refused_witness :
  is_ok (Authenticate (cw_registry issued.2) local_secret 1500 (key_text issued.1) (from "::1")) = true ∧
  Authenticate (cw_registry revoked.2) local_secret 1500 (key_text issued.1) (from "::1") = Err ErrUnauthorized.
Proof.
  split; [vm_compute; reflexivity|]. destruct issued_row as (row & Hrows & Ht & Hi & Hq).
  apply (revoked_key_refused local_secret steady_clock always [example_ref] issued.2 "t" (key_id issued.1) "ops" revoked.2
    (example_document example_ref "eu") row (key_text issued.1) issued_token 1500 (from "::1")).
  - vm_compute. reflexivity.
  - exact issued_document.
  - rewrite Hrows. unfold unique_keys. apply NoDup_singleton.
  - rewrite Hrows. by left.
  - exact Ht.
  - exact Hi.
  - vm_compute. reflexivity.
  - vm_compute. reflexivity.
  - exact Hq.
Defined.

Definition example_request (model : string) : UnifiedRequest :=
  {| ur_Kind := "chat"; ur_Model := model; ur_Stream := false; ur_Metadata := ∅; ur_SessionID := "s"; ur_TaskID := "";
     ur_RootTaskID := ""; ur_ParentTaskID := ""; ur_Chat := None; ur_Responses := None; ur_Embedding := None;
     ur_Rerank := None; ur_Audio := None; ur_Batch := None; ur_File := None; ur_Tool := None; ur_Parameters := ∅ |}.

Definition example_call (model tenant : string) : Input :=
  {| in_Token := key_text issued.1; in_RemoteIP := "10.0.0.1"; in_RequestedTenantID := tenant; in_RequestedProjectID := "";
     in_Protocol := "openai"; in_BodyBytes := 100; in_Request := Some (example_request model) |}.

Definition admit_call (input : Input) : result RequestContext :=
  (Admit 1024 (Authenticate (cw_registry issued.2) local_secret 1500) 1500 5 input).1.

Lemma admitted_request_is_key_bound_witness :
  match Admit 1024 (Authenticate (cw_registry issued.2) local_secret 1500) 1500 5 (example_call "gpt" "t") with
  | (Ok c, _) => ∃ s key, rc_Snapshot c = Some s ∧ rc_Key c = key ∧ TenantID c = sn_TenantID s ∧ ProjectID c = ak_ProjectID key
  | (Err _, _) => False
  end.
Proof.
  destruct (Admit 1024 _ 1500 5 _) as [[c|e] g'] eqn:Hc; [|vm_compute in Hc; discriminate].
  destruct (admitted_request_is_key_bound 1024 (cw_registry issued.2) local_secret 1500 1500 5 g' (example_call "gpt" "t") c Hc)
    as (s & key & token & gl & ref & pepper & request & _ & _ & _ & _ & _ & Hs & Hk & Ht & Hp & _).
  exists s, key. exact (conj Hs (conj Hk (conj Ht Hp))).
Defined.

(** Refusals in the order of the checks. *)
Example refusals :
  admit_call (example_call "claude" "t") = Err (ErrKernel "MODEL_FORBIDDEN" "model is not allowed" false) ∧
  admit_call (example_call "gpt" "u") = Err (ErrKernel "UNAUTHORIZED" "invalid credentials" false) ∧
  admit_call (example_call "" "t") = Err (ErrKernel "INVALID_REQUEST" "model request is required" false).
Proof. vm_compute. done. Qed.

(** The refresh after a key operation compiles the stored document without the
    fast-published guardrail policy: creating a key puts the old policy back. *)
Example creating_a_key_drops_the_overlay :
  let w := (OverlayGuardrail serving "t" observe_policy).2 in
  let w' := (CreateKey local_secret steady_clock always [example_ref] [example_ref] w 1000 "t" console_input "ops").2 in
  running_mode w example_ref = Some ("observe", false) ∧ running_mode w' example_ref = Some ("enforce", true).
Proof. vm_compute. done. Qed.

(** A tenant that changed its reference runs in two slots.  A revocation refreshes the
    one that the range over the slots visits first; in the other the key stays. *)
Example revoked_key_survives_a_rename :
  let ref' := "ff0102030405060708090a0b0c0d0e0f" in
  let w := {| cw_db := w_db booted;
              cw_tables := cw_tables (example_world [example_draft "d1" "t" example_ref; example_draft "d2" "t" ref']);
              cw_registry := cw_registry console; cw_rng := 1; cw_delivered := [] |} in
  let w := (Publish (Publish w 5 "t" "d1" 1 "ops").2 6 "t" "d2" 1 "ops").2 in
  let '(r, w) := CreateKey local_secret steady_clock always [ref'; example_ref] [ref'; example_ref] w 1000 "t" console_input "ops" in
  let '(e, w) := RevokeKey steady_clock always [example_ref; ref'] w "t" (key_id r) "ops" in
  e = None ∧ is_ok (Authenticate (cw_registry w) local_secret 1500 (key_text r) (from "::1")) = true.
Proof. vm_compute. done. Qed.

(** ** identity/delegation.go *)

Definition EvaluateDelegation (delegatorPermissions grantPermissions delegateePolicy : list string) : result (list string) :=
  let result := filter (λ p, p ∈ (list_to_set grantPermissions : gset string) ∧ p ∈ (list_to_set delegateePolicy : gset string))
                  delegatorPermissions in
  if (length delegatorPermissions <? length result)%nat then Err (ErrNew "delegation widened privilege") else Ok result.

Definition Allows (allowed : gmap string bool) (delegateeID : string) : bool := default false (allowed !! delegateeID).

(** Delegation never widens.  The delegated permissions are those that the
    delegator has, the grant names and the delegatee's policy allows, in the order of
    the delegator's; the check for a widened set never fails. *)
Theorem delegation_never_widens delegator grant policy :
  ∃ permissions, EvaluateDelegation delegator grant policy = Ok permissions ∧ permissions `sublist_of` delegator ∧
    ∀ p, p ∈ permissions ↔ p ∈ delegator ∧ p ∈ grant ∧ p ∈ policy.
Proof.
  unfold EvaluateDelegation. set (permissions := filter _ _).
  assert (permissions `sublist_of` delegator) as Hs by apply sublist_filter.
  exists permissions. pose proof (sublist_length _ _ Hs) as Hl. rewrite (proj2 (Nat.ltb_ge _ _)) by lia.
  split_and!; [done|done|]. intros p. subst permissions. rewrite list_elem_of_filter, !elem_of_list_to_set. naive_solver.
Qed.
