(* ===== verification/Limits.v ===== *)
(** * Limits of the console

    controlplane/adminapi/loginlimit.go, resetratelimit.go and adminlimit.go: sliding
    windows over the times of earlier hits.  Each operation runs under the limiter's
    mutex; its time is an argument.

    The limiters filter a slice in place: [recent := hits[:0]] shares the array of the
    stored slice, so a path that does not store [recent] back leaves the stored slice
    with its old length and the kept hits moved to its front ([compacted]). *)

From S2P Require Import Prelude.

Open Scope string_scope.
Open Scope Z_scope.

(** ** Windows *)

(** [hit.After(t.Add(-window))]. *)
Definition recent (window t : Z) (hits : list Z) : list Z := filter (λ hit, t - window < hit) hits.

(** The stored slice after the filter, when the result is not stored. *)
Definition compacted (window t : Z) (hits : list Z) : list Z :=
  (recent window t hits ++ drop (length (recent window t hits)) hits)%list.

Definition hits_of (store : gmap string (list Z)) (key : string) : list Z := default [] (store !! key).

(** ** The login limiter *)

Record LoginLimiter := {
  ll_window : Z; ll_maxFailures : Z; ll_maxPerIP : Z; ll_hits : gmap string (list Z); ll_reported : gmap string Z }.

Definition NewLoginLimiter (window maxFailures maxPerIP : Z) : LoginLimiter :=
  {| ll_window := if window <=? 0 then 15 * 60 * second else window;
     ll_maxFailures := if maxFailures <=? 0 then 5 else maxFailures;
     ll_maxPerIP := if maxPerIP <=? 0 then 20 else maxPerIP; ll_hits := ∅; ll_reported := ∅ |}.

Definition with_hits (l : LoginLimiter) (key : string) (hits : list Z) : LoginLimiter :=
  {| ll_window := ll_window l; ll_maxFailures := ll_maxFailures l; ll_maxPerIP := ll_maxPerIP l;
     ll_hits := <[key := hits]> (ll_hits l); ll_reported := ll_reported l |}.

Definition allow (l : LoginLimiter) (key : string) (t limit : Z) (record : bool) : bool * LoginLimiter :=
  let hits := hits_of (ll_hits l) key in
  let kept := recent (ll_window l) t hits in
  let unrecorded := if bool_decide (key ∈ dom (ll_hits l)) then with_hits l key (compacted (ll_window l) t hits) else l in
  if limit <=? Z.of_nat (length kept) then (false, if record then with_hits l key kept else unrecorded)
  else (true, if record then with_hits l key (kept ++ [t])%list else unrecorded).

Definition IPAllowed (l : LoginLimiter) (ip : string) (t : Z) : bool * LoginLimiter := allow l ip t (ll_maxPerIP l) true.

Definition account_key (ip username : string) : string := ip +:+ "|" +:+ username.

Definition AccountBlocked (l : LoginLimiter) (ip username : string) (t : Z) : bool * LoginLimiter :=
  let '(ok, l) := allow l (account_key ip username) t (ll_maxFailures l) true in (negb ok, l).

Definition with_reported (l : LoginLimiter) (reported : gmap string Z) : LoginLimiter :=
  {| ll_window := ll_window l; ll_maxFailures := ll_maxFailures l; ll_maxPerIP := ll_maxPerIP l; ll_hits := ll_hits l;
     ll_reported := reported |}.

Definition ReportBlock (l : LoginLimiter) (key : string) (t : Z) : bool * LoginLimiter :=
  let live := filter (λ p : string * Z, t - ll_window l < p.2) (ll_reported l) in
  match live !! key with
  | Some _ => (false, with_reported l live)
  | None => (true, with_reported l (<[key := t]> live))
  end.

(** ** The reset limiter *)

Record ResetRateLimiter := {
  rl_window : Z; rl_maxPerIP : Z; rl_maxPerAccount : Z; rl_minInterval : Z; rl_ipHits : gmap string (list Z);
  rl_acctHits : gmap string (list Z); rl_lastSent : gmap string Z }.

Definition NewResetRateLimiter (window maxPerIP maxPerAccount minInterval : Z) : ResetRateLimiter :=
  {| rl_window := if window <=? 0 then 15 * 60 * second else window;
     rl_maxPerIP := if maxPerIP <=? 0 then 10 else maxPerIP;
     rl_maxPerAccount := if maxPerAccount <=? 0 then 5 else maxPerAccount;
     rl_minInterval := if minInterval <=? 0 then 60 * second else minInterval;
     rl_ipHits := ∅; rl_acctHits := ∅; rl_lastSent := ∅ |}.

Definition with_send (l : ResetRateLimiter) (ipHits acctHits : gmap string (list Z)) (lastSent : gmap string Z) :
    ResetRateLimiter :=
  {| rl_window := rl_window l; rl_maxPerIP := rl_maxPerIP l; rl_maxPerAccount := rl_maxPerAccount l;
     rl_minInterval := rl_minInterval l; rl_ipHits := ipHits; rl_acctHits := acctHits; rl_lastSent := lastSent |}.

(** A refusal for the account stores the account's hits and leaves the address's hits
    compacted in place. *)
Definition AllowSend (l : ResetRateLimiter) (ip username : string) (t : Z) : bool * ResetRateLimiter :=
  if match rl_lastSent l !! username with Some last => time_sub t last <? rl_minInterval l | None => false end then (false, l)
  else
    let acctKey := account_key ip username in
    let ipHits := hits_of (rl_ipHits l) ip in
    let ipRecent := recent (rl_window l) t ipHits in
    if rl_maxPerIP l <=? Z.of_nat (length ipRecent)
    then (false, with_send l (<[ip := ipRecent]> (rl_ipHits l)) (rl_acctHits l) (rl_lastSent l))
    else
      let acctRecent := recent (rl_window l) t (hits_of (rl_acctHits l) acctKey) in
      if rl_maxPerAccount l <=? Z.of_nat (length acctRecent)
      then (false, with_send l (<[ip := compacted (rl_window l) t ipHits]> (rl_ipHits l))
                     (<[acctKey := acctRecent]> (rl_acctHits l)) (rl_lastSent l))
      else (true, with_send l (<[ip := (ipRecent ++ [t])%list]> (rl_ipHits l))
                    (<[acctKey := (acctRecent ++ [t])%list]> (rl_acctHits l)) (<[username := t]> (rl_lastSent l))).

(** ** The limiter of authenticated requests *)

Record AdminRateLimiter := { al_window : Z; al_maxPerIP : Z; al_maxPerAdmin : Z; al_hits : gmap string (list Z) }.

Definition NewAdminRateLimiter (window maxPerIP maxPerAdmin : Z) : AdminRateLimiter :=
  {| al_window := if window <=? 0 then 60 * second else window;
     al_maxPerIP := if maxPerIP <=? 0 then 600 else maxPerIP;
     al_maxPerAdmin := if maxPerAdmin <=? 0 then 120 else maxPerAdmin; al_hits := ∅ |}.

Definition Allow (l : AdminRateLimiter) (ip adminID : string) (t : Z) : bool * AdminRateLimiter :=
  let ipKey := "ip:" +:+ ip in
  let adminKey := "admin:" +:+ adminID in
  let ipHits := recent (al_window l) t (hits_of (al_hits l) ipKey) in
  let adminHits := recent (al_window l) t (hits_of (al_hits l) adminKey) in
  let store ipHits adminHits :=
    {| al_window := al_window l; al_maxPerIP := al_maxPerIP l; al_maxPerAdmin := al_maxPerAdmin l;
       al_hits := <[adminKey := adminHits]> (<[ipKey := ipHits]> (al_hits l)) |} in
  if (al_maxPerIP l <=? Z.of_nat (length ipHits)) || (al_maxPerAdmin l <=? Z.of_nat (length adminHits))
  then (false, store ipHits adminHits)
  else (true, store (ipHits ++ [t])%list (adminHits ++ [t])%list).

(** ** Counting *)

Definition count_after (c : Z) (l : list Z) : nat := length (filter (λ x, c < x) l).

Lemma count_app c l l' : count_after c (l ++ l') = (count_after c l + count_after c l')%nat.
Proof. unfold count_after. by rewrite filter_app, length_app. Qed.

Lemma count_one c x : count_after c [x] = if decide (c < x) then 1%nat else 0%nat.
Proof. unfold count_after. rewrite filter_cons, filter_nil. by case_decide. Qed.

Lemma count_recent window t l c : t - window <= c → count_after c (recent window t l) = count_after c l.
Proof.
  intros Hc. unfold count_after, recent. induction l as [|x l IH]; [done|].
  rewrite !filter_cons. repeat (case_decide; rewrite ?filter_cons); simpl; lia.
Qed.

Lemma recent_count window t l : length (recent window t l) = count_after (t - window) l.
Proof. done. Qed.

(** The hits account for every grant of the last window. *)
Definition covered (window t : Z) (grants hits : list Z) : Prop :=
  ∀ c, t - window <= c → (count_after c grants <= count_after c hits)%nat.

(** No window holds more than [limit] grants. *)
Definition bounded (window limit : Z) (grants : list Z) : Prop :=
  ∀ t, Z.of_nat (length (filter (λ x, t - window < x <= t) grants)) <= limit.

Lemma covered_later window t t' grants hits : t <= t' → covered window t grants hits → covered window t' grants hits.
Proof. intros Ht Hc c Hle. apply Hc. lia. Qed.

Lemma covered_recent window t grants hits : covered window t grants hits → covered window t grants (recent window t hits).
Proof. intros Hc c Hle. rewrite count_recent by done. by apply Hc. Qed.

Lemma covered_compacted window t grants hits : covered window t grants hits → covered window t grants (compacted window t hits).
Proof.
  intros Hc c Hle. unfold compacted. rewrite count_app, count_recent by done. specialize (Hc c Hle). lia.
Qed.

Lemma covered_push window t grants hits x : covered window t grants hits → covered window t (grants ++ [x]) (hits ++ [x]).
Proof. intros Hc c Hle. rewrite !count_app. specialize (Hc c Hle). lia. Qed.

Lemma covered_more window t grants hits x : covered window t grants hits → covered window t grants (hits ++ [x]).
Proof. intros Hc c Hle. rewrite count_app. specialize (Hc c Hle). lia. Qed.

Lemma bounded_push window limit grants t :
  bounded window limit grants → Forall (λ x, x <= t) grants → Z.of_nat (count_after (t - window) grants) < limit →
  bounded window limit (grants ++ [t]).
Proof.
  intros Hb Hall Hc t0. rewrite filter_app, length_app, filter_cons, filter_nil. specialize (Hb t0).
  case_decide as Hd; simpl; [|lia].
  assert (Z.of_nat (length (filter (λ x, t0 - window < x <= t0) grants)) <= Z.of_nat (count_after (t - window) grants)); [|lia].
  unfold count_after. clear -Hall Hd. induction grants as [|x l IH]; [done|]. apply Forall_cons in Hall as [Hx Hall].
  specialize (IH Hall). rewrite !filter_cons. repeat case_decide; simpl; lia.
Qed.

Lemma bounded_nil window limit : 0 <= limit → bounded window limit [].
Proof. intros Hl t. done. Qed.

(** ** Histories *)

Inductive login_op :=
| Attempt (ip : string) (t : Z)
| Failure (ip username : string) (t : Z).

Definition op_key (op : login_op) : string :=
  match op with Attempt ip _ => ip | Failure ip username _ => account_key ip username end.
Definition op_account (op : login_op) : bool := match op with Attempt _ _ => false | Failure _ _ _ => true end.
Definition op_time (op : login_op) : Z := match op with Attempt _ t => t | Failure _ _ t => t end.

(** The answer: the attempt may go on, the failure is still within the budget. *)
Definition login_step (l : LoginLimiter) (op : login_op) : bool * LoginLimiter :=
  match op with
  | Attempt ip t => IPAllowed l ip t
  | Failure ip username t => let '(blocked, l) := AccountBlocked l ip username t in (negb blocked, l)
  end.

Definition login_run (l : LoginLimiter) (ops : list login_op) : list (login_op * bool) * LoginLimiter :=
  foldl (λ s op, let '(ok, l) := login_step s.2 op in (s.1 ++ [(op, ok)], l)%list) ([], l) ops.

(** The times of the positive answers for a key. *)
Definition grants (account : bool) (key : string) (log : list (login_op * bool)) : list Z :=
  op_time <$> (filter (λ p : login_op * bool, op_account p.1 = account ∧ op_key p.1 = key ∧ p.2 = true) log).*1.

Definition limit_of (l : LoginLimiter) (account : bool) : Z := if account then ll_maxFailures l else ll_maxPerIP l.

Lemma login_step_allow l op : login_step l op = allow l (op_key op) (op_time op) (limit_of l (op_account op)) true.
Proof.
  destruct op as [ip t|ip username t]; [done|]. simpl. unfold AccountBlocked. destruct (allow _ _ _ _ _) as [[] l']; done.
Qed.

Lemma grants_snoc account key log op ok :
  grants account key (log ++ [(op, ok)]) =
  (grants account key log ++ (if decide (op_account op = account ∧ op_key op = key ∧ ok = true) then [op_time op] else []))%list.
Proof. unfold grants. rewrite filter_app, filter_cons, filter_nil, !fmap_app. simpl. repeat case_decide; naive_solver. Qed.

(** What holds of the limiter after a history that ended at [t]. *)
Record login_inv (l0 l : LoginLimiter) (log : list (login_op * bool)) (t : Z) : Prop := {
  li_config : ll_window l = ll_window l0 ∧ ll_maxFailures l = ll_maxFailures l0 ∧ ll_maxPerIP l = ll_maxPerIP l0;
  li_past : Forall (λ p : login_op * bool, op_time p.1 <= t) log;
  li_covered : ∀ account key, covered (ll_window l0) t (grants account key log) (hits_of (ll_hits l) key);
  li_bounded : ∀ account key, bounded (ll_window l0) (limit_of l0 account) (grants account key log) }.

Lemma hits_insert store key hits key' :
  hits_of (<[key := hits]> store) key' = if decide (key = key') then hits else hits_of store key'.
Proof. unfold hits_of. rewrite lookup_insert. by case_decide. Qed.

Lemma grants_past account key log t :
  Forall (λ p : login_op * bool, op_time p.1 <= t) log → Forall (λ x, x <= t) (grants account key log).
Proof.
  intros Hl. apply Forall_forall. intros x (op & -> & Hop)%list_elem_of_fmap.
  apply list_elem_of_fmap in Hop as ((op' & ok) & -> & [_ Hin]%list_elem_of_filter). simpl.
  rewrite Forall_forall in Hl. by apply (Hl _ Hin).
Qed.

Lemma login_step_inv l0 l log t op ok l' :
  login_inv l0 l log t → t <= op_time op → login_step l op = (ok, l') → login_inv l0 l' (log ++ [(op, ok)]) (op_time op).
Proof.
  intros [(Hw & Hf & Hi) Hp Hc Hb] Ht. rewrite login_step_allow. unfold allow. rewrite Hw.
  assert (limit_of l (op_account op) = limit_of l0 (op_account op)) as -> by (unfold limit_of; by rewrite Hf, Hi).
  assert (Forall (λ p : login_op * bool, op_time p.1 <= op_time op) log) as Hp'.
  { eapply Forall_impl; [exact Hp|]. simpl. lia. }
  assert (∀ account key, covered (ll_window l0) (op_time op) (grants account key log) (hits_of (ll_hits l) key)) as Hc'.
  { intros account key. eapply covered_later; [exact Ht|apply Hc]. }
  destruct (Z.leb_spec (limit_of l0 (op_account op)) (Z.of_nat (length (recent (ll_window l0) (op_time op) (hits_of (ll_hits l) (op_key op))))))
    as [Hfull|Hroom]; intros [= <- <-]; (split; simpl; [done| | |]).
  - apply Forall_app. split; [done|]. by apply Forall_singleton.
  - intros account key. rewrite grants_snoc, decide_False, app_nil_r, hits_insert by naive_solver.
    case_decide as Hk; [|done]. subst key. by apply covered_recent.
  - intros account key. rewrite grants_snoc, decide_False, app_nil_r by naive_solver. done.
  - apply Forall_app. split; [done|]. by apply Forall_singleton.
  - intros account key. rewrite grants_snoc, hits_insert. specialize (Hc' account key).
    destruct (decide (op_key op = key)) as [<-|Hk].
    + case_decide; [by apply covered_push, covered_recent|]. rewrite app_nil_r. by apply covered_more, covered_recent.
    + rewrite decide_False, app_nil_r by naive_solver. done.
  - intros account key. rewrite grants_snoc. case_decide as Hd; [|rewrite app_nil_r; apply Hb]. destruct Hd as (<- & <- & _).
    apply bounded_push; [apply Hb|by apply grants_past|].
    specialize (Hc' (op_account op) (op_key op) (op_time op - ll_window l0)). rewrite recent_count in Hroom. lia.
Qed.

Lemma login_run_inv l ops t :
  0 <= ll_maxFailures l → 0 <= ll_maxPerIP l → ll_hits l = ∅ → StronglySorted Z.le (t :: map op_time ops) →
  ∃ t', login_inv l (login_run l ops).2 (login_run l ops).1 t' ∧ Forall (λ op, op_time op <= t') ops ∧ t <= t' ∧
    (t' = t ∨ ∃ op, op ∈ ops ∧ op_time op = t').
Proof.
  intros Hf Hi Hempty. induction ops as [|op ops IH] using rev_ind; intros Hs.
  - exists t. split_and!; [|done|lia|by left]. split; [done|done| |].
    + intros account key c Hc. unfold count_after. simpl. lia.
    + intros [] key; by apply bounded_nil.
  - rewrite map_app in Hs. simpl in Hs. change (t :: map op_time ops ++ [op_time op])%list with ((t :: map op_time ops) ++ [op_time op])%list in Hs.
    apply StronglySorted_app in Hs as (Hx & Hs & _).
    destruct (IH Hs) as (t' & Hinv & Hall & Htt & Hin). unfold login_run. rewrite foldl_app. simpl. fold (login_run l ops).
    destruct (login_step _ op) as [ok l'] eqn:Hstep. simpl.
    assert (t' <= op_time op) as Hle.
    { destruct Hin as [->|(op' & Hop & <-)]; apply Hx; set_solver. }
    exists (op_time op). split_and!; [by eapply login_step_inv| |lia|right; set_solver].
    apply Forall_app. split; [|by apply Forall_singleton]. eapply Forall_impl; [exact Hall|]. simpl. lia.
Qed.

(** Credential attempts are bounded.  In any history whose times do not go back, and
    for any window, at most [maxPerIP] attempts of one address are let through to the
    verification, and at most [maxFailures] failures of one account from one address
    are answered as ordinary failures. *)
Theorem login_attempts_bounded window maxFailures maxPerIP ops t :
  StronglySorted Z.le (map op_time ops) →
  let l := NewLoginLimiter window maxFailures maxPerIP in
  let log := (login_run l ops).1 in
  (∀ ip, Z.of_nat (length (filter (λ x, t - ll_window l < x <= t) (grants false ip log))) <= ll_maxPerIP l) ∧
  (∀ ip username, Z.of_nat (length (filter (λ x, t - ll_window l < x <= t) (grants true (account_key ip username) log)))
                  <= ll_maxFailures l).
Proof.
  intros Hs l log. destruct ops as [|op ops].
  { split; intros; simpl; subst l; simpl; case_match; lia. }
  assert (StronglySorted Z.le (op_time op :: map op_time (op :: ops))) as Hs'.
  { constructor; [done|]. simpl in *. inversion Hs; subst. constructor; [lia|done]. }
  destruct (login_run_inv l (op :: ops) (op_time op)) as (t' & [_ _ _ Hb] & _); [| | |exact Hs'|].
  - subst l. simpl. case_match; lia.
  - subst l. simpl. case_match; lia.
  - done.
  - split; intros; [apply (Hb false)|apply (Hb true)].
Qed.

Definition example_attempts : list login_op :=
  [Attempt "a" 0; Failure "a" "bob" 1; Attempt "a" 2; Failure "a" "bob" 3; Attempt "a" 4; Failure "a" "bob" 5; Attempt "a" 6;
   Attempt "a" 101].

Lemma login_attempts_bounded_witness :
  map snd (login_run (NewLoginLimiter 100 2 3) example_attempts).1 = [true; true; true; true; true; false; false; true] ∧
  Z.of_nat (length (filter (λ x, 6 - 100 < x <= 6) (grants false "a" (login_run (NewLoginLimiter 100 2 3) example_attempts).1))) <= 3.
Proof.
  split; [vm_compute; reflexivity|].
  destruct (login_attempts_bounded 100 2 3 example_attempts 6) as [Hip _]; [|exact (Hip "a")].
  unfold example_attempts. simpl. repeat constructor; lia.
Defined.

(** ** Reset codes *)

Record send := { sd_ip : string; sd_user : string; sd_time : Z }.

Definition reset_run (l : ResetRateLimiter) (ops : list send) : list send * ResetRateLimiter :=
  foldl (λ s op, let '(ok, l) := AllowSend s.2 (sd_ip op) (sd_user op) (sd_time op) in
                 ((if ok then s.1 ++ [op] else s.1)%list, l)) ([], l) ops.

(** The sends that were allowed for an address, an account from an address, an account. *)
Definition of_ip (ip : string) (sent : list send) : list Z := sd_time <$> filter (λ x, sd_ip x = ip) sent.
Definition of_pair (key : string) (sent : list send) : list Z := sd_time <$> filter (λ x, account_key (sd_ip x) (sd_user x) = key) sent.
Definition of_user (user : string) (sent : list send) : list Z := sd_time <$> filter (λ x, sd_user x = user) sent.

(** Times at least [gap] apart. *)
Definition spaced (gap : Z) (times : list Z) : Prop := StronglySorted (λ x y, x + gap <= y) times.

Record reset_inv (l0 l : ResetRateLimiter) (sent : list send) (t : Z) : Prop := {
  ri_config : rl_window l = rl_window l0 ∧ rl_maxPerIP l = rl_maxPerIP l0 ∧ rl_maxPerAccount l = rl_maxPerAccount l0 ∧
    rl_minInterval l = rl_minInterval l0;
  ri_past : Forall (λ x, sd_time x <= t) sent;
  ri_ip : ∀ ip, covered (rl_window l0) t (of_ip ip sent) (hits_of (rl_ipHits l) ip) ∧
    bounded (rl_window l0) (rl_maxPerIP l0) (of_ip ip sent);
  ri_pair : ∀ key, covered (rl_window l0) t (of_pair key sent) (hits_of (rl_acctHits l) key) ∧
    bounded (rl_window l0) (rl_maxPerAccount l0) (of_pair key sent);
  ri_user : ∀ user, spaced (rl_minInterval l0) (of_user user sent) ∧
    (∀ x, x ∈ of_user user sent → ∃ last, rl_lastSent l !! user = Some last ∧ x <= last) }.

Lemma sends_past (P : send → Prop) `{!∀ x, Decision (P x)} sent t :
  Forall (λ x, sd_time x <= t) sent → Forall (λ x, x <= t) (sd_time <$> filter P sent).
Proof.
  intros Hs. apply Forall_forall. intros x (op & -> & [_ Hop]%list_elem_of_filter)%list_elem_of_fmap.
  rewrite Forall_forall in Hs. by apply Hs.
Qed.

Lemma sends_snoc (P : send → Prop) `{!∀ x, Decision (P x)} sent op :
  sd_time <$> filter P (sent ++ [op])%list =
  ((sd_time <$> filter P sent) ++ (if decide (P op) then [sd_time op] else []))%list.
Proof. rewrite filter_app, filter_cons, filter_nil, fmap_app. by case_decide. Qed.

(** A refusal: nothing was sent, and the hits still cover what was. *)
Lemma reset_refused l0 l sent t t' ipHits acctHits :
  reset_inv l0 l sent t → t <= t' →
  (∀ ip, covered (rl_window l0) t' (of_ip ip sent) (hits_of ipHits ip)) →
  (∀ key, covered (rl_window l0) t' (of_pair key sent) (hits_of acctHits key)) →
  reset_inv l0 (with_send l ipHits acctHits (rl_lastSent l)) sent t'.
Proof.
  intros [Hc Hp Hi Ha Hu] Ht Hi' Ha'. split; simpl; [done| | | |done].
  - eapply Forall_impl; [exact Hp|]. simpl. lia.
  - intros ip. split; [apply Hi'|apply Hi].
  - intros key. split; [apply Ha'|apply Ha].
Qed.

Lemma count_room window t limit times hits :
  covered window t times hits → ¬ limit <= Z.of_nat (length (recent window t hits)) →
  Z.of_nat (count_after (t - window) times) < limit.
Proof. intros Hc Hl. specialize (Hc (t - window)). rewrite recent_count in Hl. lia. Qed.

Lemma AllowSend_inv l0 l sent t op ok l' :
  0 < rl_minInterval l0 <= max_int64 →
  reset_inv l0 l sent t → t <= sd_time op → AllowSend l (sd_ip op) (sd_user op) (sd_time op) = (ok, l') →
  reset_inv l0 l' (if ok then sent ++ [op] else sent)%list (sd_time op).
Proof.
  intros Hm Hinv Ht. pose proof Hinv as [(Hw & Hmi & Hma & Hmin) Hp Hi Ha Hu]. unfold AllowSend. rewrite Hw, Hmi, Hma, Hmin.
  assert (∀ ip, covered (rl_window l0) (sd_time op) (of_ip ip sent) (hits_of (rl_ipHits l) ip)) as Hi'.
  { intros ip. eapply covered_later; [exact Ht|apply Hi]. }
  assert (∀ key, covered (rl_window l0) (sd_time op) (of_pair key sent) (hits_of (rl_acctHits l) key)) as Ha'.
  { intros key. eapply covered_later; [exact Ht|apply Ha]. }
  assert (Forall (λ x, sd_time x <= sd_time op) sent) as Hp'.
  { eapply Forall_impl; [exact Hp|]. simpl. lia. }
  destruct (match rl_lastSent l !! sd_user op with Some _ => _ | None => _ end) eqn:Hlast.
  { intros [= <- <-]. replace l with (with_send l (rl_ipHits l) (rl_acctHits l) (rl_lastSent l)) by (by destruct l).
    by eapply reset_refused. }
  destruct (Z.leb_spec (rl_maxPerIP l0) (Z.of_nat (length (recent (rl_window l0) (sd_time op) (hits_of (rl_ipHits l) (sd_ip op)))))) as [|Hri].
  { intros [= <- <-]. eapply reset_refused; [done|done| |done]. intros ip. rewrite hits_insert. case_decide; [|done]. subst ip.
    by apply covered_recent. }
  destruct (Z.leb_spec (rl_maxPerAccount l0) (Z.of_nat (length (recent (rl_window l0) (sd_time op)
    (hits_of (rl_acctHits l) (account_key (sd_ip op) (sd_user op))))))) as [|Hra].
  { intros [= <- <-]. eapply reset_refused; [done|done| |].
    - intros ip. rewrite hits_insert. case_decide; [|done]. subst ip. by apply covered_compacted.
    - intros key. rewrite hits_insert. case_decide; [|done]. subst key. by apply covered_recent. }
  intros [= <- <-]. split; simpl; [done| | | |].
  - apply Forall_app. split; [done|]. by apply Forall_singleton.
  - intros ip. unfold of_ip. rewrite sends_snoc, hits_insert. case_decide as Hd; [subst ip|rewrite app_nil_r; split; [apply Hi'|apply Hi]].
    split; [by apply covered_push, covered_recent, Hi'|]. apply bounded_push; [apply Hi|by apply sends_past|].
    eapply count_room; [apply Hi'|]. lia.
  - intros key. unfold of_pair. rewrite sends_snoc, hits_insert. case_decide as Hd; [subst key|rewrite app_nil_r; split; [apply Ha'|apply Ha]].
    split; [by apply covered_push, covered_recent, Ha'|]. apply bounded_push; [apply Ha|by apply sends_past|].
    eapply count_room; [apply Ha'|]. lia.
  - intros user. destruct (Hu user) as [Hsp Hle]. unfold of_user. rewrite sends_snoc, lookup_insert. case_decide as Hd.
    + subst user. split.
      * apply StronglySorted_app_2; [|done|by repeat constructor]. intros x y Hx Hy%list_elem_of_singleton. subst y.
        destruct (Hle x Hx) as (last & Hl & Hxl). rewrite Hl in Hlast. apply Z.ltb_ge in Hlast.
        unfold time_sub, clamp64 in Hlast. unfold max_int64, min_int64 in *. lia.
      * intros x [Hx|Hx%list_elem_of_singleton]%elem_of_app; exists (sd_time op); split; [done| |done|lia].
        pose proof (sends_past (λ x, sd_user x = sd_user op) sent (sd_time op) Hp') as Hf. rewrite Forall_forall in Hf. by apply Hf.
    + rewrite app_nil_r. by split.
Qed.

Lemma reset_run_inv l ops t :
  0 < rl_minInterval l <= max_int64 → 0 <= rl_maxPerIP l → 0 <= rl_maxPerAccount l →
  rl_ipHits l = ∅ → rl_acctHits l = ∅ → StronglySorted Z.le (t :: map sd_time ops) →
  ∃ t', reset_inv l (reset_run l ops).2 (reset_run l ops).1 t' ∧ (t' = t ∨ ∃ op, op ∈ ops ∧ sd_time op = t').
Proof.
  intros Hm Hi Ha _ _. induction ops as [|op ops IH] using rev_ind; intros Hs.
  - exists t. split; [|by left]. split; simpl; [done|done| | |].
    + intros ip. split; [intros c _; unfold count_after; simpl; lia|by apply bounded_nil].
    + intros key. split; [intros c _; unfold count_after; simpl; lia|by apply bounded_nil].
    + intros user. split; [constructor|by intros x ?%elem_of_nil].
  - rewrite map_app in Hs. simpl in Hs. change (t :: map sd_time ops ++ [sd_time op])%list with ((t :: map sd_time ops) ++ [sd_time op])%list in Hs.
    apply StronglySorted_app in Hs as (Hx & Hs & _).
    destruct (IH Hs) as (t' & Hinv & Hin). unfold reset_run. rewrite foldl_app. simpl. fold (reset_run l ops).
    destruct (AllowSend _ _ _ _) as [ok l'] eqn:Hstep. simpl.
    assert (t' <= sd_time op) as Hle.
    { destruct Hin as [->|(op' & Hop & <-)]; apply Hx; set_solver. }
    exists (sd_time op). split; [by eapply AllowSend_inv|right; set_solver].
Qed.

(** Reset codes are bounded.  In any history whose times do not go back, at most
    [maxPerIP] codes are sent for one address and [maxPerAccount] for one account from
    one address in any window, and two codes for one account are at least
    [minInterval] apart, whatever the addresses that ask for them. *)
Theorem reset_codes_bounded window maxPerIP maxPerAccount minInterval ops t :
  StronglySorted Z.le (map sd_time ops) → minInterval <= max_int64 →
  let l := NewResetRateLimiter window maxPerIP maxPerAccount minInterval in
  let sent := (reset_run l ops).1 in
  (∀ ip, Z.of_nat (length (filter (λ x, t - rl_window l < x <= t) (of_ip ip sent))) <= rl_maxPerIP l) ∧
  (∀ ip user, Z.of_nat (length (filter (λ x, t - rl_window l < x <= t) (of_pair (account_key ip user) sent))) <= rl_maxPerAccount l) ∧
  (∀ user, spaced (rl_minInterval l) (of_user user sent)).
Proof.
  intros Hs Hm l sent.
  assert (0 < rl_minInterval l <= max_int64 ∧ 0 <= rl_maxPerIP l ∧ 0 <= rl_maxPerAccount l) as (Hmin & Hip & Hacct).
  { subst l. unfold NewResetRateLimiter, max_int64, second in *. cbn [rl_minInterval rl_maxPerIP rl_maxPerAccount].
    destruct (Z.leb_spec minInterval 0), (Z.leb_spec maxPerIP 0), (Z.leb_spec maxPerAccount 0); lia. }
  destruct ops as [|op ops].
  { subst sent. split_and!; intros; [done|done|constructor]. }
  assert (StronglySorted Z.le (sd_time op :: map sd_time (op :: ops))) as Hs'.
  { constructor; [done|]. simpl in *. inversion Hs; subst. constructor; [lia|done]. }
  destruct (reset_run_inv l (op :: ops) (sd_time op) Hmin Hip Hacct eq_refl eq_refl Hs') as (t' & [_ _ Hi Ha Hu] & _).
  split_and!; [intros; apply Hi|intros; apply Ha|intros; apply Hu].
Qed.

Definition ask (ip user : string) (t : Z) : send := {| sd_ip := ip; sd_user := user; sd_time := t |}.

Definition example_sends : list send :=
  [ask "a" "bob" 0; ask "b" "bob" 5; ask "a" "eve" 6; ask "a" "bob" 20; ask "a" "joe" 30].

Lemma reset_codes_bounded_witness :
  (reset_run (NewResetRateLimiter 100 3 2 10) example_sends).1 = [ask "a" "bob" 0; ask "a" "eve" 6; ask "a" "bob" 20] ∧
  spaced 10 (of_user "bob" (reset_run (NewResetRateLimiter 100 3 2 10) example_sends).1).
Proof.
  split; [vm_compute; reflexivity|].
  destruct (reset_codes_bounded 100 3 2 10 example_sends 0) as (_ & _ & Hu); [|unfold max_int64; lia|exact (Hu "bob")].
  unfold example_sends. simpl. repeat constructor; lia.
Defined.

(** The in-place filter can count a hit twice: a refusal for the account at 112 leaves
    the address's one live hit twice in a slice of length two, so at 121 an address that
    has sent one code within the window reads as having sent two, and is refused. *)
Example refused_for_a_hit_counted_twice :
  let l := NewResetRateLimiter 100 2 1 1 in
  let sends := [ask "a" "bob" 0; ask "a" "eve" 90; ask "a" "eve" 112] in
  let fixed := with_send (reset_run l sends).2 (<["a" := [90]]> (rl_ipHits (reset_run l sends).2))
                 (rl_acctHits (reset_run l sends).2) (rl_lastSent (reset_run l sends).2) in
  (reset_run l sends).1 = [ask "a" "bob" 0; ask "a" "eve" 90] ∧
  hits_of (rl_ipHits (reset_run l sends).2) "a" = [90; 90] ∧
  (AllowSend (reset_run l sends).2 "a" "joe" 121).1 = false ∧ (AllowSend fixed "a" "joe" 121).1 = true.
Proof. vm_compute. done. Qed.
