(* ===== verification/Console.v ===== *)
(** * The console's accounts and sessions

    controlplane/adminapi/session.go, login.go, localauth.go, users.go and
    password_reset.go, app/passwordreset.go, controlplane/rbac and the account table of
    platform/storage/sqlrepo/localauth.go.

    The world holds the account and tenant tables with their faults (a statement meets
    the head of [co_faults], as in ApiKey.v), the session and reset-code maps, the
    limiters and the random source.  The password hash and the mail channel are
    interfaces; the clock readings and the decoded request bodies are arguments.  Audit
    rows are a log that can fail like any statement; telemetry events are left out. *)

From S2P Require Import Prelude GoStd GoNet ApiKey Limits.

Open Scope string_scope.
Open Scope Z_scope.

(** ** controlplane/rbac *)

Definition RoleSystemAdmin : string := "system_admin".
Definition RoleTenantAdmin : string := "tenant_admin".
Definition RoleTenantOperator : string := "tenant_operator".
Definition RoleViewer : string := "viewer".

Definition knownPermissions : list string :=
  ["external_agent.review"; "external_agent.suspend"; "external_agent.trust.rotate"; "external_agent.trust.revoke";
   "approval.decide"; "delegation.grant"; "delegation.revoke"; "evidence.export"].

Definition matrix : gmap string (list string) :=
  {[ RoleSystemAdmin := knownPermissions; RoleTenantAdmin := knownPermissions;
     RoleTenantOperator := ["external_agent.suspend"; "approval.decide"]; RoleViewer := [] ]}.

Definition TenantRoles : list string := [RoleTenantAdmin; RoleTenantOperator; RoleViewer].

Definition Has (role permission : string) : bool :=
  match matrix !! role with Some permissions => bool_decide (permission ∈ permissions) | None => false end.

Definition PermissionsFor (role : string) : list string := filter (λ p, Has role p = true) knownPermissions.

Definition ErrForbidden : error := ErrNew "forbidden: role lacks permission".
Definition Require_ (role permission : string) : option error := if Has role permission then None else Some ErrForbidden.

(** ** Rows, sessions and codes *)

Record UserRow := {
  us_ID : string; us_Username : string; us_PasswordHash : string; us_Role : string; us_Status : string; us_Email : string;
  us_CreatedAt : Z }.

Record TenantRow := { te_ID : string; te_Status : string; te_CreatedAt : Z }.

Record LocalCredential := {
  lc_AdminID : string; lc_TenantID : string; lc_Username : string; lc_Role : string; lc_PasswordHash : string;
  lc_Status : string; lc_Email : string }.

Record Session := { se_AdminID : string; se_TenantID : string; se_Username : string; se_Role : string; se_AuthMethod : string }.

Definition EffectiveRole (s : Session) : string := if bool_decide (se_Role s = "") then RoleTenantAdmin else se_Role s.

Record storedSession := { ss_Session : Session; ss_CSRFHash : list Z; ss_CSRFToken : string; ss_ExpiresAt : Z }.

Record resetCodeEntry := { rce_hash : list Z; rce_expiresAt : Z; rce_tries : Z }.

Record Console (R : Type) := {
  co_users : list UserRow; co_tenants : list TenantRow; co_faults : list (option error);
  co_sessions : gmap (list Z) storedSession; co_codes : gmap string resetCodeEntry;
  co_login : LoginLimiter; co_reset : ResetRateLimiter; co_admin : AdminRateLimiter; co_rng : R; co_audit : list (string * string * string) }.
Arguments co_users {R}. Arguments co_tenants {R}. Arguments co_faults {R}. Arguments co_sessions {R}. Arguments co_codes {R}.
Arguments co_login {R}. Arguments co_reset {R}. Arguments co_admin {R}. Arguments co_rng {R}. Arguments co_audit {R}.

(** An HTTP answer: the value, or a refusal with its status and code. *)
Inductive reply (A : Type) := Reply (a : A) | Refused (status : Z) (code : string).
Arguments Reply {A}. Arguments Refused {A}.

Record Request := {
  rq_Method : string; rq_Cookie : option string; rq_CSRF : string; rq_Host : string; rq_BootstrapToken : string;
  rq_ReauthToken : string }.

(** The password hash (Argon2id with a random salt). *)
Class Passwords (R : Type) := {
  Hash : R → string → result string * R;
  VerifyPassword : string → string → result bool }.
Class PasswordsLaws (R : Type) `{!Passwords R} := {
  Verify_Hash : ∀ g g' p h, Hash g p = (Ok h, g') → VerifyPassword p h = Ok true }.

(** [mail.ParseAddress] accepts the text, [crypto/rand.Int] below a bound. *)
Class MailParser := { ParseAddress : string → bool }.
Class RandInt (R : Type) := { rand_Int : R → Z → result Z * R }.

Section Console.
Context {R : Type} `{!Reader R} `{!Passwords R} `{!MailParser} `{!RandInt R}.
Implicit Types (w : Console R).

Definition set_users w users : Console R :=
  {| co_users := users; co_tenants := co_tenants w; co_faults := co_faults w; co_sessions := co_sessions w;
     co_codes := co_codes w; co_login := co_login w; co_reset := co_reset w; co_admin := co_admin w; co_rng := co_rng w; co_audit := co_audit w |}.
Definition set_faults w faults : Console R :=
  {| co_users := co_users w; co_tenants := co_tenants w; co_faults := faults; co_sessions := co_sessions w;
     co_codes := co_codes w; co_login := co_login w; co_reset := co_reset w; co_admin := co_admin w; co_rng := co_rng w; co_audit := co_audit w |}.
Definition set_sessions w sessions : Console R :=
  {| co_users := co_users w; co_tenants := co_tenants w; co_faults := co_faults w; co_sessions := sessions;
     co_codes := co_codes w; co_login := co_login w; co_reset := co_reset w; co_admin := co_admin w; co_rng := co_rng w; co_audit := co_audit w |}.
Definition set_codes w codes : Console R :=
  {| co_users := co_users w; co_tenants := co_tenants w; co_faults := co_faults w; co_sessions := co_sessions w;
     co_codes := codes; co_login := co_login w; co_reset := co_reset w; co_admin := co_admin w; co_rng := co_rng w; co_audit := co_audit w |}.
Definition set_login w l : Console R :=
  {| co_users := co_users w; co_tenants := co_tenants w; co_faults := co_faults w; co_sessions := co_sessions w;
     co_codes := co_codes w; co_login := l; co_reset := co_reset w; co_admin := co_admin w; co_rng := co_rng w; co_audit := co_audit w |}.
Definition set_reset w l : Console R :=
  {| co_users := co_users w; co_tenants := co_tenants w; co_faults := co_faults w; co_sessions := co_sessions w;
     co_codes := co_codes w; co_login := co_login w; co_reset := l; co_admin := co_admin w; co_rng := co_rng w; co_audit := co_audit w |}.
Definition set_admin w l : Console R :=
  {| co_users := co_users w; co_tenants := co_tenants w; co_faults := co_faults w; co_sessions := co_sessions w;
     co_codes := co_codes w; co_login := co_login w; co_reset := co_reset w; co_admin := l; co_rng := co_rng w;
     co_audit := co_audit w |}.
Definition set_random w g : Console R :=
  {| co_users := co_users w; co_tenants := co_tenants w; co_faults := co_faults w; co_sessions := co_sessions w;
     co_codes := co_codes w; co_login := co_login w; co_reset := co_reset w; co_admin := co_admin w; co_rng := g; co_audit := co_audit w |}.
Definition add_audit w row : Console R :=
  {| co_users := co_users w; co_tenants := co_tenants w; co_faults := co_faults w; co_sessions := co_sessions w;
     co_codes := co_codes w; co_login := co_login w; co_reset := co_reset w; co_admin := co_admin w; co_rng := co_rng w;
     co_audit := (co_audit w ++ [row])%list |}.

(** ** The account table *)

Definition fault w : option error * Console R :=
  match co_faults w with [] => (None, w) | f :: rest => (f, set_faults w rest) end.

Definition select {A} w (read : Console R → result A) : result A * Console R :=
  match fault w with (Some err, w) => (Err err, w) | (None, w) => (read w, w) end.

Definition update {A} w (run : list UserRow → result A * list UserRow) : result A * Console R :=
  match fault w with
  | (Some err, w) => (Err err, w)
  | (None, w) => let '(r, users) := run (co_users w) in (r, set_users w users)
  end.

(** The first active tenant by creation: [ORDER BY created_at LIMIT 1]. *)
Definition older (a b : TenantRow) : TenantRow := if te_CreatedAt b <? te_CreatedAt a then b else a.
Definition first_tenant (tenants : list TenantRow) : option TenantRow :=
  match filter (λ t, te_Status t = "active") tenants with [] => None | t :: ts => Some (foldl older t ts) end.

(** A row as the SELECT of the two lookups returns it; none for a tenant's account
    without an active tenant. *)
Definition credential_of (tenants : list TenantRow) (row : UserRow) : option LocalCredential :=
  let credential tenant :=
    {| lc_AdminID := us_ID row; lc_TenantID := tenant; lc_Username := us_Username row; lc_Role := us_Role row;
       lc_PasswordHash := us_PasswordHash row; lc_Status := us_Status row; lc_Email := us_Email row |} in
  if bool_decide (us_Role row = RoleSystemAdmin) then Some (credential "")
  else credential ∘ te_ID <$> first_tenant tenants.

Definition ErrLocalUserNotFound : error := ErrNew "local user not found".
Definition ErrUsernameTaken : error := ErrNew "username already exists".

Definition FindLocalCredential w (username : string) : result LocalCredential * Console R :=
  select w (λ w, match head (omap (credential_of (co_tenants w)) (filter (λ row, us_Username row = username) (co_users w))) with
                 | Some c => Ok c
                 | None => Err (ErrNew "credential not found")
                 end).

Definition FindLocalUserByID w (id : string) : result LocalCredential * Console R :=
  select w (λ w, match head (omap (credential_of (co_tenants w)) (filter (λ row, us_ID row = id) (co_users w))) with
                 | Some c => Ok c
                 | None => Err ErrLocalUserNotFound
                 end).

Definition with_password (hash : string) (row : UserRow) : UserRow :=
  {| us_ID := us_ID row; us_Username := us_Username row; us_PasswordHash := hash; us_Role := us_Role row;
     us_Status := us_Status row; us_Email := us_Email row; us_CreatedAt := us_CreatedAt row |}.
Definition with_role (role : string) (row : UserRow) : UserRow :=
  {| us_ID := us_ID row; us_Username := us_Username row; us_PasswordHash := us_PasswordHash row; us_Role := role;
     us_Status := us_Status row; us_Email := us_Email row; us_CreatedAt := us_CreatedAt row |}.
Definition with_status (status : string) (row : UserRow) : UserRow :=
  {| us_ID := us_ID row; us_Username := us_Username row; us_PasswordHash := us_PasswordHash row; us_Role := us_Role row;
     us_Status := status; us_Email := us_Email row; us_CreatedAt := us_CreatedAt row |}.
Definition with_email (email : string) (row : UserRow) : UserRow :=
  {| us_ID := us_ID row; us_Username := us_Username row; us_PasswordHash := us_PasswordHash row; us_Role := us_Role row;
     us_Status := us_Status row; us_Email := email; us_CreatedAt := us_CreatedAt row |}.

(** UPDATE ... WHERE: the number of rows and the new table. *)
Definition update_rows (P : UserRow → Prop) `{!∀ row, Decision (P row)} (change : UserRow → UserRow) (users : list UserRow) :
    nat * list UserRow :=
  (length (filter P users), map (λ row, if decide (P row) then change row else row) users).

Definition ResetLocalPassword w (username hash : string) : option error * Console R :=
  match update w (λ users, let '(n, users) := update_rows (λ row, us_Username row = username ∧ us_Status row = "active")
                                               (with_password hash) users in (Ok n, users)) with
  | (Err err, w) => (Some (ErrWrap "reset local password" err), w)
  | (Ok n, w) => (if (n =? 1)%nat then None else Some ErrLocalUserNotFound, w)
  end.

Definition findUser w (id : string) : result UserRow * Console R :=
  select w (λ w, match filter (λ row, us_ID row = id) (co_users w) with row :: _ => Ok row | [] => Err ErrLocalUserNotFound end).

(** [executeUpdate] and the row it leaves. *)
Definition change_user w (id : string) (change : UserRow → UserRow) : result UserRow * Console R :=
  match update w (λ users, let '(n, users) := update_rows (λ row, us_ID row = id) change users in (Ok n, users)) with
  | (Err err, w) => (Err (ErrWrap "update local user" err), w)
  | (Ok n, w) => if (n =? 0)%nat then (Err ErrLocalUserNotFound, w) else findUser w id
  end.

Definition SetUserRole w (id role : string) := change_user w id (with_role role).
Definition SetUserStatus w (id status : string) := change_user w id (with_status status).
Definition SetUserEmail w (id email : string) := change_user w id (with_email email).

Definition CreateLocalUser w (user : UserRow) : result UserRow * Console R :=
  match update w (λ users,
    if existsb (λ row, bool_decide (us_ID row = us_ID user) || bool_decide (us_Username row = us_Username user)) users
    then (Ok true, users) else (Ok false, users ++ [user])%list) with
  | (Err err, w) => (Err (ErrWrap "create local user" err), w)
  | (Ok true, w) => (Err ErrUsernameTaken, w)
  | (Ok false, w) => findUser w (us_ID user)
  end.

Definition DeleteLocalUser w (id : string) : option error * Console R :=
  match update w (λ users, (Ok (length (filter (λ row, us_ID row = id) users)), filter (λ row, us_ID row ≠ id) users)) with
  | (Err err, w) => (Some (ErrWrap "delete local user" err), w)
  | (Ok n, w) => (if (n =? 0)%nat then Some ErrLocalUserNotFound else None, w)
  end.

Definition active_admin (row : UserRow) : Prop := us_Role row = RoleTenantAdmin ∧ us_Status row = "active".
#[global] Instance active_admin_dec row : Decision (active_admin row).
Proof. unfold active_admin. apply _. Defined.

Definition CountActiveAdmins w : result nat * Console R := select w (λ w, Ok (length (filter active_admin (co_users w)))).

(** An audit row; its error is the statement's. *)
Definition audit w (row : string * string * string) : option error * Console R :=
  match fault w with (Some err, w) => (Some err, w) | (None, w) => (None, add_audit w row) end.

(** ** Sessions *)

Definition hash_of (text : string) : list Z := sha256 (bytes_of_string text).

Definition token w : result string * Console R :=
  match ReadFull (co_rng w) 32 with
  | (Err err, g) => (Err err, set_random w g)
  | (Ok value, g) => (Ok (hex_encode value), set_random w g)
  end.

Definition stored_of (now ttl : Z) (csrf : string) (session : Session) : storedSession :=
  {| ss_Session := session; ss_CSRFHash := hash_of csrf; ss_CSRFToken := csrf; ss_ExpiresAt := now + ttl |}.

(** The cookie's value and the CSRF token of a new session. *)
Definition session_Create w (now ttl : Z) (session : Session) : result (string * string) * Console R :=
  match token w with
  | (Err err, w) => (Err err, w)
  | (Ok cookie, w) =>
      match token w with
      | (Err err, w) => (Err err, w)
      | (Ok csrf, w) => (Ok (cookie, csrf), set_sessions w (<[hash_of cookie := stored_of now ttl csrf session]> (co_sessions w)))
      end
  end.

(** The stored session of a cookie; an expired one is deleted. *)
Definition live_session w (now : Z) (r : Request) : result (list Z * storedSession) * Console R :=
  match rq_Cookie r with
  | None => (Err (ErrNew "missing session"), w)
  | Some cookie =>
      let hash := hash_of cookie in
      match co_sessions w !! hash with
      | None => (Err (ErrNew "invalid session"), w)
      | Some stored =>
          if ss_ExpiresAt stored <? now then (Err (ErrNew "invalid session"), set_sessions w (delete hash (co_sessions w)))
          else (Ok (hash, stored), w)
      end
  end.

Definition safe_method (method : string) : bool := bool_decide (method ∈ ["GET"; "HEAD"; "OPTIONS"]).

Definition Authorize w (now : Z) (r : Request) : result Session * Console R :=
  match live_session w now r with
  | (Err err, w) => (Err err, w)
  | (Ok (_, stored), w) =>
      if negb (safe_method (rq_Method r)) && negb (bool_decide (hash_of (rq_CSRF r) = ss_CSRFHash stored))
      then (Err (ErrNew "invalid CSRF token"), w)
      else (Ok (ss_Session stored), w)
  end.

Definition CSRFTokenFor w (now : Z) (r : Request) : result string * Console R :=
  match live_session w now r with
  | (Err err, w) => (Err err, w)
  | (Ok (_, stored), w) => (Ok (ss_CSRFToken stored), w)
  end.

Definition with_tenant (stored : storedSession) (tenantID : string) : storedSession :=
  {| ss_Session := {| se_AdminID := se_AdminID (ss_Session stored); se_TenantID := tenantID;
                      se_Username := se_Username (ss_Session stored); se_Role := se_Role (ss_Session stored);
                      se_AuthMethod := se_AuthMethod (ss_Session stored) |};
     ss_CSRFHash := ss_CSRFHash stored; ss_CSRFToken := ss_CSRFToken stored; ss_ExpiresAt := ss_ExpiresAt stored |}.

Definition SwitchTenant w (now : Z) (r : Request) (tenantID : string) : result Session * Console R :=
  match live_session w now r with
  | (Err err, w) => (Err err, w)
  | (Ok (hash, stored), w) =>
      (Ok (ss_Session (with_tenant stored tenantID)), set_sessions w (<[hash := with_tenant stored tenantID]> (co_sessions w)))
  end.

Definition Destroy w (r : Request) : Console R :=
  match rq_Cookie r with Some cookie => set_sessions w (delete (hash_of cookie) (co_sessions w)) | None => w end.

Definition InvalidateForAdmin w (adminID : string) : Console R :=
  if bool_decide (adminID = "") then w
  else set_sessions w (filter (λ p : list Z * storedSession, se_AdminID (ss_Session p.2) ≠ adminID) (co_sessions w)).

(** ** Login *)

Definition RoleOrDefault (c : LocalCredential) : string :=
  if bool_decide (lc_Role c = "") then RoleTenantAdmin else lc_Role c.

Definition invalid_credentials : error := ErrNew "invalid credentials".

Definition verify_login w (username password : string) : result Session * Console R :=
  if bool_decide (username = "" ∨ password = "") then (Err invalid_credentials, w)
  else
    match FindLocalCredential w username with
    | (Err _, w) => (Err invalid_credentials, w)
    | (Ok credential, w) =>
        if bool_decide (lc_Status credential ≠ "active") then (Err invalid_credentials, w)
        else match VerifyPassword password (lc_PasswordHash credential) with
             | Ok true =>
                 (Ok {| se_AdminID := lc_AdminID credential; se_TenantID := lc_TenantID credential;
                        se_Username := lc_Username credential; se_Role := RoleOrDefault credential; se_AuthMethod := "local" |}, w)
             | _ => (Err invalid_credentials, w)
             end
    end.

(** [now] is read before the verification, [later] after it; [ttl] is the session's.
    The body is the decoded user name and password. *)
Definition login w (now later ttl : Z) (ip : string) (body : option (string * string)) : reply (string * string) * Console R :=
  match body with
  | None => (Refused 400 "INVALID_REQUEST", w)
  | Some (username, password) =>
      let '(allowed, l) := IPAllowed (co_login w) ip now in
      let w := set_login w l in
      if negb allowed
      then (Refused 429 "RATE_LIMITED", set_login w (ReportBlock l ("ip:" +:+ ip) now).2)
      else
        match verify_login w username password with
        | (Err _, w) =>
            let '(blocked, l) := AccountBlocked (co_login w) ip username later in
            let l := if blocked then (ReportBlock l ("account:" +:+ account_key ip username) later).2 else l in
            match audit (set_login w l) ("anonymous", "auth.login_failed", username) with
            | (Some _, w) => (Refused 500 "INTERNAL_ERROR", w)
            | (None, w) => (if blocked then Refused 429 "RATE_LIMITED" else Refused 401 "UNAUTHORIZED", w)
            end
        | (Ok session, w) =>
            match audit w (se_AdminID session, "auth.login", se_Username session) with
            | (Some _, w) => (Refused 500 "INTERNAL_ERROR", w)
            | (None, w) =>
                match session_Create w later ttl session with
                | (Err _, w) => (Refused 500 "INTERNAL_ERROR", w)
                | (Ok created, w) => (Reply created, w)
                end
            end
        end
  end.

Definition logout w (now : Z) (r : Request) : reply unit * Console R :=
  match Authorize w now r with
  | (Err _, w) => (Refused 401 "UNAUTHORIZED", w)
  | (Ok _, w) => (Reply tt, Destroy w r)
  end.

(** ** Passwords *)

Definition minimumResetPasswordSize : nat := 8.

(** [subtle.ConstantTimeCompare] of two texts. *)
Definition equal_text (a b : string) : bool := bool_decide (a = b).

(** The emergency reset; the body is the user name and the new password. *)
Definition resetPassword w (now : Z) (bootstrapToken : string) (r : Request) (body : option (string * string)) :
    reply unit * Console R :=
  if negb (match ParseIP (rq_Host r) with Some ip => IsLoopback ip | None => false end) then (Refused 403 "FORBIDDEN", w)
  else match body with
  | None => (Refused 400 "INVALID_REQUEST", w)
  | Some (username, newPassword) =>
      if bool_decide (username = "") || (String.length newPassword <? minimumResetPasswordSize)%nat
      then (Refused 400 "INVALID_REQUEST", w)
      else
        let '(session, w) := Authorize w now r in
        match
          match session with
          | Err _ => if bool_decide (bootstrapToken = "") || negb (equal_text (rq_BootstrapToken r) bootstrapToken)
                     then Refused 401 "UNAUTHORIZED" else Reply "bootstrap"
          | Ok s => if bool_decide (EffectiveRole s = RoleTenantAdmin ∨ EffectiveRole s = RoleSystemAdmin)
                    then Reply (se_AdminID s) else Refused 403 "ROLE_FORBIDDEN"
          end
        with
        | Refused status code => (Refused status code, w)
        | Reply actor =>
            let '(hash, g) := Hash (co_rng w) newPassword in
            let w := set_random w g in
            match hash with
            | Err _ => (Refused 500 "INTERNAL_ERROR", w)
            | Ok hash =>
                match ResetLocalPassword w username hash with
                | (Some _, w) => (Refused 404 "NOT_FOUND", w)
                | (None, w) =>
                    let '(found, w) := FindLocalCredential w username in
                    let w := match found with Ok credential => InvalidateForAdmin w (lc_AdminID credential) | Err _ => w end in
                    match audit w (actor, "local_password.emergency_reset", username) with
                    | (Some _, w) => (Refused 500 "INTERNAL_ERROR", w)
                    | (None, w) => (Reply tt, w)
                    end
                end
            end
        end
  end.

(** The account's own change; the body is the old and the new password. *)
Definition changePassword w (now : Z) (r : Request) (body : option (string * string)) : reply unit * Console R :=
  match Authorize w now r with
  | (Err _, w) => (Refused 401 "UNAUTHORIZED", w)
  | (Ok session, w) =>
      match body with
      | None => (Refused 400 "INVALID_REQUEST", w)
      | Some (oldPassword, newPassword) =>
          if bool_decide (oldPassword = "") || (String.length newPassword <? minimumResetPasswordSize)%nat
          then (Refused 400 "INVALID_REQUEST", w)
          else match FindLocalUserByID w (se_AdminID session) with
          | (Err _, w) => (Refused 401 "UNAUTHORIZED", w)
          | (Ok credential, w) =>
              match VerifyPassword oldPassword (lc_PasswordHash credential) with
              | Ok true =>
                  let '(hash, g) := Hash (co_rng w) newPassword in
                  let w := set_random w g in
                  match hash with
                  | Err _ => (Refused 500 "INTERNAL_ERROR", w)
                  | Ok hash =>
                      match ResetLocalPassword w (lc_Username credential) hash with
                      | (Some _, w) => (Refused 404 "NOT_FOUND", w)
                      | (None, w) =>
                          match audit (InvalidateForAdmin w (se_AdminID session))
                                  (se_AdminID session, "auth.password_change", lc_Username credential) with
                          | (Some _, w) => (Refused 500 "INTERNAL_ERROR", w)
                          | (None, w) => (Reply tt, w)
                          end
                      end
                  end
              | _ => (Refused 401 "WRONG_PASSWORD", w)
              end
          end
      end
  end.

(** ** Reset codes *)

Definition resetCodeTTL : Z := 10 * 60 * second.
Definition resetCodeMaxTries : Z := 5.

(** [%06d]. *)
Definition six_digits (n : Z) : string :=
  let text := digits n in
  String.concat "" (replicate (6 - String.length text) "0") +:+ text.

Definition newResetCode w : result string * Console R :=
  let '(n, g) := rand_Int (co_rng w) 1000000 in
  (match n with Ok n => Ok (six_digits n) | Err err => Err err end, set_random w g).

(** [sent] is the answer of the mail channel to the code's message. *)
Definition Forgot w (now : Z) (username : string) (sent : option error) : option error * Console R :=
  match FindLocalCredential w username with
  | (Err _, w) => (None, w)
  | (Ok credential, w) =>
      if bool_decide (lc_Status credential ≠ "active" ∨ lc_Email credential = "") then (None, w)
      else match newResetCode w with
      | (Err err, w) => (Some err, w)
      | (Ok code, w) =>
          let entry := {| rce_hash := hash_of code; rce_expiresAt := now + resetCodeTTL; rce_tries := 0 |} in
          match sent with
          | Some err => (Some err, set_codes w (delete username (<[username := entry]> (co_codes w))))
          | None => (None, (audit (set_codes w (<[username := entry]> (co_codes w)))
                              ("anonymous", "local_password.reset_code_sent", username)).2)
          end
      end
  end.

Definition one_more_try (entry : resetCodeEntry) : resetCodeEntry :=
  {| rce_hash := rce_hash entry; rce_expiresAt := rce_expiresAt entry; rce_tries := rce_tries entry + 1 |}.

(** The first critical section of [Confirm]: does the code match, and what is left. *)
Definition check_code (codes : gmap string resetCodeEntry) (now : Z) (username code : string) :
    bool * gmap string resetCodeEntry :=
  match codes !! username with
  | None => (false, codes)
  | Some entry =>
      if now <? rce_expiresAt entry then
        if bool_decide (hash_of code = rce_hash entry) then (true, codes)
        else if resetCodeMaxTries <=? rce_tries entry + 1 then (false, delete username codes)
        else (false, <[username := one_more_try entry]> codes)
      else (false, delete username codes)
  end.

(** What follows the consumption of the code. *)
Definition apply_reset w (username newPassword : string) : option error * Console R :=
  match FindLocalCredential w username with
  | (Err _, w) => (Some (ErrNew "account unavailable"), w)
  | (Ok credential, w) =>
      if bool_decide (lc_Status credential ≠ "active") then (Some (ErrNew "account unavailable"), w)
      else
        let '(hash, g) := Hash (co_rng w) newPassword in
        let w := set_random w g in
        match hash with
        | Err err => (Some err, w)
        | Ok hash =>
            match ResetLocalPassword w username hash with
            | (Some err, w) => (Some err, w)
            | (None, w) =>
                (None, (audit (InvalidateForAdmin w (lc_AdminID credential)) (username, "local_password.reset_confirmed", username)).2)
            end
        end
  end.

(** [Confirm] in one piece; the second critical section consumes the matched entry. *)
Definition Confirm w (now : Z) (username code newPassword : string) : option error * Console R :=
  let '(matched, codes) := check_code (co_codes w) now username code in
  let w := set_codes w codes in
  if negb matched then (Some (ErrNew "invalid reset code"), w)
  else apply_reset (set_codes w (delete username (co_codes w))) username newPassword.

Definition long_username (username : string) : bool := 64 <? rune_count (bytes_of_string username).

Definition forgotPassword w (now : Z) (enabled : bool) (ip : string) (body : option string) (sent : option error) :
    reply unit * Console R :=
  match body with
  | None => (Refused 400 "INVALID_REQUEST", w)
  | Some username =>
      if bool_decide (username = "") || long_username username then (Refused 400 "INVALID_REQUEST", w)
      else
        let '(allowed, l) := AllowSend (co_reset w) ip username now in
        let w := set_reset w l in
        if negb allowed then (Refused 429 "RATE_LIMITED", w)
        else if negb enabled then (Reply tt, w)
        else match Forgot w now username sent with
             | (Some _, w) => (Refused 502 "RESET_EMAIL_FAILED", w)
             | (None, w) => (Reply tt, w)
             end
  end.

Definition confirmPasswordReset w (now : Z) (enabled : bool) (body : option (string * string * string)) : reply unit * Console R :=
  match body with
  | None => (Refused 400 "INVALID_REQUEST", w)
  | Some (username, code, newPassword) =>
      if bool_decide (username = "") || long_username username || bool_decide (code = "") || (16 <? String.length code)%nat ||
         (String.length newPassword <? minimumResetPasswordSize)%nat
      then (Refused 400 "INVALID_REQUEST", w)
      else if negb enabled then (Refused 401 "INVALID_CODE", w)
      else match Confirm w now username code newPassword with
           | (Some _, w) => (Refused 401 "INVALID_CODE", w)
           | (None, w) => (Reply tt, w)
           end
  end.

(** ** The user directory *)

Definition validEmail (email : string) : bool :=
  bool_decide (email = "") || ((String.length email <=? 254)%nat && ParseAddress email).

Definition validRole (role : string) : bool := bool_decide (role ∈ TenantRoles).

Definition recordAudit w (session : Session) (action resourceID : string) : Console R :=
  if bool_decide (se_TenantID session = "" ∨ se_AdminID session = "") then w
  else (audit w (se_AdminID session, action, resourceID)).2.

(** The middleware of the admin group: session and CSRF, tenant, rate, role. *)
Definition admin_route {A} w (now : Z) (r : Request) (k : Session → Console R → reply A * Console R) : reply A * Console R :=
  match Authorize w now r with
  | (Err _, w) => (Refused 401 "UNAUTHORIZED", w)
  | (Ok session, w) =>
      if bool_decide (se_AdminID session = "") then (Refused 401 "UNAUTHORIZED", w)
      else if bool_decide (se_TenantID session = "") then (Refused 401 "UNAUTHORIZED", w)
      else
        let '(allowed, l) := Allow (co_admin w) (rq_Host r) (se_AdminID session) now in
        let w := set_admin w l in
        if negb allowed then (Refused 429 "RATE_LIMITED", w)
        else if bool_decide (EffectiveRole session = RoleSystemAdmin ∨ EffectiveRole session = RoleTenantAdmin)
        then k session w
        else (Refused 403 "ROLE_FORBIDDEN", w)
  end.

Definition findUserTarget w (id : string) : reply LocalCredential * Console R :=
  match FindLocalUserByID w id with
  | (Ok target, w) => (Reply target, w)
  | (Err err, w) => (if errors_is err ErrLocalUserNotFound then Refused 404 "NOT_FOUND" else Refused 500 "INTERNAL_ERROR", w)
  end.

Definition lastAdminAllows w : bool * Console R :=
  match CountActiveAdmins w with
  | (Ok count, w) => ((1 <? count)%nat, w)
  | (Err _, w) => (false, w)
  end.

Definition isLastActiveAdmin (user : LocalCredential) : bool :=
  bool_decide (lc_Role user = RoleTenantAdmin ∧ lc_Status user = "active").

Definition userStoreError (err : error) : Z * string :=
  if errors_is err ErrUsernameTaken then (409, "USERNAME_TAKEN")
  else if errors_is err ErrLocalUserNotFound then (404, "NOT_FOUND")
  else (500, "INTERNAL_ERROR").

(** The common end of the handlers that change a row. *)
Definition changed {A} (session : Session) (action : string) (r : result UserRow * Console R) (answer : UserRow → A) :
    reply A * Console R :=
  match r with
  | (Err err, w) => let '(status, code) := userStoreError err in (Refused status code, w)
  | (Ok user, w) => (Reply (answer user), recordAudit (InvalidateForAdmin w (us_ID user)) session action (us_ID user))
  end.

(** The body: user name, password, role and address; [now] dates the row. *)
Definition createUser w (now : Z) (session : Session) (body : option (string * string * string * string)) : reply UserRow * Console R :=
  match body with
  | None => (Refused 400 "INVALID_REQUEST", w)
  | Some (username, password, role, email) =>
      if bool_decide (username = "") || long_username username || (String.length password <? minimumResetPasswordSize)%nat ||
         negb (validRole role) || negb (validEmail email)
      then (Refused 400 "INVALID_REQUEST", w)
      else
        let '(hash, g) := Hash (co_rng w) password in
        let w := set_random w g in
        match hash with
        | Err _ => (Refused 500 "INTERNAL_ERROR", w)
        | Ok hash =>
            let '(id, g) := id_New (co_rng w) in
            let w := set_random w g in
            match id with
            | Err _ => (Refused 500 "INTERNAL_ERROR", w)
            | Ok id =>
                match CreateLocalUser w {| us_ID := id; us_Username := username; us_PasswordHash := hash; us_Role := role;
                                           us_Status := "active"; us_Email := email; us_CreatedAt := now |} with
                | (Err err, w) => (if errors_is err ErrUsernameTaken then Refused 409 "USERNAME_TAKEN" else Refused 500 "INTERNAL_ERROR", w)
                | (Ok user, w) => (Reply user, recordAudit w session "user.create" (us_ID user))
                end
            end
        end
  end.

Definition updateUserEmail w (session : Session) (id : string) (email : option string) : reply UserRow * Console R :=
  match email with
  | None => (Refused 400 "INVALID_REQUEST", w)
  | Some email =>
      if negb (validEmail email) then (Refused 400 "INVALID_REQUEST", w)
      else match findUserTarget w id with
           | (Refused status code, w) => (Refused status code, w)
           | (Reply _, w) => changed session "user.email_change" (SetUserEmail w id email) (λ user, user)
           end
  end.

Definition updateMyEmail w (session : Session) (email : option string) : reply UserRow * Console R :=
  match email with
  | None => (Refused 400 "INVALID_REQUEST", w)
  | Some email =>
      if negb (validEmail email) then (Refused 400 "INVALID_REQUEST", w)
      else changed session "user.email_change_self" (SetUserEmail w (se_AdminID session) email) (λ user, user)
  end.

(** The target of a change that takes power away: not oneself, not the last admin. *)
Definition protected_target {A} w (session : Session) (id : string) (needed : bool)
    (k : LocalCredential → Console R → reply A * Console R) : reply A * Console R :=
  match findUserTarget w id with
  | (Refused status code, w) => (Refused status code, w)
  | (Reply target, w) =>
      if bool_decide (lc_AdminID target = se_AdminID session) then (Refused 400 "INVALID_REQUEST", w)
      else if needed && isLastActiveAdmin target then
        let '(allowed, w) := lastAdminAllows w in
        if negb allowed then (Refused 409 "LAST_ADMIN_PROTECTED", w) else k target w
      else k target w
  end.

Definition updateUserRole w (session : Session) (id : string) (role : option string) : reply UserRow * Console R :=
  match role with
  | None => (Refused 400 "INVALID_REQUEST", w)
  | Some role =>
      if negb (validRole role) then (Refused 400 "INVALID_REQUEST", w)
      else protected_target w session id true (λ _ w, changed session "user.role_change" (SetUserRole w id role) (λ user, user))
  end.

Definition updateUserStatus w (session : Session) (id : string) (status : option string) : reply UserRow * Console R :=
  match status with
  | None => (Refused 400 "INVALID_REQUEST", w)
  | Some status =>
      if negb (bool_decide (status = "active" ∨ status = "disabled")) then (Refused 400 "INVALID_REQUEST", w)
      else protected_target w session id (bool_decide (status = "disabled")) (λ _ w,
             changed session (if bool_decide (status = "active") then "user.enable" else "user.disable")
               (SetUserStatus w id status) (λ user, user))
  end.

Definition resetUserPassword w (session : Session) (id : string) (password : option string) : reply unit * Console R :=
  match password with
  | None => (Refused 400 "INVALID_REQUEST", w)
  | Some password =>
      if (String.length password <? minimumResetPasswordSize)%nat then (Refused 400 "INVALID_REQUEST", w)
      else match findUserTarget w id with
      | (Refused status code, w) => (Refused status code, w)
      | (Reply target, w) =>
          let '(hash, g) := Hash (co_rng w) password in
          let w := set_random w g in
          match hash with
          | Err _ => (Refused 500 "INTERNAL_ERROR", w)
          | Ok hash =>
              match ResetLocalPassword w (lc_Username target) hash with
              | (Some err, w) => let '(status, code) := userStoreError err in (Refused status code, w)
              | (None, w) =>
                  (Reply tt, recordAudit (InvalidateForAdmin w (lc_AdminID target)) session "user.password_reset_admin" (lc_AdminID target))
              end
          end
      end
  end.

Definition deleteUser w (session : Session) (id : string) : reply unit * Console R :=
  protected_target w session id true (λ target w,
    match DeleteLocalUser w id with
    | (Some err, w) => let '(status, code) := userStoreError err in (Refused status code, w)
    | (None, w) => (Reply tt, recordAudit (InvalidateForAdmin w (lc_AdminID target)) session "user.delete" (lc_AdminID target))
    end).
End Console.

(** ** The last administrator *)

(** One row per account and at least one active tenant administrator. *)
Definition governed (users : list UserRow) : Prop :=
  NoDup (us_ID <$> users) ∧ (0 < length (filter active_admin users))%nat.

(** The account can lose its power: another administrator remains. *)
Definition expendable (users : list UserRow) (id : string) : Prop :=
  ∀ row, row ∈ users → us_ID row = id → active_admin row → (1 < length (filter active_admin users))%nat.

Lemma admins_cons row users :
  length (filter active_admin (row :: users)) =
  ((if decide (active_admin row) then 1 else 0) + length (filter active_admin users))%nat.
Proof. rewrite filter_cons. by case_decide. Qed.

Lemma change_ids (P : UserRow → Prop) `{!∀ row, Decision (P row)} change users :
  (∀ row, us_ID (change row) = us_ID row) → us_ID <$> (update_rows P change users).2 = us_ID <$> users.
Proof.
  intros Hc. simpl. rewrite <- list_fmap_compose. apply list_fmap_ext. intros i row _. simpl. case_decide; [apply Hc|done].
Qed.

(** A change that takes no administrator away. *)
Lemma governed_change (P : UserRow → Prop) `{!∀ row, Decision (P row)} change users :
  (∀ row, us_ID (change row) = us_ID row) → (∀ row, active_admin row → active_admin (change row)) →
  governed users → governed (update_rows P change users).2.
Proof.
  intros Hi Ha [Hn Hl]. split; [by rewrite change_ids|]. simpl.
  assert (length (filter active_admin users) <= length (filter active_admin (map (λ row, if decide (P row) then change row else row) users)))%nat; [|lia].
  clear -Ha. induction users as [|row users IH]; [done|]. simpl. rewrite !admins_cons.
  destruct (decide (P row)), (decide (active_admin row)) as [Hr|]; repeat case_decide; try lia; by (apply Ha in Hr).
Qed.

(** A change of one account takes at most its own power away. *)
Lemma admins_change_one id change users :
  NoDup (us_ID <$> users) →
  (length (filter active_admin users) <=
   length (filter active_admin (map (λ row, if decide (us_ID row = id) then change row else row) users)) +
   (if decide (Exists (λ row, us_ID row = id ∧ active_admin row) users) then 1 else 0))%nat.
Proof.
  induction users as [|row users IH]; intros Hn; [simpl; lia|]. rewrite fmap_cons, NoDup_cons in Hn. destruct Hn as [Hr Hn].
  specialize (IH Hn). simpl. rewrite !admins_cons. destruct (decide (us_ID row = id)) as [Hid|Hid].
  - assert (¬ Exists (λ row, us_ID row = id ∧ active_admin row) users) as Hno.
    { intros (r & Hin & Hri & _)%Exists_exists. apply Hr. apply list_elem_of_fmap. exists r. split; [congruence|done]. }
    rewrite decide_False in IH by exact Hno. destruct (decide (active_admin row)) as [Ha|]; repeat case_decide; try lia.
    all: exfalso; eauto using Exists_cons_hd.
  - assert (Exists (λ row, us_ID row = id ∧ active_admin row) (row :: users) ↔
            Exists (λ row, us_ID row = id ∧ active_admin row) users) as Hex.
    { rewrite Exists_cons. naive_solver. }
    destruct (decide (Exists _ users)), (decide (Exists _ (row :: users))); try (exfalso; tauto); repeat case_decide; lia.
Qed.

Lemma admins_delete_one id users :
  filter active_admin (filter (λ row, us_ID row ≠ id) users) =
  filter active_admin (map (λ row, if decide (us_ID row = id) then with_status "disabled" row else row) users).
Proof.
  induction users as [|row users IH]; [done|]. rewrite filter_cons. simpl. destruct (decide (us_ID row = id)) as [Hid|Hid].
  - rewrite decide_False by naive_solver. rewrite (filter_cons _ (with_status _ _)), decide_False; [done|]. by intros [_ [=]].
  - rewrite decide_True by done. rewrite !filter_cons. case_decide; by rewrite IH.
Qed.

Lemma expendable_room id users :
  expendable users id → (0 < length (filter active_admin users))%nat →
  ((if decide (Exists (λ row, us_ID row = id ∧ active_admin row) users) then 1 else 0) < length (filter active_admin users))%nat.
Proof.
  intros He Hl. case_decide as Hx; [|lia]. apply Exists_exists in Hx as (row & Hin & Hid & Ha). by apply (He row).
Qed.

Lemma governed_change_one id change users :
  (∀ row, us_ID (change row) = us_ID row) → governed users → expendable users id →
  governed (update_rows (λ row, us_ID row = id) change users).2.
Proof.
  intros Hi [Hn Hl] He. split; [by rewrite change_ids|]. pose proof (expendable_room _ _ He Hl).
  pose proof (admins_change_one id change users Hn). simpl. lia.
Qed.

Lemma governed_delete_one id users :
  governed users → expendable users id → governed (filter (λ row, us_ID row ≠ id) users).
Proof.
  intros [Hn Hl] He. pose proof (expendable_room _ _ He Hl).
  pose proof (admins_change_one id (with_status "disabled") users Hn) as Hc. split; [|rewrite admins_delete_one; lia].
  eapply sublist_NoDup; [exact Hn|]. apply fmap_sublist, sublist_filter.
Qed.

Section Governance.
Context {R : Type} `{!Reader R} `{!Passwords R} `{!MailParser} `{!RandInt R}.
Implicit Types (w : Console R).

(** An operation that leaves the accounts alone, and one that keeps them governed. *)
Definition still {A} (r : A * Console R) w : Prop := co_users r.2 = co_users w ∧ co_tenants r.2 = co_tenants w.
Definition keeps {A} (r : A * Console R) w : Prop := governed (co_users w) → governed (co_users r.2).

Lemma still_keeps {A} (r : A * Console R) w : still r w → keeps r w.
Proof. intros [Hs _]. unfold keeps. by rewrite Hs. Qed.

Lemma still_fault w : still (fault w) w.
Proof. unfold still, fault. by destruct (co_faults w). Qed.

Lemma still_select {A} w (read : Console R → result A) : still (select w read) w.
Proof. unfold select. pose proof (still_fault w). by destruct (fault w) as [[e|] w1]. Qed.

Lemma select_ok {A} w (read : Console R → result A) a w' :
  select w read = (Ok a, w') → still (Ok a, w') w ∧ read w' = Ok a.
Proof.
  unfold select. pose proof (still_fault w) as Hf. destruct (fault w) as [[e|] w1]; [done|]. by intros [= Hr <-].
Qed.

Lemma still_audit w row : still (audit w row) w.
Proof. unfold audit. pose proof (still_fault w). by destruct (fault w) as [[e|] w1]. Qed.

Lemma still_live w now r : still (live_session w now r) w.
Proof. unfold live_session. by repeat case_match. Qed.

Lemma still_Authorize w now r : still (Authorize w now r) w.
Proof. unfold Authorize. pose proof (still_live w now r). destruct (live_session w now r) as [[[h s]|e] w1]; [by case_match|done]. Qed.

Lemma still_create w now ttl session : still (session_Create w now ttl session) w.
Proof. unfold session_Create, token. by repeat (case_match; simplify_eq/=). Qed.

Lemma still_destroy w r : co_users (Destroy w r) = co_users w ∧ co_tenants (Destroy w r) = co_tenants w.
Proof. unfold Destroy. by case_match. Qed.

Lemma still_invalidate w id : co_users (InvalidateForAdmin w id) = co_users w ∧ co_tenants (InvalidateForAdmin w id) = co_tenants w.
Proof. unfold InvalidateForAdmin. by case_match. Qed.

Lemma still_record w session action id :
  co_users (recordAudit w session action id) = co_users w ∧ co_tenants (recordAudit w session action id) = co_tenants w.
Proof. unfold recordAudit. case_match; [done|]. apply still_audit. Qed.

Lemma keeps_update {A} w (run : list UserRow → result A * list UserRow) :
  (governed (co_users w) → governed (run (co_users w)).2) → keeps (update w run) w.
Proof.
  intros Hr Hg. unfold update. pose proof (still_fault w) as [Hf _]. destruct (fault w) as [[e|] w1]; simpl in *; [by rewrite Hf|].
  rewrite <- Hf in Hr, Hg. specialize (Hr Hg). by destruct (run _).
Qed.

Lemma keeps_change w id change :
  (∀ row, us_ID (change row) = us_ID row) →
  (∀ row, active_admin row → active_admin (change row)) ∨ expendable (co_users w) id →
  keeps (change_user w id change) w.
Proof.
  intros Hi Hc Hg. unfold change_user.
  assert (keeps (update w (λ users, let '(n, users0) := update_rows (λ row, us_ID row = id) change users in (Ok n, users0))) w) as Hk.
  { apply keeps_update. intros Hg'. destruct Hc; [by apply governed_change|by apply governed_change_one]. }
  specialize (Hk Hg). destruct (update _ _) as [[n|e] w1]; simpl in *; [|done]. destruct (n =? 0)%nat; [done|].
  pose proof (still_select w1 (λ w, match filter (λ row, us_ID row = id) (co_users w) with row :: _ => Ok row | [] => Err ErrLocalUserNotFound end)) as [Hs _].
  unfold findUser. by rewrite Hs.
Qed.

Lemma keeps_password w username hash : keeps (ResetLocalPassword w username hash) w.
Proof.
  intros Hg. unfold ResetLocalPassword.
  assert (keeps (update w (λ users, let '(n, users0) := update_rows (λ row, us_Username row = username ∧ us_Status row = "active")
    (with_password hash) users in (Ok n, users0))) w) as Hk.
  { apply keeps_update. intros Hg'. apply governed_change; [done| |done]. done. }
  specialize (Hk Hg). by destruct (update _ _) as [[n|e] w1].
Qed.

Lemma keeps_delete w id : expendable (co_users w) id → keeps (DeleteLocalUser w id) w.
Proof.
  intros He Hg. unfold DeleteLocalUser.
  assert (keeps (update w (λ users, (Ok (length (filter (λ row, us_ID row = id) users)), filter (λ row, us_ID row ≠ id) users))) w) as Hk.
  { apply keeps_update. intros Hg'. by apply governed_delete_one. }
  specialize (Hk Hg). by destruct (update _ _) as [[n|e] w1].
Qed.

Lemma keeps_create w user : keeps (CreateLocalUser w user) w.
Proof.
  intros Hg. unfold CreateLocalUser.
  match goal with |- context [update w ?run] => assert (keeps (update w run) w) as Hk end.
  { apply keeps_update. intros [Hn Hl]. destruct (existsb _ _) eqn:Hx; [done|]. split; simpl.
    - rewrite fmap_app. apply NoDup_app. split_and!; [done| |apply NoDup_singleton].
      intros id (row & -> & Hin)%list_elem_of_fmap Hid%list_elem_of_singleton.
      assert (existsb (λ row, bool_decide (us_ID row = us_ID user) || bool_decide (us_Username row = us_Username user)) (co_users w) = true); [|congruence].
      apply existsb_exists. exists row. split; [by apply list_elem_of_In|]. by rewrite bool_decide_eq_true_2.
    - rewrite filter_app, length_app. lia. }
  specialize (Hk Hg). destruct (update _ _) as [[[]|e] w1]; simpl in *; [done| |done].
  pose proof (still_select w1 (λ w, match filter (λ row, us_ID row = us_ID user) (co_users w) with row :: _ => Ok row | [] => Err ErrLocalUserNotFound end)) as [Hs _].
  unfold findUser. by rewrite Hs.
Qed.

(** The target of a lookup is the account of that id. *)
Lemma find_target w id target w' :
  NoDup (us_ID <$> co_users w) → findUserTarget w id = (Reply target, w') →
  still (tt, w') w ∧ ∃ row, row ∈ co_users w ∧ us_ID row = id ∧ credential_of (co_tenants w) row = Some target ∧
    ∀ row', row' ∈ co_users w → us_ID row' = id → row' = row.
Proof.
  intros Hn. unfold findUserTarget, FindLocalUserByID. destruct (select _ _) as [[c|e] w1] eqn:Hs; [|by case_match].
  intros [= <- <-]. apply select_ok in Hs as [[Hu Ht] Hr]. simpl in Hu, Ht. rewrite Hu, Ht in Hr. split; [by split|].
  destruct (omap _ _) as [|c' cs] eqn:Ho; [done|]. injection Hr as ->.
  assert (c ∈ omap (credential_of (co_tenants w)) (filter (λ row, us_ID row = id) (co_users w))) as Hc by (rewrite Ho; by left).
  apply list_elem_of_omap in Hc as (row & [Hid Hin]%list_elem_of_filter & Hc). exists row. split_and!; try done.
  intros row' Hin' Hid'. apply list_elem_of_lookup in Hin as [i Hi], Hin' as [j Hj]. rewrite NoDup_alt in Hn.
  assert (i = j) as ->; [|congruence]. apply (Hn i j id); rewrite list_lookup_fmap; [rewrite Hi|rewrite Hj]; simpl; congruence.
Qed.

Lemma credential_fields tenants row c :
  credential_of tenants row = Some c → lc_AdminID c = us_ID row ∧ lc_Role c = us_Role row ∧ lc_Status c = us_Status row ∧
    lc_Username c = us_Username row ∧ lc_PasswordHash c = us_PasswordHash row.
Proof.
  unfold credential_of. case_bool_decide; [by intros [= <-]|]. destruct (first_tenant tenants); [|done]. by intros [= <-].
Qed.

Lemma keeps_protected {A} w session id needed (k : LocalCredential → Console R → reply A * Console R) :
  (∀ target w', co_users w' = co_users w → needed = false ∨ expendable (co_users w') id → keeps (k target w') w') →
  keeps (protected_target w session id needed k) w.
Proof.
  intros Hk Hg. unfold protected_target. destruct (findUserTarget w id) as [[target|status code] w1] eqn:Hf.
  - apply find_target in Hf as [[Hu _] (row & Hin & Hid & Hc & Hone)]; [|apply Hg]. simpl in Hu.
    apply credential_fields in Hc as (_ & Hr & Hst & _). case_bool_decide; [simpl; by rewrite Hu|].
    destruct (needed && isLastActiveAdmin target) eqn:Hn.
    + unfold lastAdminAllows, CountActiveAdmins. destruct (select w1 _) as [[n|e] w2] eqn:Hs.
      * apply select_ok in Hs as [[Hu2 _] Hcount]. simpl in Hu2. injection Hcount as <-.
        destruct (1 <? length (filter active_admin (co_users w2)))%nat eqn:Hlt; simpl; [|congruence].
        apply Hk; [congruence| |by rewrite Hu2, Hu]. right. intros row' _ _ _. by apply Nat.ltb_lt.
      * pose proof (still_select w1 (λ w, Ok (length (filter active_admin (co_users w))))) as [Hu2 _]. rewrite Hs in Hu2. simpl in *. congruence.
    + apply Hk; [done| |by rewrite Hu]. destruct needed; [|by left]. right. intros row' Hin' Hid' Ha. rewrite Hu in Hin'.
      rewrite (Hone row' Hin' Hid') in Ha. simpl in Hn. unfold isLastActiveAdmin in Hn. rewrite bool_decide_eq_false in Hn.
      exfalso. apply Hn. rewrite Hr, Hst. done.
  - unfold findUserTarget, FindLocalUserByID in Hf.
    match type of Hf with context [select w ?read] => pose proof (still_select w read) as [Hu _]; destruct (select w read) as [[c|e] w2] end; [done|].
    simpl in *. assert (w1 = w2) as -> by (by destruct (errors_is _ _); injection Hf). by rewrite Hu.
Qed.

Lemma keeps_changed {A} w session action (r : result UserRow * Console R) (answer : UserRow → A) :
  keeps r w → keeps (changed session action r answer) w.
Proof.
  intros Hr Hg. specialize (Hr Hg). unfold changed. destruct r as [[user|e] w1]; [|by destruct (userStoreError e)].
  simpl. by rewrite (proj1 (still_record _ _ _ _)), (proj1 (still_invalidate _ _)).
Qed.

(** ** Histories of the console *)

Inductive console_op :=
| op_login (now later ttl : Z) (ip : string) (body : option (string * string))
| op_logout (now : Z) (r : Request)
| op_emergency (now : Z) (bootstrapToken : string) (r : Request) (body : option (string * string))
| op_change (now : Z) (r : Request) (body : option (string * string))
| op_forgot (now : Z) (enabled : bool) (ip : string) (body : option string) (sent : option error)
| op_confirm (now : Z) (enabled : bool) (body : option (string * string * string))
| op_switch (now : Z) (r : Request) (tenantID : string)
| op_create (now : Z) (r : Request) (body : option (string * string * string * string))
| op_email (now : Z) (r : Request) (id : string) (email : option string)
| op_my_email (session : Session) (email : option string)
| op_role (now : Z) (r : Request) (id : string) (role : option string)
| op_status (now : Z) (r : Request) (id : string) (status : option string)
| op_password (now : Z) (r : Request) (id : string) (password : option string)
| op_delete (now : Z) (r : Request) (id : string)
| op_outage (faults : list (option error)).

Definition console_step w (op : console_op) : Console R :=
  match op with
  | op_login now later ttl ip body => (login w now later ttl ip body).2
  | op_logout now r => (logout w now r).2
  | op_emergency now bootstrapToken r body => (resetPassword w now bootstrapToken r body).2
  | op_change now r body => (changePassword w now r body).2
  | op_forgot now enabled ip body sent => (forgotPassword w now enabled ip body sent).2
  | op_confirm now enabled body => (confirmPasswordReset w now enabled body).2
  | op_switch now r tenantID => (SwitchTenant w now r tenantID).2
  | op_create now r body => (admin_route w now r (λ s w, createUser w now s body)).2
  | op_email now r id email => (admin_route w now r (λ s w, updateUserEmail w s id email)).2
  | op_my_email session email => (updateMyEmail w session email).2
  | op_role now r id role => (admin_route w now r (λ s w, updateUserRole w s id role)).2
  | op_status now r id status => (admin_route w now r (λ s w, updateUserStatus w s id status)).2
  | op_password now r id password => (admin_route w now r (λ s w, resetUserPassword w s id password)).2
  | op_delete now r id => (admin_route w now r (λ s w, deleteUser w s id)).2
  | op_outage faults => set_faults w faults
  end.

Lemma keeps_route {A} w now r (k : Session → Console R → reply A * Console R) :
  (∀ s w', keeps (k s w') w') → keeps (admin_route w now r k) w.
Proof.
  intros Hk Hg. unfold admin_route. pose proof (still_Authorize w now r) as [Hu _].
  destruct (Authorize w now r) as [[s|e] w1]; simpl in *; [|by rewrite Hu]. rewrite <- Hu in Hg.
  do 2 (case_bool_decide; [done|]). destruct (Allow _ _ _ _) as [[] l]; simpl; [|done]. case_bool_decide; [|done]. by apply Hk.
Qed.

Lemma still_verify w username password : still (verify_login w username password) w.
Proof.
  unfold verify_login. case_bool_decide; [done|]. unfold FindLocalCredential.
  match goal with |- context [select w ?read] => pose proof (still_select w read) as Hs; destruct (select w read) as [[c|e] w1] end; [|done].
  by repeat case_match.
Qed.

Lemma still_login w now later ttl ip body : still (login w now later ttl ip body) w.
Proof.
  unfold login. destruct body as [[username password]|]; [|done]. destruct (IPAllowed _ _ _) as [[] l]; [|done]. simpl.
  pose proof (still_verify (set_login w l) username password) as [Hu Ht]. unfold still.
  destruct (verify_login _ _ _) as [[session|e] w1]; simpl in *.
  - pose proof (still_audit w1 (se_AdminID session, "auth.login", se_Username session)) as [Hu1 Ht1].
    destruct (audit w1 _) as [[e|] w2]; simpl in *; [split; congruence|].
    pose proof (still_create w2 later ttl session) as [Hu2 Ht2]. destruct (session_Create _ _ _ _) as [[c|e] w3]; simpl in *; split; congruence.
  - destruct (AccountBlocked _ _ _ _) as [blocked l'].
    match goal with |- context [audit ?x ?row] => pose proof (still_audit x row) as [Hu1 Ht1]; destruct (audit x row) as [[e'|] w2] end;
      simpl in *; split; congruence.
Qed.

Lemma still_find w username : still (FindLocalCredential w username) w.
Proof. apply still_select. Qed.
Lemma still_find_id w id : still (FindLocalUserByID w id) w.
Proof. apply still_select. Qed.

(** The end of a password change: it keeps the accounts governed. *)
Lemma keeps_emergency w now bootstrapToken r body : keeps (resetPassword w now bootstrapToken r body) w.
Proof.
  intros Hg. unfold resetPassword. destruct (negb _); [done|]. destruct body as [[username password]|]; [|done]. destruct (_ || _); [done|].
  pose proof (still_Authorize w now r) as [Hu _]. destruct (Authorize w now r) as [session w1]. simpl in Hu. rewrite <- Hu in Hg.
  match goal with |- context [match ?x with Reply _ => _ | Refused _ _ => _ end] => destruct x as [actor|status code] end; [|done].
  destruct (Hash _ _) as [[hash|] g]; [|done].
  pose proof (keeps_password (set_random w1 g) username hash Hg) as Hk. destruct (ResetLocalPassword _ _ _) as [[e|] w2]; [done|]. simpl in Hk.
  pose proof (still_find w2 username) as [Hf _]. destruct (FindLocalCredential w2 username) as [found w3]. simpl in Hf.
  match goal with |- context [audit ?x ?row] => pose proof (still_audit x row) as [Ha _]; destruct (audit x row) as [[e'|] w4] end; simpl in *;
    rewrite Ha; destruct found; rewrite ?(proj1 (still_invalidate _ _)), Hf; done.
Qed.

Lemma keeps_change_password w now r body : keeps (changePassword w now r body) w.
Proof.
  intros Hg. unfold changePassword. pose proof (still_Authorize w now r) as [Hu _].
  destruct (Authorize w now r) as [[session|e] w1]; simpl in *; [|by rewrite Hu]. rewrite <- Hu in Hg.
  destruct body as [[old new]|]; [|done]. destruct (_ || _); [done|].
  pose proof (still_find_id w1 (se_AdminID session)) as [Hf _]. destruct (FindLocalUserByID _ _) as [[c|e] w2]; simpl in *; [|by rewrite Hf].
  rewrite <- Hf in Hg. destruct (VerifyPassword _ _) as [[]|]; [|done|done]. destruct (Hash _ _) as [[hash|] g]; [|done].
  pose proof (keeps_password (set_random w2 g) (lc_Username c) hash Hg) as Hk. destruct (ResetLocalPassword _ _ _) as [[e|] w3]; [done|]. simpl in Hk.
  match goal with |- context [audit ?x ?row] => pose proof (still_audit x row) as [Ha _]; destruct (audit x row) as [[e'|] w4] end; simpl in *;
    by rewrite Ha, (proj1 (still_invalidate _ _)).
Qed.

Lemma still_Forgot w now username sent : still (Forgot w now username sent) w.
Proof.
  unfold Forgot. pose proof (still_find w username) as [Hu Ht]. destruct (FindLocalCredential w username) as [[c|e] w1]; simpl in *; [|done].
  case_bool_decide; [done|]. unfold newResetCode. destruct (rand_Int _ _) as [[n|] g]; [|done]. destruct sent; [done|]. unfold still.
  match goal with |- context [audit ?x ?row] => pose proof (still_audit x row) as [Ha Hb] end. simpl in *. rewrite Ha, Hb. done.
Qed.

Lemma keeps_apply w username password : keeps (apply_reset w username password) w.
Proof.
  intros Hg. unfold apply_reset. pose proof (still_find w username) as [Hu _].
  destruct (FindLocalCredential w username) as [[c|e] w1]; simpl in *; [|by rewrite Hu]. rewrite <- Hu in Hg.
  case_bool_decide; [done|]. destruct (Hash _ _) as [[hash|] g]; [|done].
  pose proof (keeps_password (set_random w1 g) username hash Hg) as Hk. destruct (ResetLocalPassword _ _ _) as [[e|] w2]; [done|]. simpl in *.
  by rewrite (proj1 (still_audit _ _)), (proj1 (still_invalidate _ _)).
Qed.

Lemma keeps_reset_user w session id password : keeps (resetUserPassword w session id password) w.
Proof.
  intros Hg. unfold resetUserPassword. destruct password as [password|]; [|done]. case_match; [done|].
  unfold findUserTarget. pose proof (still_find_id w id) as [Hu _]. destruct (FindLocalUserByID w id) as [[c|e] w1]; simpl in *;
    [|destruct (errors_is _ _); simpl; by rewrite Hu]. rewrite <- Hu in Hg. destruct (Hash _ _) as [[hash|] g]; [|done].
  pose proof (keeps_password (set_random w1 g) (lc_Username c) hash Hg) as Hk. destruct (ResetLocalPassword _ _ _) as [[e|] w2];
    [by destruct (userStoreError e)|]. simpl in *. by rewrite (proj1 (still_record _ _ _ _)), (proj1 (still_invalidate _ _)).
Qed.

Lemma keeps_email w session id email : keeps (updateUserEmail w session id email) w.
Proof.
  intros Hg. unfold updateUserEmail. destruct email as [email|]; [|done]. case_match; [done|].
  unfold findUserTarget. pose proof (still_find_id w id) as [Hu _]. destruct (FindLocalUserByID w id) as [[c|e] w1]; simpl in *;
    [|destruct (errors_is _ _); simpl; by rewrite Hu]. rewrite <- Hu in Hg. revert Hg. apply keeps_changed, keeps_change; [done|by left].
Qed.

Lemma keeps_create_user w now session body : keeps (createUser w now session body) w.
Proof.
  intros Hg. unfold createUser. destruct body as [[[[username password] role] email]|]; [|done]. destruct (_ || _); [done|].
  destruct (Hash _ _) as [[hash|] g]; [|done]. destruct (id_New _) as [[id|] g']; [|done]. cbv zeta beta iota.
  destruct (CreateLocalUser _ _) as [r w1] eqn:Hc.
  assert (governed (co_users (r, w1).2)) as Hk; [rewrite <- Hc; apply keeps_create; exact Hg|]. simpl in Hk.
  destruct r as [user|e]; simpl; [by rewrite (proj1 (still_record _ _ _ _))|done].
Qed.

Lemma console_step_governed w op : governed (co_users w) → governed (co_users (console_step w op)).
Proof.
  destruct op; simpl; try (apply keeps_route; intros s w').
  - apply still_keeps, still_login.
  - intros Hg. unfold logout. pose proof (still_Authorize w now r) as [Hu _]. destruct (Authorize w now r) as [[s|e] w1]; simpl in *;
      rewrite ?(proj1 (still_destroy _ _)), Hu; done.
  - apply keeps_emergency.
  - apply keeps_change_password.
  - intros Hg. unfold forgotPassword. destruct body as [username|]; [|done]. destruct (_ || _); [done|]. destruct (AllowSend _ _ _ _) as [[] l]; [|done].
    destruct enabled; [|done]. simpl. pose proof (still_Forgot (set_reset w l) now username sent) as [Hu _].
    destruct (Forgot _ _ _ _) as [[e|] w1]; simpl in *; by rewrite Hu.
  - intros Hg. unfold confirmPasswordReset. destruct body as [[[username code] password]|]; [|done]. destruct (_ || _); [done|].
    destruct enabled; [|done]. simpl. unfold Confirm. destruct (check_code _ _ _ _) as [[] codes]; [|done]. simpl.
    pose proof (keeps_apply (set_codes (set_codes w codes) (delete username codes)) username password Hg) as Hk.
    by destruct (apply_reset _ _ _) as [[e|] w1].
  - intros Hg. unfold SwitchTenant. pose proof (still_live w now r) as [Hu _]. destruct (live_session w now r) as [[[h st]|e] w1]; simpl in *; by rewrite Hu.
  - apply keeps_create_user.
  - apply keeps_email.
  - unfold updateMyEmail. intros Hg. destruct email as [email|]; [|done]. case_match; [done|].
    revert Hg. apply keeps_changed, keeps_change; [done|by left].
  - unfold updateUserRole. intros Hg. destruct role as [role|]; [|done]. case_match; [done|]. revert Hg. apply keeps_protected.
    intros target w1 _ [|He]; [done|]. apply keeps_changed, keeps_change; [done|by right].
  - unfold updateUserStatus. intros Hg. destruct status as [status|]; [|done]. case_match; [done|]. revert Hg. apply keeps_protected.
    intros target w1 _ He. apply keeps_changed, keeps_change; [done|]. destruct He as [Hn|He]; [left|by right].
    rewrite bool_decide_eq_false in Hn. match goal with H : negb _ = false |- _ => apply negb_false_iff, bool_decide_eq_true in H as [->|?] end; [|done].
    intros row [Hr _]. by split.
  - apply keeps_reset_user.
  - unfold deleteUser. apply keeps_protected. intros target w1 _ [|He]; [done|]. intros Hg.
    pose proof (keeps_delete w1 id He Hg) as Hk. destruct (DeleteLocalUser w1 id) as [[e|] w2]; simpl in *; [by destruct (userStoreError e)|].
    by rewrite (proj1 (still_record _ _ _ _)), (proj1 (still_invalidate _ _)).
  - done.
Qed.

(** C34: the last administrator is protected.  From accounts with distinct ids and at
    least one active tenant administrator, no sequence of logins, password changes and
    changes of the user directory, by whomever and whichever statements fail, leaves
    the console without an active tenant administrator. *)
Theorem last_admin_protected w ops :
  governed (co_users w) → ∃ row, row ∈ co_users (foldl console_step w ops) ∧ active_admin row.
Proof.
  intros Hg. assert (governed (co_users (foldl console_step w ops))) as [_ Hl].
  { revert w Hg. induction ops as [|op ops IH]; intros w Hg; [done|]. simpl. by apply IH, console_step_governed. }
  destruct (filter active_admin _) as [|row rows] eqn:Hf; [simpl in Hl; lia|].
  exists row. assert (row ∈ filter active_admin (co_users (foldl console_step w ops))) as [Ha Hin]%list_elem_of_filter; [|done].
  rewrite Hf. by left.
Qed.

(** ** Sessions end with the account's power *)

(** No request is accepted in the name of the account. *)
Definition ended w (id : string) : Prop := ∀ now r s, (Authorize w now r).1 = Ok s → se_AdminID s ≠ id.

Lemma Authorize_stored w now r s :
  (Authorize w now r).1 = Ok s → ∃ hash stored, co_sessions w !! hash = Some stored ∧ ss_Session stored = s ∧ now <= ss_ExpiresAt stored.
Proof.
  unfold Authorize, live_session. destruct (rq_Cookie r) as [cookie|]; [|done].
  destruct (co_sessions w !! hash_of cookie) as [stored|] eqn:Hl; [|done]. destruct (Z.ltb_spec (ss_ExpiresAt stored) now); [done|].
  destruct (_ && _); [done|]. intros [= <-]. by exists (hash_of cookie), stored.
Qed.

Lemma ended_invalidate w id : id ≠ "" → ended (InvalidateForAdmin w id) id.
Proof.
  intros Hid now r s (hash & stored & Hl & <- & _)%Authorize_stored. unfold InvalidateForAdmin in Hl.
  rewrite bool_decide_eq_false_2 in Hl by done. by apply map_lookup_filter_Some in Hl as [_ ?].
Qed.

Lemma ended_sessions w w' id : co_sessions w' = co_sessions w → ended w id → ended w' id.
Proof.
  intros Hs He now r s Ha. apply (He now r s). revert Ha. unfold Authorize, live_session. rewrite Hs.
  destruct (rq_Cookie r); [|done]. destruct (co_sessions w !! _); [|done]. destruct (_ <? _); [done|]. by destruct (_ && _).
Qed.

Lemma audit_sessions w row : co_sessions (audit w row).2 = co_sessions w.
Proof. unfold audit, fault. by repeat (case_match; simplify_eq/=). Qed.

Lemma ended_record w session action id id' : ended w id → ended (recordAudit w session action id') id.
Proof. intros He. eapply ended_sessions; [|exact He]. unfold recordAudit. case_bool_decide; [done|]. apply audit_sessions. Qed.

Lemma change_user_ok w id change user w' : change_user w id change = (Ok user, w') → us_ID user = id.
Proof.
  unfold change_user. destruct (update _ _) as [[n|e] w1]; [|done]. destruct (n =? 0)%nat; [done|].
  unfold findUser. intros [_ Hr]%select_ok. destruct (filter _ _) as [|row rows] eqn:Hf; [done|]. injection Hr as <-.
  assert (row ∈ filter (λ row, us_ID row = id) (co_users w')) as [? _]%list_elem_of_filter; [rewrite Hf; by left|done].
Qed.

Lemma ended_changed {A} session action w id change (answer : UserRow → A) a w' :
  id ≠ "" → changed session action (change_user w id change) answer = (Reply a, w') → ended w' id.
Proof.
  intros Hid. unfold changed. destruct (change_user _ _ _) as [[user|e] w1] eqn:Hc; [|by destruct (userStoreError e)].
  intros [= _ <-]. rewrite (change_user_ok _ _ _ _ _ Hc). by apply ended_record, ended_invalidate.
Qed.

Lemma target_id w id target w' : findUserTarget w id = (Reply target, w') → lc_AdminID target = id.
Proof.
  unfold findUserTarget, FindLocalUserByID. destruct (select _ _) as [[c|e] w1] eqn:Hs; [|by case_match].
  intros [= <- _]. apply select_ok in Hs as [_ Hr]. destruct (omap _ _) as [|c' cs] eqn:Ho; [done|]. injection Hr as ->.
  assert (c ∈ omap (credential_of (co_tenants w1)) (filter (λ row, us_ID row = id) (co_users w1))) as Hc by (rewrite Ho; by left).
  apply list_elem_of_omap in Hc as (row & [Hid _]%list_elem_of_filter & (Ha & _)%credential_fields). congruence.
Qed.

(** A change of an account ends its sessions.  When the user directory reports a
    changed role, status, address or password, or a deletion, no session of that
    account is accepted any more: nobody acts with the power or the password from
    before the change. *)
Theorem account_change_ends_sessions w session id :
  id ≠ "" →
  (∀ role user w', updateUserRole w session id role = (Reply user, w') → ended w' id) ∧
  (∀ status user w', updateUserStatus w session id status = (Reply user, w') → ended w' id) ∧
  (∀ email user w', updateUserEmail w session id email = (Reply user, w') → ended w' id) ∧
  (∀ password u w', resetUserPassword w session id password = (Reply u, w') → ended w' id) ∧
  (∀ u w', deleteUser w session id = (Reply u, w') → ended w' id).
Proof.
  intros Hid.
  assert (∀ A needed (k : LocalCredential → Console R → reply A * Console R) a w',
    protected_target w session id needed k = (Reply a, w') → ∃ target w1, lc_AdminID target = id ∧ k target w1 = (Reply a, w')) as Hp.
  { intros A needed k a w'. unfold protected_target. destruct (findUserTarget w id) as [[target|] w1] eqn:Hf; [|done].
    apply target_id in Hf. case_bool_decide; [done|]. destruct (_ && _); [|by eauto]. destruct (lastAdminAllows w1) as [[] w2]; [|done]. simpl. eauto. }
  split_and!.
  - intros [role|] user w'; [|done]. unfold updateUserRole. destruct (negb _); [done|].
    intros (target & w1 & _ & Hk)%Hp. by eapply ended_changed.
  - intros [status|] user w'; [|done]. unfold updateUserStatus. destruct (negb _); [done|].
    intros (target & w1 & _ & Hk)%Hp. by eapply ended_changed.
  - intros [email|] user w'; [|done]. unfold updateUserEmail. destruct (negb _); [done|].
    destruct (findUserTarget w id) as [[target|] w1]; [|done]. intros Hk. by eapply ended_changed.
  - intros [password|] u w'; [|done]. unfold resetUserPassword. destruct (_ <? _)%nat; [done|].
    destruct (findUserTarget w id) as [[target|] w1] eqn:Hf; [|done]. apply target_id in Hf. destruct (Hash _ _) as [[hash|] g]; [|done].
    destruct (ResetLocalPassword _ _ _) as [[e|] w2]; [by destruct (userStoreError e)|]. intros [= _ <-]. rewrite Hf.
    by apply ended_record, ended_invalidate.
  - intros u w'. unfold deleteUser. intros (target & w1 & Ht & Hk)%Hp. destruct (DeleteLocalUser w1 id) as [[e|] w2];
      [by destruct (userStoreError e)|]. injection Hk as _ <-. rewrite Ht. by apply ended_record, ended_invalidate.
Qed.

(** ** Guessing a reset code *)

Record guess := { gu_now : Z; gu_user : string; gu_code : string; gu_password : string }.

Fixpoint confirms w (guesses : list guess) : list (option error) :=
  match guesses with
  | [] => []
  | g :: guesses => let '(r, w) := Confirm w (gu_now g) (gu_user g) (gu_code g) (gu_password g) in r :: confirms w guesses
  end.

Lemma select_codes {A} w (read : Console R → result A) : co_codes (select w read).2 = co_codes w.
Proof. unfold select, fault. by destruct (co_faults w) as [|[e|] rest]. Qed.

Lemma apply_codes w username password : co_codes (apply_reset w username password).2 = co_codes w.
Proof.
  unfold apply_reset, FindLocalCredential.
  match goal with |- context [select w ?read] => pose proof (select_codes w read) as Hs; destruct (select w read) as [[c|e] w1] end; [|done].
  simpl in Hs. case_bool_decide; [done|]. destruct (Hash _ _) as [[hash|] g]; [|done]. unfold ResetLocalPassword, update, fault.
  cbn [set_random co_faults co_users]. destruct (co_faults w1) as [|[e|] rest]; simpl; [|done|].
  all: destruct (_ =? 1)%nat; simpl; [|done].
  all: unfold audit, fault, InvalidateForAdmin; by repeat (case_match; simplify_eq/=).
Qed.

(** The codes that a confirmation leaves, and whether it can succeed. *)
Lemma Confirm_codes w now username code password r w' :
  Confirm w now username code password = (r, w') →
  let '(matched, codes) := check_code (co_codes w) now username code in
  co_codes w' = (if matched then delete username codes else codes) ∧ (matched = false → r ≠ None).
Proof.
  unfold Confirm. destruct (check_code _ _ _ _) as [[] codes]; simpl.
  - intros Ha. pose proof (apply_codes (set_codes (set_codes w codes) (delete username codes)) username password) as Hc.
    rewrite Ha in Hc. by split.
  - intros [= <- <-]. by split.
Qed.

Lemma check_code_other codes now username code other :
  other ≠ username → (check_code codes now username code).2 !! other = codes !! other.
Proof.
  intros Hne. unfold check_code. repeat case_match; simpl; try done; by rewrite ?lookup_delete_ne, ?lookup_insert_ne.
Qed.

(** Without an entry no guess succeeds. *)
Lemma no_code_no_reset w guesses i g :
  co_codes w !! gu_user g = None → guesses !! i = Some g → confirms w guesses !! i ≠ Some None.
Proof.
  revert w i. induction guesses as [|g0 guesses IH]; intros w i Hn Hg; [done|]. simpl.
  destruct (Confirm _ _ _ _ _) as [r w1] eqn:Hc. apply Confirm_codes in Hc.
  destruct (check_code _ _ _ _) as [matched codes] eqn:Hk. destruct Hc as [Hcodes Hr].
  destruct i as [|i]; simpl in Hg |- *.
  - injection Hg as ->. unfold check_code in Hk. rewrite Hn in Hk. injection Hk as <- <-. intros [= ->]. by apply Hr.
  - apply IH; [|done]. rewrite Hcodes. destruct (decide (gu_user g = gu_user g0)) as [He|Hne].
    + rewrite <- He in *. unfold check_code in Hk. rewrite Hn in Hk. by injection Hk as <- <-.
    + pose proof (check_code_other (co_codes w) (gu_now g0) (gu_user g0) (gu_code g0) (gu_user g) Hne) as Ho. rewrite Hk in Ho. simpl in Ho.
      destruct matched; [rewrite lookup_delete_ne by done|]; congruence.
Qed.

Definition guesses_for (username : string) (guesses : list guess) : Z :=
  Z.of_nat (length (filter (λ g, gu_user g = username) guesses)).

Lemma guesses_cons username g guesses :
  guesses_for username (g :: guesses) = (if decide (gu_user g = username) then 1 else 0) + guesses_for username guesses.
Proof. unfold guesses_for. rewrite filter_cons. case_decide; simpl; lia. Qed.

Lemma reset_code_tries w username entry guesses i g :
  co_codes w !! username = Some entry → rce_tries entry < resetCodeMaxTries →
  guesses !! i = Some g → gu_user g = username → confirms w guesses !! i = Some None →
  hash_of (gu_code g) = rce_hash entry ∧ gu_now g < rce_expiresAt entry ∧
  rce_tries entry + guesses_for username (take i guesses) < resetCodeMaxTries ∧
  ∀ j g', (i < j)%nat → guesses !! j = Some g' → gu_user g' = username → confirms w guesses !! j ≠ Some None.
Proof.
  revert w entry i. induction guesses as [|g0 guesses IH]; intros w entry i He Ht Hg Hu Hok; [done|]. simpl in Hok |- *.
  destruct (Confirm _ _ _ _ _) as [r w1] eqn:Hc. apply Confirm_codes in Hc.
  destruct (check_code _ _ _ _) as [matched codes] eqn:Hk. destruct Hc as [Hcodes Hr].
  destruct i as [|i]; simpl in Hg, Hok.
  - injection Hg as ->. injection Hok as ->. destruct matched; [|by destruct (Hr eq_refl)].
    unfold check_code in Hk. rewrite Hu, He in Hk. destruct (Z.ltb_spec (gu_now g) (rce_expiresAt entry)); [|done].
    case_bool_decide as Hh; [|by destruct (_ <=? _)]. injection Hk as <-.
    split_and!; [done|done|unfold guesses_for; simpl; lia|].
    intros [|j] g' Hj Hg' Hu'; [lia|]. simpl in *. apply (no_code_no_reset _ _ _ g'); [|done]. by rewrite Hcodes, Hu', Hu, lookup_delete_eq.
  - destruct (decide (gu_user g0 = username)) as [Hu0|Hu0].
    + rewrite Hu0 in *. unfold check_code in Hk. rewrite He in Hk.
      destruct (Z.ltb_spec (gu_now g0) (rce_expiresAt entry)) as [Hx|Hx]; [case_bool_decide as Hh|].
      * injection Hk as <- <-. exfalso. apply (no_code_no_reset w1 guesses i g); [|done|done]. by rewrite Hcodes, Hu, lookup_delete_eq.
      * destruct (Z.leb_spec resetCodeMaxTries (rce_tries entry + 1)) as [Hm|Hm]; injection Hk as <- <-.
        { exfalso. apply (no_code_no_reset w1 guesses i g); [|done|done]. by rewrite Hcodes, Hu, lookup_delete_eq. }
        destruct (IH w1 (one_more_try entry) i) as (H1 & H2 & H3 & H4); [by rewrite Hcodes, lookup_insert_eq|simpl; lia|done|done|done|].
        simpl in H1, H2, H3. split_and!; [done|done| |].
        { change (take (S i) (g0 :: guesses)) with (g0 :: take i guesses). rewrite guesses_cons, decide_True by done. lia. }
        intros [|j] g' Hj Hg' Hu'; [lia|]. simpl in *. apply (H4 j g'); [lia|done|done].
      * injection Hk as <- <-. exfalso. apply (no_code_no_reset w1 guesses i g); [|done|done]. by rewrite Hcodes, Hu, lookup_delete_eq.
    + pose proof (check_code_other (co_codes w) (gu_now g0) (gu_user g0) (gu_code g0) username) as Ho. rewrite Hk in Ho. simpl in Ho.
      destruct (IH w1 entry i) as (H1 & H2 & H3 & H4); [|done|done|done|done|].
      { rewrite Hcodes. destruct matched; [rewrite lookup_delete_ne by done|]; rewrite Ho; done. }
      split_and!; [done|done| |].
      { change (take (S i) (g0 :: guesses)) with (g0 :: take i guesses). rewrite guesses_cons, decide_False by done. lia. }
      intros [|j] g' Hj Hg' Hu'; [lia|]. simpl in *. apply (H4 j g'); [lia|done|done].
Qed.

(** A reset code cannot be guessed at length.  Among any confirmations, by whomever
    and for whichever accounts, one succeeds for an account whose code was just sent
    only with a code of the same hash, before it expires, and only when fewer than
    five confirmations for the account came before it; and no later one succeeds with
    the same code. *)
Theorem reset_code_guarded w username entry guesses i g :
  co_codes w !! username = Some entry → rce_tries entry = 0 →
  guesses !! i = Some g → gu_user g = username → confirms w guesses !! i = Some None →
  hash_of (gu_code g) = rce_hash entry ∧ gu_now g < rce_expiresAt entry ∧
  guesses_for username (take i guesses) < resetCodeMaxTries ∧
  ∀ j g', (i < j)%nat → guesses !! j = Some g' → gu_user g' = username → confirms w guesses !! j ≠ Some None.
Proof.
  intros He Ht Hg Hu Hok. destruct (reset_code_tries w username entry guesses i g) as (Hh & Hx & Hn & Hl); try done.
  - unfold resetCodeMaxTries. lia.
  - split_and!; [done|done|lia|done].
Qed.
End Governance.

(** ** A console for the witnesses *)

#[local] Existing Instance counting_reader.
#[local] Instance marked_passwords : Passwords Z := {
  Hash g p := (Ok ("#" +:+ p), g);
  VerifyPassword p h := Ok (bool_decide (h = "#" +:+ p)) }.
#[local] Instance marked_passwords_laws : PasswordsLaws Z.
Proof. split. intros g g' p h [= <- _]. simpl. by rewrite bool_decide_eq_true_2. Qed.
#[local] Instance any_address : MailParser := { ParseAddress _ := true }.
#[local] Instance counted_codes : RandInt Z := { rand_Int g n := (Ok (g mod n), g + 1) }.

Definition account (id username role : string) : UserRow :=
  {| us_ID := id; us_Username := username; us_PasswordHash := "#" +:+ username; us_Role := role; us_Status := "active";
     us_Email := username +:+ "@example.com"; us_CreatedAt := 0 |}.

Definition new_console : Console Z :=
  {| co_users := [account "1" "root" RoleSystemAdmin; account "2" "alice" RoleTenantAdmin; account "3" "bob" RoleTenantAdmin];
     co_tenants := [{| te_ID := "t"; te_Status := "active"; te_CreatedAt := 0 |}]; co_faults := []; co_sessions := ∅; co_codes := ∅;
     co_login := NewLoginLimiter 0 0 0; co_reset := NewResetRateLimiter 0 0 0 0; co_admin := NewAdminRateLimiter 0 0 0;
     co_rng := 7; co_audit := [] |}.

Definition hours : Z := 12 * 3600 * second.

Definition signed_in (w : Console Z) (username password : string) : (string * string) * Console Z :=
  match login w 1 2 hours "10.0.0.1" (Some (username, password)) with (Reply c, w) => (c, w) | (_, w) => (("", ""), w) end.

Definition request (c : string * string) : Request :=
  {| rq_Method := "POST"; rq_Cookie := Some c.1; rq_CSRF := c.2; rq_Host := "10.0.0.1"; rq_BootstrapToken := ""; rq_ReauthToken := "" |}.

Definition alice : string * string := (signed_in new_console "alice" "alice").1.
Definition alice_in : Console Z := (signed_in new_console "alice" "alice").2.

(** Alice demotes bob, then tries to demote and to delete herself, and bob's login no
    longer counts as an administrator's. *)
Lemma last_admin_protected_witness :
  let ops := [op_role 3 (request alice) "3" (Some RoleViewer); op_role 4 (request alice) "2" (Some RoleViewer);
              op_delete 5 (request alice) "2"] in
  map us_Role (co_users (foldl console_step alice_in ops)) = [RoleSystemAdmin; RoleTenantAdmin; RoleViewer] ∧
  ∃ row, row ∈ co_users (foldl console_step alice_in ops) ∧ active_admin row.
Proof.
  intros ops. split; [vm_compute; reflexivity|]. apply (last_admin_protected alice_in ops).
  replace (co_users alice_in) with (co_users new_console) by (vm_compute; reflexivity).
  split; [|vm_compute; lia]. repeat (constructor; [set_solver|]). constructor.
Defined.

Definition bob_in : Console Z := (signed_in alice_in "bob" "bob").2.
Definition bob : string * string := (signed_in alice_in "bob" "bob").1.
Definition as_alice : Session :=
  {| se_AdminID := "2"; se_TenantID := "t"; se_Username := "alice"; se_Role := RoleTenantAdmin; se_AuthMethod := "local" |}.

Lemma account_change_ends_sessions_witness :
  is_ok (Authorize bob_in 3 (request bob)).1 = true ∧
  match updateUserRole bob_in as_alice "3" (Some RoleViewer) with (Reply _, w) => ended w "3" | _ => False end.
Proof.
  split; [vm_compute; reflexivity|].
  destruct (updateUserRole bob_in as_alice "3" (Some RoleViewer)) as [[user|status code] w] eqn:Hr.
  - destruct (account_change_ends_sessions bob_in as_alice "3") as (Hrole & _); [done|]. exact (Hrole _ _ _ Hr).
  - apply (f_equal (λ p, match p.1 with Reply _ => true | Refused _ _ => false end)) in Hr. vm_compute in Hr. discriminate.
Defined.

Definition code_sent : Console Z := (Forgot new_console 0 "bob" None).2.
Definition try_code (code : string) : guess := {| gu_now := 5; gu_user := "bob"; gu_code := code; gu_password := "a new password" |}.

Lemma reset_code_guarded_witness :
  let guesses := [try_code "000000"; try_code "000007"; try_code "000007"] in
  confirms code_sent guesses = [Some (ErrNew "invalid reset code"); None; Some (ErrNew "invalid reset code")] ∧
  hash_of "000007" = match co_codes code_sent !! "bob" with Some e => rce_hash e | None => [] end.
Proof.
  intros guesses. split; [vm_compute; reflexivity|].
  destruct (co_codes code_sent !! "bob") as [entry|] eqn:He; [|vm_compute in He; discriminate].
  apply (reset_code_guarded code_sent "bob" entry guesses 1 (try_code "000007")); [done| |done|done|vm_compute; reflexivity].
  vm_compute in He. by injection He as <-.
Defined.

(** ** Edges *)

(** A tenant's administrator can set the password of the system administrator's
    account: no handler of the directory looks at the target's role or tenant, and the
    system administrator's login follows. *)
Example tenant_admin_takes_system_admin :
  let '(r, w) := admin_route alice_in 3 (request alice) (λ s w, resetUserPassword w s "1" (Some "taken over")) in
  let '(c, w) := signed_in w "root" "taken over" in
  r = Reply tt ∧ (se_Role <$> match (Authorize w 4 (request c)).1 with Ok s => Some s | Err _ => None end) = Some RoleSystemAdmin.
Proof. vm_compute. done. Qed.

(** The role is stored before the row is read back: when that read fails, the handler
    answers with an error and the old session keeps the old role. *)
Example failed_read_keeps_the_session :
  let '(r, w) := updateUserRole (set_faults bob_in [None; None; None; Some (ErrNew "down")]) as_alice "3" (Some RoleViewer) in
  r = Refused 500 "INTERNAL_ERROR" ∧ map us_Role (co_users w) = [RoleSystemAdmin; RoleTenantAdmin; RoleViewer] ∧
  (se_Role <$> match (Authorize w 4 (request bob)).1 with Ok s => Some s | Err _ => None end) = Some RoleTenantAdmin.
Proof. vm_compute. done. Qed.

(** Two confirmations that have both passed the check before either consumes the code
    both set a password: consuming it does not decide who goes on. *)
Example confirmed_twice :
  let first := check_code (co_codes code_sent) 5 "bob" "000007" in
  let second := check_code first.2 5 "bob" "000007" in
  let consumed := set_codes code_sent (delete "bob" second.2) in
  let '(r, w) := apply_reset consumed "bob" "the first password" in
  let '(r', w) := apply_reset w "bob" "the second password" in
  first.1 = true ∧ second.1 = true ∧ r = None ∧ r' = None ∧
  (us_PasswordHash <$> co_users w !! 2%nat) = Some "#the second password".
Proof. vm_compute. done. Qed.

(** Two demotions that have both counted two administrators leave none. *)
Example concurrent_demotions :
  let counts := (lastAdminAllows bob_in).1 in
  let w := (SetUserRole (SetUserRole bob_in "2" RoleViewer).2 "3" RoleViewer).2 in
  counts = true ∧ length (filter active_admin (co_users w)) = O.
Proof. vm_compute. done. Qed.
