(* ===== verification/Routes.v ===== *)
(** * The routes of the admin API

    registerRoutes and the middleware of controlplane/adminapi/server.go, and the routes
    that login.go, password_reset.go and oidc_login.go register on the same engine and
    app/lite.go in front of it: which session reaches which route of /api/admin, the
    guard of the setup endpoint and the step-up for high-risk mutations.

    The rate limiter of the chain is state of Console.v; here it has let the request
    pass.  Paths are relative to /api/admin. *)

From S2P Require Import Prelude GoStd GoNet ApiKey Limits Console.

Open Scope string_scope.
Open Scope Z_scope.

(** ** Middleware *)

Inductive middleware :=
| requireAuth
| requireTenantScope
| rateLimitAdmin
| requireRole (role : string)
| requireAnyRole (roles : list string)
| requirePermission (permission : string).

(** What a middleware answers for the session the request presented, if any. *)
Definition passes (session : option Session) (m : middleware) : reply unit :=
  let s := default {| se_AdminID := ""; se_TenantID := ""; se_Username := ""; se_Role := ""; se_AuthMethod := "" |} session in
  match m with
  | requireAuth => if bool_decide (se_AdminID s = "") then Refused 401 "UNAUTHORIZED" else Reply tt
  | requireTenantScope => if bool_decide (se_TenantID s = "") then Refused 401 "UNAUTHORIZED" else Reply tt
  | rateLimitAdmin => Reply tt
  | requireRole role => if bool_decide (EffectiveRole s = role) then Reply tt else Refused 403 "ROLE_FORBIDDEN"
  | requireAnyRole roles => if bool_decide (EffectiveRole s ∈ roles) then Reply tt else Refused 403 "ROLE_FORBIDDEN"
  | requirePermission permission =>
      match Require_ (EffectiveRole s) permission with None => Reply tt | Some _ => Refused 403 "ROLE_FORBIDDEN" end
  end.

(** The chain runs from the outside in and stops at the first refusal. *)
Fixpoint run_chain (session : option Session) (chain : list middleware) : reply unit :=
  match chain with
  | [] => Reply tt
  | m :: chain => match passes session m with Reply _ => run_chain session chain | refused => refused end
  end.

(** ** The table *)

Record route := Route { rt_Method : string; rt_Path : string; rt_Chain : list middleware }.

Definition read_group : list middleware := [requireAuth; requireTenantScope; rateLimitAdmin].
Definition session_group : list middleware := [requireAuth; rateLimitAdmin].
Definition system_group : list middleware := [requireAuth; rateLimitAdmin; requireRole RoleSystemAdmin].
Definition admin_group : list middleware :=
  [requireAuth; requireTenantScope; rateLimitAdmin; requireAnyRole [RoleSystemAdmin; RoleTenantAdmin]].
Definition permitted (permission : string) : list middleware :=
  [requireAuth; requireTenantScope; rateLimitAdmin; requirePermission permission].

Definition routes : list route :=
  [
   Route "POST" "/setup" [];
   Route "GET" "/tenants" system_group;
   Route "POST" "/tenants" system_group;
   Route "PATCH" "/tenants/{id}/status" system_group;
   Route "GET" "/system/config" system_group;
   Route "PUT" "/system/config" system_group;
   Route "POST" "/session/tenant" session_group;
   Route "GET" "/projects" read_group;
   Route "POST" "/projects" admin_group;
   Route "GET" "/dashboard" read_group;
   Route "GET" "/finops" read_group;
   Route "GET" "/recommendations" read_group;
   Route "GET" "/config/drafts" read_group;
   Route "POST" "/config/drafts" admin_group;
   Route "GET" "/runtime" read_group;
   Route "GET" "/resource-catalog" read_group;
   Route "POST" "/keys" admin_group;
   Route "GET" "/keys" read_group;
   Route "GET" "/keys/{id}" admin_group;
   Route "POST" "/credentials" admin_group;
   Route "POST" "/keys/{id}/revoke" admin_group;
   Route "POST" "/mcp-servers/{id}/discover" admin_group;
   Route "POST" "/credentials/{id}/rotate" admin_group;
   Route "POST" "/credentials/{id}/disable" admin_group;
   Route "DELETE" "/credentials/{id}" admin_group;
   Route "GET" "/config/drafts/{id}" read_group;
   Route "PUT" "/config/drafts/{id}" admin_group;
   Route "GET" "/config/drafts/{id}/diff" read_group;
   Route "POST" "/config/drafts/{id}/publish" admin_group;
   Route "POST" "/config/rollback" admin_group;
   Route "GET" "/config/versions" read_group;
   Route "POST" "/playground" admin_group;
   Route "GET" "/requests/{id}" read_group;
   Route "GET" "/requests" read_group;
   Route "GET" "/usage/{id}" read_group;
   Route "GET" "/audit" read_group;
   Route "GET" "/audit/retention" read_group;
   Route "PUT" "/audit/retention" admin_group;
   Route "GET" "/evidence" (permitted "evidence.export");
   Route "GET" "/me" read_group;
   Route "GET" "/health" read_group;
   Route "GET" "/alerts" read_group;
   Route "GET" "/alerts/rules" read_group;
   Route "GET" "/alerts/notifications" read_group;
   Route "POST" "/alerts/rules" admin_group;
   Route "POST" "/alerts/rules/import-defaults" admin_group;
   Route "PUT" "/alerts/notifications" admin_group;
   Route "DELETE" "/alerts/notifications" admin_group;
   Route "POST" "/alerts/{id}/action" admin_group;
   Route "POST" "/circuits/reset" admin_group;
   Route "GET" "/live" read_group;
   Route "POST" "/config/rebase" admin_group;
   Route "GET" "/governance" read_group;
   Route "POST" "/guardrail/publish" admin_group;
   Route "GET" "/security-events" read_group;
   Route "GET" "/tool-calls" read_group;
   Route "POST" "/simulator" admin_group;
   Route "GET" "/delegations" read_group;
   Route "POST" "/delegations" (permitted "delegation.grant");
   Route "DELETE" "/delegations/{id}" (permitted "delegation.revoke");
   Route "GET" "/federation" read_group;
   Route "GET" "/federation/push-outbox" read_group;
   Route "GET" "/approvals" read_group;
   Route "POST" "/approvals/{id}/action" (permitted "approval.decide");
   Route "POST" "/federation/{id}/suspend" (permitted "external_agent.suspend");
   Route "POST" "/federation/discover" (permitted "external_agent.suspend");
   Route "POST" "/federation/{id}/review" (permitted "external_agent.review");
   Route "GET" "/agent-graph/{rootTaskId}" read_group;
   Route "GET" "/users" admin_group;
   Route "POST" "/users" admin_group;
   Route "PATCH" "/users/{id}/role" admin_group;
   Route "PATCH" "/users/{id}/email" admin_group;
   Route "POST" "/users/{id}/status" admin_group;
   Route "POST" "/users/{id}/reset-password" admin_group;
   Route "DELETE" "/users/{id}" admin_group;
   Route "POST" "/users/me/email" read_group].

(** [SessionEndpoints.Register]: no middleware; logging out, changing a password and the
    emergency reset look at the session or at the address themselves (Console.v). *)
Definition password_routes : list route :=
  [Route "GET" "/password/forgot/config" []; Route "POST" "/password/forgot" []; Route "POST" "/password/reset/confirm" []].

Definition oidc_routes (configured : bool) : list route :=
  if configured then [Route "GET" "/oidc/config" []; Route "POST" "/oidc/start" []; Route "POST" "/oidc/session" []]
  else [Route "GET" "/oidc/config" []].

Definition session_routes (oidc : bool) : list route :=
  ([Route "POST" "/session" []; Route "DELETE" "/session" []; Route "POST" "/password/reset" []; Route "POST" "/password/change" []]
     ++ password_routes ++ oidc_routes oidc)%list.

(** The root engine: the admin engine, and one pattern that is more specific. *)
Definition admin_routes (oidc : bool) : list route :=
  (routes ++ session_routes oidc ++ [Route "GET" "/setup/status" []])%list.

(** ** Guards of their own *)

(** The anonymous setup endpoint: this host, or the token of the server log. *)
Definition setupGate (bootstrapToken : string) (r : Request) : reply unit :=
  if match ParseIP (rq_Host r) with Some ip => IsLoopback ip | None => false end then Reply tt
  else if negb (bool_decide (bootstrapToken = "")) && equal_text (rq_BootstrapToken r) bootstrapToken then Reply tt
  else Refused 403 "SETUP_LOCKED".

(** Step-up for revocations and the like: the account's current password. *)
Definition requireReauth {R} `{!Passwords R} (w : Console R) (session : Session) (r : Request) : reply unit * Console R :=
  if bool_decide (rq_ReauthToken r = "") then (Refused 401 "REAUTH_REQUIRED", w)
  else
    match FindLocalUserByID w (se_AdminID session) with
    | (Err _, w) => (Refused 403 "REAUTH_UNAVAILABLE", w)
    | (Ok credential, w) =>
        if bool_decide (lc_Status credential ≠ "active") then (Refused 403 "REAUTH_UNAVAILABLE", w)
        else match VerifyPassword (rq_ReauthToken r) (lc_PasswordHash credential) with
             | Ok true => (Reply tt, w)
             | _ => (Refused 401 "REAUTH_REQUIRED", w)
             end
    end.

(** ** Who reaches what *)

Definition reaches (session : option Session) (rt : route) : Prop := run_chain session (rt_Chain rt) = Reply tt.

#[global] Instance reaches_dec session rt : Decision (reaches session rt).
Proof. unfold reaches. destruct (run_chain session (rt_Chain rt)) as [[]|status code]; [by left|by right]. Defined.

Lemma run_chain_pass session chain m : run_chain session chain = Reply tt → m ∈ chain → passes session m = Reply tt.
Proof.
  induction chain as [|x chain IH]; simpl; [by intros _ ?%elem_of_nil|].
  destruct (passes session x) as [[]|] eqn:Hp; [|done]. intros Hr [->|Hm]%elem_of_cons; auto.
Qed.

(** The role conditions of a chain. *)
Definition role_allows (role : string) (m : middleware) : bool :=
  match m with
  | requireRole r => bool_decide (role = r)
  | requireAnyRole roles => bool_decide (role ∈ roles)
  | requirePermission permission => Has role permission
  | _ => true
  end.

Lemma reaches_role s rt : reaches (Some s) rt → forallb (role_allows (EffectiveRole s)) (rt_Chain rt) = true.
Proof.
  intros Hr. apply forallb_forall. intros m Hm%list_elem_of_In. pose proof (run_chain_pass _ _ _ Hr Hm) as Hp.
  destruct m as [| | |role|roles|permission]; simpl in *; try done; try (by case_bool_decide).
  unfold Require_ in Hp. by destruct (Has _ _).
Qed.

(** The routes that change something and that a role may reach. *)
Definition mutations (role : string) : list string :=
  rt_Path <$> filter (λ rt, rt_Method rt ≠ "GET" ∧ forallb (role_allows role) (rt_Chain rt) = true) (admin_routes true).

(** The routes in front of the session: setup, login, logout, passwords and OIDC. *)
Definition open_paths : list string :=
  ["/setup"; "/setup/status"; "/session"; "/password/reset"; "/password/change"; "/password/forgot/config"; "/password/forgot";
   "/password/reset/confirm"; "/oidc/config"; "/oidc/start"; "/oidc/session"].
Definition self_service : list string := (open_paths ++ ["/session/tenant"; "/users/me/email"])%list.
Definition operator_actions : list string := ["/approvals/{id}/action"; "/federation/{id}/suspend"; "/federation/discover"].

(** A condition on the role. *)
Definition on_role (m : middleware) : bool :=
  match m with requireRole _ | requireAnyRole _ | requirePermission _ => true | _ => false end.

(** A condition on the role names administrators, or a permission. *)
Definition for_admins (m : middleware) : Prop :=
  match m with
  | requireRole role => role = RoleSystemAdmin
  | requireAnyRole roles => roles = [RoleSystemAdmin; RoleTenantAdmin]
  | _ => True
  end.
#[global] Instance middleware_eq_dec : EqDecision middleware.
Proof. solve_decision. Defined.
#[global] Instance route_eq_dec : EqDecision route.
Proof. solve_decision. Defined.
#[global] Instance for_admins_dec m : Decision (for_admins m).
Proof. destruct m; simpl; apply _. Defined.

Lemma Has_only role permission :
  Has role permission = true → role = RoleSystemAdmin ∨ role = RoleTenantAdmin ∨ role = RoleTenantOperator.
Proof.
  unfold Has, matrix. destruct (decide (role = RoleSystemAdmin)) as [|Hs]; [by left|].
  destruct (decide (role = RoleTenantAdmin)) as [|Ht]; [by right; left|].
  destruct (decide (role = RoleTenantOperator)) as [|Ho]; [by right; right|].
  rewrite !lookup_insert_ne by done. destruct (decide (role = RoleViewer)) as [->|Hv].
  - rewrite lookup_singleton_eq. rewrite bool_decide_eq_true. by intros ?%elem_of_nil.
  - by rewrite lookup_singleton_ne by done.
Qed.

(** Another role meets no condition on the role. *)
Lemma powerless role m :
  role ≠ RoleSystemAdmin → role ≠ RoleTenantAdmin → role ≠ RoleTenantOperator → for_admins m →
  role_allows role m = true → on_role m = false.
Proof.
  intros Hs Ht Ho Hf. destruct m as [| | |r|l|p]; simpl in *; try done.
  - rewrite Hf, bool_decide_eq_true. done.
  - rewrite Hf, bool_decide_eq_true. set_solver.
  - intros [|[|]]%Has_only; done.
Qed.

Lemma admin_routes_oidc oidc rt : rt ∈ admin_routes oidc → rt ∈ admin_routes true.
Proof.
  destruct oidc; [done|]. assert (oidc_routes false ⊆ oidc_routes true) as Ho by (unfold oidc_routes; set_solver).
  unfold admin_routes, session_routes. rewrite !elem_of_app. intros [?|[[?|[?|Hin]]|?]]; [tauto|tauto|tauto| |tauto].
  apply Ho in Hin. tauto.
Qed.

Lemma routes_checked (P : route → Prop) `{!∀ rt, Decision (P rt)} oidc rt :
  rt ∈ admin_routes oidc → bool_decide (Forall P (admin_routes true)) = true → P rt.
Proof. intros Hin%admin_routes_oidc Hb. apply bool_decide_eq_true in Hb. rewrite Forall_forall in Hb. by apply Hb. Qed.

(** C35: only administrators and operators act.  Of all routes under /api/admin, with OIDC
    configured or not: the middleware lets a session whose effective role is neither an
    administrator's nor an operator's reach no route that changes anything, except the
    open ones (setup, login and logout, the password endpoints, OIDC) and the two that it
    has for itself; an operator's reaches those and the three actions of its permissions;
    and without a session only the open routes are reached. *)
Theorem routes_enforce_roles oidc rt :
  rt ∈ admin_routes oidc →
  (∀ s, reaches (Some s) rt → rt_Method rt ≠ "GET" →
     EffectiveRole s = RoleSystemAdmin ∨ EffectiveRole s = RoleTenantAdmin ∨
     (EffectiveRole s = RoleTenantOperator ∧ rt_Path rt ∈ (self_service ++ operator_actions)%list) ∨ rt_Path rt ∈ self_service) ∧
  (reaches None rt → rt_Path rt ∈ open_paths).
Proof.
  intros Hin. split.
  - intros s Hr Hm. apply reaches_role in Hr.
    destruct (decide (EffectiveRole s = RoleSystemAdmin)) as [|Hs]; [by left|].
    destruct (decide (EffectiveRole s = RoleTenantAdmin)) as [|Ht]; [by right; left|]. right; right.
    destruct (decide (EffectiveRole s = RoleTenantOperator)) as [Ho|Ho].
    + left. split; [done|]. rewrite Ho in Hr.
      assert (rt_Path rt ∈ mutations RoleTenantOperator) as Hp.
      { apply list_elem_of_fmap. exists rt. split; [done|]. apply list_elem_of_filter. split; [by split|by eapply admin_routes_oidc]. }
      assert (Forall (λ p, p ∈ (self_service ++ operator_actions)%list) (mutations RoleTenantOperator)) as Hall.
      { apply (bool_decide_unpack _). vm_compute. exact I. }
      rewrite Forall_forall in Hall. by apply Hall.
    + right. assert (Forall (λ m, on_role m = false) (rt_Chain rt)) as Hopen.
      { apply Forall_forall. intros m Hmem. apply (powerless (EffectiveRole s)); [done|done|done| |].
        - assert (Forall for_admins (rt_Chain rt)) as Hf by (apply (routes_checked (λ rt, Forall for_admins (rt_Chain rt)) oidc rt Hin); vm_compute; reflexivity).
          rewrite Forall_forall in Hf. by apply Hf.
        - rewrite forallb_forall in Hr. apply Hr. by apply list_elem_of_In. }
      assert (rt_Method rt ≠ "GET" → Forall (λ m, on_role m = false) (rt_Chain rt) → rt_Path rt ∈ self_service) as Hself; [|by apply Hself].
      apply (routes_checked (λ rt, rt_Method rt ≠ "GET" → Forall (λ m, on_role m = false) (rt_Chain rt) → rt_Path rt ∈ self_service) oidc rt Hin).
      vm_compute. reflexivity.
  - intros Hr. assert (rt_Path rt ∈ open_paths ∨ requireAuth ∈ rt_Chain rt) as [|Ha]; [|done|by pose proof (run_chain_pass _ _ _ Hr Ha)].
    apply (routes_checked (λ rt, rt_Path rt ∈ open_paths ∨ requireAuth ∈ rt_Chain rt) oidc rt Hin). vm_compute. reflexivity.
Qed.

Definition a_session (role : string) : Session :=
  {| se_AdminID := "9"; se_TenantID := "t"; se_Username := "u"; se_Role := role; se_AuthMethod := "local" |}.

Lemma routes_enforce_roles_witness :
  let rt := Route "POST" "/federation/{id}/suspend" (permitted "external_agent.suspend") in
  reaches (Some (a_session RoleTenantOperator)) rt ∧ rt_Path rt ∈ (self_service ++ operator_actions)%list.
Proof.
  intros rt. assert (rt ∈ admin_routes false) as Hin by (apply (bool_decide_unpack _); vm_compute; exact I).
  assert (reaches (Some (a_session RoleTenantOperator)) rt) as Hr by reflexivity.
  destruct (routes_enforce_roles false rt Hin) as [Hs _]. split; [exact Hr|].
  destruct (Hs _ Hr) as [He|[He|[[_ Hp]|Hp]]]; [discriminate|discriminate He|discriminate He|exact Hp|].
  apply elem_of_app. by left.
Defined.

(** Revealing the text of a key and discovering an agent ask for less than their
    neighbours: the first is a GET for administrators, the second needs the operator's
    permission to suspend. *)
Example operators_discover :
  filter (λ path, path ∉ open_paths) (mutations RoleTenantOperator) =
    ["/session/tenant"; "/approvals/{id}/action"; "/federation/{id}/suspend"; "/federation/discover"; "/users/me/email"] ∧
  filter (λ path, path ∉ open_paths) (mutations RoleViewer) = ["/session/tenant"; "/users/me/email"] ∧
  mutations "no such role" = mutations RoleViewer.
Proof. vm_compute. done. Qed.
