(* ===== verification/A2ATask.v ===== *)
(** * Durable agent tasks

    platform/storage/sqlrepo/a2atask.go over the table of migrations/032_a2a_tasks.sql:
    the rows by which the relay of app/gateway.go deduplicates a message, claims it and
    counts its hops and calls.

    A statement is atomic.  It may fail before it runs, or its answer may be lost after
    it has run.  Several replicas share the table, so what a caller saw in one statement
    may have changed before its next.  Times are nanoseconds; CURRENT_TIMESTAMP and the
    formatted cutoff keep whole seconds. *)

From S2P Require Import Prelude Approval.

Open Scope string_scope.
Open Scope Z_scope.

Definition A2ATaskPending : string := "pending".
Definition A2ATaskRunning : string := "running".
Definition A2ATaskCompleted : string := "completed".
Definition A2ATaskFailed : string := "failed".
Definition A2ATaskCancelled : string := "cancelled".

Record A2ATask := {
  a2_TaskID : string; a2_TenantID : string; a2_ExternalAgentID : string; a2_ProjectID : string;
  a2_RequestID : string; a2_IdempotencyKey : string; a2_Status : string; a2_Message : string; a2_Result : string;
  a2_Hops : Z; a2_Calls : Z; a2_Attempts : Z; a2_CreatedAt : Z; a2_UpdatedAt : Z }.

(** The primary key is (tenant_id, task_id). *)
Abbreviation tasks := (@gmap (string * string) (@prod_eq_dec _ _ _ _) (@prod_countable _ _ _ _ _ _) A2ATask).
Implicit Types (t : tasks).

Inductive statement := Ran | Failed (err : error) | Lost (err : error).

Definition seconds_of (t : Z) : Z := t - t mod second.

Definition known_status (status : string) : bool :=
  bool_decide (status ∈ [A2ATaskPending; A2ATaskRunning; A2ATaskCompleted; A2ATaskFailed; A2ATaskCancelled]).

Definition CheckViolation : error := ErrNew "CHECK constraint failed: status".
Definition PrimaryKeyViolation : error := ErrNew "UNIQUE constraint failed: a2a_tasks.tenant_id, a2a_tasks.task_id".

(** An update as the database runs it and as its caller sees it. *)
Definition execute {A : Type} (st : statement) (t : tasks) (f : tasks → result A * tasks) : result A * tasks :=
  match st with
  | Failed err => (Err err, t)
  | Ran => f t
  | Lost err => (Err err, (f t).2)
  end.

Definition by_key (t : tasks) (tenant key : string) : option A2ATask :=
  snd <$> List.find (λ e : string * string * A2ATask, bool_decide (e.1.1 = tenant) && bool_decide (a2_IdempotencyKey e.2 = key)) (map_to_list t).

(** The columns the insert names; result and the times have their defaults. *)
Definition inserted (now : Z) (task : A2ATask) : A2ATask :=
  {| a2_TaskID := a2_TaskID task; a2_TenantID := a2_TenantID task; a2_ExternalAgentID := a2_ExternalAgentID task;
     a2_ProjectID := a2_ProjectID task; a2_RequestID := a2_RequestID task; a2_IdempotencyKey := a2_IdempotencyKey task;
     a2_Status := a2_Status task; a2_Message := a2_Message task; a2_Result := ""; a2_Hops := a2_Hops task;
     a2_Calls := a2_Calls task; a2_Attempts := a2_Attempts task; a2_CreatedAt := seconds_of now; a2_UpdatedAt := seconds_of now |}.

Definition Create (t : tasks) (now : Z) (st : statement) (scope : string) (task : A2ATask) : result unit * tasks :=
  if bool_decide (scope = "") then (Err ErrInvalidScope, t)
  else if bool_decide (a2_TenantID task ≠ scope) then (Err ErrScopeMismatch, t)
  else execute st t (λ t,
    if negb (known_status (a2_Status task)) then (Err CheckViolation, t)
    else match by_key t scope (a2_IdempotencyKey task) with
         | Some _ => (Ok tt, t)
         | None =>
             match t !! (scope, a2_TaskID task) with
             | Some _ => (Err PrimaryKeyViolation, t)
             | None => (Ok tt, <[(scope, a2_TaskID task) := inserted now task]> t)
             end
         end).

Definition read {A : Type} (st : statement) (scope : string) (answer : A) : result A :=
  if bool_decide (scope = "") then Err ErrInvalidScope
  else match st with Ran => Ok answer | Failed err | Lost err => Err err end.

Definition GetByTask (t : tasks) (st : statement) (scope taskID : string) : result (option A2ATask) :=
  read st scope (t !! (scope, taskID)).

Definition GetByIdempotency (t : tasks) (st : statement) (scope key : string) : result (option A2ATask) :=
  read st scope (by_key t scope key).

Definition with_status (now : Z) (task : A2ATask) (status result : string) : A2ATask :=
  {| a2_TaskID := a2_TaskID task; a2_TenantID := a2_TenantID task; a2_ExternalAgentID := a2_ExternalAgentID task;
     a2_ProjectID := a2_ProjectID task; a2_RequestID := a2_RequestID task; a2_IdempotencyKey := a2_IdempotencyKey task;
     a2_Status := status; a2_Message := a2_Message task; a2_Result := result; a2_Hops := a2_Hops task;
     a2_Calls := a2_Calls task; a2_Attempts := a2_Attempts task; a2_CreatedAt := a2_CreatedAt task; a2_UpdatedAt := seconds_of now |}.

Definition with_counters (now : Z) (task : A2ATask) (hops calls : Z) : A2ATask :=
  {| a2_TaskID := a2_TaskID task; a2_TenantID := a2_TenantID task; a2_ExternalAgentID := a2_ExternalAgentID task;
     a2_ProjectID := a2_ProjectID task; a2_RequestID := a2_RequestID task; a2_IdempotencyKey := a2_IdempotencyKey task;
     a2_Status := a2_Status task; a2_Message := a2_Message task; a2_Result := a2_Result task; a2_Hops := a2_Hops task + hops;
     a2_Calls := a2_Calls task + calls; a2_Attempts := a2_Attempts task + 1; a2_CreatedAt := a2_CreatedAt task;
     a2_UpdatedAt := seconds_of now |}.

(** An UPDATE of one row under a condition; true when a row was changed. *)
Definition update_row (key : string * string) (applies : A2ATask → bool) (f : A2ATask → A2ATask) (t : tasks) : result bool * tasks :=
  match t !! key with
  | Some task => if applies task then (Ok true, <[key := f task]> t) else (Ok false, t)
  | None => (Ok false, t)
  end.

Definition AdvanceCounters (t : tasks) (now : Z) (st : statement) (scope taskID : string) (hops calls maxHops maxCalls : Z) :
    result bool * tasks :=
  if bool_decide (scope = "") then (Err ErrInvalidScope, t)
  else execute st t (update_row (scope, taskID)
         (λ task, (a2_Hops task + hops <=? maxHops) && (a2_Calls task + calls <=? maxCalls))
         (λ task, with_counters now task hops calls)).

Definition startable (task : A2ATask) : bool :=
  bool_decide (a2_Status task ∈ [A2ATaskPending; A2ATaskFailed; A2ATaskCancelled]).

Definition TryStart (t : tasks) (now : Z) (st : statement) (scope taskID : string) : result bool * tasks :=
  if bool_decide (scope = "") then (Err ErrInvalidScope, t)
  else execute st t (update_row (scope, taskID) startable (λ task, with_status now task A2ATaskRunning "")).

Definition stale (scope : string) (cutoff : Z) (key : string * string) (task : A2ATask) : bool :=
  bool_decide (key.1 = scope) && bool_decide (a2_Status task = A2ATaskRunning) && (a2_UpdatedAt task <? cutoff).

Definition reaped (now : Z) (scope : string) (cutoff : Z) (t : tasks) : tasks :=
  map_imap (λ key task, Some (if stale scope cutoff key task then with_status now task A2ATaskFailed "" else task)) t.

Definition ReapStaleRunning (t : tasks) (now : Z) (st : statement) (scope : string) (staleBefore : Z) : result Z * tasks :=
  if bool_decide (scope = "") then (Err ErrInvalidScope, t)
  else
    let cutoff := seconds_of staleBefore in
    execute st t (λ t, (Ok (Z.of_nat (length (List.filter (λ e, stale scope cutoff e.1 e.2) (map_to_list t)))),
                        reaped now scope cutoff t)).

Definition SetStatusResult (t : tasks) (now : Z) (st : statement) (scope taskID status res : string) : result unit * tasks :=
  if bool_decide (scope = "") then (Err ErrInvalidScope, t)
  else execute st t (λ t,
    match t !! (scope, taskID) with
    | Some task => if known_status status then (Ok tt, <[(scope, taskID) := with_status now task status res]> t)
                   else (Err CheckViolation, t)
    | None => (Ok tt, t)
    end).

(** ** Sequences of statements

    What every replica does to the table, in the order in which the database ran it. *)

Inductive task_op :=
| OpCreate (now : Z) (st : statement) (scope : string) (task : A2ATask)
| OpAdvance (now : Z) (st : statement) (scope taskID : string) (hops calls maxHops maxCalls : Z)
| OpStart (now : Z) (st : statement) (scope taskID : string)
| OpReap (now : Z) (st : statement) (scope : string) (staleBefore : Z)
| OpSet (now : Z) (st : statement) (scope taskID status res : string).

Definition task_step (t : tasks) (op : task_op) : tasks :=
  match op with
  | OpCreate now st scope task => (Create t now st scope task).2
  | OpAdvance now st scope id hops calls maxHops maxCalls => (AdvanceCounters t now st scope id hops calls maxHops maxCalls).2
  | OpStart now st scope id => (TryStart t now st scope id).2
  | OpReap now st scope staleBefore => (ReapStaleRunning t now st scope staleBefore).2
  | OpSet now st scope id status res => (SetStatusResult t now st scope id status res).2
  end.

Definition task_run : tasks → list task_op → tasks := foldl task_step.

(** *** What one statement can do to a row *)

Lemma execute_cases {A : Type} st (t : tasks) (f : tasks → result A * tasks) : (execute st t f).2 = t ∨ (execute st t f).2 = (f t).2.
Proof. destruct st; simpl; auto. Qed.

Lemma reaped_lookup now scope cutoff (t : tasks) key :
  reaped now scope cutoff t !! key =
  (λ task, if stale scope cutoff key task then with_status now task A2ATaskFailed "" else task) <$> t !! key.
Proof. unfold reaped. rewrite map_lookup_imap. by destruct (t !! key). Qed.

(** How a statement changes the row it finds under a key. *)
Inductive row_step (key : string * string) (op : task_op) (old : A2ATask) : A2ATask → Prop :=
| row_kept : row_step key op old old
| row_advanced now st hops calls maxHops maxCalls :
    op = OpAdvance now st key.1 key.2 hops calls maxHops maxCalls →
    a2_Hops old + hops <= maxHops → a2_Calls old + calls <= maxCalls → row_step key op old (with_counters now old hops calls)
| row_started now st :
    op = OpStart now st key.1 key.2 → startable old = true → row_step key op old (with_status now old A2ATaskRunning "")
| row_reaped now st staleBefore :
    op = OpReap now st key.1 staleBefore → stale key.1 (seconds_of staleBefore) key old = true →
    row_step key op old (with_status now old A2ATaskFailed "")
| row_set now st status res :
    op = OpSet now st key.1 key.2 status res → known_status status = true → row_step key op old (with_status now old status res).

(** A row stays, and is changed by its own statements only. *)
Lemma task_step_row (t : tasks) op key old :
  t !! key = Some old → ∃ new, task_step t op !! key = Some new ∧ row_step key op old new.
Proof.
  intros Ho. assert (∀ t', t' = t → ∃ new, t' !! key = Some new ∧ row_step key op old new) as Hsame.
  { intros ? ->. eauto using row_kept. }
  destruct key as [tenant id].
  destruct op as [now st scope task|now st scope i hops calls mh mc|now st scope i|now st scope sb|now st scope i status res]; simpl.
  - unfold Create. repeat (case_bool_decide; [by apply Hsame|]).
    destruct (execute_cases st t (λ t, if negb (known_status (a2_Status task)) then (Err CheckViolation, t) else
      match by_key t scope (a2_IdempotencyKey task) with
      | Some _ => (Ok tt, t)
      | None => match t !! (scope, a2_TaskID task) with
                | Some _ => (Err PrimaryKeyViolation, t)
                | None => (Ok tt, <[(scope, a2_TaskID task) := inserted now task]> t) end end)) as [E|E]; rewrite E; [by apply Hsame|].
    destruct (negb _); [by apply Hsame|]. destruct (by_key _ _ _); [by apply Hsame|].
    destruct (t !! (scope, _)) eqn:En; [by apply Hsame|]. simpl. rewrite lookup_insert_ne by congruence. eauto using row_kept.
  - unfold AdvanceCounters. case_bool_decide; [by apply Hsame|].
    match goal with |- context [execute st t ?f] => destruct (execute_cases st t f) as [E|E]; rewrite E end; [by apply Hsame|].
    unfold update_row. destruct (decide ((scope, i) = (tenant, id))) as [[= -> ->]|Hne].
    + rewrite Ho. destruct (_ && _) eqn:Eb; [|by apply Hsame]. apply andb_true_iff in Eb as [?%Z.leb_le ?%Z.leb_le].
      simpl. rewrite lookup_insert_eq. eauto using row_advanced.
    + destruct (t !! (scope, i)); [|by apply Hsame]. destruct (_ && _); [|by apply Hsame]. simpl. rewrite lookup_insert_ne by done. eauto using row_kept.
  - unfold TryStart. case_bool_decide; [by apply Hsame|].
    match goal with |- context [execute st t ?f] => destruct (execute_cases st t f) as [E|E]; rewrite E end; [by apply Hsame|].
    unfold update_row. destruct (decide ((scope, i) = (tenant, id))) as [[= -> ->]|Hne].
    + rewrite Ho. destruct (startable old) eqn:Eb; [|by apply Hsame]. simpl. rewrite lookup_insert_eq. eauto using row_started.
    + destruct (t !! (scope, i)); [|by apply Hsame]. destruct (startable _); [|by apply Hsame]. simpl. rewrite lookup_insert_ne by done. eauto using row_kept.
  - unfold ReapStaleRunning. case_bool_decide; [by apply Hsame|].
    match goal with |- context [execute st t ?f] => destruct (execute_cases st t f) as [E|E]; rewrite E end; [by apply Hsame|].
    simpl. rewrite reaped_lookup, Ho. simpl. destruct (stale _ _ _ _) eqn:Es; [|eauto using row_kept].
    assert (tenant = scope) as ->. { unfold stale in Es. simpl in Es. by case_bool_decide. }
    eexists. split; [done|]. by eapply row_reaped.
  - unfold SetStatusResult. case_bool_decide; [by apply Hsame|].
    match goal with |- context [execute st t ?f] => destruct (execute_cases st t f) as [E|E]; rewrite E end; [by apply Hsame|].
    destruct (decide ((scope, i) = (tenant, id))) as [[= -> ->]|Hne].
    + rewrite Ho. destruct (known_status status) eqn:Eb; [|by apply Hsame]. simpl. rewrite lookup_insert_eq. eauto using row_set.
    + destruct (t !! (scope, i)); [|by apply Hsame]. destruct (known_status _); [|by apply Hsame]. simpl. rewrite lookup_insert_ne by done. eauto using row_kept.
Qed.

(** A row that was not there is the one an insert made. *)
Lemma task_step_new (t : tasks) op key new :
  t !! key = None → task_step t op !! key = Some new →
  ∃ now st task, op = OpCreate now st key.1 task ∧ a2_TaskID task = key.2 ∧ new = inserted now task ∧
    by_key t key.1 (a2_IdempotencyKey task) = None.
Proof.
  intros Ho Hn. assert (∀ t' (P : Prop), t' = t → t' !! key = Some new → P) as Hsame by (intros ?? ->; congruence).
  destruct key as [tenant id].
  destruct op as [now st scope task|now st scope i hops calls mh mc|now st scope i|now st scope sb|now st scope i status res]; simpl in Hn.
  - unfold Create in Hn. repeat (case_bool_decide; [eapply Hsame; [|exact Hn]; done|]).
    match type of Hn with context [execute st t ?f] => destruct (execute_cases st t f) as [E|E]; rewrite E in Hn end; [congruence|].
    destruct (negb _); [simpl in Hn; congruence|]. destruct (by_key _ _ _) eqn:Eb; [simpl in Hn; congruence|].
    destruct (t !! (scope, _)) eqn:En; simpl in Hn; [congruence|].
    destruct (decide ((scope, a2_TaskID task) = (tenant, id))) as [[= -> <-]|Hne].
    + rewrite lookup_insert_eq in Hn. injection Hn as <-. simpl. by exists now, st, task.
    + rewrite lookup_insert_ne in Hn by done. congruence.
  - unfold AdvanceCounters in Hn. case_bool_decide; [simpl in Hn; congruence|].
    match type of Hn with context [execute st t ?f] => destruct (execute_cases st t f) as [E|E]; rewrite E in Hn end; [congruence|].
    unfold update_row in Hn. destruct (t !! (scope, i)) eqn:En; [|simpl in Hn; congruence]. destruct (_ && _); simpl in Hn; [|congruence].
    rewrite lookup_insert_ne in Hn by congruence. congruence.
  - unfold TryStart in Hn. case_bool_decide; [simpl in Hn; congruence|].
    match type of Hn with context [execute st t ?f] => destruct (execute_cases st t f) as [E|E]; rewrite E in Hn end; [congruence|].
    unfold update_row in Hn. destruct (t !! (scope, i)) eqn:En; [|simpl in Hn; congruence]. destruct (startable _); simpl in Hn; [|congruence].
    rewrite lookup_insert_ne in Hn by congruence. congruence.
  - unfold ReapStaleRunning in Hn. case_bool_decide; [simpl in Hn; congruence|].
    match type of Hn with context [execute st t ?f] => destruct (execute_cases st t f) as [E|E]; rewrite E in Hn end; [congruence|].
    simpl in Hn. rewrite reaped_lookup, Ho in Hn. done.
  - unfold SetStatusResult in Hn. case_bool_decide; [simpl in Hn; congruence|].
    match type of Hn with context [execute st t ?f] => destruct (execute_cases st t f) as [E|E]; rewrite E in Hn end; [congruence|].
    destruct (t !! (scope, i)) eqn:En; [|simpl in Hn; congruence]. destruct (known_status _); simpl in Hn; [|congruence].
    rewrite lookup_insert_ne in Hn by congruence. congruence.
Qed.

Lemma task_run_row t ops key old : t !! key = Some old → ∃ new, task_run t ops !! key = Some new.
Proof.
  revert t old. induction ops as [|op ops IH]; intros t old Ho; simpl; [eauto|].
  destruct (task_step_row t op key old Ho) as (new & Hn & _). eauto.
Qed.

(** ** One task for a key *)

Definition keys_unique t : Prop :=
  ∀ k1 k2 a b, t !! k1 = Some a → t !! k2 = Some b → k1.1 = k2.1 → a2_IdempotencyKey a = a2_IdempotencyKey b → k1 = k2.

Lemma by_key_spec t tenant key :
  match by_key t tenant key with
  | Some task => ∃ id, t !! (tenant, id) = Some task ∧ a2_IdempotencyKey task = key
  | None => ∀ id task, t !! (tenant, id) = Some task → a2_IdempotencyKey task ≠ key
  end.
Proof.
  unfold by_key. destruct (List.find _ _) as [[[tenant' id] task]|] eqn:E; simpl.
  - apply List.find_some in E as [Hin Hp]. simpl in Hp. apply andb_true_iff in Hp as [->%bool_decide_eq_true Hk%bool_decide_eq_true].
    exists id. split; [|done]. apply elem_of_map_to_list. by apply list_elem_of_In.
  - intros id task Hl Hk. apply elem_of_map_to_list, list_elem_of_In in Hl. pose proof (List.find_none _ _ E _ Hl) as Hn. simpl in Hn.
    rewrite !bool_decide_true in Hn by done. done.
Qed.

Lemma by_key_unique t tenant key id task :
  keys_unique t → t !! (tenant, id) = Some task → a2_IdempotencyKey task = key → by_key t tenant key = Some task.
Proof.
  intros Hu Hl Hk. pose proof (by_key_spec t tenant key) as Hb. destruct (by_key t tenant key) as [task'|].
  - destruct Hb as (id' & Hl' & Hk'). assert ((tenant, id) = (tenant, id')) as Hid by (eapply Hu; eauto; congruence). congruence.
  - by destruct (Hb _ _ Hl).
Qed.

Lemma row_step_key key op old new : row_step key op old new → a2_IdempotencyKey new = a2_IdempotencyKey old.
Proof. by destruct 1. Qed.

Lemma keys_unique_step t op : keys_unique t → keys_unique (task_step t op).
Proof.
  intros Hu k1 k2 a b Ha Hb Ht Hk.
  assert (∀ k c, task_step t op !! k = Some c →
    (∃ old, t !! k = Some old ∧ a2_IdempotencyKey c = a2_IdempotencyKey old) ∨
    (t !! k = None ∧ by_key t k.1 (a2_IdempotencyKey c) = None ∧ ∃ now st task, op = OpCreate now st k.1 task ∧ k.2 = a2_TaskID task)) as Hrow.
  { intros k c Hc. destruct (t !! k) as [old|] eqn:E.
    - left. destruct (task_step_row t op k old E) as (new & Hn & Hs). exists old. split; [done|]. rewrite Hc in Hn. injection Hn as <-. by eapply row_step_key.
    - right. destruct (task_step_new t op k c E Hc) as (now & st & task & -> & Hid & -> & Hby). simpl. eauto 10. }
  assert (∀ (k k' : string * string) old c, t !! k = Some old → k.1 = k'.1 → a2_IdempotencyKey c = a2_IdempotencyKey old →
    by_key t k'.1 (a2_IdempotencyKey c) = None → False) as Hclash.
  { intros [tenant id] k' old c Hl Ht' Hkey Hby. simpl in *. subst. pose proof (by_key_spec t k'.1 (a2_IdempotencyKey c)) as Hs.
    rewrite Hby in Hs. eapply Hs; [exact Hl|by symmetry]. }
  destruct (Hrow _ _ Ha) as [(oa & Hoa & Hka)|(Hna & Hby & now & st & task & -> & Hid)],
           (Hrow _ _ Hb) as [(ob & Hob & Hkb)|(Hnb & Hbyb & now' & st' & task' & E & Hid')].
  - eapply Hu; eauto. congruence.
  - exfalso. eapply (Hclash k1 k2 oa b); eauto. congruence.
  - exfalso. eapply (Hclash k2 k1 ob a); eauto. congruence.
  - injection E as <- <- _ <-. destruct k1, k2; simpl in *; congruence.
Qed.

(** One durable task per idempotency key.  Whatever statements the replicas run, in
    any order and with any of them failing or their answers lost, a tenant never has two
    tasks under one idempotency key, a task never disappears, and its key never
    changes. *)
Theorem one_task_per_key ops :
  keys_unique (task_run ∅ ops) ∧
  ∀ pre post key task, ops = (pre ++ post)%list → task_run ∅ pre !! key = Some task →
    ∃ later, task_run ∅ ops !! key = Some later ∧ a2_IdempotencyKey later = a2_IdempotencyKey task.
Proof.
  split.
  - assert (keys_unique ∅) as H0 by (intros ????; by rewrite lookup_empty).
    revert H0. generalize (∅ : tasks). induction ops as [|op ops IH]; intros t Ht; simpl; [done|]. apply IH. by apply keys_unique_step.
  - intros pre post key task -> Hl. unfold task_run in *. rewrite foldl_app. revert Hl. generalize (foldl task_step ∅ pre). intros t.
    revert t task. induction post as [|op post IH]; intros t task Hl; simpl; [eauto|].
    destruct (task_step_row t op key task Hl) as (new & Hn & Hs). destruct (IH _ _ Hn) as (later & ? & Hk). exists later.
    split; [done|]. rewrite Hk. by eapply row_step_key.
Qed.

(** ** One relay at a time *)

Definition held t (key : string * string) (since : Z) : Prop :=
  ∃ task, t !! key = Some task ∧ a2_Status task = A2ATaskRunning ∧ since <= a2_UpdatedAt task.

(** A statement of a party that does not hold the task: it does not set its status, it
    runs later than the claim, and it reaps only what is older than the claim. *)
Definition bystander (key : string * string) (claimed : Z) (op : task_op) : Prop :=
  match op with
  | OpCreate _ _ _ _ => True
  | OpAdvance now _ _ _ _ _ _ _ => claimed <= now
  | OpStart now _ _ _ => claimed <= now
  | OpReap now _ _ staleBefore => claimed <= now ∧ staleBefore <= claimed
  | OpSet _ _ scope id _ _ => (scope, id) ≠ key
  end.

Lemma seconds_of_mono a b : a <= b → seconds_of a <= seconds_of b.
Proof.
  intros H. unfold seconds_of, second. pose proof (Z.div_mod a 1000000000). pose proof (Z.div_mod b 1000000000).
  pose proof (Z.div_le_mono a b 1000000000). lia.
Qed.

Lemma held_step t op key claimed :
  bystander key claimed op → held t key (seconds_of claimed) → held (task_step t op) key (seconds_of claimed).
Proof.
  intros Hb (task & Hl & Hs & Hu). destruct (task_step_row t op key task Hl) as (new & Hn & Hr). exists new. split; [done|].
  destruct Hr as [|now st hops calls mh mc -> Hh Hc|now st -> Hst|now st sb -> Hst|now st status res ->]; simpl in *.
  - done.
  - split; [done|]. by apply seconds_of_mono.
  - unfold startable in Hst. rewrite Hs in Hst. by vm_compute in Hst.
  - destruct Hb as [_ Hb]. apply seconds_of_mono in Hb. unfold stale in Hst. apply andb_true_iff in Hst as [_ Hst%Z.ltb_lt]. lia.
  - by destruct key.
Qed.

Lemma held_run t ops key claimed :
  Forall (bystander key claimed) ops → held t key (seconds_of claimed) → held (task_run t ops) key (seconds_of claimed).
Proof. intros Hf. revert t. induction Hf; intros t Ht; simpl; [done|]. eauto using held_step. Qed.

Lemma TryStart_claims t now st scope id :
  (TryStart t now st scope id).1 = Ok true →
  ∃ task, t !! (scope, id) = Some task ∧ startable task = true ∧
    (TryStart t now st scope id).2 = <[(scope, id) := with_status now task A2ATaskRunning ""]> t.
Proof.
  unfold TryStart. case_bool_decide; [done|]. destruct st; simpl; [|done|done]. unfold update_row.
  destruct (t !! (scope, id)) as [task|]; [|done]. destruct (startable task) eqn:E; [|done]. eauto.
Qed.

Lemma claim_held t now st scope id t' ops :
  TryStart t now st scope id = (Ok true, t') → Forall (bystander (scope, id) now) ops → held (task_run t' ops) (scope, id) (seconds_of now).
Proof.
  intros Hok Hf. destruct (TryStart_claims t now st scope id) as (task & Hl & _ & Hst); [by rewrite Hok|]. rewrite Hok in Hst. simpl in Hst.
  apply held_run; [done|]. rewrite Hst. eexists. rewrite lookup_insert_eq. split; [done|]. simpl. split; [done|lia].
Qed.

(** C20: a claimed task is not claimed twice.  Once TryStart has answered true, then as
    long as nobody sets the status of the task (neither the claimant nor, for example, a
    slow relay whose task was reaped before), no replica reaps tasks that are as young
    as the claim and the other replicas' clocks are not behind the claim, every other
    TryStart of the task answers false or an error and leaves the row running, whatever
    else the replicas run in between.  (A relay that was reaped and answers late does set
    the status: [slow_relay_erases_answer].) *)
Theorem claimed_task_is_exclusive t now st scope id ops :
  (TryStart t now st scope id).1 = Ok true → Forall (bystander (scope, id) now) ops →
  let after := task_run (TryStart t now st scope id).2 ops in
  held after (scope, id) (seconds_of now) ∧
  ∀ now' st', (TryStart after now' st' scope id).1 ≠ Ok true ∧ (TryStart after now' st' scope id).2 = after.
Proof.
  intros Hok Hf after.
  assert (held after (scope, id) (seconds_of now)) as Hh.
  { apply (claim_held t now st); [|done]. rewrite <- Hok. by destruct (TryStart t now st scope id). }
  split; [done|]. intros now' st'. destruct Hh as (task' & Hl' & Hr & _). unfold TryStart. case_bool_decide; [done|].
  assert (update_row (scope, id) startable (λ task, with_status now' task A2ATaskRunning "") after = (Ok false, after)) as Hu.
  { unfold update_row. rewrite Hl'. unfold startable. rewrite Hr. done. }
  destruct st'; simpl; rewrite ?Hu; done.
Qed.

(** ** The counters of a task *)

Definition counted (task : A2ATask) : Prop := 0 <= a2_Calls task <= a2_Hops task ∧ a2_Hops task <= 3 ∧ a2_Attempts task = a2_Calls task.

(** The statements of the relay: new tasks have not been called, and an attempt takes at
    least one hop and one call. *)
Definition relay_op (op : task_op) : Prop :=
  match op with
  | OpCreate _ _ _ task => a2_Hops task = 0 ∧ a2_Calls task = 0 ∧ a2_Attempts task = 0
  | OpAdvance _ _ _ _ hops calls maxHops maxCalls => 1 <= hops ∧ calls = 1 ∧ maxHops = 3 ∧ maxCalls = 16
  | _ => True
  end.

Lemma counted_step t op : relay_op op → map_Forall (λ _, counted) t → map_Forall (λ _, counted) (task_step t op).
Proof.
  intros Hop Ht key new Hn. destruct (t !! key) as [old|] eqn:E.
  - destruct (task_step_row t op key old E) as (new' & Hn' & Hr). rewrite Hn in Hn'. injection Hn' as <-. specialize (Ht _ _ E).
    destruct Hr as [|now st hops calls mh mc -> Hh Hc| | | ]; try done. simpl in Hop. unfold counted in *. simpl. lia.
  - destruct (task_step_new t op key new E Hn) as (now & st & task & -> & _ & -> & _). simpl in Hop. unfold counted. simpl. lia.
Qed.

(** A task is called at most three times.  Under the statements of the relay a task's
    counters stay within the hop budget of 3, every attempt is one call, and an advance is
    refused exactly when its hops would pass that budget: the call budget of 16 never
    decides. *)
Theorem task_calls_bounded ops scope id task now hops :
  Forall relay_op ops → 1 <= hops → scope ≠ "" → task_run ∅ ops !! (scope, id) = Some task →
  counted task ∧
  ((AdvanceCounters (task_run ∅ ops) now Ran scope id hops 1 3 16).1 = Ok false ↔ 3 < a2_Hops task + hops).
Proof.
  intros Hops Hh Hs Hl. assert (map_Forall (λ _, counted) (task_run ∅ ops)) as Hc.
  { assert (map_Forall (λ _, counted) (∅ : tasks)) as H0 by apply map_Forall_empty. clear Hl. revert H0. generalize (∅ : tasks).
    induction Hops; intros t Ht; simpl; [done|]. eauto using counted_step. }
  specialize (Hc _ _ Hl). simpl in Hc. split; [done|]. unfold AdvanceCounters. rewrite bool_decide_false by done. simpl.
  unfold update_row. rewrite Hl. unfold counted in Hc. destruct (Z.leb_spec (a2_Hops task + hops) 3), (Z.leb_spec (a2_Calls task + 1) 16); simpl; split; intros; try done; lia.
Qed.

(** ** A finished task stays finished *)

Definition leaves_status (key : string * string) (op : task_op) : Prop :=
  match op with OpSet _ _ scope id _ _ => (scope, id) ≠ key | _ => True end.

Lemma completed_step t op key task :
  leaves_status key op → t !! key = Some task → a2_Status task = A2ATaskCompleted →
  ∃ new, task_step t op !! key = Some new ∧ a2_Status new = A2ATaskCompleted ∧ a2_Result new = a2_Result task ∧ a2_TaskID new = a2_TaskID task.
Proof.
  intros Hop Hl Hs. destruct (task_step_row t op key task Hl) as (new & Hn & Hr). exists new. split; [done|].
  destruct Hr as [|now st hops calls mh mc -> Hh Hc|now st -> Hst|now st sb -> Hst|now st status res ->]; simpl in *; try done.
  - unfold startable in Hst. rewrite Hs in Hst. by vm_compute in Hst.
  - unfold stale in Hst. rewrite Hs in Hst. apply andb_true_iff in Hst as [Hst _]. apply andb_true_iff in Hst as [_ Hst]. by vm_compute in Hst.
  - by destruct key.
Qed.

(** The stored answer of a completed task is what every later reader gets, unless a
    caller sets the status of that very task again. *)
Lemma completed_run t ops key task :
  Forall (leaves_status key) ops → t !! key = Some task → a2_Status task = A2ATaskCompleted →
  ∃ new, task_run t ops !! key = Some new ∧ a2_Status new = A2ATaskCompleted ∧ a2_Result new = a2_Result task ∧
    a2_TaskID new = a2_TaskID task ∧ a2_IdempotencyKey new = a2_IdempotencyKey task.
Proof.
  intros Hf. revert t task. induction Hf as [|op ops Hop Hf IH]; intros t task Hl Hs; simpl; [eauto 10|].
  destruct (completed_step t op key task Hop Hl Hs) as (new & Hn & Hs' & Hr & Hid).
  destruct (task_step_row t op key task Hl) as (new' & Hn' & Hrow). rewrite Hn in Hn'. injection Hn' as <-. apply row_step_key in Hrow.
  destruct (IH _ _ Hn Hs') as (last & ? & ? & ? & ? & ?). exists last. split_and!; congruence.
Qed.

(** A row's task id is the one in its key. *)
Definition named t : Prop := ∀ key task, t !! key = Some task → a2_TaskID task = key.2.

Lemma named_step t op : named t → named (task_step t op).
Proof.
  intros Hn key new Hnew. destruct (t !! key) as [old|] eqn:E.
  - destruct (task_step_row t op key old E) as (new' & Hnew' & Hr). rewrite Hnew in Hnew'. injection Hnew' as <-. rewrite <- (Hn _ _ E). by destruct Hr.
  - destruct (task_step_new t op key new E Hnew) as (now & st & task & -> & Hid & -> & _). done.
Qed.

Lemma SetStatusResult_ok t now st scope id status res t' task :
  SetStatusResult t now st scope id status res = (Ok tt, t') → t !! (scope, id) = Some task → known_status status = true →
  t' !! (scope, id) = Some (with_status now task status res).
Proof.
  unfold SetStatusResult. case_bool_decide; [done|]. destruct st; simpl; [|done|done]. intros Hs Hl Hk. rewrite Hl, Hk in Hs. injection Hs as <-.
  by rewrite lookup_insert_eq.
Qed.

(** ** Concrete tables *)

Definition example_task (id key : string) : A2ATask :=
  {| a2_TaskID := id; a2_TenantID := "acme"; a2_ExternalAgentID := "agent"; a2_ProjectID := "proj"; a2_RequestID := id;
     a2_IdempotencyKey := key; a2_Status := A2ATaskPending; a2_Message := "hello"; a2_Result := ""; a2_Hops := 0; a2_Calls := 0;
     a2_Attempts := 0; a2_CreatedAt := 0; a2_UpdatedAt := 0 |}.

(** Two replicas create a task for one message, and the first of them claims it. *)
Definition two_replicas : list task_op :=
  [OpCreate (10 * second) Ran "acme" (example_task "one" "message"); OpCreate (10 * second) Ran "acme" (example_task "two" "message")].

Lemma claimed_task_is_exclusive_witness :
  (TryStart (task_run ∅ two_replicas) (11 * second) Ran "acme" "one").1 = Ok true ∧
  (TryStart (task_run (TryStart (task_run ∅ two_replicas) (11 * second) Ran "acme" "one").2
     [OpReap (20 * second) Ran "acme" 0; OpStart (20 * second) Ran "acme" "one"]) (21 * second) Ran "acme" "one").1 ≠ Ok true.
Proof.
  split; [vm_compute; reflexivity|].
  apply (claimed_task_is_exclusive (task_run ∅ two_replicas) (11 * second) Ran "acme" "one"
           [OpReap (20 * second) Ran "acme" 0; OpStart (20 * second) Ran "acme" "one"]).
  - vm_compute. reflexivity.
  - repeat constructor; vm_compute; discriminate.
Defined.

(** A task on its third hop. *)
Definition third_hop : list task_op :=
  [OpCreate 0 Ran "acme" (example_task "one" "message"); OpStart 0 Ran "acme" "one"; OpAdvance 0 Ran "acme" "one" 3 1 3 16].

Lemma task_calls_bounded_witness :
  counted (with_counters 0 (with_status 0 (example_task "one" "message") A2ATaskRunning "") 3 1) ∧
  ((AdvanceCounters (task_run ∅ third_hop) 0 Ran "acme" "one" 1 1 3 16).1 = Ok false ↔ 3 < 3 + 1).
Proof.
  apply (task_calls_bounded third_hop "acme" "one" (with_counters 0 (with_status 0 (example_task "one" "message") A2ATaskRunning "") 3 1) 0 1).
  - repeat constructor; vm_compute; congruence.
  - lia.
  - discriminate.
  - vm_compute. reflexivity.
Defined.

(** ** Where the guarantees end *)

(** The status is set without a look at the row.  A relay that outlives the TTL of five
    minutes is reaped and another request claims and completes the task; when the slow
    relay fails at last it puts the completed task back to failed and erases its
    result, and the message is sent a third time. *)
Definition slow_relay : list task_op :=
  [OpCreate 0 Ran "acme" (example_task "one" "message"); OpStart 0 Ran "acme" "one";
   OpReap (400 * second) Ran "acme" (100 * second); OpStart (400 * second) Ran "acme" "one";
   OpSet (401 * second) Ran "acme" "one" A2ATaskCompleted "answer"].

Example slow_relay_erases_answer :
  a2_Result <$> task_run ∅ slow_relay !! ("acme", "one") = Some "answer" ∧
  let t := task_run ∅ (slow_relay ++ [OpSet (402 * second) Ran "acme" "one" A2ATaskFailed ""])%list in
  (λ task, (a2_Status task, a2_Result task)) <$> t !! ("acme", "one") = Some (A2ATaskFailed, "") ∧
  (TryStart t (403 * second) Ran "acme" "one").1 = Ok true.
Proof. vm_compute. auto. Qed.

(** The reaper takes running tasks only: a task whose claim failed on the database right
    after it was created stays pending however old it gets. *)
Example pending_task_is_never_reaped :
  let t := task_run ∅ [OpCreate 0 Ran "acme" (example_task "one" "message"); OpStart 0 (Failed (ErrNew "connection lost")) "acme" "one";
                       OpReap (100000 * second) Ran "acme" (99700 * second)] in
  a2_Status <$> t !! ("acme", "one") = Some A2ATaskPending.
Proof. vm_compute. reflexivity. Qed.
