(* ===== verification/AgentCall.v ===== *)
(** * Calls to agents and tools: who may be called and how the call is made

    - agentic/routing: the endpoint an agent call goes to;
    - app/federationgate.go: the gate of calls that leave the trust boundary;
    - gateway/tool: the access list and schema check of tool calls;
    - connectors/agent/a2a and access/protocol/a2a/stream.go: the outbound connector, its
      stream of Server-Sent Events and the cache of connectors in app/gateway.go.

    A snapshot's collections come in the order a Go map is ranged over, which is an
    argument.  The frames of a stream are written and parsed by [GoJSON]; the HTTP client
    and the JSON forms of the other messages are a class; the connector's timeout is part
    of the client's answers. *)

From Stdlib Require Import Ascii.
From S2P Require Import Prelude GoFloat GoStd GoText GoJSON Snapshot Interaction Federation Guardrail Approval StreamGuard.

Open Scope string_scope.
Open Scope Z_scope.

(** ** agentic/routing *)

Record EndpointMetrics := { em_Health : float64; em_Cost : float64; em_LatencyMS : float64 }.
Record AgentScore := {
  as_EndpointID : string; as_Health : float64; as_Cost : float64; as_LatencyMS : float64; as_Total : float64 }.
Record AgentPlan := { ap_Capability : string; ap_Selected : string; ap_Fallback : list string; ap_Scores : list AgentScore }.

Definition Router : Type := gmap string float64.

Definition NewRouter (weights : option (gmap string float64)) : Router :=
  default {["health" := f64_one; "cost" := f64_one; "latency" := f64_one]} weights.

Definition ErrNoEligibleAgent : error := ErrNew "no eligible agent endpoint for capability".

Definition normLow (value : float64) : float64 :=
  let value := if f64_ltb value f64_zero then f64_zero else value in
  let normalized := f64_div value (f64_add value f64_one) in
  if f64_ltb f64_one normalized then f64_one else normalized.

Definition weight (r : Router) (name : string) : float64 := default f64_zero (r !! name).

Definition score (r : Router) (endpointID : string) (metric : EndpointMetrics) : AgentScore :=
  let total := f64_add (f64_add (f64_mul (weight r "health") (f64_sub f64_one (em_Health metric)))
                                (f64_mul (weight r "cost") (normLow (em_Cost metric))))
                       (f64_mul (weight r "latency") (normLow (em_LatencyMS metric))) in
  {| as_EndpointID := endpointID; as_Health := em_Health metric; as_Cost := em_Cost metric;
     as_LatencyMS := em_LatencyMS metric; as_Total := total |}.

Definition no_metrics : EndpointMetrics := {| em_Health := f64_zero; em_Cost := f64_zero; em_LatencyMS := f64_zero |}.

(** The endpoints of the agents with the capability; the collection is ranged over anew
    for every agent, in the order [ranged n]. *)
Definition eligible_endpoints (ranged : nat → list AgentEndpoint → list AgentEndpoint) (s : TenantRuntimeSnapshot) (capability : string) :
    list AgentEndpoint :=
  mjoin (imap (λ n id,
    List.filter (λ e, bool_decide (ae_AgentID e = id) && bool_decide (capability ∈ ae_Capabilities e))
      (ranged n (map_to_list (sn_agentEndpoints s)).*2)) (AgentsByCapability s capability)).

Definition agent_Plan (r : Router) (ranged : nat → list AgentEndpoint → list AgentEndpoint) (s : TenantRuntimeSnapshot)
    (capability : string) (metrics : gmap string EndpointMetrics) : result AgentPlan :=
  match eligible_endpoints ranged s capability with
  | [] => Err ErrNoEligibleAgent
  | eligible =>
      let scores := stable_sort (λ a b, f64_ltb (as_Total a) (as_Total b))
                      ((λ e, score r (ae_ID e) (default no_metrics (metrics !! ae_ID e))) <$> eligible) in
      match scores with
      | [] => Err ErrNoEligibleAgent
      | best :: _ => Ok {| ap_Capability := capability; ap_Selected := as_EndpointID best;
                           ap_Fallback := as_EndpointID <$> scores; ap_Scores := scores |}
      end
  end.

(** ** app/federationgate.go *)

Definition maxA2ADelegationHops : Z := 3.
Definition maxA2ATaskCalls : Z := 16.
Definition a2aTaskRunningTTL : Z := 5 * minute.
Definition a2aHopsMetadataKey : string := "a2a.delegation.hops".

(** [strconv.Atoi] *)
Fixpoint digits_value (acc : Z) (s : string) : option Z :=
  match s with
  | "" => Some acc
  | String c s => let d := Z.of_N (Ascii.N_of_ascii c) - 48 in
                  if within 0 9 d then digits_value (acc * 10 + d) s else None
  end.

Definition Atoi (s : string) : option Z :=
  let '(negative, body) := match s with
                           | String "-"%char rest => (true, rest)
                           | String "+"%char rest => (false, rest)
                           | _ => (false, s)
                           end in
  if bool_decide (body = "") then None
  else match digits_value 0 body with
       | None => None
       | Some n => let z := if negative : bool then - n else n in
                   if (min_int64 <=? z) && (z <=? max_int64) then Some z else None
       end.

Definition a2aHopCount (request : option UnifiedRequest) : Z :=
  match request with
  | None => 0
  | Some u => match Atoi (default "" (ur_Metadata u !! a2aHopsMetadataKey)) with
              | Some hops => if hops <? 0 then 0 else hops
              | None => 0
              end
  end.

(** The orders of a snapshot's two federation collections. *)
Record FederationOrder := {
  fo_agents : list FederatedAgent → list FederatedAgent;
  fo_relationships : list FederationRelationship → list FederationRelationship }.

Definition FederatedAgents (o : FederationOrder) (s : TenantRuntimeSnapshot) := fo_agents o (map_to_list (sn_federatedAgents s)).*2.
Definition FederationRelationships (o : FederationOrder) (s : TenantRuntimeSnapshot) := fo_relationships o (map_to_list (sn_federatedRels s)).*2.

Definition isExternalFederatedAgent (o : FederationOrder) (s : TenantRuntimeSnapshot) (agentID : string) : bool :=
  existsb (λ a, bool_decide (fa_TrustBoundary a = "external_federated") &&
                (bool_decide (fa_ID a = agentID) || bool_decide (fa_ExternalSubject a = agentID))) (FederatedAgents o s).

Definition trusted_for (agentID : string) (r : FederationRelationship) : bool :=
  bool_decide (fr_ExternalAgentID r = agentID) && bool_decide (fr_Status r = "active") && fr_HasVerifiedAnchor r.

Definition activeVerifiedRelationship (o : FederationOrder) (s : TenantRuntimeSnapshot) (agentID : string) : option FederationRelationship :=
  List.find (trusted_for agentID) (FederationRelationships o s).

Definition projectGranted (r : FederationRelationship) (projectID : string) : bool := bool_decide (projectID ∈ fr_ProjectGrants r).
Definition capabilityGranted (r : FederationRelationship) (capability : string) : bool := bool_decide (capability ∈ fr_CapabilityGrants r).

Definition directionAllowsOutbound (direction : string) : bool :=
  bool_decide (direction ∈ [""; "outbound"; "bidirectional"]).

Definition approvedVersionMatches (approved endpointVersion : string) : bool :=
  bool_decide (approved = "") || bool_decide (endpointVersion = "") || bool_decide (approved = endpointVersion).

Definition dataBoundarySatisfied (project : Project) (r : FederationRelationship) : bool :=
  if negb (bool_decide (fr_BoundaryStatus r ∈ [""; "unknown"; "declared"; "contractually_bound"])) then false
  else if bool_decide (fr_ProcessingRegions r = []) || bool_decide (pj_AllowedDataRegions project = []) then true
  else existsb (λ region, bool_decide (region ∈ pj_AllowedDataRegions project)) (fr_ProcessingRegions r).

Definition FEDERATION_HOP_LIMIT : error := ErrKernel "FEDERATION_HOP_LIMIT" "delegation hop limit exceeded" false.
Definition FEDERATION_UNTRUSTED : error := ErrKernel "FEDERATION_UNTRUSTED" "no active verified federation relationship for target agent" false.
Definition FEDERATION_DENIED (message : string) : error := ErrKernel "FEDERATION_DENIED" message false.

Definition status_active (status : string) : bool := bool_decide (status = "active") || bool_decide (status = "").

Definition stamped (i : Context) (direction : string) (f : FederationContext) : Context :=
  {| ic_Kind := ic_Kind i; ic_Protocol := ic_Protocol i; ic_TenantID := ic_TenantID i; ic_ProjectID := ic_ProjectID i;
     ic_SessionID := ic_SessionID i; ic_TaskID := ic_TaskID i; ic_RootTaskID := ic_RootTaskID i; ic_ParentTaskID := ic_ParentTaskID i;
     ic_ParentRequestID := ic_ParentRequestID i; ic_TrustBoundary := "external_federated"; ic_Direction := direction;
     ic_Federation := Some f; ic_Caller := ic_Caller i; ic_Target := ic_Target i |}.

(** The gate on a request [u] of the interaction [i]; the answer is the interaction with
    the federation context stamped on it. *)
Definition enforceA2AFederation (o : FederationOrder) (s : TenantRuntimeSnapshot) (u : option UnifiedRequest) (i : Context)
    (endpoint : AgentEndpoint) (capability : string) : result Context :=
  if maxA2ADelegationHops <=? a2aHopCount u then Err FEDERATION_HOP_LIMIT
  else if negb (isExternalFederatedAgent o s (ae_AgentID endpoint)) then Ok i
  else match activeVerifiedRelationship o s (ae_AgentID endpoint) with
  | None => Err FEDERATION_UNTRUSTED
  | Some r =>
      match snapshot_project s (ic_ProjectID i) with
      | None => Err (FEDERATION_DENIED "federated call denied: calling project is not active or does not exist")
      | Some project =>
          if negb (status_active (pj_Status project)) then Err (FEDERATION_DENIED "federated call denied: calling project is not active or does not exist")
          else if negb (projectGranted r (ic_ProjectID i)) then Err (FEDERATION_DENIED ("federated call denied: relationship grants no project grant for calling project " +:+ ic_ProjectID i))
          else if negb (capabilityGranted r capability) then Err (FEDERATION_DENIED ("federated call denied: relationship grants no capability grant for " +:+ capability))
          else if negb (directionAllowsOutbound (fr_Direction r)) then Err (FEDERATION_DENIED ("federated call denied: relationship direction " +:+ fr_Direction r +:+ " does not allow outbound calls"))
          else if negb (approvedVersionMatches (fr_ApprovedVersion r) (ae_Version endpoint)) then Err (FEDERATION_DENIED ("federated call denied: endpoint version " +:+ ae_Version endpoint +:+ " does not match approved version " +:+ fr_ApprovedVersion r))
          else if negb (dataBoundarySatisfied project r) then Err (FEDERATION_DENIED "federated call denied: relationship data boundary does not satisfy calling project residency policy")
          else
            let permission := Federation.Evaluate
              {| SystemPolicyEnabled := true; TenantActive := status_active (sn_Status s); ProjectActive := true;
                 CallerAllowed := true; LocalDelegationGranted := true; RelationshipActive := true;
                 ProjectGranted := projectGranted r (ic_ProjectID i); CapabilityGranted := capabilityGranted r capability;
                 DataBoundarySatisfied := dataBoundarySatisfied project r |} in
            if negb (Federation.Allowed permission) then Err (FEDERATION_DENIED "federated permission intersection failed")
            else Ok (stamped i "outbound"
                       {| fc_RelationshipID := Snapshot.fr_ID r; fc_ExternalAgentID := ae_AgentID endpoint; fc_AssuranceLevel := fr_AssuranceLevel r;
                          fc_DataBoundary := ""; fc_TrustAnchorID := "" |})
      end
  end.

(** ** gateway/tool *)

(** What the gate reads of JSON text: the required list of a schema, and the keys of an
    object. *)
Class ToolJSON := { required_fields : list Z → result (list string); object_keys : string → result (list string) }.

Definition agentAllowed (allowed : list string) (caller : PrincipalRef) : bool :=
  match allowed with
  | [] => true
  | _ => bool_decide (pref_Type caller = "agent") && bool_decide (pref_ID caller ∈ allowed)
  end.

Section ToolGate.
Context `{!Regexp} `{!ToolJSON}.

Definition validateRequired (schema : list Z) (arguments : string) : option error :=
  match schema with
  | [] => None
  | _ =>
      match required_fields schema with
      | Err err => Some err
      | Ok required =>
          match object_keys arguments with
          | Err err => Some err
          | Ok values => if forallb (λ field, bool_decide (field ∈ values)) required then None
                         else Some (ErrNew "required field missing")
          end
      end
  end.

Definition TOOL_NOT_FOUND : error := ErrKernel "TOOL_NOT_FOUND" "tool not available" false.
Definition TOOL_FORBIDDEN : error := ErrKernel "TOOL_FORBIDDEN" "tool is not allowed" false.
Definition TOOL_SCHEMA_INVALID : error := ErrKernel "TOOL_SCHEMA_INVALID" "tool arguments do not match schema" false.
Definition TOOL_DLP_BLOCKED : error := ErrKernel "TOOL_DLP_BLOCKED" "tool arguments blocked by policy" false.
Definition INCOMPLETE_TOOL_REQUEST : error := ErrNew "tool request is incomplete".

Definition tool_Handle (dlp : option Engine) (c : RequestContext) : option error :=
  match rc_Interaction c with
  | None => None
  | Some i =>
      if negb (bool_decide (ic_Kind i = "tool")) then None
      else match rc_Snapshot c, rc_Request c ≫= ur_Tool with
      | Some s, Some payload =>
          let toolID := rref_ID (ic_Target i) in
          match snapshot_tool s toolID with
          | None => Some TOOL_NOT_FOUND
          | Some tool =>
              match snapshot_toolPolicy s (ProjectID c) toolID with
              | None => Some TOOL_FORBIDDEN
              | Some policy =>
                  if negb (tp_Allowed policy) || negb (agentAllowed (tp_AllowedAgentIDs policy) (ic_Caller i)) then Some TOOL_FORBIDDEN
                  else match validateRequired (tl_Schema tool) (tl_Arguments payload) with
                       | Some _ => Some TOOL_SCHEMA_INVALID
                       | None =>
                           match dlp with
                           | Some e => if res_Blocked (Guardrail.Evaluate e (tl_Arguments payload)) then Some TOOL_DLP_BLOCKED else None
                           | None => None
                           end
                       end
              end
          end
      | _, _ => Some INCOMPLETE_TOOL_REQUEST
      end
  end.
End ToolGate.

(** ** connectors/agent/a2a *)

Record A2AConfig := {
  cf_BaseURL : string; cf_Timeout : Z; cf_SecretRef : string; cf_AuthScheme : string; cf_Headers : gmap string string }.

Record InvocationRequest := {
  iv_TargetID : string; iv_Request : option UnifiedRequest; iv_TenantID : string; iv_ProjectID : string;
  iv_RequestID : string; iv_AgentID : string; iv_CredentialID : string }.

(** A post of the connector, and the answer of the peer: the bytes of the body, and the
    error that ended them, if it was not the end of the file. *)
Record Post := { ps_URL : string; ps_Headers : gmap string string; ps_Payload : string }.
Record Answer := { an_StatusCode : Z; an_ContentType : string; an_Body : string; an_ReadError : option error }.

Record Part := { pt_Kind : string; pt_Text : string }.
Record resultWire := { rw_Parts : list Part; rw_Error : option string }.
Record streamDataFrame := { sf_Type : string; sf_Message : option (list Part); sf_Error : option string }.

(** The client, the secret resolver, and the JSON forms the connector reads and writes:
    the envelope of a message and the result; for tools the
    envelope of a call (with its id and method) and the content of the result. *)
Class AgentNet (C : Type) := {
  net_Do : C → Post → result Answer * C;
  net_Resolve : C → string → result string * C;
  marshal_message : string → string → string → result string;
  decode_result : Answer → result resultWire;
  marshal_tool_call : string → string → ToolPayload → string;
  decode_tool_result : Answer → result string }.

(** A [*contracts.UpstreamError] of a code, a message and whether it may be retried, and
    [errors.As] for it. *)
Class UpstreamErrors := {
  UpstreamError : string → string → bool → error;
  as_upstream : error → option (string * string * bool) }.

Section Upstream.
Context `{!UpstreamErrors}.

Definition upstreamRetryable (err : error) : bool :=
  match as_upstream err with Some (_, _, retryable) => retryable | None => false end.

Definition NormalizeError (err : error) : error :=
  match as_upstream err with
  | Some (code, msg, retryable) => UpstreamError code msg retryable
  | None => UpstreamError "A2A_ERROR" "A2A invocation failed" false
  end.

(** The same of connectors/tool/mcp. *)
Definition mcp_NormalizeError (err : error) : error :=
  match as_upstream err with
  | Some (code, msg, retryable) => UpstreamError code msg retryable
  | None => UpstreamError "MCP_ERROR" "MCP invocation failed" true
  end.
End Upstream.

(** The last turn that has text, with its role in the vocabulary of A2A. *)
Definition turn (acc : string * string) (m : Message) : string * string :=
  if bool_decide (msg_Content m = "") then acc
  else (if bool_decide (msg_Role m ∈ ["assistant"; "system"; "developer"]) then "agent" else "user", msg_Content m).
Definition chatTurn (chat : ChatPayload) : string * string := foldl turn ("user", "") (chat_Messages chat).

(** The texts of the text parts, one per line. *)
Definition add_part (content : string) (p : Part) : string :=
  if bool_decide (pt_Kind p = "text") then
    (if bool_decide (content = "") then content else content +:+ newline) +:+ pt_Text p
  else content.
Definition text_of (parts : list Part) : string := foldl add_part "" parts.

(** A response that carries a tool result only; the other fields have their zero values. *)
Definition tool_result (id name content source : string) (trusted : bool) : UnifiedResponse :=
  {| re_ID := id; re_Model := ""; re_StopReason := ""; re_Usage := no_usage; re_CreatedAt := 0; re_Choices := []; re_Embeddings := [];
     re_Rerank := []; re_Audio := None; re_Batch := None; re_File := None; re_RawContent := "";
     re_ToolResult := Some {| tres_Name := name; tres_Content := content;
                              tres_Provenance := {| pn_Source := source; pn_Trusted := trusted |} |} |}.

Definition external_response (id target content : string) : UnifiedResponse :=
  tool_result id target content "external_agent_response" false.

(** *** The frames of a stream, access/protocol/a2a/stream.go *)

Definition part_json (p : Part) : json := JObj [("kind", JStr (pt_Kind p)); ("text", JStr (pt_Text p))].

(** The frame of one delta, and the frame that completes the stream. *)
Definition textFrame (delta : string) : json :=
  JObj [("type", JStr "message");
        ("message", JObj [("parts", JArr (part_json <$> [{| pt_Kind := "text"; pt_Text := delta |}]))])].

Definition EncodeStreamChunk (delta : string) : result string := Ok (json_print (textFrame delta)).
Definition EncodeStreamCompleted : result string := Ok (json_print (JObj [("type", JStr "completed")])).

(** The parse view of a frame: [json.Unmarshal] into a [streamDataFrame]. *)
Definition no_part : Part := {| pt_Kind := ""; pt_Text := "" |}.

Definition as_part (old : Part) (t : string) : result Part :=
  members ← json_fields t;
  kind ← field "kind" as_string (pt_Kind old) members;
  text ← field "text" as_string (pt_Text old) members;
  Ok {| pt_Kind := kind; pt_Text := text |}.

Definition as_message (old : list Part * list Part) (t : string) : result (list Part * list Part) :=
  members ← json_fields t; field "parts" (as_slice no_part as_part) old members.

Definition as_frame_error (old : json * string) (t : string) : result (json * string) :=
  members ← json_fields t;
  errorCode ← field "code" as_any old.1 members;
  message ← field "message" as_string old.2 members;
  Ok (errorCode, message).

Definition unmarshal_frame (data : string) : result streamDataFrame :=
  members ← json_fields data;
  kind ← field "type" as_string "" members;
  message ← field "message" (as_pointer ([], []) as_message) None members;
  failure ← field "error" (as_pointer (JNull, "") as_frame_error) None members;
  Ok {| sf_Type := kind; sf_Message := fst <$> message; sf_Error := snd <$> failure |}.

Definition frame_error (message : string) : error :=
  ErrNew ("a2a stream error: " +:+ (if bool_decide (message = "") then "A2A stream error" else message)).

(** ParseStreamFrame: the text, and whether the stream is completed. *)
Definition ParseStreamFrame (data : string) : result (string * bool) :=
  if bool_decide (trim_space (bytes_of_string data) = []) then Ok ("", false)
  else match unmarshal_frame data with
  | Err err => Err err
  | Ok frame =>
      match sf_Error frame with
      | Some message => Err (frame_error message)
      | None =>
          if bool_decide (sf_Type frame = "completed") then Ok ("", true)
          else if bool_decide (sf_Type frame = "message") then
            match sf_Message frame with None => Ok ("", false) | Some parts => Ok (text_of parts, false) end
          else Ok ("", false)
      end
  end.

Section Connector.
Context {C : Type} `{!AgentNet C} `{!UpstreamErrors}.

Definition header_set (headers : gmap string string) (extra : gmap string string) : gmap string string := extra ∪ headers.

Definition attachCredentials (cfg : A2AConfig) (headers : gmap string string) (net : C) : result (gmap string string) * C :=
  let headers := header_set headers (cf_Headers cfg) in
  if bool_decide (cf_SecretRef cfg = "") then (Ok headers, net)
  else match net_Resolve net (cf_SecretRef cfg) with
  | (Err _, net) => (Err (ErrNew "resolve agent endpoint credential"), net)
  | (Ok secret, net) =>
      (if bool_decide (cf_AuthScheme cfg = "bearer") then Ok (<["Authorization" := "Bearer " +:+ secret]> headers)
       else if bool_decide (cf_AuthScheme cfg = "x-api-key") then Ok (<["X-Api-Key" := secret]> headers)
       else if bool_decide (cf_AuthScheme cfg = "") then Err (ErrNew "agent endpoint auth scheme is required")
       else Err (ErrNew "unsupported agent endpoint auth scheme"), net)
  end.

Definition send (cfg : A2AConfig) (now : string) (r : InvocationRequest) (stream : bool) (net : C) : result Answer * C :=
  match iv_Request r ≫= ur_Chat with
  | None => (Err (ErrNew "A2A message is required"), net)
  | Some chat =>
      let '(role, text) := chatTurn chat in
      let messageID := if bool_decide (iv_RequestID r = "") then now else iv_RequestID r in
      match marshal_message messageID role text with
      | Err err => (Err err, net)
      | Ok payload =>
          let headers : gmap string string := {["Content-Type" := "application/json"; "A2a-Protocol-Version" := "1.0.0"]} in
          let headers := if stream then <["Accept" := "text/event-stream"]> headers else headers in
          match attachCredentials cfg headers net with
          | (Err err, net) => (Err err, net)
          | (Ok headers, net) =>
              match net_Do net {| ps_URL := cf_BaseURL cfg; ps_Headers := headers; ps_Payload := payload |} with
              | (Err err, net) => (Err err, net)
              | (Ok answer, net) =>
                  if 400 <=? an_StatusCode answer then (Err (UpstreamError "A2A_UPSTREAM_ERROR" "A2A invocation failed" false), net)
                  else (Ok answer, net)
              end
          end
      end
  end.

Definition decodeResult (answer : Answer) (r : InvocationRequest) : result UnifiedResponse :=
  match decode_result answer with
  | Err err => Err err
  | Ok wire =>
      match rw_Error wire with
      | Some message => Err (UpstreamError "A2A_RPC_ERROR" (if bool_decide (message = "") then "A2A invocation failed" else message) false)
      | None => Ok (external_response (iv_RequestID r) (iv_TargetID r) (text_of (rw_Parts wire)))
      end
  end.

Definition a2a_Invoke (cfg : A2AConfig) (now : string) (r : InvocationRequest) (net : C) : result UnifiedResponse * C :=
  match send cfg now r false net with
  | (Err err, net) => (Err err, net)
  | (Ok answer, net) => (decodeResult answer r, net)
  end.

(** *** connectors/tool/mcp: a tool call

    [url] is the server's; the gateway's connectors have no event sink. *)
Definition tool_response (id name content : string) : UnifiedResponse := tool_result id name content "tool_result" false.

Definition mcpMethod (u : UnifiedRequest) : string :=
  let method := default "" (ur_Metadata u !! "mcp_method") in if bool_decide (method = "") then "tools/call" else method.

Definition mcp_Invoke (url : string) (r : InvocationRequest) (net : C) : result UnifiedResponse * C :=
  match iv_Request r with
  | None => (Err (ErrNew "tool request is required"), net)
  | Some u =>
      match ur_Tool u with
      | None => (Err (ErrNew "tool request is required"), net)
      | Some tool =>
          let headers : gmap string string :=
            {["Content-Type" := "application/json"; "Mcp-Protocol-Version" := "2026-07-28"; "Mcp-Method" := mcpMethod u; "Mcp-Name" := tl_Name tool]} in
          match net_Do net {| ps_URL := url; ps_Headers := headers; ps_Payload := marshal_tool_call (iv_RequestID r) (mcpMethod u) tool |} with
          | (Err err, net) => (Err err, net)
          | (Ok answer, net) =>
              (if 400 <=? an_StatusCode answer
               then Err (UpstreamError "MCP_UPSTREAM_ERROR" "MCP tool invocation failed" (500 <=? an_StatusCode answer))
               else match decode_tool_result answer with
                    | Err err => Err err
                    | Ok content => Ok (tool_response (iv_RequestID r) (tl_Name tool) content)
                    end, net)
          end
      end
  end.

(** *** Streams *)

Class Sink (W : Type) := { sink_Write : W → StreamEvent → option error * W }.

Definition stream_event (id delta : string) (final : bool) : StreamEvent :=
  {| se_ID := id; se_Model := ""; se_Index := 0; se_Delta := delta; se_ToolCallDeltas := []; se_StopReason := "";
     se_Usage := None; se_Final := final |}.

Definition ErrTooLong : error := ErrNew "bufio.Scanner: token too long".
Definition ErrUnexpectedEOF : error := ErrNew "unexpected EOF".

(** What a [bufio.Scanner] makes of a body: the lines, and the error that ended them.  A
    line that fills the buffer of 65536 bytes ends the scan.  A carriage return at the end
    of a line is a space for the consumer, so it is left here. *)
Fixpoint lines_of (s : string) : list string :=
  match s with
  | "" => []
  | String c s => if Ascii.eqb c (Ascii.ascii_of_nat 10) then "" :: lines_of s
                  else match lines_of s with [] => [String c ""] | l :: ls => String c l :: ls end
  end.

Definition fits_buffer (line : string) : bool := Z.of_nat (String.length line) <? 65536.

Fixpoint scan (lines : list string) (ended : option error) : list string * option error :=
  match lines with
  | [] => ([], ended)
  | line :: rest => if fits_buffer line then let '(ls, err) := scan rest ended in (line :: ls, err) else ([], Some ErrTooLong)
  end.

Definition trimmed (s : string) : string :=
  String.string_of_list_ascii (map (λ b, Ascii.ascii_of_N (Z.to_N b)) (trim_space (bytes_of_string s))).

(** [strings.HasPrefix] and [strings.TrimPrefix] at once. *)
Fixpoint after_prefix (p s : string) : option string :=
  match p, s with
  | "", _ => Some s
  | String a p, String b s => if Ascii.eqb a b then after_prefix p s else None
  | _, _ => None
  end.

Definition data_of (line : string) : option string := after_prefix "data:" line.

Section Streams.
Context {W : Type} `{!Sink W}.

Fixpoint consume_lines (id : string) (lines : list string) (ended : option error) (w : W) : option error * W :=
  match lines with
  | [] => (Some (default ErrUnexpectedEOF ended), w)
  | raw :: rest =>
      match trimmed <$> data_of (trimmed raw) with
      | None => consume_lines id rest ended w
      | Some data =>
          if bool_decide (data = "") then consume_lines id rest ended w
          else if bool_decide (data = "[DONE]") then sink_Write w (stream_event id "" true)
          else match ParseStreamFrame data with
          | Err err => (Some err, w)
          | Ok (delta, completed) =>
              let '(err, w) := if bool_decide (delta = "") then (None, w) else sink_Write w (stream_event id delta false) in
              match err with
              | Some err => (Some err, w)
              | None => if completed : bool then sink_Write w (stream_event id "" true) else consume_lines id rest ended w
              end
          end
      end
  end.

Definition consumeSSE (answer : Answer) (r : InvocationRequest) (w : W) : option error * W :=
  let '(lines, ended) := scan (lines_of (an_Body answer)) (an_ReadError answer) in
  consume_lines (iv_RequestID r) lines ended w.

Definition a2a_Stream (cfg : A2AConfig) (now : string) (r : InvocationRequest) (net : C) (w : W) : option error * C * W :=
  match iv_Request r with
  | None => (Some (ErrNew "A2A message is required"), net, w)
  | Some u =>
      match send cfg now r (ur_Stream u) net with
      | (Err err, net) => (Some err, net, w)
      | (Ok answer, net) =>
          if ur_Stream u && contains "text/event-stream" (to_lower (an_ContentType answer)) then
            let '(err, w) := consumeSSE answer r w in (err, net, w)
          else match decodeResult answer r with
          | Err err => (Some err, net, w)
          | Ok parsed =>
              let content := match re_ToolResult parsed with Some t => tres_Content t | None => "" end in
              let '(err, w) := sink_Write w (stream_event (re_ID parsed) content true) in (err, net, w)
          end
      end
  end.
End Streams.

(** *** The relay's writer, app/gateway.go *)

Record relayDeltaForwarder (W : Type) := { fw_id : string; fw_agentID : string; fw_sink : option W; fw_content : string }.

#[export] Instance forwarder_sink {W} `{!Sink W} : Sink (relayDeltaForwarder W) :=
  {| sink_Write d event :=
       let content := fw_content W d +:+ se_Delta event in
       match fw_sink W d with
       | None => (None, {| fw_id := fw_id W d; fw_agentID := fw_agentID W d; fw_sink := None; fw_content := content |})
       | Some w =>
           let '(err, w) := sink_Write w (stream_event (fw_id W d) (se_Delta event) (se_Final event)) in
           (err, {| fw_id := fw_id W d; fw_agentID := fw_agentID W d; fw_sink := Some w; fw_content := content |})
       end |}.

Definition forwarder_response {W} (d : relayDeltaForwarder W) : UnifiedResponse :=
  external_response (fw_id W d) (fw_agentID W d) (fw_content W d).

(** *** The inbound side, gateway/server: the A2A encoder over the SSE writer

    [sw_accepts n] is the answer of the [n]-th write to the connection. *)

Record sseWriter := { sw_out : string; sw_writes : nat; sw_finalSent : bool; sw_failed : bool }.

Definition newSSEWriter : sseWriter := {| sw_out := ""; sw_writes := 0; sw_finalSent := false; sw_failed := false |}.

Section Writer.
Context (accepts : nat → option error).

Definition encode_event (event : StreamEvent) : result (list string) :=
  if bool_decide (se_Delta event = "") then Ok []
  else match EncodeStreamChunk (se_Delta event) with Err err => Err err | Ok data => Ok [data] end.

Definition final_frames : list string := match EncodeStreamCompleted with Err _ => [] | Ok data => [data] end.

Definition frame_text (data : string) : string := "data: " +:+ data +:+ newline +:+ newline.

Fixpoint writeFrames (frames : list string) (s : sseWriter) : option error * sseWriter :=
  match frames with
  | [] => (None, s)
  | data :: rest =>
      let next out := {| sw_out := out; sw_writes := S (sw_writes s); sw_finalSent := sw_finalSent s; sw_failed := sw_failed s |} in
      match accepts (sw_writes s) with
      | Some err => (Some err, next (sw_out s))
      | None => writeFrames rest (next (sw_out s +:+ frame_text data))
      end
  end.

Definition failed_writer (s : sseWriter) : sseWriter :=
  {| sw_out := sw_out s; sw_writes := sw_writes s; sw_finalSent := sw_finalSent s; sw_failed := true |}.
Definition finished_writer (s : sseWriter) : sseWriter :=
  {| sw_out := sw_out s; sw_writes := sw_writes s; sw_finalSent := true; sw_failed := sw_failed s |}.

Definition sse_WriteChunk (s : sseWriter) (event : StreamEvent) : option error * sseWriter :=
  if sw_failed s then (None, s)
  else match encode_event event with
  | Err err => (Some err, failed_writer s)
  | Ok frames =>
      match writeFrames frames s with
      | (Some err, s) => (Some err, failed_writer s)
      | (None, s) =>
          if se_Final event && negb (sw_finalSent s) then
            match writeFrames final_frames (finished_writer s) with
            | (Some err, s) => (Some err, failed_writer s)
            | (None, s) => (None, s)
            end
          else (None, s)
      end
  end.

(** [fail] once the stream has started; [payload] is the encoded error. *)
Definition sse_fail (payload : string) (s : sseWriter) : sseWriter :=
  if sw_failed s then s
  else
    let text := "event: error" +:+ newline +:+ frame_text payload in
    {| sw_out := match accepts (sw_writes s) with None => sw_out s +:+ text | Some _ => sw_out s end;
       sw_writes := S (sw_writes s); sw_finalSent := sw_finalSent s; sw_failed := true |}.
End Writer.
End Connector.

(** *** The cache of connectors, app/gateway.go

    A connector is its configuration; [client] and [secrets] tell whether the gateway has
    an HTTP client and a secret resolver. *)

Record connectorCache := { cc_mcp : gmap string string; cc_a2a : gmap string A2AConfig }.
Definition newConnectorCache : connectorCache := {| cc_mcp := ∅; cc_a2a := ∅ |}.

Definition a2a_New (client secrets : bool) (cfg : A2AConfig) : result A2AConfig :=
  if bool_decide (cf_BaseURL cfg = "") || (cf_Timeout cfg <=? 0) || negb client
  then Err (ErrNew "complete A2A connector configuration is required")
  else if bool_decide (cf_SecretRef cfg ≠ "") && negb secrets
  then Err (ErrNew "A2A connector requires a secret resolver when a secret ref is configured")
  else Ok cfg.

Definition a2a_cache_key (cfg : A2AConfig) : string := cf_BaseURL cfg +:+ String Ascii.zero (cf_SecretRef cfg).

Definition a2aFor (client secrets : bool) (cfg : A2AConfig) (cache : connectorCache) : result A2AConfig * connectorCache :=
  match cc_a2a cache !! a2a_cache_key cfg with
  | Some cached => (Ok cached, cache)
  | None =>
      match a2a_New client secrets cfg with
      | Err err => (Err err, cache)
      | Ok connector => (Ok connector, {| cc_mcp := cc_mcp cache; cc_a2a := <[a2a_cache_key cfg := connector]> (cc_a2a cache) |})
      end
  end.

Definition mcpFor (client : bool) (url : string) (cache : connectorCache) : result string * connectorCache :=
  match cc_mcp cache !! url with
  | Some cached => (Ok cached, cache)
  | None =>
      if bool_decide (url = "") || negb client then (Err (ErrNew "complete MCP connector configuration is required"), cache)
      else (Ok url, {| cc_mcp := <[url := url]> (cc_mcp cache); cc_a2a := cc_a2a cache |})
  end.

(** ** Trimming *)

Definition visible (b : Z) : Prop := 33 <= b <= 126.

Lemma space_front_visible b rest : visible b → space_front (b :: rest) = None.
Proof.
  intros Hb. unfold visible in Hb. simpl.
  assert (∀ n, n < 33 ∨ 126 < n → (b =? n) = false) as Hne by (intros n Hn; apply Z.eqb_neq; lia).
  assert (within 9 13 b = false) as ->. { unfold within. destruct (Z.leb_spec 9 b), (Z.leb_spec b 13); try done; lia. }
  rewrite !Hne by lia. simpl. by destruct rest as [|? [|? ?]].
Qed.

Lemma space_back_visible b rest : visible b → space_back (b :: rest) = None.
Proof.
  intros Hb. unfold visible in Hb. unfold space_back.
  assert (∀ n, n < 33 ∨ 126 < n → (b =? n) = false) as Hne by (intros n Hn; apply Z.eqb_neq; lia).
  assert (within 9 13 b = false ∧ within 128 138 b = false) as [-> Hw].
  { unfold within. destruct (Z.leb_spec 9 b), (Z.leb_spec b 13), (Z.leb_spec 128 b); try done; lia. }
  rewrite !Hne by lia. simpl. destruct rest as [|x [|y rest]]; [done|by rewrite andb_false_r|]. rewrite andb_false_r.
  rewrite bool_decide_false; [done|]. unfold space_front. rewrite Hw, !Hne by lia. rewrite !andb_false_r. simpl.
  repeat case_match; congruence.
Qed.

Lemma drop_spaces_none step fuel bs : step bs = None → drop_spaces step fuel bs = bs.
Proof. intros H. destruct fuel; simpl; [done|]. by rewrite H. Qed.

Lemma trim_space_visible a mid b : visible a → visible b → trim_space (a :: mid ++ [b])%list = (a :: mid ++ [b])%list.
Proof.
  intros Ha Hb. unfold trim_space. rewrite (drop_spaces_none space_front) by (by apply space_front_visible).
  rewrite (drop_spaces_none space_back); [by rewrite reverse_involutive|].
  change (a :: mid ++ [b])%list with ((a :: mid) ++ [b])%list. rewrite reverse_app. simpl. by apply space_back_visible.
Qed.

Lemma trim_space_blank bs : trim_space (32 :: bs) = trim_space bs.
Proof. done. Qed.

Lemma string_of_bytes_of_string s : String.string_of_list_ascii (map (λ b, Ascii.ascii_of_N (Z.to_N b)) (bytes_of_string s)) = s.
Proof.
  unfold bytes_of_string. rewrite map_map. induction s as [|c s IH]; [done|]. cbn. rewrite N2Z.id, Ascii.ascii_N_embedding. f_equal. exact IH.
Qed.

Lemma bytes_of_string_app a b : bytes_of_string (a +:+ b) = (bytes_of_string a ++ bytes_of_string b)%list.
Proof. unfold bytes_of_string. by rewrite list_ascii_app, map_app. Qed.

(** The text of a JSON object without spaces around it: it begins and ends with a brace
    and has one line. *)
Definition one_line_object (data : string) : Prop :=
  (∃ body, data = "{" +:+ body +:+ "}") ∧ Ascii.ascii_of_nat 10 ∉ String.list_ascii_of_string data.

Lemma object_bytes data : one_line_object data → ∃ mid, bytes_of_string data = (123 :: mid ++ [125])%list.
Proof. intros ((body & ->) & _). exists (bytes_of_string body). by rewrite !bytes_of_string_app. Qed.

Lemma trimmed_object data : one_line_object data → trimmed data = data.
Proof.
  intros Ho. unfold trimmed. destruct (object_bytes _ Ho) as (mid & Hm). rewrite Hm, trim_space_visible by (unfold visible; lia).
  rewrite <- Hm. apply string_of_bytes_of_string.
Qed.

Lemma trimmed_blank_object data : one_line_object data → trimmed (String " "%char data) = data.
Proof. intros Ho. rewrite <- (trimmed_object _ Ho) at 2. unfold trimmed. by rewrite <- trim_space_blank. Qed.

Lemma trimmed_data_line data : one_line_object data → trimmed ("data: " +:+ data) = "data: " +:+ data.
Proof.
  intros Ho. unfold trimmed. destruct (object_bytes _ Ho) as (mid & Hm). rewrite bytes_of_string_app, Hm.
  assert ((bytes_of_string "data: " ++ (123 :: mid ++ [125]))%list = (100 :: ([97; 116; 97; 58; 32; 123] ++ mid) ++ [125])%list) as E by done.
  rewrite E, trim_space_visible by (unfold visible; lia). rewrite <- E, <- Hm, <- bytes_of_string_app. apply string_of_bytes_of_string.
Qed.

(** ** A stream arrives as it was sent

    One gateway renders a reply as Server-Sent Events, another one reads it. *)

Lemma lines_of_app (a b : string) :
  Ascii.ascii_of_nat 10 ∉ String.list_ascii_of_string a → lines_of (a +:+ newline +:+ b) = a :: lines_of b.
Proof.
  induction a as [|c a IH]; intros Ha; [done|]. rewrite !str_cons_app. cbn [lines_of]. simpl in Ha.
  destruct (Ascii.eqb_spec c (Ascii.ascii_of_nat 10)) as [->|Hc]; [set_solver|]. rewrite IH by set_solver. done.
Qed.

(** What the sink is told, until it refuses. *)
Fixpoint deliver {W} `{!Sink W} (events : list StreamEvent) (w : W) : option error * W :=
  match events with
  | [] => (None, w)
  | event :: rest => match sink_Write w event with (Some err, w) => (Some err, w) | (None, w) => deliver rest w end
  end.

Lemma deliver_app {W} `{!Sink W} a b (w : W) :
  deliver (a ++ b)%list w = match deliver a w with (Some err, w) => (Some err, w) | (None, w) => deliver b w end.
Proof. revert w. induction a as [|e a IH]; intros w; simpl; [done|]. destruct (sink_Write _ _) as [[]]; [done|]. apply IH. Qed.

(** *** Frames read back *)

Lemma chunk_json_ok delta : GoJSON.text delta = true → json_ok maxNestingDepth (textFrame delta) = true.
Proof.
  intros Ht. apply (ok_mono 4); [|apply Nat.leb_le; vm_compute; reflexivity]. simpl. by rewrite Ht.
Qed.

Lemma part_decoded p old :
  json_ok maxNestingDepth (part_json p) = true → as_part old (json_print (part_json p)) = Ok p.
Proof.
  intros Hp. unfold part_json in *. unfold as_part. rewrite (fields_printed _ Hp). split_ok Hp.
  read_fields ltac:(by apply string_decoded). by destruct p.
Qed.

Lemma message_decoded parts :
  json_ok maxNestingDepth (JObj [("parts", JArr (part_json <$> parts))]) = true →
  as_message ([], []) (json_print (JObj [("parts", JArr (part_json <$> parts))])) = Ok (parts, []).
Proof.
  intros Hm. unfold as_message. rewrite (fields_printed _ Hm). split_ok Hm.
  read_fields ltac:(apply slice_decoded; [done|]; intros; apply part_decoded, ok_item with (part_json <$> parts); [done|by apply list_elem_of_fmap_2]).
  done.
Qed.

(** A delta of well-formed UTF-8 is read back as it was sent. *)
Lemma chunk_read delta :
  GoJSON.text delta = true →
  unmarshal_frame (json_print (textFrame delta)) =
  Ok {| sf_Type := "message"; sf_Message := Some [{| pt_Kind := "text"; pt_Text := delta |}]; sf_Error := None |}.
Proof.
  intros Ht. pose proof (chunk_json_ok _ Ht) as Hok. unfold textFrame in *. unfold unmarshal_frame. rewrite (fields_printed _ Hok).
  split_ok Hok. set (m := JObj [("parts", _)]) in *.
  assert (as_pointer ([], []) as_message None (json_print m) = Ok (Some ([{| pt_Kind := "text"; pt_Text := delta |}], []))) as Hm.
  { apply pointer_decoded; [assumption|discriminate|]. by apply message_decoded. }
  clearbody m. read_fields ltac:(first [by apply string_decoded|exact Hm]).
  done.
Qed.

Lemma completed_read :
  unmarshal_frame (json_print (JObj [("type", JStr "completed")])) =
  Ok {| sf_Type := "completed"; sf_Message := None; sf_Error := None |}.
Proof. vm_compute. reflexivity. Qed.

Lemma chunk_object delta : one_line_object (json_print (textFrame delta)).
Proof.
  split; [apply object_shape|].
  unfold textFrame, part_json.
  cbn [json_print map fmap list_fmap String.concat pt_Kind pt_Text fst snd].
  repeat (rewrite list_ascii_app, not_elem_of_app; split); try apply quote_one_line;
    apply (bool_decide_unpack _); vm_compute; exact I.
Qed.

Lemma completed_object : one_line_object (json_print (JObj [("type", JStr "completed")])).
Proof. split; [apply object_shape|]. apply (bool_decide_unpack _); vm_compute; exact I. Qed.

(** A delta the stream carries: some text, well-formed UTF-8, in a frame whose line stays
    within the buffer of the reader. *)
Record carried (delta : string) : Prop := {
  ca_some : delta ≠ "";
  ca_text : GoJSON.text delta = true;
  ca_fits : fits_buffer ("data: " +:+ json_print (textFrame delta)) = true }.

Definition chunk_frames (deltas : list string) : list string := json_print <$> (textFrame <$> deltas).

Section Arrival.
Context {C W : Type} `{!AgentNet C} `{!UpstreamErrors} `{!Sink W}.

Definition frames_text (frames : list string) : string := foldr (λ data rest, frame_text data +:+ rest) "" frames.

Lemma frames_text_app a b : frames_text (a ++ b)%list = frames_text a +:+ frames_text b.
Proof. induction a as [|x a IH]; simpl; [by rewrite str_nil_app|]. by rewrite IH, str_app_assoc. Qed.

Lemma writeFrames_all frames s :
  let s' := (writeFrames (λ _, None) frames s).2 in
  (writeFrames (λ _, None) frames s).1 = None ∧ sw_out s' = sw_out s +:+ frames_text frames ∧
  sw_failed s' = sw_failed s ∧ sw_finalSent s' = sw_finalSent s.
Proof.
  revert s. induction frames as [|data rest IH]; intros s; simpl; [by rewrite str_app_nil|].
  destruct (IH {| sw_out := sw_out s +:+ frame_text data; sw_writes := S (sw_writes s); sw_finalSent := sw_finalSent s; sw_failed := sw_failed s |})
    as (-> & -> & -> & ->). simpl. by rewrite str_app_assoc.
Qed.

(** The frames a sequence of deltas leaves on the connection. *)
Definition written (id : string) (deltas : list string) : sseWriter :=
  foldl (λ s delta, (sse_WriteChunk (λ _, None) s (stream_event id delta false)).2) newSSEWriter deltas.

Lemma written_deltas id deltas s :
  Forall carried deltas → sw_failed s = false → sw_finalSent s = false →
  let s' := foldl (λ s delta, (sse_WriteChunk (λ _, None) s (stream_event id delta false)).2) s deltas in
  sw_out s' = sw_out s +:+ frames_text (chunk_frames deltas) ∧ sw_failed s' = false ∧ sw_finalSent s' = false.
Proof.
  intros Hd. revert s. induction Hd as [|delta deltas [Hne _ _] _ IH]; intros s Hf Hn; simpl; [by rewrite str_app_nil|].
  set (data := json_print (textFrame delta)).
  assert (sse_WriteChunk (λ _, None) s (stream_event id delta false) = writeFrames (λ _, None) [data] s) as ->.
  { unfold sse_WriteChunk. rewrite Hf. unfold encode_event. simpl. by rewrite bool_decide_false. }
  destruct (writeFrames_all [data] s) as (_ & Ho & Hf' & Hn').
  destruct (IH (writeFrames (λ _, None) [data] s).2) as (Ho2 & ? & ?); [congruence..|]. split; [|done].
  rewrite Ho2, Ho. unfold frames_text at 1. simpl. by rewrite str_app_nil, str_app_assoc.
Qed.

Lemma frame_lines data rest :
  one_line_object data → lines_of (frame_text data +:+ rest) = ("data: " +:+ data) :: "" :: lines_of rest.
Proof.
  intros [_ Hnl]. unfold frame_text. rewrite !str_app_assoc, <- (str_app_assoc "data: "). rewrite lines_of_app; [done|].
  rewrite list_ascii_app. intros [Hin|Hin]%elem_of_app; [|done]. by repeat (apply elem_of_cons in Hin as [Hin|Hin]; [done|]); apply elem_of_nil in Hin.
Qed.

Lemma after_prefix_app p s : after_prefix p (p +:+ s) = Some s.
Proof. induction p as [|c p IH]; [done|]. rewrite str_cons_app. simpl. by rewrite Ascii.eqb_refl. Qed.

Lemma data_of_line data : one_line_object data → trimmed <$> data_of (trimmed ("data: " +:+ data)) = Some data.
Proof.
  intros Ho. rewrite trimmed_data_line by done. unfold data_of. change ("data: " +:+ data) with ("data:" +:+ String " "%char data).
  rewrite after_prefix_app. simpl. f_equal. by apply trimmed_blank_object.
Qed.

Lemma object_not_special data : one_line_object data → data ≠ "" ∧ data ≠ "[DONE]" ∧ trim_space (bytes_of_string data) ≠ [].
Proof.
  intros Ho. destruct (object_bytes _ Ho) as (mid & Hm). split_and!; [intros ->; done|intros ->; done|].
  rewrite Hm, trim_space_visible by (unfold visible; lia). done.
Qed.

(** The lines of one frame, then the rest. *)
Lemma consume_frame id data rest ended w delta completed :
  one_line_object data → ParseStreamFrame data = Ok (delta, completed) →
  consume_lines id (("data: " +:+ data) :: "" :: rest) ended w =
  match (if bool_decide (delta = "") then (None, w) else sink_Write w (stream_event id delta false)) with
  | (Some err, w) => (Some err, w)
  | (None, w) => if completed then sink_Write w (stream_event id "" true) else consume_lines id rest ended w
  end.
Proof.
  intros Ho Hp. destruct (object_not_special _ Ho) as (Hn & Hd & _). cbn [consume_lines]. rewrite data_of_line by done.
  rewrite !bool_decide_false, Hp by done. repeat case_match; simplify_eq; done.
Qed.

Lemma parse_chunk delta : GoJSON.text delta = true → ParseStreamFrame (json_print (textFrame delta)) = Ok (delta, false).
Proof.
  intros Ht. destruct (object_not_special _ (chunk_object delta)) as (_ & _ & Hs).
  unfold ParseStreamFrame. rewrite bool_decide_false, chunk_read by done. simpl. unfold text_of. simpl. unfold add_part. simpl.
  by rewrite str_nil_app.
Qed.

Lemma parse_completed : ParseStreamFrame (json_print (JObj [("type", JStr "completed")])) = Ok ("", true).
Proof.
  destruct (object_not_special _ completed_object) as (_ & _ & Hs).
  unfold ParseStreamFrame. by rewrite bool_decide_false, completed_read.
Qed.

Lemma frames_lines datas rest :
  Forall one_line_object datas → lines_of (frames_text datas +:+ rest) = (mjoin ((λ data, ["data: " +:+ data; ""]) <$> datas) ++ lines_of rest)%list.
Proof.
  induction 1 as [|data datas Ho Hf IH]; [done|]. change (frames_text (data :: datas)) with (frame_text data +:+ frames_text datas).
  by rewrite str_app_assoc, frame_lines, IH.
Qed.

Lemma scan_fits lines ended : Forall (λ l, fits_buffer l = true) lines → scan lines ended = (lines, ended).
Proof. induction 1 as [|l ls Hl Hf IH]; simpl; [done|]. by rewrite Hl, IH. Qed.

Lemma consume_chunks id deltas rest ended w :
  Forall carried deltas →
  consume_lines id (mjoin ((λ data, ["data: " +:+ data; ""]) <$> chunk_frames deltas) ++ rest)%list ended w =
  match deliver ((λ d, stream_event id d false) <$> deltas) w with
  | (Some err, w) => (Some err, w)
  | (None, w) => consume_lines id rest ended w
  end.
Proof.
  intros Hd. revert w. induction Hd as [|delta deltas [Hne Ht _] _ IH]; intros w; [done|].
  cbn [fmap list_fmap chunk_frames mjoin list_join app deliver].
  rewrite (consume_frame _ _ _ _ _ _ _ (chunk_object delta) (parse_chunk _ Ht)). rewrite bool_decide_false by done.
  destruct (sink_Write _ _) as [[err|] w1]; [done|]. by apply IH.
Qed.

Lemma chunk_objects deltas : Forall one_line_object (chunk_frames deltas).
Proof. unfold chunk_frames. rewrite !Forall_fmap. apply Forall_forall. intros delta _. apply chunk_object. Qed.

Lemma chunks_fit deltas :
  Forall carried deltas → Forall (λ l, fits_buffer l = true) (mjoin ((λ data, ["data: " +:+ data; ""]) <$> chunk_frames deltas)).
Proof. induction 1 as [|delta deltas [_ _ Hf] _ IH]; [constructor|]. repeat constructor; done. Qed.

Definition sse_answer (body : string) (ended : option error) : Answer :=
  {| an_StatusCode := 200; an_ContentType := "text/event-stream"; an_Body := body; an_ReadError := ended |}.

(** C21: a streamed reply arrives as it was sent.  Let the deltas of a reply be non-empty
    and well-formed UTF-8, each in a frame whose line stays below the 64 KiB of the
    reader's buffer (a longer line ends the stream: [long_frame_breaks_stream]; a bad byte
    arrives as U+FFFD: [bad_byte_is_replaced]), and let every write to the connection
    succeed.  What the server's SSE writer leaves on the connection for these deltas and
    the final event is read by the connector as exactly those deltas in order and one
    final event, as far as the receiving writer accepts them; a connection that ends
    before the final frame is an error however it ends. *)
Theorem stream_arrives_whole id r deltas w :
  Forall carried deltas →
  consumeSSE (sse_answer (sw_out (sse_WriteChunk (λ _, None) (written id deltas) (stream_event id "" true)).2) None) r w =
    deliver (((λ d, stream_event (iv_RequestID r) d false) <$> deltas) ++ [stream_event (iv_RequestID r) "" true])%list w ∧
  ∀ ended, (consumeSSE (sse_answer (sw_out (written id deltas)) ended) r w).1 ≠ None.
Proof.
  intros Hd. pose proof (chunk_objects deltas) as Hos. pose proof (chunks_fit _ Hd) as Hfits.
  destruct (written_deltas id deltas newSSEWriter Hd eq_refl eq_refl) as (Ho & Hf & Hn). fold (written id deltas) in *.
  assert (sw_out newSSEWriter = "") as E by done. rewrite E, str_nil_app in Ho. unfold consumeSSE. split.
  - pose proof completed_object as Hco. set (final := json_print (JObj [("type", JStr "completed")])) in *.
    assert (sw_out (sse_WriteChunk (λ _, None) (written id deltas) (stream_event id "" true)).2 =
            frames_text (chunk_frames deltas) +:+ frame_text final) as ->.
    { unfold sse_WriteChunk. rewrite Hf. unfold encode_event. simpl. rewrite Hn. simpl. by rewrite Ho. }
    cbn [an_Body an_ReadError sse_answer]. rewrite frames_lines by done. rewrite <- (str_app_nil (frame_text final)), frame_lines by done.
    rewrite scan_fits by (apply Forall_app; split; [done|]; repeat constructor; done).
    rewrite (consume_chunks _ deltas), deliver_app by done. destruct (deliver _ w) as [[err|] w1]; [done|].
    rewrite (consume_frame _ _ _ _ _ _ _ Hco parse_completed). simpl. by destruct (sink_Write _ _) as [[]].
  - intros ended. cbn [an_Body an_ReadError sse_answer].
    rewrite Ho, <- (str_app_nil (frames_text _)), frames_lines by done. simpl. rewrite app_nil_r.
    rewrite scan_fits by done. rewrite <- (app_nil_r (mjoin _)), (consume_chunks _ deltas) by done.
    by destruct (deliver _ _) as [[]].
Qed.
End Arrival.

(** ** Calls that leave the trust boundary *)

(** The orders only reorder. *)
Definition fair (o : FederationOrder) : Prop := (∀ l, fo_agents o l ≡ₚ l) ∧ (∀ l, fo_relationships o l ≡ₚ l).

Lemma elem_of_values {A : Type} (m : gmap string A) x : x ∈ (map_to_list m).*2 ↔ ∃ key, m !! key = Some x.
Proof.
  rewrite list_elem_of_fmap. split.
  - intros ([key v] & -> & Hin). exists key. by apply elem_of_map_to_list.
  - intros [key Hl]. exists (key, x). split; [done|]. by apply elem_of_map_to_list.
Qed.

Lemma external_agent_spec o s agentID :
  fair o →
  isExternalFederatedAgent o s agentID = true ↔
  ∃ key a, sn_federatedAgents s !! key = Some a ∧ fa_TrustBoundary a = "external_federated" ∧ (fa_ID a = agentID ∨ fa_ExternalSubject a = agentID).
Proof.
  intros [Ha _]. unfold isExternalFederatedAgent, FederatedAgents. rewrite existsb_exists. split.
  - intros (a & Hin & Hp). rewrite <- list_elem_of_In, Ha, elem_of_values in Hin. destruct Hin as [key Hl]. exists key, a. split; [done|].
    apply andb_true_iff in Hp as [?%bool_decide_eq_true Hp]. split; [done|]. apply orb_true_iff in Hp as [?%bool_decide_eq_true|?%bool_decide_eq_true]; auto.
  - intros (key & a & Hl & Hb & Hid). exists a. split.
    + rewrite <- list_elem_of_In, Ha, elem_of_values. eauto.
    + rewrite bool_decide_true by done. simpl. apply orb_true_iff. destruct Hid; [left|right]; by apply bool_decide_eq_true.
Qed.

Lemma trusted_relationship_spec o s agentID r :
  fair o → activeVerifiedRelationship o s agentID = Some r →
  (∃ key, sn_federatedRels s !! key = Some r) ∧ fr_ExternalAgentID r = agentID ∧ fr_Status r = "active" ∧ fr_HasVerifiedAnchor r = true.
Proof.
  intros [_ Hr] Hf. unfold activeVerifiedRelationship in Hf. apply List.find_some in Hf as [Hin Hp]. split.
  - unfold FederationRelationships in Hin. by rewrite <- list_elem_of_In, Hr, elem_of_values in Hin.
  - unfold trusted_for in Hp. apply andb_true_iff in Hp as [Hp ?]. by apply andb_true_iff in Hp as [?%bool_decide_eq_true ?%bool_decide_eq_true].
Qed.

Lemma a2aHopCount_nonneg u : 0 <= a2aHopCount u.
Proof. unfold a2aHopCount. repeat case_match; lia. Qed.

(** The facts under which a relationship lets a project call an external agent. *)
Record grants (s : TenantRuntimeSnapshot) (i : Context) (endpoint : AgentEndpoint) (capability : string) (r : FederationRelationship)
    (project : Project) : Prop := {
  gr_agent : fr_ExternalAgentID r = ae_AgentID endpoint;
  gr_active : fr_Status r = "active" ∧ fr_HasVerifiedAnchor r = true;
  gr_caller : snapshot_project s (ic_ProjectID i) = Some project ∧ status_active (pj_Status project) = true;
  gr_tenant : status_active (sn_Status s) = true;
  gr_project : ic_ProjectID i ∈ fr_ProjectGrants r;
  gr_capability : capability ∈ fr_CapabilityGrants r;
  gr_direction : fr_Direction r ∈ [""; "outbound"; "bidirectional"];
  gr_version : fr_ApprovedVersion r = "" ∨ ae_Version endpoint = "" ∨ fr_ApprovedVersion r = ae_Version endpoint;
  gr_regions : fr_ProcessingRegions r = [] ∨ pj_AllowedDataRegions project = [] ∨
    ∃ region, region ∈ fr_ProcessingRegions r ∧ region ∈ pj_AllowedDataRegions project }.

Lemma boundary_regions project r :
  dataBoundarySatisfied project r = true →
  fr_ProcessingRegions r = [] ∨ pj_AllowedDataRegions project = [] ∨
  ∃ region, region ∈ fr_ProcessingRegions r ∧ region ∈ pj_AllowedDataRegions project.
Proof.
  unfold dataBoundarySatisfied. destruct (negb _); [done|]. destruct (_ || _) eqn:E.
  - apply orb_true_iff in E as [?%bool_decide_eq_true|?%bool_decide_eq_true]; auto.
  - intros (region & Hin & Hp%bool_decide_eq_true)%existsb_exists. right. right. exists region. by rewrite list_elem_of_In.
Qed.

(** C19: only trusted relationships carry a call out.  When the federation gate lets a
    call pass, its delegation depth is below the limit, and if the target is an external
    agent of the snapshot then some relationship of the snapshot is active, verified and
    names that agent, grants the calling project and the capability, allows the direction,
    pins no version other than the endpoint's (if both name one), and shares a processing
    region with the project (unless one of the two lists none); the interaction carries
    its id.  This is so for every order
    in which the snapshot's maps may be iterated; which of several relationships is asked,
    and with it whether the call passes, may depend on that order. *)
Theorem external_calls_are_trusted o s u i endpoint capability i' :
  fair o → enforceA2AFederation o s u i endpoint capability = Ok i' →
  0 <= a2aHopCount u < maxA2ADelegationHops ∧
  ((∃ key a, sn_federatedAgents s !! key = Some a ∧ fa_TrustBoundary a = "external_federated" ∧
      (fa_ID a = ae_AgentID endpoint ∨ fa_ExternalSubject a = ae_AgentID endpoint)) →
   ∃ key r project, sn_federatedRels s !! key = Some r ∧ grants s i endpoint capability r project ∧
     ic_TrustBoundary i' = "external_federated" ∧ ic_Direction i' = "outbound" ∧
     fc_RelationshipID <$> ic_Federation i' = Some (Snapshot.fr_ID r)).
Proof.
  intros Ho. unfold enforceA2AFederation. pose proof (a2aHopCount_nonneg u). destruct (Z.leb_spec maxA2ADelegationHops (a2aHopCount u)); [done|].
  rewrite <- external_agent_spec by done. destruct (isExternalFederatedAgent o s (ae_AgentID endpoint)); simpl; [|intros _; split; [lia|done]].
  destruct (activeVerifiedRelationship o s (ae_AgentID endpoint)) as [r|] eqn:Er; [|done].
  destruct (trusted_relationship_spec _ _ _ _ Ho Er) as ([key Hk] & Hagent & Hact & Hver).
  destruct (snapshot_project s (ic_ProjectID i)) as [project|] eqn:Ep; [|done].
  destruct (status_active (pj_Status project)) eqn:Es; simpl; [|done].
  destruct (projectGranted r (ic_ProjectID i)) eqn:Eg; simpl; [|done]. destruct (capabilityGranted r capability) eqn:Ec; simpl; [|done].
  destruct (directionAllowsOutbound (fr_Direction r)) eqn:Ed; simpl; [|done].
  destruct (approvedVersionMatches (fr_ApprovedVersion r) (ae_Version endpoint)) eqn:Ev; simpl; [|done].
  destruct (dataBoundarySatisfied project r) eqn:Eb; simpl; [|done].
  unfold Federation.Allowed, Federation.Evaluate. simpl. destruct (status_active (sn_Status s)) eqn:Et; simpl; [|done].
  intros [= <-]. split; [lia|]. intros _. exists key, r, project. split; [done|]. split; [|done].
  apply bool_decide_eq_true in Eg, Ec, Ed. constructor; try done.
  - unfold approvedVersionMatches in Ev. apply orb_true_iff in Ev as [Ev|?%bool_decide_eq_true]; [|auto].
    apply orb_true_iff in Ev as [?%bool_decide_eq_true|?%bool_decide_eq_true]; auto.
  - by apply boundary_regions.
Qed.

(** ** The endpoint a call goes to *)

(** A plan lists exactly the endpoints that offer the capability for an agent of the
    capability index, the selected one first; there is none only when none is eligible. *)
Theorem agent_plan_exact r ranged s capability metrics :
  (∀ n l, ranged n l ≡ₚ l) →
  (∀ e, e ∈ eligible_endpoints ranged s capability ↔
     ae_AgentID e ∈ AgentsByCapability s capability ∧ capability ∈ ae_Capabilities e ∧ ∃ key, sn_agentEndpoints s !! key = Some e) ∧
  match agent_Plan r ranged s capability metrics with
  | Err err => err = ErrNoEligibleAgent ∧ eligible_endpoints ranged s capability = []
  | Ok plan => ap_Fallback plan ≡ₚ ae_ID <$> eligible_endpoints ranged s capability ∧ head (ap_Fallback plan) = Some (ap_Selected plan)
  end.
Proof.
  intros Hr. split.
  - intros e. unfold eligible_endpoints. rewrite list_elem_of_join. split.
    + intros (l & Hin & Hl). apply elem_of_lookup_imap_1 in Hl as (n & id & -> & Hid).
      rewrite list_elem_of_In, List.filter_In, <- list_elem_of_In in Hin. destruct Hin as [Hin Hp]. rewrite Hr, elem_of_values in Hin.
      apply andb_true_iff in Hp as [->%bool_decide_eq_true Hc%bool_decide_eq_true]. apply list_elem_of_lookup_2 in Hid. auto.
    + intros (Ha & Hc & Hk). apply list_elem_of_lookup in Ha as [n Hn]. eexists. split; [|by eapply elem_of_lookup_imap_2].
      rewrite list_elem_of_In, List.filter_In, <- list_elem_of_In, Hr, elem_of_values. split; [done|]. by rewrite !bool_decide_true.
  - unfold agent_Plan. destruct (eligible_endpoints ranged s capability) as [|e es]; [done|].
    set (scored := _ <$> (e :: es)). pose proof (stable_sort_perm (λ a b, f64_ltb (as_Total a) (as_Total b)) scored) as Hp.
    destruct (stable_sort _ scored) as [|best rest]; [by apply Permutation_nil in Hp|]. simpl. split; [|done].
    apply (fmap_Permutation as_EndpointID) in Hp. etransitivity; [exact Hp|]. unfold scored. by rewrite <- list_fmap_compose.
Qed.

(** ** Concrete calls *)

(** A tenant with endpoints, external agents, relationships and tools. *)
Definition with_agents (d : TenantSnapshotData) (endpoints : list AgentEndpoint) (federated : list FederatedAgent)
    (relationships : list FederationRelationship) (servers : list MCPServer) (tools : list Tool) (policies : list ToolPolicy) : TenantSnapshotData :=
  {| td_TenantID := td_TenantID d; td_TenantRef := td_TenantRef d; td_Status := td_Status d; td_Version := td_Version d;
     td_SecurityEpoch := td_SecurityEpoch d; td_PublishedAt := td_PublishedAt d; td_Projects := td_Projects d;
     td_Providers := td_Providers d; td_Credentials := td_Credentials d; td_Deployments := td_Deployments d;
     td_RoutePolicies := td_RoutePolicies d; td_LogicalModels := td_LogicalModels d; td_APIKeys := td_APIKeys d;
     td_BudgetPolicies := td_BudgetPolicies d; td_CredentialPools := td_CredentialPools d; td_Leases := td_Leases d;
     td_Circuit := td_Circuit d; td_Drift := td_Drift d; td_Spool := td_Spool d; td_Cache := td_Cache d;
     td_MCPServers := servers; td_Tools := tools; td_ToolPolicies := policies; td_Agents := td_Agents d;
     td_AgentEndpoints := endpoints; td_FederatedAgents := federated; td_FederationRelationships := relationships;
     td_Guardrail := td_Guardrail d |}.

Definition example_endpoint (id agent url : string) : AgentEndpoint :=
  {| ae_ID := id; ae_AgentID := agent; ae_Version := "1"; ae_URL := url; ae_Protocol := "a2a"; ae_AuthScheme := ""; ae_SecretRef := "";
     ae_Headers := ∅; ae_DataClassification := ""; ae_Capabilities := ["chat"] |}.
Definition partner : FederatedAgent :=
  {| fa_ID := "partner"; fa_Name := "partner"; fa_ExternalSubject := "spki:1"; fa_Status := "active"; fa_TrustBoundary := "external_federated" |}.
Definition relationship (id : string) (projects : list string) : FederationRelationship :=
  {| Snapshot.fr_ID := id; fr_ExternalAgentID := "partner"; fr_Status := "active"; fr_AssuranceLevel := "high"; fr_HasVerifiedAnchor := true;
     fr_Direction := "bidirectional"; fr_ProjectGrants := projects; fr_CapabilityGrants := ["chat"]; fr_BoundaryStatus := "declared";
     fr_ProcessingRegions := []; fr_ApprovedVersion := "1" |}.

Definition federated_tenant (relationships : list FederationRelationship) : TenantRuntimeSnapshot :=
  NewTenantSnapshot (with_agents (example_data "priority") [example_endpoint "e" "partner" "https://agents"] [partner] relationships [] [] []).
Definition in_order : FederationOrder := {| fo_agents := λ l, l; fo_relationships := λ l, l |}.
Definition backwards : FederationOrder := {| fo_agents := λ l, l; fo_relationships := reverse |}.
Definition call_of_project : Context :=
  {| ic_Kind := "agent"; ic_Protocol := "a2a"; ic_TenantID := "t"; ic_ProjectID := "proj"; ic_SessionID := ""; ic_TaskID := "";
     ic_RootTaskID := ""; ic_ParentTaskID := ""; ic_ParentRequestID := ""; ic_TrustBoundary := ""; ic_Direction := "";
     ic_Federation := None; ic_Caller := {| pref_Type := "application"; pref_ID := "app" |};
     ic_Target := {| rref_Type := "agent"; rref_ID := "partner" |} |}.

Lemma external_calls_are_trusted_witness :
  ∃ key r project, sn_federatedRels (federated_tenant [relationship "r" ["proj"]]) !! key = Some r ∧
    grants (federated_tenant [relationship "r" ["proj"]]) call_of_project (example_endpoint "e" "partner" "https://agents") "chat" r project.
Proof.
  destruct (external_calls_are_trusted in_order (federated_tenant [relationship "r" ["proj"]]) (Some example_request) call_of_project
              (example_endpoint "e" "partner" "https://agents") "chat"
              (stamped call_of_project "outbound" {| fc_RelationshipID := "r"; fc_ExternalAgentID := "partner"; fc_AssuranceLevel := "high";
                                                     fc_DataBoundary := ""; fc_TrustAnchorID := "" |})) as [_ Ht].
  - by split.
  - vm_compute. reflexivity.
  - destruct Ht as (key & r & project & Hk & Hg & _).
    + exists "partner", partner. vm_compute. auto.
    + exists key, r, project. split; assumption.
Defined.

(** A peer that answers every post with one text; the posts are kept. *)
#[local] Instance recorded_net : AgentNet (list Post) :=
  {| net_Do := λ posts post, (Ok {| an_StatusCode := 200; an_ContentType := "application/json"; an_Body := "Hello world"; an_ReadError := None |},
                              posts ++ [post])%list;
     net_Resolve := λ posts _, (Ok "secret", posts);
     marshal_message := λ _ _ text, Ok text;
     decode_result := λ answer, Ok {| rw_Parts := [{| pt_Kind := "text"; pt_Text := an_Body answer |}]; rw_Error := None |};
     marshal_tool_call := λ _ _ tool, tl_Arguments tool; decode_tool_result := λ answer, Ok (an_Body answer) |}.

Definition plain_upstream : UpstreamErrors :=
  {| UpstreamError := λ code msg retryable, ErrKernel code msg retryable;
     as_upstream := λ err, match err with ErrKernel code msg retryable => Some (code, msg, retryable) | _ => None end |}.
#[local] Existing Instance plain_upstream.

(** A writer that takes every event. *)
Definition collecting : Sink (list StreamEvent) := {| sink_Write := λ events event, (None, events ++ [event])%list |}.
#[local] Existing Instance collecting.

Definition example_invocation (request : UnifiedRequest) : InvocationRequest :=
  {| iv_TargetID := "agent"; iv_Request := Some request; iv_TenantID := "t"; iv_ProjectID := "proj"; iv_RequestID := "r";
     iv_AgentID := "agent"; iv_CredentialID := "" |}.

Lemma stream_arrives_whole_witness :
  consumeSSE (sse_answer (sw_out (sse_WriteChunk (λ _, None) (written "x" ["Hello"; " world"]) (stream_event "x" "" true)).2) None)
    (example_invocation example_request) [] =
  (None, [stream_event "r" "Hello" false; stream_event "r" " world" false; stream_event "r" "" true]).
Proof.
  destruct (stream_arrives_whole (W := list StreamEvent) "x" (example_invocation example_request) ["Hello"; " world"] []) as [Hw _].
  - repeat constructor; first [discriminate|vm_compute; reflexivity].
  - rewrite Hw. reflexivity.
Defined.

(** ** Where the guarantees end *)

(** A byte that is not UTF-8 does not survive the frame: encoding/json writes U+FFFD for it. *)
Example bad_byte_is_replaced :
  ParseStreamFrame (json_print (textFrame ("a" +:+ String (byte 255) "b"))) = Ok ("a" +:+ rune_error +:+ "b", false).
Proof. vm_compute. reflexivity. Qed.

(** What a peer may send: keys in other case, parts of other kinds, an error. *)
Example frames_parsed :
  let key k := quote k +:+ ":" in
  ParseStreamFrame ("{" +:+ key "TYPE" +:+ quote "message" +:+ "," +:+ key "Message" +:+ "{" +:+ key "parts" +:+ "[{" +:+
    key "kind" +:+ quote "data" +:+ "},{" +:+ key "kind" +:+ quote "text" +:+ "," +:+ key "text" +:+ quote "a" +:+ "},{" +:+
    key "text" +:+ quote "b" +:+ "," +:+ key "kind" +:+ quote "text" +:+ "}]}}") = Ok ("a" +:+ newline +:+ "b", false) ∧
  ParseStreamFrame ("{" +:+ key "error" +:+ "{" +:+ key "code" +:+ "-32000," +:+ key "message" +:+ quote "busy" +:+ "}}") =
    Err (ErrNew "a2a stream error: busy") ∧
  ParseStreamFrame "{}" = Ok ("", false) ∧ ParseStreamFrame "null" = Ok ("", false) ∧
  ParseStreamFrame "[]" = Err TypeError ∧ ParseStreamFrame "{" = Err SyntaxError.
Proof. vm_compute. auto 10. Qed.

(** A frame of 64 KiB or more ends the stream: the connector reads lines with a scanner of
    the default size, and the sender does not split a delta. *)
Lemma long_frame_breaks_stream {W : Type} `{!Sink W} data rest ended r (w : W) :
  Ascii.ascii_of_nat 10 ∉ String.list_ascii_of_string data → 65530 <= Z.of_nat (String.length data) →
  consumeSSE (sse_answer (frame_text data +:+ rest) ended) r w = (Some ErrTooLong, w).
Proof.
  intros Hn Hl. unfold consumeSSE, frame_text. simpl an_Body. rewrite !str_app_assoc.
  rewrite <- (str_app_assoc "data: "), lines_of_app by (rewrite list_ascii_app, not_elem_of_app; split; [by apply (bool_decide_unpack _)|done]).
  simpl. unfold fits_buffer. rewrite str_length_app. destruct (Z.ltb_spec (Z.of_nat (String.length "data: " + String.length data)) 65536); [simpl in *; lia|done].
Qed.

(** Two relationships with one agent, of which one grants the project: the gate looks at
    the first active one only, and the order is a map's, so one and the same call may be
    denied or pass. *)
Example relationship_order_decides :
  let s := federated_tenant [relationship "a" ["proj"]; relationship "b" []] in
  let gate o := enforceA2AFederation o s (Some example_request) call_of_project (example_endpoint "e" "partner" "https://agents") "chat" in
  is_ok (gate in_order) ≠ is_ok (gate backwards).
Proof. vm_compute. discriminate. Qed.

(** Two endpoints of an agent score alike without metrics, so the order of the map
    decides which of them a message goes to. *)
Example endpoint_order_decides :
  let s := NewTenantSnapshot (with_agents (example_data "priority") [example_endpoint "e1" "bot" "https://one"; example_endpoint "e2" "bot" "https://two"]
             [] [] [] [] []) in
  let selected ranged := match agent_Plan (NewRouter None) (λ _, ranged) s "chat" ∅ with Ok plan => ap_Selected plan | Err _ => "" end in
  selected (λ l, l) ≠ selected reverse.
Proof. vm_compute. discriminate. Qed.

(** The cache of connectors knows an endpoint by its URL and its secret: after its headers
    or its authentication scheme are changed, the old ones are still sent. *)
Example changed_headers_are_not_sent :
  let config scheme headers := {| cf_BaseURL := "https://agents"; cf_Timeout := second; cf_SecretRef := "vault:k"; cf_AuthScheme := scheme; cf_Headers := headers |} in
  let cache := (a2aFor true true (config "bearer" {["X-Team" := "old"]}) newConnectorCache).2 in
  (a2aFor true true (config "x-api-key" {["X-Team" := "new"]}) cache).1 = Ok (config "bearer" {["X-Team" := "old"]}).
Proof. vm_compute. reflexivity. Qed.
