(* ===== verification/Relay.v ===== *)
(** * The gateway's entry points for tools and agents: app/gateway.go

    [liteGatewayCore] authenticates a caller and runs tool calls and the relay of agent
    messages through the same admission and accounting as model requests.

    [gateway] is what a call changes: the pipeline's [world] of LiteWorld.v (with the
    request being served), the task table of A2ATask.v, the network behind the
    connectors, their cache and the tool-call ledger.  [core] is what it does not change,
    with the answers of the surroundings as inputs: the time and the fate of every
    statement, and the statements other callers run on the shared table before it.

    A relay has many early returns; [step] is an error monad in which a step either ends
    the call with an answer or goes on.  The connectors never answer with a nil response,
    so the nil checks of the source are left out. *)

From S2P Require Import Prelude Egress GoFloat GoStd GoText Circuit Coordination Budget Enforcer Rate Retry Snapshot CredentialPool.
From S2P Require Import Planner Executor Accounting Approval Pipeline Federation Admission Interaction Cache Metering FinOps Guardrail StreamGuard.
From S2P Require Import RoutingMetrics LiteWorld LiteUsage LiteAux Lite LiteSafety A2ATask AgentCall.

Open Scope string_scope.
Open Scope Z_scope.

Record FederatedTransport := { ft_AuthMethod : string; ft_Subject : string; ft_Issuer : string }.

Record AdmitInput := {
  gi_Token : string; gi_RemoteIP : string; gi_Protocol : string; gi_BodyBytes : Z;
  gi_Request : option UnifiedRequest; gi_Federated : option FederatedTransport }.

Record ToolCallEvent := {
  te_ID : string; te_TenantID : string; te_ProjectID : string; te_RequestID : string; te_SessionID : string;
  te_TaskID : string; te_AgentID : string; te_UserID : string; te_ToolID : string; te_ToolName : string; te_OccurredAt : Z }.

(** sqlrepo/toolcall.go; [db] is the answer of the insert. *)
Definition toolcall_Create (ledger : list ToolCallEvent) (db : option error) (scope : string) (event : ToolCallEvent) :
    option error * list ToolCallEvent :=
  if bool_decide (scope = "") then (Some ErrInvalidScope, ledger)
  else if bool_decide (te_TenantID event ≠ scope) then (Some ErrScopeMismatch, ledger)
  else match db with Some err => (Some err, ledger) | None => (None, ledger ++ [event])%list end.

(** ** Pure parts *)

Definition canonicalFederatedAuthMethod (value : string) : string :=
  if bool_decide (value ∈ ["mtls_spki"; "federated_mtls"]) then "federated_mtls"
  else if bool_decide (value ∈ ["oidc"; "federated_oidc"]) then "federated_oidc"
  else if bool_decide (value ∈ ["jws"; "federated_jws"]) then "federated_jws"
  else if bool_decide (value ∈ ["registry_attestation"; "registry_attested"]) then "registry_attested"
  else "".

Definition a2aIdempotencyKey (request : option UnifiedRequest) (requestID : string) : string :=
  match request with
  | None => requestID
  | Some u =>
      let key := default "" (ur_Metadata u !! "a2a.idempotency_key") in
      if bool_decide (key ≠ "") then key
      else if bool_decide (ur_SessionID u ≠ "") then ur_SessionID u else requestID
  end.

(** The last message that has text. *)
Definition a2aRelayText (request : option UnifiedRequest) : string :=
  match request ≫= ur_Chat with
  | None => ""
  | Some chat => foldl (λ text m, if bool_decide (msg_Content m = "") then text else msg_Content m) "" (chat_Messages chat)
  end.

Definition a2aReplayResponse (agentID : string) (task : A2ATask) : UnifiedResponse :=
  tool_result (a2_TaskID task) agentID (a2_Result task) "a2a.task_replay" false.

Definition with_id (r : UnifiedResponse) (id : string) : UnifiedResponse :=
  {| re_ID := id; re_Model := re_Model r; re_StopReason := re_StopReason r; re_Usage := re_Usage r; re_CreatedAt := re_CreatedAt r;
     re_Choices := re_Choices r; re_Embeddings := re_Embeddings r; re_Rerank := re_Rerank r; re_Audio := re_Audio r;
     re_Batch := re_Batch r; re_File := re_File r; re_RawContent := re_RawContent r; re_ToolResult := re_ToolResult r |}.

Definition response_text (r : UnifiedResponse) : string :=
  match re_ToolResult r with Some t => tres_Content t | None => "" end.

(** The principal a federated caller resolves to: one Go type, two records here. *)
Definition federated_principal (f : Federation.Principal) : Admission.Principal :=
  {| pr_Type := Federation.pr_Type f; pr_TenantID := Federation.pr_TenantID f; pr_ProjectID := ""; pr_APIKeyID := "";
     pr_ApplicationID := ""; pr_AgentID := Federation.pr_AgentID f; pr_ServiceAccountID := "";
     pr_AuthMethod := Federation.pr_AuthMethod f; pr_AttributionTrust := Federation.pr_AttributionTrust f;
     pr_TrustBoundary := Federation.pr_TrustBoundary f; pr_FederationRelationshipID := Federation.pr_FederationRelationshipID f;
     pr_ExternalSubject := Federation.pr_ExternalSubject f |}.

Definition no_key : APIKey :=
  {| ak_ID := ""; ak_PublicID := ""; ak_ProjectID := ""; ak_ApplicationID := ""; ak_AgentID := ""; ak_ServiceAccountID := "";
     ak_Status := ""; ak_HMACDigest := []; ak_PepperVersion := 0; ak_ExpiresAt := None; ak_ModelAllowlist := []; ak_IPAllowlist := [] |}.

(** inboundFederatedAuth: the relationships in the order they are ranged over, the
    candidate tenants, and the snapshot of a tenant. *)
Record inboundFederatedAuth := {
  if_states : list Relationship; if_tenants : result (list string); if_snapshotFor : string → result (option TenantRuntimeSnapshot) }.

Definition UNAUTHORIZED : error := ErrKernel "UNAUTHORIZED" "invalid credentials" false.
Definition REQUEST_TOO_LARGE : error := ErrKernel "REQUEST_TOO_LARGE" "request body exceeds configured limit" false.
Definition NO_ENDPOINT : error := ErrKernel "NOT_FOUND" "A2A agent endpoint is not configured" false.
Definition IN_PROGRESS : error :=
  ErrKernel "A2A_TASK_IN_PROGRESS" "a task for this idempotency key is already in progress" false.
Definition A2A_TASK_LIMIT : error := ErrKernel "A2A_TASK_LIMIT" "A2A task call limit exceeded" false.
Definition CIRCUIT_OPEN : error := ErrKernel "CIRCUIT_OPEN" "upstream circuit is open" true.
Definition NO_SERVER : error := ErrKernel "TOOL_NOT_FOUND" "tool server not available" false.
(** The message is the text of the egress error. *)
Definition UPSTREAM_INVALID (err : error) : error :=
  ErrKernel "UPSTREAM_INVALID" (match err with ErrNew msg | ErrWrap msg _ | ErrKernel _ msg _ => msg | ErrJoin _ _ => "" end) false.

Definition federatedAuthResult (inbound : option inboundFederatedAuth) (maxBodyBytes : Z) (input : AdmitInput) : result AuthResult :=
  match inbound, gi_Federated input with
  | Some auth, Some facts =>
      if bool_decide (gi_Protocol input ≠ "a2a") then Err (ErrKernel "UNAUTHORIZED" "federated transport is not accepted on this path" false)
      else if (gi_BodyBytes input <? 0) || (maxBodyBytes <? gi_BodyBytes input) then Err REQUEST_TOO_LARGE
      else match if_tenants auth with
      | Err _ | Ok [] => Err (ErrKernel "NOT_FOUND" "no tenant is available for federated identity" false)
      | Ok (_ :: _ :: _) => Err (ErrKernel "NOT_FOUND" "ambiguous tenant" false)
      | Ok [scope] =>
          let authMethod := canonicalFederatedAuthMethod (ft_AuthMethod facts) in
          if bool_decide (authMethod = "") then Err (ErrKernel "UNAUTHORIZED" "invalid federated transport auth method" false)
          else match Federation.Resolve (if_states auth) scope
                       {| tf_AuthMethod := authMethod; tf_Subject := ft_Subject facts; tf_Issuer := ft_Issuer facts |} with
          | Err _ => Err (ErrKernel "FEDERATION_UNTRUSTED" "untrusted federated identity" false)
          | Ok principal =>
              match if_snapshotFor auth scope with
              | Ok (Some snapshot) => Ok {| at_Principal := federated_principal principal; at_Snapshot := snapshot; at_Key := no_key |}
              | _ => Err (ErrKernel "NOT_FOUND" "tenant snapshot is unavailable for federated identity" false)
              end
          end
      end
  | _, _ => Err (ErrKernel "FEDERATION_UNTRUSTED" "inbound federated identity is not configured" false)
  end.

(** The context of a tool or agent call; the other fields have their zero values. *)
Definition call_interaction (kind protocol targetType targetID projectID : string) (p : Admission.Principal) : Context :=
  {| ic_Kind := kind; ic_Protocol := protocol; ic_TenantID := pr_TenantID p; ic_ProjectID := projectID; ic_SessionID := "";
     ic_TaskID := ""; ic_RootTaskID := ""; ic_ParentTaskID := ""; ic_ParentRequestID := ""; ic_TrustBoundary := ""; ic_Direction := "";
     ic_Federation := None; ic_Caller := {| pref_Type := pr_Type p; pref_ID := principalID p |};
     ic_Target := {| rref_Type := targetType; rref_ID := targetID |} |}.

Definition call_context (requestID : string) (now : Z) (a : AuthResult) (i : Context) (request : option UnifiedRequest) : RequestContext :=
  {| rc_RequestID := requestID; rc_ReceivedAt := now; rc_Snapshot := Some (at_Snapshot a); rc_Interaction := Some i;
     rc_Request := request; rc_Response := None; rc_Usage := None; rc_Source := "gateway"; rc_Key := at_Key a;
     rc_SelectedDeploymentID := ""; rc_ProviderCost := None; rc_Latency := 0; rc_TTFT := 0; rc_Err := None; rc_CacheHit := false;
     rc_CachePending := false; rc_CacheKey := ""; rc_StreamWriter := false; rc_BudgetPolicyID := ""; rc_ReservationID := "";
     rc_BudgetEstimated := 0; rc_BudgetSoftWarning := false; rc_TPMEstimated := 0 |}.

(** The request with another interaction. *)
Definition with_interaction (c : RequestContext) (i : Context) : RequestContext :=
  {| rc_RequestID := rc_RequestID c; rc_ReceivedAt := rc_ReceivedAt c; rc_Snapshot := rc_Snapshot c; rc_Interaction := Some i;
     rc_Request := rc_Request c; rc_Response := rc_Response c; rc_Usage := rc_Usage c; rc_Source := rc_Source c; rc_Key := rc_Key c;
     rc_SelectedDeploymentID := rc_SelectedDeploymentID c; rc_ProviderCost := rc_ProviderCost c; rc_Latency := rc_Latency c;
     rc_TTFT := rc_TTFT c; rc_Err := rc_Err c; rc_CacheHit := rc_CacheHit c; rc_CachePending := rc_CachePending c;
     rc_CacheKey := rc_CacheKey c; rc_StreamWriter := rc_StreamWriter c; rc_BudgetPolicyID := rc_BudgetPolicyID c;
     rc_ReservationID := rc_ReservationID c; rc_BudgetEstimated := rc_BudgetEstimated c;
     rc_BudgetSoftWarning := rc_BudgetSoftWarning c; rc_TPMEstimated := rc_TPMEstimated c |}.

Definition with_task (i : Context) (taskID : string) : Context :=
  {| ic_Kind := ic_Kind i; ic_Protocol := ic_Protocol i; ic_TenantID := ic_TenantID i; ic_ProjectID := ic_ProjectID i;
     ic_SessionID := ic_SessionID i; ic_TaskID := taskID; ic_RootTaskID := ic_RootTaskID i; ic_ParentTaskID := ic_ParentTaskID i;
     ic_ParentRequestID := ic_ParentRequestID i; ic_TrustBoundary := ic_TrustBoundary i; ic_Direction := ic_Direction i;
     ic_Federation := ic_Federation i; ic_Caller := ic_Caller i; ic_Target := ic_Target i |}.

(** An external caller of a local agent: the inbound boundary is recorded. *)
Definition inbound_boundary (o : FederationOrder) (a : AuthResult) (agentID : string) (i : Context) : Context :=
  let p := at_Principal a in
  if bool_decide (pr_TrustBoundary p = "external_federated") && negb (isExternalFederatedAgent o (at_Snapshot a) agentID) then
    stamped i "inbound"
      {| fc_RelationshipID := pr_FederationRelationshipID p; fc_ExternalAgentID := pr_AgentID p;
         fc_AssuranceLevel := match ic_Federation i with Some f => fc_AssuranceLevel f | None => "" end;
         fc_DataBoundary := match ic_Federation i with Some f => fc_DataBoundary f | None => "" end;
         fc_TrustAnchorID := match ic_Federation i with Some f => fc_TrustAnchorID f | None => "" end |}
  else i.

(** The project the call is charged to. *)
Definition relay_project (a : AuthResult) (agentID : string) : string :=
  let p := at_Principal a in
  if bool_decide (pr_TrustBoundary p = "external_federated") && bool_decide (pr_ProjectID p = "") then
    match snapshot_agent (at_Snapshot a) agentID with
    | Some agent => if bool_decide (ag_ProjectID agent ≠ "") then ag_ProjectID agent else pr_ProjectID p
    | None => pr_ProjectID p
    end
  else pr_ProjectID p.

(** ** The core *)

Record core := {
  co_tasks : bool;                       (** the task store is configured *)
  co_db : nat → Z * statement;           (** time and fate of the statements of a call *)
  co_others : nat → list task_op;        (** what other callers run before each of them *)
  co_order : FederationOrder;
  co_endpoints : nat → list AgentEndpoint → list AgentEndpoint;
  co_tools : list Tool → list Tool;
  co_servers : list MCPServer → list MCPServer;
  co_client : bool; co_secrets : bool;   (** the HTTP client and the secret resolver *)
  co_alive : bool;                       (** the call is not cancelled after its first attempt *)
  co_stamp : string;                     (** the connector's message id of last resort *)
  co_ledger : option (nat → option error); (** the tool-call ledger, and the answers of a call's inserts *)
  co_maxBodyBytes : Z }.

Section Relay.
Context `{!Regexp} `{!JSONCodec} `{!URLParser} `{!ToolJSON} {L S X A R K CS C W : Type}.
Context `{!BudgetLedger L} `{!CacheStore S} `{!Repository R} `{!EventSink K} `{!CircuitStore CS}.
Context `{!AgentNet C} `{!UpstreamErrors} `{!Sink W}.
Context (p : Lite.parts (X := X) (A := A) (CS := CS)) (co : core).

Record gateway := {
  g_world : world L S X A R K; g_tasks : tasks; g_statements : nat; g_net : C; g_cache : connectorCache;
  g_ledger : list ToolCallEvent; g_sink : W }.

Definition set_world (g : gateway) w : gateway :=
  {| g_world := w; g_tasks := g_tasks g; g_statements := g_statements g; g_net := g_net g; g_cache := g_cache g; g_ledger := g_ledger g; g_sink := g_sink g |}.
Definition set_net (g : gateway) net : gateway :=
  {| g_world := g_world g; g_tasks := g_tasks g; g_statements := g_statements g; g_net := net; g_cache := g_cache g; g_ledger := g_ledger g; g_sink := g_sink g |}.
Definition set_cache_of (g : gateway) cache : gateway :=
  {| g_world := g_world g; g_tasks := g_tasks g; g_statements := g_statements g; g_net := g_net g; g_cache := cache; g_ledger := g_ledger g; g_sink := g_sink g |}.
Definition set_ledger (g : gateway) ledger : gateway :=
  {| g_world := g_world g; g_tasks := g_tasks g; g_statements := g_statements g; g_net := g_net g; g_cache := g_cache g; g_ledger := ledger; g_sink := g_sink g |}.

Definition step (B : Type) : Type := gateway → (result UnifiedResponse + B) * gateway.

Definition ret {B} (b : B) : step B := λ g, (inr b, g).
Definition stop {B} (answer : result UnifiedResponse) : step B := λ g, (inl answer, g).
#[export] Instance step_bind : MBind step := λ B D k m g,
  match m g with (inl answer, g) => (inl answer, g) | (inr b, g) => k b g end.
Definition end_of (m : step UnifiedResponse) : gateway → result UnifiedResponse * gateway :=
  λ g, match m g with (inl answer, g) => (answer, g) | (inr r, g) => (Ok r, g) end.

(** A step of the pipeline. *)
Definition on_world {B} (f : world L S X A R K → B * world L S X A R K) : step B :=
  λ g, let '(b, w) := f (g_world g) in (inr b, set_world g w).

(** One statement: the other callers run first. *)
Definition on_tasks {B : Type} (f : tasks → Z → statement → B * tasks) : step B :=
  λ g, let t := task_run (g_tasks g) (co_others co (g_statements g)) in
       let '(now, st) := co_db co (g_statements g) in
       let '(b, t) := f t now st in
       (inr b, {| g_world := g_world g; g_tasks := t; g_statements := Datatypes.S (g_statements g); g_net := g_net g;
                  g_cache := g_cache g; g_ledger := g_ledger g; g_sink := g_sink g |}).

Definition on_net {B : Type} (f : C → B * C) : step B := λ g, let '(b, net) := f (g_net g) in (inr b, set_net g net).

(** [finalizeTool] with its error dropped, then the error. *)
Definition refuse {B} (target : string) (err : error) : step B :=
  _ ← on_world (λ w, finalizeTool (p_clk p) (p_ids p) (p_upstream p) w target None (Some err));
  stop (Err err).

Definition or_refuse {B} (target : string) (answer : result B) : step B :=
  match answer with Err err => refuse target err | Ok b => ret b end.

Definition fresh_id : step string :=
  id ← on_world (new_id (p_ids p)); match id with Err err => stop (Err err) | Ok id => ret id end.

Definition clock_now : step Z := on_world (λ w, (now_of (p_clk p) w, tick 1 w)).
Definition put_request (c : RequestContext) : step unit := on_world (λ w, (tt, put_req w c)).
Definition set_task (taskID : string) : step unit :=
  on_world (λ w, (tt, match rc_Interaction (w_req w) with
                      | Some i => put_req w (with_interaction (w_req w) (with_task i taskID))
                      | None => w
                      end)).

(** *** invokeWithResilience

    The breaker reads its clock at most three times to decide and twice to record. *)
Definition allow_circuit (key credential : string) : step bool :=
  on_world (λ w,
    let '(ok, b) := Circuit.Allow (p_breaker p (w_exec w)) (circuit_clock p w) key credential in
    (ok, tick 3 (put_exec w (p_set_breaker p (w_exec w) b)))).

Definition record_circuit (key credential : string) (success : bool) : step unit :=
  on_world (λ w, (tt, tick 2 (put_exec w (p_set_breaker p (w_exec w)
    (Circuit.RecordOutcome (p_breaker p (w_exec w)) (circuit_clock p w) key credential success))))).

Definition invokeWithResilience (key credential : string) (invoke : C → result UnifiedResponse * C) : step (result UnifiedResponse) :=
  allowed ← allow_circuit key credential;
  if negb allowed then ret (Err CIRCUIT_OPEN)
  else
    first ← on_net invoke;
    answer ← match first with
             | Err err => if co_alive co && upstreamRetryable err then on_net invoke else ret first
             | Ok _ => ret first
             end;
    _ ← record_circuit key credential (is_ok answer);
    ret answer.

(** *** invokeA2ARelay *)

(** The endpoint of the message. *)
Definition relay_endpoint (a : AuthResult) : result AgentEndpoint :=
  match agent_Plan (NewRouter None) (co_endpoints co) (at_Snapshot a) "chat" ∅ with
  | Err _ => Err NO_ENDPOINT
  | Ok plan =>
      if bool_decide (ap_Selected plan = "") then Err NO_ENDPOINT
      else match snapshot_agentEndpoint (at_Snapshot a) (ap_Selected plan) with
      | None => Err NO_ENDPOINT
      | Some endpoint =>
          if bool_decide (ae_Protocol endpoint ≠ "a2a") || bool_decide (ae_URL endpoint = "") then Err NO_ENDPOINT
          else match ValidateTarget (ae_URL endpoint) LitePolicy with Some err => Err (UPSTREAM_INVALID err) | None => Ok endpoint end
      end
  end.

Definition relay_context (requestID : string) (now : Z) (a : AuthResult) (endpoint : AgentEndpoint) (request : option UnifiedRequest) : RequestContext :=
  call_context requestID now a
    (call_interaction "agent" "a2a" "agent" (ae_AgentID endpoint) (relay_project a (ae_AgentID endpoint)) (at_Principal a)) request.

Definition enforce_federation (a : AuthResult) (endpoint : AgentEndpoint) (request : option UnifiedRequest) : step unit :=
  let agentID := ae_AgentID endpoint in
  c ← on_world (λ w, (w_req w, w));
  match rc_Interaction c with
  | None => ret tt
  | Some i =>
      i ← or_refuse agentID (enforceA2AFederation (co_order co) (at_Snapshot a) request i endpoint "chat");
      put_request (with_interaction c (inbound_boundary (co_order co) a agentID i))
  end.

(** What the status of an existing task means for a new request. *)
Definition resume_task (agentID : string) (task : A2ATask) : step (option A2ATask) :=
  if bool_decide (a2_Status task = A2ATaskCompleted) then
    _ ← set_task (a2_TaskID task); stop (Ok (a2aReplayResponse agentID task))
  else if bool_decide (a2_Status task = A2ATaskPending) || bool_decide (a2_Status task = A2ATaskRunning) then refuse agentID IN_PROGRESS
  else ret (Some task).

Definition find_task (scope agentID key : string) (staleBefore : Z) : step (option A2ATask) :=
  if negb (co_tasks co) then ret None
  else
    reaped ← on_tasks (λ t now st, ReapStaleRunning t now st scope staleBefore);
    _ ← or_refuse agentID reaped;
    found ← on_tasks (λ t _ st, (GetByIdempotency t st scope key, t));
    existing ← or_refuse agentID found;
    match existing with None => ret None | Some task => resume_task agentID task end.

Definition admit_call (agentID : string) : step unit :=
  admitted ← on_world (admitTool (p_clk p) (p_ids p) (p_tokenizer p) (p_ratePolicy p));
  _ ← match admitted with Some err => refuse agentID err | None => ret tt end;
  approved ← on_world (check_approval p);
  match approved with Some err => refuse agentID err | None => ret tt end.

Definition pending_task (requestID scope agentID projectID key message : string) : A2ATask :=
  {| a2_TaskID := requestID; a2_TenantID := scope; a2_ExternalAgentID := agentID; a2_ProjectID := projectID; a2_RequestID := requestID;
     a2_IdempotencyKey := key; a2_Status := A2ATaskPending; a2_Message := message; a2_Result := ""; a2_Hops := 0; a2_Calls := 0;
     a2_Attempts := 0; a2_CreatedAt := 0; a2_UpdatedAt := 0 |}.

Definition DISAPPEARED : error := ErrNew "durable A2A task disappeared after create".

(** Create the task, or adopt the one of a concurrent identical request. *)
Definition own_task (agentID : string) (task : A2ATask) : step A2ATask :=
  let scope := a2_TenantID task in
  created ← on_tasks (λ t now st, A2ATask.Create t now st scope task);
  _ ← or_refuse agentID created;
  mine ← on_tasks (λ t _ st, (GetByTask t st scope (a2_TaskID task), t));
  mine ← or_refuse agentID mine;
  match mine with
  | Some task => ret task
  | None =>
      other ← on_tasks (λ t _ st, (GetByIdempotency t st scope (a2_IdempotencyKey task), t));
      other ← or_refuse agentID other;
      match other with
      | None => refuse agentID DISAPPEARED
      | Some other => adopted ← resume_task agentID other; match adopted with Some task => ret task | None => refuse agentID DISAPPEARED end
      end
  end.

Definition a2aTaskLimitError (current : result (option A2ATask)) (hops : Z) : error :=
  match current with
  | Ok (Some task) => if maxA2ADelegationHops <? a2_Hops task + hops then FEDERATION_HOP_LIMIT else A2A_TASK_LIMIT
  | _ => A2A_TASK_LIMIT
  end.

(** Claim the task and take its hops and call. *)
Definition claim_task (scope agentID taskID : string) (request : option UnifiedRequest) : step unit :=
  started ← on_tasks (λ t now st, TryStart t now st scope taskID);
  started ← or_refuse agentID started;
  if negb started then refuse agentID IN_PROGRESS
  else
    let hops := a2aHopCount request + 1 in
    applied ← on_tasks (λ t now st, AdvanceCounters t now st scope taskID hops 1 maxA2ADelegationHops maxA2ATaskCalls);
    applied ← or_refuse agentID applied;
    if applied : bool then set_task taskID
    else
      current ← on_tasks (λ t _ st, (GetByTask t st scope taskID, t));
      _ ← on_tasks (λ t now st, SetStatusResult t now st scope taskID A2ATaskFailed "");
      refuse agentID (a2aTaskLimitError current hops).

Definition durable_task (scope agentID projectID requestID key : string) (request : option UnifiedRequest) (existing : option A2ATask) :
    step (option A2ATask) :=
  if negb (co_tasks co) then ret None
  else
    task ← match existing with
           | Some task => ret task
           | None => own_task agentID (pending_task requestID scope agentID projectID key (a2aRelayText request))
           end;
    _ ← claim_task scope agentID (a2_TaskID task) request;
    ret (Some task).

Definition connector_for (agentID : string) (endpoint : AgentEndpoint) : step A2AConfig :=
  λ g, let '(connector, cache) := a2aFor (co_client co) (co_secrets co)
             {| cf_BaseURL := ae_URL endpoint; cf_Timeout := 30 * second; cf_SecretRef := ae_SecretRef endpoint;
                cf_AuthScheme := ae_AuthScheme endpoint; cf_Headers := ae_Headers endpoint |} (g_cache g) in
       or_refuse agentID connector (set_cache_of g cache).

Definition relay_invocation (requestID projectID : string) (a : AuthResult) (endpoint : AgentEndpoint) (request : option UnifiedRequest) : InvocationRequest :=
  {| iv_TargetID := ae_AgentID endpoint; iv_Request := request; iv_TenantID := pr_TenantID (at_Principal a); iv_ProjectID := projectID;
     iv_RequestID := requestID; iv_AgentID := ae_AgentID endpoint; iv_CredentialID := ae_SecretRef endpoint |}.

Definition streaming (u : UnifiedRequest) : UnifiedRequest :=
  {| ur_Kind := ur_Kind u; ur_Model := ur_Model u; ur_Stream := true; ur_Metadata := ur_Metadata u; ur_SessionID := ur_SessionID u;
     ur_TaskID := ur_TaskID u; ur_RootTaskID := ur_RootTaskID u; ur_ParentTaskID := ur_ParentTaskID u; ur_Chat := ur_Chat u;
     ur_Responses := ur_Responses u; ur_Embedding := ur_Embedding u; ur_Rerank := ur_Rerank u; ur_Audio := ur_Audio u;
     ur_Batch := ur_Batch u; ur_File := ur_File u; ur_Tool := ur_Tool u; ur_Parameters := ur_Parameters u |}.

(** The outbound call: with the breaker and one retry, or as a stream to the sink. *)
Definition relay_blocking (cfg : A2AConfig) (endpoint : AgentEndpoint) (invocation : InvocationRequest) : step (result UnifiedResponse) :=
  invokeWithResilience ("a2a-agent:" +:+ ae_AgentID endpoint) (ae_SecretRef endpoint) (a2a_Invoke cfg (co_stamp co) invocation).

Definition relay_stream (cfg : A2AConfig) (endpoint : AgentEndpoint) (invocation : InvocationRequest) : step (result UnifiedResponse) := λ g,
  let forwarder := {| fw_id := iv_RequestID invocation; fw_agentID := ae_AgentID endpoint; fw_sink := Some (g_sink g); fw_content := "" |} in
  let '(err, net, d) := a2a_Stream cfg (co_stamp co) invocation (g_net g) forwarder in
  (inr (match err with Some err => Err err | None => Ok (forwarder_response d) end),
   {| g_world := g_world g; g_tasks := g_tasks g; g_statements := g_statements g; g_net := net; g_cache := g_cache g;
      g_ledger := g_ledger g; g_sink := default (g_sink g) (fw_sink W d) |}).

(** What is left to do with the answer. *)
Definition complete_relay (scope agentID : string) (task : option A2ATask) (answer : result UnifiedResponse) : step UnifiedResponse :=
  match answer with
  | Err err =>
      _ ← match task with
          | Some task => failed ← on_tasks (λ t now st, SetStatusResult t now st scope (a2_TaskID task) A2ATaskFailed ""); ret tt
          | None => ret tt
          end;
      _ ← on_world (λ w, finalizeTool (p_clk p) (p_ids p) (p_upstream p) w agentID None (Some err));
      stop (Err (NormalizeError err))
  | Ok response =>
      response ← match task with
                 | None => ret response
                 | Some task =>
                     let response := with_id response (a2_TaskID task) in
                     stored ← on_tasks (λ t now st, SetStatusResult t now st scope (a2_TaskID task) A2ATaskCompleted (response_text response));
                     match stored with
                     | Ok _ => ret response
                     | Err err =>
                         _ ← on_world (λ w, finalizeTool (p_clk p) (p_ids p) (p_upstream p) w agentID (Some response) (Some err));
                         stop (Err err)
                     end
                 end;
      accounted ← on_world (λ w, finalizeTool (p_clk p) (p_ids p) (p_upstream p) w agentID (Some response) None);
      match accounted with Some err => stop (Err err) | None => ret response end
  end.

Definition invokeA2ARelay (a : AuthResult) (input : AdmitInput) (stream : bool) : step UnifiedResponse :=
  let request := gi_Request input in
  match request ≫= ur_Chat with
  | None => stop (Err (ErrKernel "INVALID_REQUEST" "A2A chat message is required" false))
  | Some _ =>
      now ← clock_now;
      endpoint ← match relay_endpoint a with Err err => stop (Err err) | Ok endpoint => ret endpoint end;
      requestID ← fresh_id;
      let scope := pr_TenantID (at_Principal a) in
      let agentID := ae_AgentID endpoint in
      let projectID := relay_project a agentID in
      let key := a2aIdempotencyKey request requestID in
      _ ← put_request (relay_context requestID now a endpoint request);
      _ ← enforce_federation a endpoint request;
      existing ← find_task scope agentID key (time_add now (- a2aTaskRunningTTL));
      _ ← admit_call agentID;
      task ← durable_task scope agentID projectID requestID key request existing;
      cfg ← connector_for agentID endpoint;
      answer ← (if stream then relay_stream cfg endpoint (relay_invocation requestID projectID a endpoint (streaming <$> request))
                else relay_blocking cfg endpoint (relay_invocation requestID projectID a endpoint request));
      complete_relay scope agentID task answer
  end.

(** *** tool *)

Definition toolByName (s : TenantRuntimeSnapshot) (name : string) : option Tool :=
  List.find (λ tool, bool_decide (Snapshot.tl_Name tool = name) || bool_decide (tl_ID tool = name)) (co_tools co (map_to_list (sn_tools s)).*2).

Definition mcpServer (s : TenantRuntimeSnapshot) (id : string) : option MCPServer :=
  List.find (λ server, bool_decide (ms_ID server = id)) (co_servers co (map_to_list (sn_mcpServers s)).*2).

(** [marshal] is the JSON text of a tool list. *)
Definition discoverTools (marshal : list (string * list Z) → result string) (s : TenantRuntimeSnapshot) : result UnifiedResponse :=
  let tools := List.filter (λ tool, bool_decide (tl_Status tool = "active")) (co_tools co (map_to_list (sn_tools s)).*2) in
  match marshal ((λ tool, (Snapshot.tl_Name tool, tl_Schema tool)) <$> tools) with
  | Err err => Err err
  | Ok raw => Ok (tool_result "" "server/discover" raw "snapshot" true)
  end.

Definition approve_call (target : string) : step unit :=
  approved ← on_world (check_approval p);
  match approved with Some err => refuse target err | None => ret tt end.

Definition admit_tool (target : string) : step unit :=
  admitted ← on_world (admitTool (p_clk p) (p_ids p) (p_tokenizer p) (p_ratePolicy p));
  match admitted with Some err => refuse target err | None => ret tt end.

Definition tool_event (requestID : string) (a : AuthResult) (tool : Tool) (now : Z) : ToolCallEvent :=
  {| te_ID := requestID +:+ ".tool"; te_TenantID := pr_TenantID (at_Principal a); te_ProjectID := pr_ProjectID (at_Principal a);
     te_RequestID := requestID; te_SessionID := ""; te_TaskID := ""; te_AgentID := pr_AgentID (at_Principal a); te_UserID := "";
     te_ToolID := tl_ID tool; te_ToolName := Snapshot.tl_Name tool; te_OccurredAt := now |}.

(** The ledger, then the accounting. *)
Definition complete_tool (requestID : string) (a : AuthResult) (tool : Tool) (response : UnifiedResponse) : step UnifiedResponse :=
  let account := on_world (λ w, finalizeTool (p_clk p) (p_ids p) (p_upstream p) w (tl_ID tool) (Some response) None) in
  _ ← match co_ledger co with
      | None => ret tt
      | Some db =>
          now ← clock_now;
          recorded ← (λ g, let '(err, ledger) := toolcall_Create (g_ledger g) (db 0%nat) (pr_TenantID (at_Principal a)) (tool_event requestID a tool now) in
                           (inr err, set_ledger g ledger) : (result UnifiedResponse + option error) * gateway);
          match recorded with None => ret tt | Some err => _ ← account; stop (Err err) end
      end;
  accounted ← account;
  match accounted with Some err => stop (Err err) | None => ret response end.

Definition tool_server (a : AuthResult) (tool : Tool) : result MCPServer :=
  match mcpServer (at_Snapshot a) (tl_ServerID tool) with
  | None => Err NO_SERVER
  | Some server =>
      if bool_decide (ms_URL server = "") || bool_decide (ms_Status server ≠ "active") then Err NO_SERVER
      else match ValidateTarget (ms_URL server) LitePolicy with Some err => Err (UPSTREAM_INVALID err) | None => Ok server end
  end.

Definition tool_connector (tool : Tool) (server : MCPServer) : step string :=
  λ g, let '(connector, cache) := mcpFor (co_client co) (ms_URL server) (g_cache g) in or_refuse (tl_ID tool) connector (set_cache_of g cache).

(** The call of one tool. *)
Definition call_tool (a : AuthResult) (protocol : string) (request : UnifiedRequest) (tool : Tool) : step UnifiedResponse :=
  requestID ← fresh_id;
  now ← clock_now;
  let c := call_context requestID now a
             (call_interaction "tool" protocol "tool" (tl_ID tool) (pr_ProjectID (at_Principal a)) (at_Principal a)) (Some request) in
  _ ← put_request c;
  _ ← match tool_Handle None c with Some err => stop (Err err) | None => ret tt end;
  _ ← approve_call (tl_ID tool);
  server ← match tool_server a tool with Err err => stop (Err err) | Ok server => ret server end;
  _ ← admit_tool (tl_ID tool);
  url ← tool_connector tool server;
  answer ← invokeWithResilience ("mcp-server:" +:+ ms_ID server) ""
             (mcp_Invoke url {| iv_TargetID := tl_ID tool; iv_Request := Some request; iv_TenantID := pr_TenantID (at_Principal a);
                                iv_ProjectID := pr_ProjectID (at_Principal a); iv_RequestID := requestID; iv_AgentID := ""; iv_CredentialID := "" |});
  match answer with
  | Err err =>
      _ ← on_world (λ w, finalizeTool (p_clk p) (p_ids p) (p_upstream p) w (tl_ID tool) None (Some err));
      stop (Err (mcp_NormalizeError err))
  | Ok response => complete_tool requestID a tool response
  end.

(** [auth] is the authenticator, on a token and an address. *)
Definition tool (auth : string → string → result AuthResult) (marshal : list (string * list Z) → result string) (input : AdmitInput) :
    step UnifiedResponse :=
  match auth (gi_Token input) (gi_RemoteIP input) with
  | Err _ => stop (Err UNAUTHORIZED)
  | Ok a =>
      if (gi_BodyBytes input <? 0) || (co_maxBodyBytes co <? gi_BodyBytes input) then stop (Err REQUEST_TOO_LARGE)
      else if bool_decide (gi_Protocol input = "a2a") then invokeA2ARelay a input false
      else match gi_Request input with
      | None => stop (Err (ErrKernel "INVALID_REQUEST" "tool request is required" false))
      | Some request =>
          match ur_Tool request with
          | None => stop (Err (ErrKernel "INVALID_REQUEST" "tool request is required" false))
          | Some payload =>
              if bool_decide (tl_Name payload = "server/discover") then stop (discoverTools marshal (at_Snapshot a))
              else match toolByName (at_Snapshot a) (tl_Name payload) with
              | None => stop (Err TOOL_NOT_FOUND)
              | Some tool => call_tool a (gi_Protocol input) request tool
              end
          end
      end
  end.

Definition federated (input : AdmitInput) : bool :=
  match gi_Federated input with Some _ => bool_decide (gi_Token input = "") | None => false end.

Definition gateway_Tool (auth : string → string → result AuthResult) (inbound : option inboundFederatedAuth)
    (marshal : list (string * list Z) → result string) (input : AdmitInput) : step UnifiedResponse :=
  if federated input then
    match federatedAuthResult inbound (co_maxBodyBytes co) input with
    | Err err => stop (Err err)
    | Ok a => invokeA2ARelay a input false
    end
  else tool auth marshal input.

Definition toolStreamA2A (auth : string → string → result AuthResult) (inbound : option inboundFederatedAuth) (input : AdmitInput) :
    step UnifiedResponse :=
  let authenticated :=
    if federated input then federatedAuthResult inbound (co_maxBodyBytes co) input
    else match auth (gi_Token input) (gi_RemoteIP input) with
         | Err _ => Err UNAUTHORIZED
         | Ok a => if (gi_BodyBytes input <? 0) || (co_maxBodyBytes co <? gi_BodyBytes input) then Err UNAUTHORIZED else Ok a
         end in
  match authenticated with Err err => stop (Err err) | Ok a => invokeA2ARelay a input true end.

(** The answer of [ToolStream] is its error; what the client sees is the sink. *)
Definition write_sink (event : StreamEvent) : step unit :=
  λ g, let '(err, w) := sink_Write (g_sink g) event in
       let g := {| g_world := g_world g; g_tasks := g_tasks g; g_statements := g_statements g; g_net := g_net g; g_cache := g_cache g;
                   g_ledger := g_ledger g; g_sink := w |} in
       match err with Some err => (inl (Err err), g) | None => (inr tt, g) end.

Definition ToolStream (auth : string → string → result AuthResult) (inbound : option inboundFederatedAuth)
    (marshal : list (string * list Z) → result string) (input : AdmitInput) : gateway → option error * gateway := λ g,
  let run := if bool_decide (gi_Protocol input = "a2a") then toolStreamA2A auth inbound input
             else
               (response ← (λ g, match end_of (gateway_Tool auth inbound marshal input) g with
                                 | (Err err, g) => (inl (Err err), g) | (Ok r, g) => (inr r, g) end);
                _ ← (if bool_decide (response_text response = "") then ret tt
                     else write_sink (stream_event (re_ID response) (response_text response) false));
                _ ← write_sink (stream_event (re_ID response) "" true);
                ret response) in
  match end_of run g with (Err err, g) => (Some err, g) | (Ok _, g) => (None, g) end.
(** *** Run: a model request, and the calls its answer asks for *)

Definition with_writer (c : RequestContext) : RequestContext :=
  {| rc_RequestID := rc_RequestID c; rc_ReceivedAt := rc_ReceivedAt c; rc_Snapshot := rc_Snapshot c; rc_Interaction := rc_Interaction c;
     rc_Request := rc_Request c; rc_Response := rc_Response c; rc_Usage := rc_Usage c; rc_Source := rc_Source c; rc_Key := rc_Key c;
     rc_SelectedDeploymentID := rc_SelectedDeploymentID c; rc_ProviderCost := rc_ProviderCost c; rc_Latency := rc_Latency c;
     rc_TTFT := rc_TTFT c; rc_Err := rc_Err c; rc_CacheHit := rc_CacheHit c; rc_CachePending := rc_CachePending c;
     rc_CacheKey := rc_CacheKey c; rc_StreamWriter := true; rc_BudgetPolicyID := rc_BudgetPolicyID c;
     rc_ReservationID := rc_ReservationID c; rc_BudgetEstimated := rc_BudgetEstimated c;
     rc_BudgetSoftWarning := rc_BudgetSoftWarning c; rc_TPMEstimated := rc_TPMEstimated c |}.

Definition chat_event (c : RequestContext) (u : UnifiedRequest) (id name : string) (now : Z) : ToolCallEvent :=
  {| te_ID := id; te_TenantID := TenantID c; te_ProjectID := ProjectID c; te_RequestID := rc_RequestID c; te_SessionID := ur_SessionID u;
     te_TaskID := ur_TaskID u;
     te_AgentID := match rc_Interaction c with
                   | Some i => if bool_decide (pref_Type (ic_Caller i) = "agent") then pref_ID (ic_Caller i) else ""
                   | None => ""
                   end;
     te_UserID := ""; te_ToolID := name; te_ToolName := name; te_OccurredAt := now |}.

(** The names of the calls of an answer, choice by choice. *)
Definition called (r : UnifiedResponse) : list string :=
  (λ call, tcf_Name (tc_Function call)) <$> (re_Choices r ≫= λ choice, msg_ToolCalls (ch_Message choice)).

Fixpoint record_calls (c : RequestContext) (u : UnifiedRequest) (now : Z) (db : nat → option error) (n : nat) (names : list string)
    (g : gateway) : gateway :=
  match names with
  | [] => g
  | name :: rest =>
      if bool_decide (name = "") then record_calls c u now db n rest g
      else
        let '(id, w) := new_id (p_ids p) (g_world g) in
        let id := match id with Ok id => id | Err _ => rc_RequestID c +:+ ".tool." +:+ name end in
        let '(_, ledger) := toolcall_Create (g_ledger g) (db n) (TenantID c) (chat_event c u id name now) in
        record_calls c u now db (Datatypes.S n) rest (set_ledger (set_world g w) ledger)
  end.

Definition recordChatToolCalls (g : gateway) : gateway :=
  let c := w_req (g_world g) in
  match co_ledger co, rc_Response c, rc_Request c with
  | Some db, Some response, Some u =>
      match ur_Chat u with
      | None => g
      | Some _ => record_calls c u (now_of (p_clk p) (g_world g)) db 0 (called response) (set_world g (tick 1 (g_world g)))
      end
  | _, _, _ => g
  end.

(** [stream] is the id the stream is registered under, [writer] whether the caller gave one. *)
Definition gateway_Run (stream : string) (writer : bool) (g : gateway) : option error * gateway :=
  let w := if writer then put_req (g_world g) (with_writer (w_req (g_world g))) else g_world g in
  let '(err, w) := Run p stream w in
  match err with Some err => (Some err, set_world g w) | None => (None, recordChatToolCalls (set_world g w)) end.
End Relay.

(** ** The models a key may use: access/protocol/openai/models.go *)

Record Model := { md_ID : string; md_Object : string; md_Created : Z; md_OwnedBy : string }.

Definition ListModels (s : TenantRuntimeSnapshot) (key : APIKey) : list Model :=
  (λ item, {| md_ID := lm_Alias item; md_Object := "model"; md_Created := sn_PublishedAt s / second; md_OwnedBy := "liteaig" |}) <$>
  List.filter (λ item, bool_decide (ak_ModelAllowlist key = []) || bool_decide (lm_Alias item ∈ ak_ModelAllowlist key)) (LogicalModels s).

Definition gateway_Models (auth : string → string → result AuthResult) (token remoteIP : string) : result (list Model) :=
  match auth token remoteIP with Err _ => Err UNAUTHORIZED | Ok a => Ok (ListModels (at_Snapshot a) (at_Key a)) end.
