(* ===== verification/RelaySafety.v ===== *)
(** * What the relay guarantees: app/gateway.go

    Theorems about [Relay.invokeA2ARelay] and [Relay.call_tool]: what has happened when an
    agent or a tool was called, that a call leaves no open budget reservation, and that a
    finished task is answered from the table.

    [triple P m Q E] is the usual triple of a step: from a state in [P] it goes on in [Q]
    or ends the call in [E]. *)

From S2P Require Import Prelude Egress GoFloat GoStd GoText Circuit Coordination Budget Enforcer Rate Retry Snapshot CredentialPool.
From S2P Require Import Planner Executor Accounting Approval Pipeline Federation Admission Interaction Cache Metering FinOps Guardrail StreamGuard.
From S2P Require Import RoutingMetrics LiteWorld LiteUsage LiteAux Lite LiteSafety A2ATask AgentCall Relay.

Open Scope string_scope.
Open Scope Z_scope.

Create HintDb relay.

Section Safety.
Context `{!Regexp} `{!JSONCodec} `{!URLParser} `{!ToolJSON} {L S X A R K CS C W : Type}.
Context `{!BudgetLedger L} `{!CacheStore S} `{!Repository R} `{!EventSink K} `{!CircuitStore CS}.
Context `{!AgentNet C} `{!UpstreamErrors} `{!Sink W}.
Context (p : Lite.parts (X := X) (A := A) (CS := CS)) (co : core).

Abbreviation gw := (gateway (L := L) (S := S) (X := X) (A := A) (R := R) (K := K) (C := C) (W := W)).
Abbreviation stp := (step (L := L) (S := S) (X := X) (A := A) (R := R) (K := K) (C := C) (W := W)).

Implicit Types (g : gw) (w : world L S X A R K).

Definition triple {B : Type} (P : gw → Prop) (m : stp B) (Q : B → gw → Prop) (E : result UnifiedResponse → gw → Prop) : Prop :=
  ∀ g, P g → match m g with (inl answer, g') => E answer g' | (inr b, g') => Q b g' end.

Lemma triple_bind {B D : Type} P (m : stp B) Q (k : B → stp D) Q' E :
  triple P m Q E → (∀ b, triple (Q b) (k b) Q' E) → triple P (mbind k m) Q' E.
Proof. intros Hm Hk g Hg. unfold mbind, step_bind. specialize (Hm g Hg). destruct (m g) as [[answer|b] g']; [done|]. by apply Hk. Qed.

Lemma triple_ret {B : Type} (P : gw → Prop) (b : B) Q E : (∀ g, P g → Q b g) → triple P (ret b) Q E.
Proof. intros HQ g Hg. by apply HQ. Qed.

Lemma triple_stop {B : Type} (P : gw → Prop) answer (Q : B → gw → Prop) E : (∀ g, P g → E answer g) → triple P (stop answer) Q E.
Proof. intros HQ g Hg. by apply HQ. Qed.

Lemma triple_world {B : Type} (P : gw → Prop) (f : world L S X A R K → B * world L S X A R K) Q E :
  (∀ g, P g → Q (f (g_world g)).1 (set_world g (f (g_world g)).2)) → triple P (on_world f) Q E.
Proof. intros HQ g Hg. unfold on_world. specialize (HQ g Hg). by destruct (f (g_world g)). Qed.

Lemma triple_pre {B : Type} (P P' : gw → Prop) (m : stp B) Q E : (∀ g, P g → P' g) → triple P' m Q E → triple P m Q E.
Proof. intros HP Hm g Hg. by apply Hm, HP. Qed.

Lemma triple_end P m (Q : UnifiedResponse → gw → Prop) E :
  triple P m Q E → (∀ r g, Q r g → E (Ok r) g) → ∀ g, P g → E (end_of m g).1 (end_of m g).2.
Proof. intros Hm Hq g Hg. unfold end_of. specialize (Hm g Hg). destruct (m g) as [[answer|b] g']; simpl; auto. Qed.

(** ** A call leaves no open reservation *)

(** The request of the call holds no open reservation. *)
Definition closed w : Prop :=
  rc_ReservationID (w_req w) ≠ "" → settled (w_budget w) (rc_BudgetPolicyID (w_req w)) (rc_ReservationID (w_req w)).

Definition ready g : Prop := is_Some (w_repo (g_world g)).
Definition unreserved g : Prop := ready g ∧ rc_ReservationID (w_req (g_world g)) = "".

(** How a call may end: with nothing reserved, or with the stored answer of a task. *)
Definition settled_end (answer : result UnifiedResponse) g : Prop :=
  closed (g_world g) ∨ ∃ agentID task, answer = Ok (a2aReplayResponse agentID task).

Context (ids_ok : ∀ n, is_ok (p_ids p n) = true).

Lemma finalizeTool_closed w target response cause :
  is_Some (w_repo w) →
  let w' := (finalizeTool (p_clk p) (p_ids p) (p_upstream p) w target response cause).2 in closed w' ∧ is_Some (w_repo w').
Proof.
  intros Hr. unfold finalizeTool. set (u := {| uf_logicalModel := _ |}).
  pose proof (recordUsage_settles (p_clk p) (p_ids p) (tick 1 w) u (ids_ok _) Hr) as Hs.
  pose proof (recordUsage_req (p_clk p) (p_ids p) (tick 1 w) u) as Hq. pose proof (calm_repo _ _ (calm_record p (tick 1 w) u) Hr) as Hrepo.
  split; [|exact Hrepo]. unfold closed. rewrite Hq. exact Hs.
Qed.

Lemma unreserved_closed g : unreserved g → closed (g_world g).
Proof. intros [_ Hu] Hn. congruence. Qed.

Lemma triple_finalize target response cause (Q : option error → gw → Prop) E :
  (∀ err g, ready g → closed (g_world g) → Q err g) →
  triple ready (on_world (λ w, finalizeTool (p_clk p) (p_ids p) (p_upstream p) w target response cause)) Q E.
Proof. intros HQ. apply triple_world. intros g Hg. destruct (finalizeTool_closed (g_world g) target response cause Hg). by apply HQ. Qed.

Definition takes_closed (E : result UnifiedResponse → gw → Prop) : Prop := ∀ answer g, closed (g_world g) → E answer g.
Definition closed_end (_ : result UnifiedResponse) g : Prop := closed (g_world g).

Lemma takes_settled : takes_closed settled_end.
Proof. intros answer g Hg. by left. Qed.
Lemma takes_plain : takes_closed closed_end.
Proof. by intros answer g Hg. Qed.
#[local] Hint Resolve takes_settled takes_plain : core.

(** The call is accounted for, then it ends. *)
Lemma triple_finalize_stop {B : Type} target response cause answer (Q : B → gw → Prop) E :
  takes_closed E →
  triple ready (_ ← on_world (λ w, finalizeTool (p_clk p) (p_ids p) (p_upstream p) w target response cause); stop answer) Q E.
Proof.
  intros HE. apply (triple_bind _ _ (λ _ g, closed (g_world g))); [apply triple_finalize; auto|]. intros b. apply triple_stop. auto.
Qed.

Lemma triple_refuse {B : Type} target err (Q : B → gw → Prop) E : takes_closed E → triple ready (refuse p target err) Q E.
Proof. apply triple_finalize_stop. Qed.

Lemma triple_or_refuse {B : Type} target (answer : result B) (P : gw → Prop) (Q : B → gw → Prop) E :
  takes_closed E → (∀ g, P g → ready g) → (∀ b g, P g → Q b g) → triple P (or_refuse p target answer) Q E.
Proof.
  intros HE Hr HQ. destruct answer as [b|err]; simpl; [by apply triple_ret; auto|]. eapply triple_pre; [exact Hr|]. by apply triple_refuse.
Qed.

(** A property of the pipeline alone survives a statement on the table. *)
Lemma triple_tasks {B : Type} (P : world L S X A R K → Prop) (f : tasks → Z → statement → B * tasks) E :
  triple (λ g, P (g_world g)) (on_tasks co f) (λ _ g, P (g_world g)) E.
Proof. intros g Hg. unfold on_tasks. destruct (co_db co _) as [now st]. by destruct (f _ now st). Qed.

Lemma tasks_ready {B : Type} (f : tasks → Z → statement → B * tasks) E : triple ready (on_tasks co f) (λ _, ready) E.
Proof. exact (triple_tasks (λ w, is_Some (w_repo w)) f E). Qed.

Lemma tasks_unreserved {B : Type} (f : tasks → Z → statement → B * tasks) E : triple unreserved (on_tasks co f) (λ _, unreserved) E.
Proof. exact (triple_tasks (λ w, is_Some (w_repo w) ∧ rc_ReservationID (w_req w) = "") f E). Qed.

Lemma triple_resume agentID task (P : gw → Prop) :
  (∀ g, P g → ready g) → triple P (resume_task p agentID task) (λ _, P) settled_end.
Proof.
  intros Hr. unfold resume_task. case_bool_decide.
  - apply (triple_bind _ _ (λ _ _, True)); [by apply triple_world|]. intros ?. apply triple_stop. intros g _. right. eauto.
  - destruct (_ || _); [eapply triple_pre; [exact Hr|]; by apply triple_refuse|]. by apply triple_ret.
Qed.

Lemma triple_find scope agentID key staleBefore :
  triple unreserved (find_task p co scope agentID key staleBefore) (λ _, unreserved) settled_end.
Proof.
  assert (∀ g, unreserved g → ready g) as Hur by (by intros g []). unfold find_task. destruct (negb _); [by apply triple_ret|].
  eapply triple_bind; [apply tasks_unreserved|]. intros reaped. eapply triple_bind; [by apply (triple_or_refuse _ _ _ (λ _, unreserved))|]. intros ?.
  eapply triple_bind; [apply tasks_unreserved|]. intros found. eapply triple_bind; [by apply (triple_or_refuse _ _ _ (λ _, unreserved))|].
  intros [task|]; [by apply triple_resume|by apply triple_ret].
Qed.

Lemma admitTool_repo w : w_repo (admitTool (p_clk p) (p_ids p) (p_tokenizer p) (p_ratePolicy p) w).2 = w_repo w.
Proof. unfold admitTool, allow_rpm, reserveBudget, reserve_for, new_id. repeat case_match; simplify_eq/=; done. Qed.

Lemma triple_approval agentID E : takes_closed E → triple ready (approve_call p agentID) (λ _, ready) E.
Proof.
  intros HE.   eapply (triple_bind _ _ (λ _, ready)).
  - apply triple_world. intros g Hg. exact (calm_repo _ _ (calm_check_approval p (g_world g)) Hg).
  - intros [err|]; [by apply triple_refuse|by apply triple_ret].
Qed.

Lemma triple_admit_tool agentID E : takes_closed E → triple ready (admit_tool p agentID) (λ _, ready) E.
Proof.
  intros HE.   eapply (triple_bind _ _ (λ _, ready)).
  - apply triple_world. intros g Hg. unfold ready. simpl. by rewrite admitTool_repo.
  - intros [err|]; [by apply triple_refuse|by apply triple_ret].
Qed.

Lemma triple_admit_call agentID : triple ready (admit_call p agentID) (λ _, ready) settled_end.
Proof.
  unfold admit_call. eapply (triple_bind _ _ (λ _, ready)).
  - apply triple_world. intros g Hg. unfold ready. simpl. by rewrite admitTool_repo.
  - intros admitted. eapply (triple_bind _ _ (λ _, ready)); [destruct admitted; [by apply triple_refuse|by apply triple_ret]|].
    intros ?. by apply triple_approval.
Qed.

Lemma triple_set_task taskID E : triple ready (set_task taskID) (λ _, ready) E.
Proof. apply triple_world. intros g Hg. unfold ready. simpl. by destruct (rc_Interaction _). Qed.

Lemma triple_own agentID task : triple ready (own_task p co agentID task) (λ _, ready) settled_end.
Proof.
  assert (∀ g, ready g → ready g) as Hrr by done. unfold own_task.
  eapply triple_bind; [apply tasks_ready|]. intros created. eapply triple_bind; [by apply (triple_or_refuse _ _ _ (λ _, ready))|]. intros ?.
  eapply triple_bind; [apply tasks_ready|]. intros mine. eapply triple_bind; [by apply (triple_or_refuse _ _ _ (λ _, ready))|].
  intros [t|]; [by apply triple_ret|].
  eapply triple_bind; [apply tasks_ready|]. intros other. eapply triple_bind; [by apply (triple_or_refuse _ _ _ (λ _, ready))|].
  intros [t|]; [|by apply triple_refuse]. eapply triple_bind; [by apply (triple_resume _ _ ready)|].
  intros [t'|]; [by apply triple_ret|by apply triple_refuse].
Qed.

Lemma triple_claim scope agentID taskID request : triple ready (claim_task p co scope agentID taskID request) (λ _, ready) settled_end.
Proof.
  unfold claim_task. eapply triple_bind; [apply tasks_ready|]. intros started. eapply triple_bind; [by apply (triple_or_refuse _ _ _ (λ _, ready))|].
  intros [|]; simpl; [|by apply triple_refuse].
  eapply triple_bind; [apply tasks_ready|]. intros applied. eapply triple_bind; [by apply (triple_or_refuse _ _ _ (λ _, ready))|].
  intros [|]; [apply triple_set_task|].
  eapply triple_bind; [apply tasks_ready|]. intros current. eapply triple_bind; [apply tasks_ready|]. intros ?. by apply triple_refuse.
Qed.

Lemma triple_durable scope agentID projectID requestID key request existing :
  triple ready (durable_task p co scope agentID projectID requestID key request existing) (λ _, ready) settled_end.
Proof.
  unfold durable_task. destruct (negb _); [by apply triple_ret|]. eapply (triple_bind _ _ (λ _, ready)).
  - destruct existing; [by apply triple_ret|apply triple_own].
  - intros task. eapply triple_bind; [apply triple_claim|]. intros ?. by apply triple_ret.
Qed.

Lemma triple_circuit key credential E : triple ready (allow_circuit p key credential) (λ _, ready) E.
Proof. apply triple_world. intros g Hg. by destruct (Circuit.Allow _ _ _ _). Qed.

Lemma triple_net {B : Type} (f : C → B * C) (P : world L S X A R K → Prop) E :
  triple (λ g, P (g_world g)) (on_net f) (λ _ g, P (g_world g)) E.
Proof. intros g Hg. unfold on_net. by destruct (f (g_net g)). Qed.

Lemma triple_invoke key credential invoke E : triple ready (invokeWithResilience p co key credential invoke) (λ _, ready) E.
Proof.
  unfold invokeWithResilience. eapply triple_bind; [apply triple_circuit|]. intros [|]; simpl; [|by apply triple_ret].
  eapply triple_bind; [apply (triple_net invoke (λ w, is_Some (w_repo w)))|]. intros first.
  eapply (triple_bind _ _ (λ _, ready)).
  - destruct first; [by apply triple_ret|]. destruct (_ && _); [apply (triple_net invoke (λ w, is_Some (w_repo w)))|by apply triple_ret].
  - intros answer. eapply (triple_bind _ _ (λ _, ready)); [by apply triple_world|]. intros ?. by apply triple_ret.
Qed.

Lemma triple_complete scope agentID task answer :
  triple ready (complete_relay p co scope agentID task answer) (λ r g, settled_end (Ok r) g) settled_end.
Proof.
  unfold complete_relay. destruct answer as [response|err].
  - eapply (triple_bind _ _ (λ _, ready)).
    + destruct task as [task|]; [|by apply triple_ret]. eapply triple_bind; [apply tasks_ready|]. intros [?|err]; [by apply triple_ret|].
      by apply triple_finalize_stop.
    + intros r. eapply (triple_bind _ _ (λ _ g, closed (g_world g))); [apply triple_finalize; auto|].
      intros [err|]; [apply triple_stop|apply triple_ret]; intros g Hg; by left.
  - eapply (triple_bind _ _ (λ _, ready)).
    + destruct task as [task|]; [|by apply triple_ret]. eapply triple_bind; [apply tasks_ready|]. intros failed. by apply triple_ret.
    + intros ?. by apply triple_finalize_stop.
Qed.

Lemma triple_connector agentID endpoint : triple ready (connector_for p co agentID endpoint) (λ _, ready) settled_end.
Proof.
  intros g Hg. unfold connector_for. destruct (a2aFor _ _ _ _) as [connector cache].
  exact (triple_or_refuse agentID connector ready (λ _, ready) settled_end takes_settled (λ g Hg, Hg) (λ _ g Hg, Hg) (set_cache_of g cache) Hg).
Qed.

Lemma triple_stream cfg endpoint invocation E : triple ready (relay_stream co cfg endpoint invocation) (λ _, ready) E.
Proof. intros g Hg. unfold relay_stream. by destruct (a2a_Stream _ _ _ _ _) as [[err net] d]. Qed.

Lemma triple_now (P : gw → Prop) E : (∀ g n, P g → P (set_world g (tick n (g_world g)))) → triple P (clock_now p) (λ _, P) E.
Proof. intros HP. apply triple_world. intros g Hg. by apply HP. Qed.

Lemma triple_fresh_id E :
  (∀ err g, unreserved g → E (Err err) g) → triple unreserved (fresh_id p) (λ _, unreserved) E.
Proof.
  intros HE. eapply (triple_bind _ _ (λ _, unreserved)); [by apply triple_world|].
  intros [id|err]; [by apply triple_ret|]. apply triple_stop. intros g Hg. by apply HE.
Qed.

Lemma triple_enforce a endpoint request :
  triple unreserved (enforce_federation p co a endpoint request) (λ _, unreserved) settled_end.
Proof.
  unfold enforce_federation. eapply (triple_bind _ _ (λ c g, unreserved g ∧ rc_ReservationID c = "")).
  - apply triple_world. intros g Hg. split; [done|]. apply Hg.
  - intros c. destruct (rc_Interaction c) as [i|]; [|by apply triple_ret; intros g []].
    eapply (triple_bind _ _ (λ _ g, unreserved g ∧ rc_ReservationID c = "")); [by apply triple_or_refuse; [done|by intros g [[] ?]|]|].
    intros i'. apply triple_world. intros g [[Hr _] Hc]. by split.
Qed.

Lemma unreserved_settled answer g : unreserved g → settled_end answer g.
Proof. intros Hu. left. by apply unreserved_closed. Qed.
Lemma unreserved_plain answer g : unreserved g → closed_end answer g.
Proof. apply unreserved_closed. Qed.
#[local] Hint Resolve unreserved_settled unreserved_plain : core.

(** A relay leaves no open reservation.  However the call ends, refused, failed or
    answered, whatever the peer, the table and the other callers do, the budget that was
    reserved for it is settled, unless it is answered with the stored result of a task. *)
Theorem relay_settles_reservation a input stream g :
  is_Some (w_repo (g_world g)) → rc_ReservationID (w_req (g_world g)) = "" →
  let run := end_of (invokeA2ARelay p co a input stream) g in
  closed (g_world run.2) ∨ ∃ agentID task, run.1 = Ok (a2aReplayResponse agentID task).
Proof.
  intros Hr Hn run. apply (triple_end unreserved _ (λ r g, settled_end (Ok r) g) settled_end); [|done|by split]. clear Hr Hn run g.
  unfold invokeA2ARelay. destruct (gi_Request input ≫= ur_Chat); [|apply triple_stop; intros; auto].
  eapply triple_bind; [apply (triple_now unreserved); by intros ?? []|]. intros now.
  eapply (triple_bind _ _ (λ _, unreserved)); [destruct (relay_endpoint co a); [by apply triple_ret|apply triple_stop; intros; auto]|].
  intros endpoint. eapply triple_bind; [apply triple_fresh_id; intros; auto|]. intros requestID.
  eapply (triple_bind _ _ (λ _, unreserved)); [apply triple_world; by intros g []|]. intros ?.
  eapply triple_bind; [apply triple_enforce|]. intros ?. eapply triple_bind; [apply triple_find|]. intros existing.
  eapply (triple_pre _ ready); [by intros g []|]. eapply triple_bind; [apply triple_admit_call|]. intros ?.
  eapply triple_bind; [apply triple_durable|]. intros task. eapply triple_bind; [apply triple_connector|]. intros cfg.
  eapply (triple_bind _ _ (λ _, ready)); [destruct stream; [apply triple_stream|apply triple_invoke]|]. intros answer. apply triple_complete.
Qed.

Lemma unreserved_approval agentID E : takes_closed E → triple unreserved (approve_call p agentID) (λ _, unreserved) E.
Proof.
  intros HE. eapply (triple_bind _ _ (λ _, unreserved)).
  - apply triple_world. intros g [Hr Hn]. split; [exact (calm_repo _ _ (calm_check_approval p (g_world g)) Hr)|]. simpl.
    unfold check_approval. repeat case_match; simplify_eq/=; done.
  - intros [err|]; [eapply (triple_pre _ ready); [by intros g []|]; by apply triple_refuse|by apply triple_ret].
Qed.

Lemma triple_complete_tool requestID a tool response :
  triple ready (complete_tool p co requestID a tool response) (λ r g, closed_end (Ok r) g) closed_end.
Proof.
  unfold complete_tool. eapply (triple_bind _ _ (λ _, ready)).
  - destruct (co_ledger co) as [db|]; [|by apply triple_ret]. eapply triple_bind; [by apply (triple_now ready)|]. intros at_.
    eapply (triple_bind _ _ (λ _, ready)); [intros g Hg; by destruct (toolcall_Create _ _ _ _)|]. intros [err|]; [|by apply triple_ret].
    by apply triple_finalize_stop.
  - intros ?. eapply (triple_bind _ _ (λ _ g, closed (g_world g))); [apply triple_finalize; auto|].
    intros [err|]; [by apply triple_stop|by apply triple_ret].
Qed.

(** A tool call always settles what it reserved. *)
Theorem tool_settles_reservation a protocol request tool g :
  is_Some (w_repo (g_world g)) → rc_ReservationID (w_req (g_world g)) = "" →
  closed (g_world (end_of (call_tool p co a protocol request tool) g).2).
Proof.
  intros Hr Hn. apply (triple_end unreserved _ (λ r g, closed_end (Ok r) g) closed_end); [|done|by split]. clear Hr Hn g.
  unfold call_tool. eapply triple_bind; [apply triple_fresh_id; auto|]. intros requestID.
  eapply triple_bind; [apply (triple_now unreserved); by intros ?? []|]. intros now.
  eapply (triple_bind _ _ (λ _, unreserved)); [apply triple_world; by intros g []|]. intros ?.
  eapply (triple_bind _ _ (λ _, unreserved)); [destruct (tool_Handle _ _); [apply triple_stop; auto|by apply triple_ret]|]. intros ?.
  eapply triple_bind; [by apply unreserved_approval|]. intros ?.
  eapply (triple_bind _ _ (λ _, unreserved)); [destruct (tool_server co a tool); [by apply triple_ret|apply triple_stop; auto]|].
  intros server. eapply (triple_pre _ ready); [by intros g []|]. eapply triple_bind; [by apply triple_admit_tool|]. intros ?.
  eapply (triple_bind _ _ (λ _, ready)).
  { intros g Hg. unfold tool_connector. destruct (mcpFor _ _ _) as [connector cache].
    exact (triple_or_refuse (tl_ID tool) connector ready (λ _, ready) closed_end takes_plain (λ g Hg, Hg) (λ _ g Hg, Hg) (set_cache_of g cache) Hg). }
  intros url. eapply triple_bind; [apply triple_invoke|]. intros [response|err]; [|by apply triple_finalize_stop]. apply triple_complete_tool.
Qed.

(** ** Only admitted calls leave the gateway *)

(** A step that does not use the network. *)
Definition quiet {B : Type} (m : stp B) : Prop := ∀ g, g_net (m g).2 = g_net g.

Lemma quiet_then {B D : Type} (m : stp B) (k : B → stp D) : quiet m → (∀ b, quiet (k b)) → quiet (mbind k m).
Proof.
  intros Hm Hk g. unfold mbind, step_bind. specialize (Hm g). destruct (m g) as [[answer|b] g']; [done|]. simpl in Hm. by rewrite Hk.
Qed.
Lemma quiet_ret {B : Type} (b : B) : quiet (ret b).
Proof. done. Qed.
Lemma quiet_stop {B : Type} answer : quiet (stop (B := B) answer).
Proof. done. Qed.
Lemma quiet_world {B : Type} (f : world L S X A R K → B * world L S X A R K) : quiet (on_world f).
Proof. intros g. unfold on_world. by destruct (f (g_world g)). Qed.
Lemma quiet_tasks {B : Type} (f : tasks → Z → statement → B * tasks) : quiet (on_tasks co f).
Proof. intros g. unfold on_tasks. destruct (co_db co _). by destruct (f _ _ _). Qed.
#[local] Hint Resolve quiet_then quiet_ret quiet_stop quiet_world quiet_tasks : relay.

Lemma quiet_refuse {B : Type} target err : quiet (refuse (B := B) p target err).
Proof. unfold refuse. auto with relay. Qed.
#[local] Hint Resolve quiet_refuse : relay.
Lemma quiet_or_refuse {B : Type} target (answer : result B) : quiet (or_refuse p target answer).
Proof. destruct answer; simpl; auto with relay. Qed.
#[local] Hint Resolve quiet_or_refuse : relay.

Lemma quiet_resume agentID task : quiet (resume_task p agentID task).
Proof. unfold resume_task, set_task. repeat case_match; auto with relay. Qed.
#[local] Hint Resolve quiet_resume : relay.

Ltac quiet_step := repeat first [apply quiet_then; [auto with relay|intros ?] | progress case_match]; auto with relay.

Lemma quiet_find scope agentID key staleBefore : quiet (find_task p co scope agentID key staleBefore).
Proof. unfold find_task. quiet_step. Qed.
Lemma quiet_admit agentID : quiet (admit_call p agentID).
Proof. unfold admit_call. apply quiet_then; [auto with relay|]. intros [err|]; quiet_step. Qed.
Lemma quiet_enforce a endpoint request : quiet (enforce_federation p co a endpoint request).
Proof. unfold enforce_federation, put_request. quiet_step. Qed.
Lemma quiet_own agentID task : quiet (own_task p co agentID task).
Proof. unfold own_task. quiet_step. Qed.
#[local] Hint Resolve quiet_own : relay.
Lemma quiet_claim scope agentID taskID request : quiet (claim_task p co scope agentID taskID request).
Proof. unfold claim_task, set_task. quiet_step. Qed.
#[local] Hint Resolve quiet_claim : relay.
Lemma quiet_durable scope agentID projectID requestID key request existing :
  quiet (durable_task p co scope agentID projectID requestID key request existing).
Proof. unfold durable_task. destruct (negb _); [auto with relay|]. destruct existing; quiet_step. Qed.
Lemma quiet_connector agentID endpoint : quiet (connector_for p co agentID endpoint).
Proof. intros g. unfold connector_for. destruct (a2aFor _ _ _ _) as [connector cache]. apply (quiet_or_refuse agentID connector (set_cache_of g cache)). Qed.
Lemma quiet_now : quiet (clock_now p).
Proof. unfold clock_now. auto with relay. Qed.
Lemma quiet_id : quiet (fresh_id p).
Proof. unfold fresh_id. quiet_step. Qed.
#[local] Hint Resolve quiet_find quiet_admit quiet_enforce quiet_durable quiet_connector quiet_now quiet_id : relay.

Lemma bind_inr {B D : Type} (m : stp B) (k : B → stp D) g d g' :
  mbind k m g = (inr d, g') → ∃ b g1, m g = (inr b, g1) ∧ k b g1 = (inr d, g').
Proof. unfold mbind, step_bind. destruct (m g) as [[answer|b] g1]; [done|eauto]. Qed.

(** A call that used the network went past each of its quiet steps. *)
Lemma bind_net {B D : Type} (m : stp B) (k : B → stp D) g net :
  g_net (mbind k m g).2 ≠ net → quiet m → g_net g = net →
  ∃ b g1, m g = (inr b, g1) ∧ g_net g1 = net ∧ g_net (k b g1).2 ≠ net.
Proof.
  unfold mbind, step_bind. intros Hn Hq Hg. specialize (Hq g). destruct (m g) as [[answer|b] g1]; simpl in *; [congruence|].
  exists b, g1. split_and!; congruence.
Qed.

Lemma or_refuse_inr {B : Type} target (answer : result B) g b g' : or_refuse p target answer g = (inr b, g') → answer = Ok b ∧ g' = g.
Proof.
  destruct answer; simpl; [intros [= -> ->]; done|]. unfold refuse, mbind, step_bind, on_world, stop. by destruct (finalizeTool _ _ _ _ _ _ _).
Qed.

Lemma refuse_inr {B : Type} target err g (b : B) g' : refuse p target err g = (inr b, g') → False.
Proof. unfold refuse, mbind, step_bind, on_world, stop. by destruct (finalizeTool _ _ _ _ _ _ _). Qed.

Lemma on_tasks_inr {B : Type} (f : tasks → Z → statement → B * tasks) g b g' :
  on_tasks co f g = (inr b, g') →
  ∃ t, f (task_run (g_tasks g) (co_others co (g_statements g))) (co_db co (g_statements g)).1 (co_db co (g_statements g)).2 = (b, t) ∧
    g_tasks g' = t ∧ g_statements g' = Datatypes.S (g_statements g) ∧ g_world g' = g_world g ∧ g_net g' = g_net g.
Proof. unfold on_tasks. destruct (co_db co _) as [now st]. simpl. destruct (f _ now st) as [b' t]. intros [= <- <-]. by exists t. Qed.

Lemma AdvanceCounters_applied t now st scope id hops calls maxHops maxCalls t' :
  AdvanceCounters t now st scope id hops calls maxHops maxCalls = (Ok true, t') →
  ∃ task, t !! (scope, id) = Some task ∧ a2_Hops task + hops <= maxHops ∧ a2_Calls task + calls <= maxCalls ∧
    t' !! (scope, id) = Some (with_counters now task hops calls).
Proof.
  unfold AdvanceCounters. case_bool_decide; [done|]. destruct st; simpl; [|done|done]. unfold update_row.
  destruct (t !! (scope, id)) as [task|]; [|done]. destruct (_ && _) eqn:E; [|done]. apply andb_true_iff in E as [?%Z.leb_le ?%Z.leb_le].
  intros [= <-]. exists task. by rewrite lookup_insert_eq.
Qed.

Lemma set_task_tasks taskID g g' : set_task taskID g = (inr tt, g') → g_tasks g' = g_tasks g ∧ g_statements g' = g_statements g.
Proof. unfold set_task, on_world. by intros [= <-]. Qed.

(** What a claim that went through leaves in the table. *)
Lemma claim_inr scope agentID taskID request g g' :
  claim_task p co scope agentID taskID request g = (inr tt, g') →
  (∃ row, task_run (g_tasks g) (co_others co (g_statements g)) !! (scope, taskID) = Some row ∧
     a2_Status row ∈ [A2ATaskPending; A2ATaskFailed; A2ATaskCancelled]) ∧
  ∃ row, g_tasks g' !! (scope, taskID) = Some row ∧ a2_Hops row <= maxA2ADelegationHops ∧ a2_Calls row <= maxA2ATaskCalls ∧
    (Forall (bystander (scope, taskID) (co_db co (g_statements g)).1) (co_others co (Datatypes.S (g_statements g))) →
     a2_Status row = A2ATaskRunning).
Proof.
  intros Hc. unfold claim_task in Hc. apply bind_inr in Hc as (started & g1 & Hs & Hc).
  apply on_tasks_inr in Hs as (t1 & Hs & Ht1 & Hn1 & _). apply bind_inr in Hc as (b & g2 & Hb & Hc). apply or_refuse_inr in Hb as [-> ->].
  destruct b; simpl in Hc; [|by destruct (refuse_inr _ _ _ _ _ Hc)].
  split.
  { pose proof (TryStart_claims (task_run (g_tasks g) (co_others co (g_statements g))) (co_db co (g_statements g)).1
                  (co_db co (g_statements g)).2 scope taskID) as Hcl.
    rewrite Hs in Hcl. destruct (Hcl eq_refl) as (row & Hl & Hst & _). exists row. split; [done|]. by apply bool_decide_eq_true in Hst. }
  apply bind_inr in Hc as (applied & g3 & Ha & Hc). apply on_tasks_inr in Ha as (t2 & Ha & Ht2 & Hn2 & _).
  apply bind_inr in Hc as (b & g4 & Hb & Hc). apply or_refuse_inr in Hb as [-> ->]. destruct b.
  - apply set_task_tasks in Hc as [Hct _]. rewrite Hct, Ht2. destruct (AdvanceCounters_applied _ _ _ _ _ _ _ _ _ _ Ha) as (task & Hl & Hh & Hcalls & Hl').
    exists (with_counters (co_db co (g_statements g1)).1 task (a2aHopCount request + 1) 1). split_and!; [done|done|done|].
    intros Hby. simpl. rewrite Hn1, Ht1 in Hl.
    destruct (claim_held _ _ _ _ _ _ _ Hs Hby) as (task' & Hl2 & Hr & _). rewrite Hl2 in Hl. by injection Hl as ->.
  - apply bind_inr in Hc as (? & ? & _ & Hc). apply bind_inr in Hc as (? & ? & _ & Hc). by destruct (refuse_inr _ _ _ _ _ Hc).
Qed.

Lemma admit_inr agentID g g' :
  admit_call p agentID g = (inr tt, g') →
  ∃ w, admitTool (p_clk p) (p_ids p) (p_tokenizer p) (p_ratePolicy p) (g_world g) = (None, w) ∧
    check_approval p w = (None, g_world g') ∧ g_tasks g' = g_tasks g ∧ g_statements g' = g_statements g.
Proof.
  unfold admit_call. intros Ha. apply bind_inr in Ha as (err & g1 & Ha & Hc). unfold on_world in Ha.
  destruct (admitTool _ _ _ _ (g_world g)) as [err' w] eqn:Ew. injection Ha as -> <-. exists w.
  destruct err as [err|]. { apply bind_inr in Hc as (? & ? & Hr & _). by destruct (refuse_inr _ _ _ _ _ Hr). }
  apply bind_inr in Hc as ([] & g2 & [= <-] & Hc). apply bind_inr in Hc as (err & g3 & Ha & Hc). unfold on_world in Ha. simpl in Ha.
  destruct (check_approval p w) as [err' w'] eqn:Ec. injection Ha as -> <-.
  destruct err; [by destruct (refuse_inr _ _ _ _ _ Hc)|]. by injection Hc as <-.
Qed.

(** The rate, the budget and the approval of a call are checked on the state it finds. *)
Lemma admitTool_clear s w w1 w2 :
  rc_Snapshot (w_req w) = Some s → is_Some (rc_Request (w_req w)) →
  admitTool (p_clk p) (p_ids p) (p_tokenizer p) (p_ratePolicy p) w = (None, w1) → check_approval p w1 = (None, w2) →
  rate_clear p w (w_req w) (w_tick w) ∧ budget_clear p w (w_req w) (w_tick w + 1)%nat ∧ approval_clear p s w (w_req w).
Proof.
  intros Hs Hu. unfold admitTool. destruct (allow_rpm _ _ w) as [[|] wr] eqn:Er; [|done]. simpl. intros Hb Ha.
  apply allow_rpm_clear in Er as (Hr & Htr & Hqr & _ & Hbr & Har).
  assert (w_approvals w1 = w_approvals wr ∧ rc_Snapshot (w_req w1) = rc_Snapshot (w_req wr) ∧
          rc_Interaction (w_req w1) = rc_Interaction (w_req wr)) as (Hap & Hsn & Hin).
  { unfold reserveBudget, reserve_for, new_id in Hb. repeat (case_match; simplify_eq/=); done. }
  apply (reserveBudget_clear p s) in Hb; [|by rewrite Hqr|by rewrite Hqr].
  apply (check_approval_clear p s) in Ha; [|by rewrite Hsn, Hqr]. split; [done|]. split.
  - unfold budget_clear in *. by rewrite Hbr, Hqr, Htr in Hb.
  - intros i Hp Hi Hn. specialize (Ha i Hp). unfold approved_in, needs_approval, TenantID, ProjectID in *.
    rewrite Hin, Hap, Har, Hqr, Hi in Ha. rewrite Hi in Hn |- *. by apply Ha.
Qed.

(** What an endpoint has that a message is sent to. *)
Lemma relay_endpoint_spec a endpoint :
  relay_endpoint co a = Ok endpoint →
  (∃ id, snapshot_agentEndpoint (at_Snapshot a) id = Some endpoint) ∧ ae_Protocol endpoint = "a2a" ∧ ae_URL endpoint ≠ "" ∧
  ValidateTarget (ae_URL endpoint) LitePolicy = None.
Proof.
  unfold relay_endpoint. destruct (agent_Plan _ _ _ _ _) as [plan|]; [|done]. case_bool_decide; [done|].
  destruct (snapshot_agentEndpoint _ _) as [e|] eqn:Ee; [|done]. destruct (bool_decide (ae_Protocol e ≠ "a2a")) eqn:Ep; [done|].
  destruct (bool_decide (ae_URL e = "")) eqn:Eu; [done|]. simpl. destruct (ValidateTarget _ _) eqn:Ev; [done|]. intros [= <-].
  apply bool_decide_eq_false in Ep, Eu. split_and!; [eauto|by destruct (decide (ae_Protocol e = "a2a"))|done|done].
Qed.

(** The statuses in which a task may be relayed again. *)
Definition resumable (task : A2ATask) : Prop := a2_Status task ∉ [A2ATaskCompleted; A2ATaskPending; A2ATaskRunning].

Lemma resume_inr agentID task g existing g' : resume_task p agentID task g = (inr existing, g') → existing = Some task ∧ g' = g ∧ resumable task.
Proof.
  unfold resume_task, resumable. case_bool_decide; [by intros (? & ? & _ & ?)%bind_inr|].
  destruct (bool_decide (a2_Status task = A2ATaskPending)) eqn:Ep; [by intros ?%refuse_inr|].
  destruct (bool_decide (a2_Status task = A2ATaskRunning)) eqn:Er; [by intros ?%refuse_inr|]. simpl.
  apply bool_decide_eq_false in Ep, Er. intros [= <- <-]. rewrite !not_elem_of_cons. split_and!; try done. by apply not_elem_of_nil.
Qed.

(** The lookup leaves the pipeline alone, and a task it found may be relayed again. *)
Lemma find_inr scope agentID key staleBefore g existing g' :
  find_task p co scope agentID key staleBefore g = (inr existing, g') →
  g_world g' = g_world g ∧
  (co_tasks co = true → by_key (g_tasks g') scope key = existing ∧ ∀ task, existing = Some task → resumable task).
Proof.
  unfold find_task. destruct (co_tasks co); simpl; [|by intros [= <- <-]]. intros Hf.
  apply bind_inr in Hf as (r & g1 & Hs1 & Hf). apply on_tasks_inr in Hs1 as (t1 & _ & _ & _ & Hw1 & _).
  apply bind_inr in Hf as (n & g2 & Hs2 & Hf). apply or_refuse_inr in Hs2 as [_ ->].
  apply bind_inr in Hf as (found & g3 & Hs3 & Hf). apply on_tasks_inr in Hs3 as (t3 & Hs3 & Ht3 & _ & Hw3 & _).
  apply bind_inr in Hf as (e & g4 & Hs4 & Hf). apply or_refuse_inr in Hs4 as [-> ->].
  assert (by_key (g_tasks g3) scope key = e) as Hk.
  { rewrite Ht3. injection Hs3 as He <-. unfold GetByIdempotency, read in He. case_bool_decide; [done|]. by destruct (co_db co _).2; simplify_eq. }
  destruct e as [task|].
  - apply resume_inr in Hf as (-> & -> & Hr). split; [congruence|]. intros _. split; [done|]. by intros ? [= <-].
  - injection Hf as <- <-. split; [congruence|done].
Qed.

Lemma enforce_inr a endpoint request g g' i :
  rc_Interaction (w_req (g_world g)) = Some i → enforce_federation p co a endpoint request g = (inr tt, g') →
  ∃ i', enforceA2AFederation (co_order co) (at_Snapshot a) request i endpoint "chat" = Ok i' ∧
    g_world g' = put_req (g_world g) (with_interaction (w_req (g_world g)) (inbound_boundary (co_order co) a (ae_AgentID endpoint) i')).
Proof.
  intros Hi. unfold enforce_federation. intros He. apply bind_inr in He as (c & g1 & [= <- <-] & He). rewrite Hi in He.
  apply bind_inr in He as (i' & g2 & Hb & He). apply or_refuse_inr in Hb as [Hb ->]. exists i'. split; [done|].
  unfold put_request, on_world in He. by injection He as <-.
Qed.

(** The interaction of a relayed message. *)
Definition relay_interaction (a : AuthResult) (endpoint : AgentEndpoint) : Context :=
  call_interaction "agent" "a2a" "agent" (ae_AgentID endpoint) (relay_project a (ae_AgentID endpoint)) (at_Principal a).

(** The state in which a relay asks the federation gate. *)
Definition at_gate g (a : AuthResult) (endpoint : AgentEndpoint) (requestID : string) (request : option UnifiedRequest) : gw :=
  set_world g (put_req (put_id (tick 1 (g_world g)) (w_id (g_world g) + 1)%nat)
                 (relay_context requestID (now_of (p_clk p) (g_world g)) a endpoint request)).

(** The context of a relayed message that passed the federation gate as [i]. *)
Definition relayed_context g (a : AuthResult) (endpoint : AgentEndpoint) (requestID : string) (request : option UnifiedRequest) (i : Context) : RequestContext :=
  with_interaction (relay_context requestID (now_of (p_clk p) (g_world g)) a endpoint request)
    (inbound_boundary (co_order co) a (ae_AgentID endpoint) i).

End Safety.

(** ** Models and recorded calls *)

(** A key is shown exactly the models it may call: the published aliases that admission
    does not refuse to it. *)
Theorem listed_models_are_allowed s key name :
  name ∈ md_ID <$> ListModels s key ↔
  (∃ alias model, sn_logicalModels s !! alias = Some model ∧ lm_Alias model = name) ∧ modelAllowed (ak_ModelAllowlist key) name = true.
Proof.
  assert (∀ item, item ∈ LogicalModels s ↔ ∃ alias, sn_logicalModels s !! alias = Some item) as Hall.
  { intros item. unfold LogicalModels, snapshotCollectSorted. rewrite stable_sort_perm. apply elem_of_values. }
  unfold ListModels. rewrite modelAllowed_spec, <- list_fmap_compose, list_elem_of_fmap. setoid_rewrite list_elem_of_In. setoid_rewrite List.filter_In.
  setoid_rewrite <- list_elem_of_In. setoid_rewrite Hall. setoid_rewrite orb_true_iff. setoid_rewrite bool_decide_eq_true. simpl. split.
  - intros (item & -> & [alias Hl] & Ha). split; [eauto|]. naive_solver.
  - intros [(alias & model & Hl & Hn) Ha]. exists model. split; [done|]. split; [eauto|]. rewrite Hn. by destruct Ha; auto.
Qed.

Section Recorded.
Context `{!Regexp} `{!JSONCodec} `{!URLParser} {L S X A R K CS C W : Type}.
Context `{!BudgetLedger L} `{!CacheStore S} `{!Repository R} `{!EventSink K} `{!CircuitStore CS}.
Context (p : Lite.parts (X := X) (A := A) (CS := CS)) (co : core).
Implicit Types (g : gateway (L := L) (S := S) (X := X) (A := A) (R := R) (K := K) (C := C) (W := W)).

Lemma record_calls_ledger c u now n names g :
  TenantID c ≠ "" →
  ∃ events, g_ledger (record_calls p c u now (λ _, None) n names g) = (g_ledger g ++ events)%list ∧
    te_ToolName <$> events = List.filter (λ name, negb (bool_decide (name = ""))) names ∧
    Forall (λ e, te_TenantID e = TenantID c ∧ te_RequestID e = rc_RequestID c) events.
Proof.
  intros Ht. revert n g. induction names as [|name names IH]; intros n g; simpl; [exists []; by rewrite app_nil_r|].
  case_bool_decide; simpl; [apply IH|]. unfold toolcall_Create. rewrite !bool_decide_false; [|naive_solver|done].
  match goal with |- context [record_calls p c u now _ _ names ?g'] => destruct (IH (Datatypes.S n) g') as (events & -> & Hn & Hf) end.
  simpl. rewrite <- app_assoc. eexists (_ :: events). split; [done|]. split; [rewrite <- Hn; done|by constructor].
Qed.

(** A model request is answered as the pipeline answers it, whether its tool calls can be
    recorded or not; and when the ledger accepts them, exactly the named calls of the
    answer are appended, in order, under the request's tenant. *)
Theorem chat_calls_are_recorded stream (writer : bool) g err w :
  Run p stream (if writer then put_req (g_world g) (with_writer (w_req (g_world g))) else g_world g) = (err, w) →
  (gateway_Run p co stream writer g).1 = err ∧
  ∀ r u chat, err = None → co_ledger co = Some (λ _, None) → rc_Response (w_req w) = Some r → rc_Request (w_req w) = Some u →
    ur_Chat u = Some chat → TenantID (w_req w) ≠ "" →
    ∃ events, g_ledger (gateway_Run p co stream writer g).2 = (g_ledger g ++ events)%list ∧
      te_ToolName <$> events = List.filter (λ name, negb (bool_decide (name = ""))) (called r) ∧
      Forall (λ e, te_TenantID e = TenantID (w_req w) ∧ te_RequestID e = rc_RequestID (w_req w)) events.
Proof.
  intros Hrun. unfold gateway_Run. rewrite Hrun. split; [by destruct err|]. intros r u chat -> Hco Hr Hu Hc Ht. simpl.
  unfold recordChatToolCalls. simpl. rewrite Hco, Hr, Hu, Hc.
  destruct (record_calls_ledger (w_req w) u (now_of (p_clk p) w) 0 (called r) (set_world (set_world g w) (tick 1 w))) as (events & He & Hrest); [done|].
  exists events. by split.
Qed.
End Recorded.

(** The text a task keeps of a message is the text the connector sends. *)
Lemma task_keeps_sent_text request chat :
  request ≫= ur_Chat = Some chat → a2aRelayText request = (chatTurn chat).2.
Proof.
  intros Hc. unfold a2aRelayText. rewrite Hc. unfold chatTurn.
  assert (∀ ms role text, foldl (λ text m, if bool_decide (msg_Content m = "") then text else msg_Content m) text ms = (foldl turn (role, text) ms).2) as Hf.
  { intros ms. induction ms as [|m ms IH]; intros role text; simpl; [done|]. unfold turn at 2. case_bool_decide; apply IH. }
  apply Hf.
Qed.

(** ** A laboratory relay *)

#[local] Existing Instances no_regexp no_sink ready_repository recorded_net plain_upstream collecting.

(** The URLs of one scheme. *)
#[local] Instance https_urls : URLParser :=
  {| url_Parse := λ s, match after_prefix "https://" s with
                       | Some host => Ok {| url_Scheme := "https"; url_User := false; url_Host := host; url_Opaque := ""; url_Path := "" |}
                       | None => Err (ErrNew "unsupported scheme")
                       end |}.

(** A tenant with a budget and one agent. *)
Definition agent_tenant : TenantRuntimeSnapshot :=
  NewTenantSnapshot (with_agents (example_tenant "priority" no_cache [example_budget "b" "" ""])
                       [example_endpoint "e" "bot" "https://agents"] [] [] [] [] []).

Definition caller (application : string) : AuthResult :=
  {| at_Principal := {| Admission.pr_Type := "application"; Admission.pr_TenantID := "t"; pr_ProjectID := "proj"; pr_APIKeyID := "k"; pr_ApplicationID := application;
                        Admission.pr_AgentID := ""; pr_ServiceAccountID := ""; Admission.pr_AuthMethod := "api_key"; Admission.pr_AttributionTrust := "";
                        Admission.pr_TrustBoundary := "internal"; Admission.pr_FederationRelationshipID := ""; Admission.pr_ExternalSubject := "" |};
     at_Snapshot := agent_tenant; at_Key := example_key |}.

Definition message (session : string) : AdmitInput :=
  {| gi_Token := "token"; gi_RemoteIP := "10.0.0.1"; gi_Protocol := "a2a"; gi_BodyBytes := 100; gi_Federated := None;
     gi_Request := Some {| ur_Kind := ur_Kind example_request; ur_Model := ""; ur_Stream := false; ur_Metadata := ∅; ur_SessionID := session;
                           ur_TaskID := ""; ur_RootTaskID := ""; ur_ParentTaskID := ""; ur_Chat := ur_Chat example_request; ur_Responses := None;
                           ur_Embedding := None; ur_Rerank := None; ur_Audio := None; ur_Batch := None; ur_File := None; ur_Tool := None;
                           ur_Parameters := ∅ |} |}.

(** Every statement runs, and nobody else uses the table. *)
Definition lab_core : core :=
  {| co_tasks := true; co_db := λ n, (ticking n, Ran); co_others := λ _, []; co_order := in_order; co_endpoints := λ _ l, l;
     co_tools := λ l, l; co_servers := λ l, l; co_client := true; co_secrets := true; co_alive := true; co_stamp := "stamp";
     co_ledger := Some (λ _, None); co_maxBodyBytes := 1024 |}.

Definition lab_state : Type :=
  gateway (L := MemoryBudgetLedger) (S := Cache.MemoryStore) (X := Breaker Circuit.MemoryStore * nat) (A := unit) (R := unit) (K := unit)
    (C := list Post) (W := list StreamEvent).

Definition lab_gateway : lab_state :=
  {| g_world := lab_world chat_context; g_tasks := ∅; g_statements := 0; g_net := []; g_cache := newConnectorCache;
     g_ledger := []; g_sink := [] |}.

(** The message is answered by one post, and the answer is stored. *)
Example lab_relays :
  let '(answer, g) := end_of (invokeA2ARelay lab lab_core (caller "app") (message "m1") false) lab_gateway in
  answer = Ok (external_response "id0" "bot" "Hello world") ∧ length (g_net g) = 1%nat ∧
  (λ row, (a2_Status row, a2_Result row)) <$> g_tasks g !! ("t", "id0") = Some (A2ATaskCompleted, "Hello world").
Proof. vm_compute. auto. Qed.

Lemma relay_settles_reservation_witness :
  rc_ReservationID (w_req (g_world (end_of (invokeA2ARelay lab lab_core (caller "app") (message "m1") false) lab_gateway).2)) = "id1" ∧
  closed (g_world (end_of (invokeA2ARelay lab lab_core (caller "app") (message "m1") false) lab_gateway).2).
Proof.
  split; [vm_compute; reflexivity|].
  destruct (relay_settles_reservation lab lab_core (λ n, eq_refl) (caller "app") (message "m1") false lab_gateway) as [Hc|(agentID & task & He)].
  - by eexists.
  - reflexivity.
  - exact Hc.
  - apply (f_equal (λ answer, match answer with Ok r => pn_Source ∘ tres_Provenance <$> re_ToolResult r | Err _ => None end)) in He.
    exfalso. vm_compute in He. discriminate He.
Defined.


