(* ===== verification/RelayReplay.v ===== *)
(** * A relayed answer is replayed: app/gateway.go

    The life of an answer in the task table: a relay that is answered has stored the
    answer under its task, the table keeps one task per key whatever a relay does, and a
    later message under the same key is answered from it without a call.  The triples
    are those of RelaySafety.v. *)

From S2P Require Import Prelude Egress GoFloat GoStd GoText Circuit Coordination Budget Enforcer Rate Retry Snapshot CredentialPool.
From S2P Require Import Planner Executor Accounting Approval Pipeline Federation Admission Interaction Cache Metering FinOps Guardrail StreamGuard.
From S2P Require Import RoutingMetrics LiteWorld LiteUsage LiteAux Lite LiteSafety A2ATask AgentCall Relay RelaySafety.

Open Scope string_scope.
Open Scope Z_scope.

Section Stores.
Context `{!Regexp} `{!JSONCodec} `{!URLParser} `{!ToolJSON} {L S X A R K CS C W : Type}.
Context `{!BudgetLedger L} `{!CacheStore S} `{!Repository R} `{!EventSink K} `{!CircuitStore CS}.
Context `{!AgentNet C} `{!UpstreamErrors} `{!Sink W}.
Context (p : Lite.parts (X := X) (A := A) (CS := CS)) (co : core).

Abbreviation gw := (gateway (L := L) (S := S) (X := X) (A := A) (R := R) (K := K) (C := C) (W := W)).
Abbreviation stp := (step (L := L) (S := S) (X := X) (A := A) (R := R) (K := K) (C := C) (W := W)).

Implicit Types (g : gw) (w : world L S X A R K).

(** ** A relayed answer is stored *)

Section Stored.
Context (scope key requestID : string).

(** A statement that does not create a task under this request's id. *)
Definition stranger (op : task_op) : Prop := match op with OpCreate _ _ _ task => a2_TaskID task ≠ requestID | _ => True end.

(** The row under the request's id, if any, has the request's key. *)
Definition own_key (t : tasks) : Prop := named t ∧ ∀ task, t !! (scope, requestID) = Some task → a2_IdempotencyKey task = key.

Lemma own_key_step t op : stranger op → own_key t → own_key (task_step t op).
Proof.
  intros Hs [Hn Ho]. split; [by apply named_step|]. intros new Hnew. destruct (t !! (scope, requestID)) as [old|] eqn:E.
  - destruct (task_step_row t op _ old E) as (new' & Hnew' & Hr). rewrite Hnew in Hnew'. injection Hnew' as <-. apply row_step_key in Hr. rewrite Hr. by apply Ho.
  - destruct (task_step_new t op _ new E Hnew) as (now & st & task & -> & Hid & _). by destruct Hs.
Qed.

(** A task of the key is in the table, and stays. *)
Definition in_table (taskID : string) (t : tasks) : Prop := ∃ row, t !! (scope, taskID) = Some row ∧ a2_IdempotencyKey row = key.

Lemma in_table_step t op id : in_table id t → in_table id (task_step t op).
Proof.
  intros (row & Hl & Hk). destruct (task_step_row t op _ row Hl) as (new & Hn & Hr). exists new. split; [done|]. apply row_step_key in Hr. congruence.
Qed.

Definition stored (r : UnifiedResponse) (t : tasks) : Prop :=
  ∃ row, t !! (scope, re_ID r) = Some row ∧ a2_IdempotencyKey row = key ∧ a2_Status row = A2ATaskCompleted ∧ a2_Result row = response_text r.

Definition stored_end (answer : result UnifiedResponse) g : Prop := ∀ r, answer = Ok r → stored r (g_tasks g).

Context (strangers : ∀ n, Forall stranger (co_others co n)).

Lemma own_key_run ops t : Forall stranger ops → own_key t → own_key (task_run t ops).
Proof. intros Hf. revert t. induction Hf as [|op ops Hop Hf IH]; intros t Ht; simpl; [done|]. apply IH. by apply own_key_step. Qed.

Lemma in_table_run ops id t : in_table id t → in_table id (task_run t ops).
Proof. revert t. induction ops as [|op ops IH]; intros t Ht; simpl; [done|]. by apply IH, in_table_step. Qed.

(** A statement of the relay, from a table where [P] holds. *)
Lemma triple_table {B : Type} (P : tasks → Prop) (f : tasks → Z → statement → B * tasks) (Q : B → tasks → Prop) E :
  (∀ n t, P t → P (task_run t (co_others co n))) → (∀ t now st, P t → Q (f t now st).1 (f t now st).2) →
  triple (λ g, P (g_tasks g)) (on_tasks co f) (λ b g, Q b (g_tasks g)) E.
Proof.
  intros Hothers Hf g Hg. unfold on_tasks. destruct (co_db co _) as [now st]. specialize (Hf _ now st (Hothers (g_statements g) _ Hg)).
  by destruct (f _ now st).
Qed.

(** What the table is known to hold before the call is made. *)
Definition owns (id : option string) (t : tasks) : Prop := own_key t ∧ match id with Some id => in_table id t | None => True end.

Lemma owns_others id n t : owns id t → owns id (task_run t (co_others co n)).
Proof. intros [Ho Hi]. split; [by apply own_key_run|]. destruct id; [|done]. by apply in_table_run. Qed.

Lemma owns_step id t op : stranger op → owns id t → owns id (task_step t op).
Proof. intros Hs [Ho Hi]. split; [by apply own_key_step|]. destruct id; [|done]. by apply in_table_step. Qed.

(** A statement whose effect is one of [task_step]. *)
Lemma triple_op {B : Type} id (f : tasks → Z → statement → B * tasks) op E :
  (∀ now st, stranger (op now st)) → (∀ t now st, (f t now st).2 = task_step t (op now st)) →
  triple (λ g, owns id (g_tasks g)) (on_tasks co f) (λ _ g, owns id (g_tasks g)) E.
Proof. intros Hs Hf. apply (triple_table (owns id) f (λ _, owns id)); [apply owns_others|]. intros t now st Ht. rewrite Hf. by apply owns_step. Qed.

(** A property of the table survives every step that only touches the pipeline, and an
    error stores nothing. *)
Lemma triple_error {B : Type} (P : gw → Prop) err (Q : B → gw → Prop) : triple P (stop (Err err)) Q stored_end.
Proof. apply triple_stop. by intros g _ r. Qed.

Lemma table_world {B : Type} (P : tasks → Prop) (f : world L S X A R K → B * world L S X A R K) E :
  triple (λ g, P (g_tasks g)) (on_world f) (λ _ g, P (g_tasks g)) E.
Proof. by apply triple_world. Qed.

Lemma table_refuse {B : Type} (P : tasks → Prop) target err (Q : B → gw → Prop) : triple (λ g, P (g_tasks g)) (refuse p target err) Q stored_end.
Proof. unfold refuse. eapply triple_bind; [apply table_world|]. intros ?. apply triple_error. Qed.

Lemma table_or_refuse {B : Type} (P : tasks → Prop) target (answer : result B) (Q : B → gw → Prop) :
  (∀ b g, answer = Ok b → P (g_tasks g) → Q b g) → triple (λ g, P (g_tasks g)) (or_refuse p target answer) Q stored_end.
Proof. intros HQ. destruct answer as [b|err]; simpl; [|apply table_refuse]. apply triple_ret. intros g Hg. by apply HQ. Qed.

Lemma found_stored agentID task t : own_key t → by_key t scope key = Some task → in_table (a2_TaskID task) t ∧
  (a2_Status task = A2ATaskCompleted → stored (a2aReplayResponse agentID task) t).
Proof.
  intros [Hn _] Hb. pose proof (by_key_spec t scope key) as Hs. rewrite Hb in Hs. destruct Hs as (id & Hl & Hk).
  assert (a2_TaskID task = id) as <- by exact (Hn _ _ Hl). split; [by exists task|]. intros Hc. by exists task.
Qed.

Lemma table_resume agentID task :
  triple (λ g, own_key (g_tasks g) ∧ by_key (g_tasks g) scope key = Some task) (resume_task p agentID task)
    (λ o g, owns (a2_TaskID <$> o) (g_tasks g) ∧ is_Some o) stored_end.
Proof.
  unfold resume_task. case_bool_decide as Hc.
  - eapply (triple_bind _ _ (λ _ g, own_key (g_tasks g) ∧ by_key (g_tasks g) scope key = Some task)); [by apply triple_world|]. intros ?.
    apply triple_stop. intros g [Ho Hb] r [= <-]. by apply found_stored.
  - destruct (_ || _); [by apply (table_refuse (λ t, own_key t ∧ by_key t scope key = Some task))|].
    apply triple_ret. intros g [Ho Hb]. split; [|by eexists]. split; [done|]. by apply (found_stored agentID).
Qed.

Lemma lookup_key st t : (∀ o, GetByIdempotency t st scope key = Ok o → o = by_key t scope key).
Proof. unfold GetByIdempotency, read. intros o. case_bool_decide; [done|]. destruct st; [by intros [= <-]|done|done]. Qed.

Lemma table_lookup agentID (Q : option A2ATask → gw → Prop) :
  (∀ g, owns None (g_tasks g) → by_key (g_tasks g) scope key = None → Q None g) →
  (∀ task, triple (λ g, own_key (g_tasks g) ∧ by_key (g_tasks g) scope key = Some task) (ret (Some task)) Q stored_end) →
  triple (λ g, owns None (g_tasks g))
    (found ← on_tasks co (λ t _ st, (GetByIdempotency t st scope key, t)); or_refuse p agentID found) Q stored_end.
Proof.
  intros Hnone Hsome. eapply (triple_bind _ _ (λ b g, owns None (g_tasks g) ∧ ∀ o, b = Ok o → o = by_key (g_tasks g) scope key)).
  - apply (triple_table (owns None) _ (λ b t, owns None t ∧ ∀ o, b = Ok o → o = by_key t scope key)); [apply owns_others|].
    intros t now st Ht. split; [done|]. apply lookup_key.
  - intros b. apply (table_or_refuse (λ t, owns None t ∧ ∀ o, b = Ok o → o = by_key t scope key)).
    intros [task|] g -> [Ho Hb]; specialize (Hb _ eq_refl); [|by apply Hnone]. apply (Hsome task g). by destruct Ho.
Qed.

Lemma bind_assoc {B D F : Type} (m : stp B) (k : B → stp D) (h : D → stp F) g :
  mbind h (mbind k m) g = mbind (λ b, mbind h (k b)) m g.
Proof. unfold mbind, step_bind. by destruct (m g) as [[]]. Qed.

Lemma table_find agentID staleBefore :
  triple (λ g, owns None (g_tasks g)) (find_task p co scope agentID key staleBefore) (λ o g, owns (a2_TaskID <$> o) (g_tasks g)) stored_end.
Proof.
  unfold find_task. destruct (negb _); [by apply triple_ret|].
  eapply triple_bind; [by apply (triple_op None _ (λ now st, OpReap now st scope staleBefore))|]. intros reaped.
  eapply (triple_bind _ _ (λ _ g, owns None (g_tasks g))); [by apply table_or_refuse|]. intros ?.
  intros g Hg. rewrite <- bind_assoc. revert g Hg.
  change (triple (λ g, owns None (g_tasks g))
    (mbind (λ existing, match existing with None => ret None | Some task => resume_task p agentID task end)
       (found ← on_tasks co (λ t _ st, (GetByIdempotency t st scope key, t)); or_refuse p agentID found))
    (λ o g, owns (a2_TaskID <$> o) (g_tasks g)) stored_end).
  eapply (triple_bind _ _ (λ o g, own_key (g_tasks g) ∧ ∀ task, o = Some task → by_key (g_tasks g) scope key = Some task)).
  - apply table_lookup; [by intros g [Ho _] _|]. intros task. apply triple_ret. intros g [Ho Hb]. split; [done|]. by intros ? [= <-].
  - intros [task|]; [|apply triple_ret; intros g [Ho _]; by split]. eapply triple_pre; [|intros g' Hg'; generalize (table_resume agentID task g' Hg')].
    + intros g [Ho Hb]. by split; [|apply Hb].
    + destruct (resume_task p agentID task g') as [[]]; [done|by intros []].
Qed.

Lemma own_create t now st task :
  a2_TaskID task = requestID → a2_IdempotencyKey task = key → owns None t → owns None (task_step t (OpCreate now st scope task)).
Proof.
  intros Hid Hk [[Hn Ho] _]. split; [|done]. split; [by apply named_step|]. intros new Hnew. destruct (t !! (scope, requestID)) as [old|] eqn:E.
  - destruct (task_step_row t (OpCreate now st scope task) _ old E) as (new' & Hnew' & Hr). rewrite Hnew in Hnew'. injection Hnew' as <-.
    apply row_step_key in Hr. rewrite Hr. by apply Ho.
  - destruct (task_step_new t _ _ new E Hnew) as (now' & st' & task' & [= <- <- <-] & _ & -> & _). done.
Qed.

Lemma table_own agentID projectID message :
  triple (λ g, owns None (g_tasks g)) (own_task p co agentID (pending_task requestID scope agentID projectID key message))
    (λ t g, owns (Some (a2_TaskID t)) (g_tasks g)) stored_end.
Proof.
  unfold own_task. set (task := pending_task _ _ _ _ _ _). change (a2_TenantID task) with scope. change (a2_IdempotencyKey task) with key.
  change (a2_TaskID task) with requestID.
  eapply (triple_bind _ _ (λ _ g, owns None (g_tasks g))).
  { apply (triple_table (owns None) _ (λ _, owns None)); [apply owns_others|]. intros t now st Ht. by apply (own_create t now st task). }
  intros created. eapply (triple_bind _ _ (λ _ g, owns None (g_tasks g))); [by apply table_or_refuse|]. intros ?.
  eapply (triple_bind _ _ (λ b g, owns None (g_tasks g) ∧ ∀ o, b = Ok o → o = g_tasks g !! (scope, requestID))).
  { apply (triple_table (owns None) _ (λ b t, owns None t ∧ ∀ o, b = Ok o → o = t !! (scope, requestID))); [apply owns_others|].
    intros t now st Ht. split; [done|]. intros o. simpl. unfold GetByTask, read. case_bool_decide; [done|]. destruct st; [by intros [= <-]|done|done]. }
  intros mine. eapply (triple_bind _ _ (λ o g, owns None (g_tasks g) ∧ o = g_tasks g !! (scope, requestID))).
  { apply (table_or_refuse (λ t, owns None t ∧ ∀ o, mine = Ok o → o = t !! (scope, requestID))). intros o g -> [Ho Hm]. split; [done|by apply Hm]. }
  intros [row|].
  { apply triple_ret. intros g [[Ho _] Hrow]. symmetry in Hrow. split; [done|]. assert (a2_TaskID row = requestID) as -> by exact (proj1 Ho _ _ Hrow).
    exists row. split; [done|]. by apply Ho. }
  eapply (triple_pre _ (λ g, owns None (g_tasks g))); [by intros g []|].
  intros g Hg. rewrite <- bind_assoc. revert g Hg.
  change (triple (λ g, owns None (g_tasks g))
    (mbind (λ other, match other with
                     | None => refuse p agentID DISAPPEARED
                     | Some other => adopted ← resume_task p agentID other;
                                     match adopted with Some task => ret task | None => refuse p agentID DISAPPEARED end
                     end)
       (found ← on_tasks co (λ t _ st, (GetByIdempotency t st scope key, t)); or_refuse p agentID found))
    (λ t g, owns (Some (a2_TaskID t)) (g_tasks g)) stored_end).
  eapply (triple_bind _ _ (λ o g, own_key (g_tasks g) ∧ ∀ task, o = Some task → by_key (g_tasks g) scope key = Some task)).
  { apply table_lookup; [by intros g [Ho _] _|]. intros t. apply triple_ret. intros g [Ho Hb]. split; [done|]. by intros ? [= <-]. }
  intros [other|]; [|by apply (table_refuse (λ t, own_key t ∧ ∀ task, None = Some task → by_key t scope key = Some task))].
  eapply triple_bind; [eapply triple_pre; [|apply table_resume]; intros g [Ho Hb]; by split; [|apply Hb]|].
  intros [t|]; [apply triple_ret; by intros g [Ho _]|]. apply (table_refuse (λ t, owns None t ∧ is_Some None)).
Qed.

Lemma table_claim agentID taskID request :
  triple (λ g, owns (Some taskID) (g_tasks g)) (claim_task p co scope agentID taskID request) (λ _ g, owns (Some taskID) (g_tasks g)) stored_end.
Proof.
  unfold claim_task. eapply triple_bind; [by apply (triple_op (Some taskID) _ (λ now st, OpStart now st scope taskID))|]. intros started.
  eapply (triple_bind _ _ (λ _ g, owns (Some taskID) (g_tasks g))); [by apply table_or_refuse|].
  intros [|]; simpl; [|apply (table_refuse (owns (Some taskID)))].
  eapply triple_bind; [by apply (triple_op (Some taskID) _ (λ now st,
    OpAdvance now st scope taskID (a2aHopCount request + 1) 1 maxA2ADelegationHops maxA2ATaskCalls))|]. intros applied.
  eapply (triple_bind _ _ (λ _ g, owns (Some taskID) (g_tasks g))); [by apply table_or_refuse|].
  intros [|]; [by apply triple_world|].
  eapply (triple_bind _ _ (λ _ g, owns (Some taskID) (g_tasks g))).
  { by apply (triple_table (owns (Some taskID)) _ (λ _, owns (Some taskID))); [apply owns_others|]. }
  intros current. eapply triple_bind; [by apply (triple_op (Some taskID) _ (λ now st, OpSet now st scope taskID A2ATaskFailed ""))|].
  intros ?. apply (table_refuse (owns (Some taskID))).
Qed.

Context (has_tasks : co_tasks co = true).

Lemma table_durable agentID projectID request existing :
  triple (λ g, owns (a2_TaskID <$> existing) (g_tasks g)) (durable_task p co scope agentID projectID requestID key request existing)
    (λ o g, ∃ t, o = Some t ∧ owns (Some (a2_TaskID t)) (g_tasks g)) stored_end.
Proof.
  unfold durable_task. rewrite has_tasks. simpl. eapply (triple_bind _ _ (λ t g, owns (Some (a2_TaskID t)) (g_tasks g))).
  - destruct existing as [task|]; simpl; [by apply triple_ret|apply table_own].
  - intros t. eapply triple_bind; [apply table_claim|]. intros ?. apply triple_ret. intros g Hg. by exists t.
Qed.

Lemma table_complete agentID task answer :
  triple (λ g, owns (Some (a2_TaskID task)) (g_tasks g)) (complete_relay p co scope agentID (Some task) answer)
    (λ r g, stored r (g_tasks g)) stored_end.
Proof.
  set (id := a2_TaskID task). unfold complete_relay. destruct answer as [response|err].
  - eapply (triple_bind _ _ (λ r g, stored r (g_tasks g))).
    + fold id. eapply (triple_bind _ _ (λ b g, b = Ok tt → stored (with_id response id) (g_tasks g))).
      { apply (triple_table (owns (Some id)) _ (λ b t, b = Ok tt → stored (with_id response id) t)); [apply owns_others|].
        intros t now st [_ (row & Hl & Hk)] Hok. simpl in *.
        destruct (SetStatusResult t now st scope id A2ATaskCompleted (response_text (with_id response id))) as [b t'] eqn:Es. simpl in *. subst b.
        exists (with_status now row A2ATaskCompleted (response_text (with_id response id))). split_and!; try done.
        by eapply SetStatusResult_ok; [exact Es|exact Hl|]. }
      intros [[]|err]; [by apply triple_ret; intros g Hg; apply Hg|].
      eapply (triple_bind _ _ (λ _ _, True)); [by apply triple_world|]. intros ?. apply triple_error.
    + intros r. eapply triple_bind; [apply (table_world (stored r))|]. intros [err|]; [apply triple_error|by apply triple_ret].
  - eapply (triple_bind _ _ (λ _ _, True)).
    + eapply (triple_bind _ _ (λ _ _, True)); [|intros ?; by apply triple_ret].
      intros g _. unfold on_tasks. destruct (co_db co _). by destruct (SetStatusResult _ _ _ _ _ _ _).
    + intros ?. eapply (triple_bind _ _ (λ _ _, True)); [by apply triple_world|]. intros ?. apply triple_error.
Qed.

Lemma table_enforce (P : tasks → Prop) a endpoint request :
  triple (λ g, P (g_tasks g)) (enforce_federation p co a endpoint request) (λ _ g, P (g_tasks g)) stored_end.
Proof.
  unfold enforce_federation. eapply triple_bind; [apply table_world|]. intros c. destruct (rc_Interaction c); [|by apply triple_ret].
  eapply (triple_bind _ _ (λ _ g, P (g_tasks g))); [by apply table_or_refuse|]. intros i. apply table_world.
Qed.

Lemma table_admit (P : tasks → Prop) agentID :
  triple (λ g, P (g_tasks g)) (admit_call p agentID) (λ _ g, P (g_tasks g)) stored_end.
Proof.
  unfold admit_call. eapply triple_bind; [apply table_world|]. intros admitted.
  eapply (triple_bind _ _ (λ _ g, P (g_tasks g))); [destruct admitted; [apply (table_refuse P)|by apply triple_ret]|]. intros ?.
  eapply triple_bind; [apply table_world|]. intros [err|]; [apply (table_refuse P)|by apply triple_ret].
Qed.

Lemma table_connector (P : tasks → Prop) agentID endpoint :
  triple (λ g, P (g_tasks g)) (connector_for p co agentID endpoint) (λ _ g, P (g_tasks g)) stored_end.
Proof.
  intros g Hg. unfold connector_for. destruct (a2aFor _ _ _ _) as [connector cache].
  exact (table_or_refuse P agentID connector (λ _ g, P (g_tasks g)) (λ _ g _ Hg, Hg) (set_cache_of g cache) Hg).
Qed.

Lemma table_invoke (P : tasks → Prop) key' credential invoke :
  triple (λ g, P (g_tasks g)) (invokeWithResilience p co key' credential invoke) (λ _ g, P (g_tasks g)) stored_end.
Proof.
  assert (∀ f : C → result UnifiedResponse * C, triple (λ g, P (g_tasks g)) (on_net f) (λ _ g, P (g_tasks g)) stored_end) as Hnet.
  { intros f g Hg. unfold on_net. by destruct (f (g_net g)). }
  unfold invokeWithResilience. eapply triple_bind; [apply table_world|]. intros [|]; simpl; [|by apply triple_ret].
  eapply triple_bind; [apply Hnet|]. intros first. eapply (triple_bind _ _ (λ _ g, P (g_tasks g))).
  - destruct first; [by apply triple_ret|]. destruct (_ && _); [apply Hnet|by apply triple_ret].
  - intros answer. eapply triple_bind; [apply table_world|]. intros ?. by apply triple_ret.
Qed.

Lemma table_stream (P : tasks → Prop) cfg endpoint invocation E :
  triple (λ g, P (g_tasks g)) (relay_stream co cfg endpoint invocation) (λ _ g, P (g_tasks g)) E.
Proof. intros g Hg. unfold relay_stream. by destruct (a2a_Stream _ _ _ _ _) as [[err net] d]. Qed.
End Stored.

Lemma triple_pure {B : Type} (φ : Prop) (P : gw → Prop) (m : stp B) Q E : (φ → triple P m Q E) → triple (λ g, φ ∧ P g) m Q E.
Proof. intros Hm g [Hφ Hg]. by apply Hm. Qed.

Lemma triple_id requestID (P : tasks → Prop) E :
  (∀ err g, E (Err err) g) →
  triple (λ g, P (g_tasks g) ∧ p_ids p (w_id (g_world g)) = Ok requestID) (fresh_id p) (λ id g, id = requestID ∧ P (g_tasks g)) E.
Proof.
  intros HE. unfold fresh_id. eapply (triple_bind _ _ (λ id g, id = Ok requestID ∧ P (g_tasks g))).
  - apply triple_world. by intros g [Hp Hid].
  - intros [id|err]; [by apply triple_ret; intros g [[= ->] Hp]|]. by apply triple_stop.
Qed.

(** A relay that was answered leaves its answer in the table, under its key. *)
Lemma relay_stores a input stream g requestID response g' :
  let scope := pr_TenantID (at_Principal a) in
  let key := a2aIdempotencyKey (gi_Request input) requestID in
  co_tasks co = true → p_ids p (w_id (g_world g)) = Ok requestID →
  named (g_tasks g) → g_tasks g !! (scope, requestID) = None → (∀ n, Forall (stranger requestID) (co_others co n)) →
  end_of (invokeA2ARelay p co a input stream) g = (Ok response, g') → stored scope key response (g_tasks g').
Proof.
  intros scope key Hco Hid Hn Hfree Hst Hrun.
  set (P := owns scope key requestID None). assert (P (g_tasks g)) as HP by (split; [split; [done|intros ?; congruence]|done]).
  assert (triple (λ g, P (g_tasks g) ∧ p_ids p (w_id (g_world g)) = Ok requestID) (invokeA2ARelay p co a input stream)
    (λ r g, stored scope key r (g_tasks g)) (stored_end scope key)) as Ht.
  { clear Hrun Hid HP g Hn Hfree. unfold invokeA2ARelay. destruct (gi_Request input ≫= ur_Chat); [|apply triple_error].
    eapply (triple_bind _ _ (λ _ g, P (g_tasks g) ∧ p_ids p (w_id (g_world g)) = Ok requestID)); [by apply triple_world|]. intros now.
    eapply (triple_bind _ _ (λ _ g, P (g_tasks g) ∧ p_ids p (w_id (g_world g)) = Ok requestID)).
    { destruct (relay_endpoint co a); [by apply triple_ret|apply triple_error]. }
    intros endpoint. eapply triple_bind; [by apply triple_id|]. intros id. apply triple_pure. intros ->. cbv zeta. fold scope key.
    eapply triple_bind; [apply (table_world P)|]. intros ?. eapply triple_bind; [apply (table_enforce scope key P)|]. intros ?.
    eapply triple_bind; [by apply table_find|]. intros existing. eapply triple_bind; [apply table_admit|]. intros ?.
    eapply triple_bind; [by apply table_durable|]. intros o. intros h (t & -> & Ht). revert h Ht.
    eapply triple_bind; [apply (table_connector _ _ (owns scope key requestID (Some (a2_TaskID t))))|]. intros cfg.
    eapply (triple_bind _ _ (λ _ g, owns scope key requestID (Some (a2_TaskID t)) (g_tasks g))).
    - destruct stream; [apply table_stream|apply table_invoke].
    - intros answer. by apply table_complete. }
  unfold end_of in Hrun. specialize (Ht g (conj HP Hid)). destruct (invokeA2ARelay p co a input stream g) as [[answer|r] h]; simplify_eq; [by apply Ht|done].
Qed.

(** ** A stored answer is replayed *)

(** What a replay leaves alone. *)
Record untouched g g' : Prop := {
  un_net : g_net g' = g_net g; un_sink : g_sink g' = g_sink g; un_cache : g_cache g' = g_cache g;
  un_limiter : w_limiter (g_world g') = w_limiter (g_world g); un_budget : w_budget (g_world g') = w_budget (g_world g);
  un_repo : w_repo (g_world g') = w_repo (g_world g) }.

Lemma reap_step t now st scope staleBefore : (ReapStaleRunning t now st scope staleBefore).2 = task_step t (OpReap now st scope staleBefore).
Proof. done. Qed.

Lemma completed_found t ops scope id row :
  keys_unique t → Forall (leaves_status (scope, id)) ops → t !! (scope, id) = Some row → a2_Status row = A2ATaskCompleted → a2_TaskID row = id →
  let t' := task_run t ops in
  keys_unique t' ∧ ∃ new, t' !! (scope, id) = Some new ∧ by_key t' scope (a2_IdempotencyKey row) = Some new ∧
    a2_Status new = A2ATaskCompleted ∧ a2_Result new = a2_Result row ∧ a2_TaskID new = id ∧ a2_IdempotencyKey new = a2_IdempotencyKey row.
Proof.
  intros Hu Hf Hl Hs Hid t'. assert (keys_unique t') as Hu'.
  { apply (foldl_invariant keys_unique); [|done]. intros t1 op. apply keys_unique_step. }
  split; [done|]. destruct (completed_run t ops (scope, id) row Hf Hl Hs) as (new & Hn & Hs' & Hr & Hid' & Hk). exists new.
  split_and!; [exact Hn|by apply (by_key_unique _ _ _ id)|congruence..].
Qed.

Lemma bind_go {B D : Type} (m : stp B) (k : B → stp D) g b g1 : m g = (inr b, g1) → mbind k m g = k b g1.
Proof. unfold mbind, step_bind. by intros ->. Qed.
Lemma bind_halt {B D : Type} (m : stp B) (k : B → stp D) g answer g1 : m g = (inl answer, g1) → mbind k m g = (inl answer, g1).
Proof. unfold mbind, step_bind. by intros ->. Qed.

(** The state after a statement. *)
Definition after_statement g (t : tasks) : gw :=
  {| g_world := g_world g; g_tasks := t; g_statements := Datatypes.S (g_statements g); g_net := g_net g; g_cache := g_cache g;
     g_ledger := g_ledger g; g_sink := g_sink g |}.

Lemma on_tasks_run {B : Type} (f : tasks → Z → statement → B * tasks) g now st :
  co_db co (g_statements g) = (now, st) →
  let r := f (task_run (g_tasks g) (co_others co (g_statements g))) now st in on_tasks co f g = (inr r.1, after_statement g r.2).
Proof. intros E. unfold on_tasks. rewrite E. by destruct (f _ now st). Qed.

Lemma relay_replays a input stream g endpoint requestID id row :
  let scope := pr_TenantID (at_Principal a) in
  let n := g_statements g in
  is_Some (gi_Request input ≫= ur_Chat) → co_tasks co = true → scope ≠ "" →
  relay_endpoint co a = Ok endpoint → p_ids p (w_id (g_world g)) = Ok requestID →
  is_ok (enforceA2AFederation (co_order co) (at_Snapshot a) (gi_Request input) (relay_interaction a endpoint) endpoint "chat") = true →
  (co_db co n).2 = Ran → (co_db co (Datatypes.S n)).2 = Ran →
  Forall (leaves_status (scope, id)) (co_others co n) → Forall (leaves_status (scope, id)) (co_others co (Datatypes.S n)) →
  keys_unique (g_tasks g) → g_tasks g !! (scope, id) = Some row → a2_Status row = A2ATaskCompleted → a2_TaskID row = id →
  a2_IdempotencyKey row = a2aIdempotencyKey (gi_Request input) requestID →
  ∃ new g', end_of (invokeA2ARelay p co a input stream) g = (Ok (a2aReplayResponse (ae_AgentID endpoint) new), g') ∧
    a2_TaskID new = id ∧ a2_Result new = a2_Result row ∧ untouched g g'.
Proof.
  intros scope n [chat Hchat] Hco Hscope He Hid Hfed Hdb1 Hdb2 Ho1 Ho2 Hu Hl Hst Hname Hkey.
  destruct (enforceA2AFederation _ _ _ _ _ _) as [i'|] eqn:Ei; [|done].
  destruct (co_db co n) as [now1 st1] eqn:E1. destruct (co_db co (Datatypes.S n)) as [now2 st2] eqn:E2. simpl in *. subst st1 st2.
  destruct (completed_found _ _ scope id row Hu Ho1 Hl Hst Hname) as (Hu1 & r1 & Hl1 & _ & Hs1 & Hr1 & Hn1 & Hk1).
  set (sb := time_add (now_of (p_clk p) (g_world g)) (- a2aTaskRunningTTL)).
  set (t1 := task_run (g_tasks g) (co_others co n)) in *.
  destruct (completed_found t1 (OpReap now1 Ran scope sb :: co_others co (Datatypes.S n)) scope id r1 Hu1) as (_ & r2 & Hl2 & Hb2 & Hs2 & Hr2 & Hn2 & Hk2);
    [by constructor|done|done|done|].
  set (t2 := task_run t1 (OpReap now1 Ran scope sb :: co_others co (Datatypes.S n))) in *.
  assert (∀ h, g_tasks h = g_tasks g → g_statements h = n → ∃ h',
    find_task p co scope (ae_AgentID endpoint) (a2aIdempotencyKey (gi_Request input) requestID) sb h =
      (inl (Ok (a2aReplayResponse (ae_AgentID endpoint) r2)), h') ∧ untouched h h') as Hfind.
  { intros h Hh Hs. unfold find_task. rewrite Hco. simpl.
    rewrite (bind_go _ _ _ _ _ (on_tasks_run _ h now1 Ran ltac:(by rewrite Hs))). simpl. rewrite Hh, Hs. fold t1.
    assert (ReapStaleRunning t1 now1 Ran scope sb = (Ok (Z.of_nat (length (List.filter (λ e, stale scope (seconds_of sb) e.1 e.2) (map_to_list t1)))), task_step t1 (OpReap now1 Ran scope sb))) as ->.
    { simpl. unfold ReapStaleRunning. rewrite bool_decide_false by done. done. }
    simpl. rewrite (bind_go _ _ _ _ _ (eq_refl (ret _ _))).
    rewrite (bind_go _ _ _ _ _ (on_tasks_run _ (after_statement h _) now2 Ran ltac:(by simpl; rewrite Hs))). simpl. rewrite Hs.
    change (task_run (ReapStaleRunning t1 now1 Ran scope sb).2 (co_others co (Datatypes.S n))) with t2.
    unfold GetByIdempotency, read. rewrite bool_decide_false by done. rewrite <- Hkey, <- Hk1, Hb2. simpl.
    rewrite (bind_go _ _ _ _ _ (eq_refl (ret _ _))). unfold resume_task. rewrite bool_decide_true by done.
    unfold mbind, step_bind, set_task, on_world, stop. simpl. eexists. split; [done|].
    destruct (rc_Interaction (w_req (g_world h))); done. }
  unfold end_of, invokeA2ARelay. rewrite Hchat. rewrite (bind_go _ _ _ _ _ (eq_refl (clock_now p g))). rewrite He.
  rewrite (bind_go _ _ _ _ _ (eq_refl (ret _ _))).
  assert (fresh_id p (set_world g (tick 1 (g_world g))) = (inr requestID, set_world g (put_id (tick 1 (g_world g)) (w_id (g_world g) + 1)%nat))) as Hf.
  { unfold fresh_id, mbind, step_bind, on_world, new_id. simpl. by rewrite Hid. }
  rewrite (bind_go _ _ _ _ _ Hf). rewrite (bind_go _ _ _ _ _ (eq_refl (put_request _ _))).
  set (c := relay_context _ _ _ _ _). set (h := set_world _ (put_req _ c)).
  assert (enforce_federation p co a endpoint (gi_Request input) h =
    (inr tt, set_world h (put_req (g_world h) (with_interaction c (inbound_boundary (co_order co) a (ae_AgentID endpoint) i'))))) as Hg.
  { unfold enforce_federation, mbind, step_bind, on_world. simpl. fold (relay_interaction a endpoint). rewrite Ei. done. }
  rewrite (bind_go _ _ _ _ _ Hg). destruct (Hfind (set_world h (put_req (g_world h) (with_interaction c (inbound_boundary (co_order co) a (ae_AgentID endpoint) i')))) eq_refl eq_refl)
    as (h' & Hf' & Hun). rewrite (bind_halt _ _ _ _ _ Hf'). exists r2, h'. split_and!; [done|congruence|congruence|]. destruct Hun. by split.
Qed.

(** ** The table stays well formed *)

Definition well_formed (t : tasks) : Prop := keys_unique t ∧ named t.

Lemma well_formed_run t ops : well_formed t → well_formed (task_run t ops).
Proof. apply (foldl_invariant well_formed). intros t' op []. split; [by apply keys_unique_step|by apply named_step]. Qed.

Definition keeps {B : Type} (m : stp B) : Prop := ∀ g, well_formed (g_tasks g) → well_formed (g_tasks (m g).2).

Lemma keeps_bind {B D : Type} (m : stp B) (k : B → stp D) : keeps m → (∀ b, keeps (k b)) → keeps (mbind k m).
Proof. intros Hm Hk g Hg. unfold mbind, step_bind. specialize (Hm g Hg). destruct (m g) as [[answer|b] g']; [done|]. by apply Hk. Qed.
Lemma keeps_ret {B : Type} (b : B) : keeps (ret b).
Proof. by intros g. Qed.
Lemma keeps_stop {B : Type} answer : keeps (stop (B := B) answer).
Proof. by intros g. Qed.
Lemma keeps_world {B : Type} (f : world L S X A R K → B * world L S X A R K) : keeps (on_world f).
Proof. intros g Hg. unfold on_world. by destruct (f (g_world g)). Qed.
Lemma keeps_op {B : Type} (f : tasks → Z → statement → B * tasks) op :
  (∀ t now st, (f t now st).2 = task_step t (op now st)) → keeps (on_tasks co f).
Proof.
  intros Hf g Hg. unfold on_tasks. destruct (co_db co _) as [now st]. specialize (Hf (task_run (g_tasks g) (co_others co (g_statements g))) now st).
  destruct (f _ now st) as [b t]. simpl in *. subst t. by apply (well_formed_run _ [op now st]), well_formed_run.
Qed.
Lemma keeps_read {B : Type} (f : tasks → Z → statement → B * tasks) : (∀ t now st, (f t now st).2 = t) → keeps (on_tasks co f).
Proof.
  intros Hf g Hg. unfold on_tasks. destruct (co_db co _) as [now st]. specialize (Hf (task_run (g_tasks g) (co_others co (g_statements g))) now st).
  destruct (f _ now st) as [b t]. simpl in *. subst t. by apply well_formed_run.
Qed.
Lemma keeps_reap scope sb : keeps (on_tasks co (λ t now st, ReapStaleRunning t now st scope sb)).
Proof. by apply (keeps_op _ (λ now st, OpReap now st scope sb)). Qed.
Lemma keeps_insert scope task : keeps (on_tasks co (λ t now st, A2ATask.Create t now st scope task)).
Proof. by apply (keeps_op _ (λ now st, OpCreate now st scope task)). Qed.
Lemma keeps_start scope id : keeps (on_tasks co (λ t now st, TryStart t now st scope id)).
Proof. by apply (keeps_op _ (λ now st, OpStart now st scope id)). Qed.
Lemma keeps_advance scope id h c mh mc : keeps (on_tasks co (λ t now st, AdvanceCounters t now st scope id h c mh mc)).
Proof. by apply (keeps_op _ (λ now st, OpAdvance now st scope id h c mh mc)). Qed.
Lemma keeps_set scope id status res : keeps (on_tasks co (λ t now st, SetStatusResult t now st scope id status res)).
Proof. by apply (keeps_op _ (λ now st, OpSet now st scope id status res)). Qed.
Lemma keeps_get scope id : keeps (on_tasks co (λ t _ st, (GetByTask t st scope id, t))).
Proof. by apply keeps_read. Qed.
Lemma keeps_find scope key : keeps (on_tasks co (λ t _ st, (GetByIdempotency t st scope key, t))).
Proof. by apply keeps_read. Qed.
#[local] Hint Resolve keeps_ret keeps_stop keeps_world keeps_reap keeps_insert keeps_start keeps_advance keeps_set keeps_get keeps_find : relay.

Lemma keeps_net {B : Type} (f : C → B * C) : keeps (on_net f).
Proof. intros g Hg. unfold on_net. by destruct (f (g_net g)). Qed.
Lemma keeps_refuse {B : Type} target err : keeps (refuse (B := B) p target err).
Proof. apply keeps_bind; auto with relay. Qed.
#[local] Hint Resolve keeps_net keeps_refuse : relay.
Lemma keeps_or_refuse {B : Type} target (answer : result B) : keeps (or_refuse p target answer).
Proof. destruct answer; simpl; auto with relay. Qed.
Lemma keeps_connector agentID endpoint : keeps (connector_for p co agentID endpoint).
Proof. intros g Hg. unfold connector_for. destruct (a2aFor _ _ _ _) as [connector cache]. by apply (keeps_or_refuse agentID connector (set_cache_of g cache)). Qed.
Lemma keeps_stream cfg endpoint invocation : keeps (relay_stream co cfg endpoint invocation).
Proof. intros g Hg. unfold relay_stream. by destruct (a2a_Stream _ _ _ _ _) as [[err net] d]. Qed.
#[local] Hint Resolve keeps_or_refuse keeps_connector keeps_stream : relay.

Ltac keeps_step := repeat first [progress auto with relay | apply keeps_bind; [|intros ?] | progress case_match].

Lemma keeps_resume agentID task : keeps (resume_task p agentID task).
Proof. unfold resume_task, set_task. keeps_step. Qed.
#[local] Hint Resolve keeps_resume : relay.
Lemma keeps_own agentID task : keeps (own_task p co agentID task).
Proof. unfold own_task. keeps_step. Qed.
Lemma keeps_claim scope agentID taskID request : keeps (claim_task p co scope agentID taskID request).
Proof. unfold claim_task, set_task. keeps_step. Qed.
Lemma keeps_invoke key credential invoke : keeps (invokeWithResilience p co key credential invoke).
Proof. unfold invokeWithResilience, allow_circuit, record_circuit. keeps_step. Qed.
Lemma keeps_put c : keeps (put_request c).
Proof. apply keeps_world. Qed.
#[local] Hint Resolve keeps_own keeps_claim keeps_invoke keeps_put : relay.

(** Whatever a relay does, the table keeps one task per key. *)
Lemma relay_well_formed a input stream g :
  well_formed (g_tasks g) → well_formed (g_tasks (end_of (invokeA2ARelay p co a input stream) g).2).
Proof.
  assert (keeps (invokeA2ARelay p co a input stream)) as Hk.
  { unfold invokeA2ARelay, clock_now, fresh_id, enforce_federation, find_task, admit_call, durable_task, relay_blocking, complete_relay.
    keeps_step. }
  intros Hg. specialize (Hk g Hg). unfold end_of. by destruct (invokeA2ARelay p co a input stream g) as [[]].
Qed.
End Stores.

(** ** The round trip *)

Section Replay.
Context `{!Regexp} `{!JSONCodec} `{!URLParser} {L S X A R K CS C W : Type}.
Context `{!BudgetLedger L} `{!CacheStore S} `{!Repository R} `{!EventSink K} `{!CircuitStore CS}.
Context `{!AgentNet C} `{!UpstreamErrors} `{!Sink W}.
Context (p : Lite.parts (X := X) (A := A) (CS := CS)).
Implicit Types (g : gateway (L := L) (S := S) (X := X) (A := A) (R := R) (K := K) (C := C) (W := W)).

(** The key of a message does not depend on the id the gateway gives it. *)
Definition explicit_key (input : AdmitInput) (key : string) : Prop := ∀ id, a2aIdempotencyKey (gi_Request input) id = key.

(** C6: a relayed answer is replayed.  After a relay of a message with an explicit key was
    answered (streamed or not, from a well-formed table in which nobody else uses the id
    it drew), a second, blocking message of the same tenant under the same key is answered
    with the same task id and the same text, and nothing is sent: the network, the rate
    limiter, the budget and the accounting are as before.  This holds if the second
    message finds an endpoint, draws an id and passes the federation gate, if every
    statement it runs on the table succeeds, and if no other caller sets the status of
    the finished task in between; whatever else other callers run does not matter.  (A
    streaming second caller is not covered: it is sent neither the text nor a completed
    event.) *)
Theorem relayed_answer_is_replayed co co' a a' input input' stream g g1 g2 id id' key endpoint response :
  let scope := pr_TenantID (at_Principal a) in
  co_tasks co = true → well_formed (g_tasks g) → explicit_key input key → p_ids p (w_id (g_world g)) = Ok id →
  g_tasks g !! (scope, id) = None → (∀ n, Forall (stranger id) (co_others co n)) →
  end_of (invokeA2ARelay p co a input stream) g = (Ok response, g1) →
  pr_TenantID (at_Principal a') = scope → scope ≠ "" → g_tasks g2 = g_tasks g1 →
  co_tasks co' = true → explicit_key input' key → is_Some (gi_Request input' ≫= ur_Chat) →
  relay_endpoint co' a' = Ok endpoint → p_ids p (w_id (g_world g2)) = Ok id' →
  is_ok (enforceA2AFederation (co_order co') (at_Snapshot a') (gi_Request input') (relay_interaction a' endpoint) endpoint "chat") = true →
  (∀ n, (co_db co' n).2 = Ran ∧ Forall (leaves_status (scope, re_ID response)) (co_others co' n)) →
  ∃ response' g3, end_of (invokeA2ARelay p co' a' input' false) g2 = (Ok response', g3) ∧
    re_ID response' = re_ID response ∧ response_text response' = response_text response ∧ untouched g2 g3.
Proof.
  intros scope Hco Hwf Hk Hid Hfree Hst Hrun Hscope Hne Ht Hco' Hk' Hchat He Hid' Hfed Hdb.
  destruct (relay_stores p co a input stream g id response g1 Hco Hid (proj2 Hwf) Hfree Hst Hrun) as (row & Hl & Hkey & Hs & Hr).
  pose proof (relay_well_formed p co a input stream g Hwf) as [Hu1 Hn1]. rewrite Hrun in Hu1, Hn1. simpl in Hu1, Hn1.
  rewrite <- Ht in Hl, Hu1, Hn1. fold scope in Hl. rewrite <- Hscope in Hl, Hne.
  destruct (relay_replays p co' a' input' false g2 endpoint id' (re_ID response) row) as (new & g3 & Hrun' & Hid3 & Hr3 & Hun);
    try done; try (by apply Hdb); try (by rewrite Hscope; apply Hdb).
  - by rewrite (Hn1 _ _ Hl).
  - by rewrite Hkey, Hk, Hk'.
  - exists (a2aReplayResponse (ae_AgentID endpoint) new), g3. split_and!; [done|done| |done]. unfold response_text at 1. simpl. congruence.
Qed.
End Replay.

(** ** Concrete relays *)

#[local] Existing Instances no_regexp no_sink ready_repository recorded_net plain_upstream collecting https_urls.

Definition relay_of (co : core) (application : string) (input : AdmitInput) (stream : bool) (g : lab_state) : result UnifiedResponse * lab_state :=
  end_of (invokeA2ARelay lab co (caller application) input stream) g.
Definition answered : lab_state := (relay_of lab_core "app" (message "m1") false lab_gateway).2.

(** Another application of the tenant sends the same message. *)
Lemma relayed_answer_is_replayed_witness :
  ∃ response g, end_of (invokeA2ARelay lab lab_core (caller "other") (message "m1") false) answered = (Ok response, g) ∧
    response_text response = "Hello world" ∧ untouched answered g.
Proof.
  destruct (relayed_answer_is_replayed lab lab_core lab_core (caller "app") (caller "other") (message "m1") (message "m1") false
              lab_gateway answered answered "id0" "id3" "m1" (example_endpoint "e" "bot" "https://agents")
              (external_response "id0" "bot" "Hello world")) as (response & g & Hr & _ & Ht & Hu).
  - reflexivity.
  - split; [intros k1 k2 row row' Hl; discriminate Hl|intros k row Hl; discriminate Hl].
  - intros id. reflexivity.
  - reflexivity.
  - reflexivity.
  - constructor.
  - etransitivity; [apply surjective_pairing|]. f_equal.
  - reflexivity.
  - discriminate.
  - reflexivity.
  - reflexivity.
  - intros id. reflexivity.
  - by eexists.
  - vm_compute. reflexivity.
  - vm_compute. reflexivity.
  - vm_compute. reflexivity.
  - split; [reflexivity|constructor].
  - exists response, g. split; [exact Hr|]. split; [rewrite Ht; reflexivity|exact Hu].
Defined.

(** ** Where the guarantees end *)

#[local] Instance any_object : ToolJSON := {| required_fields := λ _, Ok []; object_keys := λ _, Ok [] |}.

Definition api_key (token remoteIP : string) : result AuthResult := Ok (caller "app").

(** A replay writes nothing to the stream: the caller of a streamed message that was
    answered before gets neither the text nor the completed event, and no error. *)
Example replayed_stream_is_empty :
  let '(err, g) := ToolStream lab lab_core api_key None (λ _, Ok "") (message "m1") answered in
  err = None ∧ g_sink g = [] ∧ g_sink (ToolStream lab lab_core api_key None (λ _, Ok "") (message "m2") answered).2 ≠ [].
Proof. vm_compute. split; [reflexivity|]. split; [reflexivity|discriminate]. Qed.

(** Another caller wins the insert and finishes before the relay reads the table again. *)
Definition overtaken : core :=
  {| co_tasks := true; co_db := co_db lab_core;
     co_others := λ n, if bool_decide (n = 2)%nat then
                         [OpCreate 0 Ran "t" (pending_task "other" "t" "bot" "proj" "m1" "hello");
                          OpSet 0 Ran "t" "other" A2ATaskCompleted "their answer"] else [];
     co_order := in_order; co_endpoints := λ _ l, l; co_tools := λ l, l; co_servers := λ l, l; co_client := true; co_secrets := true;
     co_alive := true; co_stamp := ""; co_ledger := None; co_maxBodyBytes := 1024 |}.

(** The stored answer is then returned after the budget was reserved, and the
    reservation is never settled. *)
Example adopted_answer_keeps_reservation :
  let '(answer, g) := relay_of overtaken "app" (message "m1") false lab_gateway in
  match answer with Ok r => response_text r = "their answer" | Err _ => False end ∧
  0 < (Budget.Usage (e_manager (w_budget (g_world g))) "b").1 ∧ g_net g = [].
Proof. vm_compute. repeat split. Qed.

(** The statement that takes the hops of a claimed task fails. *)
Definition interrupted : core :=
  {| co_tasks := true; co_db := λ n, (ticking n, if bool_decide (n = 5)%nat then Failed (ErrNew "connection lost") else Ran);
     co_others := λ _, []; co_order := in_order; co_endpoints := λ _ l, l; co_tools := λ l, l; co_servers := λ l, l; co_client := true;
     co_secrets := true; co_alive := true; co_stamp := ""; co_ledger := None; co_maxBodyBytes := 1024 |}.

(** The task is left running though nobody runs it, so the message is refused until the
    reaper takes the task. *)
Example interrupted_claim_blocks_retry :
  let '(answer, g) := relay_of interrupted "app" (message "m1") false lab_gateway in
  is_ok answer = false ∧ g_net g = [] ∧ a2_Status <$> g_tasks g !! ("t", "id0") = Some A2ATaskRunning ∧
  (relay_of lab_core "app" (message "m1") false g).1 = Err IN_PROGRESS.
Proof. vm_compute. repeat split. Qed.

(** The stored answer belongs to the key and the tenant: whoever uses the key gets it,
    with any message. *)
Definition other_message (session : string) : AdmitInput :=
  {| gi_Token := ""; gi_RemoteIP := ""; gi_Protocol := "a2a"; gi_BodyBytes := 0; gi_Federated := None;
     gi_Request := (λ u, {| ur_Kind := ur_Kind u; ur_Model := ""; ur_Stream := false; ur_Metadata := ∅; ur_SessionID := session; ur_TaskID := "";
       ur_RootTaskID := ""; ur_ParentTaskID := "";
       ur_Chat := Some {| chat_Messages := []; chat_MaxOutputTokens := None; chat_Temperature := None; chat_TopP := None; chat_Stop := [];
                          chat_Tools := []; chat_ToolChoice := ""; chat_ResponseFormat := "" |};
       ur_Responses := None; ur_Embedding := None; ur_Rerank := None; ur_Audio := None; ur_Batch := None; ur_File := None; ur_Tool := None;
       ur_Parameters := ∅ |}) <$> gi_Request (message session) |}.

Example stored_answer_ignores_caller_and_message :
  match (relay_of lab_core "other" (other_message "m1") false answered).1 with Ok r => response_text r = "Hello world" | Err _ => False end.
Proof. vm_compute. reflexivity. Qed.

(** A streamed message that is too large is answered as one with bad credentials. *)
Definition oversized : AdmitInput :=
  {| gi_Token := "token"; gi_RemoteIP := ""; gi_Protocol := "a2a"; gi_BodyBytes := 4096; gi_Federated := None; gi_Request := gi_Request (message "m1") |}.

Example oversized_stream_is_unauthorized :
  (ToolStream lab lab_core api_key None (λ _, Ok "") oversized lab_gateway).1 = Some UNAUTHORIZED ∧
  (end_of (gateway_Tool lab lab_core api_key None (λ _, Ok "") oversized) lab_gateway).1 = Err REQUEST_TOO_LARGE.
Proof. vm_compute. repeat split. Qed.

(** A tool that is not active is hidden from discovery, and is called all the same. *)
Definition retired_tool : Tool :=
  {| tl_ID := "t1"; tl_ServerID := "srv"; Snapshot.tl_Name := "wipe"; tl_DataClassification := ""; tl_Endpoint := ""; tl_Status := "disabled";
     tl_Schema := []; tl_CapabilityTags := [] |}.
Definition tool_caller (token remoteIP : string) : result AuthResult :=
  Ok {| at_Principal := at_Principal (caller "app"); at_Key := example_key;
        at_Snapshot := NewTenantSnapshot (with_agents (example_tenant "priority" no_cache []) [] [] []
          [{| ms_ID := "srv"; ms_URL := "https://tools"; ms_Status := "active" |}] [retired_tool]
          [{| tp_ToolID := "t1"; tp_ProjectID := "proj"; tp_AllowedAgentIDs := []; tp_Allowed := true; tp_RequireApproval := false |}]) |}.
Definition tool_request (name : string) : AdmitInput :=
  {| gi_Token := "token"; gi_RemoteIP := ""; gi_Protocol := "mcp"; gi_BodyBytes := 10; gi_Federated := None;
     gi_Request := Some {| ur_Kind := "tool"; ur_Model := ""; ur_Stream := false; ur_Metadata := ∅; ur_SessionID := ""; ur_TaskID := "";
       ur_RootTaskID := ""; ur_ParentTaskID := ""; ur_Chat := None; ur_Responses := None; ur_Embedding := None; ur_Rerank := None;
       ur_Audio := None; ur_Batch := None; ur_File := None; ur_Tool := Some {| tl_Name := name; tl_Arguments := "{}"; tl_Result := ""; tl_Provenance := {| pn_Source := ""; pn_Trusted := false |} |};
       ur_Parameters := ∅ |} |}.

Example retired_tool_is_called :
  let marshal tools := Ok (String.concat "," (tools.*1 : list string)) in
  let call name := end_of (gateway_Tool lab lab_core tool_caller None marshal (tool_request name)) lab_gateway in
  match (call "server/discover").1 with Ok r => response_text r = "" | Err _ => False end ∧
  (call "wipe").1 = Ok (tool_response "id0" "wipe" "Hello world") ∧ length (g_net (call "wipe").2) = 1%nat ∧
  te_ToolName <$> g_ledger (call "wipe").2 = ["wipe"].
Proof. vm_compute. repeat split. Qed.
