(* ===== verification/Singleton.v ===== *)
(** * Jobs that run on one process at a time

    platform/storage/sqlrepo/coordination.go over the table of
    migrations/031_platform_coordination_leases.sql, and the loop of app/singleton.go that
    runs a job while it holds the lease of its scope.

    The processes share the table and a clock; a statement is atomic and may fail or lose
    its answer (A2ATask.v).  The columns that nothing reads (owner, created_at,
    updated_at) are left out. *)

From S2P Require Import Prelude A2ATask.

Open Scope string_scope.
Open Scope Z_scope.

(** ** The lease table: one row per scope *)

Record lease_row := { lr_lease_id : string; lr_expires_at : Z }.
Abbreviation lease_table := (gmap string lease_row).

(** A statement as the database runs it and as its caller sees it. *)
Definition ran {T B : Type} (st : statement) (t : T) (f : T → result B * T) : result B * T :=
  match st with Failed err => (Err err, t) | Ran => f t | Lost err => (Err err, (f t).2) end.

(** [leaseID] is what [coordinationLeaseID] draws. *)
Definition lease_Acquire (t : lease_table) (now : Z) (st : statement) (leaseID : result string) (scope : string) (capacity ttl : Z) :
    result (bool * string) * lease_table :=
  if bool_decide (scope = "") || (ttl <=? 0) then (Ok (false, ""), t)
  else if negb (capacity =? 1) then (Ok (false, ""), t)
  else match leaseID with
  | Err err => (Err err, t)
  | Ok id =>
      let row := {| lr_lease_id := id; lr_expires_at := time_add now ttl |} in
      ran st t (λ t, match t !! scope with
                     | Some held => if lr_expires_at held <? now then (Ok (true, id), <[scope := row]> t) else (Ok (false, id), t)
                     | None => (Ok (true, id), <[scope := row]> t)
                     end)
  end.

Definition lease_Renew (t : lease_table) (now : Z) (st : statement) (scope leaseID : string) (ttl : Z) : result bool * lease_table :=
  if bool_decide (scope = "") || bool_decide (leaseID = "") || (ttl <=? 0) then (Ok false, t)
  else ran st t (λ t, match t !! scope with
                      | Some held => if bool_decide (lr_lease_id held = leaseID) && (now <? lr_expires_at held)
                                     then (Ok true, <[scope := {| lr_lease_id := leaseID; lr_expires_at := time_add now ttl |}]> t)
                                     else (Ok false, t)
                      | None => (Ok false, t)
                      end).

Definition delete_if (scope : string) (p : lease_row → bool) (t : lease_table) : result unit * lease_table :=
  (Ok tt, match t !! scope with Some held => if p held then delete scope t else t | None => t end).

Definition lease_Release (t : lease_table) (st : statement) (scope leaseID : string) : result unit * lease_table :=
  if bool_decide (scope = "") || bool_decide (leaseID = "") then (Ok tt, t)
  else ran st t (delete_if scope (λ held, bool_decide (lr_lease_id held = leaseID))).

Definition lease_Cleanup (t : lease_table) (now : Z) (st : statement) (scope : string) : result unit * lease_table :=
  if bool_decide (scope = "") then (Ok tt, t) else ran st t (delete_if scope (λ held, lr_expires_at held <=? now)).

(** ** The loop *)

Record singletonTask := { sg_scope : string; sg_ttl : Z }.

Definition singletonLeaseTTL : Z := 30 * second.
Definition platformSweeperScope : string := "platform:sweeper".
Definition platformA2APushScope : string := "platform:a2a_push_outbox".
Definition platformEventOutboxScope : string := "platform:event_outbox".

(** The variables of [run]. *)
Record loop := { lp_holder : bool; lp_leaseID : string }.
Definition waiting : loop := {| lp_holder := false; lp_leaseID := "" |}.

(** One iteration: whether the job is run, and what is left. *)
Definition tick (s : singletonTask) (now : Z) (st : statement) (id : result string) (l : loop) (t : lease_table) : bool * loop * lease_table :=
  if lp_holder l then
    match lease_Renew t now st (sg_scope s) (lp_leaseID l) (sg_ttl s) with
    | (Err _, t) => (false, l, t)
    | (Ok false, t) => (false, waiting, t)
    | (Ok true, t) => (true, l, t)
    end
  else
    match lease_Acquire t now st id (sg_scope s) 1 (sg_ttl s) with
    | (Ok (true, id), t) => (true, {| lp_holder := true; lp_leaseID := id |}, t)
    | (_, t) => (false, l, t)
    end.

(** The end of the loop. *)
Definition stop_loop (s : singletonTask) (st : statement) (l : loop) (t : lease_table) : lease_table :=
  if lp_holder l then (lease_Release t st (sg_scope s) (lp_leaseID l)).2 else t.

(** ** A cluster of processes *)

Record cluster := { cl_table : lease_table; cl_loops : gmap nat loop }.

Inductive event :=
| Tick (n : nat) (now : Z) (st : statement) (id : result string)
| Stop (n : nat) (st : statement)
| Crash (n : nat)
| Clean (now : Z) (st : statement).

Definition loop_of (c : cluster) (n : nat) : loop := default waiting (cl_loops c !! n).

(** The process that runs the job in an event, and the cluster after it. *)
Definition cluster_step (s : singletonTask) (c : cluster) (e : event) : option nat * cluster :=
  match e with
  | Tick n now st id =>
      let '(job, l, t) := tick s now st id (loop_of c n) (cl_table c) in
      (if job then Some n else None, {| cl_table := t; cl_loops := <[n := l]> (cl_loops c) |})
  | Stop n st => (None, {| cl_table := stop_loop s st (loop_of c n) (cl_table c); cl_loops := delete n (cl_loops c) |})
  | Crash n => (None, {| cl_table := cl_table c; cl_loops := delete n (cl_loops c) |})
  | Clean now st => (None, {| cl_table := (lease_Cleanup (cl_table c) now st (sg_scope s)).2; cl_loops := cl_loops c |})
  end.

Definition cluster_run (s : singletonTask) : cluster → list event → cluster := foldl (λ c e, (cluster_step s c e).2).

Definition empty_cluster : cluster := {| cl_table := ∅; cl_loops := ∅ |}.

(** The lease ids drawn. *)
Definition drawn (es : list event) : list string := omap (λ e, match e with Tick _ _ _ (Ok id) => Some id | _ => None end) es.

(** ** Only one process holds a lease *)

(** Nobody else's loop holds the id. *)
Definition alone (c : cluster) (n : nat) (id : string) : Prop :=
  ∀ m, m ≠ n → lp_holder (loop_of c m) = true → lp_leaseID (loop_of c m) ≠ id.

(** Ids of different loops differ, and every id in use was drawn. *)
Record apart (used : list string) (c : cluster) : Prop := {
  ap_alone : ∀ n, lp_holder (loop_of c n) = true → alone c n (lp_leaseID (loop_of c n));
  ap_used : ∀ n, lp_holder (loop_of c n) = true → lp_leaseID (loop_of c n) ∈ used }.

Lemma loop_of_insert c t n l m : loop_of {| cl_table := t; cl_loops := <[n := l]> (cl_loops c) |} m = if decide (m = n) then l else loop_of c m.
Proof. unfold loop_of. simpl. case_decide as E; [subst; by rewrite lookup_insert_eq|by rewrite lookup_insert_ne]. Qed.

Lemma loop_of_delete c t n m : loop_of {| cl_table := t; cl_loops := delete n (cl_loops c) |} m = if decide (m = n) then waiting else loop_of c m.
Proof. unfold loop_of. simpl. case_decide as E; [subst; by rewrite lookup_delete_eq|by rewrite lookup_delete_ne]. Qed.

(** What a tick leaves in its loop: the loop as it was, a loop that waits, or the id it
    has just drawn. *)
Lemma tick_loop s now st id l t job l' t' :
  tick s now st id l t = (job, l', t') → l' = l ∨ l' = waiting ∨ ∃ x, id = Ok x ∧ lp_leaseID l' = x.
Proof.
  unfold tick. destruct (lp_holder l).
  - destruct (lease_Renew _ _ _ _ _ _) as [[[]|] t1]; intros [= <- <- <-]; auto.
  - destruct (lease_Acquire _ _ _ _ _ _ _) as [[[[] x]|] t1] eqn:E; intros [= <- <- <-]; auto.
    unfold lease_Acquire in E. repeat case_match; simplify_eq; eauto.
    right. right. unfold ran in E. repeat case_match; simplify_eq/=; eauto.
Qed.

Lemma apart_set used used' c t n l :
  apart used c → l = loop_of c n ∨ lp_holder l = false ∨ lp_leaseID l ∉ used → used ⊆ used' →
  (lp_holder l = true → lp_leaseID l ∈ used') → apart used' {| cl_table := t; cl_loops := <[n := l]> (cl_loops c) |}.
Proof.
  intros [Ha Hu] Hl Hsub Hin. split.
  - intros i Hi j Hj. revert Hi. rewrite !loop_of_insert. repeat case_decide; subst; try done; intros Hi Hh Heq.
    + destruct Hl as [->|[Hl|Hl]]; [|congruence|]; [by apply (Ha n Hi j)|]. apply Hl. rewrite <- Heq. by apply Hu.
    + destruct Hl as [->|[Hl|Hl]]; [|congruence|]; [by apply (Ha i Hi n)|]. apply Hl. rewrite Heq. by apply Hu.
    + by apply (Ha i Hi j).
  - intros i. rewrite loop_of_insert. case_decide; [done|]. intros Hi. by apply Hsub, Hu.
Qed.

Lemma apart_delete used c t n : apart used c → apart used {| cl_table := t; cl_loops := delete n (cl_loops c) |}.
Proof.
  intros [Ha Hu]. split.
  - intros i Hi j Hj. revert Hi. rewrite !loop_of_delete. repeat case_decide; try done. intros Hi. by apply Ha.
  - intros i. rewrite loop_of_delete. case_decide; [done|]. apply Hu.
Qed.

Lemma apart_step s used c e :
  apart used c → (∀ id, id ∈ drawn [e] → id ∉ used) → apart (used ++ drawn [e])%list (cluster_step s c e).2.
Proof.
  intros Hap Hf. destruct e as [n now st id|n st|n|now st]; simpl; rewrite ?app_nil_r.
  - destruct (tick s now st id (loop_of c n) (cl_table c)) as [[job l'] t'] eqn:Et. destruct (tick_loop _ _ _ _ _ _ _ _ _ Et) as [->|[->|(x & -> & <-)]]; simpl.
    + apply (apart_set used); [done|auto|set_solver|]. intros Hh. apply (ap_used _ _ Hap) in Hh. set_solver.
    + apply (apart_set used); [done|auto|set_solver|done].
    + apply (apart_set used); [done| |set_solver|set_solver]. right. right. apply Hf. simpl. set_solver.
  - by apply apart_delete.
  - by apply apart_delete.
  - by destruct Hap.
Qed.

Lemma drawn_cons e es : drawn (e :: es) = (drawn [e] ++ drawn es)%list.
Proof. unfold drawn. simpl. by case_match. Qed.

Lemma apart_run s used c es : apart used c → NoDup (used ++ drawn es)%list → apart (used ++ drawn es)%list (cluster_run s c es).
Proof.
  revert used c. induction es as [|e es IH]; intros used c Hap Hnd; [by rewrite app_nil_r|].
  rewrite drawn_cons, app_assoc in *. change (cluster_run s c (e :: es)) with (cluster_run s (cluster_step s c e).2 es). apply IH; [|done]. apply apart_step; [done|]. intros id Hin Hu.
  apply NoDup_app in Hnd as [Hnd _]. apply NoDup_app in Hnd as (_ & Hd & _). by apply (Hd id).
Qed.

(** ** A held lease *)

(** The table gives the scope to the id of [n] until [until], and no other loop holds it. *)
Record leased (s : singletonTask) (c : cluster) (n : nat) (id : string) (until : Z) : Prop := {
  le_row : ∃ expiry, cl_table c !! sg_scope s = Some {| lr_lease_id := id; lr_expires_at := expiry |} ∧ until <= expiry;
  le_alone : alone c n id }.

(** While a lease runs, only its own loop touches the row, and only that loop runs the
    job. *)
Lemma tick_held s now st id' l t job l' t' id expiry :
  tick s now st id' l t = (job, l', t') → t !! sg_scope s = Some {| lr_lease_id := id; lr_expires_at := expiry |} → now <= expiry →
  (t' = t ∨ t' = <[sg_scope s := {| lr_lease_id := id; lr_expires_at := time_add now (sg_ttl s) |}]> t ∧ lp_holder l = true ∧ lp_leaseID l = id) ∧
  (job = true → lp_holder l = true ∧ lp_leaseID l = id).
Proof.
  intros Ht Hl Hnow. unfold tick in Ht. destruct (lp_holder l) eqn:Eh.
  - unfold lease_Renew in Ht. destruct (_ || _); [simplify_eq; naive_solver|]. unfold ran in Ht. rewrite Hl in Ht. simpl in Ht.
    destruct (bool_decide (id = lp_leaseID l)) eqn:Eb; simpl in Ht; [apply bool_decide_eq_true in Eb as ->|];
      repeat case_match; simplify_eq/=; naive_solver.
  - unfold lease_Acquire in Ht. destruct (_ || _); [simplify_eq; naive_solver|]. simpl in Ht. destruct id' as [x|]; [|simplify_eq; naive_solver].
    unfold ran in Ht. rewrite Hl in Ht. simpl in Ht. destruct (Z.ltb_spec expiry now); [lia|]. destruct st; simplify_eq/=; naive_solver.
Qed.

(** An event that leaves the lease of [n] alone: no other draw of its id, a time before
    [until], renewals by [n] that reach past [until], and no stop of [n]. *)
Definition leaves_lease (s : singletonTask) (n : nat) (id : string) (until : Z) (e : event) : Prop :=
  match e with
  | Tick m now _ i => i ≠ Ok id ∧ now < until ∧ (m = n → until <= time_add now (sg_ttl s))
  | Stop m _ => m ≠ n
  | Crash _ => True
  | Clean now _ => now < until
  end.

Lemma alone_delete c t m n id : alone c n id → alone {| cl_table := t; cl_loops := delete m (cl_loops c) |} n id.
Proof. intros Ha i Hi. rewrite loop_of_delete. case_decide; [done|]. by apply Ha. Qed.

Lemma delete_if_keeps scope p t row st : t !! scope = Some row → p row = false → (ran st t (delete_if scope p)).2 = t.
Proof. intros Hl Hp. unfold delete_if. destruct st; simpl; rewrite ?Hl, ?Hp; done. Qed.

Lemma leased_step s c n id until e : leased s c n id until → leaves_lease s n id until e → leased s (cluster_step s c e).2 n id until.
Proof.
  intros [(expiry & Hrow & Hexp) Ha] He. destruct e as [m now st i|m st|m|now st]; simpl in *.
  - destruct He as (Hi & Hnow & Hn). destruct (tick s now st i (loop_of c m) (cl_table c)) as [[job l'] t'] eqn:Et.
    destruct (tick_held _ _ _ _ _ _ _ _ _ _ _ Et Hrow) as [Ht Hmine]; [lia|]. split; simpl.
    + destruct Ht as [->|(-> & Hh & Heq)]; [eauto|]. destruct (decide (m = n)) as [->|Hm]; [rewrite lookup_insert_eq; eauto|].
      by destruct (Ha m Hm Hh).
    + intros j Hj. rewrite loop_of_insert. case_decide as E; [subst j|by apply Ha].
      destruct (tick_loop _ _ _ _ _ _ _ _ _ Et) as [->|[->|(x & -> & Hx)]]; [by apply Ha|done|]. intros _ Heq. apply Hi. by rewrite <- Heq, Hx.
  - split; [|by apply alone_delete]. simpl. unfold stop_loop. destruct (lp_holder (loop_of c m)) eqn:Eh; [|eauto].
    unfold lease_Release. case_match; [eauto|]. rewrite (delete_if_keeps _ _ _ _ _ Hrow); [eauto|]. simpl.
    apply bool_decide_eq_false. intros Heq. by apply (Ha m He Eh).
  - split; [eauto|by apply alone_delete].
  - split; [|done]. simpl. unfold lease_Cleanup. case_bool_decide; [eauto|]. rewrite (delete_if_keeps _ _ _ _ _ Hrow); [eauto|]. simpl.
    apply Z.leb_gt. lia.
Qed.

Lemma leased_run s c n id until es :
  leased s c n id until → Forall (leaves_lease s n id until) es → leased s (cluster_run s c es) n id until.
Proof. intros Hl Hf. revert c Hl. induction Hf; intros c Hl; simpl; [done|]. eauto using leased_step. Qed.

Lemma tick_runs s now st id l t l' t' :
  tick s now st id l t = (true, l', t') →
  lp_holder l' = true ∧ t' !! sg_scope s = Some {| lr_lease_id := lp_leaseID l'; lr_expires_at := time_add now (sg_ttl s) |}.
Proof.
  unfold tick. destruct (lp_holder l) eqn:Eh.
  - destruct (lease_Renew _ _ _ _ _ _) as [[[]|] t1] eqn:E; intros [= <- <-]. split; [done|]. unfold lease_Renew in E.
    destruct (_ || _); [done|]. destruct st; simpl in E; [|done|done]. destruct (t !! sg_scope s) as [held|]; [|done].
    destruct (_ && _); simplify_eq. by rewrite lookup_insert_eq.
  - destruct (lease_Acquire _ _ _ _ _ _ _) as [[[[] x]|] t1] eqn:E; intros [= <- <-]. split; [done|]. unfold lease_Acquire in E.
    destruct (_ || _); [done|]. simpl in E. destruct id as [y|]; [|done]. destruct st; simpl in E; [|done|done].
    repeat case_match; simplify_eq; by rewrite lookup_insert_eq.
Qed.

(** The events between two runs of the job: within the time to live of the first, which
    is not stopped. *)
Definition within_lease (s : singletonTask) (n : nat) (since : Z) (e : event) : Prop :=
  match e with
  | Tick _ now _ _ | Clean now _ => since <= now < time_add since (sg_ttl s)
  | Stop m _ => m ≠ n
  | Crash _ => True
  end.

Lemma drawn_app a b : drawn (a ++ b)%list = (drawn a ++ drawn b)%list.
Proof. unfold drawn. apply omap_app. Qed.

Lemma within_leaves s n since id es :
  Forall (within_lease s n since) es → id ∉ drawn es → Forall (leaves_lease s n id (time_add since (sg_ttl s))) es.
Proof.
  induction 1 as [|e es He Hes IH]; [constructor|]. rewrite drawn_cons, not_elem_of_app. intros [Hn Hrest]. constructor; [|by apply IH].
  destruct e as [m now st i|m st|m|now st]; simpl in *; try done; [|lia]. unfold time_add in *. split_and!; [|lia|lia]. intros ->. simpl in Hn. set_solver.
Qed.

Lemma apart_empty : apart [] empty_cluster.
Proof. by split. Qed.

(** C22: the job of a singleton task is started by one process at a time.  Whatever the
    processes did before, whichever of their statements fail, and whoever else crashes,
    stops or cleans up: once a process has started the job, no other process starts it
    within the time to live of the lease, unless the first one has stopped and released
    it. *)
Theorem singleton_starts_alone s pre mid n m since now st st' id id' :
  NoDup (drawn (pre ++ [Tick n since st id] ++ mid ++ [Tick m now st' id'])%list) →
  (cluster_step s (cluster_run s empty_cluster pre) (Tick n since st id)).1 = Some n → m ≠ n →
  Forall (within_lease s n since) (mid ++ [Tick m now st' id'])%list →
  (cluster_step s (cluster_run s empty_cluster (pre ++ [Tick n since st id] ++ mid)%list) (Tick m now st' id')).1 = None.
Proof.
  intros Hnd Hrun Hm Hmid. rewrite !drawn_app in Hnd. set (c := cluster_run s empty_cluster pre) in *.
  assert (apart (drawn pre) c) as Hap by (apply (apart_run s [] empty_cluster pre apart_empty); by apply NoDup_app in Hnd as [? _]).
  assert (apart (drawn pre ++ drawn [Tick n since st id])%list (cluster_step s c (Tick n since st id)).2) as Hap'.
  { apply apart_step; [done|]. intros x Hx Hu. apply NoDup_app in Hnd as (_ & Hd & _). apply (Hd x Hu). set_solver. }
  assert (cluster_run s empty_cluster (pre ++ [Tick n since st id] ++ mid)%list = cluster_run s (cluster_step s c (Tick n since st id)).2 mid) as ->
    by (unfold cluster_run; by rewrite !foldl_app).
  unfold cluster_step in Hrun, Hap' at 1 |- * at 2.
  destruct (tick s since st id (loop_of c n) (cl_table c)) as [[job l'] t'] eqn:Et. simpl in Hrun, Hap'. cbn [snd].
  destruct job; [|done]. destruct (tick_runs _ _ _ _ _ _ _ _ Et) as [Hh Hrow]. clear Hrun Et.
  set (c1 := {| cl_table := t'; cl_loops := <[n := l']> (cl_loops c) |}) in *.
  assert (loop_of c1 n = l') as Hn by (unfold c1; rewrite loop_of_insert; by rewrite decide_True). 
  assert (leased s c1 n (lp_leaseID l') (time_add since (sg_ttl s))) as Hl.
  { split; [exists (time_add since (sg_ttl s)); split; [exact Hrow|lia]|]. rewrite <- Hn. apply (ap_alone _ _ Hap'). by rewrite Hn. }
  assert (lp_leaseID l' ∉ drawn (mid ++ [Tick m now st' id'])%list) as Hnew.
  { assert (lp_leaseID l' ∈ (drawn pre ++ drawn [Tick n since st id])%list) as Hin by (rewrite <- Hn; apply (ap_used _ _ Hap'); by rewrite Hn).
    rewrite drawn_app. rewrite app_assoc in Hnd. apply NoDup_app in Hnd as (_ & Hd & _). by apply Hd. }
  pose proof (within_leaves _ _ _ _ _ Hmid Hnew) as Hf. apply Forall_app in Hf as [Hf Hlast].
  destruct (leased_run s c1 n (lp_leaseID l') _ mid Hl Hf) as [(expiry & Hr & He) Ha].
  simpl. destruct (tick s now st' id' (loop_of (cluster_run s c1 mid) m) (cl_table (cluster_run s c1 mid))) as [[job l''] t''] eqn:Et2.
  destruct job; [|done]. apply Forall_singleton in Hlast as (_ & Hnow & _).
  destruct (tick_held _ _ _ _ _ _ _ _ _ _ _ Et2 Hr) as [_ Hmine]; [lia|]. destruct Hmine as [Hh2 Heq]; [done|]. by destruct (Ha m Hm Hh2).
Qed.

(** When the lease has run out the next process that asks takes over. *)
Theorem singleton_taken_over s c n now id :
  sg_scope s ≠ "" → 0 < sg_ttl s → lp_holder (loop_of c n) = false →
  match cl_table c !! sg_scope s with Some held => lr_expires_at held < now | None => True end →
  (cluster_step s c (Tick n now Ran (Ok id))).1 = Some n.
Proof.
  intros Hs Ht Hh Hf. simpl. unfold tick. rewrite Hh. unfold lease_Acquire. rewrite bool_decide_false by done.
  destruct (Z.leb_spec (sg_ttl s) 0); [lia|]. simpl. destruct (cl_table c !! sg_scope s) as [held|]; [|done].
  destruct (Z.ltb_spec (lr_expires_at held) now); [done|lia].
Qed.

(** ** Concrete clusters *)

Definition push_task : singletonTask := {| sg_scope := platformA2APushScope; sg_ttl := singletonLeaseTTL |}.

Lemma singleton_starts_alone_witness :
  (cluster_step push_task
     (cluster_run push_task empty_cluster ([] ++ [Tick 1 0 Ran (Ok "a")] ++ [Tick 2 second Ran (Ok "b"); Tick 1 (2 * second) Ran (Err (ErrNew "entropy"))])%list)
     (Tick 2 (29 * second) Ran (Ok "c"))).1 = None.
Proof.
  apply (singleton_starts_alone push_task [] [Tick 2 second Ran (Ok "b"); Tick 1 (2 * second) Ran (Err (ErrNew "entropy"))] 1 2 0 (29 * second)
           Ran Ran (Ok "a") (Ok "c")).
  - vm_compute. repeat constructor; set_solver.
  - vm_compute. reflexivity.
  - lia.
  - repeat constructor; vm_compute; congruence.
Defined.

(** ** Where the guarantees end *)

(** The lease is renewed between two runs of the job only.  A run that lasts longer than
    the lease, as a drain of 25 callbacks of 5 seconds may, is joined by a second process:
    here the first process starts at 0 and is still running when the second starts. *)
Example long_job_is_joined :
  (cluster_step push_task empty_cluster (Tick 1 0 Ran (Ok "a"))).1 = Some 1%nat ∧
  (cluster_step push_task (cluster_run push_task empty_cluster [Tick 1 0 Ran (Ok "a")]) (Tick 2 (31 * second) Ran (Ok "b"))).1 = Some 2%nat.
Proof. vm_compute. auto. Qed.

(** An acquisition whose answer is lost leaves a lease that nobody knows: no process runs
    the job until it has expired. *)
Example lost_answer_locks_the_scope :
  let c := cluster_run push_task empty_cluster [Tick 1 0 (Lost (ErrNew "connection lost")) (Ok "a")] in
  (cluster_step push_task c (Tick 1 second Ran (Ok "b"))).1 = None ∧ (cluster_step push_task c (Tick 2 second Ran (Ok "c"))).1 = None.
Proof. vm_compute. auto. Qed.
