(* ===== verification/Outbox.v ===== *)
(** * Outboxes: callbacks and events that survive a restart

    - platform/storage/sqlrepo/a2apushoutbox.go and the worker of
      gateway/server/a2a_stream.go: the callbacks of finished agent tasks, with the
      signature of access/protocol/a2a/pushsig.go;
    - platform/storage/sqlrepo/eventoutbox.go, app/eventoutbox.go and
      app/outboxworker.go: the domain events on their way to notification sinks.

    A statement is atomic and may fail or lose its answer (A2ATask.v); [db] is the time of
    the database, [now] that of the process.  Times in SQL are whole seconds where the
    code formats them.  The order in which the database returns rows of equal rank is an
    argument. *)

From Stdlib Require Import Ascii.
From S2P Require Import Prelude Egress GoStd GoText Spool Cache Guardrail Accounting ApiKey A2ATask AgentCall Singleton.

Open Scope string_scope.
Open Scope Z_scope.

(** ** The push outbox *)

Record A2APushDelivery := {
  pd_ID : string; pd_TaskID : string; pd_CallbackURL : string; pd_BearerToken : string; pd_Payload : string;
  pd_Attempts : Z; pd_MaxAttempts : Z }.

Record push_row := {
  po_Delivery : A2APushDelivery; po_TenantID : string; po_Status : string; po_NextAttemptAt : Z; po_LastError : string;
  po_CreatedAt : Z; po_UpdatedAt : Z }.

Abbreviation pushes := (gmap string push_row).

Definition a2aPushClaimTimeout : Z := 5 * minute.

Definition with_max (d : A2APushDelivery) (attempts max : Z) : A2APushDelivery :=
  {| pd_ID := pd_ID d; pd_TaskID := pd_TaskID d; pd_CallbackURL := pd_CallbackURL d; pd_BearerToken := pd_BearerToken d;
     pd_Payload := pd_Payload d; pd_Attempts := attempts; pd_MaxAttempts := max |}.

(** The row gets its tenant from the task, the first that the database finds under the
    id, and the defaults of the table. *)
Definition EnqueueForTask (t : tasks) (o : pushes) (db : Z) (st : statement) (d : A2APushDelivery) : result unit * pushes :=
  if bool_decide (pd_ID d = "") || bool_decide (pd_TaskID d = "") || bool_decide (pd_CallbackURL d = "") || bool_decide (pd_Payload d = "")
  then (Err (ErrNew "a2a push delivery is incomplete"), o)
  else
    let max := if pd_MaxAttempts d <=? 0 then 3 else pd_MaxAttempts d in
    ran st o (λ o,
      match List.find (λ e : string * string * A2ATask, bool_decide (e.1.2 = pd_TaskID d)) (map_to_list t), o !! pd_ID d with
      | Some (tenant, _, _), None =>
          (Ok tt, <[pd_ID d := {| po_Delivery := with_max d 0 max; po_TenantID := tenant; po_Status := "pending"; po_NextAttemptAt := seconds_of db;
                                  po_LastError := ""; po_CreatedAt := seconds_of db; po_UpdatedAt := seconds_of db |}]> o)
      | _, _ => (Err (ErrNew "a2a task not found for push delivery"), o)
      end).

Definition push_due (now : Z) (row : push_row) : bool :=
  (pd_Attempts (po_Delivery row) <? pd_MaxAttempts (po_Delivery row)) &&
  (bool_decide (po_Status row = "pending") && (po_NextAttemptAt row <=? seconds_of now) ||
   bool_decide (po_Status row = "sending") && (po_UpdatedAt row <? seconds_of (time_add now (- a2aPushClaimTimeout)))).

Definition push_before (a b : push_row) : bool :=
  (po_NextAttemptAt a <? po_NextAttemptAt b) || (po_NextAttemptAt a =? po_NextAttemptAt b) && (po_CreatedAt a <? po_CreatedAt b).

Definition push_chosen (order : list push_row → list push_row) (limit now : Z) (o : pushes) : list push_row :=
  take (Z.to_nat limit) (stable_sort push_before (order (List.filter (push_due now) (map_to_list o).*2))).

Definition claimed_row (db : Z) (row : push_row) : push_row :=
  {| po_Delivery := po_Delivery row; po_TenantID := po_TenantID row; po_Status := "sending"; po_NextAttemptAt := po_NextAttemptAt row;
     po_LastError := po_LastError row; po_CreatedAt := po_CreatedAt row; po_UpdatedAt := seconds_of db |}.

Definition claim_all (db : Z) (rows : list push_row) (o : pushes) : pushes :=
  foldl (λ o row, <[pd_ID (po_Delivery row) := claimed_row db row]> o) o rows.

Definition push_Due (order : list push_row → list push_row) (o : pushes) (db now : Z) (st : statement) (limit : Z) :
    result (list A2APushDelivery) * pushes :=
  let limit := if limit <=? 0 then 25 else limit in
  ran st o (λ o, let rows := push_chosen order limit now o in (Ok (po_Delivery <$> rows), claim_all db rows o)).

(** An update of the row while it is being sent. *)
Definition while_sending (id : string) (f : push_row → push_row) (o : pushes) : result unit * pushes :=
  (Ok tt, match o !! id with
          | Some row => if bool_decide (po_Status row = "sending") then <[id := f row]> o else o
          | None => o
          end).

Definition delivered_row (db : Z) (row : push_row) : push_row :=
  {| po_Delivery := po_Delivery row; po_TenantID := po_TenantID row; po_Status := "delivered"; po_NextAttemptAt := po_NextAttemptAt row;
     po_LastError := po_LastError row; po_CreatedAt := po_CreatedAt row; po_UpdatedAt := seconds_of db |}.

Definition push_MarkDelivered (o : pushes) (db : Z) (st : statement) (id : string) : result unit * pushes :=
  ran st o (while_sending id (delivered_row db)).

Definition attempted_row (db next : Z) (exhausted : bool) (reason : string) (row : push_row) : push_row :=
  {| po_Delivery := with_max (po_Delivery row) (pd_Attempts (po_Delivery row) + 1) (pd_MaxAttempts (po_Delivery row));
     po_TenantID := po_TenantID row; po_Status := if exhausted then "failed" else "pending"; po_NextAttemptAt := seconds_of next;
     po_LastError := String.substring 0 200 reason; po_CreatedAt := po_CreatedAt row; po_UpdatedAt := seconds_of db |}.

Definition push_MarkAttempt (o : pushes) (db : Z) (st : statement) (id : string) (next : Z) (exhausted : bool) (reason : string) :
    result unit * pushes :=
  ran st o (while_sending id (attempted_row db next exhausted reason)).

Record A2APushOutboxSummary := {
  ps_Pending : Z; ps_Sending : Z; ps_Delivered : Z; ps_Failed : Z; ps_EarliestNextAttemptAt : option Z }.

Definition count_status (status : string) (rows : list push_row) : Z :=
  Z.of_nat (length (List.filter (λ row, bool_decide (po_Status row = status)) rows)).

(** [tenant] is None for the summary of all tenants. *)
Definition push_summary (tenant : option string) (o : pushes) : A2APushOutboxSummary :=
  let rows := List.filter (λ row, match tenant with Some t => bool_decide (po_TenantID row = t) | None => true end) (map_to_list o).*2 in
  {| ps_Pending := count_status "pending" rows; ps_Sending := count_status "sending" rows; ps_Delivered := count_status "delivered" rows;
     ps_Failed := count_status "failed" rows;
     ps_EarliestNextAttemptAt :=
       foldr (λ row earliest, if bool_decide (po_Status row = "pending")
                              then Some (match earliest with Some t => Z.min (po_NextAttemptAt row) t | None => po_NextAttemptAt row end)
                              else earliest) None rows |}.

(** What an operator sees of a row: neither the callback nor its contents. *)
Record A2APushOutboxFailure := {
  pf_ID : string; pf_TaskID : string; pf_Status : string; pf_Attempts : Z; pf_MaxAttempts : Z; pf_LastError : string;
  pf_NextAttemptAt : Z; pf_UpdatedAt : Z }.

Definition failure_of (row : push_row) : A2APushOutboxFailure :=
  let d := po_Delivery row in
  {| pf_ID := pd_ID d; pf_TaskID := pd_TaskID d; pf_Status := po_Status row; pf_Attempts := pd_Attempts d; pf_MaxAttempts := pd_MaxAttempts d;
     pf_LastError := po_LastError row; pf_NextAttemptAt := po_NextAttemptAt row; pf_UpdatedAt := po_UpdatedAt row |}.

Definition listed (tenantID status : string) (row : push_row) : bool :=
  bool_decide (po_TenantID row = tenantID) && (bool_decide (status = "") || bool_decide (po_Status row = status)).

Definition push_ListDeliveries (order : list push_row → list push_row) (o : pushes) (tenantID status : string) (limit : Z) : list A2APushOutboxFailure :=
  let limit := if (limit <=? 0) || (100 <? limit) then 50 else limit in
  failure_of <$> take (Z.to_nat limit) (stable_sort (λ a b, po_UpdatedAt b <? po_UpdatedAt a) (order (List.filter (listed tenantID status) (map_to_list o).*2))).

Definition push_ListFailures (order : list push_row → list push_row) (o : pushes) (tenantID : string) (limit : Z) : list A2APushOutboxFailure :=
  push_ListDeliveries order o tenantID "failed" limit.

(** ** The signature of a callback: pushsig.go *)

Definition SignPushPayloadWithID (secret : list Z) (deliveryID timestamp payload : string) : string :=
  hex_encode (hmac_sha256 secret (bytes_of_string
    (timestamp +:+ newline +:+ (if bool_decide (deliveryID = "") then "" else deliveryID +:+ newline) +:+ payload))).

Definition SignPushPayload (secret : list Z) (timestamp payload : string) : string := SignPushPayloadWithID secret "" timestamp payload.

Definition ErrPushSignatureMissing : error := ErrNew "a2a push signature missing".
Definition ErrPushSignatureMalformed : error := ErrNew "a2a push signature malformed".
Definition ErrPushTimestampInvalid : error := ErrNew "a2a push timestamp invalid".
Definition ErrPushTimestampSkew : error := ErrNew "a2a push timestamp outside allowed skew".
Definition ErrPushSignatureMismatch : error := ErrNew "a2a push signature mismatch".

(** [time.Parse] and [time.Format] for RFC3339Nano. *)
Class Timestamps := { format_time : Z → string; parse_time : string → option Z }.

(** [clock] is [time.Now], read when the caller gives no time. *)
Definition VerifyPushPayloadSignatureWithID `{!Timestamps} (secret : list Z) (deliveryID timestamp signature payload : string) (now clock maxSkew : Z) :
    option error :=
  if bool_decide (signature = "") then Some ErrPushSignatureMissing
  else match after_prefix "sha256=" signature with
  | None => Some ErrPushSignatureMalformed
  | Some encoded =>
      if bool_decide (encoded = "") then Some ErrPushSignatureMalformed
      else match hex_decode encoded with
      | None => Some ErrPushSignatureMalformed
      | Some got =>
          match parse_time timestamp with
          | None => Some ErrPushTimestampInvalid
          | Some parsed =>
              let now := if now =? zero_time then clock else now in
              let delta := time_sub now parsed in
              let delta := if delta <? 0 then wrap64 (- delta) else delta in
              if (0 <? maxSkew) && (maxSkew <? delta) then Some ErrPushTimestampSkew
              else match hex_decode (SignPushPayloadWithID secret deliveryID timestamp payload) with
              | None => Some ErrPushSignatureMalformed
              | Some expected => if bool_decide (got = expected) then None else Some ErrPushSignatureMismatch
              end
          end
      end
  end.

(** ** The worker: gateway/server/a2a_stream.go *)

Definition a2aPushDefaultMaxAttempts : Z := 3.
Definition a2aPushBatchSize : Z := 25.

Definition a2aPushBackoff (attempt : Z) : Z :=
  if attempt <=? 1 then second else if attempt =? 2 then 5 * second else 30 * second.

(** What the server is configured with: the sealing of stored values, and the secret. *)
Record push_config := {
  pc_SealURL : option (string → result string); pc_OpenURL : option (string → result string);
  pc_SealBearer : option (string → result string); pc_OpenBearer : option (string → result string);
  pc_SealPayload : option (string → result string); pc_OpenPayload : option (string → result string);
  pc_SigningSecret : list Z }.

(** A value that may be sealed. *)
Definition opened (open : option (string → result string)) (value : string) : result string :=
  match after_prefix "sealed:" value, open with
  | Some _, Some open => open value
  | _, _ => Ok value
  end.

Definition sealed (seal : option (string → result string)) (value : string) : result string :=
  match seal with Some seal => seal value | None => Ok value end.

Record callback := { cb_URL : string; cb_Headers : gmap string string; cb_Payload : string }.

(** The callback client answers with the status code. *)
Class CallbackNet (C : Type) := { callback_Do : C → callback → result Z * C }.

Section Worker.
Context `{!URLParser} `{!Timestamps} {C : Type} `{!CallbackNet C}.
Context (cfg : push_config).

(** [timestamp] is the time of the call. *)
Definition push_request (url bearer payload : string) (timestamp : Z) (d : A2APushDelivery) : callback :=
  let headers : gmap string string := {["Content-Type" := "application/json"]} in
  let headers := if bool_decide (pd_ID d = "") then headers else <["X-Liteaig-A2a-Push-Id" := pd_ID d]> headers in
  let headers := if bool_decide (bearer = "") then headers else <["Authorization" := "Bearer " +:+ bearer]> headers in
  let headers := if bool_decide (pc_SigningSecret cfg = []) then headers
                 else <["X-Liteaig-A2a-Push-Signature" := "sha256=" +:+ SignPushPayloadWithID (pc_SigningSecret cfg) (pd_ID d) (format_time timestamp) payload]>
                      (<["X-Liteaig-A2a-Push-Timestamp" := format_time timestamp]> headers) in
  {| cb_URL := url; cb_Headers := headers; cb_Payload := payload |}.

Definition sendA2APush (timestamp : Z) (d : A2APushDelivery) (net : C) : (bool * string) * C :=
  match opened (pc_OpenURL cfg) (pd_CallbackURL d) with
  | Err _ => ((false, "url decrypt"), net)
  | Ok url =>
      match ValidateTarget url LitePolicy with
      | Some _ => ((false, "target rejected"), net)
      | None =>
          match opened (pc_OpenPayload cfg) (pd_Payload d) with
          | Err _ => ((false, "payload decrypt"), net)
          | Ok payload =>
              match opened (pc_OpenBearer cfg) (pd_BearerToken d) with
              | Err _ => ((false, "token decrypt"), net)
              | Ok bearer =>
                  match callback_Do net (push_request url bearer payload timestamp d) with
                  | (Err _, net) => ((false, "callback unreachable"), net)
                  | (Ok status, net) =>
                      if (status <? 200) || (300 <=? status) then ((false, "callback status " +:+ itoa status), net) else ((true, ""), net)
                  end
              end
          end
      end
  end.

(** The surroundings of a drain: the times of the process, the time and fate of every
    statement, and whether the process still runs. *)
Record drain_env := { de_now : nat → Z; de_db : nat → Z * statement; de_alive : nat → bool; de_order : list push_row → list push_row }.

(** The log keeps the callbacks that were tried and whether their receiver took them. *)
Record push_world := { pw_rows : pushes; pw_net : C; pw_steps : nat; pw_log : list (string * bool) }.

Definition mark (e : drain_env) (d : A2APushDelivery) (ok : bool) (reason : string) (w : push_world) : push_world :=
  let '(db, st) := de_db e (pw_steps w) in
  let now := de_now e (pw_steps w) in
  let attempt := pd_Attempts d + 1 in
  {| pw_rows := (if ok then push_MarkDelivered (pw_rows w) db st (pd_ID d)
                 else push_MarkAttempt (pw_rows w) db st (pd_ID d) (time_add now (a2aPushBackoff attempt)) (pd_MaxAttempts d <=? attempt) reason).2;
     pw_net := pw_net w; pw_steps := S (pw_steps w); pw_log := pw_log w |}.

Definition push_one (e : drain_env) (d : A2APushDelivery) (w : push_world) : push_world :=
  let '((ok, reason), net) := sendA2APush (de_now e (pw_steps w)) d (pw_net w) in
  mark e d ok reason {| pw_rows := pw_rows w; pw_net := net; pw_steps := pw_steps w; pw_log := (pw_log w ++ [(pd_ID d, ok)])%list |}.

Fixpoint push_each (e : drain_env) (ds : list A2APushDelivery) (w : push_world) : push_world :=
  match ds with
  | [] => w
  | d :: ds => if negb (de_alive e (pw_steps w)) then w else push_each e ds (push_one e d w)
  end.

Definition DrainA2APushOutbox (e : drain_env) (w : push_world) : push_world :=
  let '(db, st) := de_db e (pw_steps w) in
  match push_Due (de_order e) (pw_rows w) db (de_now e (pw_steps w)) st a2aPushBatchSize with
  | (Err _, rows) => {| pw_rows := rows; pw_net := pw_net w; pw_steps := S (pw_steps w); pw_log := pw_log w |}
  | (Ok ds, rows) => push_each e ds {| pw_rows := rows; pw_net := pw_net w; pw_steps := S (pw_steps w); pw_log := pw_log w |}
  end.

(** A finished relay of a task asks for a callback, with the outbox configured: the
    failures are logged.  [body] is the encoded result, [id] what [randomPushID] draws. *)
Definition deliverA2APush (t : tasks) (o : pushes) (db : Z) (st : statement) (url token taskID : string) (body : result string) (id : string) : pushes :=
  match ValidateTarget url LitePolicy, body with
  | Some _, _ | _, Err _ => o
  | None, Ok payload =>
      match sealed (pc_SealURL cfg) url, (if bool_decide (token = "") then Ok token else sealed (pc_SealBearer cfg) token), sealed (pc_SealPayload cfg) payload with
      | Ok url, Ok token, Ok payload =>
          (EnqueueForTask t o db st {| pd_ID := id; pd_TaskID := taskID; pd_CallbackURL := url; pd_BearerToken := token; pd_Payload := payload;
                                       pd_Attempts := 0; pd_MaxAttempts := a2aPushDefaultMaxAttempts |}).2
      | _, _, _ => o
      end
  end.
End Worker.

(** ** What every process does to the outbox *)

Inductive push_op :=
| OpEnqueue (t : tasks) (db : Z) (st : statement) (d : A2APushDelivery)
| OpDue (order : list push_row → list push_row) (db now : Z) (st : statement) (limit : Z)
| OpDelivered (db : Z) (st : statement) (id : string)
| OpAttempt (db : Z) (st : statement) (id : string) (next : Z) (exhausted : bool) (reason : string).

Definition push_step (o : pushes) (op : push_op) : pushes :=
  match op with
  | OpEnqueue t db st d => (EnqueueForTask t o db st d).2
  | OpDue order db now st limit => (push_Due order o db now st limit).2
  | OpDelivered db st id => (push_MarkDelivered o db st id).2
  | OpAttempt db st id next exhausted reason => (push_MarkAttempt o db st id next exhausted reason).2
  end.

Definition push_run : pushes → list push_op → pushes := foldl push_step.

(** The database only reorders. *)
Definition fair_order (op : push_op) : Prop := match op with OpDue order _ _ _ _ => ∀ l, order l ≡ₚ l | _ => True end.

Definition keyed (o : pushes) : Prop := map_Forall (λ id row, pd_ID (po_Delivery row) = id) o.

Lemma chosen_spec order limit now o row :
  (∀ l, order l ≡ₚ l) → row ∈ push_chosen order limit now o → (∃ id, o !! id = Some row) ∧ push_due now row = true.
Proof.
  intros Hp Hin. unfold push_chosen in Hin.
  assert (row ∈ List.filter (push_due now) (map_to_list o).*2) as Hf.
  { rewrite <- (Hp (List.filter _ _)), <- (stable_sort_perm push_before). by eapply subseteq_take. }
  rewrite list_elem_of_In, List.filter_In, <- list_elem_of_In, elem_of_values in Hf. done.
Qed.

Lemma claim_all_lookup db rows o id :
  (∃ row, row ∈ rows ∧ pd_ID (po_Delivery row) = id ∧ claim_all db rows o !! id = Some (claimed_row db row)) ∨
  ((∀ row, row ∈ rows → pd_ID (po_Delivery row) ≠ id) ∧ claim_all db rows o !! id = o !! id).
Proof.
  induction rows as [|row rows IH] using rev_ind; [right; split; [by intros ? ?%elem_of_nil|done]|].
  unfold claim_all in *. rewrite foldl_app. simpl. destruct (decide (pd_ID (po_Delivery row) = id)) as [<-|Hne].
  - left. exists row. rewrite lookup_insert_eq. set_solver.
  - rewrite lookup_insert_ne by done. destruct IH as [(r & Hr & Hid & Hl)|[Hall Hl]]; [left; exists r; set_solver|].
    right. split; [|done]. intros r. rewrite elem_of_app, list_elem_of_singleton. intros [?| ->]; auto.
Qed.

(** How a statement changes the row it finds under an id. *)
Inductive push_row_step (op : push_op) (old : push_row) : push_row → Prop :=
| push_kept : push_row_step op old old
| push_claimed order db now st limit :
    op = OpDue order db now st limit → push_due now old = true → push_row_step op old (claimed_row db old)
| push_delivered db st :
    op = OpDelivered db st (pd_ID (po_Delivery old)) → po_Status old = "sending" → push_row_step op old (delivered_row db old)
| push_attempted db st next exhausted reason :
    op = OpAttempt db st (pd_ID (po_Delivery old)) next exhausted reason → po_Status old = "sending" →
    push_row_step op old (attempted_row db next exhausted reason old).

Lemma ran_cases {T B : Type} st (t : T) (f : T → result B * T) : (ran st t f).2 = t ∨ (ran st t f).2 = (f t).2.
Proof. destruct st; simpl; auto. Qed.

Lemma while_sending_row id f o key old :
  o !! key = Some old → (while_sending id f o).2 !! key = Some old ∨
    key = id ∧ po_Status old = "sending" ∧ (while_sending id f o).2 !! key = Some (f old).
Proof.
  intros Hl. unfold while_sending. simpl. destruct (decide (key = id)) as [->|Hne].
  - rewrite Hl. case_bool_decide; [right; by rewrite lookup_insert_eq|by left].
  - left. destruct (o !! id); [|done]. case_bool_decide; [by rewrite lookup_insert_ne|done].
Qed.

Lemma push_step_row o op id old :
  keyed o → fair_order op → o !! id = Some old → ∃ new, push_step o op !! id = Some new ∧ push_row_step op old new.
Proof.
  intros Hk Hf Hl. pose proof (Hk _ _ Hl) as Hid. simpl in Hid.
  assert (∀ o', o' = o → ∃ new, o' !! id = Some new ∧ push_row_step op old new) as Hsame by (intros ? ->; eauto using push_kept).
  destruct op as [t db st d|order db now st limit|db st i|db st i next ex reason]; simpl in *.
  - unfold EnqueueForTask. case_match; [by apply Hsame|].
    match goal with |- context [ran st o ?f] => destruct (ran_cases st o f) as [E|E]; rewrite E end; [by apply Hsame|].
    destruct (List.find _ _) as [[[]]|]; [|by apply Hsame]. destruct (o !! pd_ID d) eqn:Ed; [by apply Hsame|]. simpl.
    rewrite lookup_insert_ne by congruence. eauto using push_kept.
  - unfold push_Due. match goal with |- context [ran st o ?f] => destruct (ran_cases st o f) as [E|E]; rewrite E end; [by apply Hsame|]. simpl.
    set (rows := push_chosen _ _ _ _). destruct (claim_all_lookup db rows o id) as [(row & Hr & Hri & ->)|[_ ->]]; [|eauto using push_kept].
    destruct (chosen_spec _ _ _ _ _ Hf Hr) as [[k Hk'] Hd]. assert (k = id) as -> by (rewrite <- Hri; symmetry; exact (Hk _ _ Hk')).
    rewrite Hl in Hk'. injection Hk' as ->. eauto using push_claimed.
  - unfold push_MarkDelivered. match goal with |- context [ran st o ?f] => destruct (ran_cases st o f) as [E|E]; rewrite E end; [by apply Hsame|].
    destruct (while_sending_row i (delivered_row db) o id old Hl) as [H|(-> & Hs & H)]; [eauto using push_kept|].
    eexists. split; [exact H|]. subst i. by eapply push_delivered.
  - unfold push_MarkAttempt. match goal with |- context [ran st o ?f] => destruct (ran_cases st o f) as [E|E]; rewrite E end; [by apply Hsame|].
    destruct (while_sending_row i (attempted_row db next ex reason) o id old Hl) as [H|(-> & Hs & H)]; [eauto using push_kept|].
    eexists. split; [exact H|]. subst i. by eapply push_attempted.
Qed.

Lemma push_step_new o op id new :
  keyed o → fair_order op → o !! id = None → push_step o op !! id = Some new →
  ∃ t db st d, op = OpEnqueue t db st d ∧ pd_ID d = id ∧ po_Status new = "pending" ∧
    po_Delivery new = with_max d 0 (if pd_MaxAttempts d <=? 0 then 3 else pd_MaxAttempts d).
Proof.
  intros Hk Hf Ho Hn. destruct op as [t db st d|order db now st limit|db st i|db st i next ex reason]; simpl in *.
  - unfold EnqueueForTask in Hn. case_match; [simpl in Hn; congruence|].
    match type of Hn with context [ran st o ?f] => destruct (ran_cases st o f) as [E|E]; rewrite E in Hn end; [congruence|].
    destruct (List.find _ _) as [[[]]|]; [|simpl in Hn; congruence]. destruct (o !! pd_ID d) eqn:Ed; [simpl in Hn; congruence|]. simpl in Hn.
    destruct (decide (pd_ID d = id)) as [<-|Hne]; [|rewrite lookup_insert_ne in Hn by done; congruence].
    rewrite lookup_insert_eq in Hn. injection Hn as <-. exists t, db, st, d. done.
  - unfold push_Due in Hn. match type of Hn with context [ran st o ?f] => destruct (ran_cases st o f) as [E|E]; rewrite E in Hn end; [congruence|].
    simpl in Hn. destruct (claim_all_lookup db (push_chosen order (if limit <=? 0 then 25 else limit) now o) o id) as [(row & Hr & Hri & _)|[_ E']]; [|congruence].
    destruct (chosen_spec _ _ _ _ _ Hf Hr) as [[k Hk'] _]. assert (k = id) as -> by (rewrite <- Hri; symmetry; exact (Hk _ _ Hk')). congruence.
  - unfold push_MarkDelivered in Hn. match type of Hn with context [ran st o ?f] => destruct (ran_cases st o f) as [E|E]; rewrite E in Hn end; [congruence|].
    unfold while_sending in Hn. simpl in Hn. destruct (o !! i) eqn:Ei; [|congruence]. case_bool_decide; [|congruence].
    rewrite lookup_insert_ne in Hn by congruence. congruence.
  - unfold push_MarkAttempt in Hn. match type of Hn with context [ran st o ?f] => destruct (ran_cases st o f) as [E|E]; rewrite E in Hn end; [congruence|].
    unfold while_sending in Hn. simpl in Hn. destruct (o !! i) eqn:Ei; [|congruence]. case_bool_decide; [|congruence].
    rewrite lookup_insert_ne in Hn by congruence. congruence.
Qed.

(** An operator sees rows of the tenant and status asked for, a hundred at most. *)
Lemma listed_deliveries order o tenantID status limit :
  (∀ l, order l ≡ₚ l) → let fs := push_ListDeliveries order o tenantID status limit in
  (length fs <= 100)%nat ∧ ∀ f, f ∈ fs → ∃ id row, o !! id = Some row ∧ f = failure_of row ∧ po_TenantID row = tenantID ∧ (status = "" ∨ po_Status row = status).
Proof.
  intros Hp. unfold push_ListDeliveries. split.
  - rewrite length_fmap, length_take. destruct (Z.leb_spec limit 0), (Z.ltb_spec 100 limit); cbn [orb]; lia.
  - intros f (row & -> & Hin)%list_elem_of_fmap. apply subseteq_take in Hin.
    rewrite (stable_sort_perm (λ a b, po_UpdatedAt b <? po_UpdatedAt a)), Hp, list_elem_of_In, List.filter_In, <- list_elem_of_In, elem_of_values in Hin.
    destruct Hin as [[id Hl] Hb]. exists id, row. unfold listed in Hb. rewrite andb_true_iff, orb_true_iff, !bool_decide_eq_true in Hb. tauto.
Qed.

(** ** Rows stay sound *)

Record sound_row (row : push_row) : Prop := {
  sr_attempts : 0 <= pd_Attempts (po_Delivery row) <= pd_MaxAttempts (po_Delivery row);
  sr_sending : po_Status row = "sending" → pd_Attempts (po_Delivery row) < pd_MaxAttempts (po_Delivery row) }.

Definition sound (o : pushes) : Prop := keyed o ∧ map_Forall (λ _, sound_row) o.

Lemma push_row_step_sound op old new :
  push_row_step op old new → sound_row old → sound_row new ∧ pd_ID (po_Delivery new) = pd_ID (po_Delivery old).
Proof.
  intros Hs [Ha Hse]. destruct Hs as [|order db now st limit _ Hd|db st _ Hs|db st next ex reason _ Hs]; (split; [|done]); constructor; simpl; try done.
  - unfold push_due in Hd. apply andb_true_iff in Hd as [Hd%Z.ltb_lt _]. done.
  - specialize (Hse Hs). lia.
  - by destruct ex.
Qed.

Lemma sound_step o op : sound o → fair_order op → sound (push_step o op).
Proof.
  intros [Hk Ho] Hf. assert (∀ id new, push_step o op !! id = Some new → pd_ID (po_Delivery new) = id ∧ sound_row new) as Hall.
  { intros id new Hn. destruct (o !! id) as [old|] eqn:E.
    - destruct (push_step_row o op id old Hk Hf E) as (new' & Hn' & Hs). rewrite Hn in Hn'. injection Hn' as <-.
      destruct (push_row_step_sound _ _ _ Hs (Ho _ _ E)) as [? ->]. split; [exact (Hk _ _ E)|done].
    - destruct (push_step_new o op id new Hk Hf E Hn) as (t & db & st & d & -> & Hid & Hs & Hd). rewrite Hd. simpl. split; [done|].
      constructor; rewrite ?Hd; simpl; [|by rewrite Hs]. destruct (Z.leb_spec (pd_MaxAttempts d) 0); lia. }
  split; intros id new Hn; by apply (Hall id).
Qed.

Lemma sound_run o ops : sound o → Forall fair_order ops → sound (push_run o ops).
Proof. intros Ho Hf. revert o Ho. induction Hf; intros o Ho; simpl; [done|]. eauto using sound_step. Qed.

Lemma sound_empty : sound ∅.
Proof. split; apply map_Forall_empty. Qed.

Definition finished (row : push_row) : Prop := po_Status row = "delivered" ∨ po_Status row = "failed".

Lemma finished_step op old new : push_row_step op old new → finished old → new = old.
Proof.
  intros Hs [Hd|Hd]; destruct Hs as [|order db now st limit _ Hdue|db st _ Hs|db st next ex reason _ Hs]; try done; try congruence;
    unfold push_due in Hdue; rewrite Hd in Hdue; apply andb_true_iff in Hdue as [_ Hdue]; by vm_compute in Hdue.
Qed.

(** The retries of a callback are bounded, and its end is final.  Whatever statements
    the processes run on the outbox, in any order and with any of them failing or their
    answers lost: no callback has more than its number of attempts, one that is being
    sent has an attempt left, and one that was delivered or given up is never changed,
    hence never sent, again. *)
Theorem push_retries_bounded ops later :
  Forall fair_order ops → Forall fair_order later →
  ∀ id row, push_run ∅ ops !! id = Some row →
    sound_row row ∧ (finished row → push_run ∅ (ops ++ later)%list !! id = Some row ∧
      ∀ order db now st limit, fair_order (OpDue order db now st limit) →
        match (push_Due order (push_run ∅ (ops ++ later)%list) db now st limit).1 with
        | Ok ds => Forall (λ d, pd_ID d ≠ id) ds
        | Err _ => True
        end).
Proof.
  intros Hf Hf' id row Hl. pose proof (sound_run ∅ ops sound_empty Hf) as Hs. split; [by apply (proj2 Hs id)|]. intros Hfin.
  assert (push_run ∅ (ops ++ later)%list = push_run (push_run ∅ ops) later) as -> by apply foldl_app.
  assert (push_run (push_run ∅ ops) later !! id = Some row) as Hlast.
  { revert Hs Hl. generalize (push_run ∅ ops). induction Hf' as [|op later Hop Hf' IH]; intros o Hs Hl; simpl; [done|].
    apply IH; [by apply sound_step|]. destruct (push_step_row o op id row (proj1 Hs) Hop Hl) as (new & Hn & Hst).
    by rewrite Hn, (finished_step _ _ _ Hst Hfin). }
  split; [done|]. pose proof (sound_run _ later Hs Hf') as [Hk _]. intros order db now st limit Hp. unfold push_Due. destruct st; simpl; try done.
  apply Forall_fmap, Forall_forall. intros r Hr Hid. destruct (chosen_spec _ _ _ _ _ Hp Hr) as [[k Hk'] Hd].
  assert (k = id) as -> by (rewrite <- Hid; symmetry; exact (Hk _ _ Hk')).
  rewrite Hlast in Hk'. injection Hk' as <-. unfold push_due in Hd. apply andb_true_iff in Hd as [_ Hd].
  by destruct Hfin as [E|E]; rewrite E in Hd; vm_compute in Hd.
Qed.

(** ** One claimant at a time *)

Definition claimed_since (o : pushes) (id : string) (since : Z) : Prop :=
  ∃ row, o !! id = Some row ∧ po_Status row = "sending" ∧ since <= po_UpdatedAt row.

(** A statement of a process that has not claimed the row: it does not mark it, and takes
    over only what was claimed five minutes before. *)
Definition push_bystander (id : string) (since : Z) (op : push_op) : Prop :=
  match op with
  | OpEnqueue _ _ _ _ => True
  | OpDue order _ now _ _ => (∀ l, order l ≡ₚ l) ∧ time_add now (- a2aPushClaimTimeout) <= since
  | OpDelivered _ _ i | OpAttempt _ _ i _ _ _ => i ≠ id
  end.

Lemma young_claim_not_due now since row :
  po_Status row = "sending" → seconds_of since <= po_UpdatedAt row → time_add now (- a2aPushClaimTimeout) <= since → push_due now row = false.
Proof.
  intros Hs Hu Hn. unfold push_due. rewrite Hs. apply seconds_of_mono in Hn. destruct (Z.ltb_spec (po_UpdatedAt row) (seconds_of (time_add now (- a2aPushClaimTimeout)))); [lia|].
  by rewrite andb_false_r.
Qed.

Lemma claimed_since_step o op id since :
  keyed o → push_bystander id since op → claimed_since o id (seconds_of since) → claimed_since (push_step o op) id (seconds_of since).
Proof.
  intros Hk Hb (row & Hl & Hs & Hu). assert (fair_order op) as Hf by (destruct op; [done|by destruct Hb|done|done]).
  pose proof (Hk _ _ Hl) as Hid. simpl in Hid. destruct (push_step_row o op id row Hk Hf Hl) as (new & Hn & Hst). exists new. split; [done|].
  destruct Hst as [|order db now st limit -> Hd|db st -> _|db st next ex reason -> _]; [done| |by destruct Hb|by destruct Hb].
  destruct Hb as [_ Hb]. by rewrite (young_claim_not_due now since) in Hd.
Qed.

(** A claimed callback is sent by its claimant alone.  Once a scan has returned a
    callback, then as long as its claimant has not marked it, no scan of any process in
    the next five minutes returns it, whatever the processes run in between. *)
Theorem claimed_push_is_exclusive o order db now limit ds id ops order' db' now' st' limit' :
  sound o → (∀ l, order l ≡ₚ l) → (push_Due order o db now Ran limit).1 = Ok ds → id ∈ pd_ID <$> ds →
  Forall (push_bystander id db) ops → (∀ l, order' l ≡ₚ l) → time_add now' (- a2aPushClaimTimeout) <= db →
  match (push_Due order' (push_run (push_Due order o db now Ran limit).2 ops) db' now' st' limit').1 with
  | Ok ds' => id ∉ pd_ID <$> ds'
  | Err _ => True
  end.
Proof.
  intros Ho Hp Hds Hid Hops Hp' Hnow. simpl in Hds. injection Hds as <-. set (rows := push_chosen order (if limit <=? 0 then 25 else limit) now o) in *.
  assert (claimed_since (push_step o (OpDue order db now Ran limit)) id (seconds_of db)) as Hc.
  { simpl. fold rows. destruct (claim_all_lookup db rows o id) as [(row & Hr & Hri & Hl)|[Hall _]]; [eexists; split; [exact Hl|]; simpl; split; [done|lia]|].
    exfalso. apply list_elem_of_fmap in Hid as (d & -> & Hd). apply list_elem_of_fmap in Hd as (row & -> & Hr). by apply (Hall row). }
  assert (sound (push_step o (OpDue order db now Ran limit))) as Hs by (by apply sound_step).
  change (push_Due order o db now Ran limit).2 with (push_step o (OpDue order db now Ran limit)).
  assert (sound (push_run (push_step o (OpDue order db now Ran limit)) ops) ∧ claimed_since (push_run (push_step o (OpDue order db now Ran limit)) ops) id (seconds_of db)) as [Hs2 (row & Hl & Hst & Hu)].
  { revert Hs Hc. generalize (push_step o (OpDue order db now Ran limit)). induction Hops as [|op ops Hop Hops IH]; intros o' Hs Hc; simpl; [done|].
    apply IH; [|by apply claimed_since_step; [apply Hs| |]]. apply sound_step; [done|]. destruct op; [done|by destruct Hop|done|done]. }
  set (o2 := push_run _ ops) in *. clearbody o2.
  unfold push_Due. destruct st'; simpl; try done. rewrite <- list_fmap_compose. intros (r & Hri & Hr)%list_elem_of_fmap.
  destruct (chosen_spec _ _ _ _ _ Hp' Hr) as [[k Hk'] Hd]. assert (k = id) as -> by (rewrite Hri; symmetry; exact (proj1 Hs2 _ _ Hk')).
  rewrite Hl in Hk'. injection Hk' as <-. by rewrite (young_claim_not_due now' db) in Hd.
Qed.

(** ** What one worker posts *)

Definition posts (log : list (string * bool)) (id : string) : Z := Z.of_nat (length (List.filter (λ e, bool_decide (e.1 = id)) log)).

(** The posts of a row are its attempts and the one that was taken; it is given up when
    its attempts are used. *)
Record tallied (log : list (string * bool)) (id : string) (row : push_row) : Prop := {
  ta_posts : posts log id = pd_Attempts (po_Delivery row) + (if bool_decide (po_Status row = "delivered") then 1 else 0);
  ta_taken : (id, true) ∈ log ↔ po_Status row = "delivered";
  ta_failed : po_Status row = "failed" → pd_Attempts (po_Delivery row) = pd_MaxAttempts (po_Delivery row);
  ta_left : po_Status row ≠ "failed" → pd_Attempts (po_Delivery row) < pd_MaxAttempts (po_Delivery row) }.

Definition known_row (row : push_row) : Prop := po_Status row ∈ ["pending"; "sending"; "delivered"; "failed"].

(** Between the steps of a drain: exactly the rows still to be sent are claimed. *)
Record tally (ds : list A2APushDelivery) (o : pushes) (log : list (string * bool)) : Prop := {
  tl_sound : sound o;
  tl_rows : ∀ id row, o !! id = Some row → tallied log id row;
  tl_log : ∀ id b, (id, b) ∈ log → is_Some (o !! id);
  tl_todo : ∀ d, d ∈ ds → ∃ row, o !! pd_ID d = Some row ∧ po_Delivery row = d ∧ po_Status row = "sending";
  tl_claimed : ∀ id row, o !! id = Some row → po_Status row = "sending" → id ∈ pd_ID <$> ds;
  tl_nodup : NoDup (pd_ID <$> ds) }.

Lemma posts_app log id i b : posts (log ++ [(i, b)])%list id = posts log id + (if bool_decide (i = id) then 1 else 0).
Proof. unfold posts. rewrite List.filter_app, length_app. simpl. case_bool_decide; simpl; lia. Qed.

Lemma tallied_other log id row i b : i ≠ id → tallied log id row → tallied (log ++ [(i, b)])%list id row.
Proof.
  intros Hne [Hp Ht Hf Hl]. split; [rewrite posts_app, bool_decide_false by done; lia| |done|done]. rewrite elem_of_app, list_elem_of_singleton, <- Ht. naive_solver.
Qed.

(** The step of one callback. *)
Lemma tally_mark ds o log d (ok : bool) reason db next :
  tally (d :: ds) o log →
  tally ds (if ok then push_MarkDelivered o db Ran (pd_ID d) else push_MarkAttempt o db Ran (pd_ID d) next (pd_MaxAttempts d <=? pd_Attempts d + 1) reason).2
    (log ++ [(pd_ID d, ok)])%list.
Proof.
  intros [Hs Hr Hlog Htodo Hcl Hnd]. destruct (Htodo d) as (row & Hl & Hd & Hst); [set_solver|]. rewrite fmap_cons in Hnd. apply NoDup_cons in Hnd as [Hnew Hnd].
  set (f := if ok then delivered_row db else attempted_row db next (pd_MaxAttempts d <=? pd_Attempts d + 1) reason).
  assert ((if ok then push_MarkDelivered o db Ran (pd_ID d) else push_MarkAttempt o db Ran (pd_ID d) next (pd_MaxAttempts d <=? pd_Attempts d + 1) reason).2 =
          <[pd_ID d := f row]> o) as ->.
  { unfold f. destruct ok; simpl; unfold while_sending; simpl; rewrite Hl, bool_decide_true by done; done. }
  assert (sound (<[pd_ID d := f row]> o)) as Hs'.
  { destruct Hs as [Hk Ho]. destruct (push_row_step_sound (if ok then OpDelivered db Ran (pd_ID d) else OpAttempt db Ran (pd_ID d) next (pd_MaxAttempts d <=? pd_Attempts d + 1) reason) row (f row)) as [Hf Hfid].
    - unfold f. destruct ok; [eapply push_delivered|eapply push_attempted]; rewrite ?Hd; done.
    - exact (Ho _ _ Hl).
    - split; apply map_Forall_insert_2; try done. rewrite Hfid. by rewrite Hd. }
  destruct (Hr _ _ Hl) as [Hp Ht _ Hleft]. rewrite Hst in Hp, Ht, Hleft. rewrite bool_decide_false in Hp by done. specialize (Hleft ltac:(done)).
  rewrite Hd in Hp, Hleft. assert ((pd_ID d, true) ∉ log) as Hnt by (intros E%Ht; done).
  split; [done| | | | |done].
  - intros id r. destruct (decide (pd_ID d = id)) as [<-|Hne]; [rewrite lookup_insert_eq; intros [= <-]|rewrite lookup_insert_ne by done; intros Hid; apply tallied_other; auto].
    unfold f. destruct ok; split; simpl; rewrite ?Hd; simpl.
    + rewrite posts_app, bool_decide_true by done. lia.
    + rewrite elem_of_app, list_elem_of_singleton. naive_solver.
    + done.
    + done.
    + rewrite posts_app, bool_decide_true by done. destruct (Z.leb_spec (pd_MaxAttempts d) (pd_Attempts d + 1)); rewrite bool_decide_false by done; lia.
    + rewrite elem_of_app, list_elem_of_singleton. split; [naive_solver|]. by destruct (_ <=? _).
    + destruct (Z.leb_spec (pd_MaxAttempts d) (pd_Attempts d + 1)); [lia|done].
    + destruct (Z.leb_spec (pd_MaxAttempts d) (pd_Attempts d + 1)); [done|lia].
  - intros id b [Hin|Hin%list_elem_of_singleton]%elem_of_app; [apply lookup_insert_is_Some; eauto using elem_of_app|injection Hin as -> ->; by rewrite lookup_insert_eq].
    destruct (decide (pd_ID d = id)); [by left|right]. split; [done|eauto].
  - intros d' Hd'. destruct (Htodo d') as (r & Hl' & ? & ?); [set_solver|]. assert (pd_ID d ≠ pd_ID d') by (intros E; apply Hnew; rewrite E; by apply list_elem_of_fmap_2).
    exists r. by rewrite lookup_insert_ne.
  - intros id r. destruct (decide (pd_ID d = id)) as [<-|Hne].
    + rewrite lookup_insert_eq. intros [= <-]. unfold f. destruct ok; [done|]. simpl. by destruct (_ <=? _).
    + rewrite lookup_insert_ne by done. intros Hid Hsend. specialize (Hcl _ _ Hid Hsend). rewrite fmap_cons, elem_of_cons in Hcl. naive_solver.
Qed.

Lemma NoDup_fmap_filter {A B : Type} (f : A → B) (p : A → bool) l : NoDup (f <$> l) → NoDup (f <$> List.filter p l).
Proof.
  induction l as [|x l IH]; [done|]. rewrite fmap_cons, NoDup_cons. intros [Hn Hnd]. cbn [List.filter]. destruct (p x); [|by apply IH].
  rewrite fmap_cons. apply NoDup_cons. split; [|by apply IH]. intros (y & Hy & Hin)%list_elem_of_fmap. apply Hn. rewrite Hy.
  apply list_elem_of_fmap_2. rewrite list_elem_of_In, List.filter_In in Hin. rewrite list_elem_of_In. by destruct Hin.
Qed.

Lemma chosen_nodup order limit now o : keyed o → (∀ l, order l ≡ₚ l) → NoDup ((λ row, pd_ID (po_Delivery row)) <$> push_chosen order limit now o).
Proof.
  intros Hk Hp. unfold push_chosen. rewrite fmap_take. eapply sublist_NoDup; [|apply sublist_take].
  rewrite (stable_sort_perm push_before), Hp. apply NoDup_fmap_filter. rewrite <- list_fmap_compose.
  rewrite (list_fmap_ext _ fst); [apply NoDup_fst_map_to_list|]. intros i [id row] Hi. simpl. apply list_elem_of_lookup_2, elem_of_map_to_list in Hi.
  exact (Hk _ _ Hi).
Qed.

Lemma tally_due order o log db now limit :
  tally [] o log → (∀ l, order l ≡ₚ l) → let rows := push_chosen order limit now o in tally (po_Delivery <$> rows) (claim_all db rows o) log.
Proof.
  intros [Hs Hr Hlog _ Hcl _] Hp rows. pose proof (proj1 Hs) as Hk.
  assert (∀ row, row ∈ rows → o !! pd_ID (po_Delivery row) = Some row ∧ push_due now row = true) as Hrows.
  { intros row Hin. destruct (chosen_spec _ _ _ _ _ Hp Hin) as [[k Hl] Hd]. split; [|done]. by rewrite (Hk _ _ Hl). }
  assert (∀ row, row ∈ rows → claim_all db rows o !! pd_ID (po_Delivery row) = Some (claimed_row db row)) as Hclaim.
  { intros row Hin. destruct (claim_all_lookup db rows o (pd_ID (po_Delivery row))) as [(row' & Hin' & Hid & ->)|[Hall _]]; [|by destruct (Hall row)].
    destruct (Hrows _ Hin') as [Hl' _], (Hrows _ Hin) as [Hl _]. rewrite Hid in Hl'. congruence. }
  split.
  - destruct Hs as [_ Ho]. assert (∀ id row, claim_all db rows o !! id = Some row → pd_ID (po_Delivery row) = id ∧ sound_row row) as Hall.
    { intros id row Hl. destruct (claim_all_lookup db rows o id) as [(row' & Hin & <- & E)|[_ E]]; rewrite E in Hl; [|split; [exact (Hk _ _ Hl)|exact (Ho _ _ Hl)]].
      injection Hl as <-. split; [done|]. destruct (Hrows _ Hin) as [Hl' Hd]. pose proof (Ho _ _ Hl') as [Ha _]. split; [done|]. intros _. simpl.
      unfold push_due in Hd. by apply andb_true_iff in Hd as [Hd%Z.ltb_lt _]. }
    split; intros id row Hl; by apply (Hall id).
  - intros id row Hl. destruct (claim_all_lookup db rows o id) as [(row' & Hin & <- & E)|[_ E]]; rewrite E in Hl; [|by apply Hr].
    injection Hl as <-. destruct (Hrows _ Hin) as [Hl' Hd]. destruct (Hr _ _ Hl') as [Hposts Htaken Hfail Hleft].
    assert (po_Status row' = "pending") as Hpend.
    { unfold push_due in Hd. apply andb_true_iff in Hd as [_ Hd]. apply orb_true_iff in Hd as [Hd|Hd]; apply andb_true_iff in Hd as [Hd%bool_decide_eq_true _]; [done|].
      by apply Hcl, elem_of_nil in Hl'. }
    rewrite Hpend in Hposts, Htaken, Hleft. split; simpl; [exact Hposts|naive_solver|done|by intros _; apply Hleft].
  - intros id b Hin. destruct (Hlog _ _ Hin) as [row Hl]. destruct (claim_all_lookup db rows o id) as [(row' & _ & _ & ->)|[_ ->]]; [by eexists|by rewrite Hl].
  - intros d (row & -> & Hin)%list_elem_of_fmap. exists (claimed_row db row). split; [by apply Hclaim|done].
  - intros id row Hl Hsend. destruct (claim_all_lookup db rows o id) as [(row' & Hin & <- & E)|[_ E]]; rewrite E in Hl.
    + apply list_elem_of_fmap_2. by apply list_elem_of_fmap_2.
    + by apply (Hcl _ _ Hl), elem_of_nil in Hsend.
  - rewrite <- list_fmap_compose. by apply chosen_nodup.
Qed.

Section Posts.
Context `{!URLParser} `{!Timestamps} {C : Type} `{!CallbackNet C}.
Context (cfg : push_config).
Implicit Types (w : push_world (C := C)).

(** A drain whose statements run and that is not interrupted. *)
Record steady (e : drain_env) : Prop := {
  sd_ran : ∀ n, (de_db e n).2 = Ran; sd_alive : ∀ n, de_alive e n = true; sd_order : ∀ l, de_order e l ≡ₚ l }.

Lemma tally_one e d ds w : steady e → tally (d :: ds) (pw_rows w) (pw_log w) → tally ds (pw_rows (push_one cfg e d w)) (pw_log (push_one cfg e d w)).
Proof.
  intros Hst Ht. unfold push_one. destruct (sendA2APush _ _ _ _) as [[ok reason] net]. unfold mark. simpl.
  pose proof (sd_ran _ Hst (pw_steps w)) as Hr. destruct (de_db e (pw_steps w)) as [db st]. simpl in *. subst st. by apply tally_mark.
Qed.

Lemma tally_each e ds w : steady e → tally ds (pw_rows w) (pw_log w) → tally [] (pw_rows (push_each cfg e ds w)) (pw_log (push_each cfg e ds w)).
Proof.
  intros Hst. revert w. induction ds as [|d ds IH]; intros w Ht; simpl; [done|]. rewrite (sd_alive _ Hst). simpl. by apply IH, tally_one.
Qed.

Lemma tally_drain e w : steady e → tally [] (pw_rows w) (pw_log w) →
  tally [] (pw_rows (DrainA2APushOutbox cfg e w)) (pw_log (DrainA2APushOutbox cfg e w)).
Proof.
  intros Hst Ht. unfold DrainA2APushOutbox. pose proof (sd_ran _ Hst (pw_steps w)) as Hr. destruct (de_db e (pw_steps w)) as [db st]. simpl in Hr. subst st.
  simpl. apply tally_each; [done|]. apply tally_due; [done|apply Hst].
Qed.

Lemma tally_enqueue t o log db st d : tally [] o log → tally [] (EnqueueForTask t o db st d).2 log.
Proof.
  intros [Hs Hr Hlog _ Hcl Hnd]. pose proof (sound_step o (OpEnqueue t db st d) Hs I) as Hs'. simpl in Hs'.
  assert (∀ id row, (EnqueueForTask t o db st d).2 !! id = Some row → o !! id = Some row ∨ o !! id = None ∧ po_Status row = "pending" ∧
    pd_Attempts (po_Delivery row) = 0 ∧ 0 < pd_MaxAttempts (po_Delivery row)) as Hrow.
  { intros id row Hl. destruct (o !! id) as [old|] eqn:E.
    - destruct (push_step_row o (OpEnqueue t db st d) id old (proj1 Hs) I E) as (new & Hn & Hst). simpl in Hn. rewrite Hl in Hn. injection Hn as <-.
      left. by inversion Hst.
    - right. destruct (push_step_new o (OpEnqueue t db st d) id row (proj1 Hs) I E Hl) as (? & ? & ? & d' & _ & _ & Hp & Hd). rewrite Hd. simpl.
      split_and!; try done. destruct (Z.leb_spec (pd_MaxAttempts d') 0); lia. }
  split; [done| | |by intros ? ?%elem_of_nil| |done].
  - intros id row Hl. destruct (Hrow _ _ Hl) as [?|(Hn & Hp & Ha & Hm)]; [by apply Hr|]. assert (∀ b, (id, b) ∉ log) as Hno.
    { intros b Hin. destruct (Hlog _ _ Hin). congruence. }
    split; rewrite ?Hp, ?Ha; try done; [|split; [by intros ?%Hno|done]]. unfold posts.
    assert (List.filter (λ e : string * bool, bool_decide (e.1 = id)) log = []) as ->; [|done].
    destruct (List.filter _ log) as [|[i b] rest] eqn:E; [done|]. exfalso. assert (List.In (i, b) (List.filter (λ e, bool_decide (e.1 = id)) log)) as Hin by (rewrite E; by left).
    apply List.filter_In in Hin as [Hin Hi%bool_decide_eq_true]. simpl in Hi. subst i. apply (Hno b). by apply list_elem_of_In.
  - intros id b Hin. destruct (Hlog _ _ Hin) as [row Hl]. destruct (push_step_row o (OpEnqueue t db st d) id row (proj1 Hs) I Hl) as (new & Hn & _). by eexists.
  - intros id row Hl Hsend. destruct (Hrow _ _ Hl) as [Hl'|(_ & Hp & _)]; [by apply (Hcl _ _ Hl')|congruence].
Qed.
(** Callbacks are asked for and drained in any order. *)
Inductive push_event := PEnqueue (t : tasks) (db : Z) (st : statement) (d : A2APushDelivery) | PDrain (e : drain_env).

Definition push_history_step w (ev : push_event) : push_world :=
  match ev with
  | PEnqueue t db st d => {| pw_rows := (EnqueueForTask t (pw_rows w) db st d).2; pw_net := pw_net w; pw_steps := pw_steps w; pw_log := pw_log w |}
  | PDrain e => DrainA2APushOutbox cfg e w
  end.

(** C23: what a worker sends.  When one worker drains the outbox, undisturbed and with a
    working database, then however the callbacks answer and whenever it drains: every
    time it tries to send a callback is one of its counted attempts or the one that was
    taken, so there are at most as many as it is allowed; it is delivered exactly when a
    try was taken, after which none follows; and it is given up only when its attempts
    are used. *)
Theorem push_posts_counted net evs :
  Forall (λ ev, match ev with PDrain e => steady e | _ => True end) evs →
  let w := foldl push_history_step {| pw_rows := ∅; pw_net := net; pw_steps := 0; pw_log := [] |} evs in
  ∀ id row, pw_rows w !! id = Some row →
    posts (pw_log w) id = pd_Attempts (po_Delivery row) + (if bool_decide (po_Status row = "delivered") then 1 else 0) ∧
    posts (pw_log w) id <= pd_MaxAttempts (po_Delivery row) ∧
    ((id, true) ∈ pw_log w ↔ po_Status row = "delivered") ∧
    (po_Status row = "failed" → pd_Attempts (po_Delivery row) = pd_MaxAttempts (po_Delivery row)).
Proof.
  intros Hevs w. assert (tally [] (pw_rows w) (pw_log w)) as Ht.
  { unfold w. set (w0 := {| pw_rows := ∅; pw_net := net; pw_steps := 0; pw_log := [] |}).
    assert (tally [] (pw_rows w0) (pw_log w0)) as Hw.
    { split; [exact sound_empty|intros id row Hl; discriminate Hl|by intros ?? ?%elem_of_nil|by intros ? ?%elem_of_nil|intros id row Hl; discriminate Hl|constructor]. }
    clearbody w0. clear w. revert w0 Hw. induction Hevs as [|ev evs Hev Hevs IH]; intros w Hw; simpl; [done|].
    apply IH. destruct ev; simpl; [by apply tally_enqueue|by apply tally_drain]. }
  intros id row Hl. destruct (tl_rows _ _ _ Ht _ _ Hl) as [Hp Htk Hf Hleft]. split_and!; try done. rewrite Hp.
  destruct (sr_attempts _ (proj2 (tl_sound _ _ _ Ht) _ _ Hl)). case_bool_decide as Hd; [|lia]. specialize (Hleft ltac:(by rewrite Hd)). lia.
Qed.
End Posts.

(** ** Signed callbacks *)

Lemma be_bytes_bytes n v : Forall byte (be_bytes n v).
Proof. revert v. induction n as [|n IH]; intros v; simpl; [constructor|]. apply Forall_app. split; [apply IH|]. repeat constructor; apply Z.mod_pos_bound; lia. Qed.

Lemma sha256_bytes msg : Forall byte (sha256 msg).
Proof.
  unfold sha256. generalize (sha_blocks (length (sha_pad msg) / 64)%nat sha_h0 (sha_pad msg)). intros l.
  induction l as [|x l IH]; [constructor|]. cbn [map concat]. apply Forall_app. split; [apply be_bytes_bytes|exact IH].
Qed.

Lemma sha256_nonempty msg : sha256 msg ≠ [].
Proof.
  unfold sha256. set (p := sha_pad _). generalize (length p / 64)%nat. intros n.
  assert (∀ h bs, length h = 8%nat → length (sha_blocks n h bs) = 8%nat) as Hlen.
  { induction n as [|n IH]; intros h bs Hh; simpl; [done|]. apply IH. by apply sha_block_length. }
  specialize (Hlen sha_h0 p eq_refl). by destruct (sha_blocks n sha_h0 p).
Qed.

(** A receiver accepts what a gateway signed, within the skew it allows; and what it
    accepts under other bytes has the same HMAC. *)
Theorem signed_push_verifies `{!Timestamps} secret id at_ payload now clock maxSkew :
  parse_time (format_time at_) = Some at_ → now ≠ zero_time → in_int64 maxSkew → Z.abs (now - at_) <= maxSkew →
  let signature := "sha256=" +:+ SignPushPayloadWithID secret id (format_time at_) payload in
  VerifyPushPayloadSignatureWithID secret id (format_time at_) signature payload now clock maxSkew = None ∧
  ∀ id' timestamp' payload' now' clock' maxSkew',
    VerifyPushPayloadSignatureWithID secret id' timestamp' signature payload' now' clock' maxSkew' = None →
    SignPushPayloadWithID secret id' timestamp' payload' = SignPushPayloadWithID secret id (format_time at_) payload.
Proof.
  intros Hp Hn Hi Hs signature.
  assert (∀ i t p, ∃ mac, SignPushPayloadWithID secret i t p = hex_encode mac ∧ hex_decode (hex_encode mac) = Some mac ∧ hex_encode mac ≠ "") as Hsign.
  { intros i t p. eexists. split; [reflexivity|]. split; [apply hex_decode_encode, sha256_bytes|]. unfold hmac_sha256.
    match goal with |- hex_encode (sha256 ?m) ≠ _ => pose proof (sha256_nonempty m); destruct (sha256 m); [done|] end. by rewrite hex_encode_cons. }
  destruct (Hsign id (format_time at_) payload) as (mac & Em & Hd & Hne). unfold signature. rewrite Em.
  unfold VerifyPushPayloadSignatureWithID. rewrite (bool_decide_false ("sha256=" +:+ hex_encode mac = "")) by done. rewrite after_prefix_app.
  rewrite (bool_decide_false (hex_encode mac = "")) by done. rewrite Hd. split.
  - rewrite Hp. destruct (Z.eqb_spec now zero_time); [done|]. rewrite Em, Hd, bool_decide_true by done.
    assert ((maxSkew <? (if time_sub now at_ <? 0 then wrap64 (- time_sub now at_) else time_sub now at_)) = false) as ->; [|by rewrite andb_false_r].
    assert (Z.abs (time_sub now at_) <= maxSkew) as Ha by (unfold time_sub; unfold_ints; lia).
    apply Z.ltb_ge. destruct (Z.ltb_spec (time_sub now at_) 0); [|lia]. rewrite wrap64_id; [lia|]. unfold_ints. lia.
  - intros id' timestamp' payload' now' clock' maxSkew'. destruct (Hsign id' timestamp' payload') as (mac' & Em' & Hd' & _).
    destruct (parse_time timestamp'); [|done]. destruct (_ && _); [done|]. rewrite Em', Hd'. case_bool_decide as E; [|done]. by rewrite E.
Qed.

(** The id is told from the payload by a line break only: a delivery signed without an
    id verifies under the first line of its payload. *)
Lemma first_line_is_the_id secret id timestamp payload :
  id ≠ "" → SignPushPayload secret timestamp (id +:+ newline +:+ payload) = SignPushPayloadWithID secret id timestamp payload.
Proof. intros Hid. unfold SignPushPayload, SignPushPayloadWithID. rewrite (bool_decide_false (id = "")) by done. by rewrite bool_decide_true, str_nil_app, !str_app_assoc. Qed.

(** ** The event outbox *)

Record event_row := {
  eo_Event : DomainEvent; eo_Status : string; eo_Attempts : Z; eo_NextAttemptAt : Z; eo_UpdatedAt : Z }.
Record OutboxEvent := { oe_Event : DomainEvent; oe_Attempts : Z }.

Abbreviation outbox_events := (gmap string event_row).

Definition domainEventClaimTimeout : Z := 5 * minute.

Definition occurred_at (event : DomainEvent) (occurred : Z) : DomainEvent :=
  {| ev_ID := ev_ID event; ev_Kind := ev_Kind event; ev_OccurredAt := occurred; ev_TenantID := ev_TenantID event;
     ev_ProjectID := ev_ProjectID event; ev_RequestID := ev_RequestID event; ev_Attributes := ev_Attributes event |}.

Definition wrapped {B T : Type} (msg : string) (answer : result B * T) : result B * T :=
  match answer with (Err err, t) => (Err (ErrWrap msg err), t) | ok => ok end.

(** [clock] is [time.Now]; the attributes are stored as their JSON text, which reads back
    as they were. *)
Definition event_Enqueue (o : outbox_events) (clock db : Z) (st : statement) (event : DomainEvent) : result unit * outbox_events :=
  if bool_decide (ev_ID event = "") || bool_decide (ev_Kind event = "") then (Ok tt, o)
  else
    let occurred := if ev_OccurredAt event =? zero_time then clock else ev_OccurredAt event in
    wrapped "enqueue domain event" (ran st o (λ o,
      (Ok tt, match o !! ev_ID event with
              | Some _ => o
              | None => <[ev_ID event := {| eo_Event := occurred_at event occurred; eo_Status := "queued"; eo_Attempts := 0;
                                            eo_NextAttemptAt := time_add occurred domainEventClaimTimeout; eo_UpdatedAt := seconds_of db |}]> o
              end))).

Definition event_due (now : Z) (row : event_row) : bool :=
  bool_decide (eo_Status row ∈ ["queued"; "failed"]) && (eo_NextAttemptAt row <=? seconds_of now) ||
  bool_decide (eo_Status row = "claiming") && (eo_UpdatedAt row <? seconds_of (time_add now (- domainEventClaimTimeout))).

Definition event_chosen (order : list event_row → list event_row) (limit now : Z) (o : outbox_events) : list event_row :=
  take (Z.to_nat limit) (stable_sort (λ a b, eo_NextAttemptAt a <? eo_NextAttemptAt b) (order (List.filter (event_due now) (map_to_list o).*2))).

Definition claiming_row (now : Z) (row : event_row) : event_row :=
  let lease := seconds_of (time_add now domainEventClaimTimeout) in
  {| eo_Event := eo_Event row; eo_Status := "claiming"; eo_Attempts := eo_Attempts row; eo_NextAttemptAt := lease; eo_UpdatedAt := lease |}.

Definition event_Due (order : list event_row → list event_row) (o : outbox_events) (now : Z) (st : statement) (limit : Z) :
    result (list OutboxEvent) * outbox_events :=
  wrapped "claim domain events" (ran st o (λ o,
    let rows := event_chosen order limit now o in
    (Ok ((λ row, {| oe_Event := eo_Event row; oe_Attempts := eo_Attempts row |}) <$> rows),
     foldl (λ o row, <[ev_ID (eo_Event row) := claiming_row now row]> o) o rows))).

Definition event_update (id : string) (f : event_row → event_row) (o : outbox_events) : result unit * outbox_events :=
  (Ok tt, match o !! id with Some row => <[id := f row]> o | None => o end).

Definition sent_row (db : Z) (row : event_row) : event_row :=
  {| eo_Event := eo_Event row; eo_Status := "sent"; eo_Attempts := eo_Attempts row; eo_NextAttemptAt := eo_NextAttemptAt row; eo_UpdatedAt := seconds_of db |}.

Definition event_MarkDelivered (o : outbox_events) (db : Z) (st : statement) (id : string) : result unit * outbox_events :=
  wrapped "mark domain event delivered" (ran st o (event_update id (sent_row db))).

Definition failed_row (db next : Z) (exhausted : bool) (row : event_row) : event_row :=
  {| eo_Event := eo_Event row; eo_Status := if exhausted then "failed" else "queued"; eo_Attempts := eo_Attempts row + 1;
     eo_NextAttemptAt := next; eo_UpdatedAt := seconds_of db |}.

Definition event_MarkFailed (o : outbox_events) (db : Z) (st : statement) (id : string) (next : Z) (exhausted : bool) : result unit * outbox_events :=
  wrapped "mark domain event failed" (ran st o (event_update id (failed_row db next exhausted))).

Record DomainEventOutboxSummary := {
  es_Queued : Z; es_Claiming : Z; es_Sent : Z; es_Failed : Z; es_EarliestNextAttemptAt : option Z }.

Definition event_SummaryAll (o : outbox_events) : DomainEventOutboxSummary :=
  let rows := (map_to_list o).*2 in
  let count status := Z.of_nat (length (List.filter (λ row, bool_decide (eo_Status row = status)) rows)) in
  {| es_Queued := count "queued"; es_Claiming := count "claiming"; es_Sent := count "sent"; es_Failed := count "failed";
     es_EarliestNextAttemptAt :=
       foldr (λ row earliest, if bool_decide (eo_Status row = "queued")
                              then Some (match earliest with Some t => Z.min (eo_NextAttemptAt row) t | None => eo_NextAttemptAt row end)
                              else earliest) None rows |}.

(** *** app/eventoutbox.go and app/outboxworker.go *)

Definition domainEventOutboxMaxAttempts : Z := 5.
Definition domainEventOutboxBackoffCap : Z := 5 * minute.

Definition backoffFor (attempt : Z) : Z :=
  let duration := wrap64 (wrap64 (attempt * attempt) * second) in
  if domainEventOutboxBackoffCap <? duration then domainEventOutboxBackoffCap else duration.

Section Events.
Context {K : Type} `{!EventSink K}.

Record event_world := { ew_rows : outbox_events; ew_sink : K; ew_steps : nat }.

(** The times of the process, and time and fate of the statements. *)
Record event_env := { ee_now : nat → Z; ee_db : nat → Z * statement; ee_order : list event_row → list event_row }.

Definition on_events {B : Type} (e : event_env) (f : outbox_events → Z → statement → B * outbox_events) (w : event_world) : B * event_world :=
  let '(db, st) := ee_db e (ew_steps w) in
  let '(b, o) := f (ew_rows w) db st in
  (b, {| ew_rows := o; ew_sink := ew_sink w; ew_steps := S (ew_steps w) |}).

(** [next] tells whether there is a sink behind the outbox; it gets the event as it came. *)
Definition durable_Emit (e : event_env) (next : bool) (event : DomainEvent) (w : event_world) : option error * event_world :=
  let '(_, w) := on_events e (λ o db st, event_Enqueue o (ee_now e (ew_steps w)) db st event) w in
  if negb next then (None, w)
  else
    let '(err, k) := sink_Emit (ew_sink w) event in
    let w := {| ew_rows := ew_rows w; ew_sink := k; ew_steps := ew_steps w |} in
    match err with
    | None => let '(_, w) := on_events e (λ o db st, event_MarkDelivered o db st (ev_ID event)) w in (None, w)
    | Some err => (Some err, w)
    end.

Definition deliver_event (e : event_env) (now : Z) (claimed : OutboxEvent) (w : event_world) : event_world :=
  let '(err, k) := sink_Emit (ew_sink w) (oe_Event claimed) in
  let w := {| ew_rows := ew_rows w; ew_sink := k; ew_steps := ew_steps w |} in
  let id := ev_ID (oe_Event claimed) in
  match err with
  | Some _ =>
      let attempt := wrap64 (oe_Attempts claimed + 1) in
      (on_events e (λ o db st, event_MarkFailed o db st id (time_add now (backoffFor attempt)) (domainEventOutboxMaxAttempts <=? attempt)) w).2
  | None => (on_events e (λ o db st, event_MarkDelivered o db st id) w).2
  end.

Definition event_Drain (e : event_env) (w : event_world) : option error * event_world :=
  let now := ee_now e (ew_steps w) in
  match on_events e (λ o _ st, event_Due (ee_order e) o now st 64) w with
  | (Err err, w) => (Some err, w)
  | (Ok events, w) => (None, foldl (λ w claimed, deliver_event e now claimed w) w events)
  end.
End Events.

(** *** No event is lost *)

Inductive event_op :=
| EvEnqueue (clock db : Z) (st : statement) (event : DomainEvent)
| EvDue (order : list event_row → list event_row) (now : Z) (st : statement) (limit : Z)
| EvDelivered (db : Z) (st : statement) (id : string)
| EvFailed (db : Z) (st : statement) (id : string) (next : Z) (exhausted : bool).

Definition event_step (o : outbox_events) (op : event_op) : outbox_events :=
  match op with
  | EvEnqueue clock db st event => (event_Enqueue o clock db st event).2
  | EvDue order now st limit => (event_Due order o now st limit).2
  | EvDelivered db st id => (event_MarkDelivered o db st id).2
  | EvFailed db st id next exhausted => (event_MarkFailed o db st id next exhausted).2
  end.
Definition event_run : outbox_events → list event_op → outbox_events := foldl event_step.

Definition fair_event (op : event_op) : Prop := match op with EvDue order _ _ _ => ∀ l, order l ≡ₚ l | _ => True end.

(** Rows are under the id of their event and in a known status. *)
Definition sound_event (id : string) (row : event_row) : Prop :=
  ev_ID (eo_Event row) = id ∧ eo_Status row ∈ ["queued"; "claiming"; "sent"; "failed"].

(** A statement keeps the event of a row, and adds rows only. *)
Definition keeps_event (o o' : outbox_events) : Prop :=
  ∀ id row, o !! id = Some row → ∃ row', o' !! id = Some row' ∧ eo_Event row' = eo_Event row.

Lemma wrapped_snd {B T : Type} msg (answer : result B * T) : (wrapped msg answer).2 = answer.2.
Proof. by destruct answer as [[]]. Qed.

Lemma claim_events_ok now rows o :
  map_Forall sound_event o → (∀ row, row ∈ rows → o !! ev_ID (eo_Event row) = Some row) →
  map_Forall sound_event (foldl (λ o row, <[ev_ID (eo_Event row) := claiming_row now row]> o) o rows) ∧
  keeps_event o (foldl (λ o row, <[ev_ID (eo_Event row) := claiming_row now row]> o) o rows).
Proof.
  intros Ho Hrows. induction rows as [|row rows IH] using rev_ind; [by split; [done|intros id row Hl; eauto]|].
  rewrite foldl_app. simpl. destruct IH as [Hs Hk]; [intros r Hr; apply Hrows; set_solver|]. split.
  - apply map_Forall_insert_2; [|done]. split; [done|]. simpl. set_solver.
  - intros id r Hl. destruct (decide (ev_ID (eo_Event row) = id)) as [<-|Hne]; [|rewrite lookup_insert_ne by done; eauto].
    rewrite lookup_insert_eq. rewrite (Hrows row) in Hl by set_solver. injection Hl as ->. by eexists.
Qed.

Lemma event_update_ok id f o :
  map_Forall sound_event o → (∀ row, eo_Event (f row) = eo_Event row ∧ eo_Status (f row) ∈ ["queued"; "claiming"; "sent"; "failed"]) →
  map_Forall sound_event (event_update id f o).2 ∧ keeps_event o (event_update id f o).2.
Proof.
  intros Ho Hf. unfold event_update. simpl. destruct (o !! id) as [row|] eqn:E; [|by split; [done|intros i r Hl; eauto]].
  destruct (Hf row) as [He Hst]. destruct (Ho _ _ E) as [Hid _]. split; [apply map_Forall_insert_2; [|done]; by split; [rewrite He|]|].
  intros i r Hl. destruct (decide (id = i)) as [<-|Hne]; [|rewrite lookup_insert_ne by done; eauto]. rewrite lookup_insert_eq.
  rewrite E in Hl. injection Hl as <-. eauto.
Qed.

Lemma chosen_events order limit now o row :
  (∀ l, order l ≡ₚ l) → row ∈ event_chosen order limit now o → ∃ id, o !! id = Some row.
Proof.
  intros Hp Hin. unfold event_chosen in Hin.
  assert (row ∈ List.filter (event_due now) (map_to_list o).*2) as Hf.
  { rewrite <- (Hp (List.filter _ _)), <- (stable_sort_perm (λ a b, eo_NextAttemptAt a <? eo_NextAttemptAt b)). by eapply subseteq_take. }
  rewrite list_elem_of_In, List.filter_In, <- list_elem_of_In, elem_of_values in Hf. by destruct Hf.
Qed.

Lemma event_step_ok o op :
  map_Forall sound_event o → fair_event op → map_Forall sound_event (event_step o op) ∧ keeps_event o (event_step o op).
Proof.
  intros Ho Hf. assert (map_Forall sound_event o ∧ keeps_event o o) as Hsame by (split; [done|intros id row Hl; eauto]).
  destruct op as [clock db st event|order now st limit|db st id|db st id next ex]; simpl.
  - unfold event_Enqueue. case_match; [done|]. rewrite wrapped_snd. match goal with |- context [ran st o ?f] => destruct (ran_cases st o f) as [E|E]; rewrite E end; [done|].
    simpl. destruct (o !! ev_ID event) eqn:Ee; [done|]. split; [apply map_Forall_insert_2; [|done]; split; [done|simpl; set_solver]|].
    intros i r Hl. rewrite lookup_insert_ne by congruence. eauto.
  - unfold event_Due. rewrite wrapped_snd. match goal with |- context [ran st o ?f] => destruct (ran_cases st o f) as [E|E]; rewrite E end; [done|].
    simpl. apply claim_events_ok; [done|]. intros row Hr. destruct (chosen_events _ _ _ _ _ Hf Hr) as [id Hl]. by rewrite (proj1 (Ho _ _ Hl)).
  - unfold event_MarkDelivered. rewrite wrapped_snd. match goal with |- context [ran st o ?f] => destruct (ran_cases st o f) as [E|E]; rewrite E end; [done|].
    apply event_update_ok; [done|]. intros row. split; [done|simpl; set_solver].
  - unfold event_MarkFailed. rewrite wrapped_snd. match goal with |- context [ran st o ?f] => destruct (ran_cases st o f) as [E|E]; rewrite E end; [done|].
    apply event_update_ok; [done|]. intros row. split; [done|]. simpl. destruct ex; set_solver.
Qed.

Lemma event_run_ok o ops :
  map_Forall sound_event o → Forall fair_event ops → map_Forall sound_event (event_run o ops) ∧ keeps_event o (event_run o ops).
Proof.
  intros Ho Hf. revert o Ho. induction Hf as [|op ops Hop Hf IH]; intros o Ho; simpl; [by split; [done|intros id row Hl; eauto]|].
  destruct (event_step_ok o op Ho Hop) as [Hs Hk]. destruct (IH _ Hs) as [Hs' Hk']. split; [done|]. intros id row Hl.
  destruct (Hk _ _ Hl) as (row1 & Hl1 & E1). destruct (Hk' _ _ Hl1) as (row2 & Hl2 & E2). exists row2. split; [done|congruence].
Qed.

(** What is not sent is due once its time, or the time of its claim, is past. *)
Lemma unsent_due now id row :
  sound_event id row → eo_Status row ≠ "sent" →
  Z.max (eo_NextAttemptAt row) (eo_UpdatedAt row + domainEventClaimTimeout) + second <= now → event_due now row = true.
Proof.
  intros [_ Hst] Hns Hnow. assert (∀ t, t - second < seconds_of t) as Hsec.
  { intros t. unfold seconds_of. pose proof (Z.mod_pos_bound t second ltac:(done)). lia. }
  pose proof (Hsec now). pose proof (Hsec (time_add now (- domainEventClaimTimeout))) as Hclaim. unfold time_add in *. unfold event_due, time_add.
  rewrite !elem_of_cons, elem_of_nil in Hst. destruct Hst as [E|[E|[E|[E|[]]]]]; rewrite E in *; try done; rewrite ?bool_decide_true by set_solver.
  - apply orb_true_iff. left. apply Z.leb_le. lia.
  - apply orb_true_iff. right. apply Z.ltb_lt. lia.
  - apply orb_true_iff. left. apply Z.leb_le. lia.
Qed.

Lemma length_filter {A : Type} (p : A → bool) l : (length (List.filter p l) <= length l)%nat.
Proof. induction l as [|x l IH]; simpl; [done|]. destruct (p x); simpl; lia. Qed.

(** A scan that may take the whole table takes what is due. *)
Lemma due_is_chosen order limit now o id row :
  (∀ l, order l ≡ₚ l) → o !! id = Some row → event_due now row = true → Z.of_nat (size o) <= limit → row ∈ event_chosen order limit now o.
Proof.
  intros Hp Hl Hd Hlim. unfold event_chosen. set (rows := List.filter (event_due now) (map_to_list o).*2).
  set (sooner := λ a b, eo_NextAttemptAt a <? eo_NextAttemptAt b).
  assert (length (stable_sort sooner (order rows)) <= Z.to_nat limit)%nat as Hlen.
  { rewrite (stable_sort_perm sooner), Hp.
    pose proof (length_filter (event_due now) (map_to_list o).*2) as Hf. rewrite length_fmap, length_map_to_list in Hf. fold rows in Hf. lia. }
  rewrite take_ge by done. rewrite (stable_sort_perm sooner), Hp.
  unfold rows. rewrite list_elem_of_In, List.filter_In, <- list_elem_of_In. split; [|done]. apply elem_of_values. eauto.
Qed.

(** C24: no event is lost while it has attempts left.  Once an event is in the outbox it
    stays there as it was recorded, whatever statements the processes run, in any order
    and with any of them failing or their answers lost; and as long as it is queued or
    claimed - neither marked as sent nor as failed with its attempts used - every scan
    that runs late enough, a second after its time and after the claim of a worker that
    died, and may take the whole table returns it. *)
Theorem unsent_events_come_due ops later id row :
  Forall fair_event ops → Forall fair_event later → event_run ∅ ops !! id = Some row →
  ∃ row', event_run ∅ (ops ++ later)%list !! id = Some row' ∧ eo_Event row' = eo_Event row ∧
    (eo_Status row' ≠ "sent" → eo_Status row' ≠ "failed" → ∀ order now limit,
      (∀ l, order l ≡ₚ l) → Z.of_nat (size (event_run ∅ (ops ++ later)%list)) <= limit →
      Z.max (eo_NextAttemptAt row') (eo_UpdatedAt row' + domainEventClaimTimeout) + second <= now →
      ∃ events, (event_Due order (event_run ∅ (ops ++ later)%list) now Ran limit).1 = Ok events ∧
        {| oe_Event := eo_Event row; oe_Attempts := eo_Attempts row' |} ∈ events).
Proof.
  intros Hf Hf' Hl. destruct (event_run_ok ∅ ops (map_Forall_empty _) Hf) as [Hs _].
  assert (event_run ∅ (ops ++ later)%list = event_run (event_run ∅ ops) later) as -> by apply foldl_app.
  destruct (event_run_ok _ later Hs Hf') as [Hs' Hk]. destruct (Hk _ _ Hl) as (row' & Hl' & He). exists row'. split_and!; [done|done|].
  intros Hns _ order now limit Hp Hlim Hnow. eexists. split; [done|]. rewrite <- He.
  apply (list_elem_of_fmap_2 (λ row, {| oe_Event := eo_Event row; oe_Attempts := eo_Attempts row |})).
  eapply due_is_chosen; [done|exact Hl'| |done]. eapply unsent_due; [exact (Hs' _ _ Hl')|done|done].
Qed.

(** ** Concrete outboxes *)

Ltac all_fair := repeat (apply List.Forall_cons; [first [exact I|exact (λ l, Permutation_refl l)]|]); apply List.Forall_nil.

Definition a_task : A2ATask :=
  {| a2_TaskID := "t"; a2_TenantID := "acme"; a2_ExternalAgentID := ""; a2_ProjectID := ""; a2_RequestID := ""; a2_IdempotencyKey := "";
     a2_Status := A2ATaskCompleted; a2_Message := ""; a2_Result := ""; a2_Hops := 0; a2_Calls := 0; a2_Attempts := 0; a2_CreatedAt := 0; a2_UpdatedAt := 0 |}.
Definition a_table : tasks := {[("acme", "t") := a_task]}.

Definition a_push : A2APushDelivery :=
  {| pd_ID := "p"; pd_TaskID := "t"; pd_CallbackURL := "https://hooks.example/a"; pd_BearerToken := ""; pd_Payload := "{}";
     pd_Attempts := 0; pd_MaxAttempts := a2aPushDefaultMaxAttempts |}.

Definition at_second (n : Z) : Z := n * second.
Definition scan (n : Z) : push_op := OpDue id (at_second n) (at_second n) Ran 25.
Definition gave_up (n : Z) (exhausted : bool) : push_op := OpAttempt (at_second n) Ran "p" (at_second n) exhausted "callback unreachable".

Lemma push_retries_bounded_witness :
  push_run ∅ ([OpEnqueue a_table 0 Ran a_push; scan 1; OpDelivered (at_second 2) Ran "p"] ++ [gave_up 3 false; scan 4])%list !! "p" =
  Some (delivered_row (at_second 2) {| po_Delivery := a_push; po_TenantID := "acme"; po_Status := "sending"; po_NextAttemptAt := 0;
                                       po_LastError := ""; po_CreatedAt := 0; po_UpdatedAt := at_second 1 |}).
Proof.
  refine (proj1 (proj2 (push_retries_bounded [OpEnqueue a_table 0 Ran a_push; scan 1; OpDelivered (at_second 2) Ran "p"] [gave_up 3 false; scan 4] _ _ "p" _ _) _)).
  - all_fair.
  - all_fair.
  - vm_compute. reflexivity.
  - by left.
Defined.

Lemma claimed_push_is_exclusive_witness :
  match (push_Due id (push_run (push_Due id (push_run ∅ [OpEnqueue a_table 0 Ran a_push]) (at_second 1) (at_second 1) Ran 25).2 [scan 60])
           (at_second 300) (at_second 300) Ran 25).1 with
  | Ok ds' => "p" ∉ pd_ID <$> ds'
  | Err _ => True
  end.
Proof.
  eapply (claimed_push_is_exclusive (push_run ∅ [OpEnqueue a_table 0 Ran a_push]) id (at_second 1) (at_second 1) 25 [with_max a_push 0 3] "p"
            [scan 60] id (at_second 300) (at_second 300) Ran 25).
  - apply sound_run; [exact sound_empty|all_fair].
  - done.
  - vm_compute. reflexivity.
  - vm_compute. left.
  - apply List.Forall_cons; [|apply List.Forall_nil]. split; [exact (λ l, Permutation_refl l)|]. vm_compute. congruence.
  - done.
  - vm_compute. congruence.
Defined.

(** A receiver that answers the posts in turn, and a worker that drains every minute. *)
#[local] Instance callback_urls : URLParser :=
  {| url_Parse := λ s, match after_prefix "https://" s with
                       | Some host => Ok {| url_Scheme := "https"; url_User := false; url_Host := host; url_Opaque := ""; url_Path := "" |}
                       | None => Err (ErrNew "unsupported scheme")
                       end |}.
#[local] Instance no_timestamps : Timestamps := {| format_time := λ _, ""; parse_time := λ _, None |}.
#[local] Instance answering : CallbackNet (list Z) :=
  {| callback_Do := λ net _, match net with [] => (Err (ErrNew "connection refused"), []) | status :: net => (Ok status, net) end |}.

Definition unsealed : push_config :=
  {| pc_SealURL := None; pc_OpenURL := None; pc_SealBearer := None; pc_OpenBearer := None; pc_SealPayload := None; pc_OpenPayload := None; pc_SigningSecret := [] |}.
Definition every_minute : drain_env :=
  {| de_now := λ n, Z.of_nat n * minute; de_db := λ n, (Z.of_nat n * minute, Ran); de_alive := λ _, true; de_order := id |}.
Definition drained : push_world :=
  foldl (push_history_step unsealed) {| pw_rows := ∅; pw_net := [500; 200; 200]; pw_steps := 0; pw_log := [] |}
    [PEnqueue a_table 0 Ran a_push; PDrain every_minute; PDrain every_minute; PDrain every_minute].

(** Posted twice, as the second post was taken. *)
Lemma push_posts_counted_witness :
  posts (pw_log drained) "p" = 1 + 1 ∧ posts (pw_log drained) "p" <= 3 ∧ (("p", true) ∈ pw_log drained ↔ "delivered" = "delivered") ∧
  ("delivered" = "failed" → 1 = 3).
Proof.
  refine (push_posts_counted unsealed [500; 200; 200] [PEnqueue a_table 0 Ran a_push; PDrain every_minute; PDrain every_minute; PDrain every_minute] _ "p"
            {| po_Delivery := with_max a_push 1 3; po_TenantID := "acme"; po_Status := "delivered"; po_NextAttemptAt := 61 * second;
               po_LastError := "callback status 500"; po_CreatedAt := 0; po_UpdatedAt := 3 * minute |} _).
  - apply List.Forall_cons; [exact I|]. repeat (apply List.Forall_cons; [split; [done|done|exact (λ l, Permutation_refl l)]|]). apply List.Forall_nil.
  - vm_compute. reflexivity.
Defined.

Definition an_event : DomainEvent :=
  {| ev_ID := "e"; ev_Kind := "budget.exceeded"; ev_OccurredAt := 0; ev_TenantID := "acme"; ev_ProjectID := ""; ev_RequestID := ""; ev_Attributes := [] |}.

(** The process that recorded the event, and the worker that claimed it, both die. *)
Lemma unsent_events_come_due_witness :
  ∃ row' : event_row, event_run ∅ ([EvEnqueue 0 0 Ran an_event] ++ [EvDue id (at_second 301) Ran 64])%list !! "e" = Some row' ∧ eo_Event row' = an_event ∧
    (eo_Status row' ≠ "sent" → eo_Status row' ≠ "failed" → ∀ order now limit,
      (∀ l : list event_row, order l ≡ₚ l) →
      Z.of_nat (size (event_run ∅ ([EvEnqueue 0 0 Ran an_event] ++ [EvDue id (at_second 301) Ran 64])%list)) <= limit →
      Z.max (eo_NextAttemptAt row') (eo_UpdatedAt row' + domainEventClaimTimeout) + second <= now →
      ∃ events, (event_Due order (event_run ∅ ([EvEnqueue 0 0 Ran an_event] ++ [EvDue id (at_second 301) Ran 64])%list) now Ran limit).1 = Ok events ∧
        {| oe_Event := an_event; oe_Attempts := eo_Attempts row' |} ∈ events).
Proof.
  refine (unsent_events_come_due [EvEnqueue 0 0 Ran an_event] [EvDue id (at_second 301) Ran 64] "e"
            {| eo_Event := an_event; eo_Status := "queued"; eo_Attempts := 0; eo_NextAttemptAt := domainEventClaimTimeout; eo_UpdatedAt := 0 |} _ _ _).
  - all_fair.
  - all_fair.
  - vm_compute. reflexivity.
Defined.

(** ** Where the guarantees end *)

(** The worker tells from its own copy whether the attempts are used, the table counts
    them.  A worker whose claim was taken over marks the callback while another one is
    sending it: the callback stays pending with all its attempts used, and is neither
    sent again nor reported as failed. *)
Example callback_is_stranded :
  match push_run ∅ [OpEnqueue a_table 0 Ran a_push; scan 0; scan 301; gave_up 302 false; scan 303; gave_up 304 false; scan 305; gave_up 306 false; gave_up 307 true] !! "p" with
  | Some row => po_Status row = "pending" ∧ ∀ now, push_due now row = false
  | None => False
  end.
Proof. vm_compute. split; [done|]. by intros []. Qed.

(** A failed event whose attempts are used is claimed again like any other. *)
Example exhausted_event_is_sent_again :
  (event_Due id (event_run ∅ [EvEnqueue 0 0 Ran an_event; EvDue id (at_second 300) Ran 64; EvFailed (at_second 300) Ran "e" (at_second 325) true])
     (at_second 325) Ran 64).1 = Ok [{| oe_Event := an_event; oe_Attempts := 1 |}].
Proof. vm_compute. reflexivity. Qed.

(** The failure of a worker whose claim was taken over reopens an event that was sent. *)
Example sent_event_is_sent_again :
  (event_Due id (event_run ∅ [EvEnqueue 0 0 Ran an_event; EvDue id (at_second 300) Ran 64; EvDue id (at_second 1000) Ran 64;
                              EvDelivered (at_second 1001) Ran "e"; EvFailed (at_second 1002) Ran "e" (at_second 1003) false])
     (at_second 1003) Ran 64).1 = Ok [{| oe_Event := an_event; oe_Attempts := 1 |}].
Proof. vm_compute. reflexivity. Qed.
